(* ===== verification/_CoqProject ===== *)
-Q . S2P
Prelude.v
Keys.v
Meta.v
Store.v
Data.v
Quota.v
Locks.v
Volume.v
Vfs.v
Tree.v
Wf.v
WfOps.v
VfsLogic.v
VfsInv.v
OpsAttr.v
OpsRead.v
OpsCreate.v
Reap.v
OpsRemove.v
OpsRename.v
OpsData.v
OpsHandle.v
System.v
Mount.v
Concrete.v
Spec.v
Namespace.v
Files.v
Still.v
Finite.v
Fence.v
Safety.v
Demo.v
Race.v
Fsck.v
FsckThm.v
FsckSound.v
Witness.v
Snap.v
SnapThm.v
SnapWitness.v
Block.v
BlockThm.v
BlockOps.v
BlockTrim.v
BlockSpec.v
BlockLife.v
BlockWitness.v
P9.v
P9Thm.v
P9Type.v
P9Srv.v
P9Dir.v
P9Ends.v
P9SrvThm.v
P9Witness.v
Nbd.v
NbdThm.v
NbdSpec.v
NbdWitness.v
NfsFh.v
NfsTx.v
Nfs.v
NfsSrv.v
NfsThm.v
NfsDir.v
NfsExcl.v
NfsWitness.v
