(* ===== verification/Prelude.v ===== *)
(** * SlateFS: a verified model of the storage core and its network front ends

    SlateFS keeps POSIX file systems and block devices in an object store,
    through the key-value engine SlateDB. One process mounts a volume: it opens
    the volume's database, recovers what a crash left, and serves the volume
    through the [Vfs] trait (files, over NFS and 9P) or the [BlockDev] trait (a
    disk, over NBD). This library models that path, from the bytes of a client's
    request to the records of the database, and proves it correct.

    ** The program and its model

    The sources are under [src/crates]; [core] is [slatefs-core/src].

    - Keys and records. [Keys] is the key layout ([core/meta/keys.rs]), as the
      byte strings the code builds and parses and as a datatype [Key] ordered by
      its bytes. [Meta] has the records ([core/meta/inode.rs], [dirent.rs],
      [superblock.rs]), their versioned encoding over a serialiser given as a
      class, the errors and the vocabulary of [core/vfs.rs].
    - The engine. [Store] states SlateDB as the class [SlateDB]: atomic ordered
      write batches with a merge operator, and ordered scans. A write is not
      durable when it returns (the code opens the engine so): the class says
      which contents may survive a crash, a prefix of the writes that a flush
      closes; two instances are given, one that is durable at once and one that
      is not before a flush. An [Engine] adds a list of faults to come, so that
      any call may fail, and a log of writes.
    - File data and quota. [Data] is [core/data.rs]: chunked reads, planned
      writes and truncations, and the bill of a chunk. [Quota] is
      [core/quota.rs]: the tracker, soft and hard limits, the counters.
    - Locks. [Locks] is [core/locks.rs]: striped locks as a transition system of
      tasks, which take theirs in stripe order and may let go of all of them and
      start over as the removals and rename do, and the byte-range lock table.
    - The volume. [Volume] is [core/volume.rs] with [health.rs], [attrcache.rs],
      [meta/alloc.rs] and the sealing of names ([crypto/names.rs], the cipher
      being a class): mkfs, open with crash recovery, the reaper. Its state is
      the record [Volume]; a method is a computation [FsM] that passes the state
      and may fail, keeping what it did before.
    - File operations. [Vfs] is [core/vfs_impl.rs], every operation of the trait
      with its guards, caches, quota reservations and single commit.
    - Snapshots. [Snap] is [core/snapshot.rs]: the read-only volume over the
      reader of a checkpoint, which answers the reading half of the trait with
      no caches, tracker or health of its own.
    - The checker. [Fsck] is [core/fsck.rs], for both kinds of volume.
    - Block volumes. [Block] is [core/block.rs]: [BlockVolume], its snapshot
      reader and the read-only and strict-sync decorators.
    - 9P. [P9] is the wire format ([rs9p/src/fcall.rs], [serialize.rs]); [P9Srv]
      is the dispatcher ([rs9p/src/srv.rs]) with every handler of the adapter
      ([slatefs-9p/src/filesystem.rs]), over the operations of [Vfs].
    - NFS. [NfsFh] is the file handles ([slatefs-nfs/src/fh.rs] and
      [nfs3-server/src/vfs/handle.rs]), [NfsTx] the table that recognises
      retransmissions ([transaction_tracker.rs]), [Nfs] the adapter
      ([slatefs-nfs/src/adapter.rs]) with the squash policy and the streaming
      directory iterator, and [NfsSrv] the server: every procedure of NFSv3,
      MOUNT and portmap and the dispatch of a message ([nfs_handlers.rs],
      [mount_handlers.rs], [portmap_handlers.rs], [rpcwire.rs]).
    - NBD. [Nbd] is [slatefs-nbd/src/lib.rs]: option negotiation with TLS and
      the writable-session lease, request parsing and validation, and execution
      over any [BlockDev].

    Rust integers are [Z] with the wrap-around of the release build written out
    where a value can leave its width. Maps are stdpp's [gmap], byte strings are
    [list Z]. Stateful code is the monad [ST] of this file; [Halt] separates an
    error of the program from fuel that ran out.

    ** Faults, other tasks and fuel

    Every engine call may fail by the engine's fault list; the theorems hold for
    all lists unless they say the volume is [quiet]. A volume is shared by tasks
    that synchronise on its locks: where the code waits for a lock the model
    applies [others], any function on the volume that keeps the invariant
    ([rely], for blocks [brely]). Between two such waits an operation runs whole.
    For the mutations this is what the locks give; the reading calls take no
    lock, and [Race] shows what that leaves out: a change that commits between
    the read and the cache fill of [lookup] or [getattr] leaves a stale entry,
    so the coherence of the caches holds of calls that do not overlap so.

    Loops the source leaves unbounded (the
    retries of lock-and-revalidate, the ancestor walk of rename, the batches of
    the reaper and of trim, the pages of a 9P or NFS listing, the options of an
    NBD negotiation) take [fuel]. The theorems show that it is enough: for a quiet
    volume without other tasks, sixteen more than the number of records; for
    trim, two more than the chunks of the device; for a listing, one more than
    the entries of the directory; for a 9P request, nineteen more than the
    records; for the requests of an NBD session, one more than the bytes
    received. [Finite] proves that the calls without such loops return on any
    volume. A theorem that allows fuel to run out says so.

    ** The theorems

    - The invariant. [Tree], [Wf] and [VfsInv] state it: names resolve and are
      indexed, link counts are exact, directories form a tree, every chunk lies
      in its file, the bill and the counters are exact, orphans are marked,
      caches agree with the records. [System] and [Safety] prove that any calls
      under faults and interference keep it ([calls_consistent]), as long as the
      counters have room ([roomy]) and the calls are [fair]: integers within
      their widths, no hard link to an inode without names, no size the chunk
      index cannot address and no truncation of more chunks than one batch
      deletes. They prove that mkfs cut short can be run again, and that open on
      the records of a crashed mount establishes it and reaps every orphan
      ([open_recovers]; which records those are the engine decides). [Fence]
      proves that a fenced volume never writes.
    - What each operation does, errors included: [Namespace] (create, mkdir,
      symlink, link, unlink, rmdir, rename) and [Files] (lookup, listing, read,
      write, setattr, extended attributes), from the [Ops*] files.
    - Snapshots: [SnapThm] proves that a snapshot answers every reading call as
      its volume does at the checkpoint, and that nothing it is asked writes.
    - The checker: [FsckSound] proves that a clean report vouches for the store
      ([vouched], which is weaker than the invariant: counts are exact as
      32-bit numbers, and it does not speak of the allocator, the caches or the
      widths of fields), and that volumes after any run get one; recount repairs
      the counters.
    - Locks: no deadlock, mutual exclusion, exact byte-range locks.
    - Blocks: [BlockSpec] and [BlockLife] prove that a block volume is an array
      of bytes, also through faults, trims and snapshots, and that what a flush
      or a forced write completed survives a crash.
    - 9P: [P9Thm] proves the round trip of every message; [P9SrvThm] that a
      client without the token cannot touch the volume, that all a session does
      is calls made as users that attached, and that requests get their own kind
      of reply, with [P9Ends] saying exactly which get none; [P9Dir] that paging through a directory is complete; [P9Type]
      that what the decoder accepts is well typed.
    - NFS: [NfsFh] proves that an export accepts exactly the handles it mints;
      [NfsTx] that the table of transactions stays within its bounds, never lets
      a request run twice at once and forgets only what it may; [NfsThm] that
      all a message does is calls under the identity of the squash policy, that
      a request without an authentic handle touches nothing, and that a message
      served is not served again; [NfsDir] that paging through a directory is
      complete; [NfsExcl] that an exclusive creation can be repeated. They use
      the volume's own theorems through [Spec] and [Still].
    - NBD: [NbdThm] proves that an export with TLS is served only inside it and
      that its writers are one client; [NbdSpec] that a session on a block
      volume answers as an array of bytes.

    [Concrete], [Demo], [Witness], [BlockWitness], [P9Witness], [NbdWitness] and
    [NfsWitness] instantiate the third-party classes, run the model on concrete volumes and
    sessions, and apply the theorems there.

    ** Not modelled

    - Third-party code: SlateDB, the caches (moka), serialisation (postcard),
      ciphers, HMAC, XDR and RPC headers ([nfs3_types]) and TLS are classes or
      parameters with their documented behaviour.
    - Encryption of blocks and keys ([core/crypto]) but for names: wrappers over
      ciphers and a key-management client below the engine.
    - Floating point and time: the token bucket of [core/rate.rs] is an arbitrary
      sequence of admissions; the clock is an input.
    - The control plane and file versioning ([core/control.rs],
      [versioning.rs], [version_snapshot.rs]), the HTTP interface, the daemon
      and the command line.
    - In the 9P, NFS and NBD servers: sockets, framing, shutdown, metrics, the
      in-memory file system and the read-only adapter of [nfs3-server]. The
      requests of one session run one at a time (for NBD in any order), while
      the program runs them as tasks that interleave at awaits; the transaction
      table alone is proved for every interleaving of requests. The limit of the
      9P codec on the frames it sends is a parameter.
    - Memory: allocation succeeds, but for the buffer of a 9P extended attribute,
      whose size the client chooses. *)

From stdpp Require Export base gmap list sorting fin_maps.
From Stdlib Require Export ZArith Lia.

#[global] Open Scope Z_scope.

(** * Machine integers *)

(** Rust integer types are [Z] carrying the value; the wrap-around of the
    release profile (no [overflow-checks]) is written where it happens. *)
Abbreviation u8 := Z (only parsing).
Abbreviation u32 := Z (only parsing).
Abbreviation u64 := Z (only parsing).
Abbreviation i64 := Z (only parsing).
Abbreviation usize := Z (only parsing).
Abbreviation bytes := (list Z) (only parsing).

Definition U32_MAX : Z := 2 ^ 32 - 1.
Definition U64_MAX : Z := 2 ^ 64 - 1.
Definition I64_MAX : Z := 2 ^ 63 - 1.

Definition is_u8 (x : Z) : Prop := 0 <= x < 2 ^ 8.
Definition is_u32 (x : Z) : Prop := 0 <= x < 2 ^ 32.
Definition is_u64 (x : Z) : Prop := 0 <= x < 2 ^ 64.
Definition is_i64 (x : Z) : Prop := - 2 ^ 63 <= x < 2 ^ 63.

(** [x as u32], [x as u64], [x as i64] and wrapping arithmetic. *)
Definition as_u32 (x : Z) : u32 := x mod 2 ^ 32.
Definition as_u64 (x : Z) : u64 := x mod 2 ^ 64.
Definition as_i64 (x : Z) : i64 := (x + 2 ^ 63) mod 2 ^ 64 - 2 ^ 63.

Definition checked_add_u64 (x y : u64) : option u64 :=
  if x + y <=? U64_MAX then Some (x + y) else None.
Definition checked_add_u32 (x y : u32) : option u32 :=
  if x + y <=? U32_MAX then Some (x + y) else None.
Definition saturating_sub (x y : Z) : Z := Z.max 0 (x - y).
Definition saturating_add_u64 (x y : u64) : u64 := Z.min U64_MAX (x + y).
Definition saturating_add_u32 (x y : u32) : u32 := Z.min U32_MAX (x + y).

(** [slice.len()] as the integer the code compares with. *)
Definition len {A} (l : list A) : usize := Z.of_nat (length l).

(** * Results and the state-and-error monad *)

Inductive result (E A : Type) : Type :=
| Ok (a : A)
| Err (e : E).
Arguments Ok {E A} a.
Arguments Err {E A} e.

#[global] Instance result_eq_dec {E A} `{EqDecision E, EqDecision A} : EqDecision (result E A).
Proof. solve_decision. Defined.

Definition is_ok {E A} (r : result E A) : bool :=
  match r with Ok _ => true | Err _ => false end.

Definition ok_or {E A} (o : option A) (e : E) : result E A :=
  match o with Some a => Ok a | None => Err e end.

Definition map_err {E E' A} (f : E -> E') (r : result E A) : result E' A :=
  match r with Ok a => Ok a | Err e => Err (f e) end.

(** How a computation with unbounded loops stops short: an error, or the fuel
    that bounds its loops ran out.  The theorems rule the second out. *)
Inductive Halt (E : Type) : Type :=
| Raise (e : E)
| OutOfFuel.
Arguments Raise {E} e.
Arguments OutOfFuel {E}.

Definition halt_map {E E'} (f : E -> E') (h : Halt E) : Halt E' :=
  match h with Raise e => Raise (f e) | OutOfFuel => OutOfFuel end.

(** A Rust [&self] method with interior mutability: it may fail, and what it
    did to the state before failing stays done. *)
Definition ST (S E A : Type) : Type := S -> result E A * S.

Section monad.
Context {S E : Type}.

Definition st_ret {A} (a : A) : ST S E A := fun s => (Ok a, s).
Definition st_fail {A} (e : E) : ST S E A := fun s => (Err e, s).
Definition st_bind {A B} (m : ST S E A) (f : A -> ST S E B) : ST S E B :=
  fun s => match m s with
           | (Ok a, s') => f a s'
           | (Err e, s') => (Err e, s')
           end.
Definition st_get : ST S E S := fun s => (Ok s, s).
Definition st_modify (f : S -> S) : ST S E unit := fun s => (Ok tt, f s).
Definition st_lift {A} (r : result E A) : ST S E A := fun s => (r, s).
(** [m.map_err(f)] *)
Definition st_map_err {E' A} (f : E' -> E) (m : ST S E' A) : ST S E A :=
  fun s => let '(r, s') := m s in (map_err f r, s').
(** Run [m] and hand its [Result] to the continuation as a value. *)
Definition st_try {A} (m : ST S E A) : ST S E (result E A) :=
  fun s => let '(r, s') := m s in (Ok r, s').
Definition st_when (b : bool) (m : ST S E unit) : ST S E unit :=
  if b then m else st_ret tt.
End monad.

Declare Scope slatefs_scope.
Delimit Scope slatefs_scope with slatefs.
#[global] Open Scope slatefs_scope.

Notation "x <- m ;; k" := (st_bind m (fun x => k))
  (at level 100, m at next level, right associativity) : slatefs_scope.
Notation "'let*' p ':=' m 'in' k" := (st_bind m (fun x => match x with p => k end))
  (at level 10, p pattern, m at level 200, k at level 200) : slatefs_scope.
Notation "m ;;; k" := (st_bind m (fun _ => k))
  (at level 100, right associativity) : slatefs_scope.

(** Weakest precondition: every run of [m] from [s] ends in [Q]. *)
Definition wp {S E A} (m : ST S E A) (Q : result E A -> S -> Prop) (s : S) : Prop :=
  let '(r, s') := m s in Q r s'.

Section wp.
Context {S E : Type}.

Lemma wp_ret {A} (a : A) (Q : result E A -> S -> Prop) s : Q (Ok a) s -> wp (st_ret a) Q s.
Proof. done. Qed.

Lemma wp_fail {A} (e : E) (Q : result E A -> S -> Prop) s : Q (Err e) s -> wp (st_fail e) Q s.
Proof. done. Qed.

Lemma wp_lift {A} (r : result E A) (Q : result E A -> S -> Prop) s : Q r s -> wp (st_lift r) Q s.
Proof. done. Qed.

Lemma wp_bind {A B} (m : ST S E A) (f : A -> ST S E B) Q s :
  wp m (fun r s' => match r with Ok a => wp (f a) Q s' | Err e => Q (Err e) s' end) s ->
  wp (st_bind m f) Q s.
Proof. unfold wp, st_bind. by destruct (m s) as [[a|e] s']. Qed.

Lemma wp_mono {A} (m : ST S E A) (P Q : result E A -> S -> Prop) s :
  wp m P s -> (forall r s', P r s' -> Q r s') -> wp m Q s.
Proof. unfold wp. destruct (m s); auto. Qed.

Lemma wp_try {A} (m : ST S E A) (Q : result E (result E A) -> S -> Prop) s :
  wp m (fun r s' => Q (Ok r) s') s -> wp (st_try m) Q s.
Proof. unfold wp, st_try. by destruct (m s). Qed.

Lemma wp_eq {A} (m : ST S E A) Q s r s' : m s = (r, s') -> Q r s' -> wp m Q s.
Proof. unfold wp. by intros ->. Qed.

Lemma st_bind_ok {A B} (m : ST S E A) (f : A -> ST S E B) s a s' :
  m s = (Ok a, s') -> st_bind m f s = f a s'.
Proof. unfold st_bind. by intros ->. Qed.

Lemma st_bind_err {A B} (m : ST S E A) (f : A -> ST S E B) s e s' :
  m s = (Err e, s') -> st_bind m f s = (Err e, s').
Proof. unfold st_bind. by intros ->. Qed.

Lemma st_bind_inv {A B} (m : ST S E A) (f : A -> ST S E B) s b s' :
  st_bind m f s = (Ok b, s') -> exists a s1, m s = (Ok a, s1) /\ f a s1 = (Ok b, s').
Proof. unfold st_bind. destruct (m s) as [[a|e] s1]; [eauto|done]. Qed.
End wp.

(** [for x in l { f x }] *)
Fixpoint st_iter {S E A} (f : A -> ST S E unit) (l : list A) : ST S E unit :=
  match l with
  | [] => st_ret tt
  | x :: l' => f x ;;; st_iter f l'
  end.

(** * Byte strings *)

(** Index into a byte string; what a sparse read returns past its end. *)
Definition byte_at (l : bytes) (i : Z) : u8 :=
  if i <? 0 then 0 else default 0 (l !! Z.to_nat i).

(** [buf[from .. from + src.len()].copy_from_slice(src)] *)
Definition splice (l : bytes) (from : Z) (src : bytes) : bytes :=
  take (Z.to_nat from) l ++ src ++ drop (Z.to_nat from + length src) l.

(** [&l[from..to]] *)
Definition slice (l : bytes) (from to : Z) : bytes :=
  take (Z.to_nat (to - from)) (drop (Z.to_nat from) l).

Definition zeros (n : Z) : bytes := replicate (Z.to_nat n) 0.

(** [buf.resize(n, 0)] when [n >= buf.len()] *)
Definition resize (l : bytes) (n : Z) : bytes := l ++ zeros (n - len l).

(** [buf[from..to].fill(0)] *)
Definition fill0 (l : bytes) (from to : Z) : bytes := splice l from (zeros (to - from)).

(** [x.to_be_bytes()] for a width of [n] bytes, and its inverse. *)
Fixpoint to_be (n : nat) (x : Z) : bytes :=
  match n with
  | O => []
  | S n' => (x / 256 ^ Z.of_nat n') mod 256 :: to_be n' x
  end.
Fixpoint from_be_acc (acc : Z) (l : bytes) : Z :=
  match l with [] => acc | b :: l' => from_be_acc (acc * 256 + b) l' end.
Definition from_be (l : bytes) : Z := from_be_acc 0 l.

Definition to_le (n : nat) (x : Z) : bytes := rev (to_be n x).
Definition from_le (l : bytes) : Z := from_be (rev l).

(** Lexicographic comparison of byte strings, the order of the store. *)
Fixpoint bytes_cmp (a b : bytes) : comparison :=
  match a, b with
  | [], [] => Eq
  | [], _ :: _ => Lt
  | _ :: _, [] => Gt
  | x :: a', y :: b' => match x ?= y with Eq => bytes_cmp a' b' | c => c end
  end.
Definition bytes_ltb (a b : bytes) : bool :=
  match bytes_cmp a b with Lt => true | _ => false end.
Definition bytes_leb (a b : bytes) : bool :=
  match bytes_cmp a b with Gt => false | _ => true end.

(** ** Lemmas on byte strings *)

Create Rewrite HintDb slate_len.

Lemma len_nonneg {A} (l : list A) : 0 <= len l.
Proof. unfold len. lia. Qed.

Lemma len_nil {A} : len (@nil A) = 0.
Proof. done. Qed.

Lemma len_cons {A} (x : A) l : len (x :: l) = len l + 1.
Proof. unfold len. simpl. lia. Qed.

Lemma len_app {A} (l1 l2 : list A) : len (l1 ++ l2) = len l1 + len l2.
Proof. unfold len. rewrite length_app. lia. Qed.

Lemma len_take {A} (l : list A) n : len (take (Z.to_nat n) l) = Z.min (Z.max 0 n) (len l).
Proof. unfold len. rewrite length_take. lia. Qed.

Lemma len_drop {A} (l : list A) n : len (drop n l) = Z.max 0 (len l - Z.of_nat n).
Proof. unfold len. rewrite length_drop. lia. Qed.

Lemma len_zeros n : len (zeros n) = Z.max 0 n.
Proof. unfold len, zeros. rewrite length_replicate. lia. Qed.

Lemma len_0_nil {A} (l : list A) : len l = 0 <-> l = [].
Proof. destruct l; [done|]. rewrite len_cons. pose proof (len_nonneg l). split; [lia|done]. Qed.

#[global] Hint Rewrite @len_nil @len_cons @len_app @len_take @len_drop len_zeros : slate_len.

Lemma len_resize l n : len (resize l n) = Z.max (len l) n.
Proof. unfold resize. autorewrite with slate_len. pose proof (len_nonneg l). lia. Qed.

Lemma len_splice l from src :
  0 <= from -> from + len src <= len l -> len (splice l from src) = len l.
Proof.
  intros. unfold splice. autorewrite with slate_len.
  pose proof (len_nonneg src). unfold len in *. lia.
Qed.

Lemma len_slice l from to :
  0 <= from <= to -> to <= len l -> len (slice l from to) = to - from.
Proof. intros. unfold slice. rewrite len_take, len_drop. lia. Qed.

#[global] Hint Rewrite len_resize : slate_len.

Lemma byte_at_neg l i : i < 0 -> byte_at l i = 0.
Proof. intros. unfold byte_at. destruct (Z.ltb_spec i 0); [done|lia]. Qed.

Lemma byte_at_ge l i : len l <= i -> byte_at l i = 0.
Proof.
  intros H. unfold byte_at. destruct (Z.ltb_spec i 0); [done|].
  rewrite lookup_ge_None_2; [done|unfold len in H; lia].
Qed.

Lemma byte_at_nil i : byte_at [] i = 0.
Proof. unfold byte_at. by destruct (i <? 0). Qed.

Lemma byte_at_lookup l i : 0 <= i -> byte_at l i = default 0 (l !! Z.to_nat i).
Proof. intros. unfold byte_at. destruct (Z.ltb_spec i 0); [lia|done]. Qed.

Lemma byte_at_app l1 l2 i :
  0 <= i -> byte_at (l1 ++ l2) i = if i <? len l1 then byte_at l1 i else byte_at l2 (i - len l1).
Proof.
  intros Hi. unfold len. destruct (Z.ltb_spec i (Z.of_nat (length l1))).
  - rewrite !byte_at_lookup by lia. by rewrite lookup_app_l by lia.
  - rewrite !byte_at_lookup by lia. rewrite lookup_app_r by lia. do 2 f_equal. lia.
Qed.

Lemma byte_at_take l n i :
  byte_at (take (Z.to_nat n) l) i = if (i <? n) then byte_at l i else 0.
Proof.
  destruct (Z.ltb_spec i 0); [rewrite !byte_at_neg by lia; by destruct (i <? n)|].
  destruct (Z.ltb_spec i n).
  - rewrite !byte_at_lookup by lia. by rewrite lookup_take_lt by lia.
  - apply byte_at_ge. rewrite len_take. lia.
Qed.

Lemma byte_at_drop l n i :
  0 <= i -> byte_at (drop n l) i = byte_at l (i + Z.of_nat n).
Proof.
  intros. rewrite !byte_at_lookup by lia. rewrite lookup_drop. do 2 f_equal. lia.
Qed.

Lemma byte_at_zeros n i : byte_at (zeros n) i = 0.
Proof.
  unfold byte_at, zeros. destruct (i <? 0); [done|].
  destruct (replicate _ _ !! _) eqn:Hl; [|done]. by apply lookup_replicate in Hl as [-> _].
Qed.

Lemma byte_at_resize l n i : byte_at (resize l n) i = byte_at l i.
Proof.
  destruct (Z.ltb_spec i 0); [by rewrite !byte_at_neg|].
  unfold resize. rewrite byte_at_app by done. destruct (Z.ltb_spec i (len l)); [done|].
  rewrite byte_at_zeros. by rewrite byte_at_ge.
Qed.

Lemma byte_at_splice l from src i :
  0 <= from -> from + len src <= len l ->
  byte_at (splice l from src) i =
    if (from <=? i) && (i <? from + len src) then byte_at src (i - from) else byte_at l i.
Proof.
  intros Hf Hle. pose proof (len_nonneg src). unfold splice.
  destruct (Z.ltb_spec i 0).
  { rewrite !byte_at_neg by lia. destruct (Z.leb_spec from i); [lia|done]. }
  rewrite byte_at_app, len_take, byte_at_take by lia.
  replace (Z.min (Z.max 0 from) (len l)) with from by lia.
  destruct (Z.leb_spec from i) as [Hfi|Hfi]; simpl.
  - destruct (Z.ltb_spec i from); [lia|].
    rewrite byte_at_app by lia.
    destruct (Z.ltb_spec (i - from) (len src)), (Z.ltb_spec i (from + len src)); try lia.
    rewrite byte_at_drop by lia. f_equal. unfold len. lia.
  - destruct (Z.ltb_spec i from); [done|lia].
Qed.

Lemma byte_at_slice l from to i :
  0 <= from -> 0 <= i ->
  byte_at (slice l from to) i = if i <? to - from then byte_at l (from + i) else 0.
Proof.
  intros. unfold slice. rewrite byte_at_take. destruct (i <? to - from); [|done].
  rewrite byte_at_drop by lia. f_equal. lia.
Qed.

Lemma byte_at_ext l1 l2 :
  len l1 = len l2 -> (forall i, 0 <= i < len l1 -> byte_at l1 i = byte_at l2 i) -> l1 = l2.
Proof.
  unfold len. intros Hl Hb. apply list_eq_same_length with (n := length l1); [lia|done|].
  intros i x y Hi H1 H2. specialize (Hb (Z.of_nat i)).
  rewrite !byte_at_lookup, Nat2Z.id, H1, H2 in Hb by lia. apply Hb. lia.
Qed.

(** ** Big-endian encodings preserve order *)

Lemma length_to_be n x : length (to_be n x) = n.
Proof. induction n; simpl; congruence. Qed.
Lemma len_to_be n x : len (to_be n x) = Z.of_nat n.
Proof. unfold len. by rewrite length_to_be. Qed.

Lemma length_to_le n x : length (to_le n x) = n.
Proof. unfold to_le. by rewrite length_rev, length_to_be. Qed.

Lemma pow256_pos n : 0 < 256 ^ Z.of_nat n.
Proof. apply Z.pow_pos_nonneg; lia. Qed.

Lemma pow256_S n : 256 ^ Z.of_nat (S n) = 256 * 256 ^ Z.of_nat n.
Proof. rewrite Nat2Z.inj_succ, Z.pow_succ_r; lia. Qed.

Lemma to_be_mod n x : to_be n (x mod 256 ^ Z.of_nat n) = to_be n x.
Proof.
  enough (forall m, (n <= m)%nat -> to_be n (x mod 256 ^ Z.of_nat m) = to_be n x) by auto.
  induction n as [|n IH]; intros m Hm; [done|]. simpl. f_equal; [|apply IH; lia].
  pose proof (pow256_pos n).
  replace (256 ^ Z.of_nat m) with (256 ^ Z.of_nat n * 256 * 256 ^ Z.of_nat (m - S n)).
  2: { rewrite (Z.mul_comm _ 256), <- pow256_S, <- Z.pow_add_r by lia. f_equal. lia. }
  pose proof (pow256_pos (m - S n)).
  rewrite <- Z.mul_assoc, Z.rem_mul_r by lia.
  rewrite (Z.mul_comm (256 ^ Z.of_nat n) ((x / _) mod _)), Z.div_add by lia.
  rewrite (Z.div_small (x mod _)) by (apply Z.mod_pos_bound; lia). simpl.
  apply Z.mod_mod_divide. apply Z.divide_factor_l.
Qed.

Lemma from_be_acc_to_be n x acc :
  from_be_acc acc (to_be n x) = acc * 256 ^ Z.of_nat n + x mod 256 ^ Z.of_nat n.
Proof.
  revert acc. induction n as [|n IH]; intros acc; cbn [from_be_acc to_be].
  - rewrite Z.mod_1_r. lia.
  - rewrite IH, pow256_S.
    pose proof (pow256_pos n).
    rewrite (Z.mul_comm 256), (Z.rem_mul_r x) by lia. lia.
Qed.

Lemma from_be_to_be n x : 0 <= x < 256 ^ Z.of_nat n -> from_be (to_be n x) = x.
Proof. intros. unfold from_be. rewrite from_be_acc_to_be, Z.mod_small; lia. Qed.

Lemma from_le_to_le n x : 0 <= x < 256 ^ Z.of_nat n -> from_le (to_le n x) = x.
Proof. intros. unfold from_le, to_le. rewrite rev_involutive. by apply from_be_to_be. Qed.

Lemma to_be_inj n x y :
  0 <= x < 256 ^ Z.of_nat n -> 0 <= y < 256 ^ Z.of_nat n -> to_be n x = to_be n y -> x = y.
Proof.
  intros Hx Hy Heq. rewrite <- (from_be_to_be n x), <- (from_be_to_be n y) by done. congruence.
Qed.

Lemma from_be_acc_bound l acc : Forall is_u8 l -> 0 <= acc ->
  acc * 256 ^ Z.of_nat (length l) <= from_be_acc acc l < (acc + 1) * 256 ^ Z.of_nat (length l).
Proof.
  intros Hl. revert acc. induction Hl as [|b l Hb _ IH]; intros acc Ha; [cbn; lia|]. cbn [from_be_acc length]. rewrite pow256_S.
  unfold is_u8 in Hb. specialize (IH (acc * 256 + b) ltac:(lia)). pose proof (pow256_pos (length l)). nia.
Qed.

Lemma from_be_bound l n : Forall is_u8 l -> (length l <= n)%nat -> 0 <= from_be l < 256 ^ Z.of_nat n.
Proof.
  intros Hl Hn. pose proof (from_be_acc_bound l 0 Hl ltac:(lia)) as H. unfold from_be.
  pose proof (Z.pow_le_mono_r 256 (Z.of_nat (length l)) (Z.of_nat n) ltac:(lia) ltac:(lia)). lia.
Qed.

Lemma from_le_bound l n : Forall is_u8 l -> (length l <= n)%nat -> 0 <= from_le l < 256 ^ Z.of_nat n.
Proof. intros Hl Hn. apply from_be_bound; [by apply Forall_rev|by rewrite length_rev]. Qed.

Lemma to_be_from_be_acc l acc : Forall is_u8 l -> 0 <= acc -> to_be (length l) (from_be_acc acc l) = l.
Proof.
  intros Hl. revert acc. induction Hl as [|b l Hb Hl IH]; intros acc Ha; [done|]. cbn [from_be_acc length to_be].
  unfold is_u8 in Hb. rewrite IH by lia. pose proof (from_be_acc_bound l (acc * 256 + b) Hl ltac:(lia)). pose proof (pow256_pos (length l)).
  f_equal. rewrite <- (Z.div_unique (from_be_acc (acc * 256 + b) l) (256 ^ Z.of_nat (length l)) (acc * 256 + b)
    (from_be_acc (acc * 256 + b) l - (acc * 256 + b) * 256 ^ Z.of_nat (length l))) by lia.
  rewrite Z.add_comm, Z.mod_add by lia. by apply Z.mod_small.
Qed.
Lemma to_be_from_be l n : Forall is_u8 l -> length l = n -> to_be n (from_be l) = l.
Proof. intros Hl <-. by apply to_be_from_be_acc. Qed.

Lemma slice_bytes b from to : Forall is_u8 b -> Forall is_u8 (slice b from to).
Proof. intros Hb. by apply Forall_take, Forall_drop. Qed.
Lemma slice_short b from to : (length (slice b from to) <= Z.to_nat (to - from))%nat.
Proof. unfold slice. rewrite length_take. lia. Qed.

(** Comparing two fixed-width big-endian integers followed by suffixes is
    comparing the integers first. *)
Lemma bytes_cmp_to_be n x y s t :
  0 <= x < 256 ^ Z.of_nat n -> 0 <= y < 256 ^ Z.of_nat n ->
  bytes_cmp (to_be n x ++ s) (to_be n y ++ t) =
    match x ?= y with Eq => bytes_cmp s t | c => c end.
Proof.
  revert x y. induction n as [|n IH]; intros x y Hx Hy.
  - simpl in *. replace y with x by lia. by rewrite Z.compare_refl.
  - rewrite pow256_S in Hx, Hy. pose proof (pow256_pos n) as Hp.
    set (p := 256 ^ Z.of_nat n) in *. simpl. fold p.
    assert (forall z, 0 <= z < 256 * p -> 0 <= z / p < 256) as Hd.
    { intros z Hz. split; [apply Z.div_pos; lia|apply Z.div_lt_upper_bound; lia]. }
    rewrite !Z.mod_small by auto.
    rewrite <- (to_be_mod n x), <- (to_be_mod n y). fold p.
    rewrite IH by (apply Z.mod_pos_bound; done).
    pose proof (Z.div_mod x p) as Ex. pose proof (Z.div_mod y p) as Ey.
    pose proof (Z.mod_pos_bound x p). pose proof (Z.mod_pos_bound y p).
    destruct (Z.compare_spec (x / p) (y / p)) as [E|L|G].
    + destruct (Z.compare_spec (x mod p) (y mod p)), (Z.compare_spec x y); try done; nia.
    + destruct (Z.compare_spec x y); try done; nia.
    + destruct (Z.compare_spec x y); try done; nia.
Qed.

Lemma bytes_cmp_eq a b : bytes_cmp a b = Eq <-> a = b.
Proof.
  revert b. induction a as [|x a IH]; intros [|y b]; simpl; try done.
  destruct (Z.compare_spec x y); subst; [rewrite IH|..]; split; congruence || (intros [=]; lia).
Qed.

Lemma bytes_cmp_refl a : bytes_cmp a a = Eq.
Proof. by apply bytes_cmp_eq. Qed.

Lemma bytes_cmp_antisym a b : bytes_cmp b a = CompOpp (bytes_cmp a b).
Proof.
  revert b. induction a as [|x a IH]; intros [|y b]; simpl; try done.
  rewrite Z.compare_antisym. destruct (x ?= y); simpl; auto.
Qed.

Lemma bytes_leb_total a b : bytes_leb a b = true \/ bytes_leb b a = true.
Proof. unfold bytes_leb. rewrite (bytes_cmp_antisym a b). destruct (bytes_cmp a b); auto. Qed.

Lemma bytes_leb_trans a b c :
  bytes_leb a b = true -> bytes_leb b c = true -> bytes_leb a c = true.
Proof.
  unfold bytes_leb. revert b c. induction a as [|x a IH]; intros [|y b] [|z c]; simpl; try done.
  destruct (Z.compare_spec x y), (Z.compare_spec y z); try done;
    destruct (Z.compare_spec x z); try lia; try done; eauto.
Qed.

(** ** Integer casts *)

Lemma as_i64_small x : is_i64 x -> as_i64 x = x.
Proof. unfold is_i64, as_i64. intros. rewrite Z.mod_small; lia. Qed.

Lemma as_u64_small x : is_u64 x -> as_u64 x = x.
Proof. unfold is_u64, as_u64. intros. by rewrite Z.mod_small. Qed.

Lemma as_u32_small x : is_u32 x -> as_u32 x = x.
Proof. unfold is_u32, as_u32. intros. by rewrite Z.mod_small. Qed.

Lemma as_i64_range x : is_i64 (as_i64 x).
Proof. unfold is_i64, as_i64. pose proof (Z.mod_pos_bound (x + 2 ^ 63) (2 ^ 64)). lia. Qed.

Lemma as_i64_add_l x y : as_i64 (as_i64 x + y) = as_i64 (x + y).
Proof.
  unfold as_i64. f_equal.
  replace ((x + 2 ^ 63) mod 2 ^ 64 - 2 ^ 63 + y + 2 ^ 63)
    with ((x + 2 ^ 63) mod 2 ^ 64 + y) by lia.
  rewrite Zplus_mod_idemp_l. f_equal. lia.
Qed.

Lemma as_i64_mod x : as_i64 (x mod 2 ^ 64) = as_i64 x.
Proof. unfold as_i64. by rewrite Zplus_mod_idemp_l. Qed.

(** [i64::to_le_bytes] and back. *)
Lemma i64_le_wrap x : as_i64 (from_le (to_le 8 x)) = as_i64 x.
Proof.
  unfold from_le, to_le, from_be. rewrite rev_involutive, from_be_acc_to_be.
  change (256 ^ Z.of_nat 8) with (2 ^ 64). by rewrite Z.mul_0_l, Z.add_0_l, as_i64_mod.
Qed.
Lemma i64_le_roundtrip x : is_i64 x -> as_i64 (from_le (to_le 8 x)) = x.
Proof. intros. rewrite i64_le_wrap. by apply as_i64_small. Qed.

Lemma as_i64_add_r x y : as_i64 (x + as_i64 y) = as_i64 (x + y).
Proof. rewrite Z.add_comm, as_i64_add_l. f_equal. lia. Qed.
Lemma as_i64_opp x : as_i64 (- as_i64 x) = as_i64 (- x).
Proof.
  unfold as_i64. f_equal.
  pose proof (Z.div_mod (x + 2 ^ 63) (2 ^ 64) ltac:(lia)) as E.
  set (q := (x + 2 ^ 63) / 2 ^ 64) in *.
  replace (- ((x + 2 ^ 63) mod 2 ^ 64 - 2 ^ 63) + 2 ^ 63) with (- x + 2 ^ 63 + q * 2 ^ 64) by lia.
  by rewrite Z.mod_add by lia.
Qed.
Lemma as_i64_idem x : as_i64 (as_i64 x) = as_i64 x.
Proof. apply as_i64_small, as_i64_range. Qed.

#[global] Opaque to_be from_be to_le from_le.

(** * Sums over finite maps *)

Section msum.
Context `{Countable K} {V : Type}.
Implicit Types (m : gmap K V) (f g : K -> V -> Z).

Definition msum (f : K -> V -> Z) (m : gmap K V) : Z :=
  map_fold (fun k v acc => f k v + acc) 0 m.

Lemma msum_empty f : msum f ∅ = 0.
Proof. apply map_fold_empty. Qed.

Lemma msum_insert_fresh f m k v : m !! k = None -> msum f (<[k := v]> m) = f k v + msum f m.
Proof. intros Hk. unfold msum. rewrite map_fold_insert_L; [done|intros; lia|done]. Qed.

Lemma msum_delete f m k : msum f (delete k m) = msum f m - from_option (f k) 0 (m !! k).
Proof.
  destruct (m !! k) as [v|] eqn:Hk; simpl.
  - rewrite <- (insert_delete_id m k v) at 2 by done.
    rewrite msum_insert_fresh by apply lookup_delete_eq. lia.
  - rewrite delete_id by done. lia.
Qed.

Lemma msum_insert f m k v :
  msum f (<[k := v]> m) = msum f m - from_option (f k) 0 (m !! k) + f k v.
Proof.
  rewrite <- insert_delete_eq, msum_insert_fresh by apply lookup_delete_eq.
  rewrite msum_delete. lia.
Qed.

Lemma msum_ext f g m : (forall k v, m !! k = Some v -> f k v = g k v) -> msum f m = msum g m.
Proof.
  induction m as [|k v m Hk IH] using map_ind; intros Hfg; [by rewrite !msum_empty|].
  rewrite !msum_insert_fresh by done. f_equal.
  - apply Hfg, lookup_insert_eq.
  - apply IH. intros k' v' Hk'. apply Hfg. rewrite lookup_insert_ne; congruence.
Qed.

Lemma msum_zero f m : (forall k v, m !! k = Some v -> f k v = 0) -> msum f m = 0.
Proof.
  intros Hz. rewrite (msum_ext _ (fun _ _ => 0)) by done.
  induction m as [|k v m Hk IH] using map_ind; [done|].
  rewrite msum_insert_fresh, IH by (done || intros; eapply Hz; by rewrite lookup_insert_ne by congruence).
  done.
Qed.

Lemma msum_nonneg f m : (forall k v, m !! k = Some v -> 0 <= f k v) -> 0 <= msum f m.
Proof.
  induction m as [|k v m Hk IH] using map_ind; intros Hf; [by rewrite msum_empty|].
  rewrite msum_insert_fresh by done. specialize (IH ltac:(intros k' v' Hk'; apply Hf;
    rewrite lookup_insert_ne; congruence)).
  specialize (Hf k v ltac:(apply lookup_insert_eq)). lia.
Qed.

Lemma msum_ge f m k v :
  (forall k v, m !! k = Some v -> 0 <= f k v) -> m !! k = Some v -> f k v <= msum f m.
Proof.
  intros Hf Hk. rewrite <- (insert_delete_id m k v) by done.
  rewrite msum_insert_fresh by apply lookup_delete_eq.
  enough (0 <= msum f (delete k m)) by lia.
  apply msum_nonneg. intros k' v' [_ Hk']%lookup_delete_Some. eauto.
Qed.

Lemma msum_pos f m :
  (forall k v, m !! k = Some v -> 0 <= f k v) -> 0 < msum f m ->
  exists k v, m !! k = Some v /\ 0 < f k v.
Proof.
  induction m as [|k v m Hk IH] using map_ind; intros Hf Hp; [rewrite msum_empty in Hp; lia|].
  rewrite msum_insert_fresh in Hp by done.
  destruct (Z.ltb_spec 0 (f k v)).
  - exists k, v. split; [apply lookup_insert_eq|done].
  - destruct IH as (k' & v' & Hk' & Hp'); [|lia|].
    + intros k' v' Hk'. apply Hf. rewrite lookup_insert_ne; congruence.
    + exists k', v'. split; [rewrite lookup_insert_ne; congruence|done].
Qed.

Lemma msum_add f g m : msum (fun k v => f k v + g k v) m = msum f m + msum g m.
Proof.
  induction m as [|k v m Hk IH] using map_ind; [by rewrite !msum_empty|].
  rewrite !msum_insert_fresh by done. lia.
Qed.
End msum.

Section msum_more.
Context `{Countable K} {V W : Type}.

Lemma msum_imap (f : K -> W -> Z) (T : K -> V -> option W) (m : gmap K V) :
  msum f (map_imap T m) = msum (fun k v => from_option (f k) 0 (T k v)) m.
Proof.
  induction m as [|k v m Hk IH] using map_ind; [by rewrite map_imap_empty, !msum_empty|].
  assert (map_imap T m !! k = None) as Hn by (by rewrite map_lookup_imap, Hk).
  rewrite map_imap_insert, (msum_insert_fresh _ m), <- IH by done.
  destruct (T k v); simpl; [by rewrite msum_insert_fresh|by rewrite delete_id].
Qed.

(** A sum whose terms vanish outside a duplicate-free listing of entries is
    the sum over the listing. *)
Lemma msum_list (f : K -> V -> Z) (m : gmap K V) (l : list (K * V)) :
  NoDup (l.*1) -> (forall k v, (k, v) ∈ l -> m !! k = Some v) ->
  (forall k v, m !! k = Some v -> (k, v) ∉ l -> f k v = 0) ->
  msum f m = foldr (fun kv acc => f kv.1 kv.2 + acc) 0 l.
Proof.
  revert m. induction l as [|[k v] l IH]; intros m Hnd Hin Hz.
  - apply msum_zero. intros k v Hk. apply (Hz k v Hk). apply not_elem_of_nil.
  - simpl in *. apply NoDup_cons in Hnd as [Hni Hnd].
    assert (m !! k = Some v) as Hk by (apply Hin; by left).
    rewrite <- (insert_delete_id m k v), msum_insert_fresh by (done || apply lookup_delete_eq).
    f_equal. apply IH; [done|..].
    + intros k' v' Hin'. rewrite lookup_delete_ne; [apply Hin; by right|].
      intros <-. apply Hni, list_elem_of_fmap. by exists (k, v').
    + intros k' v' [Hne Hk']%lookup_delete_Some Hni'. apply Hz; [done|].
      intros [[= <- <-]|]%elem_of_cons; done.
Qed.
End msum_more.

(** A sum only sees the keys where its terms do not vanish. *)
Lemma msum_agree `{Countable K} {V} (b : K -> bool) (f : K -> V -> Z) (m m' : gmap K V) :
  (forall k v, b k = false -> f k v = 0) -> (forall k, b k = true -> m !! k = m' !! k) ->
  msum f m = msum f m'.
Proof.
  intros Hz Hag.
  assert (forall x, msum f x = msum f (base.filter (fun kv => b kv.1 = true) x)) as Hf.
  { intros x. induction x as [|k v x Hk IH] using map_ind; [by rewrite map_filter_empty|].
    rewrite msum_insert_fresh by done. destruct (b k) eqn:Hb.
    - rewrite map_filter_insert_True, msum_insert_fresh by (done || (apply map_lookup_filter_None; by left)).
      by rewrite IH.
    - rewrite map_filter_insert_not by (intros ?; simpl; congruence). rewrite IH, Hz by done. lia. }
  rewrite (Hf m), (Hf m'). f_equal. apply map_eq. intros k. apply option_eq. intros v.
  rewrite !map_lookup_filter_Some. simpl. destruct (b k) eqn:Hb; [by rewrite Hag|naive_solver].
Qed.

Lemma Forall_choose {A B} (R : A -> B -> Prop) l :
  Forall (fun x => exists y, R x y) l -> exists k, Forall2 R l k.
Proof.
  induction 1 as [|x l [y Hy] _ [k Hk]]; [by exists []|]. exists (y :: k). by constructor.
Qed.

(** Pointwise adjustment of a function on integers. *)
Definition bump (f : Z -> Z) (i z : Z) : Z -> Z := fun j => if j =? i then f j + z else f j.
Definition upd (f : Z -> Z) (i z : Z) : Z -> Z := fun j => if j =? i then z else f j.

Lemma bump_eq f i z : bump f i z i = f i + z.
Proof. unfold bump. by rewrite Z.eqb_refl. Qed.
Lemma bump_ne f i z j : j <> i -> bump f i z j = f j.
Proof. unfold bump. intros H. by rewrite (proj2 (Z.eqb_neq j i) H). Qed.
Lemma upd_eq f i z : upd f i z i = z.
Proof. unfold upd. by rewrite Z.eqb_refl. Qed.
Lemma upd_ne f i z j : j <> i -> upd f i z j = f j.
Proof. unfold upd. intros H. by rewrite (proj2 (Z.eqb_neq j i) H). Qed.
