(* ===== verification/Keys.v ===== *)
(** Per-volume key schema ([crates/slatefs-core/src/meta/keys.rs]).

    [Module keys] gives the byte strings the source builds and the parsers it
    runs on scanned keys.  [Key] is the same schema as a datatype: the records
    of a volume are named by a [Key] and ordered by [key_bytes].  The theorems
    show that the encoding is injective, that byte order is numeric order, and
    that every range the code scans contains exactly the records it is after. *)

From S2P Require Import Prelude.

Module keys.

Definition KEY_SUPERBLOCK : bytes := [77].
Definition KEY_QUOTA_BYTES : bytes := [113; 66].
Definition KEY_QUOTA_INODES : bytes := [113; 73].
Definition KEY_NEXT_INO : bytes := [97].
Definition ORPHAN_PREFIX : bytes := [111].

Definition inode (ino : u64) : bytes := 105 :: to_be 8 ino.
Definition dirent (parent : u64) (enc_name : bytes) : bytes := 100 :: to_be 8 parent ++ enc_name.
Definition dirent_prefix (parent : u64) : bytes := 100 :: to_be 8 parent.
Definition dirent_idx (parent dirent_id : u64) : bytes :=
  101 :: to_be 8 parent ++ to_be 8 dirent_id.
Definition dirent_idx_prefix (parent : u64) : bytes := 101 :: to_be 8 parent.
Definition chunk (ino : u64) (idx : u32) : bytes := 99 :: to_be 8 ino ++ to_be 4 idx.
Definition chunk_prefix (ino : u64) : bytes := 99 :: to_be 8 ino.
Definition symlink (ino : u64) : bytes := 115 :: to_be 8 ino.
Definition xattr (ino : u64) (name : bytes) : bytes := 120 :: to_be 8 ino ++ name.
Definition xattr_prefix (ino : u64) : bytes := 120 :: to_be 8 ino.
Definition orphan (ino : u64) : bytes := 111 :: to_be 8 ino.

(** [key[from..to]] of a scanned key. *)
Definition parse_chunk (key : bytes) : option (u64 * u32) :=
  if (len key =? 13) && (byte_at key 0 =? 99)
  then Some (from_be (slice key 1 9), from_be (slice key 9 13))
  else None.

Definition parse_dirent_idx (key : bytes) : option (u64 * u64) :=
  if (len key =? 17) && (byte_at key 0 =? 101)
  then Some (from_be (slice key 1 9), from_be (slice key 9 17))
  else None.

Definition parse_ino (key : bytes) : option u64 :=
  if 9 <=? len key then Some (from_be (slice key 1 9)) else None.

End keys.

(** The schema as a datatype, one constructor per record type. *)
Inductive Key : Type :=
| KSuperblock
| KInode (ino : u64)
| KDirent (parent : u64) (enc_name : bytes)
| KDirentIdx (parent dirent_id : u64)
| KChunk (ino : u64) (idx : u32)
| KSymlink (ino : u64)
| KXattr (ino : u64) (name : bytes)
| KOrphan (ino : u64)
| KQuotaBytes
| KQuotaInodes
| KNextIno.

Definition key_bytes (k : Key) : bytes :=
  match k with
  | KSuperblock => keys.KEY_SUPERBLOCK
  | KInode ino => keys.inode ino
  | KDirent parent enc_name => keys.dirent parent enc_name
  | KDirentIdx parent dirent_id => keys.dirent_idx parent dirent_id
  | KChunk ino idx => keys.chunk ino idx
  | KSymlink ino => keys.symlink ino
  | KXattr ino name => keys.xattr ino name
  | KOrphan ino => keys.orphan ino
  | KQuotaBytes => keys.KEY_QUOTA_BYTES
  | KQuotaInodes => keys.KEY_QUOTA_INODES
  | KNextIno => keys.KEY_NEXT_INO
  end.

(** The Rust types of the components. *)
Definition key_ok (k : Key) : Prop :=
  match k with
  | KSuperblock | KQuotaBytes | KQuotaInodes | KNextIno => True
  | KInode ino | KSymlink ino | KOrphan ino => is_u64 ino
  | KDirent ino _ | KXattr ino _ => is_u64 ino
  | KDirentIdx parent id => is_u64 parent /\ is_u64 id
  | KChunk ino idx => is_u64 ino /\ is_u32 idx
  end.

#[global] Instance key_eq_dec : EqDecision Key.
Proof. solve_decision. Defined.

Definition key_encode (k : Key) : list Z :=
  match k with
  | KSuperblock => [0]
  | KInode i => [1; i]
  | KDirent p e => 2 :: p :: e
  | KDirentIdx p i => [3; p; i]
  | KChunk i c => [4; i; c]
  | KSymlink i => [5; i]
  | KXattr i n => 6 :: i :: n
  | KOrphan i => [7; i]
  | KQuotaBytes => [8]
  | KQuotaInodes => [9]
  | KNextIno => [10]
  end.

Definition key_decode (l : list Z) : Key :=
  match l with
  | [1; i] => KInode i
  | 2 :: p :: e => KDirent p e
  | [3; p; i] => KDirentIdx p i
  | [4; i; c] => KChunk i c
  | [5; i] => KSymlink i
  | 6 :: i :: n => KXattr i n
  | [7; i] => KOrphan i
  | [8] => KQuotaBytes
  | [9] => KQuotaInodes
  | [10] => KNextIno
  | _ => KSuperblock
  end.

#[global] Program Instance key_countable : Countable Key :=
  inj_countable' key_encode key_decode _.
Next Obligation. by intros []. Qed.

(** [lo <= key < hi] in the byte order of the store. *)
Definition in_range (lo hi : bytes) (k : Key) : bool :=
  bytes_leb lo (key_bytes k) && bytes_ltb (key_bytes k) hi.

(** ** Comparing keys *)

Lemma bytes_cmp_cons x y a b :
  bytes_cmp (x :: a) (y :: b) = match x ?= y with Eq => bytes_cmp a b | c => c end.
Proof. done. Qed.

Lemma cmp_be_be n x y :
  0 <= x < 256 ^ Z.of_nat n -> 0 <= y < 256 ^ Z.of_nat n ->
  bytes_cmp (to_be n x) (to_be n y) = (x ?= y).
Proof.
  intros. rewrite <- (app_nil_r (to_be n x)), <- (app_nil_r (to_be n y)).
  rewrite bytes_cmp_to_be by done. by destruct (x ?= y).
Qed.

Lemma cmp_be_bes n x y t :
  0 <= x < 256 ^ Z.of_nat n -> 0 <= y < 256 ^ Z.of_nat n ->
  bytes_cmp (to_be n x) (to_be n y ++ t) = match x ?= y with Eq => bytes_cmp [] t | c => c end.
Proof. intros. rewrite <- (app_nil_r (to_be n x)). by apply bytes_cmp_to_be. Qed.

Lemma cmp_bes_be n x y s :
  0 <= x < 256 ^ Z.of_nat n -> 0 <= y < 256 ^ Z.of_nat n ->
  bytes_cmp (to_be n x ++ s) (to_be n y) = match x ?= y with Eq => bytes_cmp s [] | c => c end.
Proof. intros. rewrite <- (app_nil_r (to_be n y)). by apply bytes_cmp_to_be. Qed.

Lemma cmp_nil_be4 x : bytes_cmp [] (to_be 4 x) = Lt.
Proof. done. Qed.
Lemma cmp_nil_be8 x : bytes_cmp [] (to_be 8 x) = Lt.
Proof. done. Qed.
Lemma cmp_be4_nil x : bytes_cmp (to_be 4 x) [] = Gt.
Proof. done. Qed.
Lemma cmp_be8_nil x : bytes_cmp (to_be 8 x) [] = Gt.
Proof. done. Qed.

Ltac key_unfold :=
  unfold in_range, bytes_leb, bytes_ltb, key_bytes,
    keys.KEY_SUPERBLOCK, keys.KEY_QUOTA_BYTES, keys.KEY_QUOTA_INODES, keys.KEY_NEXT_INO,
    keys.ORPHAN_PREFIX, keys.inode, keys.dirent, keys.dirent_prefix, keys.dirent_idx,
    keys.dirent_idx_prefix, keys.chunk, keys.chunk_prefix, keys.symlink, keys.xattr,
    keys.xattr_prefix, keys.orphan, key_ok, is_u64, is_u32 in *.

(** Decide a comparison of two encoded keys whose components are in range. *)
Ltac key_cmp :=
  repeat first
    [ rewrite bytes_cmp_cons | rewrite cmp_nil_be4 | rewrite cmp_nil_be8
    | rewrite cmp_be4_nil | rewrite cmp_be8_nil
    | rewrite bytes_cmp_to_be by (cbn; lia) | rewrite cmp_be_bes by (cbn; lia)
    | rewrite cmp_bes_be by (cbn; lia) | rewrite cmp_be_be by (cbn; lia) ];
  cbn [Z.compare Pos.compare Pos.compare_cont andb].

(** ** The encoding *)

Lemma key_bytes_inj k1 k2 :
  key_ok k1 -> key_ok k2 -> key_bytes k1 = key_bytes k2 -> k1 = k2.
Proof.
  intros H1 H2 He. apply bytes_cmp_eq in He. revert H1 H2 He.
  destruct k1, k2; key_unfold; intros H1 H2; key_cmp; try done;
    repeat match goal with
    | |- context [?a ?= ?b] => destruct (Z.compare_spec a b); subst
    end; try done.
  all: intros He; apply bytes_cmp_eq in He; congruence.
Qed.

(** ** The ranges the code scans *)

Ltac range_solve k :=
  intros; destruct k;
  key_unfold; key_cmp;
  repeat match goal with
  | |- context [?a ?= ?b] => destruct (Z.compare_spec a b); subst; try lia
  end; cbn;
  repeat match goal with
  | |- context [bytes_cmp ?e []] => destruct e; cbn
  end;
  (split; [intros HR; try discriminate HR; eauto with lia
          |intros HR; repeat match goal with
                      | H : exists _, _ |- _ => destruct H
                      | H : _ /\ _ |- _ => destruct H
                      end; simplify_eq; try done; try lia; repeat case_match; done]).

Lemma in_range_dirents c k :
  key_ok k -> 0 <= c < U64_MAX ->
  in_range (keys.dirent_prefix c) (keys.dirent_prefix (c + 1)) k = true <->
  exists e, k = KDirent c e.
Proof. unfold U64_MAX. range_solve k. Qed.

Lemma in_range_xattrs c k :
  key_ok k -> 0 <= c < U64_MAX ->
  in_range (keys.xattr_prefix c) (keys.xattr_prefix (c + 1)) k = true <->
  exists n, k = KXattr c n.
Proof. unfold U64_MAX. range_solve k. Qed.

Lemma in_range_chunks c k :
  key_ok k -> 0 <= c < U64_MAX ->
  in_range (keys.chunk_prefix c) (keys.chunk_prefix (c + 1)) k = true <->
  exists i, k = KChunk c i.
Proof. unfold U64_MAX. range_solve k. Qed.

Lemma in_range_chunks_from c first k :
  key_ok k -> 0 <= c < U64_MAX -> is_u32 first ->
  in_range (keys.chunk c first) (keys.chunk_prefix (c + 1)) k = true <->
  exists i, k = KChunk c i /\ first <= i.
Proof. unfold U64_MAX. range_solve k. Qed.

Lemma in_range_dirent_idx p lo hi k :
  key_ok k -> is_u64 p -> is_u64 lo -> is_u64 hi ->
  in_range (keys.dirent_idx p lo) (keys.dirent_idx p hi) k = true <->
  exists i, k = KDirentIdx p i /\ lo <= i < hi.
Proof. range_solve k. Qed.

Lemma in_range_orphans k :
  key_ok k ->
  in_range keys.ORPHAN_PREFIX [112] k = true <-> exists i, k = KOrphan i.
Proof. range_solve k. Qed.

(** ** Parsers invert the encoders *)

Lemma slice_to_be_app n x s :
  slice (to_be n x ++ s) 0 (Z.of_nat n) = to_be n x.
Proof.
  unfold slice. rewrite Z.sub_0_r, Nat2Z.id, drop_0, <- (length_to_be n x) at 1.
  apply take_app_length.
Qed.

Lemma slice_cons x l a b : 0 <= a -> slice (x :: l) (a + 1) (b + 1) = slice l a b.
Proof.
  intros. unfold slice. replace (b + 1 - (a + 1)) with (b - a) by lia.
  rewrite Z2Nat.inj_add, Nat.add_comm by lia. done.
Qed.

Lemma slice_app_r l1 l2 a b :
  0 <= a -> slice (l1 ++ l2) (len l1 + a) (len l1 + b) = slice l2 a b.
Proof.
  intros. unfold slice, len. replace (_ + b - _) with (b - a) by lia.
  rewrite Z2Nat.inj_add, Nat2Z.id by lia. by rewrite <- drop_drop, drop_app_length.
Qed.

Lemma slice_full l : slice l 0 (len l) = l.
Proof. unfold slice, len. rewrite Z.sub_0_r, Nat2Z.id, drop_0. by apply take_ge. Qed.

(** The first eight bytes after the tag are the inode number. *)
Lemma slice_ino t x s : is_u64 x -> from_be (slice (t :: to_be 8 x ++ s) 1 9) = x.
Proof.
  intros H. change 9 with (8 + 1). change 1 with (0 + 1) at 1. rewrite slice_cons by lia.
  rewrite (slice_to_be_app 8). apply from_be_to_be. exact H.
Qed.

Lemma slice_second n t x y :
  from_be (slice (t :: to_be 8 x ++ to_be n y) 9 (9 + Z.of_nat n)) = from_be (to_be n y).
Proof.
  replace (9 + Z.of_nat n) with (len (to_be 8 x) + Z.of_nat n + 1) by (rewrite len_to_be; lia).
  replace 9 with (len (to_be 8 x) + 0 + 1) by (rewrite len_to_be; lia).
  rewrite slice_cons, slice_app_r by (rewrite ?len_to_be; lia).
  by rewrite <- (len_to_be n y), slice_full.
Qed.

Lemma parse_chunk_ok k :
  key_ok k ->
  keys.parse_chunk (key_bytes k) =
    match k with KChunk ino idx => Some (ino, idx) | _ => None end.
Proof.
  intros Hk. unfold keys.parse_chunk. destruct k; cbn [key_bytes key_ok] in *;
    try (rewrite andb_comm; done).
  destruct Hk. unfold keys.chunk. rewrite len_cons, len_app, !len_to_be. cbn [Z.eqb Pos.eqb andb].
  change (byte_at _ 0 =? 99) with true. cbn [andb Z.of_nat Pos.of_succ_nat Pos.succ Z.add Pos.add].
  rewrite slice_ino by done.
  pose proof (slice_second 4 99 ino idx) as Hs. change (9 + Z.of_nat 4) with 13 in Hs. rewrite Hs.
  rewrite from_be_to_be by done. done.
Qed.

Lemma parse_dirent_idx_ok k :
  key_ok k ->
  keys.parse_dirent_idx (key_bytes k) =
    match k with KDirentIdx p i => Some (p, i) | _ => None end.
Proof.
  intros Hk. unfold keys.parse_dirent_idx. destruct k; cbn [key_bytes key_ok] in *;
    try (rewrite andb_comm; done).
  destruct Hk. unfold keys.dirent_idx. rewrite len_cons, len_app, !len_to_be.
  change (byte_at _ 0 =? 101) with true. cbn [andb Z.of_nat Pos.of_succ_nat Pos.succ Z.add Pos.add Z.eqb Pos.eqb].
  rewrite slice_ino by done.
  pose proof (slice_second 8 101 parent dirent_id) as Hs. change (9 + Z.of_nat 8) with 17 in Hs.
  rewrite Hs.
  rewrite from_be_to_be by done. done.
Qed.

Lemma parse_ino_ok t x s : is_u64 x -> keys.parse_ino (t :: to_be 8 x ++ s) = Some x.
Proof.
  intros Hx. unfold keys.parse_ino. rewrite len_cons, len_app, len_to_be.
  pose proof (len_nonneg s). destruct (Z.leb_spec 9 (Z.of_nat 8 + len s + 1)); [|lia].
  by rewrite slice_ino.
Qed.
