(* ===== verification/Meta.v ===== *)
(** Metadata records and the vocabulary of the [Vfs] trait
    ([meta/inode.rs], [meta/dirent.rs], [meta/superblock.rs], [meta/mod.rs],
    [vfs.rs], [error.rs]). *)

From S2P Require Import Prelude Keys.

(** * Errors *)

(** [slatedb::Error], as far as the code looks at it: fencing or not. *)
Inductive SlateError : Type :=
| Fenced
| StorageFault.

(** [error::Error] *)
Inductive Error : Type :=
| SlateDb (e : SlateError)
| ObjectStore
| Crypto
| ENotFound
| AlreadyExists
| EInvalid
| Codec
| Config
| EIo
| Versioning.

(** [vfs::FsError] *)
Inductive FsError : Type :=
| NotPermitted | NotFound | Io | BadHandle | WouldBlock | AccessDenied | Exists
| CrossDevice | NotDir | IsDir | Invalid | FileTooBig | NoSpace | TooManyLinks
| NameTooLong | NotEmpty | NoData | NotSupported | Stale | QuotaExceeded | ReadOnly.

Definition errno (e : FsError) : Z :=
  match e with
  | NotPermitted => 1
  | NotFound => 2
  | Io => 5
  | BadHandle => 9
  | WouldBlock => 11
  | AccessDenied => 13
  | Exists => 17
  | CrossDevice => 18
  | NotDir => 20
  | IsDir => 21
  | Invalid => 22
  | FileTooBig => 27
  | NoSpace => 28
  | TooManyLinks => 31
  | NameTooLong => 36
  | NotEmpty => 39
  | NoData => 61
  | NotSupported => 95
  | Stale => 116
  | QuotaExceeded => 122
  | ReadOnly => 30
  end.

#[global] Instance slate_error_eq_dec : EqDecision SlateError.
Proof. solve_decision. Defined.
#[global] Instance error_eq_dec : EqDecision Error.
Proof. solve_decision. Defined.
#[global] Instance fs_error_eq_dec : EqDecision FsError.
Proof. solve_decision. Defined.

(** [impl From<Error> for FsError] and [impl From<slatedb::Error> for FsError]. *)
Definition fs_error_from_error (_ : Error) : FsError := Io.
Definition fs_error_from_slatedb (_ : SlateError) : FsError := Io.

(** * Inodes *)

Inductive FileKind : Type :=
| File | Dir | Symlink | Fifo | Socket | CharDev | BlockDev.

#[global] Instance file_kind_eq_dec : EqDecision FileKind.
Proof. solve_decision. Defined.

Definition is_dir (k : FileKind) : bool := bool_decide (k = Dir).

Record Timespec : Type := { secs : i64; nanos : u32 }.

#[global] Instance timespec_eq_dec : EqDecision Timespec.
Proof. solve_decision. Defined.

Definition ZERO : Timespec := {| secs := 0; nanos := 0 |}.

(** The derived [PartialOrd]: seconds first, then nanoseconds. *)
Definition timespec_ltb (a b : Timespec) : bool :=
  (secs a <? secs b) || ((secs a =? secs b) && (nanos a <? nanos b)).

(** Mode masks, written in octal in the source. *)
Definition o7777 : u32 := 0xFFF.
Definition o6000 : u32 := 0xC00.
Definition o2000 : u32 := 0x400.
Definition o1000 : u32 := 0x200.
Definition o777 : u32 := 0x1FF.
Definition o755 : u32 := 0x1ED.

Definition ROOT_INO : u64 := 1.
Definition INODE_VERSION : u8 := 1.
Definition MAX_NAME_LEN : usize := 255.
Definition FIRST_DIRENT_ID : u64 := 3.

Record Inode : Type := {
  i_kind : FileKind;
  i_mode : u32;
  i_uid : u32;
  i_gid : u32;
  i_nlink : u32;
  i_size : u64;
  i_atime : Timespec;
  i_mtime : Timespec;
  i_ctime : Timespec;
  i_rdev : u64;
  i_generation : u32;
  i_flags : u32;
  i_next_dirent_id : u64;
  i_billed_bytes : u64;
  i_parent_dir : u64
}.

#[global] Instance inode_eq_dec : EqDecision Inode.
Proof. solve_decision. Defined.

Definition set_i_mode (v : u32) (i : Inode) : Inode :=
    {| i_kind := i_kind i; i_mode := v; i_uid := i_uid i; i_gid := i_gid i; i_nlink := i_nlink
     i; i_size := i_size i; i_atime := i_atime i; i_mtime := i_mtime i; i_ctime := i_ctime i;
     i_rdev := i_rdev i; i_generation := i_generation i; i_flags := i_flags i; i_next_dirent_id
     := i_next_dirent_id i; i_billed_bytes := i_billed_bytes i; i_parent_dir := i_parent_dir i
     |}.
Definition set_i_uid (v : u32) (i : Inode) : Inode :=
    {| i_kind := i_kind i; i_mode := i_mode i; i_uid := v; i_gid := i_gid i; i_nlink := i_nlink
     i; i_size := i_size i; i_atime := i_atime i; i_mtime := i_mtime i; i_ctime := i_ctime i;
     i_rdev := i_rdev i; i_generation := i_generation i; i_flags := i_flags i; i_next_dirent_id
     := i_next_dirent_id i; i_billed_bytes := i_billed_bytes i; i_parent_dir := i_parent_dir i
     |}.
Definition set_i_gid (v : u32) (i : Inode) : Inode :=
    {| i_kind := i_kind i; i_mode := i_mode i; i_uid := i_uid i; i_gid := v; i_nlink := i_nlink
     i; i_size := i_size i; i_atime := i_atime i; i_mtime := i_mtime i; i_ctime := i_ctime i;
     i_rdev := i_rdev i; i_generation := i_generation i; i_flags := i_flags i; i_next_dirent_id
     := i_next_dirent_id i; i_billed_bytes := i_billed_bytes i; i_parent_dir := i_parent_dir i
     |}.
Definition set_i_nlink (v : u32) (i : Inode) : Inode :=
    {| i_kind := i_kind i; i_mode := i_mode i; i_uid := i_uid i; i_gid := i_gid i; i_nlink := v;
     i_size := i_size i; i_atime := i_atime i; i_mtime := i_mtime i; i_ctime := i_ctime i;
     i_rdev := i_rdev i; i_generation := i_generation i; i_flags := i_flags i; i_next_dirent_id
     := i_next_dirent_id i; i_billed_bytes := i_billed_bytes i; i_parent_dir := i_parent_dir i
     |}.
Definition set_i_size (v : u64) (i : Inode) : Inode :=
    {| i_kind := i_kind i; i_mode := i_mode i; i_uid := i_uid i; i_gid := i_gid i; i_nlink :=
     i_nlink i; i_size := v; i_atime := i_atime i; i_mtime := i_mtime i; i_ctime := i_ctime i;
     i_rdev := i_rdev i; i_generation := i_generation i; i_flags := i_flags i; i_next_dirent_id
     := i_next_dirent_id i; i_billed_bytes := i_billed_bytes i; i_parent_dir := i_parent_dir i
     |}.
Definition set_i_atime (v : Timespec) (i : Inode) : Inode :=
    {| i_kind := i_kind i; i_mode := i_mode i; i_uid := i_uid i; i_gid := i_gid i; i_nlink :=
     i_nlink i; i_size := i_size i; i_atime := v; i_mtime := i_mtime i; i_ctime := i_ctime i;
     i_rdev := i_rdev i; i_generation := i_generation i; i_flags := i_flags i; i_next_dirent_id
     := i_next_dirent_id i; i_billed_bytes := i_billed_bytes i; i_parent_dir := i_parent_dir i
     |}.
Definition set_i_mtime (v : Timespec) (i : Inode) : Inode :=
    {| i_kind := i_kind i; i_mode := i_mode i; i_uid := i_uid i; i_gid := i_gid i; i_nlink :=
     i_nlink i; i_size := i_size i; i_atime := i_atime i; i_mtime := v; i_ctime := i_ctime i;
     i_rdev := i_rdev i; i_generation := i_generation i; i_flags := i_flags i; i_next_dirent_id
     := i_next_dirent_id i; i_billed_bytes := i_billed_bytes i; i_parent_dir := i_parent_dir i
     |}.
Definition set_i_ctime (v : Timespec) (i : Inode) : Inode :=
    {| i_kind := i_kind i; i_mode := i_mode i; i_uid := i_uid i; i_gid := i_gid i; i_nlink :=
     i_nlink i; i_size := i_size i; i_atime := i_atime i; i_mtime := i_mtime i; i_ctime := v;
     i_rdev := i_rdev i; i_generation := i_generation i; i_flags := i_flags i; i_next_dirent_id
     := i_next_dirent_id i; i_billed_bytes := i_billed_bytes i; i_parent_dir := i_parent_dir i
     |}.
Definition set_i_rdev (v : u64) (i : Inode) : Inode :=
    {| i_kind := i_kind i; i_mode := i_mode i; i_uid := i_uid i; i_gid := i_gid i; i_nlink :=
     i_nlink i; i_size := i_size i; i_atime := i_atime i; i_mtime := i_mtime i; i_ctime :=
     i_ctime i; i_rdev := v; i_generation := i_generation i; i_flags := i_flags i;
     i_next_dirent_id := i_next_dirent_id i; i_billed_bytes := i_billed_bytes i; i_parent_dir :=
     i_parent_dir i |}.
Definition set_i_next_dirent_id (v : u64) (i : Inode) : Inode :=
    {| i_kind := i_kind i; i_mode := i_mode i; i_uid := i_uid i; i_gid := i_gid i; i_nlink :=
     i_nlink i; i_size := i_size i; i_atime := i_atime i; i_mtime := i_mtime i; i_ctime :=
     i_ctime i; i_rdev := i_rdev i; i_generation := i_generation i; i_flags := i_flags i;
     i_next_dirent_id := v; i_billed_bytes := i_billed_bytes i; i_parent_dir := i_parent_dir i
     |}.
Definition set_i_billed_bytes (v : u64) (i : Inode) : Inode :=
    {| i_kind := i_kind i; i_mode := i_mode i; i_uid := i_uid i; i_gid := i_gid i; i_nlink :=
     i_nlink i; i_size := i_size i; i_atime := i_atime i; i_mtime := i_mtime i; i_ctime :=
     i_ctime i; i_rdev := i_rdev i; i_generation := i_generation i; i_flags := i_flags i;
     i_next_dirent_id := i_next_dirent_id i; i_billed_bytes := v; i_parent_dir := i_parent_dir i
     |}.
Definition set_i_parent_dir (v : u64) (i : Inode) : Inode :=
    {| i_kind := i_kind i; i_mode := i_mode i; i_uid := i_uid i; i_gid := i_gid i; i_nlink :=
     i_nlink i; i_size := i_size i; i_atime := i_atime i; i_mtime := i_mtime i; i_ctime :=
     i_ctime i; i_rdev := i_rdev i; i_generation := i_generation i; i_flags := i_flags i;
     i_next_dirent_id := i_next_dirent_id i; i_billed_bytes := i_billed_bytes i; i_parent_dir :=
     v |}.

Definition Inode_new (kind : FileKind) (mode uid gid : u32) (now : Timespec) : Inode :=
  {| i_kind := kind; i_mode := Z.land mode o7777; i_uid := uid; i_gid := gid;
     i_nlink := if is_dir kind then 2 else 1; i_size := 0;
     i_atime := now; i_mtime := now; i_ctime := now; i_rdev := 0;
     i_generation := 0; i_flags := 0; i_next_dirent_id := FIRST_DIRENT_ID;
     i_billed_bytes := 0; i_parent_dir := 0 |}.

Definition touch_mtime (now : Timespec) (i : Inode) : Inode :=
  set_i_ctime now (set_i_mtime now i).

(** * Directory entries and orphan markers *)

Record Dirent : Type := {
  d_name : bytes;
  d_child_ino : u64;
  d_kind : FileKind;
  d_dirent_id : u64
}.

Record DirentIdx : Type := {
  e_enc_name : bytes;
  e_child_ino : u64;
  e_kind : FileKind
}.

Record Orphan : Type := { o_size : u64; o_kind : FileKind }.

#[global] Instance dirent_eq_dec : EqDecision Dirent.
Proof. solve_decision. Defined.
#[global] Instance dirent_idx_eq_dec : EqDecision DirentIdx.
Proof. solve_decision. Defined.
#[global] Instance orphan_eq_dec : EqDecision Orphan.
Proof. solve_decision. Defined.

(** * Superblock *)

Inductive Cipher : Type := Aes256Gcm | XChaCha20Poly1305.
Inductive VolumeKind : Type := Filesystem | Block (size_bytes : u64).

#[global] Instance cipher_eq_dec : EqDecision Cipher.
Proof. solve_decision. Defined.
#[global] Instance volume_kind_eq_dec : EqDecision VolumeKind.
Proof. solve_decision. Defined.

Definition SUPERBLOCK_VERSION : u8 := 2.

Record Superblock : Type := {
  sb_fsid : u64;
  sb_cipher : Cipher;
  sb_chunk_size : u32;
  sb_name_enc : bool;
  sb_created_at : u64;
  sb_kind : VolumeKind
}.

Record SuperblockV1 : Type := {
  v1_fsid : u64;
  v1_cipher : Cipher;
  v1_chunk_size : u32;
  v1_name_enc : bool;
  v1_created_at : u64
}.

#[global] Instance superblock_eq_dec : EqDecision Superblock.
Proof. solve_decision. Defined.

(** * The versioned record encoding *)

(** [postcard], a third-party codec: any serializer whose decoder inverts its
    encoder. *)
Class Postcard (A : Type) := {
  to_allocvec : A -> bytes;
  from_bytes : bytes -> option A;
  from_to_bytes : forall a, from_bytes (to_allocvec a) = Some a
}.

Section versioned.
Context {A : Type} `{!Postcard A}.

Definition encode_versioned (version : u8) (value : A) : bytes :=
  version :: to_allocvec value.

Definition decode_versioned (expected : u8) (bs : bytes) : result Error A :=
  match bs with
  | version :: rest =>
      if version =? expected then ok_or (from_bytes rest) Codec else Err EInvalid
  | [] => Err EInvalid
  end.
End versioned.

Section superblock_codec.
Context `{!Postcard Superblock, !Postcard SuperblockV1}.

Definition Superblock_encode (sb : Superblock) : bytes := encode_versioned SUPERBLOCK_VERSION sb.

Definition Superblock_decode (bs : bytes) : result Error Superblock :=
  match bs with
  | version :: rest =>
      if version =? 1 then
        match from_bytes (A := SuperblockV1) rest with
        | Some legacy =>
            Ok {| sb_fsid := v1_fsid legacy; sb_cipher := v1_cipher legacy;
                  sb_chunk_size := v1_chunk_size legacy; sb_name_enc := v1_name_enc legacy;
                  sb_created_at := v1_created_at legacy; sb_kind := Filesystem |}
        | None => Err Codec
        end
      else if version =? SUPERBLOCK_VERSION then ok_or (from_bytes rest) Codec
      else Err EInvalid
  | [] => Err EInvalid
  end.
End superblock_codec.

(** * Values of the volume store *)

(** A record value is the record its bytes decode to ([encode_versioned] and
    [decode_versioned] are inverse, see [decode_encode_versioned]); chunks,
    symlink targets, xattr values, counters and the allocator mark are raw
    bytes. *)
Inductive Value : Type :=
| VInode (i : Inode)
| VDirent (d : Dirent)
| VDirentIdx (e : DirentIdx)
| VOrphan (o : Orphan)
| VSuperblock (sb : Superblock)
| VBytes (b : bytes).

#[global] Instance value_eq_dec : EqDecision Value.
Proof. solve_decision. Defined.

(** [Inode::decode] and friends on a stored value. *)
Definition Inode_decode (v : Value) : result Error Inode :=
  match v with VInode i => Ok i | _ => Err Codec end.
Definition Dirent_decode (v : Value) : result Error Dirent :=
  match v with VDirent d => Ok d | _ => Err Codec end.
Definition DirentIdx_decode (v : Value) : result Error DirentIdx :=
  match v with VDirentIdx e => Ok e | _ => Err Codec end.
Definition Orphan_decode (v : Value) : result Error Orphan :=
  match v with VOrphan o => Ok o | _ => Err Codec end.
Definition SuperblockV_decode (v : Value) : result Error Superblock :=
  match v with VSuperblock sb => Ok sb | _ => Err Codec end.
(** The bytes of a raw value. *)
Definition value_bytes (v : Value) : bytes :=
  match v with VBytes b => b | _ => [] end.

(** * The vocabulary of [Vfs] *)

Record Credentials : Type := {
  c_uid : u32;
  c_gid : u32;
  c_groups : list u32;
  c_trusted : bool
}.

Definition creds_root : Credentials :=
  {| c_uid := 0; c_gid := 0; c_groups := []; c_trusted := false |}.
Definition creds_user (uid gid : u32) : Credentials :=
  {| c_uid := uid; c_gid := gid; c_groups := []; c_trusted := false |}.
Definition creds_trusted (uid gid : u32) : Credentials :=
  {| c_uid := uid; c_gid := gid; c_groups := []; c_trusted := true |}.

Definition is_root (c : Credentials) : bool := c_uid c =? 0.
Definition is_privileged (c : Credentials) : bool := (c_uid c =? 0) || c_trusted c.
Definition in_group (c : Credentials) (gid : u32) : bool :=
  (c_gid c =? gid) || existsb (Z.eqb gid) (c_groups c).

Record FileAttr : Type := {
  a_ino : u64;
  a_kind : FileKind;
  a_mode : u32;
  a_nlink : u32;
  a_uid : u32;
  a_gid : u32;
  a_size : u64;
  a_atime : Timespec;
  a_mtime : Timespec;
  a_ctime : Timespec;
  a_rdev : u64;
  a_generation : u32;
  a_blocks : u64
}.

#[global] Instance file_attr_eq_dec : EqDecision FileAttr.
Proof. solve_decision. Defined.

Inductive TimeSet : Type := TNow | TTime (t : Timespec).

Record SetAttrs : Type := {
  s_mode : option u32;
  s_uid : option u32;
  s_gid : option u32;
  s_size : option u64;
  s_atime : option TimeSet;
  s_mtime : option TimeSet
}.

#[global] Instance time_set_eq_dec : EqDecision TimeSet.
Proof. solve_decision. Defined.
#[global] Instance set_attrs_eq_dec : EqDecision SetAttrs.
Proof. solve_decision. Defined.

Definition SetAttrs_default : SetAttrs :=
  {| s_mode := None; s_uid := None; s_gid := None; s_size := None;
     s_atime := None; s_mtime := None |}.
Definition SetAttrs_is_empty (a : SetAttrs) : bool := bool_decide (a = SetAttrs_default).

Record DirEntry : Type := {
  de_name : bytes;
  de_ino : u64;
  de_kind : FileKind;
  de_cookie : u64
}.

Record ReadDir : Type := { rd_entries : list DirEntry; rd_eof : bool }.

Record StatFs : Type := {
  sf_block_size : u32;
  sf_total_bytes : u64;
  sf_free_bytes : u64;
  sf_avail_bytes : u64;
  sf_total_inodes : u64;
  sf_free_inodes : u64
}.

Record EntryPermissions : Type := {
  can_read : bool;
  can_write : bool;
  can_delete : bool;
  can_rename : bool
}.

Inductive OpenMode : Type := ORead | OWrite | OReadWrite.
Inductive AtimeMode : Type := Relatime | Strict | Noatime.

(** * Round trips of the record encoding *)

Lemma decode_encode_versioned `{!Postcard A} v (x : A) :
  decode_versioned v (encode_versioned v x) = Ok x.
Proof. unfold decode_versioned, encode_versioned. by rewrite Z.eqb_refl, from_to_bytes. Qed.
