(* ===== verification/Store.v ===== *)
(** The storage engine as the volume code sees it.

    SlateDB is a third-party crate: [SlateDB] states, as a class, the
    operations the sources call and the documented behaviour they rely on (a
    write batch is applied atomically and in order, a scan yields the records
    of a byte range in key order, and a crash may lose the latest batches,
    those written since the last flush).  [Engine] adds what an operation meets
    at run time: storage faults and the wall clock. *)

From S2P Require Import Prelude Keys Meta.

(** * Write batches *)

(** [WriteBatch::put], [delete] and [merge]. *)
Inductive BatchOp : Type :=
| Put (k : Key) (v : Value)
| Delete (k : Key)
| Merge (k : Key) (operand : bytes).

Definition WriteBatch : Type := list BatchOp.

(** ** The counter merge operator ([quota.rs]) *)

Definition decode_i64 (bs : bytes) : result unit i64 :=
  if len bs =? 8 then Ok (as_i64 (from_le bs)) else Err tt.

(** [CounterMergeOperator::merge] *)
Definition CounterMergeOperator_merge (existing_value : option bytes) (value : bytes) :
    result unit bytes :=
  let existing := match existing_value with
                  | Some b => match decode_i64 b with Ok x => Ok (Some x) | Err e => Err e end
                  | None => Ok None
                  end in
  match existing, decode_i64 value with
  | Ok existing, Ok delta =>
      let sum := as_i64 (default 0 existing + delta) in
      Ok (to_le 8 sum)
  | Err e, _ | _, Err e => Err e
  end.

Definition encode_delta (delta : i64) : bytes := to_le 8 delta.

Definition decode_counter (bs : option bytes) : i64 :=
  match bs with
  | Some b => if len b =? 8 then as_i64 (from_le b) else 0
  | None => 0
  end.

(** ** What a batch does to the records of a volume *)

Definition apply_op (m : gmap Key Value) (op : BatchOp) : gmap Key Value :=
  match op with
  | Put k v => <[k := v]> m
  | Delete k => delete k m
  | Merge k operand =>
      match CounterMergeOperator_merge (value_bytes <$> m !! k) operand with
      | Ok b => <[k := VBytes b]> m
      | Err _ => m
      end
  end.

Definition apply_batch (m : gmap Key Value) (b : WriteBatch) : gmap Key Value :=
  fold_left apply_op b m.

(** * The engine interface *)

Definition key_le (a b : Key * Value) : Prop := bytes_leb (key_bytes a.1) (key_bytes b.1) = true.

Class SlateDB : Type := {
  Db : Type;
  (** The records a reader sees. *)
  contents : Db -> gmap Key Value;
  db_get : Db -> Key -> option Value;
  (** [db.scan(lo..hi)], and [db.scan(..)] when both ends are [None]. *)
  db_scan : Db -> option bytes -> option bytes -> list (Key * Value);
  db_write : Db -> WriteBatch -> Db;
  db_flush : Db -> Db;
  (** The records a restart may find.  The sources write with [await_durable]
      off: a batch is in the write-ahead log in order, but it reaches storage
      later, at the latest when a flush returns. *)
  db_survives : Db -> gmap Key Value -> Prop;
  db_get_spec d k : db_get d k = contents d !! k;
  db_write_spec d b : contents (db_write d b) = apply_batch (contents d) b;
  db_flush_spec d : contents (db_flush d) = contents d;
  db_write_survives d b m :
    db_survives (db_write d b) m -> db_survives d m \/ m = contents (db_write d b);
  db_flush_survives d m : db_survives (db_flush d) m -> m = contents d;
  db_scan_elem d lo hi k v :
    (k, v) ∈ db_scan d lo hi <->
    contents d !! k = Some v /\
    (forall l, lo = Some l -> bytes_leb l (key_bytes k) = true) /\
    (forall h, hi = Some h -> bytes_ltb (key_bytes k) h = true);
  db_scan_nodup d lo hi : NoDup (db_scan d lo hi).*1;
  db_scan_sorted d lo hi : Sorted key_le (db_scan d lo hi)
}.

(** * Running on the engine *)

Section engine.
Context {DB : SlateDB}.

Record Engine : Type := mkEngine {
  e_db : Db;
  (** The outcome of the next storage calls: [Some e] fails the call. *)
  e_faults : list (option SlateError);
  (** The next readings of the wall clock. *)
  e_clock : list Timespec;
  (** Every batch committed through this engine, oldest first. *)
  e_log : list WriteBatch
}.

Definition EM : Type -> Type := ST Engine SlateError.

(** One storage call: fail if the next fault says so. *)
Definition poll : EM unit := fun s =>
  match e_faults s with
  | [] => (Ok tt, s)
  | f :: fs =>
      (match f with Some e => Err e | None => Ok tt end,
       mkEngine (e_db s) fs (e_clock s) (e_log s))
  end.

Definition get (k : Key) : EM (option Value) :=
  poll ;;; s <- st_get ;; st_ret (db_get (e_db s) k).

Definition write (b : WriteBatch) : EM unit :=
  poll ;;;
  st_modify (fun s => mkEngine (db_write (e_db s) b) (e_faults s) (e_clock s)
                               (e_log s ++ [b])).

Definition put (k : Key) (v : Value) : EM unit := write [Put k v].

(** [db.flush()]: when it returns, nothing written is lost by a crash. *)
Definition flush : EM unit :=
  poll ;;;
  st_modify (fun s => mkEngine (db_flush (e_db s)) (e_faults s) (e_clock s) (e_log s)).

(** [db.snapshot()] pins a view; reads of it still go to the engine. *)
Definition snapshot : EM Db := poll ;;; s <- st_get ;; st_ret (e_db s).
Definition snapshot_get (d : Db) (k : Key) : EM (option Value) :=
  poll ;;; st_ret (db_get d k).

(** [db.scan(lo..hi)]: an iterator over the records of the range. *)
Definition scan (lo hi : option bytes) : EM (list (Key * Value)) :=
  poll ;;; s <- st_get ;; st_ret (db_scan (e_db s) lo hi).

(** [iter.next()]: the record and the iterator after it. *)
Definition iter_next (it : list (Key * Value)) :
    EM (option ((Key * Value) * list (Key * Value))) :=
  poll ;;;
  st_ret (match it with [] => None | kv :: it' => Some (kv, it') end).

(** [while let Some(kv) = iter.next().await? { f }], folding an
    accumulator; [inl] is [break]. *)
Fixpoint iter_loop {A} (f : A -> Key * Value -> A + A) (acc : A) (it : list (Key * Value)) :
    EM A :=
  match it with
  | [] => poll ;;; st_ret acc
  | kv :: it' =>
      poll ;;;
      match f acc kv with
      | inl acc' => st_ret acc'
      | inr acc' => iter_loop f acc' it'
      end
  end.

(** [Timespec::now()] *)
Definition clock_now {E} : ST Engine E Timespec := fun s =>
  match e_clock s with
  | [] => (Ok ZERO, s)
  | t :: ts => (Ok t, mkEngine (e_db s) (e_faults s) ts (e_log s))
  end.

(** Lift an engine call to a [Result<_, Error>] one ([#[from]]). *)
Definition lift_db {A} (m : EM A) : ST Engine Error A := st_map_err SlateDb m.
End engine.

Arguments Engine : clear implicits.
Arguments Engine {DB}.

(** * Two reference engines: the records themselves, and the records with the
    versions a crash may fall back to *)

#[global] Instance key_le_dec : RelDecision key_le.
Proof. intros a b. unfold key_le. apply _. Defined.
#[global] Instance key_le_total : Total key_le.
Proof. intros a b. apply bytes_leb_total. Qed.
#[global] Instance key_le_trans : Transitive key_le.
Proof. intros a b c. apply bytes_leb_trans. Qed.

Definition in_bounds (lo hi : option bytes) (k : Key) : bool :=
  match lo with Some l => bytes_leb l (key_bytes k) | None => true end &&
  match hi with Some h => bytes_ltb (key_bytes k) h | None => true end.

Definition map_scan (m : gmap Key Value) (lo hi : option bytes) : list (Key * Value) :=
  merge_sort key_le (filter (fun kv => in_bounds lo hi kv.1 = true) (map_to_list m)).

Lemma map_scan_elem m lo hi k v :
  (k, v) ∈ map_scan m lo hi <->
  m !! k = Some v /\
  (forall l, lo = Some l -> bytes_leb l (key_bytes k) = true) /\
  (forall h, hi = Some h -> bytes_ltb (key_bytes k) h = true).
Proof.
  unfold map_scan. rewrite merge_sort_Permutation, list_elem_of_filter, elem_of_map_to_list.
  unfold in_bounds. simpl. rewrite andb_true_iff.
  destruct lo, hi; naive_solver.
Qed.

Lemma map_scan_nodup m lo hi : NoDup (map_scan m lo hi).*1.
Proof.
  unfold map_scan. rewrite merge_sort_Permutation.
  pose proof (NoDup_fst_map_to_list m) as Hnd.
  induction (map_to_list m) as [|[k v] l IH]; [constructor|].
  apply NoDup_cons in Hnd as [Hk Hnd]. cbn. case_decide; [|auto].
  apply NoDup_cons. split; [|auto]. intros Hin. apply Hk.
  apply list_elem_of_fmap in Hin as ([k' v'] & -> & Hin). simpl.
  apply list_elem_of_filter in Hin as [_ Hin]. apply list_elem_of_fmap. by exists (k', v').
Qed.

#[refine] Definition map_slatedb : SlateDB := {|
  Db := gmap Key Value;
  contents m := m;
  db_get m k := m !! k;
  db_scan := map_scan;
  db_write := apply_batch;
  db_flush m := m;
  db_survives m m' := m' = m
|}.
Proof.
  - done.
  - done.
  - done.
  - by right.
  - done.
  - apply map_scan_elem.
  - apply map_scan_nodup.
  - intros. unfold map_scan. apply (Sorted_merge_sort _).
Defined.

(** Writes wait in memory until a flush. *)
Record LazyDb : Type := { lz_now : gmap Key Value; lz_before : list (gmap Key Value) }.

#[refine] Definition lazy_slatedb : SlateDB := {|
  Db := LazyDb;
  contents := lz_now;
  db_get d k := lz_now d !! k;
  db_scan d := map_scan (lz_now d);
  db_write d b := {| lz_now := apply_batch (lz_now d) b; lz_before := lz_now d :: lz_before d |};
  db_flush d := {| lz_now := lz_now d; lz_before := [] |};
  db_survives d m := m ∈ lz_now d :: lz_before d
|}.
Proof.
  - done.
  - done.
  - done.
  - intros d b m [->|Hm]%elem_of_cons; [by right|by left].
  - by intros d m ->%list_elem_of_singleton.
  - intros d. apply map_scan_elem.
  - intros d. apply map_scan_nodup.
  - intros. unfold map_scan. apply (Sorted_merge_sort _).
Defined.

(** * The engine with no faults pending *)

Section quiet.
Context {DB : SlateDB}.

Lemma apply_batch_app m b1 b2 : apply_batch m (b1 ++ b2) = apply_batch (apply_batch m b1) b2.
Proof. apply fold_left_app. Qed.

Lemma poll_quiet (s : Engine) : e_faults s = [] -> poll s = (Ok tt, s).
Proof. unfold poll. by intros ->. Qed.

Lemma get_quiet (s : Engine) k :
  e_faults s = [] -> get k s = (Ok (contents (e_db s) !! k), s).
Proof. intros H. unfold get, st_bind. rewrite poll_quiet by done. cbn. by rewrite db_get_spec. Qed.

Lemma scan_quiet (s : Engine) lo hi :
  e_faults s = [] -> scan lo hi s = (Ok (db_scan (e_db s) lo hi), s).
Proof. intros H. unfold scan, st_bind. by rewrite poll_quiet. Qed.

Lemma snapshot_quiet (s : Engine) : e_faults s = [] -> snapshot s = (Ok (e_db s), s).
Proof. intros H. unfold snapshot, st_bind. by rewrite poll_quiet. Qed.

Lemma snapshot_get_quiet (s : Engine) d k :
  e_faults s = [] -> snapshot_get d k s = (Ok (contents d !! k), s).
Proof. intros H. unfold snapshot_get, st_bind. rewrite poll_quiet by done. cbn. by rewrite db_get_spec. Qed.

Lemma iter_next_quiet (s : Engine) it :
  e_faults s = [] ->
  iter_next it s = (Ok (match it with [] => None | kv :: it' => Some (kv, it') end), s).
Proof. intros H. unfold iter_next, st_bind. by rewrite poll_quiet. Qed.

(** An iteration that never breaks is a fold. *)
Lemma iter_loop_quiet {A} (f : A -> Key * Value -> A) (s : Engine) it acc :
  e_faults s = [] ->
  iter_loop (fun a kv => inr (f a kv)) acc it s = (Ok (fold_left f it acc), s).
Proof.
  intros H. revert acc. induction it as [|kv it IH]; intros acc; simpl;
    unfold st_bind; rewrite poll_quiet by done; [done|apply IH].
Qed.

Lemma flush_quiet (s : Engine) :
  e_faults s = [] -> flush s = (Ok tt, mkEngine (db_flush (e_db s)) [] (e_clock s) (e_log s)).
Proof. intros H. unfold flush, st_bind. rewrite poll_quiet by done. unfold st_modify. by rewrite <- H. Qed.

Lemma write_quiet (s : Engine) b :
  e_faults s = [] ->
  write b s = (Ok tt, mkEngine (db_write (e_db s) b) [] (e_clock s) (e_log s ++ [b])).
Proof. intros H. unfold write, st_bind. rewrite poll_quiet by done. unfold st_modify. by rewrite <- H. Qed.
End quiet.
