(* ===== verification/Data.v ===== *)
(** Chunked file content ([data.rs], and the accounting rule of [quota.rs]).

    A file is a sequence of fixed-size chunks; a missing chunk reads as zeros.
    [content] is the abstract file: the byte at each offset.  The theorems show
    that [read_range] returns a slice of it, that the batches planned by
    [plan_write] and [plan_truncate] update it the way a byte array would be
    updated, and that the planned billing delta is exact. *)

From S2P Require Import Prelude Keys Meta Store.

(** [quota::billed_chunk_bytes] *)
Definition billed_chunk_bytes (size chunk_start : u64) (value_len : usize) : u64 :=
  Z.min value_len (saturating_sub size chunk_start).

Definition chunk_of (offset chunk_size : u64) : u32 := as_u32 (offset / chunk_size).

(** [first..=last] *)
Definition range_incl (first last : Z) : list Z := seqZ first (last - first + 1).

Definition copy_from_chunk (out : bytes) (read_offset : u64) (idx : u32) (chunk : bytes)
    (chunk_size : u64) : bytes :=
  let chunk_start := idx * chunk_size in
  let from := Z.max read_offset chunk_start in
  let to := Z.min (read_offset + len out) (chunk_start + len chunk) in
  if to <=? from then out
  else splice out (from - read_offset) (slice chunk (from - chunk_start) (to - chunk_start)).

Record WritePlan : Type := {
  wp_puts : list (u32 * bytes);
  wp_new_size : u64;
  wp_billed_delta : i64
}.

Record TruncatePlan : Type := {
  tp_tail_put : option (u32 * bytes);
  tp_deletes : list u32;
  tp_billed_delta : i64
}.

(** The body of the loop of [plan_write], once the old chunk is known: the new
    chunk value and its share of the billing delta. *)
Definition write_chunk (chunk_size old_size new_size offset : u64) (data : bytes) (idx : u32)
    (old_chunk : option bytes) : bytes * i64 :=
  let endo := offset + len data in
  let chunk_start := idx * chunk_size in
  let chunk_end := chunk_start + chunk_size in
  let write_from := Z.max offset chunk_start in
  let write_to := Z.min endo chunk_end in
  let existed := match old_chunk with Some _ => true | None => false end in
  let old_len := match old_chunk with Some c => len c | None => 0 end in
  let buf := default [] old_chunk in
  let needed := write_to - chunk_start in
  let buf := if len buf <? needed then resize buf needed else buf in
  let src_from := write_from - offset in
  let src_to := write_to - offset in
  let buf := splice buf (write_from - chunk_start) (slice data src_from src_to) in
  let old_billed := if existed then billed_chunk_bytes old_size chunk_start old_len else 0 in
  let new_billed := billed_chunk_bytes new_size chunk_start (len buf) in
  (buf, new_billed - old_billed).

(** The body of the loop of [plan_truncate]; [inl] is the [break]. *)
Definition truncate_step (chunk_size old_size new_size : u64) (p : TruncatePlan)
    (kv : Key * Value) : TruncatePlan + TruncatePlan :=
  match keys.parse_chunk (key_bytes kv.1) with
  | None => inl p
  | Some (_, idx) =>
      let value := value_bytes kv.2 in
      let chunk_start := idx * chunk_size in
      let old_billed := billed_chunk_bytes old_size chunk_start (len value) in
      if new_size <=? chunk_start then
        inr {| tp_tail_put := tp_tail_put p; tp_deletes := tp_deletes p ++ [idx];
               tp_billed_delta := tp_billed_delta p + (0 - old_billed) |}
      else
        let keep := new_size - chunk_start in
        if keep <? len value then
          let buf := take (Z.to_nat keep) value in
          inr {| tp_tail_put := Some (idx, buf); tp_deletes := tp_deletes p;
                 tp_billed_delta := tp_billed_delta p + (len buf - old_billed) |}
        else
          inr {| tp_tail_put := tp_tail_put p; tp_deletes := tp_deletes p;
                 tp_billed_delta := tp_billed_delta p + (len value - old_billed) |}
  end.

Section data.
Context {DB : SlateDB}.

Fixpoint read_chunks (snap : Db) (chunk_size ino offset : u64) (idxs : list u32) (out : bytes) :
    ST Engine Error bytes :=
  match idxs with
  | [] => st_ret out
  | idx :: idxs' =>
      o <- lift_db (snapshot_get snap (KChunk ino idx)) ;;
      read_chunks snap chunk_size ino offset idxs'
        (match o with
         | Some chunk => copy_from_chunk out offset idx (value_bytes chunk) chunk_size
         | None => out
         end)
  end.

Definition read_range (chunk_size ino size offset : u64) (length : u32) :
    ST Engine Error bytes :=
  if (size <=? offset) || (length =? 0) then st_ret []
  else
    let endo := Z.min size (as_u64 (offset + length)) in
    let first := chunk_of offset chunk_size in
    let last := chunk_of (endo - 1) chunk_size in
    let out := zeros (endo - offset) in
    if first =? last then
      o <- lift_db (get (KChunk ino first)) ;;
      st_ret (match o with
              | Some chunk => copy_from_chunk out offset first (value_bytes chunk) chunk_size
              | None => out
              end)
    else
      snap <- lift_db snapshot ;;
      read_chunks snap chunk_size ino offset (range_incl first last) out.

Fixpoint write_chunks (chunk_size ino old_size new_size offset : u64) (data : bytes)
    (idxs : list u32) (puts : list (u32 * bytes)) (billed_delta : i64) :
    ST Engine Error (list (u32 * bytes) * i64) :=
  match idxs with
  | [] => st_ret (puts, billed_delta)
  | idx :: idxs' =>
      old_chunk <- (if old_size <=? idx * chunk_size then st_ret None
                    else lift_db (get (KChunk ino idx))) ;;
      let '(buf, delta) :=
        write_chunk chunk_size old_size new_size offset data idx (value_bytes <$> old_chunk) in
      write_chunks chunk_size ino old_size new_size offset data idxs'
        (puts ++ [(idx, buf)]) (billed_delta + delta)
  end.

Definition plan_write (chunk_size ino old_size offset : u64) (data : bytes) :
    ST Engine Error WritePlan :=
  let endo := offset + len data in
  let new_size := Z.max old_size endo in
  let first := chunk_of offset chunk_size in
  let last := chunk_of (endo - 1) chunk_size in
  let* (puts, billed_delta) :=
    write_chunks chunk_size ino old_size new_size offset data (range_incl first last) [] 0 in
  st_ret {| wp_puts := puts; wp_new_size := new_size; wp_billed_delta := billed_delta |}.

Definition plan_truncate (chunk_size ino old_size new_size : u64) :
    ST Engine Error TruncatePlan :=
  let empty := {| tp_tail_put := None; tp_deletes := []; tp_billed_delta := 0 |} in
  if old_size <=? new_size then st_ret empty
  else
    let first_affected := chunk_of new_size chunk_size in
    it <- lift_db (scan (Some (keys.chunk ino first_affected))
                        (Some (keys.chunk_prefix (ino + 1)))) ;;
    lift_db (iter_loop (truncate_step chunk_size old_size new_size) empty it).
End data.

(** * The abstract file *)

(** The stored bytes of a chunk; none if it is absent. *)
Definition chunk_at (m : gmap Key Value) (ino : u64) (idx : u32) : bytes :=
  match m !! KChunk ino idx with Some v => value_bytes v | None => [] end.

(** The byte a reader must see at [off] in a file of [size] bytes. *)
Definition content (m : gmap Key Value) (chunk_size ino size off : u64) : u8 :=
  if (0 <=? off) && (off <? size)
  then byte_at (chunk_at m ino (off / chunk_size)) (off mod chunk_size)
  else 0.

(** No chunk is longer than the chunk size. *)
Definition chunks_fit (m : gmap Key Value) (chunk_size ino : u64) : Prop :=
  forall idx v, m !! KChunk ino idx = Some v -> is_u32 idx /\ len (value_bytes v) <= chunk_size.

(** Every stored byte lies below end of file. *)
Definition chunks_trimmed (m : gmap Key Value) (chunk_size ino size : u64) : Prop :=
  forall idx v, m !! KChunk ino idx = Some v -> idx * chunk_size + len (value_bytes v) <= size.

(** The accounting rule: what the chunks of a file bill. *)
Definition billed_chunk (chunk_size ino size : u64) (k : Key) (v : Value) : Z :=
  match k with
  | KChunk i idx =>
      if i =? ino then billed_chunk_bytes size (idx * chunk_size) (len (value_bytes v)) else 0
  | _ => 0
  end.
Definition billed (m : gmap Key Value) (chunk_size ino size : u64) : Z :=
  msum (billed_chunk chunk_size ino size) m.

(** ** Offsets and chunk indexes *)

Lemma div_in_chunk cs idx off : 0 < cs -> idx * cs <= off < idx * cs + cs -> off / cs = idx.
Proof. intros. symmetry. apply Z.div_unique with (off - idx * cs); lia. Qed.

Lemma mod_in_chunk cs idx off :
  0 < cs -> idx * cs <= off < idx * cs + cs -> off mod cs = off - idx * cs.
Proof. intros. symmetry. apply Z.mod_unique with idx; lia. Qed.

Lemma div_bounds cs off : 0 < cs -> (off / cs) * cs <= off < (off / cs) * cs + cs.
Proof. intros. pose proof (Z.div_mod off cs). pose proof (Z.mod_pos_bound off cs). lia. Qed.

Lemma chunk_at_len m cs ino idx : 0 < cs -> chunks_fit m cs ino -> len (chunk_at m ino idx) <= cs.
Proof.
  intros Hcs Hfit. unfold chunk_at. destruct (m !! KChunk ino idx) as [v|] eqn:Hv.
  - by apply (Hfit idx v).
  - rewrite len_nil. lia.
Qed.

(** Largest file the 32-bit chunk index can address. *)
Definition max_size (cs : u64) : Z := cs * 2 ^ 32.

Lemma chunk_of_small cs off :
  0 < cs -> 0 <= off < max_size cs -> chunk_of off cs = off / cs.
Proof.
  unfold max_size, chunk_of. intros Hcs Ho. apply as_u32_small. split.
  - apply Z.div_pos; lia.
  - apply Z.div_lt_upper_bound; lia.
Qed.

(** ** Reading *)

Lemma copy_from_chunk_spec out off idx chunk cs :
  0 <= off -> 0 <= idx * cs ->
  len (copy_from_chunk out off idx chunk cs) = len out /\
  forall i, 0 <= i < len out ->
    byte_at (copy_from_chunk out off idx chunk cs) i =
      if (idx * cs <=? off + i) && (off + i <? idx * cs + len chunk)
      then byte_at chunk (off + i - idx * cs) else byte_at out i.
Proof.
  intros Hoff Hidx. unfold copy_from_chunk.
  pose proof (len_nonneg out). pose proof (len_nonneg chunk).
  set (from := Z.max off (idx * cs)). set (to := Z.min (off + len out) (idx * cs + len chunk)).
  destruct (Z.leb_spec to from).
  - split; [done|]. intros i Hi.
    destruct (Z.leb_spec (idx * cs) (off + i)), (Z.ltb_spec (off + i) (idx * cs + len chunk));
      try done; lia.
  - assert (len (slice chunk (from - idx * cs) (to - idx * cs)) = to - from) as Hl.
    { rewrite len_slice; lia. }
    split; [apply len_splice; lia|]. intros i Hi.
    rewrite byte_at_splice, Hl by lia.
    destruct (Z.leb_spec (idx * cs) (off + i)), (Z.ltb_spec (off + i) (idx * cs + len chunk)),
      (Z.leb_spec (from - off) i), (Z.ltb_spec i (from - off + (to - from))); simpl; try lia; try done.
    rewrite byte_at_slice by lia.
    destruct (Z.ltb_spec (i - (from - off)) (to - idx * cs - (from - idx * cs))); [|lia].
    f_equal. lia.
Qed.

Section data_thms.
Context {DB : SlateDB}.
Implicit Types (s : Engine).

(** The byte of the read window at [i], through the chunk that holds it. *)
Definition window (m : gmap Key Value) (cs ino off i : Z) : Z :=
  byte_at (chunk_at m ino ((off + i) / cs)) ((off + i) mod cs).

Lemma copy_chunk_window m cs ino off out idx n :
  0 < cs -> 0 <= off -> 0 <= idx -> chunks_fit m cs ino -> len out = n ->
  (forall i, 0 <= i < n ->
     byte_at out i = if (off + i) / cs <? idx then window m cs ino off i else 0) ->
  let out' := match m !! KChunk ino idx with
              | Some c => copy_from_chunk out off idx (value_bytes c) cs
              | None => out
              end in
  len out' = n /\
  forall i, 0 <= i < n ->
    byte_at out' i = if (off + i) / cs <? idx + 1 then window m cs ino off i else 0.
Proof.
  intros Hcs Hoff Hidx Hfit Hlen Hout. cbn zeta.
  assert (forall i, 0 <= i < n -> (off + i) / cs = idx ->
            byte_at out i = 0) as Hz.
  { intros i Hi Hd. rewrite Hout, Hd by done. by rewrite Z.ltb_irrefl. }
  destruct (m !! KChunk ino idx) as [c|] eqn:Hc.
  - destruct (Hfit idx c Hc) as [_ Hcl]. pose proof (len_nonneg (value_bytes c)).
    destruct (copy_from_chunk_spec out off idx (value_bytes c) cs) as [Hl Hb]; [lia|nia|].
    split; [congruence|]. intros i Hi. rewrite Hb by lia.
    pose proof (div_bounds cs (off + i) Hcs) as Hd.
    destruct (Z.leb_spec (idx * cs) (off + i)), (Z.ltb_spec (off + i) (idx * cs + len (value_bytes c)));
      simpl.
    + assert ((off + i) / cs = idx) as E by (apply div_in_chunk; lia).
      unfold window, chunk_at. rewrite E, Hc, (mod_in_chunk cs idx) by lia.
      destruct (Z.ltb_spec idx (idx + 1)); [done|lia].
    + destruct (Z.ltb_spec ((off + i) / cs) (idx + 1)) as [L|L].
      * assert ((off + i) / cs = idx) as E by nia.
        rewrite Hz by done. unfold window, chunk_at. rewrite E, Hc, (mod_in_chunk cs idx) by nia.
        rewrite byte_at_ge; [done|lia].
      * rewrite Hout by done. destruct (Z.ltb_spec ((off + i) / cs) idx); [lia|done].
    + rewrite Hout by done.
      destruct (Z.ltb_spec ((off + i) / cs) idx), (Z.ltb_spec ((off + i) / cs) (idx + 1));
        try done; nia.
    + lia.
  - split; [done|]. intros i Hi. rewrite Hout by done.
    destruct (Z.ltb_spec ((off + i) / cs) idx), (Z.ltb_spec ((off + i) / cs) (idx + 1));
      try done; try lia.
    unfold window, chunk_at. replace ((off + i) / cs) with idx by lia.
    by rewrite Hc, byte_at_nil.
Qed.

Lemma read_chunks_quiet snap cs ino off idx k n out s :
  e_faults s = [] ->
  0 < cs -> 0 <= off -> 0 <= idx -> chunks_fit (contents snap) cs ino -> len out = n ->
  (forall i, 0 <= i < n ->
     byte_at out i = if (off + i) / cs <? idx then window (contents snap) cs ino off i else 0) ->
  exists out',
    read_chunks snap cs ino off (seqZ idx (Z.of_nat k)) out s = (Ok out', s) /\
    len out' = n /\
    forall i, 0 <= i < n ->
      byte_at out' i =
        if (off + i) / cs <? idx + Z.of_nat k then window (contents snap) cs ino off i else 0.
Proof.
  intros Hq Hcs Hoff. revert idx out. induction k as [|k IH]; intros idx out Hidx Hfit Hlen Hout.
  - exists out. rewrite Z.add_0_r. done.
  - rewrite seqZ_cons by lia. cbn [read_chunks]. unfold lift_db, st_map_err, st_bind.
    rewrite snapshot_get_quiet by done. cbn [map_err].
    replace (Z.pred (Z.of_nat (S k))) with (Z.of_nat k) by lia.
    destruct (copy_chunk_window (contents snap) cs ino off out idx n) as [Hl Hb]; try done.
    destruct (IH (Z.succ idx) _ ltac:(lia) Hfit Hl) as (out' & Hr & Hl' & Hb').
    { intros i Hi. rewrite Hb by done. by replace (idx + 1) with (Z.succ idx) by lia. }
    exists out'. split; [done|]. split; [done|]. intros i Hi. rewrite Hb' by done.
    by replace (Z.succ idx + Z.of_nat k) with (idx + Z.of_nat (S k)) by lia.
Qed.

(** A read returns the bytes of the abstract file in the requested window,
    clamped to the size. *)
Lemma read_range_quiet cs ino size off n s :
  e_faults s = [] -> 0 < cs -> chunks_fit (contents (e_db s)) cs ino ->
  0 <= off -> 0 <= n -> size <= max_size cs -> off + n <= U64_MAX ->
  exists out,
    read_range cs ino size off n s = (Ok out, s) /\
    len out = Z.max 0 (Z.min size (off + n) - off) /\
    forall i, 0 <= i < len out ->
      byte_at out i = content (contents (e_db s)) cs ino size (off + i).
Proof.
  intros Hq Hcs Hfit Hoff Hn Hsize Hov. unfold read_range.
  destruct (Z.leb_spec size off) as [Hso|Hso]; simpl.
  { exists []. rewrite len_nil. split; [done|]. split; [lia|intros; lia]. }
  destruct (Z.eqb_spec n 0) as [->|Hn0]; simpl.
  { exists []. rewrite len_nil. split; [done|]. split; [lia|intros; lia]. }
  unfold U64_MAX in Hov. rewrite as_u64_small by (unfold is_u64; lia).
  set (endo := Z.min size (off + n)).
  assert (endo = Z.min size (off + n)) as Hendo by done. clearbody endo.
  rewrite !chunk_of_small by lia.
  assert (len (zeros (endo - off)) = endo - off) as Hlz by (rewrite len_zeros; lia).
  assert (off / cs <= (endo - 1) / cs) as Hle by (apply Z.div_le_mono; lia).
  assert (0 <= off / cs) as H0 by (apply Z.div_pos; lia).
  assert (forall i, 0 <= i < endo - off ->
            byte_at (zeros (endo - off)) i =
            if (off + i) / cs <? off / cs
            then window (contents (e_db s)) cs ino off i else 0) as Hz.
  { intros i Hi. rewrite byte_at_zeros.
    destruct (Z.ltb_spec ((off + i) / cs) (off / cs)); [|done].
    pose proof (Z.div_le_mono off (off + i) cs). lia. }
  assert (forall i, 0 <= i < endo - off ->
            window (contents (e_db s)) cs ino off i =
            content (contents (e_db s)) cs ino size (off + i)) as Hw.
  { intros i Hi. unfold content. destruct (Z.leb_spec 0 (off + i)), (Z.ltb_spec (off + i) size);
      simpl; lia || done. }
  destruct (Z.eqb_spec (off / cs) ((endo - 1) / cs)) as [E|E].
  - unfold lift_db, st_map_err, st_bind. rewrite get_quiet by done. cbn [map_err st_ret].
    destruct (copy_chunk_window (contents (e_db s)) cs ino off _ (off / cs) _
                Hcs Hoff H0 Hfit Hlz Hz) as [Hl Hb].
    eexists. split; [done|]. rewrite Hl. split; [lia|]. intros i Hi. rewrite Hb by done.
    destruct (Z.ltb_spec ((off + i) / cs) (off / cs + 1)); [by apply Hw|].
    pose proof (Z.div_le_mono (off + i) (endo - 1) cs). lia.
  - unfold lift_db at 1, st_map_err, st_bind. rewrite snapshot_quiet by done. cbn [map_err].
    unfold range_incl.
    destruct (read_chunks_quiet (e_db s) cs ino off (off / cs)
                (Z.to_nat ((endo - 1) / cs - off / cs + 1)) _ _ s
                Hq Hcs Hoff H0 Hfit Hlz Hz) as (out & Hr & Hl & Hb).
    rewrite Z2Nat.id in Hr, Hb by lia.
    exists out. split; [done|]. split; [lia|]. intros i Hi. rewrite Hb by lia.
    destruct (Z.ltb_spec ((off + i) / cs) (off / cs + ((endo - 1) / cs - off / cs + 1)));
      [apply Hw; lia|].
    pose proof (Z.div_le_mono (off + i) (endo - 1) cs). lia.
Qed.
End data_thms.

(** ** Writing *)

(** The chunk puts of a write plan, applied. *)
Definition put_chunks (ino : u64) (puts : list (u32 * bytes)) (m : gmap Key Value) :
    gmap Key Value :=
  fold_left (fun m p => <[KChunk ino p.1 := VBytes p.2]> m) puts m.

Lemma put_chunks_lookup_ne ino puts m k :
  (forall idx, k = KChunk ino idx -> idx ∉ puts.*1) -> put_chunks ino puts m !! k = m !! k.
Proof.
  unfold put_chunks. revert m. induction puts as [|[idx b] puts IH]; intros m Hk; [done|].
  simpl. rewrite IH.
  - apply lookup_insert_ne. intros <-. apply (Hk idx eq_refl). by left.
  - intros idx' ->. specialize (Hk idx' eq_refl). simpl in Hk. set_solver.
Qed.

Lemma put_chunks_lookup ino puts m idx b :
  NoDup puts.*1 -> (idx, b) ∈ puts -> put_chunks ino puts m !! KChunk ino idx = Some (VBytes b).
Proof.
  revert m. induction puts as [|[idx' b'] puts IH]; intros m Hnd Hin; [set_solver|].
  simpl in Hnd. apply NoDup_cons in Hnd as [Hni Hnd].
  apply elem_of_cons in Hin as [[= <- <-]|Hin]; simpl.
  - unfold put_chunks. simpl. fold (put_chunks ino puts (<[KChunk ino idx := VBytes b]> m)).
    rewrite put_chunks_lookup_ne; [apply lookup_insert_eq|]. by intros ? [= <-].
  - by apply (IH (<[KChunk ino idx' := VBytes b']> m)).
Qed.

Lemma put_chunks_msum f ino puts m :
  NoDup puts.*1 ->
  msum f (put_chunks ino puts m) =
    msum f m + foldr (fun p acc => f (KChunk ino p.1) (VBytes p.2)
                        - from_option (f (KChunk ino p.1)) 0 (m !! KChunk ino p.1) + acc) 0 puts.
Proof.
  revert m. induction puts as [|[idx b] puts IH]; intros m Hnd; simpl; [unfold put_chunks; simpl; lia|].
  simpl in Hnd. apply NoDup_cons in Hnd as [Hni Hnd].
  unfold put_chunks. simpl. fold (put_chunks ino puts (<[KChunk ino idx := VBytes b]> m)).
  rewrite IH, msum_insert by done.
  enough (foldr (fun p acc => f (KChunk ino p.1) (VBytes p.2) -
            from_option (f (KChunk ino p.1)) 0 (<[KChunk ino idx:=VBytes b]> m !! KChunk ino p.1) + acc) 0 puts
          = foldr (fun p acc => f (KChunk ino p.1) (VBytes p.2) -
            from_option (f (KChunk ino p.1)) 0 (m !! KChunk ino p.1) + acc) 0 puts) by lia.
  clear IH Hnd. induction puts as [|[idx' b'] puts IH]; simpl; [done|].
  rewrite IH by set_solver. rewrite lookup_insert_ne by (intros [= ->]; set_solver). done.
Qed.

(** What the loop body of [plan_write] computes for one chunk. *)
Lemma write_chunk_spec cs old_size off data idx (o : option bytes) :
  0 < cs -> 0 <= off -> 0 <= idx -> 0 <= old_size -> 0 < len data ->
  off / cs <= idx <= (off + len data - 1) / cs ->
  len (default [] o) <= cs -> idx * cs + len (default [] o) <= old_size \/ default [] o = [] ->
  let new_size := Z.max old_size (off + len data) in
  let '(buf, delta) := write_chunk cs old_size new_size off data idx o in
  len buf <= cs /\ idx * cs + len buf <= new_size /\
  delta = len buf - len (default [] o) /\
  forall j, 0 <= j ->
    byte_at buf j = if (off <=? idx * cs + j) && (idx * cs + j <? off + len data) && (j <? cs)
                    then byte_at data (idx * cs + j - off) else byte_at (default [] o) j.
Proof.
  intros Hcs Hoff Hidx Hold Hd Hrange Hlen Htrim. cbn zeta. unfold write_chunk.
  set (b0 := default [] o) in *.
  assert (off < idx * cs + cs) as H1 by (pose proof (div_bounds cs off Hcs); nia).
  assert (idx * cs <= off + len data - 1) as H2
    by (pose proof (div_bounds cs (off + len data - 1) Hcs); nia).
  pose proof (len_nonneg b0).
  set (needed := Z.min (off + len data) (idx * cs + cs) - idx * cs).
  assert (needed = Z.min (off + len data) (idx * cs + cs) - idx * cs) as Hn by done.
  set (b1 := if len b0 <? needed then resize b0 needed else b0).
  assert (len b1 = Z.max (len b0) needed) as Hl1.
  { unfold b1. destruct (Z.ltb_spec (len b0) needed); rewrite ?len_resize; lia. }
  assert (forall j, byte_at b1 j = byte_at b0 j) as Hb1.
  { intros j. unfold b1. destruct (_ <? _); [apply byte_at_resize|done]. }
  clearbody needed b1.
  set (src := slice data _ _).
  assert (len src = Z.min (off + len data) (idx * cs + cs) - Z.max off (idx * cs)) as Hls.
  { unfold src. rewrite len_slice; lia. }
  assert (len (splice b1 (Z.max off (idx * cs) - idx * cs) src) = len b1) as Hlb.
  { apply len_splice; lia. }
  assert (len b1 <= Z.max old_size (off + len data) - idx * cs) as Hb1n.
  { destruct Htrim as [?|Hnil]; [lia|]. rewrite Hnil, len_nil in *. lia. }
  assert (match o with Some b => len b | None => 0 end = len b0) as Hol by (by destruct o).
  assert (len b0 <= Z.max 0 (old_size - idx * cs)) as Hb0.
  { destruct Htrim as [?|Hnil]; [lia|]. rewrite Hnil, len_nil. lia. }
  repeat split; [lia|lia|..].
  - rewrite Hlb, Hol. unfold billed_chunk_bytes, saturating_sub.
    destruct o as [b|]; simpl; [lia|]. rewrite <- Hol. lia.
  - intros j Hj. rewrite byte_at_splice, Hls, Hb1 by lia.
    destruct (Z.leb_spec off (idx * cs + j)), (Z.ltb_spec (idx * cs + j) (off + len data)),
      (Z.ltb_spec j cs), (Z.leb_spec (Z.max off (idx * cs) - idx * cs) j);
      simpl; try lia; try done;
    destruct (Z.ltb_spec j (Z.max off (idx * cs) - idx * cs +
         (Z.min (off + len data) (idx * cs + cs) - Z.max off (idx * cs)))); try lia; try done.
    unfold src. rewrite byte_at_slice by lia.
    match goal with |- context [?a <? ?b] => destruct (Z.ltb_spec a b) end; [|lia].
    f_equal. lia.
Qed.

(** The chunk a write starts from: none when it lies at or beyond the old end
    of file. *)
Definition seen (m : gmap Key Value) (cs ino old_size idx : Z) : option bytes :=
  if old_size <=? idx * cs then None else value_bytes <$> m !! KChunk ino idx.

Lemma seen_chunk_at m cs ino old_size idx :
  chunks_trimmed m cs ino old_size -> default [] (seen m cs ino old_size idx) = chunk_at m ino idx.
Proof.
  intros Ht. unfold seen, chunk_at. destruct (Z.leb_spec old_size (idx * cs)).
  - destruct (m !! KChunk ino idx) as [v|] eqn:Hv; [|done]. simpl. specialize (Ht idx v Hv).
    symmetry. apply len_0_nil. pose proof (len_nonneg (value_bytes v)). lia.
  - by destruct (m !! KChunk ino idx).
Qed.

Lemma chunk_at_trimmed m cs ino size idx :
  chunks_trimmed m cs ino size ->
  idx * cs + len (chunk_at m ino idx) <= size \/ chunk_at m ino idx = [].
Proof.
  intros Ht. unfold chunk_at. destruct (m !! KChunk ino idx) as [v|] eqn:Hv; [|by right].
  left. by apply Ht.
Qed.

(** Under the invariant the accounting rule bills exactly the stored bytes,
    whatever the size the file has grown to. *)
Lemma billed_trimmed m cs ino size size' :
  chunks_trimmed m cs ino size -> size <= size' -> billed m cs ino size = billed m cs ino size'.
Proof.
  intros Ht Hle. apply msum_ext. intros k v Hk. destruct k; try done. simpl.
  destruct (Z.eqb_spec ino0 ino) as [->|]; [|done]. specialize (Ht _ _ Hk).
  unfold billed_chunk_bytes, saturating_sub. lia.
Qed.

Lemma billed_nonneg m cs ino size : 0 <= billed m cs ino size.
Proof.
  apply msum_nonneg. intros k v _. destruct k; simpl; try lia. destruct (_ =? _); [|lia].
  unfold billed_chunk_bytes, saturating_sub. pose proof (len_nonneg (value_bytes v)). lia.
Qed.

Section write_thms.
Context {DB : SlateDB}.
Implicit Types (s : Engine).

Lemma write_chunks_quiet cs ino old_size new_size off data idxs puts delta s :
  e_faults s = [] ->
  let wc idx := write_chunk cs old_size new_size off data idx
                  (seen (contents (e_db s)) cs ino old_size idx) in
  write_chunks cs ino old_size new_size off data idxs puts delta s =
    (Ok (puts ++ map (fun idx => (idx, (wc idx).1)) idxs,
         delta + foldr (fun idx acc => (wc idx).2 + acc) 0 idxs), s).
Proof.
  intros Hq wc. revert puts delta. induction idxs as [|idx idxs IH]; intros puts delta; simpl.
  - rewrite app_nil_r, Z.add_0_r. done.
  - assert ((if old_size <=? idx * cs then st_ret None else lift_db (get (KChunk ino idx))) s =
            (Ok (if old_size <=? idx * cs then None
                 else contents (e_db s) !! KChunk ino idx), s)) as Hg.
    { destruct (old_size <=? idx * cs); [done|].
      unfold lift_db, st_map_err. by rewrite get_quiet. }
    erewrite st_bind_ok by exact Hg.
    assert (value_bytes <$> (if old_size <=? idx * cs then None
                 else contents (e_db s) !! KChunk ino idx) =
            seen (contents (e_db s)) cs ino old_size idx) as ->.
    { unfold seen. by destruct (_ <=? _). }
    fold (wc idx). destruct (wc idx) as [buf d] eqn:Hw.
    rewrite IH. f_equal. f_equal. f_equal; [|simpl; lia]. by rewrite <- app_assoc.
Qed.

(** The result of planning a write: it always exists, and applying its puts
    updates the abstract file and the bill. *)
Record write_planned (m : gmap Key Value) (cs ino old_size off : Z) (data : bytes)
    (plan : WritePlan) : Prop := {
  wpl_size : wp_new_size plan = Z.max old_size (off + len data);
  wpl_fit : chunks_fit (put_chunks ino (wp_puts plan) m) cs ino;
  wpl_trimmed : chunks_trimmed (put_chunks ino (wp_puts plan) m) cs ino (wp_new_size plan);
  wpl_content x :
    content (put_chunks ino (wp_puts plan) m) cs ino (wp_new_size plan) x =
      if (off <=? x) && (x <? off + len data) then byte_at data (x - off)
      else content m cs ino old_size x;
  wpl_billed :
    billed (put_chunks ino (wp_puts plan) m) cs ino (wp_new_size plan) =
      billed m cs ino old_size + wp_billed_delta plan;
  wpl_frame k :
    (forall idx, k <> KChunk ino idx) -> put_chunks ino (wp_puts plan) m !! k = m !! k;
  wpl_idx p : p ∈ wp_puts plan -> is_u32 p.1;
  wpl_below p : p ∈ wp_puts plan -> p.1 * cs < off + len data
}.
End write_thms.

Section write_pure.
Context (m : gmap Key Value) (cs ino old_size off : Z) (data : bytes).
Hypothesis (Hcs : 0 < cs) (Hoff : 0 <= off) (Hold : 0 <= old_size) (Hdata : 0 < len data)
  (Hmax : off + len data <= max_size cs)
  (Hfit : chunks_fit m cs ino) (Htrim : chunks_trimmed m cs ino old_size).

Let new_size : Z := Z.max old_size (off + len data).
Let wc (idx : Z) : bytes * Z :=
  write_chunk cs old_size new_size off data idx (seen m cs ino old_size idx).
Let idxs : list Z := range_incl (off / cs) ((off + len data - 1) / cs).
Let puts : list (Z * bytes) := map (fun idx => (idx, (wc idx).1)) idxs.
Let m' : gmap Key Value := put_chunks ino puts m.

Lemma elem_idxs idx : idx ∈ idxs <-> off / cs <= idx <= (off + len data - 1) / cs.
Proof. unfold idxs, range_incl. rewrite elem_of_seqZ. lia. Qed.

Lemma puts_fst : (puts.*1) = idxs.
Proof. unfold puts. rewrite <- list_fmap_compose. apply list_fmap_id. Qed.

Lemma puts_nodup : NoDup (puts.*1).
Proof. rewrite puts_fst. apply NoDup_seqZ. Qed.

Lemma wc_spec idx :
  idx ∈ idxs ->
  len (wc idx).1 <= cs /\ idx * cs + len (wc idx).1 <= new_size /\
  (wc idx).2 = len (wc idx).1 - len (chunk_at m ino idx) /\
  forall j, 0 <= j ->
    byte_at (wc idx).1 j =
      if (off <=? idx * cs + j) && (idx * cs + j <? off + len data) && (j <? cs)
      then byte_at data (idx * cs + j - off) else byte_at (chunk_at m ino idx) j.
Proof.
  intros Hin%elem_idxs. assert (0 <= off / cs) by (apply Z.div_pos; lia).
  pose proof (write_chunk_spec cs old_size off data idx (seen m cs ino old_size idx)) as Hw.
  cbn zeta in Hw. fold new_size in Hw. fold (wc idx) in Hw.
  rewrite (seen_chunk_at m cs ino old_size idx Htrim) in Hw.
  destruct (wc idx) as [buf d]. simpl. apply Hw; try lia.
  - by apply chunk_at_len.
  - by apply chunk_at_trimmed.
Qed.

Lemma chunk_at_put idx :
  chunk_at m' ino idx = if decide (idx ∈ idxs) then (wc idx).1 else chunk_at m ino idx.
Proof.
  unfold chunk_at, m'. case_decide as Hin.
  - erewrite put_chunks_lookup; [done|apply puts_nodup|].
    unfold puts. apply list_elem_of_fmap. eauto.
  - rewrite put_chunks_lookup_ne; [done|]. intros idx' [= <-]. by rewrite puts_fst.
Qed.

Lemma put_lookup_cases idx v :
  m' !! KChunk ino idx = Some v ->
  (idx ∈ idxs /\ (wc idx).1 = value_bytes v) \/
  (~ idx ∈ idxs /\ m !! KChunk ino idx = Some v).
Proof.
  intros Hv. pose proof (chunk_at_put idx) as Hc. unfold chunk_at in Hc. rewrite Hv in Hc.
  case_decide as Hin; [by left|]. right. split; [done|].
  unfold m' in Hv. rewrite put_chunks_lookup_ne in Hv; [done|].
  intros idx' [= <-]. by rewrite puts_fst.
Qed.

Lemma idxs_u32 idx : idx ∈ idxs -> is_u32 idx.
Proof.
  intros Hin%elem_idxs. assert (0 <= off / cs) by (apply Z.div_pos; lia).
  assert ((off + len data - 1) / cs < 2 ^ 32)
    by (apply Z.div_lt_upper_bound; unfold max_size in Hmax; lia).
  unfold is_u32. lia.
Qed.

Lemma idxs_below idx : idx ∈ idxs -> idx * cs < off + len data.
Proof.
  intros Hin%elem_idxs. pose proof (Z.div_mod (off + len data - 1) cs ltac:(lia)). pose proof (Z.mod_pos_bound (off + len data - 1) cs Hcs).
  nia.
Qed.

Lemma put_fit : chunks_fit m' cs ino.
Proof.
  intros idx v [[Hin <-]|[_ Hv]]%put_lookup_cases; [|eauto].
  split; [by apply idxs_u32|by apply wc_spec].
Qed.

Lemma put_trimmed : chunks_trimmed m' cs ino new_size.
Proof.
  intros idx v [[Hin <-]|[_ Hv]]%put_lookup_cases; [by apply wc_spec|].
  specialize (Htrim _ _ Hv). unfold new_size. lia.
Qed.

Lemma put_content x :
  content m' cs ino new_size x =
    if (off <=? x) && (x <? off + len data) then byte_at data (x - off)
    else content m cs ino old_size x.
Proof.
  unfold content. rewrite chunk_at_put. pose proof (div_bounds cs x Hcs) as Hx.
  destruct (Z.leb_spec 0 x) as [H0|H0]; simpl.
  2: { destruct (Z.leb_spec off x); [lia|done]. }
  case_decide as Hin.
  - destruct (wc_spec _ Hin) as (_ & _ & _ & Hb). rewrite Hb by (apply Z.mod_pos_bound; lia).
    replace (x / cs * cs + x mod cs) with x by (pose proof (Z.div_mod x cs); lia).
    destruct (Z.ltb_spec (x mod cs) cs); [|pose proof (Z.mod_pos_bound x cs); lia].
    rewrite andb_true_r.
    destruct (Z.leb_spec off x), (Z.ltb_spec x (off + len data)); simpl;
      destruct (Z.ltb_spec x new_size), (Z.ltb_spec x old_size); unfold new_size in *;
      try done; try lia.
    all: apply byte_at_ge; destruct (chunk_at_trimmed m cs ino old_size (x / cs) Htrim) as [Ht|Ht];
      [pose proof (Z.div_mod x cs); lia|rewrite Ht, len_nil; apply Z.mod_pos_bound; lia].
  - assert (~ (off <= x < off + len data)) as Hout.
    { intros Hr. apply Hin, elem_idxs. split; apply Z.div_le_mono; lia. }
    destruct (Z.leb_spec off x), (Z.ltb_spec x (off + len data)); simpl; try lia;
      destruct (Z.ltb_spec x new_size), (Z.ltb_spec x old_size); unfold new_size in *;
      try done; try lia.
    all: apply byte_at_ge; destruct (chunk_at_trimmed m cs ino old_size (x / cs) Htrim) as [Ht|Ht];
      [pose proof (Z.div_mod x cs); lia|rewrite Ht, len_nil; apply Z.mod_pos_bound; lia].
Qed.

Lemma put_billed :
  billed m' cs ino new_size =
    billed m cs ino old_size + foldr (fun idx acc => (wc idx).2 + acc) 0 idxs.
Proof.
  rewrite (billed_trimmed m cs ino old_size new_size) by (done || unfold new_size; lia).
  unfold billed, m'. rewrite put_chunks_msum by apply puts_nodup. f_equal.
  assert (forall idx, idx ∈ idxs -> idx ∈ idxs) as Hsub by done. revert Hsub.
  unfold puts. generalize idxs at 1 3 4. intros l Hl. induction l as [|idx l IH]; [done|].
  cbn [map foldr fst snd]. rewrite IH by set_solver. f_equal. cbn [billed_chunk value_bytes].
  destruct (wc_spec idx) as (Hle & Htr & -> & _); [apply Hl; by left|].
  pose proof (len_nonneg ((wc idx).1)). revert Hle Htr H. generalize ((wc idx).1). intros buf ???.
  rewrite Z.eqb_refl. unfold chunk_at. unfold billed_chunk_bytes, saturating_sub.
  destruct (m !! KChunk ino idx) as [v|] eqn:Hv; cbn [from_option billed_chunk].
  - specialize (Htrim _ _ Hv). pose proof (len_nonneg (value_bytes v)).
    rewrite (Z.eqb_refl ino). unfold billed_chunk_bytes, saturating_sub, new_size in *. lia.
  - pose proof (@len_nil Z). lia.
Qed.
End write_pure.

Section write_plan.
Context {DB : SlateDB}.

(** Planning a write always succeeds on a healthy engine, and the plan
    updates the abstract file and the bill. *)
Lemma plan_write_quiet cs ino old_size off data (s : Engine) :
  let m := contents (e_db s) in
  e_faults s = [] -> 0 < cs -> 0 <= off -> 0 <= old_size -> data <> [] ->
  off + len data <= max_size cs ->
  chunks_fit m cs ino -> chunks_trimmed m cs ino old_size ->
  exists plan, plan_write cs ino old_size off data s = (Ok plan, s) /\
               write_planned m cs ino old_size off data plan.
Proof.
  intros m Hq Hcs Hoff Hold Hne Hmax Hfit Htrim.
  assert (0 < len data) as Hd.
  { pose proof (len_nonneg data). pose proof (len_0_nil data). destruct (Z.eqb_spec (len data) 0);
      [naive_solver|lia]. }
  unfold plan_write. rewrite !chunk_of_small by lia.
  erewrite st_bind_ok by (by apply write_chunks_quiet).
  eexists. split; [done|]. rewrite Z.add_0_l. simpl.
  split; simpl.
  - done.
  - by apply put_fit.
  - by apply put_trimmed.
  - intros x. by apply put_content.
  - by apply put_billed.
  - intros k Hk. apply put_chunks_lookup_ne. intros idx ->. by destruct (Hk idx).
  - intros p (idx & -> & Hidx)%list_elem_of_fmap. change (is_u32 idx). by eapply (idxs_u32 cs old_size off data).
  - intros p (idx & -> & Hidx)%list_elem_of_fmap. change (idx * cs < off + len data). by eapply (idxs_below cs).
Qed.
End write_plan.

(** ** Truncating *)

(** Every record of the store has a key the Rust types allow. *)
Definition keys_ok (m : gmap Key Value) : Prop := forall k v, m !! k = Some v -> key_ok k.

(** The batch of a truncate plan, applied: the trimmed tail, then the deletes
    (the source issues the long tail of deletes in follow-up batches). *)
Definition delete_chunks (ino : u64) (idxs : list u32) (m : gmap Key Value) : gmap Key Value :=
  fold_left (fun m idx => delete (KChunk ino idx) m) idxs m.
Definition put_tail (ino : u64) (tail : option (u32 * bytes)) (m : gmap Key Value) :
    gmap Key Value :=
  match tail with Some (idx, b) => <[KChunk ino idx := VBytes b]> m | None => m end.
Definition truncate_chunks (ino : u64) (plan : TruncatePlan) (m : gmap Key Value) :
    gmap Key Value :=
  delete_chunks ino (tp_deletes plan) (put_tail ino (tp_tail_put plan) m).

Definition chunk_in (ino : u64) (idxs : list u32) (k : Key) : bool :=
  match k with KChunk i idx => bool_decide (i = ino /\ idx ∈ idxs) | _ => false end.

Lemma delete_chunks_lookup ino idxs m k :
  delete_chunks ino idxs m !! k = if chunk_in ino idxs k then None else m !! k.
Proof.
  unfold delete_chunks. revert m. induction idxs as [|i idxs IH]; intros m; simpl.
  - by destruct k; simpl; rewrite ?bool_decide_eq_false_2 by set_solver.
  - rewrite IH. destruct k; simpl; try (by rewrite lookup_delete_ne).
    repeat case_bool_decide; try done; [set_solver| |].
    + replace ino0 with ino by naive_solver. replace idx with i by set_solver.
      apply lookup_delete_eq.
    + rewrite lookup_delete_ne; [done|]. intros [= -> ->]. set_solver.
Qed.

(** What truncating does to one record. *)
Definition truncate_value (cs ino new_size : Z) (k : Key) (v : Value) : option Value :=
  match k with
  | KChunk i idx =>
      if i =? ino then
        if new_size <=? idx * cs then None
        else if new_size - idx * cs <? len (value_bytes v)
             then Some (VBytes (take (Z.to_nat (new_size - idx * cs)) (value_bytes v)))
             else Some v
      else Some v
  | _ => Some v
  end.

Section truncate_pure.
Context (cs ino old_size new_size : Z).
Hypothesis (Hcs : 0 < cs) (Hnew : 0 <= new_size < old_size) (Hmax : new_size < max_size cs).

(** Entries of the scan, as (index, value). *)
Let del (kv : Key * Value) : option Z :=
  match kv.1 with
  | KChunk _ idx => if new_size <=? idx * cs then Some idx else None
  | _ => None
  end.
Let tail (kv : Key * Value) : option (Z * bytes) :=
  match kv.1 with
  | KChunk _ idx =>
      if (negb (new_size <=? idx * cs)) && (new_size - idx * cs <? len (value_bytes kv.2))
      then Some (idx, take (Z.to_nat (new_size - idx * cs)) (value_bytes kv.2)) else None
  | _ => None
  end.
Let dbill (kv : Key * Value) : Z :=
  from_option (fun v => len (value_bytes v)) 0 (truncate_value cs ino new_size kv.1 kv.2) -
  billed_chunk cs ino old_size kv.1 kv.2.

Lemma truncate_step_chunk p idx v :
  is_u64 ino -> is_u32 idx ->
  truncate_step cs old_size new_size p (KChunk ino idx, v) =
  inr {| tp_tail_put := match tail (KChunk ino idx, v) with Some t => Some t | None => tp_tail_put p end;
         tp_deletes := tp_deletes p ++ option_list (del (KChunk ino idx, v));
         tp_billed_delta := tp_billed_delta p + dbill (KChunk ino idx, v) |}.
Proof.
  intros Hino Hidx. unfold truncate_step. simpl fst. rewrite parse_chunk_ok by done.
  unfold tail, del, dbill, truncate_value, billed_chunk. simpl. rewrite !Z.eqb_refl.
  destruct (new_size <=? idx * cs); simpl.
  - do 2 f_equal; lia.
  - destruct (Z.ltb_spec (new_size - idx * cs) (len (value_bytes v))); simpl;
      rewrite ?app_nil_r; f_equal; f_equal; lia.
Qed.
Let tails (l : list (Key * Value)) (t : option (Z * bytes)) : option (Z * bytes) :=
  fold_left (fun t kv => match tail kv with Some t' => Some t' | None => t end) l t.

Lemma truncate_loop_quiet {DB : SlateDB} l p (s : Engine) :
  e_faults s = [] -> is_u64 ino ->
  (forall k v, (k, v) ∈ l -> exists idx, k = KChunk ino idx /\ is_u32 idx) ->
  iter_loop (truncate_step cs old_size new_size) p l s =
    (Ok {| tp_tail_put := tails l (tp_tail_put p); tp_deletes := tp_deletes p ++ omap del l;
           tp_billed_delta := tp_billed_delta p + foldr (fun kv acc => dbill kv + acc) 0 l |}, s).
Proof.
  intros Hq Hino. revert p. induction l as [|[k v] l IH]; intros p Hl; cbn [iter_loop];
    unfold st_bind; rewrite poll_quiet by done.
  - simpl. rewrite app_nil_r, Z.add_0_r. by destruct p.
  - destruct (Hl k v) as (idx & -> & Hidx); [by left|]. rewrite truncate_step_chunk by done.
    rewrite IH by (intros k' v' ?; apply (Hl k' v'); by right). unfold tails. simpl.
    rewrite <- app_assoc. f_equal. f_equal. f_equal.
    + f_equal. by destruct (del (KChunk ino idx, v)).
    + lia.
Qed.

Lemma tails_none l t : (forall kv, kv ∈ l -> tail kv = None) -> tails l t = t.
Proof.
  unfold tails. revert t. induction l as [|kv l IH]; intros t Hn; [done|]. simpl.
  rewrite (Hn kv) by (by left). apply IH. intros. apply Hn. by right.
Qed.

Lemma tails_unique l t kv0 x :
  kv0 ∈ l -> tail kv0 = Some x -> (forall kv y, kv ∈ l -> tail kv = Some y -> y = x) ->
  tails l t = Some x.
Proof.
  unfold tails. intros Hin Hx Hu. revert t.
  assert (forall t, (exists kv, kv ∈ l /\ tail kv = Some x) \/ t = Some x ->
    fold_left (fun t kv => match tail kv with Some t' => Some t' | None => t end) l t = Some x)
    as Hgen; [|eauto].
  clear Hin Hx kv0. induction l as [|kv l IH]; intros t [(kv0 & Hin & Hx)|Ht]; simpl.
  - by apply not_elem_of_nil in Hin.
  - done.
  - apply IH; [intros; eapply Hu; [by right|done]|].
    apply elem_of_cons in Hin as [<-|Hin]; [rewrite Hx; by right|left; eauto].
  - apply IH; [intros; eapply Hu; [by right|done]|]. right.
    destruct (tail kv) as [y|] eqn:Hy; [|done]. f_equal. eapply Hu; [by left|done].
Qed.

Context (m : gmap Key Value) (l : list (Key * Value)).
Hypothesis (Hfit : chunks_fit m cs ino) (Htrim : chunks_trimmed m cs ino old_size)
  (Hl : forall k v, (k, v) ∈ l <-> m !! k = Some v /\ exists idx, k = KChunk ino idx /\ new_size / cs <= idx)
  (Hnd : NoDup (l.*1)).

Let plan : TruncatePlan :=
  {| tp_tail_put := tails l None; tp_deletes := omap del l;
     tp_billed_delta := foldr (fun kv acc => dbill kv + acc) 0 l |}.

Lemma elem_deletes idx :
  idx ∈ omap del l <-> new_size <= idx * cs /\ is_Some (m !! KChunk ino idx).
Proof.
  rewrite list_elem_of_omap. split.
  - intros ([k v] & Hin & Hd). apply Hl in Hin as (Hk & i & -> & _). unfold del in Hd. simpl in Hd.
    destruct (Z.leb_spec new_size (i * cs)); simplify_eq. eauto.
  - intros (Hle & v & Hv). exists (KChunk ino idx, v). split.
    + apply Hl. split; [done|]. exists idx. split; [done|].
      apply Z.lt_succ_r, Z.div_lt_upper_bound; lia.
    + unfold del. simpl. destruct (Z.leb_spec new_size (idx * cs)); [done|lia].
Qed.

Lemma deletes_nodup : NoDup (omap del l).
Proof.
  assert (forall k v, (k, v) ∈ l -> exists idx, k = KChunk ino idx) as Hk.
  { intros k v Hin. apply Hl in Hin as (_ & idx & -> & _). eauto. }
  clear Hl. revert Hnd Hk. induction l as [|[k v] l' IH]; intros Hnd' Hk; [constructor|].
  simpl in Hnd'. apply NoDup_cons in Hnd' as [Hni Hnd'].
  assert (NoDup (omap del l')) as IH' by (apply IH; [done|]; intros; eapply Hk; by right).
  simpl. destruct (del (k, v)) as [idx|] eqn:Hd; [|done]. constructor; [|done].
  destruct (Hk k v) as [i ->]; [by left|]. unfold del in Hd. simpl in Hd. case_match; simplify_eq.
  intros ([k' v'] & Hin & Hd')%list_elem_of_omap. destruct (Hk k' v') as [j ->]; [by right|].
  unfold del in Hd'. simpl in Hd'. case_match; simplify_eq. apply Hni, list_elem_of_fmap. by exists (KChunk ino idx, v').
Qed.

(** Only the chunk that the new size splits can be the trimmed tail. *)
Lemma tail_key k v y :
  (k, v) ∈ l -> tail (k, v) = Some y ->
  k = KChunk ino (new_size / cs) /\ m !! KChunk ino (new_size / cs) = Some v.
Proof.
  intros Hin Ht. apply Hl in Hin as (Hv & idx & -> & Hge). unfold tail in Ht.
  simpl in Ht. destruct (Z.leb_spec new_size (idx * cs)); [done|].
  assert (idx = new_size / cs) as -> by (pose proof (div_bounds cs new_size Hcs); nia). done.
Qed.

Lemma tail_put_spec :
  tails l None =
    match m !! KChunk ino (new_size / cs) with
    | Some v => tail (KChunk ino (new_size / cs), v)
    | None => None
    end.
Proof.
  destruct (m !! KChunk ino (new_size / cs)) as [v|] eqn:Hv.
  - assert ((KChunk ino (new_size / cs), v) ∈ l) as Hin by (apply Hl; eauto with lia).
    destruct (tail (KChunk ino (new_size / cs), v)) as [x|] eqn:Ht.
    + eapply tails_unique; [done|done|]. intros [k' v'] y Hin' Ht'.
      destruct (tail_key _ _ _ Hin' Ht') as [-> ?]. congruence.
    + apply tails_none. intros [k' v'] Hin'. destruct (tail (k', v')) eqn:Ht'; [|done].
      destruct (tail_key _ _ _ Hin' Ht') as [-> ?]. congruence.
  - apply tails_none. intros [k' v'] Hin'. destruct (tail (k', v')) eqn:Ht'; [|done].
    destruct (tail_key _ _ _ Hin' Ht') as [-> ?]. congruence.
Qed.

(** Applying the plan truncates every chunk of the file and nothing else. *)
Lemma truncate_chunks_imap :
  truncate_chunks ino plan m = map_imap (truncate_value cs ino new_size) m.
Proof.
  apply map_eq. intros k. rewrite map_lookup_imap. unfold truncate_chunks.
  rewrite delete_chunks_lookup. unfold plan. simpl tp_deletes. simpl tp_tail_put.
  rewrite tail_put_spec. pose proof (div_bounds cs new_size Hcs) as Hb.
  assert (forall k', (forall idx, k' <> KChunk ino idx) ->
    put_tail ino match m !! KChunk ino (new_size / cs) with
                 | Some v => tail (KChunk ino (new_size / cs), v) | None => None end m !! k'
    = m !! k') as Hother.
  { intros k' Hk'. unfold put_tail. repeat case_match; try done. apply lookup_insert_ne. naive_solver. }
  destruct k as [| | | |i idx| | | | | |]; simpl chunk_in; cbn iota;
    try (rewrite Hother by (intros; discriminate);
         match goal with |- m !! ?k = _ => by destruct (m !! k) end).
  destruct (decide (i = ino)) as [->|Hne].
  2: { rewrite bool_decide_eq_false_2 by naive_solver. rewrite Hother by naive_solver.
       destruct (m !! KChunk i idx); [|done]. simpl. by destruct (Z.eqb_spec i ino). }
  case_bool_decide as Hdel.
  - destruct Hdel as [_ Hdel]. apply elem_deletes in Hdel as [Hle [v Hv]]. rewrite Hv. simpl.
    rewrite Z.eqb_refl. by destruct (Z.leb_spec new_size (idx * cs)); [|lia].
  - destruct (decide (idx = new_size / cs)) as [->|Hidx].
    + destruct (m !! KChunk ino (new_size / cs)) as [v|] eqn:Hv; simpl; [|done].
      assert (~ new_size <= new_size / cs * cs) as Hlt.
      { intros Hle. apply Hdel. split; [done|]. by apply elem_deletes. }
      unfold tail. simpl. rewrite Z.eqb_refl.
      destruct (Z.leb_spec new_size (new_size / cs * cs)); [lia|]. simpl.
      destruct (_ <? _); simpl; [apply lookup_insert_eq|done].
    + assert (forall t, (forall i b, t = Some (i, b) -> i = new_size / cs) ->
                put_tail ino t m !! KChunk ino idx = m !! KChunk ino idx) as ->.
      { intros [[i b]|] Ht; simpl; [|done]. apply lookup_insert_ne.
        specialize (Ht i b eq_refl). congruence. }
      { destruct (m !! KChunk ino idx) as [v|] eqn:Hv; simpl; [|done]. rewrite Z.eqb_refl.
        destruct (Hfit _ _ Hv) as [Hu Hlen].
        destruct (Z.leb_spec new_size (idx * cs)).
        { destruct Hdel. split; [done|]. apply elem_deletes. eauto. }
        destruct (Z.ltb_spec (new_size - idx * cs) (len (value_bytes v))); [nia|done]. }
      intros i b. destruct (m !! KChunk ino (new_size / cs)); [|done].
      unfold tail. simpl. by case_match; intros; simplify_eq.
Qed.

Lemma truncated_chunk_at idx :
  chunk_at (map_imap (truncate_value cs ino new_size) m) ino idx =
    take (Z.to_nat (new_size - idx * cs)) (chunk_at m ino idx).
Proof.
  unfold chunk_at. rewrite map_lookup_imap.
  destruct (m !! KChunk ino idx) as [v|]; simpl; [|by rewrite take_nil].
  rewrite Z.eqb_refl. destruct (Z.leb_spec new_size (idx * cs)).
  - by replace (Z.to_nat _) with O by lia.
  - destruct (Z.ltb_spec (new_size - idx * cs) (len (value_bytes v))); [done|].
    rewrite take_ge; [done|]. unfold len in *. lia.
Qed.

Lemma truncated_value_len idx v v' :
  truncate_value cs ino new_size (KChunk ino idx) v = Some v' ->
  len (value_bytes v') <= len (value_bytes v) /\ idx * cs + len (value_bytes v') <= new_size.
Proof.
  simpl. rewrite Z.eqb_refl. destruct (Z.leb_spec new_size (idx * cs)); [done|].
  destruct (Z.ltb_spec (new_size - idx * cs) (len (value_bytes v))); intros [= <-]; [|lia].
  simpl. rewrite len_take. pose proof (len_nonneg (value_bytes v)). lia.
Qed.

Lemma truncated_inv idx v' :
  map_imap (truncate_value cs ino new_size) m !! KChunk ino idx = Some v' ->
  is_u32 idx /\ len (value_bytes v') <= cs /\ idx * cs + len (value_bytes v') <= new_size.
Proof.
  rewrite map_lookup_imap. intros (v & Hv & Ht)%bind_Some.
  destruct (Hfit _ _ Hv). apply truncated_value_len in Ht. split; [done|lia].
Qed.

Lemma truncated_content x :
  content (map_imap (truncate_value cs ino new_size) m) cs ino new_size x =
    if x <? new_size then content m cs ino old_size x else 0.
Proof.
  unfold content. rewrite truncated_chunk_at, byte_at_take.
  pose proof (Z.div_mod x cs). pose proof (Z.mod_pos_bound x cs).
  destruct (Z.leb_spec 0 x), (Z.ltb_spec x new_size), (Z.ltb_spec x old_size); simpl; try lia.
  destruct (Z.ltb_spec (x mod cs) (new_size - x / cs * cs)); [done|lia].
Qed.

Lemma truncated_billed :
  billed (map_imap (truncate_value cs ino new_size) m) cs ino new_size =
    billed m cs ino old_size + tp_billed_delta plan.
Proof.
  set (f k v := match k with KChunk i _ => if i =? ino then dbill (k, v) else 0 | _ => 0 end).
  replace (tp_billed_delta plan) with (msum f m).
  - unfold billed. rewrite msum_imap, <- msum_add. apply msum_ext. intros k v Hk.
    destruct k; simpl; try done. destruct (Z.eqb_spec ino0 ino) as [->|Hne]; simpl.
    2: { destruct (Z.eqb_spec ino0 ino); done. }
    unfold f, dbill. cbn [fst snd billed_chunk]. rewrite !Z.eqb_refl.
    destruct (truncate_value cs ino new_size (KChunk ino idx) v) as [v'|] eqn:Ht;
      revert Ht; simpl; rewrite Z.eqb_refl; intros Ht; rewrite Ht; simpl; [|lia].
    pose proof (len_nonneg (value_bytes v')).
    destruct (truncated_value_len idx v v'); [simpl; by rewrite Z.eqb_refl|].
    rewrite Z.eqb_refl. unfold billed_chunk_bytes, saturating_sub at 1. lia.
  - unfold plan. simpl. rewrite (msum_list f m l Hnd).
    + assert (forall kv, kv ∈ l -> exists idx v, kv = (KChunk ino idx, v)) as Hk.
      { intros [k v] Hin. apply Hl in Hin as (_ & idx & -> & _). eauto. }
      clear - Hk. induction l as [|kv l' IH]; [done|]. simpl.
      rewrite IH by (intros; apply Hk; by right). f_equal.
      destruct (Hk kv) as (idx & v & ->); [by left|]. unfold f. simpl. by rewrite Z.eqb_refl.
    + intros k v Hin. by apply Hl.
    + intros k v Hk Hni. destruct k; try done. simpl. destruct (Z.eqb_spec ino0 ino) as [->|]; [|done].
      assert (idx < new_size / cs) as Hlt.
      { apply Z.lt_nge. intros Hge. apply Hni, Hl. eauto. }
      destruct (Hfit _ _ Hk) as [Hu Hlen]. specialize (Htrim _ _ Hk).
      pose proof (div_bounds cs new_size Hcs).
      unfold dbill. simpl. rewrite !Z.eqb_refl. unfold is_u32 in Hu.
      destruct (Z.leb_spec new_size (idx * cs)); [nia|].
      destruct (Z.ltb_spec (new_size - idx * cs) (len (value_bytes v))); [nia|]. simpl.
      unfold billed_chunk_bytes, saturating_sub. lia.
Qed.
End truncate_pure.

(** The result of planning a truncate. *)
Record truncate_planned (m : gmap Key Value) (cs ino old_size new_size : Z)
    (plan : TruncatePlan) : Prop := {
  tpl_fit : chunks_fit (truncate_chunks ino plan m) cs ino;
  tpl_trimmed : chunks_trimmed (truncate_chunks ino plan m) cs ino new_size;
  tpl_content x :
    content (truncate_chunks ino plan m) cs ino new_size x =
      if x <? new_size then content m cs ino old_size x else 0;
  tpl_billed :
    billed (truncate_chunks ino plan m) cs ino new_size =
      billed m cs ino old_size + tp_billed_delta plan;
  tpl_frame k :
    (forall idx, k <> KChunk ino idx) -> truncate_chunks ino plan m !! k = m !! k;
  tpl_tail idx b : tp_tail_put plan = Some (idx, b) -> is_u32 idx;
  tpl_deletes : NoDup (tp_deletes plan) /\
    forall idx, idx ∈ tp_deletes plan -> new_size <= idx * cs /\ is_Some (m !! KChunk ino idx)
}.

Section truncate_plan.
Context {DB : SlateDB}.

Lemma plan_truncate_quiet cs ino old_size new_size (s : Engine) :
  let m := contents (e_db s) in
  e_faults s = [] -> 0 < cs -> 0 <= ino < U64_MAX -> 0 <= new_size -> 0 <= old_size ->
  old_size <= max_size cs -> keys_ok m ->
  chunks_fit m cs ino -> chunks_trimmed m cs ino old_size ->
  exists plan, plan_truncate cs ino old_size new_size s = (Ok plan, s) /\
               truncate_planned m cs ino old_size new_size plan.
Proof.
  intros m Hq Hcs Hino Hnew Hold Hmax Hkeys Hfit Htrim. unfold plan_truncate.
  destruct (Z.leb_spec old_size new_size) as [Hle|Hlt].
  - eexists. split; [done|].
    set (p0 := {| tp_tail_put := None; tp_deletes := []; tp_billed_delta := 0 |}).
    assert (truncate_chunks ino p0 m = m) as E by done.
    split; rewrite ?E; try done.
    + intros idx v Hv. specialize (Htrim _ _ Hv). lia.
    + intros x. unfold content.
      destruct (Z.leb_spec 0 x), (Z.ltb_spec x new_size), (Z.ltb_spec x old_size); simpl; try lia; try done.
      apply byte_at_ge. pose proof (Z.div_mod x cs). pose proof (Z.mod_pos_bound x cs).
      destruct (chunk_at_trimmed m cs ino old_size (x / cs) Htrim) as [Ht|Ht]; [lia|].
      rewrite Ht, len_nil. lia.
    + simpl. rewrite Z.add_0_r. symmetry. by apply billed_trimmed.
    + split; [constructor|]. by intros idx ?%elem_of_nil.
  - assert (new_size < max_size cs) as Hm by lia.
    rewrite chunk_of_small by lia.
    unfold lift_db at 1, st_map_err at 1. unfold st_bind. rewrite scan_quiet by done. cbn [map_err].
    set (l := db_scan _ _ _).
    assert (is_u32 (new_size / cs)) as Hu32.
    { unfold is_u32. split; [apply Z.div_pos; lia|].
      apply Z.div_lt_upper_bound; unfold max_size in *; lia. }
    assert (forall k v, (k, v) ∈ l <->
      m !! k = Some v /\ exists idx, k = KChunk ino idx /\ new_size / cs <= idx) as Hl.
    { intros k v. unfold l. rewrite db_scan_elem. fold m. split.
      - intros (Hk & H1 & H2). split; [done|].
        apply (in_range_chunks_from ino (new_size / cs)); [by eapply Hkeys|done|done|].
        unfold in_range. by rewrite (H1 _ eq_refl), (H2 _ eq_refl).
      - intros (Hk & Hidx). split; [done|].
        apply (in_range_chunks_from ino (new_size / cs)) in Hidx; [|by eapply Hkeys|done|done].
        unfold in_range in Hidx. apply andb_true_iff in Hidx as [H1 H2].
        split; intros ? [= <-]; done. }
    unfold lift_db, st_map_err.
    rewrite (truncate_loop_quiet cs ino old_size new_size l _ s); [|done|unfold is_u64, U64_MAX in *; lia|].
    2: { intros k v Hin. apply Hl in Hin as (Hk & idx & -> & _). exists idx. split; [done|].
         by eapply Hfit. }
    eexists. split; [done|]. rewrite Z.add_0_l, app_nil_l. cbn [tp_tail_put].
    pose proof (db_scan_nodup (e_db s) (Some (keys.chunk ino (new_size / cs)))
                  (Some (keys.chunk_prefix (ino + 1)))) as Hnd. fold l in Hnd.
    pose proof (truncated_inv cs ino new_size m Hfit) as Hinv.
    split; try rewrite (truncate_chunks_imap cs ino old_size new_size) by done.
    + intros idx v Hv. apply Hinv in Hv as (? & ? & ?). done.
    + intros idx v Hv. by apply Hinv in Hv as (? & ? & ?).
    + intros x. by apply truncated_content.
    + by apply truncated_billed.
    + intros k Hk. rewrite map_lookup_imap. destruct (m !! k); [|done]. destruct k; try done. simpl.
      destruct (Z.eqb_spec ino0 ino) as [->|]; [|done]. by destruct (Hk idx).
    + cbn [tp_tail_put]. rewrite (tail_put_spec cs ino new_size Hcs m l Hl). intros idx b Ht.
      destruct (m !! KChunk ino (new_size / cs)); [|done]. simpl in Ht. case_match; [|done]. by simplify_eq.
    + cbn [tp_deletes]. split; [by eapply (deletes_nodup cs ino)|].
      intros idx Hidx. by apply (elem_deletes cs ino new_size Hcs m l Hl) in Hidx.
Qed.
End truncate_plan.
