(* ===== verification/Quota.v ===== *)
(** Quota accounting and enforcement ([quota.rs], limits of [control.rs]).

    The counters are little-endian [i64]s summed by the merge operator; the
    tracker is the in-memory copy the mutations reserve against. *)

From S2P Require Import Prelude Keys Meta Store.

Record QuotaLimit : Type := {
  ql_soft : option u64;
  ql_hard : option u64;
  ql_grace_until : option u64
}.

Record QuotaLimits : Type := { lim_bytes : QuotaLimit; lim_inodes : QuotaLimit }.

#[global] Instance quota_limit_eq_dec : EqDecision QuotaLimit.
Proof. solve_decision. Defined.
#[global] Instance quota_limits_eq_dec : EqDecision QuotaLimits.
Proof. solve_decision. Defined.

Definition exceeds_limit (usage : i64) (limit : QuotaLimit) (now : u64) : bool :=
  if match ql_hard limit with Some hard => as_i64 hard <? usage | None => false end then true
  else if match ql_soft limit, ql_grace_until limit with
          | Some soft, Some grace_until => (as_i64 soft <? usage) && (grace_until <=? now)
          | _, _ => false
          end then true
  else false.

Record QuotaTracker : Type := {
  q_bytes : i64;
  q_inodes : i64;
  q_rejections : u64;
  q_limits : QuotaLimits
}.

Module QuotaTracker.

Definition new (bytes inodes : i64) (limits : QuotaLimits) : QuotaTracker :=
  {| q_bytes := bytes; q_inodes := inodes; q_rejections := 0; q_limits := limits |}.

Definition usage (q : QuotaTracker) : i64 * i64 := (q_bytes q, q_inodes q).

Definition hard_limits (q : QuotaTracker) : option u64 * option u64 :=
  (ql_hard (lim_bytes (q_limits q)), ql_hard (lim_inodes (q_limits q))).

Definition set_limits (limits : QuotaLimits) (q : QuotaTracker) : bool * QuotaTracker :=
  if decide (q_limits q = limits) then (false, q)
  else (true, {| q_bytes := q_bytes q; q_inodes := q_inodes q;
                 q_rejections := q_rejections q; q_limits := limits |}).

(** [now] is the reading of [now_unix()] inside the call. *)
Definition reserve (bytes_delta inode_delta : i64) (now : u64) (q : QuotaTracker) :
    result FsError unit * QuotaTracker :=
  let limits := q_limits q in
  let new_bytes := as_i64 (q_bytes q + bytes_delta) in
  if (0 <? bytes_delta) && exceeds_limit new_bytes (lim_bytes limits) now then
    (Err QuotaExceeded,
     {| q_bytes := as_i64 (new_bytes - bytes_delta); q_inodes := q_inodes q;
        q_rejections := as_u64 (q_rejections q + 1); q_limits := limits |})
  else
    let new_inodes := as_i64 (q_inodes q + inode_delta) in
    if (0 <? inode_delta) && exceeds_limit new_inodes (lim_inodes limits) now then
      (Err QuotaExceeded,
       {| q_bytes := as_i64 (new_bytes - bytes_delta);
          q_inodes := as_i64 (new_inodes - inode_delta);
          q_rejections := as_u64 (q_rejections q + 1); q_limits := limits |})
    else
      (Ok tt, {| q_bytes := new_bytes; q_inodes := new_inodes;
                 q_rejections := q_rejections q; q_limits := limits |}).

Definition release (bytes_delta inode_delta : i64) (q : QuotaTracker) : QuotaTracker :=
  {| q_bytes := as_i64 (q_bytes q - bytes_delta); q_inodes := as_i64 (q_inodes q - inode_delta);
     q_rejections := q_rejections q; q_limits := q_limits q |}.

Definition check_not_over (now : u64) (q : QuotaTracker) : result FsError unit * QuotaTracker :=
  if exceeds_limit (q_bytes q) (lim_bytes (q_limits q)) now then
    (Err QuotaExceeded,
     {| q_bytes := q_bytes q; q_inodes := q_inodes q;
        q_rejections := as_u64 (q_rejections q + 1); q_limits := q_limits q |})
  else (Ok tt, q).

End QuotaTracker.

(** ** The tracker *)

(** The usage is a pair of [i64]s. *)
Definition tracker_ok (q : QuotaTracker) : Prop := is_i64 (q_bytes q) /\ is_i64 (q_inodes q).

Lemma as_i64_sub_add x d : is_i64 x -> as_i64 (as_i64 (x + d) - d) = x.
Proof.
  intros Hx. replace (as_i64 (x + d) - d) with (as_i64 (x + d) + - d) by lia.
  rewrite as_i64_add_l. replace (x + d + - d) with x by lia. by apply as_i64_small.
Qed.

(** A rejected reservation leaves the usage untouched and counts a rejection. *)
Lemma reserve_err b i now q e q' :
  tracker_ok q -> QuotaTracker.reserve b i now q = (Err e, q') ->
  e = QuotaExceeded /\ q_bytes q' = q_bytes q /\ q_inodes q' = q_inodes q /\
  q_limits q' = q_limits q /\ q_rejections q' = as_u64 (q_rejections q + 1).
Proof.
  intros [Hb Hi] Hr. unfold QuotaTracker.reserve in Hr.
  repeat case_match; simplify_eq; simpl; by rewrite ?as_i64_sub_add.
Qed.

Lemma reserve_ok b i now q q' :
  QuotaTracker.reserve b i now q = (Ok tt, q') ->
  q_bytes q' = as_i64 (q_bytes q + b) /\ q_inodes q' = as_i64 (q_inodes q + i) /\
  q_limits q' = q_limits q /\ q_rejections q' = q_rejections q /\
  (0 < b -> exceeds_limit (as_i64 (q_bytes q + b)) (lim_bytes (q_limits q)) now = false) /\
  (0 < i -> exceeds_limit (as_i64 (q_inodes q + i)) (lim_inodes (q_limits q)) now = false).
Proof.
  unfold QuotaTracker.reserve. intros Hr.
  destruct (Z.ltb_spec 0 b), (exceeds_limit (as_i64 (q_bytes q + b)) _ _) eqn:E1; simpl in Hr;
    try done;
    destruct (Z.ltb_spec 0 i), (exceeds_limit (as_i64 (q_inodes q + i)) _ _) eqn:E2; simpl in Hr;
    try done; simplify_eq; simpl; repeat split; try done; lia.
Qed.

(** Frees always succeed. *)
Lemma reserve_free b i now q :
  b <= 0 -> i <= 0 ->
  QuotaTracker.reserve b i now q =
    (Ok tt, {| q_bytes := as_i64 (q_bytes q + b); q_inodes := as_i64 (q_inodes q + i);
               q_rejections := q_rejections q; q_limits := q_limits q |}).
Proof.
  intros Hb Hi. unfold QuotaTracker.reserve.
  destruct (Z.ltb_spec 0 b); [lia|]. destruct (Z.ltb_spec 0 i); [lia|]. done.
Qed.

(** Releasing a granted reservation restores the usage. *)
Lemma reserve_release b i now q q' :
  tracker_ok q -> QuotaTracker.reserve b i now q = (Ok tt, q') ->
  QuotaTracker.usage (QuotaTracker.release b i q') = QuotaTracker.usage q.
Proof.
  intros [Hb Hi] (E1 & E2 & _)%reserve_ok. unfold QuotaTracker.usage, QuotaTracker.release.
  simpl. by rewrite E1, E2, !as_i64_sub_add.
Qed.

(** ** The counters *)

Definition counter (m : gmap Key Value) (k : Key) : i64 :=
  decode_counter (value_bytes <$> m !! k).

(** A counter key holds an eight-byte value or nothing. *)
Definition counter_ok (m : gmap Key Value) (k : Key) : Prop :=
  forall v, m !! k = Some v -> exists b, v = VBytes b /\ len b = 8.

Lemma len_to_le n x : len (to_le n x) = Z.of_nat n.
Proof. unfold len. by rewrite length_to_le. Qed.

Lemma decode_counter_delta x : is_i64 x -> decode_counter (Some (encode_delta x)) = x.
Proof. intros. unfold decode_counter, encode_delta. rewrite len_to_le. simpl. by apply i64_le_roundtrip. Qed.

Lemma counter_range m k : is_i64 (counter m k).
Proof.
  unfold counter, decode_counter. repeat case_match; try apply as_i64_range; unfold is_i64; lia.
Qed.

(** Merging a delta adds it to the counter, modulo 2^64. *)
Lemma merge_counter m k d :
  counter_ok m k ->
  counter (apply_op m (Merge k (encode_delta d))) k = as_i64 (counter m k + d) /\
  counter_ok (apply_op m (Merge k (encode_delta d))) k.
Proof.
  intros Hk. simpl.
  assert (CounterMergeOperator_merge (value_bytes <$> m !! k) (encode_delta d) =
          Ok (to_le 8 (as_i64 (counter m k + d)))) as ->.
  { unfold CounterMergeOperator_merge, decode_i64, encode_delta, counter. rewrite len_to_le. simpl.
    rewrite i64_le_wrap. destruct (m !! k) as [v|] eqn:Hv; simpl; [|f_equal; f_equal; exact (as_i64_add_r 0 d)].
    destruct (Hk v Hv) as (b & -> & Hb). simpl. rewrite Hb. simpl. by rewrite as_i64_add_r. }
  split.
  - unfold counter at 1. rewrite lookup_insert_eq. simpl. rewrite len_to_le. simpl.
    by rewrite i64_le_roundtrip by apply as_i64_range.
  - intros v'. rewrite lookup_insert_eq. intros [= <-]. eexists. split; [done|]. by rewrite len_to_le.
Qed.

(** A merge touches its own key only. *)
Lemma merge_frame m k d k' : k <> k' -> apply_op m (Merge k d) !! k' = m !! k'.
Proof. intros Hne. simpl. case_match; [|done]. by rewrite lookup_insert_ne. Qed.
