(* ===== verification/Locks.v ===== *)
(** In-process concurrency control ([locks.rs]).

    [LockManager] orders the mutations of a volume by striped exclusive locks;
    [lock_system] runs any number of tasks that acquire lock programs in the
    order the manager computes, and its theorems show mutual exclusion and
    the absence of deadlock.  [RangeLockTable] is the advisory byte-range
    table of the 9P lock calls; it refines a map from (owner, byte) to the
    mode held. *)

From S2P Require Import Prelude.

(** * The striped inode locks *)

Definition STRIPES : usize := 1024.

Definition stripe_of (ino : u64) : usize :=
  Z.shiftr (as_u64 (ino * 0x9E3779B97F4A7C15)) 52 mod STRIPES.

(** [Vec::dedup]: drop consecutive repeats. *)
Fixpoint dedup (l : list Z) : list Z :=
  match l with
  | [] => []
  | x :: l' =>
      match l' with
      | [] => [x]
      | y :: _ => if x =? y then dedup l' else x :: dedup l'
      end
  end.

(** The stripes each entry point locks, in acquisition order. *)
Definition write_stripes (ino : u64) : list usize := [stripe_of ino].

Definition write_many_stripes (inos : list u64) : list usize :=
  dedup (merge_sort Z.le (stripe_of <$> inos)).

Definition write_range_stripes (first last : u64) : list usize :=
  if last <? first then []
  else
    let count := as_u64 (last - first + 1) in
    let stripes := if STRIPES <=? count then seqZ 0 STRIPES
                   else stripe_of <$> seqZ first (last - first + 1) in
    dedup (merge_sort Z.le stripes).

(** * Advisory byte-range locks *)

Record LockRange : Type := { lr_start : u64; lr_end : u64 }.

Definition overlaps (self other : LockRange) : bool :=
  (lr_start self <? lr_end other) && (lr_start other <? lr_end self).

Record RangeLock : Type := { rl_owner : u64; rl_range : LockRange; rl_exclusive : bool }.

#[global] Instance lock_range_eq_dec : EqDecision LockRange.
Proof. solve_decision. Defined.
#[global] Instance range_lock_eq_dec : EqDecision RangeLock.
Proof. solve_decision. Defined.

(** [by_ino] *)
Abbreviation RangeLockTable := (gmap u64 (list RangeLock)).

Module RangeLockTable.

(** The predicate of the [find] in [try_lock] and [test]. *)
Definition conflicts (lock l : RangeLock) : bool :=
  negb (rl_owner l =? rl_owner lock) && overlaps (rl_range l) (rl_range lock) &&
  (rl_exclusive l || rl_exclusive lock).

Fixpoint find (f : RangeLock -> bool) (ls : list RangeLock) : option RangeLock :=
  match ls with
  | [] => None
  | l :: ls' => if f l then Some l else find f ls'
  end.

(** The surviving sub-ranges of a lock that [range] cuts. *)
Definition survivors_of (range : LockRange) (l : RangeLock) : list RangeLock :=
  (if lr_start (rl_range l) <? lr_start range then
     [{| rl_owner := rl_owner l;
         rl_range := {| lr_start := lr_start (rl_range l); lr_end := lr_start range |};
         rl_exclusive := rl_exclusive l |}]
   else []) ++
  (if lr_end range <? lr_end (rl_range l) then
     [{| rl_owner := rl_owner l;
         rl_range := {| lr_start := lr_end range; lr_end := lr_end (rl_range l) |};
         rl_exclusive := rl_exclusive l |}]
   else []).

(** [retain] with the list of survivors it pushes. *)
Fixpoint carve_loop (owner : u64) (range : LockRange) (ls survivors : list RangeLock) :
    list RangeLock * list RangeLock :=
  match ls with
  | [] => ([], survivors)
  | l :: ls' =>
      if negb (rl_owner l =? owner) || negb (overlaps (rl_range l) range) then
        let '(kept, survivors) := carve_loop owner range ls' survivors in (l :: kept, survivors)
      else carve_loop owner range ls' (survivors ++ survivors_of range l)
  end.

Definition carve (ls : list RangeLock) (owner : u64) (range : LockRange) : list RangeLock :=
  let '(kept, survivors) := carve_loop owner range ls [] in kept ++ survivors.

Definition try_lock (ino : u64) (lock : RangeLock) (t : RangeLockTable) :
    result RangeLock unit * RangeLockTable :=
  let locks := default [] (t !! ino) in
  match find (conflicts lock) locks with
  | Some conflict => (Err conflict, <[ino := locks]> t)
  | None =>
      (Ok tt, <[ino := carve locks (rl_owner lock) (rl_range lock) ++ [lock]]> t)
  end.

Definition test (ino : u64) (probe : RangeLock) (t : RangeLockTable) : option RangeLock :=
  match t !! ino with
  | Some locks => find (conflicts probe) locks
  | None => None
  end.

Definition unlock (ino owner : u64) (range : LockRange) (t : RangeLockTable) : RangeLockTable :=
  match t !! ino with
  | Some locks =>
      let locks := carve locks owner range in
      if bool_decide (locks = []) then delete ino t else <[ino := locks]> t
  | None => t
  end.

Definition unlock_owner (owner : u64) (t : RangeLockTable) : RangeLockTable :=
  omap (fun ls => let ls := base.filter (fun l => rl_owner l <> owner) ls in
                  if bool_decide (ls = []) then None else Some ls) t.

End RangeLockTable.

(** * The acquisition order *)

Lemma dedup_elem x l : x ∈ dedup l <-> x ∈ l.
Proof.
  induction l as [|a l IH]; [done|].
  destruct l as [|b l]; [done|]. change (dedup (a :: b :: l))
    with (if a =? b then dedup (b :: l) else a :: dedup (b :: l)).
  destruct (Z.eqb_spec a b) as [->|]; [rewrite IH|rewrite !(elem_of_cons _ x a), IH]; set_solver.
Qed.

Lemma dedup_sorted l : StronglySorted Z.le l -> StronglySorted Z.lt (dedup l).
Proof.
  induction l as [|a l IH]; [constructor|]. intros [Hs Ha]%StronglySorted_inv.
  destruct l as [|b l]; [repeat constructor|].
  change (dedup (a :: b :: l)) with (if a =? b then dedup (b :: l) else a :: dedup (b :: l)).
  destruct (Z.eqb_spec a b) as [->|]; [by apply IH|]. constructor; [by apply IH|].
  apply Forall_forall. intros x Hx. rewrite dedup_elem in Hx. apply StronglySorted_inv in Hs as [_ Hb].
  rewrite Forall_forall in Ha, Hb. apply elem_of_cons in Hx as [->|Hx].
  - specialize (Ha b ltac:(set_solver)). lia.
  - specialize (Ha b ltac:(set_solver)). specialize (Hb x Hx). lia.
Qed.

Lemma sort_dedup_sorted l : StronglySorted Z.lt (dedup (merge_sort Z.le l)).
Proof. apply dedup_sorted, Sorted_StronglySorted; [apply _|]. apply (Sorted_merge_sort _). Qed.

Lemma sort_dedup_elem x l : x ∈ dedup (merge_sort Z.le l) <-> x ∈ l.
Proof. by rewrite dedup_elem, merge_sort_Permutation. Qed.

Lemma stripe_of_range ino : 0 <= stripe_of ino < STRIPES.
Proof. apply Z.mod_pos_bound. unfold STRIPES. lia. Qed.

Lemma write_many_covers inos ino : ino ∈ inos -> stripe_of ino ∈ write_many_stripes inos.
Proof. intros H. apply sort_dedup_elem. by apply list_elem_of_fmap_2. Qed.

Lemma write_range_covers first last i :
  first <= i <= last -> stripe_of i ∈ write_range_stripes first last.
Proof.
  intros Hi. unfold write_range_stripes. destruct (Z.ltb_spec last first); [lia|].
  apply sort_dedup_elem. case_match.
  - apply elem_of_seqZ. pose proof (stripe_of_range i). lia.
  - apply list_elem_of_fmap_2, elem_of_seqZ. lia.
Qed.

(** * Tasks competing for the locks *)

(** The rename mutex is taken before any stripe. *)
Definition RENAME_MUTEX : Z := -1.

(** What one operation of the volume locks, in order: [write], [write_many],
    [write_range], and a rename's mutex followed by the [write_many] of its
    first round. *)
Inductive lock_program : list Z -> Prop :=
| prog_write ino : lock_program (write_stripes ino)
| prog_write_many inos : lock_program (write_many_stripes inos)
| prog_write_range first last : lock_program (write_range_stripes first last)
| prog_rename inos : lock_program (RENAME_MUTEX :: write_many_stripes inos).

Lemma lock_program_sorted p : lock_program p -> StronglySorted Z.lt p.
Proof.
  destruct 1; [repeat constructor|apply sort_dedup_sorted| |].
  - unfold write_range_stripes. case_match; [constructor|apply sort_dedup_sorted].
  - constructor; [apply sort_dedup_sorted|]. apply Forall_forall.
    intros x Hx. apply (proj1 (sort_dedup_elem _ _)) in Hx.
    apply list_elem_of_fmap in Hx as (i & -> & _).
    pose proof (stripe_of_range i). unfold RENAME_MUTEX. lia.
Qed.

Record Task : Type := { tk_held : list Z; tk_todo : list Z }.

Definition idle : Task := {| tk_held := []; tk_todo := [] |}.

(** Nobody holds [l]. *)
Definition lock_free (ts : list Task) (l : Z) : Prop :=
  forall i t, ts !! i = Some t -> l ∉ tk_held t.

(** A task that is running takes its next lock, or drops its guards. *)
Inductive advance : list Task -> list Task -> Prop :=
| adv_acquire ts i held l todo :
    ts !! i = Some {| tk_held := held; tk_todo := l :: todo |} ->
    lock_free ts l ->
    advance ts (<[i := {| tk_held := held ++ [l]; tk_todo := todo |}]> ts)
| adv_release ts i held :
    ts !! i = Some {| tk_held := held; tk_todo := [] |} -> held <> [] ->
    advance ts (<[i := idle]> ts).

(** An idle task begins an operation; a rename whose entries changed before it
    had its locks drops the stripes, keeps the mutex and asks for the stripes
    of the entries as they are now ([continue] of the loop in [rename]). *)
Inductive lock_step : list Task -> list Task -> Prop :=
| step_start ts i p :
    ts !! i = Some idle -> lock_program p ->
    lock_step ts (<[i := {| tk_held := []; tk_todo := p |}]> ts)
| step_retry ts i held inos :
    ts !! i = Some {| tk_held := RENAME_MUTEX :: held; tk_todo := [] |} ->
    lock_step ts (<[i := {| tk_held := [RENAME_MUTEX]; tk_todo := write_many_stripes inos |}]> ts)
| step_advance ts ts' : advance ts ts' -> lock_step ts ts'.

Definition lock_reachable (n : nat) : list Task -> Prop := rtc lock_step (replicate n idle).

(** Steps left before every task is idle. *)
Definition steps_left (t : Task) : nat :=
  length (tk_todo t) + (if bool_decide (tk_held t = []) then if bool_decide (tk_todo t = []) then 0 else 1 else 1).
Definition total_steps (ts : list Task) : nat := sum_list_with steps_left ts.

(** Each task's locks are in strictly increasing order; no two tasks share one. *)
Record locks_inv (ts : list Task) : Prop := {
  li_sorted i t : ts !! i = Some t -> StronglySorted Z.lt (tk_held t ++ tk_todo t);
  li_excl i j t u l :
    ts !! i = Some t -> ts !! j = Some u -> l ∈ tk_held t -> l ∈ tk_held u -> i = j
}.

Lemma locks_inv_step ts ts' : locks_inv ts -> lock_step ts ts' -> locks_inv ts'.
Proof.
  intros [Hs He] Hstep. assert (forall i t u, ts !! i = Some t ->
    StronglySorted Z.lt (tk_held u ++ tk_todo u) ->
    (forall l, l ∈ tk_held u -> l ∈ tk_held t \/ lock_free ts l) ->
    locks_inv (<[i := u]> ts)) as Hins.
  { intros i t u Hi Hu Hheld. split.
    - intros j v [(<- & <- & _)|[_ Hj]]%list_lookup_insert_Some; eauto.
    - intros j k v w l [(<- & <- & _)|[? Hj]]%list_lookup_insert_Some
        [(<- & <- & _)|[? Hk]]%list_lookup_insert_Some Hl Hl'; try done.
      + destruct (Hheld l Hl) as [Hl2|Hf]; [by eapply (He i k)|]. by destruct (Hf k w).
      + destruct (Hheld l Hl') as [Hl2|Hf]; [by eapply (He j _)|]. by destruct (Hf j v).
      + by eapply (He j k). }
  destruct Hstep as [ts i p Hi Hp|ts i held inos Hi|ts ts' Hadv].
  - eapply Hins; [done|by apply lock_program_sorted|set_solver].
  - eapply Hins; [done|apply (lock_program_sorted _ (prog_rename inos))|].
    intros l ->%list_elem_of_singleton. left. apply list_elem_of_here.
  - destruct Hadv as [ts i held l todo Hi Hfree|ts i held Hi Hne].
    + eapply Hins; [done| |].
      * specialize (Hs i _ Hi). simpl in *. by rewrite <- app_assoc.
      * simpl. intros l' [?|Hl'%list_elem_of_singleton]%elem_of_app; subst; auto.
    + eapply Hins; [done|constructor|set_solver].
Qed.

Lemma lock_reachable_inv n ts : lock_reachable n ts -> locks_inv ts.
Proof.
  intros Hr. unfold lock_reachable in Hr. remember (replicate n idle) as ts0 eqn:E.
  assert (locks_inv ts0) as Hinv.
  { subst. split.
    - intros i t [-> _]%lookup_replicate. constructor.
    - intros i j t u l [-> _]%lookup_replicate. simpl. set_solver. }
  clear E. induction Hr; [done|]. eauto using locks_inv_step.
Qed.

(** The largest lock anybody holds. *)
Lemma max_held (ts : list Task) :
  (forall i t, ts !! i = Some t -> tk_held t = []) \/
  exists i t l, ts !! i = Some t /\ l ∈ tk_held t /\
    forall j u l', ts !! j = Some u -> l' ∈ tk_held u -> l' <= l.
Proof.
  set (all := mjoin (tk_held <$> ts)).
  assert (forall l, l ∈ all <-> exists i t, ts !! i = Some t /\ l ∈ tk_held t) as Hall.
  { intros l. unfold all. rewrite list_elem_of_join. split.
    - intros (h & Hl & (t & -> & [i Hi]%list_elem_of_lookup)%list_elem_of_fmap). eauto.
    - intros (i & t & Hi & Hl). exists (tk_held t). split; [done|].
      apply list_elem_of_fmap. exists t. split; [done|]. by eapply list_elem_of_lookup_2. }
  assert (all = [] \/ exists l, l ∈ all /\ forall l', l' ∈ all -> l' <= l) as Hmax.
  { clearbody all. clear Hall. induction all as [|a all IH]; [by left|]. right.
    destruct IH as [->|(l & Hl & Hm)].
    - exists a. split; [set_solver|]. intros l' Hl'%list_elem_of_singleton. lia.
    - exists (Z.max a l). split.
      + destruct (Z.max_spec a l) as [[_ ->]|[_ ->]]; set_solver.
      + intros l' [->|Hl']%elem_of_cons; [lia|]. specialize (Hm _ Hl'). lia. }
  destruct Hmax as [Hnil|(l & Hl & Hm)].
  - left. intros i t Hi. destruct (tk_held t) as [|x h] eqn:E; [done|]. exfalso.
    assert (x ∈ all) as Hx by (apply Hall; exists i, t; rewrite E; set_solver).
    rewrite Hnil in Hx. set_solver.
  - right. apply Hall in Hl as (i & t & Hi & Hl). exists i, t, l. split_and!; try done.
    intros j u l' Hj Hl'. apply Hm, Hall. eauto.
Qed.

Lemma advance_progress ts i t :
  locks_inv ts -> ts !! i = Some t -> t <> idle -> exists ts', advance ts ts'.
Proof.
  intros [Hs He] Hi Hne. destruct (max_held ts) as [Hnone|(j & u & l & Hj & Hl & Hmax)].
  - destruct t as [held todo]. pose proof (Hnone i _ Hi) as Hh. simpl in Hh. subst held.
    destruct todo as [|l todo]; [done|]. eexists. eapply adv_acquire; [done|].
    intros j u Hj. rewrite (Hnone j u Hj). set_solver.
  - destruct u as [held todo]. simpl in Hl. destruct todo as [|l' todo].
    + eexists. eapply adv_release; [done|]. intros ->. set_solver.
    + eexists. eapply adv_acquire; [done|]. intros k v Hk Hin.
      specialize (Hmax k v l' Hk Hin). specialize (Hs j _ Hj). simpl in Hs.
      pose proof (StronglySorted_app_1_elem_of Z.lt _ _ l l' Hs Hl ltac:(set_solver)). lia.
Qed.

Lemma total_steps_insert ts i t u :
  ts !! i = Some t -> (total_steps (<[i := u]> ts) + steps_left t = total_steps ts + steps_left u)%nat.
Proof.
  unfold total_steps. revert i. induction ts as [|a ts IH]; intros [|i]; simpl; try done.
  - intros [= ->]. lia.
  - intros Hi. specialize (IH _ Hi). lia.
Qed.

Lemma advance_decreases ts ts' : advance ts ts' -> (total_steps ts' < total_steps ts)%nat.
Proof.
  destruct 1 as [ts i held l todo Hi Hf|ts i held Hi Hne].
  - pose proof (total_steps_insert ts i _ {| tk_held := held ++ [l]; tk_todo := todo |} Hi) as E.
    unfold steps_left in E. simpl in E.
    rewrite (bool_decide_eq_false_2 (held ++ [l] = [])) in E by (by destruct held).
    destruct (bool_decide (held = [])); simpl in E; lia.
  - pose proof (total_steps_insert ts i _ idle Hi) as E. unfold steps_left in E. simpl in E.
    rewrite (bool_decide_eq_false_2 (held = [])) in E by done. simpl in E. lia.
Qed.

(** [held] is everything an operation locks to change [x], an inode or a chunk. *)
Inductive guards (x : Z) : list Z -> Prop :=
| guards_write : guards x (write_stripes x)
| guards_many inos : x ∈ inos -> guards x (write_many_stripes inos)
| guards_range first last : first <= x <= last -> guards x (write_range_stripes first last)
| guards_rename inos : x ∈ inos -> guards x (RENAME_MUTEX :: write_many_stripes inos).

Lemma guards_stripe x held : guards x held -> stripe_of x ∈ held.
Proof.
  destruct 1; [apply list_elem_of_here|by apply write_many_covers|by apply write_range_covers|].
  by apply list_elem_of_further, write_many_covers.
Qed.

(** Nobody in a concrete list of tasks holds the lock. *)
Ltac free_lock :=
  let k := fresh in let t := fresh in let E := fresh in
  intros [|[|k]] t E; vm_compute in E; simplify_eq; cbn; set_solver.

(** * What the byte-range table holds *)

(** [o] holds byte [b] of the file in mode [x]. *)
Definition holds (ls : list RangeLock) (o b : u64) (x : bool) : Prop :=
  exists l, l ∈ ls /\ rl_owner l = o /\ lr_start (rl_range l) <= b < lr_end (rl_range l) /\
            rl_exclusive l = x.

Definition in_lock_range (r : LockRange) (b : u64) : bool := (lr_start r <=? b) && (b <? lr_end r).

Definition range_nonempty (r : LockRange) : Prop := lr_start r < lr_end r.

Lemma in_lock_range_spec r b : in_lock_range r b = true <-> lr_start r <= b < lr_end r.
Proof. unfold in_lock_range. rewrite andb_true_iff, Z.leb_le, Z.ltb_lt. lia. Qed.

Lemma overlaps_spec r1 r2 :
  range_nonempty r1 -> range_nonempty r2 ->
  overlaps r1 r2 = true <->
  exists b, lr_start r1 <= b < lr_end r1 /\ lr_start r2 <= b < lr_end r2.
Proof.
  unfold overlaps, range_nonempty. rewrite andb_true_iff, !Z.ltb_lt. intros ??. split.
  - intros []. exists (Z.max (lr_start r1) (lr_start r2)). lia.
  - intros (b & ? & ?). lia.
Qed.

Lemma survivors_holds range l o b x :
  range_nonempty range -> overlaps (rl_range l) range = true ->
  holds (RangeLockTable.survivors_of range l) o b x <->
  holds [l] o b x /\ in_lock_range range b = false.
Proof.
  unfold overlaps, range_nonempty. rewrite andb_true_iff, !Z.ltb_lt. intros Hne [H1 H2].
  destruct l as [lo [ls le] lx], range as [rs re]; simpl in *.
  unfold holds, RangeLockTable.survivors_of, in_lock_range; simpl. split.
  - intros (k & Hk & <- & Hb & <-). apply elem_of_app in Hk as [Hk|Hk]; case_match; try set_solver;
      apply list_elem_of_singleton in Hk; subst k; simpl in *;
      (split; [eexists; split; [by apply list_elem_of_singleton|simpl; split_and!; (done || lia)]|]);
      apply andb_false_iff; rewrite Z.leb_gt, Z.ltb_ge; lia.
  - intros ((k & Hk%list_elem_of_singleton & <- & Hb & <-) & Hr). subst k; simpl in *.
    apply andb_false_iff in Hr. rewrite Z.leb_gt, Z.ltb_ge in Hr. destruct Hr.
    + destruct (Z.ltb_spec ls rs); [|lia]. eexists. split; [by apply list_elem_of_here|]. simpl. split_and!; (done || lia).
    + destruct (Z.ltb_spec re le); [|lia]. eexists.
      split; [apply elem_of_app; right; by apply list_elem_of_here|]. simpl. split_and!; (done || lia).
Qed.

Lemma holds_nil o b x : ~ holds [] o b x.
Proof. unfold holds. set_solver. Qed.

Lemma holds_cons l ls o b x : holds (l :: ls) o b x <-> holds [l] o b x \/ holds ls o b x.
Proof. unfold holds. set_solver. Qed.

Lemma holds_app l1 l2 o b x : holds (l1 ++ l2) o b x <-> holds l1 o b x \/ holds l2 o b x.
Proof. unfold holds. set_solver. Qed.

Lemma holds_disjoint owner range l o b x :
  negb (rl_owner l =? owner) || negb (overlaps (rl_range l) range) = true ->
  holds [l] o b x -> ~ (o = owner /\ in_lock_range range b = true).
Proof.
  intros Hc (k & Hk%list_elem_of_singleton & <- & Hb & <-) [Ho Hr]. subst k.
  apply in_lock_range_spec in Hr. apply orb_true_iff in Hc as [Hc|Hc].
  - apply negb_true_iff, Z.eqb_neq in Hc. done.
  - apply negb_true_iff in Hc. unfold overlaps in Hc.
    apply andb_false_iff in Hc. rewrite !Z.ltb_ge in Hc. lia.
Qed.

Lemma carve_loop_holds owner range ls acc o b x :
  range_nonempty range ->
  let '(kept, surv) := RangeLockTable.carve_loop owner range ls acc in
  (holds kept o b x \/ holds surv o b x) <->
  holds acc o b x \/ (holds ls o b x /\ ~ (o = owner /\ in_lock_range range b = true)).
Proof.
  intros Hr. revert acc. induction ls as [|l ls IH]; intros acc; simpl.
  - pose proof (holds_nil o b x). tauto.
  - destruct (negb (rl_owner l =? owner) || negb (overlaps (rl_range l) range)) eqn:Hc.
    + specialize (IH acc). destruct (RangeLockTable.carve_loop _ _ _ _) as [kept surv].
      rewrite (holds_cons l kept), (holds_cons l ls). pose proof (holds_disjoint owner range l o b x Hc). tauto.
    + apply orb_false_iff in Hc as [Ho Hov]. apply negb_false_iff in Ho, Hov.
      apply Z.eqb_eq in Ho. specialize (IH (acc ++ RangeLockTable.survivors_of range l)).
      destruct (RangeLockTable.carve_loop _ _ _ _) as [kept surv].
      rewrite IH, holds_app, (survivors_holds range l) by done. rewrite (holds_cons l ls).
      destruct (in_lock_range range b) eqn:Hin; [|naive_solver].
      assert (holds [l] o b x -> o = owner) by (intros (k & Hk%list_elem_of_singleton & <- & _); by subst).
      naive_solver.
Qed.

Lemma carve_holds ls owner range o b x :
  range_nonempty range ->
  holds (RangeLockTable.carve ls owner range) o b x <->
  holds ls o b x /\ ~ (o = owner /\ in_lock_range range b = true).
Proof.
  intros Hr. pose proof (carve_loop_holds owner range ls [] o b x Hr) as H.
  unfold RangeLockTable.carve. destruct (RangeLockTable.carve_loop _ _ _ _) as [kept surv].
  rewrite holds_app, H. pose proof (holds_nil o b x). tauto.
Qed.

Definition ranges_ok (ls : list RangeLock) : Prop := Forall (fun l => range_nonempty (rl_range l)) ls.

Lemma survivors_ok range l : ranges_ok (RangeLockTable.survivors_of range l).
Proof.
  unfold RangeLockTable.survivors_of. apply Forall_app. split; case_match; repeat constructor;
    unfold range_nonempty; simpl; lia.
Qed.

Lemma carve_ok ls owner range : ranges_ok ls -> ranges_ok (RangeLockTable.carve ls owner range).
Proof.
  intros Hls. assert (forall acc, ranges_ok acc ->
    let '(kept, surv) := RangeLockTable.carve_loop owner range ls acc in
    ranges_ok kept /\ ranges_ok surv) as H.
  { induction Hls as [|l ls Hl Hls IH]; intros acc Hacc; simpl; [by split; [constructor|]|].
    destruct (negb _ || negb _).
    - specialize (IH acc Hacc). destruct (RangeLockTable.carve_loop _ _ _ _).
      destruct IH. split; [apply Forall_cons; auto|done].
    - apply IH. apply Forall_app. split; [done|apply survivors_ok]. }
  specialize (H [] ltac:(constructor)). unfold RangeLockTable.carve.
  destruct (RangeLockTable.carve_loop _ _ _ _). by apply Forall_app.
Qed.

Lemma find_spec f ls :
  match RangeLockTable.find f ls with
  | Some l => l ∈ ls /\ f l = true
  | None => forall l, l ∈ ls -> f l = false
  end.
Proof.
  induction ls as [|l ls IH]; simpl; [set_solver|]. destruct (f l) eqn:E; [set_solver|].
  destruct (RangeLockTable.find f ls); set_solver.
Qed.

(** ** The abstract table *)

(** The mode in which an owner holds a byte of a file. *)
Definition LockMap : Type := u64 -> u64 -> u64 -> option bool.

Definition spec_set (ino owner : u64) (range : LockRange) (x : option bool) (A : LockMap) : LockMap :=
  fun i o b => if (i =? ino) && (o =? owner) && in_lock_range range b then x else A i o b.

Definition spec_drop_owner (owner : u64) (A : LockMap) : LockMap :=
  fun i o b => if o =? owner then None else A i o b.

(** Another owner holds a byte of the range, and one of the two is exclusive. *)
Definition spec_conflict (ino : u64) (lock : RangeLock) (A : LockMap) : Prop :=
  exists o b x, o <> rl_owner lock /\ in_lock_range (rl_range lock) b = true /\
    A ino o b = Some x /\ (x || rl_exclusive lock) = true.

Record models (t : RangeLockTable) (A : LockMap) : Prop := {
  mod_ok ino ls : t !! ino = Some ls -> ranges_ok ls;
  mod_holds ino o b x : holds (default [] (t !! ino)) o b x <-> A ino o b = Some x
}.

(** The abstract safety property: two owners share a byte only if both are shared. *)
Definition exclusion (A : LockMap) : Prop :=
  forall ino b o1 o2 x1 x2, o1 <> o2 -> A ino o1 b = Some x1 -> A ino o2 b = Some x2 ->
    x1 = false /\ x2 = false.

Lemma find_conflict ino lock t A :
  models t A -> range_nonempty (rl_range lock) ->
  match RangeLockTable.find (RangeLockTable.conflicts lock) (default [] (t !! ino)) with
  | Some c => spec_conflict ino lock A /\ c ∈ default [] (t !! ino)
  | None => ~ spec_conflict ino lock A
  end.
Proof.
  intros [Hok Hh] Hne.
  assert (ranges_ok (default [] (t !! ino))) as Hls.
  { destruct (t !! ino) eqn:E; [by eapply Hok|constructor]. }
  set (ls := default [] (t !! ino)) in *.
  pose proof (find_spec (RangeLockTable.conflicts lock) ls) as Hf.
  destruct (RangeLockTable.find _ ls) as [c|].
  - destruct Hf as [Hc Hconf]. split; [|done]. unfold RangeLockTable.conflicts in Hconf.
    apply andb_true_iff in Hconf as [[Ho Hov]%andb_true_iff Hx].
    apply negb_true_iff, Z.eqb_neq in Ho. pose proof (proj1 (Forall_forall _ ls) Hls) as Hls'.
    apply overlaps_spec in Hov as (b & Hb1 & Hb2); [|by apply Hls'|done].
    exists (rl_owner c), b, (rl_exclusive c). split_and!; [done|by apply in_lock_range_spec| |done].
    apply Hh. exists c. done.
  - intros (o & b & x & Ho & Hb & HA & Hx). apply Hh in HA as (l & Hl & <- & Hlb & <-).
    specialize (Hf l Hl). unfold RangeLockTable.conflicts in Hf.
    assert (overlaps (rl_range l) (rl_range lock) = true) as Hov.
    { pose proof (proj1 (Forall_forall _ ls) Hls) as Hls'. apply overlaps_spec; [by apply Hls'|done|].
      exists b. split; [done|]. by apply in_lock_range_spec. }
    rewrite Hov, Hx in Hf. rewrite (proj2 (Z.eqb_neq _ _) Ho) in Hf. done.
Qed.

Lemma models_insert t A A' ino ls :
  models t A -> ranges_ok ls ->
  (forall i o b, i <> ino -> A' i o b = A i o b) ->
  (forall o b x, holds ls o b x <-> A' ino o b = Some x) ->
  models (<[ino := ls]> t) A'.
Proof.
  intros [Hok Hh] Hls Hne Heq. split.
  - intros i ls' [[<- <-]|[_ Hi]]%lookup_insert_Some; [done|by eapply Hok].
  - intros i o b x. destruct (decide (i = ino)) as [->|Hi].
    + by rewrite lookup_insert_eq.
    + rewrite lookup_insert_ne, Hne by done. apply Hh.
Qed.

Lemma models_same t A ino : models t A -> models (<[ino := default [] (t !! ino)]> t) A.
Proof.
  intros Hm. pose proof Hm as [Hok Hh]. apply (models_insert t A); [done| |done|by intros; apply Hh].
  destruct (t !! ino) eqn:E; [by eapply Hok|constructor].
Qed.

Lemma table_ranges_ok t A ino : models t A -> ranges_ok (default [] (t !! ino)).
Proof. intros [Hok _]. destruct (t !! ino) eqn:E; [by eapply Hok|constructor]. Qed.

Lemma carve_spec_set t A ino owner range :
  models t A -> range_nonempty range ->
  forall o b x, holds (RangeLockTable.carve (default [] (t !! ino)) owner range) o b x <->
                spec_set ino owner range None A ino o b = Some x.
Proof.
  intros [_ Hh] Hne o b x. rewrite carve_holds, Hh by done. unfold spec_set.
  rewrite Z.eqb_refl. simpl. destruct (Z.eqb_spec o owner), (in_lock_range range b); naive_solver.
Qed.

Lemma spec_set_frame ino owner range x A i o b :
  i <> ino -> spec_set ino owner range x A i o b = A i o b.
Proof. intros H. unfold spec_set. by rewrite (proj2 (Z.eqb_neq i ino) H). Qed.

Lemma try_lock_models ino lock t A :
  models t A -> range_nonempty (rl_range lock) ->
  match RangeLockTable.try_lock ino lock t with
  | (Ok _, t') => ~ spec_conflict ino lock A /\
      models t' (spec_set ino (rl_owner lock) (rl_range lock) (Some (rl_exclusive lock)) A)
  | (Err c, t') => spec_conflict ino lock A /\ c ∈ default [] (t !! ino) /\ models t' A
  end.
Proof.
  intros Hm Hne. pose proof (find_conflict ino lock t A Hm Hne) as Hf.
  unfold RangeLockTable.try_lock. destruct (RangeLockTable.find _ _) as [c|].
  - destruct Hf. split_and!; [done..|]. by apply models_same.
  - split; [done|]. apply (models_insert t A).
    + done.
    + apply Forall_app. split; [by apply carve_ok, (table_ranges_ok t A)|by repeat constructor].
    + intros. by apply spec_set_frame.
    + intros o b x. rewrite holds_app, (carve_spec_set t A) by done.
      unfold spec_set. rewrite Z.eqb_refl. simpl. unfold holds at 1.
      destruct (Z.eqb_spec o (rl_owner lock)), (in_lock_range (rl_range lock) b) eqn:Hr; simpl.
      * split; [intros [?|(l & Hl%list_elem_of_singleton & _ & _ & <-)]; [done|by subst]|].
        intros [= <-]. right. exists lock.
        apply in_lock_range_spec in Hr. split_and!; [by apply list_elem_of_singleton|done|lia..|done].
      * split; [|auto]. intros [?|(l & Hl%list_elem_of_singleton & _ & Hb & _)]; [done|].
        subst l. apply in_lock_range_spec in Hb. congruence.
      * split; [|auto]. intros [?|(l & Hl%list_elem_of_singleton & <- & _)]; [done|]. by subst.
      * split; [|auto]. intros [?|(l & Hl%list_elem_of_singleton & <- & _)]; [done|]. by subst.
Qed.

Lemma unlock_models ino owner range t A :
  models t A -> range_nonempty range ->
  models (RangeLockTable.unlock ino owner range t) (spec_set ino owner range None A).
Proof.
  intros Hm Hne. pose proof (carve_spec_set t A ino owner range Hm Hne) as Hc.
  pose proof (carve_ok _ owner range (table_ranges_ok t A ino Hm)) as Hok.
  unfold RangeLockTable.unlock. destruct (t !! ino) as [ls|] eqn:E; simpl in *.
  - case_bool_decide as Hnil.
    + destruct Hm as [Hok0 Hh]. split.
      * intros i ls' [_ Hi]%lookup_delete_Some. by eapply Hok0.
      * intros i o b x. destruct (decide (i = ino)) as [->|Hi].
        -- rewrite lookup_delete_eq, <- Hc, Hnil. done.
        -- rewrite lookup_delete_ne, spec_set_frame by done. apply Hh.
    + apply (models_insert t A); [done..| |done]. intros. by apply spec_set_frame.
  - destruct Hm as [Hok0 Hh]. split; [done|]. intros i o b x.
    destruct (decide (i = ino)) as [->|Hi].
    + rewrite E. simpl. rewrite <- Hc. done.
    + rewrite spec_set_frame by done. apply Hh.
Qed.

Lemma unlock_owner_models owner t A :
  models t A -> models (RangeLockTable.unlock_owner owner t) (spec_drop_owner owner A).
Proof.
  intros [Hok Hh].
  assert (forall i, default [] (RangeLockTable.unlock_owner owner t !! i) =
    base.filter (fun l => rl_owner l <> owner) (default [] (t !! i))) as E.
  { intros i. unfold RangeLockTable.unlock_owner. rewrite lookup_omap.
    destruct (t !! i); simpl; [|done]. by case_bool_decide. }
  split.
  - intros i ls Hi. unfold RangeLockTable.unlock_owner in Hi. rewrite lookup_omap in Hi.
    apply bind_Some in Hi as (ls0 & Hi & Hls). case_bool_decide; simplify_eq.
    specialize (Hok _ _ Hi). apply Forall_forall. intros l [_ Hl]%list_elem_of_filter.
    by apply (proj1 (Forall_forall _ _) Hok).
  - intros i o b x. rewrite E. unfold holds, spec_drop_owner.
    setoid_rewrite list_elem_of_filter. specialize (Hh i o b x). unfold holds in Hh.
    destruct (Z.eqb_spec o owner) as [->|]; naive_solver.
Qed.

Lemma spec_lock_exclusion ino lock A :
  exclusion A -> ~ spec_conflict ino lock A ->
  exclusion (spec_set ino (rl_owner lock) (rl_range lock) (Some (rl_exclusive lock)) A).
Proof.
  intros He Hc i b o1 o2 x1 x2 Hne. unfold spec_set.
  assert (forall o x, o <> rl_owner lock -> in_lock_range (rl_range lock) b = true ->
            A ino o b = Some x -> x = false /\ rl_exclusive lock = false) as Hno.
  { intros o x Ho Hb HA. apply orb_false_iff. destruct (x || rl_exclusive lock) eqn:E; [|done].
    exfalso. apply Hc. by exists o, b, x. }
  destruct (Z.eqb_spec i ino) as [->|]; simpl; [|apply He; done].
  destruct (in_lock_range (rl_range lock) b) eqn:Hb; rewrite ?andb_false_r; [|apply He; done].
  destruct (Z.eqb_spec o1 (rl_owner lock)), (Z.eqb_spec o2 (rl_owner lock)); simpl; try congruence.
  - intros [= <-] HA. destruct (Hno o2 x2); auto.
  - intros HA [= <-]. destruct (Hno o1 x1); auto.
  - apply He; done.
Qed.

Lemma spec_drop_exclusion A A' :
  exclusion A -> (forall i o b x, A' i o b = Some x -> A i o b = Some x) -> exclusion A'.
Proof. intros He Hsub i b o1 o2 x1 x2 Hne H1 H2. apply (He i b o1 o2); auto. Qed.

(** * Properties *)

(** The calls that change the table. *)
Inductive lock_call : Type :=
| LockCall (ino : u64) (lock : RangeLock)
| UnlockCall (ino owner : u64) (range : LockRange)
| TeardownCall (owner : u64).

Definition lock_call_ok (c : lock_call) : Prop :=
  match c with
  | LockCall _ lock => range_nonempty (rl_range lock)
  | UnlockCall _ _ range => range_nonempty range
  | TeardownCall _ => True
  end.

Definition run_lock_call (t : RangeLockTable) (c : lock_call) : RangeLockTable :=
  match c with
  | LockCall ino lock => (RangeLockTable.try_lock ino lock t).2
  | UnlockCall ino owner range => RangeLockTable.unlock ino owner range t
  | TeardownCall owner => RangeLockTable.unlock_owner owner t
  end.

Lemma run_lock_call_models t A c :
  models t A -> exclusion A -> lock_call_ok c ->
  exists A', models (run_lock_call t c) A' /\ exclusion A'.
Proof.
  intros Hm He Hok. destruct c as [ino lock|ino owner range|owner]; simpl in *.
  - pose proof (try_lock_models ino lock t A Hm Hok) as H.
    destruct (RangeLockTable.try_lock ino lock t) as [[|] t']; simpl in *.
    + destruct H. eexists. split; [done|]. by apply spec_lock_exclusion.
    + destruct H as (_ & _ & ?). by exists A.
  - eexists. split; [by apply unlock_models|]. apply (spec_drop_exclusion A); [done|].
    intros i o b x. unfold spec_set. by case_match.
  - eexists. split; [by apply unlock_owner_models|]. apply (spec_drop_exclusion A); [done|].
    intros i o b x. unfold spec_drop_owner. by case_match.
Qed.

Lemma models_empty : models ∅ (fun _ _ _ => None).
Proof.
  split; [done|]. intros. rewrite lookup_empty. simpl. split; [|done]. intros H. by apply holds_nil in H.
Qed.

Definition run_lock_calls (calls : list lock_call) : RangeLockTable :=
  fold_left run_lock_call calls ∅.

Lemma run_lock_calls_models calls :
  Forall lock_call_ok calls -> exists A, models (run_lock_calls calls) A /\ exclusion A.
Proof.
  unfold run_lock_calls. intros Hok.
  assert (exists A, models (∅ : RangeLockTable) A /\ exclusion A) as (A & Hm & He).
  { eexists. split; [apply models_empty|done]. }
  revert A Hm He. generalize (∅ : RangeLockTable) as t.
  induction Hok as [|c calls Hc Hcs IH]; intros t A Hm He; simpl; [by exists A|].
  destruct (run_lock_call_models t A c) as (A' & ? & ?); [done..|]. by eapply IH.
Qed.

(** C37: from any state that tasks reach by locking with [write],
    [write_many], [write_range] or a rename, if some task is not idle then a
    running task can acquire its next lock or release, and every such move
    brings the system closer to all tasks being done: no deadlock, whatever
    the interleaving. *)
Theorem locks_deadlock_free n ts i t :
  lock_reachable n ts -> ts !! i = Some t -> t <> idle ->
  (exists ts', advance ts ts') /\
  (forall ts', advance ts ts' -> (total_steps ts' < total_steps ts)%nat).
Proof.
  intros Hr Hi Hne. split; [|apply advance_decreases].
  apply (advance_progress ts i t); [by eapply lock_reachable_inv|done..].
Qed.

Lemma locks_deadlock_free_witness :
  exists ts', advance [{| tk_held := []; tk_todo := write_many_stripes [7; 7; 9] |}; idle] ts'.
Proof.
  eapply (locks_deadlock_free 2 _ 0); [|reflexivity|discriminate].
  eapply rtc_once, (step_start [idle; idle] 0); [reflexivity|constructor].
Defined.

(** C38: while one task holds all the locks it took to change inode (or
    chunk) [x], whether by [write], [write_many], [write_range] or a rename in
    any of its rounds, no other task holds all the locks it takes to change
    [x]; and two renames never hold the rename mutex together.  Mutations of
    the same object, and renames, are serialised. *)
Theorem locks_serialise n ts i j t u :
  lock_reachable n ts -> ts !! i = Some t -> ts !! j = Some u -> i <> j ->
  (forall x, guards x (tk_held t) -> ~ guards x (tk_held u)) /\
  (RENAME_MUTEX ∈ tk_held t -> RENAME_MUTEX ∉ tk_held u).
Proof.
  intros Hr Hi Hj Hne. pose proof (li_excl ts (lock_reachable_inv n ts Hr) i j t u) as Hex. split.
  - intros x Ht Hu. by apply Hne, (Hex (stripe_of x)); [..|apply guards_stripe|apply guards_stripe].
  - intros Ht Hu. by apply Hne, (Hex RENAME_MUTEX).
Qed.

(** A rename of inode 7 in its second round beside a write of inode 8. *)
Lemma locks_serialise_witness :
  let rename := {| tk_held := RENAME_MUTEX :: write_many_stripes [7]; tk_todo := [] |} in
  let writer := {| tk_held := write_stripes 8; tk_todo := [] |} in
  guards 7 (tk_held rename) /\ guards 8 (tk_held writer) /\
  ~ guards 7 (tk_held writer) /\ RENAME_MUTEX ∉ tk_held writer.
Proof.
  intros rename writer.
  assert (lock_reachable 2 [rename; writer]) as Hr.
  { eapply rtc_l; [apply (step_start [idle; idle] 0 (RENAME_MUTEX :: write_many_stripes [])); [reflexivity|constructor]|].
    eapply rtc_l; [apply step_advance, (adv_acquire _ 0 [] RENAME_MUTEX []); [reflexivity|free_lock]|].
    eapply rtc_l; [apply (step_retry _ 0 [] [7]); reflexivity|].
    eapply rtc_l; [apply step_advance, (adv_acquire _ 0 [RENAME_MUTEX] (stripe_of 7) []); [reflexivity|free_lock]|].
    eapply rtc_l; [apply (step_start _ 1 (write_stripes 8)); [reflexivity|constructor]|].
    eapply rtc_l; [apply step_advance, (adv_acquire _ 1 [] (stripe_of 8) []); [reflexivity|free_lock]|].
    apply rtc_refl. }
  assert (guards 7 (tk_held rename)) as H7 by apply guards_rename, list_elem_of_here.
  destruct (locks_serialise 2 _ 0 1 rename writer Hr) as [Hx Hm]; [reflexivity..|discriminate|].
  split; [exact H7|]. split; [constructor|]. split; [exact (Hx 7 H7)|]. apply Hm, list_elem_of_here.
Defined.

(** C39: whatever sequence of lock, unlock and teardown calls built the
    table, two overlapping byte-range locks of different owners are both
    shared. *)
Theorem range_locks_exclusive calls ino ls l1 l2 :
  Forall lock_call_ok calls -> run_lock_calls calls !! ino = Some ls ->
  l1 ∈ ls -> l2 ∈ ls -> rl_owner l1 <> rl_owner l2 ->
  overlaps (rl_range l1) (rl_range l2) = true ->
  rl_exclusive l1 = false /\ rl_exclusive l2 = false.
Proof.
  intros Hok Ht H1 H2 Hne Hov.
  destruct (run_lock_calls_models calls Hok) as (A & [Hr Hm] & He).
  specialize (Hr ino ls Ht). pose proof (proj1 (Forall_forall _ ls) Hr) as Hr'.
  apply overlaps_spec in Hov as (b & Hb1 & Hb2); [|by apply Hr'..].
  apply (He ino b (rl_owner l1) (rl_owner l2)); [done|apply Hm..]; rewrite Ht; eexists; eauto.
Qed.

Lemma range_locks_exclusive_witness :
  let r1 := {| rl_owner := 1; rl_range := {| lr_start := 0; lr_end := 100 |}; rl_exclusive := false |} in
  let r2 := {| rl_owner := 2; rl_range := {| lr_start := 50; lr_end := 60 |}; rl_exclusive := false |} in
  rl_exclusive r1 = false /\ rl_exclusive r2 = false.
Proof.
  intros r1 r2. apply (range_locks_exclusive [LockCall 5 r1; LockCall 5 r2] 5 [r1; r2]).
  - repeat constructor.
  - vm_compute. reflexivity.
  - apply list_elem_of_here.
  - apply list_elem_of_further, list_elem_of_here.
  - discriminate.
  - reflexivity.
Defined.

(** [try_lock] grants exactly when no other owner holds a byte of the
    range in a conflicting mode; a grant gives the owner every byte of the
    range in the requested mode (upgrading or downgrading what it held) and
    changes nothing else; a refusal names a lock of the table and changes
    nothing.  [test] answers what [try_lock] would. *)
Theorem try_lock_exact calls ino lock :
  Forall lock_call_ok calls -> range_nonempty (rl_range lock) ->
  let t := run_lock_calls calls in
  let '(r, t') := RangeLockTable.try_lock ino lock t in
  (r = Ok tt <->
   forall o b x, o <> rl_owner lock -> in_lock_range (rl_range lock) b = true ->
     holds (default [] (t !! ino)) o b x -> x || rl_exclusive lock = false) /\
  (forall i o b x,
     holds (default [] (t' !! i)) o b x <->
     if is_ok r && (i =? ino) && (o =? rl_owner lock) && in_lock_range (rl_range lock) b
     then x = rl_exclusive lock else holds (default [] (t !! i)) o b x) /\
  RangeLockTable.test ino lock t = match r with Ok _ => None | Err c => Some c end.
Proof.
  intros Hok Hne t. destruct (run_lock_calls_models calls Hok) as (A & Hm & He). fold t in Hm.
  assert (RangeLockTable.test ino lock t =
    match (RangeLockTable.try_lock ino lock t).1 with Ok _ => None | Err c => Some c end) as Htest.
  { unfold RangeLockTable.test, RangeLockTable.try_lock. destruct (t !! ino); simpl; [|done].
    by destruct (RangeLockTable.find _ _). }
  pose proof (try_lock_models ino lock t A Hm Hne) as H.
  destruct (RangeLockTable.try_lock ino lock t) as [[[]|c] t']; simpl in Htest |- *.
  - destruct H as [Hc Hm']. split_and!; [|intros i o b x|done].
    + split; [|done]. intros _ o b x Ho Hb Hh. apply (mod_holds t A Hm) in Hh.
      destruct (x || rl_exclusive lock) eqn:E; [|done]. exfalso. apply Hc. by exists o, b, x.
    + rewrite (mod_holds _ _ Hm'). pose proof (mod_holds _ _ Hm i o b x). unfold spec_set.
      case_match; naive_solver.
  - destruct H as (Hc & Hin & Hm'). split_and!; [|intros i o b x|done].
    + split; [done|]. intros Hno. exfalso. destruct Hc as (o & b & x & Ho & Hb & HA & Hx).
      apply (mod_holds t A Hm) in HA. specialize (Hno o b x Ho Hb HA). congruence.
    + by rewrite (mod_holds _ _ Hm'), (mod_holds _ _ Hm).
Qed.

Lemma try_lock_exact_witness :
  let r1 := {| rl_owner := 1; rl_range := {| lr_start := 0; lr_end := 100 |}; rl_exclusive := true |} in
  let r2 := {| rl_owner := 2; rl_range := {| lr_start := 50; lr_end := 60 |}; rl_exclusive := false |} in
  RangeLockTable.test 5 r2 (run_lock_calls [LockCall 5 r1]) = Some r1.
Proof.
  intros r1 r2.
  pose proof (try_lock_exact [LockCall 5 r1] 5 r2 ltac:(repeat constructor) ltac:(reflexivity)) as H.
  exact (proj2 (proj2 H)).
Defined.

(** [unlock] releases the bytes of the range that the owner held and
    nothing else (splitting locks it cuts), and connection teardown releases
    everything of its owner and nothing else. *)
Theorem unlock_exact calls ino owner range :
  Forall lock_call_ok calls -> range_nonempty range ->
  let t := run_lock_calls calls in
  (forall i o b x,
     holds (default [] (RangeLockTable.unlock ino owner range t !! i)) o b x <->
     holds (default [] (t !! i)) o b x /\ ~ (i = ino /\ o = owner /\ in_lock_range range b = true)) /\
  (forall i o b x,
     holds (default [] (RangeLockTable.unlock_owner owner t !! i)) o b x <->
     holds (default [] (t !! i)) o b x /\ o <> owner).
Proof.
  intros Hok Hne t. destruct (run_lock_calls_models calls Hok) as (A & Hm & He). fold t in Hm.
  split; intros i o b x.
  - rewrite (mod_holds _ _ (unlock_models ino owner range t A Hm Hne)), (mod_holds _ _ Hm).
    unfold spec_set. destruct (Z.eqb_spec i ino), (Z.eqb_spec o owner), (in_lock_range range b); naive_solver.
  - rewrite (mod_holds _ _ (unlock_owner_models owner t A Hm)), (mod_holds _ _ Hm).
    unfold spec_drop_owner. destruct (Z.eqb_spec o owner); naive_solver.
Qed.

Lemma unlock_exact_witness :
  let r1 := {| rl_owner := 1; rl_range := {| lr_start := 0; lr_end := 100 |}; rl_exclusive := true |} in
  let r := {| lr_start := 40; lr_end := 60 |} in
  ~ holds (default [] (RangeLockTable.unlock 5 1 r (run_lock_calls [LockCall 5 r1]) !! 5)) 1 50 true.
Proof.
  intros r1 r H.
  apply (unlock_exact [LockCall 5 r1] 5 1 r ltac:(repeat constructor) ltac:(reflexivity)) in H.
  destruct H as [_ H]. apply H. repeat split; reflexivity.
Defined.
