(* ===== verification/Volume.v ===== *)
(** The mounted volume ([volume.rs]) and the parts it owns: health
    ([health.rs]), the attribute cache ([attrcache.rs]), the inode allocator
    ([meta/alloc.rs]), the open-file table and the name codec
    ([crypto/names.rs]). *)

From S2P Require Import Prelude Keys Meta Store Data Quota Locks.

(** * Health *)

Record VolumeHealth : Type := {
  h_fsid : option u64;
  h_dead : bool;
  h_fencing_events : u64;
  h_degraded : bool;
  h_storage_errors : u64
}.

Module VolumeHealth.

Definition new (fsid : option u64) : VolumeHealth :=
  {| h_fsid := fsid; h_dead := false; h_fencing_events := 0; h_degraded := false;
     h_storage_errors := 0 |}.

Definition ensure_live (h : VolumeHealth) : result FsError unit :=
  if h_dead h then Err Io else Ok tt.

Definition mark_fenced (h : VolumeHealth) : VolumeHealth :=
  {| h_fsid := h_fsid h; h_dead := true;
     h_fencing_events := if h_dead h then h_fencing_events h else as_u64 (h_fencing_events h + 1);
     h_degraded := h_degraded h; h_storage_errors := h_storage_errors h |}.

Definition mark_degraded (h : VolumeHealth) : VolumeHealth :=
  {| h_fsid := h_fsid h; h_dead := h_dead h; h_fencing_events := h_fencing_events h;
     h_degraded := true; h_storage_errors := as_u64 (h_storage_errors h + 1) |}.

Definition note_storage_error (error : SlateError) (h : VolumeHealth) : VolumeHealth :=
  match error with
  | Fenced => mark_fenced h
  | StorageFault => mark_degraded h
  end.

Definition note_core_error (error : Error) (h : VolumeHealth) : VolumeHealth :=
  match error with
  | SlateDb error => note_storage_error error h
  | ObjectStore | Crypto | Codec | EIo => mark_degraded h
  | ENotFound | AlreadyExists | EInvalid | Config | Versioning => h
  end.

Definition map_storage {T} (r : result SlateError T) (h : VolumeHealth) :
    result FsError T * VolumeHealth :=
  if h_dead h then (Err Io, h)
  else match r with
       | Ok value => (match ensure_live h with Ok _ => Ok value | Err e => Err e end, h)
       | Err error => (Err (fs_error_from_slatedb error), note_storage_error error h)
       end.

Definition map_core {T} (r : result Error T) (h : VolumeHealth) : result FsError T * VolumeHealth :=
  if h_dead h then (Err Io, h)
  else match r with
       | Ok value => (match ensure_live h with Ok _ => Ok value | Err e => Err e end, h)
       | Err error => (Err (fs_error_from_error error), note_core_error error h)
       end.

End VolumeHealth.

(** * The attribute and negative-dentry cache *)

(** [moka::sync::Cache], a third-party concurrent cache with a size bound: a
    [get] returns the value last inserted under the key, or nothing, since an
    insertion may evict any other entry. *)
Class MokaCache (K V : Type) : Type := {
  mk_cache : Type;
  mk_new : mk_cache;
  mk_get : mk_cache -> K -> option V;
  mk_insert : K -> V -> mk_cache -> mk_cache;
  mk_invalidate : K -> mk_cache -> mk_cache;
  mk_get_new k : mk_get mk_new k = None;
  mk_get_insert k v c k' w :
    mk_get (mk_insert k v c) k' = Some w -> (k' = k /\ w = v) \/ (k' <> k /\ mk_get c k' = Some w);
  mk_get_invalidate k c k' w :
    mk_get (mk_invalidate k c) k' = Some w -> k' <> k /\ mk_get c k' = Some w
}.
Arguments mk_cache K V {_}.

(** A cache that never evicts. *)
#[refine] Definition gmap_moka K V `{Countable K} : MokaCache K V := {|
  mk_cache := gmap K V;
  mk_new := ∅;
  mk_get c k := c !! k;
  mk_insert k v c := <[k := v]> c;
  mk_invalidate k c := delete k c
|}.
Proof.
  - done.
  - intros k v c k' w Hw. apply lookup_insert_Some in Hw as [[-> ->]|[? ?]]; auto.
  - intros k c k' w Hw. apply lookup_delete_Some in Hw as [? ?]; auto.
Defined.

Section attrcache.
Context {AC : MokaCache u64 Inode} {NC : MokaCache (u64 * bytes) unit}.

Record AttrCache : Type := {
  ac_attrs : mk_cache u64 Inode;
  ac_negative : mk_cache (u64 * bytes) unit
}.

Definition ac_default : AttrCache := {| ac_attrs := mk_new; ac_negative := mk_new |}.

Definition ac_get (ino : u64) (c : AttrCache) : option Inode := mk_get (ac_attrs c) ino.

Definition ac_insert (ino : u64) (inode : Inode) (c : AttrCache) : AttrCache :=
  {| ac_attrs := mk_insert ino inode (ac_attrs c); ac_negative := ac_negative c |}.

Definition ac_remove (ino : u64) (c : AttrCache) : AttrCache :=
  {| ac_attrs := mk_invalidate ino (ac_attrs c); ac_negative := ac_negative c |}.

Definition ac_is_negative (parent : u64) (name : bytes) (c : AttrCache) : bool :=
  match mk_get (ac_negative c) (parent, name) with Some _ => true | None => false end.

Definition ac_insert_negative (parent : u64) (name : bytes) (c : AttrCache) : AttrCache :=
  {| ac_attrs := ac_attrs c; ac_negative := mk_insert (parent, name) tt (ac_negative c) |}.

Definition ac_remove_negative (parent : u64) (name : bytes) (c : AttrCache) : AttrCache :=
  {| ac_attrs := ac_attrs c; ac_negative := mk_invalidate (parent, name) (ac_negative c) |}.
End attrcache.

Arguments AttrCache {AC NC}.

(** * The inode allocator *)

Definition LEASE_SIZE : u64 := 65536.

Record AllocState : Type := { al_next : u64; al_lease_end : u64 }.

Definition allocate (s : AllocState) : (u64 * option u64) * AllocState :=
  let ino := al_next s in
  let next := as_u64 (al_next s + 1) in
  if next =? al_lease_end s then
    let lease_end := as_u64 (al_lease_end s + LEASE_SIZE) in
    ((ino, Some lease_end), {| al_next := next; al_lease_end := lease_end |})
  else ((ino, None), {| al_next := next; al_lease_end := al_lease_end s |}).

(** The bytes of a key's value, at their fixed width. *)
Definition mark_of (v : Value) : option u64 :=
  let b := value_bytes v in if len b =? 8 then Some (from_be b) else None.

Definition InodeAllocator_load {DB : SlateDB} : ST Engine Error AllocState :=
  o <- lift_db (get KNextIno) ;;
  mark <- st_lift (match o with
                   | Some v => ok_or (mark_of v) EInvalid
                   | None => Err EInvalid
                   end) ;;
  lease_end <- st_lift (ok_or (checked_add_u64 mark LEASE_SIZE) EInvalid) ;;
  lift_db (put KNextIno (VBytes (to_be 8 lease_end))) ;;;
  st_ret {| al_next := mark; al_lease_end := lease_end |}.

(** * Open handles *)

Record HandleTable : Type := {
  ht_next : u64;
  ht_by_handle : gmap u64 (u64 * OpenMode);
  ht_open_count : gmap u64 u32
}.

Module HandleTable.

Definition empty : HandleTable := {| ht_next := 0; ht_by_handle := ∅; ht_open_count := ∅ |}.

Definition open (ino : u64) (mode : OpenMode) (t : HandleTable) : u64 * HandleTable :=
  let next := as_u64 (ht_next t + 1) in
  (next, {| ht_next := next;
            ht_by_handle := <[next := (ino, mode)]> (ht_by_handle t);
            ht_open_count :=
              <[ino := as_u32 (default 0 (ht_open_count t !! ino) + 1)]> (ht_open_count t) |}).

Definition close (handle : u64) (t : HandleTable) : option (u64 * OpenMode * bool) * HandleTable :=
  match ht_by_handle t !! handle with
  | None => (None, t)
  | Some (ino, mode) =>
      let by_handle := delete handle (ht_by_handle t) in
      match ht_open_count t !! ino with
      | None => (None, {| ht_next := ht_next t; ht_by_handle := by_handle;
                          ht_open_count := ht_open_count t |})
      | Some count =>
          let count := as_u32 (count - 1) in
          let last := count =? 0 in
          (Some (ino, mode, last),
           {| ht_next := ht_next t; ht_by_handle := by_handle;
              ht_open_count := if last then delete ino (ht_open_count t)
                               else <[ino := count]> (ht_open_count t) |})
      end
  end.

Definition is_open (ino : u64) (t : HandleTable) : bool :=
  match ht_open_count t !! ino with Some _ => true | None => false end.

Definition get (handle : u64) (t : HandleTable) : option (u64 * OpenMode) :=
  ht_by_handle t !! handle.

End HandleTable.

(** * Name encryption *)

(** HKDF-SHA256 and AES-SIV, from third-party crates: key derivation yields
    the requested length (at most 255 blocks of 32 bytes), and decryption inverts encryption under the same
    key. *)
Class NameCrypto : Type := {
  hkdf_expand : bytes -> bytes -> nat -> bytes;
  siv_encrypt : bytes -> bytes -> option bytes;
  siv_decrypt : bytes -> bytes -> option bytes;
  hkdf_length dek info n : Z.of_nat n <= 255 * 32 -> length (hkdf_expand dek info n) = n;
  siv_encrypt_some k name : length k = 64%nat -> len name <= MAX_NAME_LEN -> is_Some (siv_encrypt k name);
  siv_roundtrip k name c : siv_encrypt k name = Some c -> siv_decrypt k c = Some name
}.

(** ["slatefs/dirname/v1"] *)
Definition DIR_KEY_INFO : bytes :=
  [115; 108; 97; 116; 101; 102; 115; 47; 100; 105; 114; 110; 97; 109; 101; 47; 118; 49].

Record NameCodec : Type := { nc_dek : bytes }.

Section names.
Context {NCR : NameCrypto}.

Definition dir_key (c : NameCodec) (parent_ino : u64) : bytes :=
  hkdf_expand (nc_dek c) (DIR_KEY_INFO ++ to_be 8 parent_ino) 64.

Definition seal_name (c : NameCodec) (parent_ino : u64) (name : bytes) : result Error bytes :=
  let key := dir_key c parent_ino in
  if len key =? 64 then ok_or (siv_encrypt key name) Crypto else Err Crypto.

Definition open_name (c : NameCodec) (parent_ino : u64) (enc_name : bytes) : result Error bytes :=
  let key := dir_key c parent_ino in
  if len key =? 64 then ok_or (siv_decrypt key enc_name) Crypto else Err Crypto.

Lemma dir_key_len c p : (len (dir_key c p) =? 64) = true.
Proof. apply Z.eqb_eq. unfold len, dir_key. rewrite hkdf_length; lia. Qed.

Lemma seal_name_ok c p name : len name <= MAX_NAME_LEN -> exists enc, seal_name c p name = Ok enc.
Proof.
  intros Hn. unfold seal_name. rewrite dir_key_len.
  destruct (siv_encrypt_some (dir_key c p) name) as [enc E]; [apply hkdf_length; lia|done|].
  rewrite E. by exists enc.
Qed.

Lemma open_seal c p name enc : seal_name c p name = Ok enc -> open_name c p enc = Ok name.
Proof.
  unfold seal_name, open_name. rewrite dir_key_len.
  destruct (siv_encrypt _ name) as [e|] eqn:E; simpl; [|done]. intros [= ->].
  by rewrite (siv_roundtrip _ _ _ E).
Qed.

Lemma seal_name_inj c p n1 n2 enc :
  seal_name c p n1 = Ok enc -> seal_name c p n2 = Ok enc -> n1 = n2.
Proof. intros H1%open_seal H2%open_seal. congruence. Qed.
End names.

(** * Volume records and superblocks *)

Inductive VolumeState : Type := Creating | Active | Deleting.

#[global] Instance volume_state_eq_dec : EqDecision VolumeState.
Proof. solve_decision. Defined.

Record CloneParent : Type := { cp_tenant : bytes; cp_volume : bytes }.

Inductive Compression : Type := CNone | Lz4 | Zstd.

Record VolumeRecord : Type := {
  vr_tenant : bytes;
  vr_name : bytes;
  vr_state : VolumeState;
  vr_clone_parent : option CloneParent;
  vr_clone_parent_checkpoint_ids : option (list bytes);
  vr_fsid : u64;
  vr_wrapped_dek : bytes;
  vr_cipher : Cipher;
  vr_chunk_size : u32;
  vr_compression : Compression;
  vr_quota : QuotaLimits;
  vr_kind : VolumeKind;
  vr_note : option bytes;
  vr_created_at : u64
}.

Definition BLOCK_SECTOR_SIZE : u64 := 4096.

Definition validate_block_size (size_bytes : u64) (chunk_size : u32) : result Error unit :=
  if size_bytes =? 0 then Err EInvalid
  else if negb (size_bytes mod BLOCK_SECTOR_SIZE =? 0) then Err EInvalid
  else if chunk_size =? 0 then Err EInvalid
  else
    let max := chunk_size * (U32_MAX + 1) in
    if max <? size_bytes then Err EInvalid else Ok tt.

Definition verify_superblock_matches_record (record : VolumeRecord) (superblock : Superblock) :
    result Error unit :=
  if negb (sb_fsid superblock =? vr_fsid record) then Err EInvalid
  else if negb (bool_decide (sb_cipher superblock = vr_cipher record)) then Err EInvalid
  else if negb (sb_chunk_size superblock =? vr_chunk_size record) then Err EInvalid
  else if negb (bool_decide (sb_kind superblock = vr_kind record)) then Err EInvalid
  else match sb_kind superblock with
       | Block size_bytes => validate_block_size size_bytes (sb_chunk_size superblock)
       | Filesystem => Ok tt
       end.

Definition is_filesystem (k : VolumeKind) : bool :=
  match k with Filesystem => true | Block _ => false end.

Section lifecycle.
Context {DB : SlateDB}.

(** ** mkfs *)

(** [db.close()] *)
Definition close_db : EM unit := poll.

Definition mkfs_batch (record : VolumeRecord) (ts : Timespec) : WriteBatch :=
  let superblock :=
    {| sb_fsid := vr_fsid record; sb_cipher := vr_cipher record;
       sb_chunk_size := vr_chunk_size record; sb_name_enc := is_filesystem (vr_kind record);
       sb_created_at := vr_created_at record; sb_kind := vr_kind record |} in
  [Put KSuperblock (VSuperblock superblock)] ++
  (if is_filesystem (vr_kind record) then
     let root := set_i_parent_dir ROOT_INO (Inode_new Dir o755 0 0 ts) in
     [Put (KInode ROOT_INO) (VInode root); Put KNextIno (VBytes (to_be 8 (ROOT_INO + 1)))]
   else []) ++
  [Merge KQuotaInodes (encode_delta 1)].

Definition mkfs_body (record : VolumeRecord) : ST Engine Error unit :=
  o <- lift_db (get KSuperblock) ;;
  match o with
  | Some v =>
      existing <- st_lift (SuperblockV_decode v) ;;
      st_lift (verify_superblock_matches_record record existing)
  | None =>
      ts <- (if is_filesystem (vr_kind record) then clock_now else st_ret ZERO) ;;
      lift_db (write (mkfs_batch record ts)) ;;;
      lift_db flush
  end.

Definition mkfs (record : VolumeRecord) : ST Engine Error unit :=
  r <- st_try (mkfs_body record) ;;
  lift_db close_db ;;;
  st_lift r.

(** ** The orphan reaper *)

Definition BATCH : usize := 1024.

(** An engine call in a computation with unbounded loops. *)
Definition lift_h {A} (m : EM A) : ST Engine (Halt Error) A :=
  st_map_err (fun e => Raise (SlateDb e)) m.

(** Collect deletes of the scanned keys, at most [BATCH]. *)
Definition reap_step (acc : WriteBatch * usize) (kv : Key * Value) :
    (WriteBatch * usize) + (WriteBatch * usize) :=
  let '(batch, n) := acc in
  let batch := batch ++ [Delete kv.1] in
  let n := n + 1 in
  if n =? BATCH then inl (batch, n) else inr (batch, n).

Fixpoint reap_chunks (fuel : nat) (ino : u64) : ST Engine (Halt Error) unit :=
  match fuel with
  | O => st_fail OutOfFuel
  | S fuel =>
      it <- lift_h (scan (Some (keys.chunk_prefix ino)) (Some (keys.chunk_prefix (ino + 1)))) ;;
      let* (batch, n) := lift_h (iter_loop reap_step ([], 0) it) in
      if n =? 0 then st_ret tt
      else
        lift_h (write batch) ;;;
        if n <? BATCH then st_ret tt else reap_chunks fuel ino
  end.

Definition reap_orphan_data (fuel : nat) (ino : u64) : ST Engine (Halt Error) unit :=
  reap_chunks fuel ino ;;;
  it <- lift_h (scan (Some (keys.xattr_prefix ino)) (Some (keys.xattr_prefix (ino + 1)))) ;;
  batch <- lift_h (iter_loop (fun b kv => inr (b ++ [Delete kv.1])) [] it) ;;
  lift_h (write (batch ++ [Delete (KSymlink ino); Delete (KOrphan ino)])).

(** [-(inode.billed_bytes as i64)] *)
Definition neg_billed (inode : Inode) : i64 := as_i64 (- as_i64 (i_billed_bytes inode)).

(** The orphan markers of the volume; a marker that does not decode stops the
    scan. *)
Definition orphan_step (acc : result Error (list u64)) (kv : Key * Value) :
    result Error (list u64) + result Error (list u64) :=
  match acc with
  | Err e => inl (Err e)
  | Ok orphans =>
      match keys.parse_ino (key_bytes kv.1) with
      | Some ino =>
          match Orphan_decode kv.2 with
          | Ok _ => inr (Ok (orphans ++ [ino]))
          | Err e => inl (Err e)
          end
      | None => inr (Ok orphans)
      end
  end.

(** The batch that settles the quota of an orphan and drops its inode. *)
Definition settle_batch (ino : u64) (inode : Inode) : WriteBatch :=
  [Delete (KInode ino); Merge KQuotaBytes (encode_delta (neg_billed inode));
   Merge KQuotaInodes (encode_delta (-1))].

Definition reap_one (fuel : nat) (ino : u64) : ST Engine (Halt Error) unit :=
  o <- lift_h (get (KInode ino)) ;;
  match o with
  | Some v =>
      inode <- st_lift (map_err Raise (Inode_decode v)) ;;
      lift_h (write (settle_batch ino inode))
  | None => st_ret tt
  end ;;;
  reap_orphan_data fuel ino.

Definition reap_crashed_orphans (fuel : nat) : ST Engine (Halt Error) unit :=
  it <- lift_h (scan (Some keys.ORPHAN_PREFIX) (Some [112])) ;;
  r <- lift_h (iter_loop orphan_step (Ok []) it) ;;
  orphans <- st_lift (map_err Raise r) ;;
  st_iter (reap_one fuel) orphans.
End lifecycle.

(** * The volume *)

Record ReadAheadState : Type := { ra_expected : u64; ra_prefetched_to : u32 }.

Section volume.
Context {DB : SlateDB} {AC : MokaCache u64 Inode} {NC : MokaCache (u64 * bytes) unit}.

(** [struct Volume]; the lock manager's stripes are the subject of [Locks],
    and [v_waits] counts the lock waits so far. *)
Record Volume : Type := mkVolume {
  v_eng : Engine;
  v_superblock : Superblock;
  v_health : VolumeHealth;
  v_names : NameCodec;
  v_range_locks : RangeLockTable;
  v_quota : QuotaTracker;
  v_alloc : AllocState;
  v_handles : HandleTable;
  v_chunk_size : u64;
  v_attrs : AttrCache;
  v_readahead : gmap u64 ReadAheadState;
  v_waits : nat
}.

Definition set_eng (e : Engine) (v : Volume) : Volume :=
  mkVolume e (v_superblock v) (v_health v) (v_names v) (v_range_locks v) (v_quota v) (v_alloc v)
    (v_handles v) (v_chunk_size v) (v_attrs v) (v_readahead v) (v_waits v).
Definition set_health (h : VolumeHealth) (v : Volume) : Volume :=
  mkVolume (v_eng v) (v_superblock v) h (v_names v) (v_range_locks v) (v_quota v) (v_alloc v)
    (v_handles v) (v_chunk_size v) (v_attrs v) (v_readahead v) (v_waits v).
Definition set_range_locks (t : RangeLockTable) (v : Volume) : Volume :=
  mkVolume (v_eng v) (v_superblock v) (v_health v) (v_names v) t (v_quota v) (v_alloc v)
    (v_handles v) (v_chunk_size v) (v_attrs v) (v_readahead v) (v_waits v).
Definition set_quota (q : QuotaTracker) (v : Volume) : Volume :=
  mkVolume (v_eng v) (v_superblock v) (v_health v) (v_names v) (v_range_locks v) q (v_alloc v)
    (v_handles v) (v_chunk_size v) (v_attrs v) (v_readahead v) (v_waits v).
Definition set_alloc (a : AllocState) (v : Volume) : Volume :=
  mkVolume (v_eng v) (v_superblock v) (v_health v) (v_names v) (v_range_locks v) (v_quota v) a
    (v_handles v) (v_chunk_size v) (v_attrs v) (v_readahead v) (v_waits v).
Definition set_handles (t : HandleTable) (v : Volume) : Volume :=
  mkVolume (v_eng v) (v_superblock v) (v_health v) (v_names v) (v_range_locks v) (v_quota v)
    (v_alloc v) t (v_chunk_size v) (v_attrs v) (v_readahead v) (v_waits v).
Definition set_attrs (c : AttrCache) (v : Volume) : Volume :=
  mkVolume (v_eng v) (v_superblock v) (v_health v) (v_names v) (v_range_locks v) (v_quota v)
    (v_alloc v) (v_handles v) (v_chunk_size v) c (v_readahead v) (v_waits v).
Definition set_readahead (r : gmap u64 ReadAheadState) (v : Volume) : Volume :=
  mkVolume (v_eng v) (v_superblock v) (v_health v) (v_names v) (v_range_locks v) (v_quota v)
    (v_alloc v) (v_handles v) (v_chunk_size v) (v_attrs v) r (v_waits v).
Definition set_waits (n : nat) (v : Volume) : Volume :=
  mkVolume (v_eng v) (v_superblock v) (v_health v) (v_names v) (v_range_locks v) (v_quota v)
    (v_alloc v) (v_handles v) (v_chunk_size v) (v_attrs v) (v_readahead v) n.

(** The records of the volume. *)
Definition store (v : Volume) : gmap Key Value := contents (e_db (v_eng v)).

(** [Volume::open_with_caches], on the engine that [open_volume_db] returned:
    verify the superblock, reap crash leftovers, then load the counters and
    the allocator. *)
Definition Volume_open (fuel : nat) (record : VolumeRecord) (dek : bytes) :
    ST Engine (Halt Error) Volume :=
  if negb (bool_decide (vr_state record = Active)) then st_fail (Raise EInvalid)
  else
    o <- lift_h (get KSuperblock) ;;
    superblock <- st_lift (map_err Raise (match o with
                                          | Some v => SuperblockV_decode v
                                          | None => Err EInvalid
                                          end)) ;;
    match verify_superblock_matches_record record superblock with
    | Err e => lift_h close_db ;;; st_fail (Raise e)
    | Ok _ =>
        if negb (is_filesystem (sb_kind superblock)) then
          lift_h close_db ;;; st_fail (Raise EInvalid)
        else
          reap_crashed_orphans fuel ;;;
          qb <- lift_h (get KQuotaBytes) ;;
          qi <- lift_h (get KQuotaInodes) ;;
          alloc <- st_map_err Raise InodeAllocator_load ;;
          s <- st_get ;;
          st_ret (mkVolume s superblock (VolumeHealth.new (Some (sb_fsid superblock)))
                    {| nc_dek := dek |} ∅
                    (QuotaTracker.new (decode_counter (value_bytes <$> qb))
                       (decode_counter (value_bytes <$> qi)) (vr_quota record))
                    alloc HandleTable.empty (sb_chunk_size superblock) ac_default ∅ 0)
    end.
End volume.

Arguments Volume {DB AC NC}.
