(* ===== verification/Vfs.v ===== *)
(** The [Vfs] implementation on [Volume] ([vfs_impl.rs]): every operation of
    the trait, whole, as a computation over the volume state.

    [others] is what the rest of the process does to the volume while an
    operation waits for its locks; [fuel] bounds the loops the source leaves
    unbounded (lock-and-revalidate retries, the ancestor walk of a rename,
    batched chunk reaping). *)

From S2P Require Import Prelude Keys Meta Store Data Quota Locks Volume.

Definition ACCESS_R : u32 := 4.
Definition ACCESS_W : u32 := 2.
Definition ACCESS_X : u32 := 1.
Definition NOMINAL_BYTES : u64 := Z.shiftl 1 60.
Definition NOMINAL_INODES : u64 := Z.shiftl 1 32.
Definition STATFS_BSIZE : u32 := 4096.
Definition MAX_XATTR_VALUE : usize := 64 * 1024.
Definition READAHEAD_WINDOW_CHUNKS : u32 := 8.
Definition RELATIME_SECS : i64 := 24 * 3600.
Definition NANOS_PER_SEC : Z := 1000000000.
Definition RELATIME_NANOS : Z := RELATIME_SECS * NANOS_PER_SEC.
Definition INLINE_DELETES : usize := 1024.

(** * Pure helpers *)

Definition older_than (atime now : Timespec) (age_nanos : Z) : bool :=
  age_nanos <? (secs now - secs atime) * NANOS_PER_SEC + nanos now - nanos atime.

Definition atime_update_due (policy : AtimeMode) (inode : Inode) (ts : Timespec) : bool :=
  match policy with
  | Strict => true
  | Relatime =>
      timespec_ltb (i_atime inode) (i_mtime inode) || timespec_ltb (i_atime inode) (i_ctime inode) ||
      older_than (i_atime inode) ts RELATIME_NANOS
  | Noatime => false
  end.

Definition DOT : bytes := [46].
Definition DOTDOT : bytes := [46; 46].

Definition validate_name (name : bytes) : result FsError unit :=
  if bool_decide (name = []) || bool_decide (name = DOT) || bool_decide (name = DOTDOT) then
    Err Invalid
  else if MAX_NAME_LEN <? len name then Err NameTooLong
  else if existsb (Z.eqb 47) name || existsb (Z.eqb 0) name then Err Invalid
  else Ok tt.

Definition access (creds : Credentials) (inode : Inode) (want : u32) : result FsError unit :=
  if is_privileged creds then Ok tt
  else
    let bits :=
      if c_uid creds =? i_uid inode then Z.land (Z.shiftr (i_mode inode) 6) 7
      else if in_group creds (i_gid inode) then Z.land (Z.shiftr (i_mode inode) 3) 7
      else Z.land (i_mode inode) 7 in
    if Z.land bits want =? want then Ok tt else Err AccessDenied.

Definition readahead_scan_bounds (prefetched_to cur_chunk last_file_chunk : u32) :
    option (u32 * u32) :=
  let wanted := Z.min (saturating_add_u32 cur_chunk READAHEAD_WINDOW_CHUNKS) last_file_chunk in
  if (wanted <=? prefetched_to) || (saturating_add_u32 cur_chunk 2 <? prefetched_to) then None
  else
    let from := saturating_add_u32 (Z.max prefetched_to cur_chunk) 1 in
    if wanted <? from then None else Some (from, saturating_add_u32 wanted 1).

Definition check_sticky (creds : Credentials) (parent child : Inode) : result FsError unit :=
  if negb (Z.land (i_mode parent) o1000 =? 0) && negb (is_privileged creds) &&
     negb (c_uid creds =? i_uid child) && negb (c_uid creds =? i_uid parent)
  then Err NotPermitted else Ok tt.

(** [div_ceil(512)] *)
Definition blocks_of (billed : u64) : u64 := (billed + 511) / 512.

Definition make_attr (ino : u64) (inode : Inode) : FileAttr :=
  {| a_ino := ino; a_kind := i_kind inode; a_mode := i_mode inode; a_nlink := i_nlink inode;
     a_uid := i_uid inode; a_gid := i_gid inode; a_size := i_size inode;
     a_atime := i_atime inode; a_mtime := i_mtime inode; a_ctime := i_ctime inode;
     a_rdev := i_rdev inode; a_generation := i_generation inode;
     a_blocks := blocks_of (i_billed_bytes inode) |}.

Definition new_node_ids (creds : Credentials) (parent : Inode) (kind : FileKind) (mode : u32) :
    u32 * u32 * u32 :=
  let uid := c_uid creds in
  let setgid := negb (Z.land (i_mode parent) o2000 =? 0) in
  let gid := if setgid then i_gid parent else c_gid creds in
  let mode := if is_dir kind && setgid then Z.lor mode o2000 else mode in
  (uid, gid, mode).

Definition opt_ok {A} (o : option A) : bool := match o with Some _ => true | None => false end.

(** One of the two timestamps of a [setattr]. *)
Definition set_time (creds : Credentials) (is_owner is_atime : bool) (ts : Timespec)
    (slot : option TimeSet) (inode : Inode) : result FsError Inode :=
  let put t := if is_atime : bool then set_i_atime t inode else set_i_mtime t inode in
  match slot with
  | None => Ok inode
  | Some TNow =>
      if negb (is_privileged creds) && negb is_owner then
        match access creds inode ACCESS_W with Ok _ => Ok (put ts) | Err e => Err e end
      else Ok (put ts)
  | Some (TTime t) =>
      if negb (is_privileged creds) && negb is_owner then Err NotPermitted else Ok (put t)
  end.

Definition set_mode (creds : Credentials) (is_owner : bool) (mode : option u32) (inode : Inode) :
    result FsError Inode :=
  match mode with
  | None => Ok inode
  | Some mode =>
      if negb (is_privileged creds) && negb is_owner then Err NotPermitted
      else
        let mode := Z.land mode o7777 in
        let mode := if negb (is_privileged creds) && negb (in_group creds (i_gid inode))
                    then Z.ldiff mode o2000 else mode in
        Ok (set_i_mode mode inode)
  end.

Definition set_uid (creds : Credentials) (is_owner : bool) (uid : option u32) (inode : Inode) :
    result FsError Inode :=
  match uid with
  | None => Ok inode
  | Some uid =>
      let allowed := is_privileged creds || (is_owner && (uid =? i_uid inode)) in
      if negb allowed then Err NotPermitted else Ok (set_i_uid uid inode)
  end.

Definition set_gid (creds : Credentials) (is_owner : bool) (gid : option u32) (inode : Inode) :
    result FsError Inode :=
  match gid with
  | None => Ok inode
  | Some gid =>
      let owner_with_group := is_owner && ((gid =? i_gid inode) || in_group creds gid) in
      if negb (is_privileged creds) && negb owner_with_group then Err NotPermitted
      else
        let inode := if negb (is_root creds) && negb (gid =? i_gid inode)
                     then set_i_mode (Z.ldiff (i_mode inode) o6000) inode else inode in
        Ok (set_i_gid gid inode)
  end.

Definition result_bind {E A B} (r : result E A) (f : A -> result E B) : result E B :=
  match r with Ok a => f a | Err e => Err e end.

(** The permission gates of [setattr] and the fields they set. *)
Definition setattr_fields (creds : Credentials) (attrs : SetAttrs) (ts : Timespec) (inode : Inode) :
    result FsError Inode :=
  let is_owner := c_uid creds =? i_uid inode in
  result_bind (set_mode creds is_owner (s_mode attrs) inode) (fun inode =>
  result_bind (set_uid creds is_owner (s_uid attrs) inode) (fun inode =>
  result_bind (set_gid creds is_owner (s_gid attrs) inode) (fun inode =>
  result_bind (set_time creds is_owner true ts (s_atime attrs) inode) (fun inode =>
  set_time creds is_owner false ts (s_mtime attrs) inode)))).

(** [slice.chunks(n)] *)
Fixpoint groups {A} (fuel : nat) (n : nat) (l : list A) : list (list A) :=
  match fuel, l with
  | S fuel, _ :: _ => take n l :: groups fuel n (drop n l)
  | _, _ => []
  end.
Definition chunks_of {A} (n : nat) (l : list A) : list (list A) := groups (length l) n l.

(** [(billed as i64 + delta) as u64] *)
Definition rebill (billed : u64) (delta : i64) : u64 := as_u64 (as_i64 billed + delta).

Section vfs.
Context {DB : SlateDB} {AC : MokaCache u64 Inode} {NC : MokaCache (u64 * bytes) unit}
  {NCR : NameCrypto}.
(** What other tasks do during the [n]-th lock wait. *)
Context (others : nat -> Volume -> Volume) (fuel : nat).

Definition FsM : Type -> Type := ST Volume (Halt FsError).

Definition fail {A} (e : FsError) : FsM A := st_fail (Raise e).
(** [expr?] on a [FsResult] *)
Definition guard {A} (r : result FsError A) : FsM A := st_lift (map_err Raise r).
(** [expr?] on a core [Result], converted by [From]. *)
Definition core {A} (r : result Error A) : FsM A := guard (map_err fs_error_from_error r).
(** [.map_err(|_| e)] *)
Definition or_else {A} (e : FsError) (m : FsM A) : FsM A :=
  st_map_err (halt_map (fun _ => e)) m.

Definition ensure_live : FsM unit := fun v =>
  (map_err Raise (VolumeHealth.ensure_live (v_health v)), v).

(** Await an engine call, then [map_storage] its result. *)
Definition storage {A} (m : EM A) : FsM A := fun v =>
  let '(r, e) := m (v_eng v) in
  let '(r, h) := VolumeHealth.map_storage r (v_health v) in
  (map_err Raise r, set_health h (set_eng e v)).

(** Await a core call, then [map_core] its result. *)
Definition map_core {A} (m : ST Engine Error A) : FsM A := fun v =>
  let '(r, e) := m (v_eng v) in
  let '(r, h) := VolumeHealth.map_core r (v_health v) in
  (map_err Raise r, set_health h (set_eng e v)).

(** [core_call.await?]: the error is converted, the health does not see it. *)
Definition core_await {A} (m : ST Engine (Halt Error) A) : FsM A := fun v =>
  let '(r, e) := m (v_eng v) in
  (map_err (halt_map fs_error_from_error) r, set_eng e v).

Definition now : FsM Timespec := fun v =>
  let '(r, e) := clock_now (E := Halt FsError) (v_eng v) in (r, set_eng e v).

(** [now_unix()] *)
Definition now_unix : FsM u64 := t <- now ;; st_ret (Z.max 0 (secs t)).

(** Wait for the locks of an operation: the other tasks run. *)
Definition lock_wait : FsM unit := fun v =>
  (Ok tt, others (v_waits v) (set_waits (S (v_waits v)) v)).

Definition cache (f : AttrCache -> AttrCache) : FsM unit :=
  st_modify (fun v => set_attrs (f (v_attrs v)) v).

Definition reserve (bytes_delta inode_delta : i64) : FsM unit :=
  t <- now_unix ;;
  fun v => let '(r, q) := QuotaTracker.reserve bytes_delta inode_delta t (v_quota v) in
           (map_err Raise r, set_quota q v).

Definition release (bytes_delta inode_delta : i64) : FsM unit :=
  st_modify (fun v => set_quota (QuotaTracker.release bytes_delta inode_delta (v_quota v)) v).

(** [let _ = expr] *)
Definition ignore (m : FsM unit) : FsM unit := st_try m ;;; st_ret tt.

(** * Storage access *)

Definition db_get (k : Key) : FsM (option Value) := ensure_live ;;; storage (get k).

Definition db_scan (lo hi : bytes) : FsM (list (Key * Value)) :=
  ensure_live ;;; storage (scan (Some lo) (Some hi)).

Definition vfs_iter_next (it : list (Key * Value)) :
    FsM (option ((Key * Value) * list (Key * Value))) :=
  ensure_live ;;; storage (iter_next it).

Definition commit (batch : WriteBatch) : FsM unit :=
  ensure_live ;;; storage (write batch).

(** [if let Err(e) = self.commit(batch) { undo; return Err(e) }] *)
Definition commit_or (batch : WriteBatch) (undo : FsM unit) : FsM unit :=
  r <- st_try (commit batch) ;;
  match r with
  | Ok _ => st_ret tt
  | Err e => undo ;;; st_fail e
  end.

Definition load_inode (ino : u64) : FsM Inode :=
  o <- db_get (KInode ino) ;;
  match o with
  | Some v => core (Inode_decode v)
  | None => fail Stale
  end.

Definition load_inode_cached (ino : u64) : FsM Inode :=
  ensure_live ;;;
  v <- st_get ;;
  match ac_get ino (v_attrs v) with
  | Some inode => st_ret inode
  | None =>
      inode <- load_inode ino ;;
      cache (ac_insert ino inode) ;;;
      st_ret inode
  end.

Definition check_dir (inode : Inode) : FsM Inode :=
  if is_dir (i_kind inode) then st_ret inode else fail NotDir.

Definition load_dir (ino : u64) : FsM Inode := inode <- load_inode ino ;; check_dir inode.
Definition load_dir_cached (ino : u64) : FsM Inode :=
  inode <- load_inode_cached ino ;; check_dir inode.

Definition seal (parent : u64) (name : bytes) : FsM bytes :=
  v <- st_get ;; core (seal_name (v_names v) parent name).

Definition dirent_of (parent : u64) (name : bytes) : FsM (option Dirent) :=
  enc <- seal parent name ;;
  o <- db_get (KDirent parent enc) ;;
  match o with
  | Some v => d <- core (Dirent_decode v) ;; st_ret (Some d)
  | None => st_ret None
  end.

Definition alloc_ino : FsM u64 :=
  ensure_live ;;;
  let* (ino, renew) := (fun v => let '(r, a) := allocate (v_alloc v) in (Ok r, set_alloc a v)) in
  match renew with
  | Some lease_end =>
      storage (put KNextIno (VBytes (to_be 8 lease_end))) ;;; st_ret ino
  | None => st_ret ino
  end.

(** * Shared paths *)

Definition entry_puts (parent : u64) (enc name : bytes) (child : u64) (kind : FileKind)
    (dirent_id : u64) : WriteBatch :=
  [Put (KDirent parent enc)
     (VDirent {| d_name := name; d_child_ino := child; d_kind := kind; d_dirent_id := dirent_id |});
   Put (KDirentIdx parent dirent_id)
     (VDirentIdx {| e_enc_name := enc; e_child_ino := child; e_kind := kind |})].

Definition insert_new_node (parent_ino : u64) (parent : Inode) (name : bytes) (child_ino : u64)
    (child : Inode) (symlink_target : option bytes) : FsM unit :=
  reserve 0 1 ;;;
  ts <- now ;;
  let dirent_id := i_next_dirent_id parent in
  let parent := set_i_next_dirent_id (as_u64 (i_next_dirent_id parent + 1)) parent in
  let parent := touch_mtime ts parent in
  let parent := if is_dir (i_kind child) then set_i_nlink (as_u32 (i_nlink parent + 1)) parent
                else parent in
  enc <- seal parent_ino name ;;
  let batch :=
    [Put (KInode child_ino) (VInode child)] ++
    entry_puts parent_ino enc name child_ino (i_kind child) dirent_id ++
    [Put (KInode parent_ino) (VInode parent)] ++
    match symlink_target with Some target => [Put (KSymlink child_ino) (VBytes target)] | None => [] end ++
    [Merge KQuotaInodes (encode_delta 1)] in
  commit_or batch (release 0 1) ;;;
  cache (ac_insert child_ino child) ;;;
  cache (ac_insert parent_ino parent) ;;;
  cache (ac_remove_negative parent_ino name).

(** What [bury_inode] appends to the batch, and what the caller must do. *)
Definition bury_inode (ino : u64) (inode : Inode) : FsM (WriteBatch * (bool * i64 * i64)) :=
  let marker := Put (KOrphan ino) (VOrphan {| o_size := i_size inode; o_kind := i_kind inode |}) in
  v <- st_get ;;
  if HandleTable.is_open ino (v_handles v) then
    ts <- now ;;
    let dead := set_i_ctime ts (set_i_nlink 0 inode) in
    st_ret ([marker; Put (KInode ino) (VInode dead)], (false, 0, 0))
  else
    st_ret (marker :: settle_batch ino inode, (true, neg_billed inode, -1)).

Definition reap_orphan (ino : u64) : FsM unit := core_await (reap_orphan_data fuel ino).

Definition finish_orphan (ino : u64) : FsM unit :=
  o <- db_get (KInode ino) ;;
  match o with
  | Some v =>
      inode <- core (Inode_decode v) ;;
      commit (settle_batch ino inode) ;;;
      reserve (neg_billed inode) (-1)
  | None => st_ret tt
  end ;;;
  cache (ac_remove ino) ;;;
  reap_orphan ino.

(** A read of the engine whose failure is only recorded. *)
Definition get_noting (k : Key) : FsM (option Value) := fun v =>
  let '(r, e) := get k (v_eng v) in
  match r with
  | Ok o => (Ok o, set_eng e v)
  | Err error => (Ok None, set_health (VolumeHealth.note_storage_error error (v_health v)) (set_eng e v))
  end.

Definition maybe_update_atime (ino : u64) (inode : Inode) (policy : AtimeMode) : FsM unit :=
  ts <- now ;;
  if negb (atime_update_due policy inode ts) then st_ret tt
  else
    lock_wait ;;;
    o <- get_noting (KInode ino) ;;
    match o with
    | None => st_ret tt
    | Some bytes =>
        match Inode_decode bytes with
        | Err _ => st_ret tt
        | Ok current =>
            if atime_update_due policy current ts then
              let current := set_i_atime ts current in
              r <- st_try (commit [Put (KInode ino) (VInode current)]) ;;
              if is_ok r then cache (ac_insert ino current) else st_ret tt
            else st_ret tt
        end
    end.

Definition plan_readahead (ino offset endo size : u64) : FsM unit :=
  if (endo =? 0) || (size <=? endo) then st_ret tt
  else st_modify (fun v =>
    let map := if 4096 <? Z.of_nat (base.size (v_readahead v)) then ∅ else v_readahead v in
    let st := default {| ra_expected := 0; ra_prefetched_to := 0 |} (map !! ino) in
    let sequential := offset =? ra_expected st in
    let cur_chunk := chunk_of (endo - 1) (v_chunk_size v) in
    let prefetched_to :=
      if negb sequential then cur_chunk
      else
        let last_file_chunk := chunk_of (size - 1) (v_chunk_size v) in
        match readahead_scan_bounds (ra_prefetched_to st) cur_chunk last_file_chunk with
        | None => ra_prefetched_to st
        | Some (_, to_exclusive) => to_exclusive - 1
        end in
    set_readahead (<[ino := {| ra_expected := endo; ra_prefetched_to := prefetched_to |}]> map) v).

(** * Read-side operations *)

Definition permissions (creds : Credentials) (ino : u64) (parent : option (u64 * bytes)) :
    FsM EntryPermissions :=
  inode <- load_inode ino ;;
  parent_mutation <-
    match parent with
    | Some (parent_ino, name) =>
        guard (validate_name name) ;;;
        dir <- load_inode parent_ino ;;
        st_ret (is_ok (access creds dir (Z.lor ACCESS_W ACCESS_X)) && is_ok (check_sticky creds dir inode))
    | None => st_ret false
    end ;;
  st_ret {| can_read := is_ok (access creds inode ACCESS_R);
            can_write := is_ok (access creds inode ACCESS_W);
            can_delete := parent_mutation; can_rename := parent_mutation |}.

Definition lookup (creds : Credentials) (parent : u64) (name : bytes) : FsM FileAttr :=
  dir <- load_dir_cached parent ;;
  guard (access creds dir ACCESS_X) ;;;
  if bool_decide (name = DOT) then st_ret (make_attr parent dir)
  else if bool_decide (name = DOTDOT) then
    let up := i_parent_dir dir in
    upnode <- load_inode_cached up ;;
    st_ret (make_attr up upnode)
  else
    guard (validate_name name) ;;;
    v <- st_get ;;
    if ac_is_negative parent name (v_attrs v) then fail NotFound
    else
      o <- dirent_of parent name ;;
      match o with
      | Some d =>
          inode <- or_else NotFound (load_inode_cached (d_child_ino d)) ;;
          st_ret (make_attr (d_child_ino d) inode)
      | None => cache (ac_insert_negative parent name) ;;; fail NotFound
      end.

Definition getattr (ino : u64) : FsM FileAttr :=
  inode <- load_inode_cached ino ;; st_ret (make_attr ino inode).

(** The kinds a data operation accepts. *)
Definition check_file (inode : Inode) : FsM unit :=
  match i_kind inode with
  | File => st_ret tt
  | Dir => fail IsDir
  | _ => fail Invalid
  end.

Definition read_with_atime_policy (creds : Credentials) (ino offset : u64) (length : u32)
    (atime_policy : AtimeMode) : FsM bytes :=
  inode <- load_inode_cached ino ;;
  check_file inode ;;;
  guard (access creds inode ACCESS_R) ;;;
  v <- st_get ;;
  bs <- map_core (read_range (v_chunk_size v) ino (i_size inode) offset length) ;;
  plan_readahead ino offset (as_u64 (offset + len bs)) (i_size inode) ;;;
  maybe_update_atime ino inode atime_policy ;;;
  st_ret bs.

Definition read (creds : Credentials) (ino offset : u64) (length : u32) : FsM bytes :=
  read_with_atime_policy creds ino offset length Relatime.

Definition readlink (ino : u64) : FsM bytes :=
  inode <- load_inode ino ;;
  if negb (bool_decide (i_kind inode = Symlink)) then fail Invalid
  else
    o <- db_get (KSymlink ino) ;;
    match o with Some bs => st_ret (value_bytes bs) | None => fail Io end.

(** The loop of [readdir]. *)
Fixpoint readdir_loop (parent : u64) (max_entries : usize) (it : list (Key * Value))
    (entries : list DirEntry) : FsM ReadDir :=
  o <- vfs_iter_next it ;;
  match it, o with
  | kv :: it', Some _ =>
      if len entries =? max_entries then st_ret {| rd_entries := entries; rd_eof := false |}
      else
        match keys.parse_dirent_idx (key_bytes kv.1) with
        | None => fail Io
        | Some (_, dirent_id) =>
            idx <- core (DirentIdx_decode kv.2) ;;
            v <- st_get ;;
            name <- core (open_name (v_names v) parent (e_enc_name idx)) ;;
            readdir_loop parent max_entries it'
              (entries ++ [{| de_name := name; de_ino := e_child_ino idx; de_kind := e_kind idx;
                              de_cookie := dirent_id |}])
        end
  | _, _ => st_ret {| rd_entries := entries; rd_eof := true |}
  end.

Definition readdir (creds : Credentials) (parent cookie : u64) (max_entries : usize) : FsM ReadDir :=
  dir <- load_dir_cached parent ;;
  guard (access creds dir ACCESS_R) ;;;
  it <- db_scan (keys.dirent_idx parent (saturating_add_u64 cookie 1))
                (keys.dirent_idx parent U64_MAX) ;;
  readdir_loop parent max_entries it [].

Definition bad_xattr_name (name : bytes) : bool :=
  bool_decide (name = []) || (MAX_NAME_LEN <? len name).

Definition getxattr (creds : Credentials) (ino : u64) (name : bytes) : FsM bytes :=
  if bad_xattr_name name then fail Invalid
  else
    inode <- load_inode ino ;;
    guard (access creds inode ACCESS_R) ;;;
    o <- db_get (KXattr ino name) ;;
    match o with Some bs => st_ret (value_bytes bs) | None => fail NoData end.

(** Fold the rest of an iterator through [vfs_iter_next]. *)
Fixpoint vfs_iter {A} (f : A -> Key * Value -> A) (acc : A) (it : list (Key * Value)) : FsM A :=
  o <- vfs_iter_next it ;;
  match it, o with
  | kv :: it', Some _ => vfs_iter f (f acc kv) it'
  | _, _ => st_ret acc
  end.

Definition listxattr (creds : Credentials) (ino : u64) : FsM (list bytes) :=
  inode <- load_inode ino ;;
  guard (access creds inode ACCESS_R) ;;;
  it <- db_scan (keys.xattr_prefix ino) (keys.xattr_prefix (ino + 1)) ;;
  vfs_iter (fun names kv => names ++ [drop 9 (key_bytes kv.1)]) [] it.

Definition statfs : FsM StatFs :=
  ensure_live ;;;
  v <- st_get ;;
  let '(bytes_used, inodes_used) := QuotaTracker.usage (v_quota v) in
  let limits := q_limits (v_quota v) in
  let total_bytes := default NOMINAL_BYTES (ql_hard (lim_bytes limits)) in
  let free_bytes := saturating_sub total_bytes (Z.max bytes_used 0) in
  let total_inodes := default NOMINAL_INODES (ql_hard (lim_inodes limits)) in
  let free_inodes := saturating_sub total_inodes (Z.max inodes_used 0) in
  st_ret {| sf_block_size := STATFS_BSIZE; sf_total_bytes := total_bytes;
            sf_free_bytes := free_bytes; sf_avail_bytes := free_bytes;
            sf_total_inodes := total_inodes; sf_free_inodes := free_inodes |}.

Definition fsync : FsM unit := ensure_live ;;; storage flush.

(** * Data mutations *)

Definition setattr_size (creds : Credentials) (ino : u64) (ts : Timespec) (new_size : u64)
    (inode : Inode) : FsM (Inode * WriteBatch * i64 * list u32) :=
  check_file inode ;;;
  guard (access creds inode ACCESS_W) ;;;
  if negb (new_size =? i_size inode) then
    v <- st_get ;;
    plan <- map_core (plan_truncate (v_chunk_size v) ino (i_size inode) new_size) ;;
    reserve (tp_billed_delta plan) 0 ;;;
    let batch :=
      match tp_tail_put plan with Some (idx, bs) => [Put (KChunk ino idx) (VBytes bs)] | None => [] end ++
      ((fun idx => Delete (KChunk ino idx)) <$> take (Z.to_nat INLINE_DELETES) (tp_deletes plan)) ++
      (if negb (tp_billed_delta plan =? 0)
       then [Merge KQuotaBytes (encode_delta (tp_billed_delta plan))] else []) in
    let spill_deletes := drop (Z.to_nat INLINE_DELETES) (tp_deletes plan) in
    let inode := set_i_size new_size inode in
    let inode := set_i_billed_bytes (rebill (i_billed_bytes inode) (tp_billed_delta plan)) inode in
    let inode := set_i_mtime ts inode in
    st_ret (inode, batch, tp_billed_delta plan, spill_deletes)
  else st_ret (inode, [], 0, []).

Definition setattr (creds : Credentials) (ino : u64) (attrs : SetAttrs) : FsM FileAttr :=
  lock_wait ;;;
  inode <- load_inode ino ;;
  ts <- now ;;
  inode <- guard (setattr_fields creds attrs ts inode) ;;
  let* (inode, batch, quota_delta, spill_deletes) :=
    match s_size attrs with
    | Some new_size => setattr_size creds ino ts new_size inode
    | None => st_ret (inode, [], 0, [])
    end in
  let inode := set_i_ctime ts inode in
  commit_or (batch ++ [Put (KInode ino) (VInode inode)]) (release quota_delta 0) ;;;
  cache (ac_insert ino inode) ;;;
  st_iter (fun group => commit ((fun idx => Delete (KChunk ino idx)) <$> group))
          (chunks_of 1024 spill_deletes) ;;;
  st_ret (make_attr ino inode).

Definition write (creds : Credentials) (ino offset : u64) (data_buf : bytes) : FsM u32 :=
  if bool_decide (data_buf = []) then st_ret 0
  else
    endo <- guard (ok_or (checked_add_u64 offset (len data_buf)) FileTooBig) ;;
    v <- st_get ;;
    if v_chunk_size v * U32_MAX <? endo then fail FileTooBig
    else
      lock_wait ;;;
      inode <- load_inode ino ;;
      if negb (bool_decide (i_kind inode = File)) then
        fail (if is_dir (i_kind inode) then IsDir else Invalid)
      else
        guard (access creds inode ACCESS_W) ;;;
        plan <- map_core (plan_write (v_chunk_size v) ino (i_size inode) offset data_buf) ;;
        reserve (wp_billed_delta plan) 0 ;;;
        ts <- now ;;
        let inode := set_i_size (wp_new_size plan) inode in
        let inode := set_i_billed_bytes (rebill (i_billed_bytes inode) (wp_billed_delta plan)) inode in
        let inode := touch_mtime ts inode in
        let inode := if negb (is_root creds) && negb (Z.land (i_mode inode) o6000 =? 0)
                     then set_i_mode (Z.ldiff (i_mode inode) o6000) inode else inode in
        let batch :=
          ((fun p => Put (KChunk ino p.1) (VBytes p.2)) <$> wp_puts plan) ++
          [Put (KInode ino) (VInode inode)] ++
          (if negb (wp_billed_delta plan =? 0)
           then [Merge KQuotaBytes (encode_delta (wp_billed_delta plan))] else []) in
        commit_or batch (release (wp_billed_delta plan) 0) ;;;
        cache (ac_insert ino inode) ;;;
        st_ret (as_u32 (len data_buf)).

(** * Creating entries *)

Definition WX : u32 := Z.lor ACCESS_W ACCESS_X.

(** Lock the parent, load it, and check the caller may add entries. *)
Definition lock_parent (creds : Credentials) (parent : u64) : FsM Inode :=
  lock_wait ;;;
  dir <- load_dir parent ;;
  guard (access creds dir WX) ;;;
  st_ret dir.

Definition create (creds : Credentials) (parent : u64) (name : bytes) (mode : u32)
    (exclusive : bool) : FsM FileAttr :=
  guard (validate_name name) ;;;
  dir <- lock_parent creds parent ;;
  o <- dirent_of parent name ;;
  match o with
  | Some existing =>
      if exclusive then fail Exists
      else
        inode <- load_inode (d_child_ino existing) ;;
        if is_dir (i_kind inode) then fail IsDir
        else
          guard (access creds inode ACCESS_W) ;;;
          st_ret (make_attr (d_child_ino existing) inode)
  | None =>
      let '(uid, gid, mode) := new_node_ids creds dir File mode in
      child_ino <- alloc_ino ;;
      ts <- now ;;
      let child := Inode_new File mode uid gid ts in
      insert_new_node parent dir name child_ino child None ;;;
      st_ret (make_attr child_ino child)
  end.

(** The rest of [mkdir], [mknod] and [symlink]: the name must be free; the
    child is built from the inode number-independent part. *)
Definition create_new (creds : Credentials) (parent : u64) (name : bytes)
    (child_of : Inode -> Timespec -> Inode) (target : option bytes) : FsM FileAttr :=
  dir <- lock_parent creds parent ;;
  o <- dirent_of parent name ;;
  if opt_ok o then fail Exists
  else
    child_ino <- alloc_ino ;;
    ts <- now ;;
    let child := child_of dir ts in
    insert_new_node parent dir name child_ino child target ;;;
    st_ret (make_attr child_ino child).

Definition mkdir (creds : Credentials) (parent : u64) (name : bytes) (mode : u32) : FsM FileAttr :=
  guard (validate_name name) ;;;
  create_new creds parent name (fun dir ts =>
    let '(uid, gid, mode) := new_node_ids creds dir Dir mode in
    set_i_parent_dir parent (Inode_new Dir mode uid gid ts)) None.

Definition mknod (creds : Credentials) (parent : u64) (name : bytes) (mode : u32) (kind : FileKind)
    (rdev : u64) : FsM FileAttr :=
  guard (validate_name name) ;;;
  match kind with
  | Fifo | Socket | File => st_ret tt
  | CharDev | BlockDev => if negb (is_root creds) then fail NotPermitted else st_ret tt
  | Dir | Symlink => fail Invalid
  end ;;;
  create_new creds parent name (fun dir ts =>
    let '(uid, gid, mode) := new_node_ids creds dir kind mode in
    set_i_rdev rdev (Inode_new kind mode uid gid ts)) None.

Definition symlink (creds : Credentials) (parent : u64) (name target : bytes) : FsM FileAttr :=
  guard (validate_name name) ;;;
  if bool_decide (target = []) || (4096 <? len target) then fail Invalid
  else
    create_new creds parent name (fun dir ts =>
      let '(uid, gid, _) := new_node_ids creds dir Symlink o777 in
      set_i_size (len target) (Inode_new Symlink o777 uid gid ts)) (Some target).

Definition link (creds : Credentials) (ino new_parent : u64) (new_name : bytes) : FsM FileAttr :=
  guard (validate_name new_name) ;;;
  lock_wait ;;;
  inode <- load_inode ino ;;
  if is_dir (i_kind inode) then fail NotPermitted
  else
    dir <- load_dir new_parent ;;
    guard (access creds dir WX) ;;;
    o <- dirent_of new_parent new_name ;;
    if opt_ok o then fail Exists
    else
      ts <- now ;;
      nlink <- guard (ok_or (checked_add_u32 (i_nlink inode) 1) TooManyLinks) ;;
      let inode := set_i_ctime ts (set_i_nlink nlink inode) in
      let dirent_id := i_next_dirent_id dir in
      let dir := touch_mtime ts (set_i_next_dirent_id (as_u64 (i_next_dirent_id dir + 1)) dir) in
      enc <- seal new_parent new_name ;;
      commit ([Put (KInode ino) (VInode inode)] ++
              entry_puts new_parent enc new_name ino (i_kind inode) dirent_id ++
              [Put (KInode new_parent) (VInode dir)]) ;;;
      cache (ac_insert ino inode) ;;;
      cache (ac_insert new_parent dir) ;;;
      cache (ac_remove_negative new_parent new_name) ;;;
      st_ret (make_attr ino inode).

(** * Removing entries *)

(** The identity of an entry that a retry revalidates. *)
Definition dirent_key (d : Dirent) : u64 * u64 := (d_child_ino d, d_dirent_id d).

(** Find the entry, lock parent and child, and check it is still the same;
    the source loops until it is. *)
Fixpoint lock_entry (n : nat) (parent : u64) (name : bytes) : FsM Dirent :=
  match n with
  | O => st_fail OutOfFuel
  | S n =>
      o <- dirent_of parent name ;;
      match o with
      | None => fail NotFound
      | Some d =>
          lock_wait ;;;
          o2 <- dirent_of parent name ;;
          match o2 with
          | None => fail NotFound
          | Some d2 =>
              if negb (d_child_ino d2 =? d_child_ino d) || negb (d_dirent_id d2 =? d_dirent_id d)
              then lock_entry n parent name
              else st_ret d
          end
      end
  end.

Definition entry_deletes (parent : u64) (enc : bytes) (dirent_id : u64) : WriteBatch :=
  [Delete (KDirent parent enc); Delete (KDirentIdx parent dirent_id)].

(** [nlink -= 1] *)
Definition dec_nlink (i : Inode) : Inode := set_i_nlink (as_u32 (i_nlink i - 1)) i.

(** Drop one link of a file: rewrite the inode, or bury it. *)
Definition drop_link (ino : u64) (child : Inode) (ts : Timespec) :
    FsM (WriteBatch * (bool * i64 * i64)) :=
  let child := dec_nlink child in
  if i_nlink child =? 0 then bury_inode ino child
  else st_ret ([Put (KInode ino) (VInode (set_i_ctime ts child))], (false, 0, 0)).

Definition unlink (creds : Credentials) (parent : u64) (name : bytes) : FsM unit :=
  guard (validate_name name) ;;;
  d <- lock_entry fuel parent name ;;
  dir <- load_dir parent ;;
  guard (access creds dir WX) ;;;
  child <- or_else Io (load_inode (d_child_ino d)) ;;
  if is_dir (i_kind child) then fail IsDir
  else
    guard (check_sticky creds dir child) ;;;
    ts <- now ;;
    let dir := touch_mtime ts dir in
    enc <- seal parent name ;;
    let* (burial, (reap, qb, qi)) := drop_link (d_child_ino d) child ts in
    commit (entry_deletes parent enc (d_dirent_id d) ++ [Put (KInode parent) (VInode dir)] ++ burial) ;;;
    cache (ac_insert parent dir) ;;;
    cache (ac_remove (d_child_ino d)) ;;;
    cache (ac_insert_negative parent name) ;;;
    ignore (reserve qb qi) ;;;
    if (reap : bool) then reap_orphan (d_child_ino d) else st_ret tt.

(** Fail with [NotEmpty] if the directory has an entry. *)
Definition check_empty (ino : u64) : FsM unit :=
  it <- db_scan (keys.dirent_prefix ino) (keys.dirent_prefix (ino + 1)) ;;
  o <- vfs_iter_next it ;;
  if opt_ok o then fail NotEmpty else st_ret tt.

Definition rmdir (creds : Credentials) (parent : u64) (name : bytes) : FsM unit :=
  guard (validate_name name) ;;;
  d <- lock_entry fuel parent name ;;
  dir <- load_dir parent ;;
  guard (access creds dir WX) ;;;
  child <- or_else Io (load_inode (d_child_ino d)) ;;
  if negb (is_dir (i_kind child)) then fail NotDir
  else
    guard (check_sticky creds dir child) ;;;
    check_empty (d_child_ino d) ;;;
    ts <- now ;;
    let dir := dec_nlink (touch_mtime ts dir) in
    enc <- seal parent name ;;
    xit <- db_scan (keys.xattr_prefix (d_child_ino d)) (keys.xattr_prefix (d_child_ino d + 1)) ;;
    xattrs <- vfs_iter (fun b kv => b ++ [Delete kv.1]) [] xit ;;
    commit (entry_deletes parent enc (d_dirent_id d) ++ [Delete (KInode (d_child_ino d))] ++ xattrs ++
            [Put (KInode parent) (VInode dir); Merge KQuotaInodes (encode_delta (-1))]) ;;;
    cache (ac_insert parent dir) ;;;
    cache (ac_remove (d_child_ino d)) ;;;
    cache (ac_insert_negative parent name) ;;;
    ignore (reserve 0 (-1)).

(** * Renaming *)

(** Snapshot source and destination entries, lock everything involved, and
    revalidate; the source loops until the snapshot holds. *)
Fixpoint lock_rename (n : nat) (old_parent : u64) (old_name : bytes) (new_parent : u64)
    (new_name : bytes) : FsM (Dirent * option Dirent) :=
  match n with
  | O => st_fail OutOfFuel
  | S n =>
      o <- dirent_of old_parent old_name ;;
      match o with
      | None => fail NotFound
      | Some src =>
          dst <- dirent_of new_parent new_name ;;
          lock_wait ;;;
          src2 <- dirent_of old_parent old_name ;;
          dst2 <- dirent_of new_parent new_name ;;
          if negb (bool_decide (dirent_key <$> src2 = Some (dirent_key src))) ||
             negb (bool_decide (dirent_key <$> dst2 = dirent_key <$> dst))
          then lock_rename n old_parent old_name new_parent new_name
          else st_ret (src, dst)
      end
  end.

(** Walk [parent_dir] from [cursor] to the root; meeting the moved directory
    is an error. *)
Fixpoint ancestor_check (n : nat) (cursor moved_ino : u64) : FsM unit :=
  match n with
  | O => st_fail OutOfFuel
  | S n =>
      if cursor =? moved_ino then fail Invalid
      else if cursor =? ROOT_INO then st_ret tt
      else
        inode <- or_else Io (load_inode cursor) ;;
        ancestor_check n (i_parent_dir inode) moved_ino
  end.

(** The replaced target: its share of the batch, the new parent with one
    subdirectory less, whether to reap, and the quota deltas. *)
Definition replace_target (creds : Credentials) (ts : Timespec) (moved : Inode) (new_parent : u64)
    (new_dir : Inode) (new_name : bytes) (dstd : Dirent) :
    FsM (WriteBatch * Inode * (option u64 * i64 * i64)) :=
  target <- or_else Io (load_inode (d_child_ino dstd)) ;;
  guard (check_sticky creds new_dir target) ;;;
  let* (batch, new_dir, todo) :=
    match is_dir (i_kind moved), is_dir (i_kind target) with
    | true, false => fail NotDir
    | false, true => fail IsDir
    | true, true =>
        check_empty (d_child_ino dstd) ;;;
        st_ret ([Delete (KInode (d_child_ino dstd)); Merge KQuotaInodes (encode_delta (-1))],
                dec_nlink new_dir, (None, 0, -1))
    | false, false =>
        let* (burial, (do_reap, b, i)) := drop_link (d_child_ino dstd) target ts in
        st_ret (burial, new_dir, (if (do_reap : bool) then Some (d_child_ino dstd) else None, b, i))
    end in
  dst_enc <- seal new_parent new_name ;;
  st_ret (batch ++ entry_deletes new_parent dst_enc (d_dirent_id dstd), new_dir, todo).

(** Permission checks and parents of a rename: [old_dir], [new_dir], [moved]. *)
Definition rename_load (creds : Credentials) (old_parent new_parent : u64) (src : Dirent) :
    FsM (Inode * Inode * Inode) :=
  let same_parent := old_parent =? new_parent in
  old_dir <- load_dir old_parent ;;
  guard (access creds old_dir WX) ;;;
  new_dir <- (if same_parent then st_ret old_dir
              else d <- load_dir new_parent ;; guard (access creds d WX) ;;; st_ret d) ;;
  moved <- or_else Io (load_inode (d_child_ino src)) ;;
  guard (check_sticky creds old_dir moved) ;;;
  st_when (is_dir (i_kind moved) && negb same_parent) (guard (access creds moved ACCESS_W)) ;;;
  st_when (is_dir (i_kind moved) && negb same_parent)
    (ancestor_check fuel new_parent (d_child_ino src)) ;;;
  st_ret (old_dir, new_dir, moved).

(** The rewrites of the moved inode and of the parents. *)
Definition rename_inodes (old_parent new_parent src_ino : u64) (ts : Timespec)
    (old_dir new_dir moved : Inode) : Inode * Inode * Inode * WriteBatch :=
  let same_parent := old_parent =? new_parent in
  let new_dir := set_i_next_dirent_id (as_u64 (i_next_dirent_id new_dir + 1)) new_dir in
  let moves := is_dir (i_kind moved) && negb same_parent in
  let old_dir := if moves then dec_nlink old_dir else old_dir in
  let new_dir := if moves then set_i_nlink (as_u32 (i_nlink new_dir + 1)) new_dir else new_dir in
  let moved := if moves then set_i_parent_dir new_parent moved else moved in
  let moved := set_i_ctime ts moved in
  let old_dir := if same_parent then old_dir else touch_mtime ts old_dir in
  let new_dir := touch_mtime ts new_dir in
  (old_dir, new_dir, moved,
   [Put (KInode src_ino) (VInode moved)] ++
   (if same_parent then [] else [Put (KInode old_parent) (VInode old_dir)]) ++
   [Put (KInode new_parent) (VInode new_dir)]).

Definition rename_cache (old_parent : u64) (old_name : bytes) (new_parent : u64) (new_name : bytes)
    (src_ino : u64) (dst : option Dirent) (old_dir new_dir moved : Inode) : FsM unit :=
  cache (ac_insert src_ino moved) ;;;
  st_when (negb (old_parent =? new_parent)) (cache (ac_insert old_parent old_dir)) ;;;
  cache (ac_insert new_parent new_dir) ;;;
  match dst with Some dstd => cache (ac_remove (d_child_ino dstd)) | None => st_ret tt end ;;;
  cache (ac_insert_negative old_parent old_name) ;;;
  cache (ac_remove_negative new_parent new_name).

Definition rename_locked (creds : Credentials) (old_parent : u64) (old_name : bytes)
    (new_parent : u64) (new_name : bytes) (src : Dirent) (dst : option Dirent) : FsM unit :=
  if match dst with Some d => d_child_ino d =? d_child_ino src | None => false end then st_ret tt
  else if (old_parent =? new_parent) && bool_decide (old_name = new_name) then st_ret tt
  else
    let* (old_dir, new_dir, moved) := rename_load creds old_parent new_parent src in
    ts <- now ;;
    let* (replaced, new_dir, (reap, qb, qi)) :=
      match dst with
      | Some dstd => replace_target creds ts moved new_parent new_dir new_name dstd
      | None => st_ret ([], new_dir, (None, 0, 0))
      end in
    src_enc <- seal old_parent old_name ;;
    let new_id := i_next_dirent_id new_dir in
    new_enc <- seal new_parent new_name ;;
    let '(old_dir, new_dir, moved, inode_puts) :=
      rename_inodes old_parent new_parent (d_child_ino src) ts old_dir new_dir moved in
    commit (replaced ++ entry_deletes old_parent src_enc (d_dirent_id src) ++
            entry_puts new_parent new_enc new_name (d_child_ino src) (i_kind moved) new_id ++
            inode_puts) ;;;
    rename_cache old_parent old_name new_parent new_name (d_child_ino src) dst old_dir new_dir moved ;;;
    ignore (reserve qb qi) ;;;
    match reap with Some ino => reap_orphan ino | None => st_ret tt end.

Definition rename (creds : Credentials) (old_parent : u64) (old_name : bytes) (new_parent : u64)
    (new_name : bytes) : FsM unit :=
  guard (validate_name old_name) ;;;
  guard (validate_name new_name) ;;;
  lock_wait ;;;
  let* (src, dst) := lock_rename fuel old_parent old_name new_parent new_name in
  rename_locked creds old_parent old_name new_parent new_name src dst.

(** * Extended attributes *)

Definition setxattr (creds : Credentials) (ino : u64) (name value : bytes) : FsM unit :=
  if bad_xattr_name name || (MAX_XATTR_VALUE <? len value) then fail Invalid
  else
    t <- now_unix ;;
    (fun v => let '(r, q) := QuotaTracker.check_not_over t (v_quota v) in
              (map_err Raise r, set_quota q v)) ;;;
    lock_wait ;;;
    inode <- load_inode ino ;;
    guard (access creds inode ACCESS_W) ;;;
    ts <- now ;;
    let inode := set_i_ctime ts inode in
    commit [Put (KXattr ino name) (VBytes value); Put (KInode ino) (VInode inode)] ;;;
    cache (ac_insert ino inode).

Definition removexattr (creds : Credentials) (ino : u64) (name : bytes) : FsM unit :=
  if bad_xattr_name name then fail Invalid
  else
    lock_wait ;;;
    inode <- load_inode ino ;;
    guard (access creds inode ACCESS_W) ;;;
    o <- db_get (KXattr ino name) ;;
    if negb (opt_ok o) then fail NoData
    else
      ts <- now ;;
      let inode := set_i_ctime ts inode in
      commit [Delete (KXattr ino name); Put (KInode ino) (VInode inode)] ;;;
      cache (ac_insert ino inode).

(** * Handles and byte-range locks *)

Definition open_ (creds : Credentials) (ino : u64) (mode : OpenMode) : FsM u64 :=
  inode <- load_inode ino ;;
  let want := match mode with
              | ORead => ACCESS_R
              | OWrite => ACCESS_W
              | OReadWrite => Z.lor ACCESS_R ACCESS_W
              end in
  guard (access creds inode want) ;;;
  fun v => let '(h, t) := HandleTable.open ino mode (v_handles v) in (Ok h, set_handles t v).

Definition close (handle : u64) : FsM unit :=
  closed <- (fun v => let '(r, t) := HandleTable.close handle (v_handles v) in (Ok r, set_handles t v)) ;;
  match closed with
  | None => fail BadHandle
  | Some (ino, _, last) =>
      st_modify (fun v => set_range_locks (RangeLockTable.unlock_owner handle (v_range_locks v)) v) ;;;
      v <- st_get ;;
      if (last : bool) && negb (h_dead (v_health v)) then
        o <- db_get (KOrphan ino) ;;
        if opt_ok o then lock_wait ;;; finish_orphan ino else st_ret tt
      else st_ret tt
  end.

(** The inode a lock call is about. *)
Definition lock_target (handle start endo : u64) : FsM u64 :=
  ensure_live ;;;
  if endo <=? start then fail Invalid
  else
    v <- st_get ;;
    match HandleTable.get handle (v_handles v) with
    | None => fail BadHandle
    | Some (ino, _) => st_ret ino
    end.

Definition lock (handle start endo : u64) (exclusive : bool) : FsM unit :=
  ino <- lock_target handle start endo ;;
  fun v =>
    let l := {| rl_owner := handle; rl_range := {| lr_start := start; lr_end := endo |};
                rl_exclusive := exclusive |} in
    let '(r, t) := RangeLockTable.try_lock ino l (v_range_locks v) in
    (map_err (fun _ => Raise WouldBlock) r, set_range_locks t v).

Definition unlock (handle start endo : u64) : FsM unit :=
  ino <- lock_target handle start endo ;;
  st_modify (fun v =>
    set_range_locks
      (RangeLockTable.unlock ino handle {| lr_start := start; lr_end := endo |} (v_range_locks v)) v).

Definition testlock (handle start endo : u64) (exclusive : bool) : FsM (option (u64 * u64 * bool)) :=
  ino <- lock_target handle start endo ;;
  v <- st_get ;;
  let l := {| rl_owner := handle; rl_range := {| lr_start := start; lr_end := endo |};
              rl_exclusive := exclusive |} in
  st_ret ((fun l => (lr_start (rl_range l), lr_end (rl_range l), rl_exclusive l)) <$>
          RangeLockTable.test ino l (v_range_locks v)).
End vfs.
