(* ===== verification/Tree.v ===== *)
(** The directory tree in the records of a volume.

    [tree] is the structural invariant of the namespace: every directory
    entry is stored under its sealed name and in the cookie index, points to
    an inode of the recorded kind, link counts equal the entries that exist,
    every directory but the root has exactly one entry, and following
    [parent_dir] leads to the root.  The invariant carries discrepancies so
    that the batch of an operation can be followed record by record: the
    lemmas of this file say what each elementary change does to them, and a
    committed batch brings them back to zero. *)

From S2P Require Import Prelude Keys Meta Store Data Quota Locks Volume Vfs.

Abbreviation node m i n := (m !! KInode i = Some (VInode n)).
Abbreviation dent m p enc d := (m !! KDirent p enc = Some (VDirent d)).

(** Entries that point to [i], and subdirectory entries of [p]. *)
Definition link_to (i : u64) (k : Key) (v : Value) : Z :=
  match k, v with
  | KDirent _ _, VDirent d => if d_child_ino d =? i then 1 else 0
  | _, _ => 0
  end.
Definition links (m : gmap Key Value) (i : u64) : Z := msum (link_to i) m.

Definition subdir_of (p : u64) (k : Key) (v : Value) : Z :=
  match k, v with
  | KDirent p' _, VDirent d => if (p' =? p) && is_dir (d_kind d) then 1 else 0
  | _, _ => 0
  end.
Definition subdirs (m : gmap Key Value) (p : u64) : Z := msum (subdir_of p) m.

(** [i] is a directory whose [parent_dir] chain ends at the root. *)
Inductive reaches (m : gmap Key Value) : u64 -> Prop :=
| reach_root n : node m ROOT_INO n -> i_kind n = Dir -> reaches m ROOT_INO
| reach_up i n : node m i n -> i_kind n = Dir -> reaches m (i_parent_dir n) -> reaches m i.

(** The same, without passing through [x]. *)
Inductive avoids (m : gmap Key Value) (x : u64) : u64 -> Prop :=
| avoid_root n : node m ROOT_INO n -> i_kind n = Dir -> x <> ROOT_INO -> avoids m x ROOT_INO
| avoid_up i n : node m i n -> i_kind n = Dir -> i <> x -> avoids m x (i_parent_dir n) -> avoids m x i.

Definition idx_of (enc : bytes) (d : Dirent) : DirentIdx :=
  {| e_enc_name := enc; e_child_ino := d_child_ino d; e_kind := d_kind d |}.

Definition add_entry (p : u64) (enc : bytes) (d : Dirent) (m : gmap Key Value) : gmap Key Value :=
  <[KDirentIdx p (d_dirent_id d) := VDirentIdx (idx_of enc d)]> (<[KDirent p enc := VDirent d]> m).

Definition del_entry (p : u64) (enc : bytes) (id : u64) (m : gmap Key Value) : gmap Key Value :=
  delete (KDirentIdx p id) (delete (KDirent p enc) m).

(** What an entry for [d] under [p] does to the discrepancies, [z] times. *)
Definition entry_dn (dn : Z -> Z) (p : u64) (d : Dirent) (z : Z) : Z -> Z :=
  bump dn (if is_dir (d_kind d) then p else d_child_ino d) z.
Definition entry_dl (dl : Z -> Z) (d : Dirent) (z : Z) : Z -> Z :=
  if is_dir (d_kind d) then bump dl (d_child_ino d) z else dl.

(** Decide an equation between discrepancies at one inode. *)
Ltac disc :=
  intros; unfold entry_dn, entry_dl, bump, upd; simpl; split_and!; intros;
  repeat match goal with
  | |- context [if ?b then _ else _] =>
      lazymatch b with
      | (?x =? ?y) => destruct (Z.eqb_spec x y)
      | is_dir ?k => destruct (is_dir k) eqn:?
      end; simpl in *
  end; try congruence; try lia.

Section tree.
Context {NCR : NameCrypto} (names : NameCodec).
Implicit Types (m : gmap Key Value).

(** A directory entry and everything it refers to. *)
Record entry_ok (ds : Z -> Z) m (p : u64) (enc : bytes) (d : Dirent) : Prop := {
  en_seal : seal_name names p (d_name d) = Ok enc;
  en_name : validate_name (d_name d) = Ok tt;
  en_idx : m !! KDirentIdx p (d_dirent_id d) = Some (VDirentIdx (idx_of enc d));
  en_parent : exists pn, node m p pn /\ i_kind pn = Dir /\
                FIRST_DIRENT_ID <= d_dirent_id d < i_next_dirent_id pn + ds p;
  en_child : exists cn, node m (d_child_ino d) cn /\ i_kind cn = d_kind d /\
               (i_kind cn = Dir -> i_parent_dir cn = p)
}.

(** [dn]: by how much [nlink] exceeds the entries that justify it; [dl]: by
    how much the entries of a directory fall short of one; [ds]: how far
    entry ids may run ahead of [next_dirent_id]. *)
Record tree (dn dl ds : Z -> Z) m : Prop := {
  tr_inode i v : m !! KInode i = Some v -> exists n, v = VInode n;
  tr_root : exists r, node m ROOT_INO r /\ i_kind r = Dir /\ i_parent_dir r = ROOT_INO;
  tr_dirent p enc v : m !! KDirent p enc = Some v -> exists d, v = VDirent d /\ entry_ok ds m p enc d;
  tr_idx p id v : m !! KDirentIdx p id = Some v ->
    exists enc d, dent m p enc d /\ d_dirent_id d = id;
  tr_first i n : node m i n -> FIRST_DIRENT_ID <= i_next_dirent_id n + ds i;
  tr_file i n : node m i n -> i_kind n <> Dir -> i_nlink n = links m i + dn i;
  tr_dir i n : node m i n -> i_kind n = Dir ->
    i_nlink n = 2 + subdirs m i + dn i /\ links m i + dl i = (if i =? ROOT_INO then 0 else 1);
  tr_reach i n : node m i n -> i_kind n = Dir -> reaches m i
}.

(** The namespace invariant. *)
Definition tree_ok m : Prop := tree (fun _ => 0) (fun _ => 0) (fun _ => 0) m.

(** ** Counting *)

Lemma link_to_nonneg i k v : 0 <= link_to i k v.
Proof. unfold link_to. repeat case_match; lia. Qed.
Lemma subdir_of_nonneg i k v : 0 <= subdir_of i k v.
Proof. unfold subdir_of. repeat case_match; lia. Qed.

Lemma links_nonneg m i : 0 <= links m i.
Proof. apply msum_nonneg. intros. apply link_to_nonneg. Qed.
Lemma subdirs_nonneg m i : 0 <= subdirs m i.
Proof. apply msum_nonneg. intros. apply subdir_of_nonneg. Qed.

Lemma links_dent m p enc d : dent m p enc d -> 1 <= links m (d_child_ino d).
Proof.
  intros Hd. pose proof (msum_ge (link_to (d_child_ino d)) m (KDirent p enc) (VDirent d)
    ltac:(intros; apply link_to_nonneg) Hd) as H. simpl in H. by rewrite Z.eqb_refl in H.
Qed.

Lemma links_zero m i p enc d : links m i = 0 -> dent m p enc d -> d_child_ino d <> i.
Proof. intros Hl Hd <-. apply links_dent in Hd. lia. Qed.

Lemma links_pos m i : 0 < links m i -> exists p enc d, dent m p enc d /\ d_child_ino d = i.
Proof.
  intros (k & v & Hk & Hp)%msum_pos; [|intros; apply link_to_nonneg].
  destruct k as [|?|p enc| | | | | | | |]; simpl in Hp; try lia. destruct v; simpl in Hp; try lia.
  destruct (Z.eqb_spec (d_child_ino d) i); [|lia]. eauto.
Qed.

Lemma subdirs_pos m p : 0 < subdirs m p -> exists enc d, dent m p enc d /\ d_kind d = Dir.
Proof.
  intros (k & v & Hk & Hp)%msum_pos; [|intros; apply subdir_of_nonneg].
  destruct k as [|?|p' enc| | | | | | | |]; simpl in Hp; try lia. destruct v; simpl in Hp; try lia.
  destruct (Z.eqb_spec p' p) as [->|]; simpl in Hp; [|lia].
  unfold is_dir in Hp. case_bool_decide; [|lia]. eauto.
Qed.

(** Which keys the namespace lives in. *)
Definition tree_key (k : Key) : bool :=
  match k with KInode _ | KDirent _ _ | KDirentIdx _ _ => true | _ => false end.

Lemma links_agree m m' i :
  (forall p enc, m !! KDirent p enc = m' !! KDirent p enc) -> links m i = links m' i.
Proof.
  intros H. apply (msum_agree (fun k => match k with KDirent _ _ => true | _ => false end)).
  - by intros [] v.
  - by intros [].
Qed.

Lemma subdirs_agree m m' i :
  (forall p enc, m !! KDirent p enc = m' !! KDirent p enc) -> subdirs m i = subdirs m' i.
Proof.
  intros H. apply (msum_agree (fun k => match k with KDirent _ _ => true | _ => false end)).
  - by intros [] v.
  - by intros [].
Qed.

(** ** Reachability *)

Lemma reaches_node m i : reaches m i -> exists n, node m i n /\ i_kind n = Dir.
Proof. destruct 1; eauto. Qed.

Lemma reaches_mono m m' :
  (forall i n, node m i n -> i_kind n = Dir ->
     exists n', node m' i n' /\ i_kind n' = Dir /\ i_parent_dir n' = i_parent_dir n) ->
  forall i, reaches m i -> reaches m' i.
Proof.
  intros H i. induction 1 as [n Hn Hk|i n Hn Hk _ IH].
  - destruct (H _ _ Hn Hk) as (n' & ? & ? & ?). by eapply reach_root.
  - destruct (H _ _ Hn Hk) as (n' & ? & ? & E). eapply reach_up; [done..|]. by rewrite E.
Qed.

Lemma avoids_reaches m x i : avoids m x i -> reaches m i.
Proof. induction 1; [by eapply reach_root|by eapply reach_up]. Qed.

(** Moving [x] under a directory whose chain avoids it keeps every chain. *)
Lemma avoids_move m x n q :
  avoids m x q -> x <> ROOT_INO -> i_kind n = Dir -> i_parent_dir n = q ->
  (forall i, reaches m i -> reaches (<[KInode x := VInode n]> m) i).
Proof.
  intros Hav Hx Hk Hq. set (m' := <[KInode x := VInode n]> m).
  assert (forall i, i <> x -> m' !! KInode i = m !! KInode i) as Hne.
  { intros i Hi. unfold m'. rewrite lookup_insert_ne by congruence. done. }
  assert (forall i, avoids m x i -> reaches m' i) as Hav'.
  { induction 1 as [r Hr Hkr|i r Hr Hkr Hi _ IH].
    - eapply reach_root; [|done]. by rewrite Hne.
    - eapply reach_up; [|done..]. by rewrite Hne. }
  assert (reaches m' x) as Hrx.
  { eapply reach_up; [apply lookup_insert_eq|done|]. rewrite Hq. auto. }
  intros i. induction 1 as [r Hr Hkr|i r Hr Hkr _ IH].
  - eapply reach_root; [|done]. by rewrite Hne.
  - destruct (decide (i = x)) as [->|Hi]; [done|]. eapply reach_up; [|done..]. by rewrite Hne.
Qed.

(** ** Frame and extensionality *)

Lemma tree_ext dn dl ds dn' dl' ds' m :
  (forall i n, node m i n -> dn i = dn' i /\ ds i = ds' i /\ (i_kind n = Dir -> dl i = dl' i)) ->
  tree dn dl ds m -> tree dn' dl' ds' m.
Proof.
  intros H Ht. split.
  - apply Ht.
  - apply Ht.
  - intros p enc v Hv. destruct (tr_dirent _ _ _ _ Ht p enc v Hv) as (d & -> & [E1 E2 E3 (pn & Hp & Hk & Hid) E5]).
    exists d. split; [done|]. split; try done. destruct (H p pn Hp) as (_ & <- & _). by exists pn.
  - apply Ht.
  - intros i n Hi. destruct (H i n Hi) as (_ & <- & _). by apply Ht.
  - intros i n Hi Hk. destruct (H i n Hi) as (<- & _ & _). by apply Ht.
  - intros i n Hi Hk. destruct (H i n Hi) as (<- & _ & <-); [|done]. by apply Ht.
  - apply Ht.
Qed.

(** Only inodes and entries matter. *)
Lemma tree_frame dn dl ds m m' :
  (forall k, tree_key k = true -> m' !! k = m !! k) -> tree dn dl ds m -> tree dn dl ds m'.
Proof.
  intros H Ht.
  assert (forall i, m' !! KInode i = m !! KInode i) as Hi by (intros; by apply H).
  assert (forall p e, m' !! KDirent p e = m !! KDirent p e) as Hd by (intros; by apply H).
  assert (forall p i, m' !! KDirentIdx p i = m !! KDirentIdx p i) as Hx by (intros; by apply H).
  assert (forall i, links m' i = links m i) as El by (intros; by apply links_agree).
  assert (forall i, subdirs m' i = subdirs m i) as Es by (intros; by apply subdirs_agree).
  split.
  - intros i v. rewrite Hi. apply Ht.
  - setoid_rewrite Hi. apply Ht.
  - intros p enc v. rewrite Hd. intros Hv.
    destruct (tr_dirent _ _ _ _ Ht p enc v Hv) as (d & -> & [E1 E2 E3 E4 E5]).
    exists d. split; [done|]. split; [done|done|by rewrite Hx|by setoid_rewrite Hi|by setoid_rewrite Hi].
  - intros p id v. rewrite Hx. setoid_rewrite Hd. apply Ht.
  - intros i n. rewrite Hi. apply Ht.
  - intros i n. rewrite Hi, El. apply Ht.
  - intros i n. rewrite Hi, El, Es. apply Ht.
  - intros i n. rewrite Hi. intros Hn Hk. pose proof (tr_reach _ _ _ _ Ht i n Hn Hk) as Hr.
    revert Hr. apply reaches_mono. intros j r. rewrite Hi. eauto.
Qed.

(** ** Inodes *)

Lemma node_insert_ne m i n j n' : j <> i -> node (<[KInode i := VInode n]> m) j n' <-> node m j n'.
Proof. intros H. rewrite lookup_insert_ne by congruence. done. Qed.

Lemma links_inode m i v j : links (<[KInode i := v]> m) j = links m j.
Proof. apply links_agree. intros. by rewrite lookup_insert_ne. Qed.
Lemma subdirs_inode m i v j : subdirs (<[KInode i := v]> m) j = subdirs m j.
Proof. apply subdirs_agree. intros. by rewrite lookup_insert_ne. Qed.
Lemma links_inode_del m i j : links (delete (KInode i) m) j = links m j.
Proof. apply links_agree. intros. by rewrite lookup_delete_ne. Qed.
Lemma subdirs_inode_del m i j : subdirs (delete (KInode i) m) j = subdirs m j.
Proof. apply subdirs_agree. intros. by rewrite lookup_delete_ne. Qed.

Lemma entry_keep ds ds' m m' p enc d :
  entry_ok ds m p enc d ->
  m' !! KDirentIdx p (d_dirent_id d) = m !! KDirentIdx p (d_dirent_id d) ->
  (forall pn, node m p pn -> i_kind pn = Dir ->
     exists pn', node m' p pn' /\ i_kind pn' = Dir /\
       i_next_dirent_id pn + ds p <= i_next_dirent_id pn' + ds' p) ->
  (forall cn, node m (d_child_ino d) cn ->
     exists cn', node m' (d_child_ino d) cn' /\ i_kind cn' = i_kind cn /\
       (i_kind cn = Dir -> i_parent_dir cn' = i_parent_dir cn)) ->
  entry_ok ds' m' p enc d.
Proof.
  intros [E1 E2 E3 (pn & Hp & Hpk & Hid) (cn & Hc & Hck & Hcd)] Hidx Hpar Hch.
  destruct (Hpar pn Hp Hpk) as (pn' & Hp' & Hpk' & Hnext).
  destruct (Hch cn Hc) as (cn' & Hc' & Hck' & Hcd').
  split; [done|done|by rewrite Hidx| |].
  - exists pn'. split_and!; [done|done|lia|lia].
  - exists cn'. split_and!; [done|congruence|]. intros Hk. rewrite Hcd'; [apply Hcd|]; congruence.
Qed.

(** No entry mentions an inode that does not exist. *)
Lemma tree_absent dn dl ds m i :
  tree dn dl ds m -> m !! KInode i = None ->
  links m i = 0 /\ subdirs m i = 0 /\ (forall enc, m !! KDirent i enc = None).
Proof.
  intros Ht Hi. split_and!.
  - destruct (Z.eqb_spec (links m i) 0) as [|Hne]; [done|].
    destruct (links_pos m i) as (p & enc & d & Hd & <-); [pose proof (links_nonneg m i); lia|].
    destruct (tr_dirent _ _ _ _ Ht _ _ _ Hd) as (? & [= <-] & [_ _ _ _ (cn & Hc & _)]). congruence.
  - destruct (Z.eqb_spec (subdirs m i) 0) as [|Hne]; [done|].
    destruct (subdirs_pos m i) as (enc & d & Hd & _); [pose proof (subdirs_nonneg m i); lia|].
    destruct (tr_dirent _ _ _ _ Ht _ _ _ Hd) as (? & [= <-] & [_ _ _ (pn & Hp & _) _]). congruence.
  - intros enc. destruct (m !! KDirent i enc) as [v|] eqn:Hd; [|done].
    destruct (tr_dirent _ _ _ _ Ht _ _ _ Hd) as (d & -> & [_ _ _ (pn & Hp & _) _]). congruence.
Qed.

(** How an inode update is seen through [node]. *)
Lemma node_upd m i n n' j r :
  node m i n -> node m j r ->
  exists r', node (<[KInode i := VInode n']> m) j r' /\ ((j = i /\ r = n /\ r' = n') \/ (j <> i /\ r' = r)).
Proof.
  intros Hi Hj. destruct (decide (j = i)) as [->|Hne].
  - exists n'. rewrite lookup_insert_eq. split; [done|]. left. split_and!; congruence.
  - exists r. rewrite lookup_insert_ne by congruence. split; [done|by right].
Qed.

Lemma node_upd_inv m i n' j r :
  node (<[KInode i := VInode n']> m) j r -> (j = i /\ r = n') \/ (j <> i /\ node m j r).
Proof.
  intros [[[= ->] [= ->]]|[Hne Hj]]%lookup_insert_Some; [by left|]. right. split; [congruence|done].
Qed.

(** Changing inodes under unchanged entries: what must be kept for the
    directories that hold entries and for the inodes entries point to. *)
Lemma tree_inodes dn dl ds dn' dl' ds' m m' :
  tree dn dl ds m ->
  (forall k, (forall j, k <> KInode j) -> m' !! k = m !! k) ->
  (forall j v, m' !! KInode j = Some v -> exists n, v = VInode n) ->
  (exists r, node m' ROOT_INO r /\ i_kind r = Dir /\ i_parent_dir r = ROOT_INO) ->
  (forall j r enc d, node m j r -> i_kind r = Dir -> dent m j enc d ->
     exists r', node m' j r' /\ i_kind r' = Dir /\
       i_next_dirent_id r + ds j <= i_next_dirent_id r' + ds' j) ->
  (forall j r, node m j r -> links m j <> 0 ->
     exists r', node m' j r' /\ i_kind r' = i_kind r /\ (i_kind r = Dir -> i_parent_dir r' = i_parent_dir r)) ->
  (forall j r, node m' j r -> FIRST_DIRENT_ID <= i_next_dirent_id r + ds' j) ->
  (forall j r, node m' j r -> i_kind r <> Dir -> i_nlink r = links m j + dn' j) ->
  (forall j r, node m' j r -> i_kind r = Dir ->
     i_nlink r = 2 + subdirs m j + dn' j /\ links m j + dl' j = (if j =? ROOT_INO then 0 else 1)) ->
  (forall j r, node m' j r -> i_kind r = Dir -> reaches m' j) ->
  tree dn' dl' ds' m'.
Proof.
  intros Ht Hother Hty Hroot Hpar Hch Hfirst Hfile Hdir Hreach.
  assert (forall j, links m' j = links m j) as El by (intros; apply links_agree; intros; by apply Hother).
  assert (forall j, subdirs m' j = subdirs m j) as Es by (intros; apply subdirs_agree; intros; by apply Hother).
  split; [done|done| | |done| | |done].
  - intros p enc v Hv. rewrite Hother in Hv by done.
    destruct (tr_dirent _ _ _ _ Ht p enc v Hv) as (d & -> & He). exists d. split; [done|].
    eapply entry_keep; [exact He|by apply Hother|..].
    + intros pn Hpn Hk. by eapply Hpar.
    + intros cn Hcn. apply Hch; [done|]. apply links_dent in Hv. lia.
  - intros p id v Hv. rewrite Hother in Hv by done.
    destruct (tr_idx _ _ _ _ Ht p id v Hv) as (enc & d & ? & ?). exists enc, d. by rewrite Hother.
  - intros j r. rewrite El. apply Hfile.
  - intros j r. rewrite El, Es. apply Hdir.
Qed.

(** Rewriting an inode in place. *)
Lemma tree_upd_inode dn dl ds m i n n' :
  tree dn dl ds m -> node m i n -> i_kind n' = i_kind n -> i_parent_dir n' = i_parent_dir n ->
  tree (bump dn i (i_nlink n' - i_nlink n)) dl
       (bump ds i (i_next_dirent_id n - i_next_dirent_id n')) (<[KInode i := VInode n']> m).
Proof.
  intros Ht Hi Hk Hp. set (m' := <[KInode i := VInode n']> m).
  set (ds' := bump ds i (i_next_dirent_id n - i_next_dirent_id n')).
  assert (forall j r, node m j r -> exists r', node m' j r' /\ i_kind r' = i_kind r /\
    i_parent_dir r' = i_parent_dir r /\ i_next_dirent_id r + ds j <= i_next_dirent_id r' + ds' j) as Hkeep.
  { intros j r Hj. destruct (node_upd m i n n' j r Hi Hj) as (r' & Hr' & [(-> & -> & ->)|(Hne & ->)]);
      eexists; (split_and!; [exact Hr'|done..|]); unfold ds'; rewrite ?bump_eq, ?bump_ne by done; lia. }
  assert (forall j r', node m' j r' -> exists r, node m j r /\ i_kind r' = i_kind r /\
    ((j = i /\ r = n /\ r' = n') \/ (j <> i /\ r' = r))) as Hback.
  { intros j r' [(-> & ->)|(Hne & Hj)]%node_upd_inv; [exists n|exists r']; auto 10. }
  apply (tree_inodes dn dl ds _ _ _ m); [done|..].
  - intros k Hne. unfold m'. by rewrite lookup_insert_ne.
  - intros j v [[[= <-] <-]|[_ Hj]]%lookup_insert_Some; [by eexists|by eapply Ht].
  - destruct (tr_root _ _ _ _ Ht) as (r & Hr & ? & ?).
    destruct (Hkeep _ _ Hr) as (r' & ? & ? & ? & _). exists r'. split_and!; [done|congruence..].
  - intros j r _ _ Hj Hd _. destruct (Hkeep _ _ Hj) as (r' & ? & ? & ? & ?). exists r'.
    split_and!; [done|congruence|done].
  - intros j r Hj _. destruct (Hkeep _ _ Hj) as (r' & ? & ? & ? & ?). exists r'. done.
  - intros j r' Hj. destruct (Hback _ _ Hj) as (r & Hr & _ & [(-> & -> & ->)|(Hne & ->)]);
      unfold ds'; rewrite ?bump_eq, ?bump_ne by done; pose proof (tr_first _ _ _ _ Ht _ _ Hr); lia.
  - intros j r' Hj Hd. destruct (Hback _ _ Hj) as (r & Hr & Hkr & Hc). rewrite Hkr in Hd.
    pose proof (tr_file _ _ _ _ Ht _ _ Hr Hd).
    destruct Hc as [(-> & -> & ->)|(Hne & ->)]; rewrite ?bump_eq, ?bump_ne by done; lia.
  - intros j r' Hj Hd. destruct (Hback _ _ Hj) as (r & Hr & Hkr & Hc). rewrite Hkr in Hd.
    pose proof (tr_dir _ _ _ _ Ht _ _ Hr Hd).
    destruct Hc as [(-> & -> & ->)|(Hne & ->)]; rewrite ?bump_eq, ?bump_ne by done; lia.
  - intros j r' Hj Hd. destruct (Hback _ _ Hj) as (r & Hr & Hkr & _). rewrite Hkr in Hd.
    pose proof (tr_reach _ _ _ _ Ht _ _ Hr Hd) as Hre. revert Hre. apply reaches_mono. intros a b Ha Hb.
    destruct (Hkeep _ _ Ha) as (b' & ? & ? & ? & _). exists b'. split_and!; [done|congruence|done].
Qed.

(** Giving an unlinked directory a new parent. *)
Lemma tree_reparent dn dl ds m i n q :
  tree dn dl ds m -> node m i n -> i_kind n = Dir -> i <> ROOT_INO -> links m i = 0 ->
  avoids m i q -> tree dn dl ds (<[KInode i := VInode (set_i_parent_dir q n)]> m).
Proof.
  intros Ht Hi Hk Hroot Hl Hav. set (n' := set_i_parent_dir q n). set (m' := <[KInode i := VInode n']> m).
  assert (forall j r', node m' j r' -> exists r, node m j r /\ i_kind r' = i_kind r /\
    i_nlink r' = i_nlink r /\ i_next_dirent_id r' = i_next_dirent_id r) as Hback.
  { intros j r' [(-> & ->)|(Hne & Hj)]%node_upd_inv; [exists n|exists r']; done. }
  apply (tree_inodes dn dl ds _ _ _ m); [done|..].
  - intros k Hne. unfold m'. by rewrite lookup_insert_ne.
  - intros j v [[[= <-] <-]|[_ Hj]]%lookup_insert_Some; [by eexists|by eapply Ht].
  - destruct (tr_root _ _ _ _ Ht) as (r & Hr & ? & ?). exists r. unfold m'.
    rewrite node_insert_ne by congruence. done.
  - intros j r enc d Hj Hd _. destruct (node_upd m i n n' j r Hi Hj) as (r' & Hr' & [(-> & -> & ->)|(_ & ->)]);
      eexists; (split_and!; [exact Hr'|done|]); simpl; lia.
  - intros j r Hj Hlj. assert (j <> i) by congruence. exists r. unfold m'.
    by rewrite node_insert_ne by congruence.
  - intros j r' Hj. destruct (Hback _ _ Hj) as (r & Hr & _ & _ & ->). by eapply Ht.
  - intros j r' Hj Hd. destruct (Hback _ _ Hj) as (r & Hr & Hkr & -> & _). rewrite Hkr in Hd. by eapply Ht.
  - intros j r' Hj Hd. destruct (Hback _ _ Hj) as (r & Hr & Hkr & -> & _). rewrite Hkr in Hd. by eapply Ht.
  - intros j r' Hj Hd. destruct (Hback _ _ Hj) as (r & Hr & Hkr & _). rewrite Hkr in Hd.
    apply (avoids_move m i n' q); [done..|]. by eapply Ht.
Qed.

(** A fresh inode: no entry points to it yet. *)
Lemma tree_add_inode dn dl ds m i n :
  tree dn dl ds m -> m !! KInode i = None -> FIRST_DIRENT_ID <= i_next_dirent_id n ->
  (i_kind n = Dir -> reaches m (i_parent_dir n)) ->
  tree (upd dn i (i_nlink n - (if is_dir (i_kind n) then 2 else 0)))
       (if is_dir (i_kind n) then upd dl i 1 else dl) (upd ds i 0)
       (<[KInode i := VInode n]> m).
Proof.
  intros Ht Hi Hfirst Hpar. set (m' := <[KInode i := VInode n]> m).
  destruct (tree_absent _ _ _ _ _ Ht Hi) as (Hl & Hs & Hno).
  assert (i <> ROOT_INO) as Hroot.
  { intros ->. destruct (tr_root _ _ _ _ Ht) as (r & Hr & _). congruence. }
  assert (forall j r, node m j r -> j <> i /\ node m' j r) as Hold.
  { intros j r Hj. assert (j <> i) by congruence. split; [done|]. unfold m'.
    by rewrite node_insert_ne. }
  assert (forall j, reaches m j -> reaches m' j) as Hre.
  { apply reaches_mono. intros a b Ha Hb. exists b. destruct (Hold _ _ Ha). done. }
  apply (tree_inodes dn dl ds _ _ _ m); [done|..].
  - intros k Hne. unfold m'. by rewrite lookup_insert_ne.
  - intros j v [[[= <-] <-]|[_ Hj]]%lookup_insert_Some; [by eexists|by eapply Ht].
  - destruct (tr_root _ _ _ _ Ht) as (r & Hr & ? & ?). exists r. by destruct (Hold _ _ Hr).
  - intros j r enc d Hj Hd _. exists r. destruct (Hold _ _ Hj). rewrite upd_ne by done.
    split_and!; [done..|lia].
  - intros j r Hj _. exists r. by destruct (Hold _ _ Hj).
  - intros j r [(-> & ->)|(Hne & Hj)]%node_upd_inv; [rewrite upd_eq; lia|].
    rewrite upd_ne by done. by apply Ht.
  - intros j r [(-> & ->)|(Hne & Hj)]%node_upd_inv Hd.
    + rewrite upd_eq. unfold is_dir. rewrite bool_decide_eq_false_2 by done. lia.
    + rewrite upd_ne by done. by apply Ht.
  - intros j r [(-> & ->)|(Hne & Hj)]%node_upd_inv Hd.
    + unfold is_dir. rewrite bool_decide_eq_true_2, !upd_eq by done.
      rewrite (proj2 (Z.eqb_neq i ROOT_INO)) by done. lia.
    + rewrite upd_ne by done. replace ((if is_dir (i_kind n) then upd dl i 1 else dl) j) with (dl j);
        [by apply Ht|]. case_match; [by rewrite upd_ne|done].
  - intros j r [(-> & ->)|(Hne & Hj)]%node_upd_inv Hd.
    + eapply reach_up; [apply lookup_insert_eq|done|]. auto.
    + apply Hre. by eapply Ht.
Qed.

(** A directory entered by exactly one entry is under the parent it names. *)
Lemma tree_parent_entry dn dl ds m c n :
  tree dn dl ds m -> node m c n -> i_kind n = Dir -> c <> ROOT_INO -> dl c = 0 ->
  exists enc d, dent m (i_parent_dir n) enc d /\ d_child_ino d = c.
Proof.
  intros Ht Hc Hk Hroot Hdl. destruct (tr_dir _ _ _ _ Ht c n Hc Hk) as [_ Hl].
  rewrite (proj2 (Z.eqb_neq c ROOT_INO)) in Hl by done.
  destruct (links_pos m c) as (p & enc & d & Hd & Hch); [lia|].
  destruct (tr_dirent _ _ _ _ Ht _ _ _ Hd) as (? & [= <-] & [_ _ _ _ (cn & Hcn & _ & Hpar)]).
  rewrite Hch in Hcn. assert (cn = n) as -> by congruence. rewrite Hpar by done. eauto.
Qed.

(** Dropping an inode that no entry points to, and that holds none. *)
Lemma tree_del_inode dn dl ds m i n :
  tree dn dl ds m -> node m i n -> i <> ROOT_INO -> links m i = 0 ->
  (i_kind n = Dir -> (forall enc, m !! KDirent i enc = None) /\ (forall c, c <> i -> dl c = 0)) ->
  tree dn dl ds (delete (KInode i) m).
Proof.
  intros Ht Hi Hroot Hl Hdir. set (m' := delete (KInode i) m).
  assert (forall j r, node m' j r <-> j <> i /\ node m j r) as Hnode.
  { intros j r. unfold m'. rewrite lookup_delete_Some. split; intros [? ?]; split; congruence. }
  assert (forall j enc d, dent m j enc d -> j <> i) as Hhold.
  { intros j enc d Hd ->. destruct (tr_dirent _ _ _ _ Ht _ _ _ Hd) as (? & [= <-] & [_ _ _ (pn & Hp & Hk & _) _]).
    assert (pn = n) as -> by congruence. destruct (Hdir Hk) as [Hno _]. specialize (Hno enc). congruence. }
  assert (forall c r, node m c r -> i_kind r = Dir -> c <> i -> reaches m (i_parent_dir r) ->
            i_parent_dir r <> i) as Hup.
  { intros c r Hc Hk Hne Hr E. destruct (decide (c = ROOT_INO)) as [->|Hcr].
    - destruct (tr_root _ _ _ _ Ht) as (r' & Hr' & _ & ?). congruence.
    - apply reaches_node in Hr as (n2 & Hn2 & Hk2). rewrite E in Hn2.
      assert (n2 = n) as -> by congruence.
      destruct (tree_parent_entry _ _ _ _ _ _ Ht Hc Hk Hcr) as (enc & d & Hd & _).
      { by apply (Hdir Hk2). }
      rewrite E in Hd. by apply (Hhold i enc d). }
  assert (forall j, reaches m j -> j <> i -> reaches m' j) as Hre.
  { intros j. induction 1 as [r Hr Hk|j r Hj Hk Hr IH]; intros Hne.
    - eapply reach_root; [by apply Hnode|done].
    - eapply reach_up; [by apply Hnode|done|]. apply IH. by eapply Hup. }
  apply (tree_inodes dn dl ds _ _ _ m); [done|..].
  - intros k Hne. unfold m'. by rewrite lookup_delete_ne.
  - intros j v [_ Hj]%lookup_delete_Some. by eapply Ht.
  - destruct (tr_root _ _ _ _ Ht) as (r & Hr & ? & ?). exists r. rewrite Hnode. auto.
  - intros j r enc d Hj Hk Hd. exists r. rewrite Hnode. split_and!; [by eapply Hhold|done..|lia].
  - intros j r Hj Hlj. exists r. rewrite Hnode. split_and!; [congruence|done..].
  - intros j r [_ Hj]%Hnode. by eapply Ht.
  - intros j r [_ Hj]%Hnode. by eapply Ht.
  - intros j r [_ Hj]%Hnode. by eapply Ht.
  - intros j r [Hne Hj]%Hnode Hk. apply Hre; [by eapply Ht|done].
Qed.

(** ** Entries *)

Lemma links_add_entry p enc d m i :
  m !! KDirent p enc = None ->
  links (add_entry p enc d m) i = links m i + (if d_child_ino d =? i then 1 else 0).
Proof.
  intros Hn. unfold add_entry, links. rewrite !msum_insert, Hn. simpl.
  destruct (_ !! KDirentIdx _ _) as [[]|]; simpl; lia.
Qed.

Lemma subdirs_add_entry p enc d m i :
  m !! KDirent p enc = None ->
  subdirs (add_entry p enc d m) i = subdirs m i + (if (p =? i) && is_dir (d_kind d) then 1 else 0).
Proof.
  intros Hn. unfold add_entry, subdirs. rewrite !msum_insert, Hn. simpl.
  destruct (_ !! KDirentIdx _ _) as [[]|]; simpl; lia.
Qed.

Lemma links_del_entry p enc id d m i :
  dent m p enc d ->
  links (del_entry p enc id m) i = links m i - (if d_child_ino d =? i then 1 else 0).
Proof.
  intros Hd. unfold del_entry, links. rewrite !msum_delete, Hd. simpl.
  destruct (_ !! KDirentIdx _ _) as [[]|]; simpl; lia.
Qed.

Lemma subdirs_del_entry p enc id d m i :
  dent m p enc d ->
  subdirs (del_entry p enc id m) i = subdirs m i - (if (p =? i) && is_dir (d_kind d) then 1 else 0).
Proof.
  intros Hd. unfold del_entry, subdirs. rewrite !msum_delete, Hd. simpl.
  destruct (_ !! KDirentIdx _ _) as [[]|]; simpl; lia.
Qed.

Lemma add_entry_node p enc d m i : add_entry p enc d m !! KInode i = m !! KInode i.
Proof. unfold add_entry. by rewrite !lookup_insert_ne. Qed.
Lemma del_entry_node p enc id m i : del_entry p enc id m !! KInode i = m !! KInode i.
Proof. unfold del_entry. by rewrite !lookup_delete_ne. Qed.

Lemma is_dir_true k : is_dir k = true <-> k = Dir.
Proof. unfold is_dir. by rewrite bool_decide_eq_true. Qed.
Lemma is_dir_false k : is_dir k = false <-> k <> Dir.
Proof. unfold is_dir. by rewrite bool_decide_eq_false. Qed.

(** The counting part of adding ([z = 1]) or removing ([z = -1]) an entry. *)
Lemma entry_counts dn dl ds m m' p d z cn :
  tree dn dl ds m -> node m (d_child_ino d) cn -> i_kind cn = d_kind d ->
  (exists pn, node m p pn /\ i_kind pn = Dir) ->
  (forall i, m' !! KInode i = m !! KInode i) ->
  (forall i, links m' i = links m i + (if d_child_ino d =? i then z else 0)) ->
  (forall i, subdirs m' i = subdirs m i + (if (p =? i) && is_dir (d_kind d) then z else 0)) ->
  (forall i n, node m' i n -> i_kind n <> Dir -> i_nlink n = links m' i + entry_dn dn p d (- z) i) /\
  (forall i n, node m' i n -> i_kind n = Dir ->
     i_nlink n = 2 + subdirs m' i + entry_dn dn p d (- z) i /\
     links m' i + entry_dl dl d (- z) i = (if i =? ROOT_INO then 0 else 1)).
Proof.
  intros Ht Hc Hck (pn & Hp & Hpk) Hnode Hl Hs. unfold entry_dn, entry_dl, bump.
  split; intros i n Hi Hk; rewrite Hnode in Hi; rewrite Hl, ?Hs.
  - pose proof (tr_file _ _ _ _ Ht i n Hi Hk). destruct (is_dir (d_kind d)) eqn:Hd.
    + apply is_dir_true in Hd. destruct (Z.eqb_spec (d_child_ino d) i), (Z.eqb_spec i p); try congruence; lia.
    + destruct (Z.eqb_spec (d_child_ino d) i), (Z.eqb_spec i (d_child_ino d)); try congruence; lia.
  - pose proof (tr_dir _ _ _ _ Ht i n Hi Hk). destruct (is_dir (d_kind d)) eqn:Hd.
    + destruct (Z.eqb_spec (d_child_ino d) i), (Z.eqb_spec i (d_child_ino d)), (Z.eqb_spec p i),
        (Z.eqb_spec i p); simpl; try congruence; lia.
    + apply is_dir_false in Hd. rewrite andb_false_r.
      destruct (Z.eqb_spec (d_child_ino d) i), (Z.eqb_spec i (d_child_ino d)); try congruence; lia.
Qed.

Lemma tree_reach_agree dn dl ds m m' i n :
  tree dn dl ds m -> (forall j, m' !! KInode j = m !! KInode j) ->
  node m' i n -> i_kind n = Dir -> reaches m' i.
Proof.
  intros Ht Hn Hi Hk. rewrite Hn in Hi. pose proof (tr_reach _ _ _ _ Ht i n Hi Hk) as Hr.
  revert Hr. apply reaches_mono. intros j r. rewrite Hn. eauto.
Qed.

(** Distinct entries of a directory have distinct ids. *)
Lemma tree_id_inj dn dl ds m p enc d enc' d' :
  tree dn dl ds m -> dent m p enc d -> dent m p enc' d' -> d_dirent_id d = d_dirent_id d' -> enc = enc'.
Proof.
  intros Ht Hd Hd' E.
  destruct (tr_dirent _ _ _ _ Ht _ _ _ Hd) as (? & [= <-] & [_ _ H1 _ _]).
  destruct (tr_dirent _ _ _ _ Ht _ _ _ Hd') as (? & [= <-] & [_ _ H2 _ _]).
  rewrite E, H2 in H1. unfold idx_of in H1. congruence.
Qed.

Lemma tree_add_entry dn dl ds m p enc d pn cn :
  tree dn dl ds m -> node m p pn -> i_kind pn = Dir ->
  node m (d_child_ino d) cn -> i_kind cn = d_kind d -> (i_kind cn = Dir -> i_parent_dir cn = p) ->
  m !! KDirent p enc = None -> seal_name names p (d_name d) = Ok enc ->
  validate_name (d_name d) = Ok tt -> d_dirent_id d = i_next_dirent_id pn + ds p ->
  tree (entry_dn dn p d (-1)) (entry_dl dl d (-1)) (bump ds p 1) (add_entry p enc d m).
Proof.
  intros Ht Hp Hpk Hc Hck Hcp Hfree Hseal Hval Hid. set (m' := add_entry p enc d m).
  pose proof (tr_first _ _ _ _ Ht p pn Hp) as Hfirst.
  assert (forall i, m' !! KInode i = m !! KInode i) as Hnode by (intros; apply add_entry_node).
  destruct (entry_counts dn dl ds m m' p d 1 cn) as [Hfile Hdir]; [done..|by eexists|done| | |].
  { intros. by apply links_add_entry. }
  { intros. by apply subdirs_add_entry. }
  assert (forall p' enc' d', dent m p' enc' d' -> (p', d_dirent_id d') <> (p, d_dirent_id d)) as Hfresh.
  { intros p' enc' d' Hd' [= -> E].
    destruct (tr_dirent _ _ _ _ Ht _ _ _ Hd') as (? & [= <-] & [_ _ _ (pn' & Hp' & _ & Hlt) _]).
    assert (pn' = pn) as -> by congruence. lia. }
  split; [| | | | |done|done|].
  - intros i v. rewrite Hnode. apply Ht.
  - setoid_rewrite Hnode. apply Ht.
  - intros p' enc' v Hv. unfold m', add_entry in Hv. rewrite lookup_insert_ne in Hv by done.
    apply lookup_insert_Some in Hv as [[[= <- <-] <-]|[Hne Hv]].
    + exists d. split; [done|]. split; [done|done|apply lookup_insert_eq| |].
      * exists pn. rewrite Hnode, bump_eq. split_and!; [done|done|lia|lia].
      * exists cn. rewrite Hnode. done.
    + destruct (tr_dirent _ _ _ _ Ht _ _ _ Hv) as (d' & -> & He). exists d'. split; [done|].
      eapply entry_keep; [exact He|..].
      * unfold m', add_entry. rewrite lookup_insert_ne by (intros [= E1 E2]; apply (Hfresh _ _ _ Hv); congruence).
        by rewrite lookup_insert_ne.
      * intros pn' Hp' Hk. exists pn'. rewrite Hnode. split_and!; [done|done|].
        unfold bump. case_match; lia.
      * intros cn' Hcn'. exists cn'. by rewrite Hnode.
  - intros p' id v Hv. unfold m', add_entry in Hv.
    apply lookup_insert_Some in Hv as [[[= <- <-] <-]|[Hne Hv]].
    + exists enc, d. split; [|done]. unfold m', add_entry. rewrite lookup_insert_ne by done.
      apply lookup_insert_eq.
    + rewrite lookup_insert_ne in Hv by done. destruct (tr_idx _ _ _ _ Ht p' id v Hv) as (enc' & d' & Hd' & <-).
      exists enc', d'. split; [|done]. unfold m', add_entry. rewrite lookup_insert_ne by done.
      rewrite lookup_insert_ne by congruence. done.
  - intros i n. rewrite Hnode. intros Hi. pose proof (tr_first _ _ _ _ Ht i n Hi).
    unfold bump. case_match; lia.
  - intros i n. by apply (tree_reach_agree dn dl ds m).
Qed.

Lemma tree_del_entry dn dl ds m p enc d :
  tree dn dl ds m -> dent m p enc d ->
  tree (entry_dn dn p d 1) (entry_dl dl d 1) ds (del_entry p enc (d_dirent_id d) m).
Proof.
  intros Ht Hd. set (m' := del_entry p enc (d_dirent_id d) m).
  assert (forall i, m' !! KInode i = m !! KInode i) as Hnode by (intros; apply del_entry_node).
  destruct (tr_dirent _ _ _ _ Ht _ _ _ Hd) as (? & [= <-] & [_ _ _ (pn & Hp & Hpk & _) (cn & Hc & Hck & _)]).
  destruct (entry_counts dn dl ds m m' p d (-1) cn) as [Hfile Hdir]; [done..|by eexists|done| | |].
  { intros i. unfold m'. rewrite (links_del_entry p enc _ d) by done. case_match; lia. }
  { intros i. unfold m'. rewrite (subdirs_del_entry p enc _ d) by done. case_match; lia. }
  split; [| | | | |done|done|].
  - intros i v. rewrite Hnode. apply Ht.
  - setoid_rewrite Hnode. apply Ht.
  - intros p' enc' v Hv. unfold m', del_entry in Hv.
    apply lookup_delete_Some in Hv as [_ [Hne Hv]%lookup_delete_Some].
    destruct (tr_dirent _ _ _ _ Ht _ _ _ Hv) as (d' & -> & He). exists d'. split; [done|].
    eapply entry_keep; [exact He|..].
    + unfold m', del_entry. rewrite lookup_delete_ne, lookup_delete_ne; [done|done|].
      intros [= <- E]. apply Hne. f_equal. by eapply tree_id_inj.
    + intros pn' Hp' Hk. exists pn'. rewrite Hnode. split_and!; [done|done|lia].
    + intros cn' Hcn'. exists cn'. by rewrite Hnode.
  - intros p' id v Hv. unfold m', del_entry in Hv.
    apply lookup_delete_Some in Hv as [Hne [_ Hv]%lookup_delete_Some].
    destruct (tr_idx _ _ _ _ Ht p' id v Hv) as (enc' & d' & Hd' & <-).
    exists enc', d'. split; [|done]. unfold m', del_entry.
    rewrite lookup_delete_ne by done. rewrite lookup_delete_ne; [done|]. intros [= <- <-]. congruence.
  - intros i n. rewrite Hnode. by apply Ht.
  - intros i n. by apply (tree_reach_agree dn dl ds m).
Qed.

(** ** Whole operations *)

Lemma tree_ok_file m i n : tree_ok m -> node m i n -> i_kind n <> Dir -> i_nlink n = links m i.
Proof. intros Ht Hi Hk. rewrite (tr_file _ _ _ _ Ht i n Hi Hk). lia. Qed.
Lemma tree_ok_dir m i n :
  tree_ok m -> node m i n -> i_kind n = Dir ->
  i_nlink n = 2 + subdirs m i /\ links m i = (if i =? ROOT_INO then 0 else 1).
Proof. intros Ht Hi Hk. destruct (tr_dir _ _ _ _ Ht i n Hi Hk) as [-> H]. lia. Qed.

Lemma tree_create m p pn pn' c n enc d :
  tree_ok m -> node m p pn -> i_kind pn = Dir -> m !! KInode c = None -> m !! KDirent p enc = None ->
  d_child_ino d = c -> d_kind d = i_kind n -> d_dirent_id d = i_next_dirent_id pn ->
  seal_name names p (d_name d) = Ok enc -> validate_name (d_name d) = Ok tt ->
  i_nlink n = (if is_dir (i_kind n) then 2 else 1) -> i_next_dirent_id n = FIRST_DIRENT_ID ->
  (i_kind n = Dir -> i_parent_dir n = p) ->
  i_kind pn' = i_kind pn -> i_parent_dir pn' = i_parent_dir pn ->
  i_nlink pn' = i_nlink pn + (if is_dir (i_kind n) then 1 else 0) ->
  i_next_dirent_id pn' = i_next_dirent_id pn + 1 ->
  tree_ok (<[KInode p := VInode pn']> (add_entry p enc d (<[KInode c := VInode n]> m))).
Proof.
  intros Ht Hp Hpk Hc He <- Hdk Hid Hseal Hval Hnl Hnx Hpar Hk' Hp' Hnl' Hnx'.
  assert (p <> d_child_ino d) as Hne by congruence.
  assert (node (<[KInode (d_child_ino d) := VInode n]> m) p pn) as Hp1 by (by rewrite node_insert_ne).
  pose proof (tree_add_inode _ _ _ m (d_child_ino d) n Ht Hc ltac:(lia)
    ltac:(intros Hd; rewrite (Hpar Hd); by eapply Ht)) as H1.
  eapply (tree_add_entry _ _ _ _ p enc d pn n) in H1;
    [|done|done|apply lookup_insert_eq|done|done|by rewrite lookup_insert_ne|done|done|
     rewrite upd_ne by done; lia].
  eapply (tree_upd_inode _ _ _ _ p pn pn') in H1; [|by rewrite add_entry_node|done|done].
  eapply tree_ext; [|exact H1]. unfold entry_dn, entry_dl. rewrite Hdk.
  clear H1. revert Hnl Hnl'. destruct (is_dir (i_kind n)); disc.
Qed.

Lemma tree_link m p pn pn' i n n' enc d :
  tree_ok m -> node m p pn -> i_kind pn = Dir -> node m i n -> i_kind n <> Dir ->
  m !! KDirent p enc = None -> d_child_ino d = i -> d_kind d = i_kind n ->
  d_dirent_id d = i_next_dirent_id pn ->
  seal_name names p (d_name d) = Ok enc -> validate_name (d_name d) = Ok tt ->
  i_kind n' = i_kind n -> i_parent_dir n' = i_parent_dir n ->
  i_nlink n' = i_nlink n + 1 -> i_next_dirent_id n' = i_next_dirent_id n ->
  i_kind pn' = i_kind pn -> i_parent_dir pn' = i_parent_dir pn -> i_nlink pn' = i_nlink pn ->
  i_next_dirent_id pn' = i_next_dirent_id pn + 1 ->
  tree_ok (<[KInode p := VInode pn']> (add_entry p enc d (<[KInode i := VInode n']> m))).
Proof.
  intros Ht Hp Hpk Hi Hk He <- Hdk Hid Hseal Hval Hk1 Hp1 Hnl Hnx Hk' Hp' Hnl' Hnx'.
  assert (p <> d_child_ino d) as Hne by congruence.
  pose proof (tree_upd_inode _ _ _ m (d_child_ino d) n n' Ht Hi Hk1 Hp1) as H1.
  eapply (tree_add_entry _ _ _ _ p enc d pn n') in H1;
    [|by rewrite node_insert_ne|done|apply lookup_insert_eq|congruence|congruence|
     by rewrite lookup_insert_ne|done|done|rewrite bump_ne by done; lia].
  eapply (tree_upd_inode _ _ _ _ p pn pn') in H1;
    [|by rewrite add_entry_node, node_insert_ne|done|done].
  assert (is_dir (d_kind d) = false) as Hd by (apply is_dir_false; congruence).
  eapply tree_ext; [|exact H1]. unfold entry_dn, entry_dl. rewrite Hd. disc.
Qed.

(** Removing the entry of a file and rewriting its inode with one link less. *)
Lemma tree_unlink_keep m p pn pn' enc d n n' :
  tree_ok m -> dent m p enc d -> node m p pn -> node m (d_child_ino d) n -> i_kind n <> Dir ->
  i_kind pn' = i_kind pn -> i_parent_dir pn' = i_parent_dir pn -> i_nlink pn' = i_nlink pn ->
  i_next_dirent_id pn' = i_next_dirent_id pn ->
  i_kind n' = i_kind n -> i_parent_dir n' = i_parent_dir n -> i_nlink n' = i_nlink n - 1 ->
  i_next_dirent_id n' = i_next_dirent_id n ->
  tree_ok (<[KInode (d_child_ino d) := VInode n']>
             (<[KInode p := VInode pn']> (del_entry p enc (d_dirent_id d) m))).
Proof.
  intros Ht Hd Hp Hc Hk Hk1 Hp1 Hnl1 Hnx1 Hk2 Hp2 Hnl2 Hnx2.
  destruct (tr_dirent _ _ _ _ Ht _ _ _ Hd) as (? & [= <-] & [_ _ _ (pn0 & Hp0 & Hpk & _) (cn & Hcn & Hck & _)]).
  assert (pn0 = pn) as -> by congruence. assert (cn = n) as -> by congruence.
  assert (d_child_ino d <> p) as Hne by congruence.
  assert (is_dir (d_kind d) = false) as Hdk by (apply is_dir_false; congruence).
  pose proof (tree_del_entry _ _ _ m p enc d Ht Hd) as H1.
  eapply (tree_upd_inode _ _ _ _ p pn pn') in H1; [|by rewrite del_entry_node|done|done].
  eapply (tree_upd_inode _ _ _ _ (d_child_ino d) n n') in H1;
    [|by rewrite node_insert_ne, del_entry_node|done|done].
  eapply tree_ext; [|exact H1]. unfold entry_dn, entry_dl. rewrite Hdk. disc.
Qed.

(** Removing the last entry of a file, with its inode. *)
Lemma tree_unlink_gone m p pn pn' enc d n :
  tree_ok m -> dent m p enc d -> node m p pn -> node m (d_child_ino d) n -> i_kind n <> Dir ->
  i_kind pn' = i_kind pn -> i_parent_dir pn' = i_parent_dir pn -> i_nlink pn' = i_nlink pn ->
  i_next_dirent_id pn' = i_next_dirent_id pn -> i_nlink n = 1 ->
  tree_ok (delete (KInode (d_child_ino d))
             (<[KInode p := VInode pn']> (del_entry p enc (d_dirent_id d) m))).
Proof.
  intros Ht Hd Hp Hc Hk Hk1 Hp1 Hnl1 Hnx1 Hnl.
  destruct (tr_dirent _ _ _ _ Ht _ _ _ Hd) as (? & [= <-] & [_ _ _ (pn0 & Hp0 & Hpk & _) (cn & Hcn & Hck & _)]).
  assert (pn0 = pn) as -> by congruence. assert (cn = n) as -> by congruence.
  assert (d_child_ino d <> p) as Hne by congruence.
  assert (is_dir (d_kind d) = false) as Hdk by (apply is_dir_false; congruence).
  assert (d_child_ino d <> ROOT_INO) as Hroot.
  { intros E. destruct (tr_root _ _ _ _ Ht) as (r & Hr & ? & _). congruence. }
  pose proof (tree_del_entry _ _ _ m p enc d Ht Hd) as H1.
  eapply (tree_upd_inode _ _ _ _ p pn pn') in H1; [|by rewrite del_entry_node|done|done].
  set (m1 := <[KInode p := VInode pn']> _) in *.
  assert (node m1 (d_child_ino d) n) as Hc1 by (unfold m1; by rewrite node_insert_ne, del_entry_node).
  assert (links m1 (d_child_ino d) = 0) as Hl.
  { pose proof (tr_file _ _ _ _ H1 _ _ Hc1 Hk) as E. unfold entry_dn in E. rewrite Hdk in E.
    rewrite bump_ne, bump_eq in E by done. lia. }
  eapply (tree_del_inode _ _ _ _ _ n) in H1; [|done..|intros; by destruct Hk].
  eapply tree_ext; [|exact H1]. intros i r [Hi _]%lookup_delete_Some. unfold entry_dn, entry_dl.
  rewrite Hdk. disc.
Qed.

(** Removing an empty directory. *)
Lemma tree_rmdir m p pn pn' enc d n :
  tree_ok m -> dent m p enc d -> node m p pn -> node m (d_child_ino d) n -> i_kind n = Dir ->
  (forall e, m !! KDirent (d_child_ino d) e = None) ->
  i_kind pn' = i_kind pn -> i_parent_dir pn' = i_parent_dir pn -> i_nlink pn' = i_nlink pn - 1 ->
  i_next_dirent_id pn' = i_next_dirent_id pn ->
  tree_ok (<[KInode p := VInode pn']>
             (delete (KInode (d_child_ino d)) (del_entry p enc (d_dirent_id d) m))).
Proof.
  intros Ht Hd Hp Hc Hk Hempty Hk1 Hp1 Hnl1 Hnx1.
  destruct (tr_dirent _ _ _ _ Ht _ _ _ Hd) as (? & [= <-] & [_ _ _ _ (cn & Hcn & Hck & _)]).
  assert (cn = n) as -> by congruence.
  assert (is_dir (d_kind d) = true) as Hdk by (apply is_dir_true; congruence).
  assert (p <> d_child_ino d) as Hne by (intros ->; specialize (Hempty enc); congruence).
  destruct (tr_dir _ _ _ _ Ht _ _ Hc Hk) as [_ Hl]. pose proof (links_dent _ _ _ _ Hd).
  destruct (Z.eqb_spec (d_child_ino d) ROOT_INO) as [|Hroot]; [lia|].
  pose proof (tree_del_entry _ _ _ m p enc d Ht Hd) as H1.
  eapply (tree_del_inode _ _ _ _ (d_child_ino d) n) in H1; cycle 1.
  { by rewrite del_entry_node. } { done. }
  { rewrite (links_del_entry _ _ _ d) by done. rewrite Z.eqb_refl. lia. }
  { intros _. split.
    - intros e. unfold del_entry. rewrite lookup_delete_ne by done. by rewrite lookup_delete_ne by congruence.
    - intros c Hcne. unfold entry_dl. rewrite Hdk. by rewrite bump_ne. }
  eapply (tree_upd_inode _ _ _ _ p pn pn') in H1;
    [|rewrite lookup_delete_ne by congruence; by rewrite del_entry_node|done|done].
  eapply tree_ext; [|exact H1].
  intros i r [(-> & ->)|(Hi & [Hi2 _]%lookup_delete_Some)]%node_upd_inv;
    unfold entry_dn, entry_dl; rewrite Hdk; disc.
Qed.

Lemma add_entry_inode_comm p enc d i v m :
  add_entry p enc d (<[KInode i := v]> m) = <[KInode i := v]> (add_entry p enc d m).
Proof. unfold add_entry. by rewrite !(insert_insert_ne _ (KInode i)). Qed.

Lemma avoids_agree m m' x i :
  (forall j, m' !! KInode j = m !! KInode j) -> avoids m x i -> avoids m' x i.
Proof.
  intros H. induction 1; [eapply avoid_root|eapply avoid_up]; try done; by rewrite H.
Qed.

Lemma avoids_ne m x i : avoids m x i -> i <> x.
Proof. destruct 1; congruence. Qed.

Lemma reaches_irrefl m i n : reaches m i -> node m i n -> i <> ROOT_INO -> i_parent_dir n <> i.
Proof.
  intros Hr. revert n. induction Hr as [r _ _|i n' Hn' _ _ IH]; intros n Hn Hroot E; [done|].
  assert (n' = n) as -> by congruence. apply (IH n); congruence.
Qed.

(** An entry never points to the directory that holds it, nor to the root. *)
Lemma tree_child_ne m p enc d : tree_ok m -> dent m p enc d -> d_child_ino d <> p /\ d_child_ino d <> ROOT_INO.
Proof.
  intros Ht Hd.
  destruct (tr_dirent _ _ _ _ Ht _ _ _ Hd) as (? & [= <-] & [_ _ _ (pn & Hp & Hpk & _) (cn & Hc & Hck & Hcp)]).
  pose proof (links_dent _ _ _ _ Hd) as Hl. destruct (tr_root _ _ _ _ Ht) as (r & Hr & Hrk & _).
  assert (d_child_ino d <> ROOT_INO) as Hroot.
  { intros E. rewrite E in Hl. destruct (tr_dir _ _ _ _ Ht _ _ Hr Hrk) as [_ E']. simpl in E'. lia. }
  split; [|done]. intros E. rewrite E in Hc. assert (cn = pn) as -> by congruence.
  apply (reaches_irrefl m p pn); [by eapply Ht|done|congruence|auto].
Qed.

(** Moving an entry within its directory. *)
Lemma tree_move_same m p pn pn' enc d enc' d' n n' :
  tree_ok m -> dent m p enc d -> node m p pn -> node m (d_child_ino d) n ->
  m !! KDirent p enc' = None -> seal_name names p (d_name d') = Ok enc' ->
  validate_name (d_name d') = Ok tt ->
  d_child_ino d' = d_child_ino d -> d_kind d' = i_kind n -> d_dirent_id d' = i_next_dirent_id pn ->
  i_kind n' = i_kind n -> i_parent_dir n' = i_parent_dir n -> i_nlink n' = i_nlink n ->
  i_next_dirent_id n' = i_next_dirent_id n ->
  i_kind pn' = i_kind pn -> i_parent_dir pn' = i_parent_dir pn -> i_nlink pn' = i_nlink pn ->
  i_next_dirent_id pn' = i_next_dirent_id pn + 1 ->
  tree_ok (<[KInode p := VInode pn']> (<[KInode (d_child_ino d) := VInode n']>
             (add_entry p enc' d' (del_entry p enc (d_dirent_id d) m)))).
Proof.
  intros Ht Hd Hp Hc He' Hseal Hval Hch Hdk Hid Hk1 Hp1 Hnl1 Hnx1 Hk2 Hp2 Hnl2 Hnx2.
  destruct (tr_dirent _ _ _ _ Ht _ _ _ Hd) as (? & [= <-] & [_ _ _ (pn0 & Hp0 & Hpk & _) (cn & Hcn & Hck & Hcp)]).
  assert (pn0 = pn) as -> by congruence. assert (cn = n) as -> by congruence.
  destruct (tree_child_ne m p enc d Ht Hd) as [Hne _].
  pose proof (tree_del_entry _ _ _ m p enc d Ht Hd) as H1.
  eapply (tree_upd_inode _ _ _ _ (d_child_ino d) n n') in H1; [|by rewrite del_entry_node|done|done].
  eapply (tree_add_entry _ _ _ _ p enc' d' pn n') in H1; cycle 1.
  { rewrite node_insert_ne by done. by rewrite del_entry_node. } { done. }
  { rewrite Hch. apply lookup_insert_eq. } { congruence. } { rewrite Hk1, Hp1. done. }
  { rewrite lookup_insert_ne by done. unfold del_entry. rewrite lookup_delete_ne by done.
    rewrite lookup_delete_ne; congruence. }
  { done. } { done. } { rewrite bump_ne by done. lia. }
  rewrite add_entry_inode_comm in H1.
  eapply (tree_upd_inode _ _ _ _ p pn pn') in H1;
    [|by rewrite node_insert_ne, add_entry_node, del_entry_node by done|done|done].
  eapply tree_ext; [|exact H1]. unfold entry_dn, entry_dl. rewrite Hdk, <- Hck, Hch. clear H1.
  destruct (is_dir (i_kind n)); disc.
Qed.

(** Moving an entry to another directory. *)
Lemma tree_move_cross m p pn pn' q qn qn' enc d enc' d' n n' :
  tree_ok m -> p <> q -> dent m p enc d -> node m p pn -> node m q qn -> i_kind qn = Dir ->
  node m (d_child_ino d) n -> m !! KDirent q enc' = None ->
  seal_name names q (d_name d') = Ok enc' -> validate_name (d_name d') = Ok tt ->
  d_child_ino d' = d_child_ino d -> d_kind d' = i_kind n -> d_dirent_id d' = i_next_dirent_id qn ->
  (i_kind n = Dir -> avoids m (d_child_ino d) q) ->
  i_kind n' = i_kind n -> i_parent_dir n' = (if is_dir (i_kind n) then q else i_parent_dir n) ->
  i_nlink n' = i_nlink n -> i_next_dirent_id n' = i_next_dirent_id n ->
  i_kind pn' = i_kind pn -> i_parent_dir pn' = i_parent_dir pn ->
  i_nlink pn' = i_nlink pn - (if is_dir (i_kind n) then 1 else 0) ->
  i_next_dirent_id pn' = i_next_dirent_id pn ->
  i_kind qn' = i_kind qn -> i_parent_dir qn' = i_parent_dir qn ->
  i_nlink qn' = i_nlink qn + (if is_dir (i_kind n) then 1 else 0) ->
  i_next_dirent_id qn' = i_next_dirent_id qn + 1 ->
  tree_ok (<[KInode q := VInode qn']> (<[KInode p := VInode pn']> (<[KInode (d_child_ino d) := VInode n']>
             (add_entry q enc' d' (del_entry p enc (d_dirent_id d) m))))).
Proof.
  intros Ht Hpq Hd Hp Hq Hqk Hc He' Hseal Hval Hch Hdk Hid Hav Hk1 Hp1 Hnl1 Hnx1 Hk2 Hp2 Hnl2 Hnx2
    Hk3 Hp3 Hnl3 Hnx3.
  destruct (tr_dirent _ _ _ _ Ht _ _ _ Hd) as (? & [= <-] & [_ _ _ (pn0 & Hp0 & Hpk & _) (cn & Hcn & Hck & Hcp)]).
  assert (pn0 = pn) as -> by congruence. assert (cn = n) as -> by congruence.
  destruct (tree_child_ne m p enc d Ht Hd) as [Hne Hroot].
  assert (q <> d_child_ino d) as Hqc.
  { intros E. destruct (decide (i_kind n = Dir)) as [Hk|Hk]; [by apply (avoids_ne m _ _ (Hav Hk))|congruence]. }
  pose proof (tree_del_entry _ _ _ m p enc d Ht Hd) as H1.
  set (m1 := del_entry _ _ _ _) in *.
  assert (forall j, m1 !! KInode j = m !! KInode j) as Hm1 by (intros; apply del_entry_node).
  assert (tree (bump (entry_dn (fun _ => 0) p d 1) (d_child_ino d) 0) (entry_dl (fun _ => 0) d 1)
            (bump (fun _ => 0) (d_child_ino d) 0) (<[KInode (d_child_ino d) := VInode n']> m1)) as H2.
  { destruct (is_dir (i_kind n)) eqn:Hk.
    - apply is_dir_true in Hk.
      assert (links m1 (d_child_ino d) = 0) as Hl1.
      { unfold m1. rewrite (links_del_entry _ _ _ d), Z.eqb_refl by done.
        destruct (tr_dir _ _ _ _ Ht _ _ Hc Hk) as [_ Hl].
        rewrite (proj2 (Z.eqb_neq _ ROOT_INO)) in Hl by done. lia. }
      pose proof (tree_reparent _ _ _ m1 _ n q H1 ltac:(by rewrite Hm1) Hk Hroot Hl1
        (avoids_agree m m1 _ _ Hm1 (Hav Hk))) as H2.
      eapply (tree_upd_inode _ _ _ _ _ (set_i_parent_dir q n) n') in H2; [|apply lookup_insert_eq|done|done].
      rewrite insert_insert_eq in H2. eapply tree_ext; [|exact H2]. disc.
    - pose proof (tree_upd_inode _ _ _ m1 _ n n' H1 ltac:(by rewrite Hm1) Hk1 Hp1) as H2.
      eapply tree_ext; [|exact H2]. disc. }
  eapply (tree_add_entry _ _ _ _ q enc' d' qn n') in H2; cycle 1.
  { by rewrite node_insert_ne, Hm1. } { done. } { rewrite Hch. apply lookup_insert_eq. } { congruence. }
  { intros Hk. rewrite Hp1. rewrite Hk1 in Hk. by rewrite (proj2 (is_dir_true _) Hk). }
  { rewrite lookup_insert_ne by done. unfold m1, del_entry. rewrite lookup_delete_ne by done.
    rewrite lookup_delete_ne; congruence. }
  { done. } { done. } { rewrite bump_ne by done. lia. }
  rewrite add_entry_inode_comm in H2.
  eapply (tree_upd_inode _ _ _ _ p pn pn') in H2;
    [|by rewrite node_insert_ne, add_entry_node, Hm1 by done|done|done].
  eapply (tree_upd_inode _ _ _ _ q qn qn') in H2;
    [|by rewrite !node_insert_ne, add_entry_node, Hm1 by done|done|done].
  eapply tree_ext; [|exact H2]. unfold entry_dn, entry_dl. rewrite Hdk, <- Hck, Hch. clear H1 H2.
  revert Hnl2 Hnl3. destruct (is_dir (i_kind n)); disc.
Qed.
End tree.
