(* ===== verification/Wf.v ===== *)
(** The invariant of a volume's records.

    [wf] adds to the directory tree the chunk data and its bill, the quota
    counters, the orphan markers and the inode-number bound.  The lemmas say
    which parts a batch touches, so that each operation proves only what it
    changes. *)

From S2P Require Import Prelude Keys Meta Store Data Quota Locks Volume Vfs Tree.

(** * Batches, key by key *)

Definition op_key (op : BatchOp) : Key :=
  match op with Put k _ => k | Delete k => k | Merge k _ => k end.

Lemma apply_op_frame m op k : op_key op <> k -> apply_op m op !! k = m !! k.
Proof.
  destruct op; simpl; intros H.
  - by rewrite lookup_insert_ne.
  - by rewrite lookup_delete_ne.
  - by apply (merge_frame m k0).
Qed.

Lemma apply_op_local m m' op k : m !! k = m' !! k -> apply_op m op !! k = apply_op m' op !! k.
Proof.
  intros E. destruct (decide (op_key op = k)) as [<-|Hne]; [|by rewrite !apply_op_frame].
  destruct op; simpl in *.
  - by rewrite !lookup_insert_eq.
  - by rewrite !lookup_delete_eq.
  - rewrite E. case_match; [by rewrite !lookup_insert_eq|done].
Qed.

Lemma apply_batch_local m m' b k : m !! k = m' !! k -> apply_batch m b !! k = apply_batch m' b !! k.
Proof.
  unfold apply_batch. revert m m'. induction b as [|op b IH]; simpl; intros m m' E; [done|].
  apply IH. by apply apply_op_local.
Qed.

Lemma apply_batch_frame m b k : Forall (fun op => op_key op <> k) b -> apply_batch m b !! k = m !! k.
Proof.
  unfold apply_batch. intros H. revert m. induction H as [|op b Hop _ IH]; intros m; simpl; [done|].
  by rewrite IH, apply_op_frame.
Qed.

(** The operations of a batch on a set of keys decide the records there. *)
Definition ops_on (f : Key -> bool) (b : WriteBatch) : WriteBatch :=
  List.filter (fun op => f (op_key op)) b.

Lemma apply_ops_on f m b k : f k = true -> apply_batch m b !! k = apply_batch m (ops_on f b) !! k.
Proof.
  intros Hk. unfold apply_batch. revert m. induction b as [|op b IH]; intros m; simpl; [done|].
  destruct (f (op_key op)) eqn:Hf; simpl; [apply IH|].
  rewrite <- IH. apply apply_batch_local, apply_op_frame. congruence.
Qed.

Lemma ops_on_app f b1 b2 : ops_on f (b1 ++ b2) = ops_on f b1 ++ ops_on f b2.
Proof. apply List.filter_app. Qed.

Lemma ops_on_none f b : Forall (fun op => f (op_key op) = false) b -> ops_on f b = [].
Proof. induction 1 as [|op b Hop _ IH]; simpl; [done|]. by rewrite Hop. Qed.

Lemma apply_op_comm m op1 op2 :
  op_key op1 <> op_key op2 -> apply_op (apply_op m op1) op2 = apply_op (apply_op m op2) op1.
Proof.
  intros Hne. apply map_eq. intros k.
  destruct (decide (op_key op1 = k)) as [<-|H1].
  - rewrite (apply_op_frame _ op2) by congruence. apply apply_op_local. by rewrite apply_op_frame by congruence.
  - rewrite (apply_op_frame _ op1) by done. apply apply_op_local. by rewrite apply_op_frame.
Qed.

(** Batches on different keys commute. *)
Lemma apply_batch_swap m b1 b2 :
  (forall op1 op2, op1 ∈ b1 -> op2 ∈ b2 -> op_key op1 <> op_key op2) ->
  apply_batch m (b1 ++ b2) = apply_batch m (b2 ++ b1).
Proof.
  intros Hd. apply map_eq. intros k. rewrite !apply_batch_app.
  destruct (decide (k ∈ op_key <$> b2)) as [He|He].
  - assert (Forall (fun op => op_key op <> k) b1) as H1.
    { apply list_elem_of_fmap in He as (op2 & -> & Hop2). apply Forall_forall. intros op1 Hop1. auto. }
    rewrite (apply_batch_frame _ b1) by done. apply apply_batch_local. by rewrite apply_batch_frame.
  - assert (Forall (fun op => op_key op <> k) b2) as H2.
    { apply Forall_forall. intros op Hop <-. apply He. by apply list_elem_of_fmap_2. }
    rewrite (apply_batch_frame _ b2) by done. apply apply_batch_local. by rewrite apply_batch_frame.
Qed.

(** ** Counters *)

Definition delta_of (k : Key) (op : BatchOp) : i64 :=
  match op with
  | Merge k' d => if decide (k' = k) then as_i64 (from_le d) else 0
  | _ => 0
  end.
Definition deltas (k : Key) (b : WriteBatch) : Z := foldr (fun op acc => delta_of k op + acc) 0 b.

(** The operation leaves [k] a counter. *)
Definition counter_safe (k : Key) (op : BatchOp) : Prop :=
  match op with
  | Put k' _ | Delete k' => k' <> k
  | Merge k' d => k' = k -> exists x, d = encode_delta x
  end.

Lemma delta_of_merge k x : delta_of k (Merge k (encode_delta x)) = as_i64 x.
Proof. unfold delta_of. rewrite decide_True by done. unfold encode_delta. by apply i64_le_wrap. Qed.

(** A batch adds its merges to a counter. *)
Lemma counter_batch m b k :
  counter_ok m k -> Forall (counter_safe k) b ->
  counter_ok (apply_batch m b) k /\
  counter (apply_batch m b) k = as_i64 (counter m k + deltas k b).
Proof.
  unfold apply_batch. intros Hk Hb. revert m Hk. induction Hb as [|op b Hop _ IH]; intros m Hk; simpl.
  - split; [done|]. rewrite Z.add_0_r. symmetry. apply as_i64_small. apply counter_range.
  - assert (counter_ok (apply_op m op) k /\
            counter (apply_op m op) k = as_i64 (counter m k + delta_of k op)) as [Hok Hc].
    { destruct (decide (op_key op = k)) as [E|Hne].
      - destruct op as [k' v|k'|k' d]; simpl in E, Hop; try congruence. subst k'.
        destruct (Hop eq_refl) as [x ->]. destruct (merge_counter m k x Hk) as [E1 E2].
        split; [done|]. by rewrite E1, delta_of_merge, as_i64_add_r.
      - pose proof (apply_op_frame m op k Hne) as E. split.
        + intros v. rewrite E. apply Hk.
        + unfold counter. rewrite E. replace (delta_of k op) with 0.
          * rewrite Z.add_0_r. symmetry. apply as_i64_small, counter_range.
          * destruct op; simpl in *; try done. by rewrite decide_False. }
    destruct (IH _ Hok) as [IH1 IH2]. split; [done|]. rewrite IH2, Hc, as_i64_add_l. f_equal. lia.
Qed.

(** * Data and its bill *)

Definition is_inode_key (k : Key) : bool := match k with KInode _ => true | _ => false end.

Definition inode_bill (k : Key) (v : Value) : Z :=
  match k, v with KInode _, VInode n => i_billed_bytes n | _, _ => 0 end.
Definition inode_one (k : Key) (v : Value) : Z :=
  match k, v with KInode _, VInode _ => 1 | _, _ => 0 end.

(** What the counters must say. *)
Definition bytes_total (m : gmap Key Value) : Z := msum inode_bill m.
Definition inode_total (m : gmap Key Value) : Z := msum inode_one m.

(** The content of one inode: its chunks lie below its size and bill what it
    records. *)
Record file_ok (cs : u64) (m : gmap Key Value) (i : u64) (n : Inode) : Prop := {
  fo_size : 0 <= i_size n <= max_size cs;
  fo_fit : chunks_fit m cs i;
  fo_trim : chunks_trimmed m cs i (i_size n);
  fo_bill : billed m cs i (i_size n) = i_billed_bytes n
}.

(** A chunk or a symlink target belongs to an inode, or to an orphan that is
    still being reaped. *)
Definition owned (m : gmap Key Value) (i : u64) : Prop :=
  (exists n, node m i n) \/ is_Some (m !! KOrphan i).

Record orphans_ok (m : gmap Key Value) : Prop := {
  or_typed i v : m !! KOrphan i = Some v -> exists o, v = VOrphan o;
  or_file i n : node m i n -> i_kind n <> Dir -> (i_nlink n = 0 <-> is_Some (m !! KOrphan i));
  or_dir i n : node m i n -> i_kind n = Dir ->
    m !! KOrphan i = None /\ (forall idx, m !! KChunk i idx = None) /\ m !! KSymlink i = None;
  or_chunk i idx v : m !! KChunk i idx = Some v -> owned m i;
  or_symlink i v : m !! KSymlink i = Some v -> owned m i;
  or_target i n : node m i n -> i_kind n = Symlink -> is_Some (m !! KSymlink i)
}.

(** The inode a key belongs to. *)
Definition key_ino (k : Key) : option u64 :=
  match k with
  | KInode i | KSymlink i | KOrphan i => Some i
  | KDirent p _ | KDirentIdx p _ => Some p
  | KChunk i _ | KXattr i _ => Some i
  | KSuperblock | KQuotaBytes | KQuotaInodes | KNextIno => None
  end.

(** Every key is within its width and below the allocator. *)
Definition keys_below (nx : u64) (m : gmap Key Value) : Prop :=
  forall k v, m !! k = Some v -> key_ok k /\ forall i, key_ino k = Some i -> ROOT_INO <= i < nx.

(** Widths of the fields that counters wrap in. *)
Definition inode_widths (m : gmap Key Value) : Prop :=
  forall i n, node m i n -> is_u32 (i_nlink n) /\ is_u64 (i_billed_bytes n) /\ is_u64 (i_next_dirent_id n).

Section wf.
Context {NCR : NameCrypto} (names : NameCodec) (cs : u64).
Implicit Types (m : gmap Key Value).

Record wf (nx : u64) m : Prop := {
  wf_tree : tree_ok names m;
  wf_data i n : node m i n -> file_ok cs m i n;
  wf_orphans : orphans_ok m;
  wf_keys : keys_below nx m;
  wf_widths : inode_widths m;
  wf_qb_ok : counter_ok m KQuotaBytes;
  wf_qi_ok : counter_ok m KQuotaInodes;
  wf_qb : counter m KQuotaBytes = as_i64 (bytes_total m);
  wf_qi : counter m KQuotaInodes = as_i64 (inode_total m)
}.

(** ** Totals under a batch *)

Lemma totals_ops m b :
  bytes_total (apply_batch m b) = bytes_total (apply_batch m (ops_on is_inode_key b)) /\
  inode_total (apply_batch m b) = inode_total (apply_batch m (ops_on is_inode_key b)).
Proof.
  split; apply (msum_agree is_inode_key); try (intros; by apply apply_ops_on); by intros [] v.
Qed.

Lemma totals_insert m i n :
  (forall v, m !! KInode i = Some v -> exists n, v = VInode n) ->
  bytes_total (<[KInode i := VInode n]> m) =
    bytes_total m + i_billed_bytes n - from_option (inode_bill (KInode i)) 0 (m !! KInode i) /\
  inode_total (<[KInode i := VInode n]> m) =
    inode_total m + (if decide (is_Some (m !! KInode i)) then 0 else 1).
Proof.
  intros Hty. unfold bytes_total, inode_total. rewrite !msum_insert. split; [simpl; lia|].
  case_decide as Hd.
  - destruct Hd as [v E]. rewrite E. destruct (Hty v E) as [n' ->]. simpl. lia.
  - apply eq_None_not_Some in Hd as ->. simpl. lia.
Qed.

Lemma totals_delete m i n :
  node m i n ->
  bytes_total (delete (KInode i) m) = bytes_total m - i_billed_bytes n /\
  inode_total (delete (KInode i) m) = inode_total m - 1.
Proof. intros Hi. unfold bytes_total, inode_total. rewrite !msum_delete, Hi. done. Qed.

(** The bill of each inode decides both totals. *)
Definition bill_at m (i : u64) : option Z :=
  match m !! KInode i with Some (VInode n) => Some (i_billed_bytes n) | _ => None end.

Definition bills m : gmap Key Z :=
  map_imap (fun k v => match k, v with KInode _, VInode n => Some (i_billed_bytes n) | _, _ => None end) m.

Lemma bills_lookup m k : bills m !! k = match k with KInode i => bill_at m i | _ => None end.
Proof.
  unfold bills, bill_at. rewrite map_lookup_imap. destruct k; destruct (m !! _) as [[]|]; done.
Qed.

Lemma totals_bills m :
  bytes_total m = msum (fun _ z => z) (bills m) /\ inode_total m = msum (fun _ _ => 1) (bills m).
Proof.
  unfold bills. rewrite !msum_imap. split; apply msum_ext; intros [] []; done.
Qed.

Lemma totals_same m m' :
  (forall i, bill_at m' i = bill_at m i) -> bytes_total m' = bytes_total m /\ inode_total m' = inode_total m.
Proof.
  intros H. destruct (totals_bills m) as [-> ->], (totals_bills m') as [-> ->].
  assert (bills m' = bills m) as -> by (apply map_eq; intros []; rewrite !bills_lookup; auto). done.
Qed.

Lemma totals_dead m m' c x :
  (forall i, i <> c -> bill_at m' i = bill_at m i) -> bill_at m c = Some x -> bill_at m' c = None ->
  bytes_total m' = bytes_total m - x /\ inode_total m' = inode_total m - 1.
Proof.
  intros H Hc Hc'. destruct (totals_bills m) as [-> ->], (totals_bills m') as [-> ->].
  assert (bills m' = delete (KInode c) (bills m)) as ->.
  { apply map_eq. intros k. destruct (decide (k = KInode c)) as [->|Hk].
    - by rewrite lookup_delete_eq, bills_lookup.
    - rewrite lookup_delete_ne, !bills_lookup by done. destruct k; try done. apply H. congruence. }
  rewrite !msum_delete, bills_lookup, Hc. done.
Qed.

(** ** Chunks *)

Lemma billed_agree m m' i size :
  (forall idx, m' !! KChunk i idx = m !! KChunk i idx) -> billed m' cs i size = billed m cs i size.
Proof.
  intros H. apply (msum_agree (fun k => match k with KChunk j _ => j =? i | _ => false end)).
  - intros [] v; simpl; try done. by intros ->.
  - intros []; simpl; try done. intros ->%Z.eqb_eq. apply H.
Qed.

Lemma file_ok_agree m m' i n n' :
  file_ok cs m i n -> (forall idx, m' !! KChunk i idx = m !! KChunk i idx) ->
  i_size n' = i_size n -> i_billed_bytes n' = i_billed_bytes n -> file_ok cs m' i n'.
Proof.
  intros [H1 H2 H3 H4] Hc Hs Hb. split.
  - by rewrite Hs.
  - intros idx v. rewrite Hc. apply H2.
  - intros idx v. rewrite Hc, Hs. apply H3.
  - rewrite Hs, Hb, <- H4. by apply billed_agree.
Qed.

(** A node without chunks bills nothing. *)
Lemma file_ok_fresh m i n :
  (forall idx, m !! KChunk i idx = None) -> 0 <= i_size n <= max_size cs -> i_billed_bytes n = 0 ->
  file_ok cs m i n.
Proof.
  intros Hc Hs Hb. split; [done|intros idx v; by rewrite Hc..|]. rewrite Hb. apply msum_zero.
  intros [] v Hv; simpl; try done. destruct (Z.eqb_spec ino i) as [->|]; [|done]. congruence.
Qed.

(** ** What a batch must satisfy *)

(** The operation writes only keys within bounds, and merges only counters. *)
Definition op_below (nx : u64) (op : BatchOp) : Prop :=
  match op with
  | Put k _ => key_ok k /\ forall i, key_ino k = Some i -> ROOT_INO <= i < nx
  | Delete _ => True
  | Merge k _ => k = KQuotaBytes \/ k = KQuotaInodes
  end.

Lemma keys_below_batch nx nx' m b :
  keys_below nx m -> nx <= nx' -> Forall (op_below nx') b -> keys_below nx' (apply_batch m b).
Proof.
  intros Hm Hle Hb.
  assert (keys_below nx' m) as Hm'.
  { intros k v Hk. destruct (Hm k v Hk) as [H1 H2]. split; [done|]. intros i Hi. specialize (H2 i Hi). lia. }
  unfold apply_batch. clear Hm. revert m Hm'. induction Hb as [|op b Hop _ IH]; intros m Hm; simpl; [done|].
  apply IH. destruct op as [k v|k|k d]; simpl in *.
  - intros k' v' [[<- <-]|[_ H]]%lookup_insert_Some; [done|by eapply Hm].
  - intros k' v' [_ H]%lookup_delete_Some. by eapply Hm.
  - case_match; [|done]. intros k' v' [[<- <-]|[_ H']]%lookup_insert_Some; [|by eapply Hm].
    by destruct Hop as [-> | ->].
Qed.

Lemma wf_batch nx nx' m b :
  wf nx m -> nx <= nx' -> tree_ok names (apply_batch m b) ->
  (forall i n, node (apply_batch m b) i n -> file_ok cs (apply_batch m b) i n) ->
  orphans_ok (apply_batch m b) -> inode_widths (apply_batch m b) ->
  Forall (op_below nx') b -> Forall (counter_safe KQuotaBytes) b -> Forall (counter_safe KQuotaInodes) b ->
  as_i64 (bytes_total m + deltas KQuotaBytes b) = as_i64 (bytes_total (apply_batch m b)) ->
  as_i64 (inode_total m + deltas KQuotaInodes b) = as_i64 (inode_total (apply_batch m b)) ->
  wf nx' (apply_batch m b).
Proof.
  intros Hwf Hle Ht Hd Ho Hw Hb Hsb Hsi Hqb Hqi.
  destruct (counter_batch m b KQuotaBytes (wf_qb_ok _ _ Hwf) Hsb) as [Hb1 Hb2].
  destruct (counter_batch m b KQuotaInodes (wf_qi_ok _ _ Hwf) Hsi) as [Hi1 Hi2].
  split; [done..| |done|done|done| |].
  - by eapply keys_below_batch; [apply Hwf|..].
  - by rewrite Hb2, (wf_qb _ _ Hwf), as_i64_add_l.
  - by rewrite Hi2, (wf_qi _ _ Hwf), as_i64_add_l.
Qed.

Lemma wf_fresh nx m k i : wf nx m -> key_ino k = Some i -> nx <= i -> m !! k = None.
Proof.
  intros Hwf Hk Hi. destruct (m !! k) as [v|] eqn:Hv; [|done].
  destruct (wf_keys _ _ Hwf k v Hv) as [_ H]. specialize (H i Hk). lia.
Qed.

Lemma wf_node_below nx m i n : wf nx m -> node m i n -> ROOT_INO <= i < nx /\ is_u64 i.
Proof.
  intros Hwf Hi. destruct (wf_keys _ _ Hwf _ _ Hi) as [H1 H2]. split; [by apply H2|done].
Qed.

(** ** Batches that leave chunks, symlinks and orphans alone *)

(** Keys whose records the data and orphan invariants read. *)
Definition data_key (k : Key) : bool :=
  match k with KChunk _ _ | KSymlink _ | KOrphan _ => true | _ => false end.

Lemma file_ok_batch nx m b i n n' :
  wf nx m -> ops_on data_key b = [] -> node m i n -> i_size n' = i_size n ->
  i_billed_bytes n' = i_billed_bytes n -> file_ok cs (apply_batch m b) i n'.
Proof.
  intros Hwf Hb Hi Hs Hbl. eapply file_ok_agree; [by eapply (wf_data _ _ Hwf)|..|done|done].
  intros idx. rewrite (apply_ops_on data_key), Hb; done.
Qed.


(** ** Batches that rewrite, bury or drop inodes *)

(** [m'] keeps the inodes of [m], but for [dead] which is gone and [buried]
    which got an orphan marker. *)
Record evolves m m' (dead buried : option u64) : Prop := {
  ev_back j r' : node m' j r' ->
    exists r, node m j r /\ i_kind r' = i_kind r /\ i_size r' = i_size r /\
      i_billed_bytes r' = i_billed_bytes r /\ is_u32 (i_nlink r') /\ is_u64 (i_next_dirent_id r') /\
      (i_kind r <> Dir -> i_nlink r' = 0 <-> buried = Some j \/ i_nlink r = 0);
  ev_fwd j r : node m j r ->
    (exists r', node m' j r') \/
    (dead = Some j /\ m' !! KInode j = None /\ (i_kind r = Dir \/ is_Some (m' !! KOrphan j)));
  ev_data k : data_key k = true -> (forall c, buried = Some c -> k <> KOrphan c) -> m' !! k = m !! k;
  ev_buried c : buried = Some c ->
    (exists o, m' !! KOrphan c = Some (VOrphan o)) /\ (exists n, node m c n /\ i_kind n <> Dir);
  ev_dead c : dead = Some c -> m' !! KInode c = None
}.

Lemma evolves_owned m m' dead buried j :
  evolves m m' dead buried -> owned m j -> owned m' j \/ exists r, node m j r /\ i_kind r = Dir.
Proof.
  intros Hev [[r Hr]|Ho].
  - destruct (ev_fwd _ _ _ _ Hev j r Hr) as [H|(_ & _ & [Hk|Hb])]; [left; by left|eauto|].
    left. by right.
  - left. right. destruct (decide (buried = Some j)) as [Hb|Hb].
    + destruct (ev_buried _ _ _ _ Hev j Hb) as [[o ->] _]. eauto.
    + rewrite (ev_data _ _ _ _ Hev); [done|done|]. intros c Hc. congruence.
Qed.

Lemma evolves_orphans m m' dead buried :
  orphans_ok m -> evolves m m' dead buried -> orphans_ok m'.
Proof.
  intros [O1 O2 O3 O4 O5 O6] Hev.
  assert (forall k, data_key k = true -> (forall c, k <> KOrphan c) -> m' !! k = m !! k) as Hd.
  { intros k Hk Hne. apply (ev_data _ _ _ _ Hev); auto. }
  assert (forall j, is_Some (m' !! KOrphan j) <-> buried = Some j \/ is_Some (m !! KOrphan j)) as Horph.
  { intros j. destruct (decide (buried = Some j)) as [Hb|Hb].
    - destruct (ev_buried _ _ _ _ Hev j Hb) as [[o E] _]. rewrite E. split; [auto|eauto].
    - rewrite (ev_data _ _ _ _ Hev); [tauto|done|]. intros c Hc. congruence. }
  assert (forall j k v, m !! k = Some v -> (forall n, node m j n -> i_kind n = Dir -> m !! k = None) ->
            owned m j -> owned m' j) as Hown.
  { intros j k v Hk Hno Ho. destruct (evolves_owned _ _ _ _ j Hev Ho) as [|(r & Hr & Hd')]; [done|].
    specialize (Hno r Hr Hd'). congruence. }
  split.
  - intros j v Hv. destruct (decide (buried = Some j)) as [Hb|Hb].
    + destruct (ev_buried _ _ _ _ Hev j Hb) as [[o E] _]. exists o. congruence.
    + rewrite (ev_data _ _ _ _ Hev) in Hv; [by apply O1 in Hv|done|]. intros c Hc. congruence.
  - intros j r' Hj Hk. destruct (ev_back _ _ _ _ Hev j r' Hj) as (r & Hr & Ek & _ & _ & _ & _ & Hnl).
    rewrite Hnl, Horph, (O2 j r Hr) by congruence. done.
  - intros j r' Hj Hk. destruct (ev_back _ _ _ _ Hev j r' Hj) as (r & Hr & Ek & _).
    destruct (O3 j r Hr ltac:(congruence)) as (E1 & E2 & E3). split_and!.
    + apply eq_None_not_Some. rewrite Horph. intros [Hb|[? ?]]; [|congruence].
      destruct (ev_buried _ _ _ _ Hev j Hb) as [_ (n & Hn & Hnk)]. congruence.
    + intros idx. by rewrite Hd.
    + by rewrite Hd.
  - intros j idx v. rewrite Hd by done. intros Hv. eapply Hown; [exact Hv|..|by eapply O4].
    intros n Hn Hk. by apply (O3 j n).
  - intros j v. rewrite Hd by done. intros Hv. eapply Hown; [exact Hv|..|by eapply O5].
    intros n Hn Hk. by apply (O3 j n).
  - intros j r' Hj Hk. destruct (ev_back _ _ _ _ Hev j r' Hj) as (r & Hr & Ek & _).
    rewrite Hd by done. apply (O6 j r Hr). congruence.
Qed.

Lemma evolves_totals nx m m' dead buried :
  wf nx m -> evolves m m' dead buried ->
  match dead with
  | None => bytes_total m' = bytes_total m /\ inode_total m' = inode_total m
  | Some c => forall n, node m c n ->
      bytes_total m' = bytes_total m - i_billed_bytes n /\ inode_total m' = inode_total m - 1
  end.
Proof.
  intros Hwf Hev.
  assert (forall j, dead <> Some j -> bill_at m' j = bill_at m j) as Hb.
  { intros j Hj. unfold bill_at. destruct (m !! KInode j) as [v|] eqn:Hv.
    - destruct (tr_inode _ _ _ _ _ (wf_tree _ _ Hwf) j v Hv) as [r ->].
      destruct (ev_fwd _ _ _ _ Hev j r Hv) as [[r' Hr']|(? & _)]; [|congruence]. rewrite Hr'.
      destruct (ev_back _ _ _ _ Hev j r' Hr') as (r0 & Hr0 & _ & _ & Eb & _). congruence.
    - destruct (m' !! KInode j) as [[r'| | | | |]|] eqn:Hv'; try done.
      destruct (ev_back _ _ _ _ Hev j r' Hv') as (r0 & Hr0 & _). congruence. }
  destruct dead as [c|].
  - intros n Hn. apply (totals_dead m m' c).
    + intros i Hi. apply Hb. congruence.
    + unfold bill_at. by rewrite Hn.
    + unfold bill_at. by rewrite (ev_dead _ _ _ _ Hev c).
  - apply totals_same. intros i. by apply Hb.
Qed.

Lemma wf_evolves nx m b dead buried :
  wf nx m -> evolves m (apply_batch m b) dead buried -> tree_ok names (apply_batch m b) ->
  Forall (op_below nx) b -> Forall (counter_safe KQuotaBytes) b -> Forall (counter_safe KQuotaInodes) b ->
  match dead with
  | None => as_i64 (deltas KQuotaBytes b) = 0 /\ as_i64 (deltas KQuotaInodes b) = 0
  | Some c => exists n, node m c n /\ as_i64 (deltas KQuotaBytes b) = as_i64 (- i_billed_bytes n) /\
                as_i64 (deltas KQuotaInodes b) = -1
  end ->
  wf nx (apply_batch m b).
Proof.
  intros Hwf Hev Ht Hb Hsb Hsi Hd. pose proof (evolves_totals nx m _ dead buried Hwf Hev) as Htot.
  apply (wf_batch nx); [done|lia|done|..|done|done|done| |].
  - intros j r' Hj. destruct (ev_back _ _ _ _ Hev j r' Hj) as (r & Hr & _ & Es & Eb & _).
    eapply file_ok_agree; [by eapply (wf_data _ _ Hwf)| |done|done].
    intros idx. by apply (ev_data _ _ _ _ Hev).
  - eapply evolves_orphans; [apply Hwf|done].
  - intros j r' Hj. destruct (ev_back _ _ _ _ Hev j r' Hj) as (r & Hr & _ & _ & Eb & ? & ? & _).
    rewrite Eb. split_and!; [done|by eapply (wf_widths _ _ Hwf)|done].
  - rewrite <- as_i64_add_r. destruct dead as [c|].
    + destruct Hd as (n & Hn & -> & _). destruct (Htot n Hn) as [-> _]. rewrite as_i64_add_r. f_equal; lia.
    + destruct Hd as [-> _]. destruct Htot as [-> _]. f_equal; lia.
  - rewrite <- as_i64_add_r. destruct dead as [c|].
    + destruct Hd as (n & Hn & _ & ->). destruct (Htot n Hn) as [_ ->]. f_equal; lia.
    + destruct Hd as [_ ->]. destruct Htot as [_ ->]. f_equal; lia.
Qed.
End wf.
