(* ===== verification/WfOps.v ===== *)
(** The batches the operations commit preserve [wf]. *)

From S2P Require Import Prelude Keys Meta Store Data Quota Locks Volume Vfs Tree Wf.

(** Operations the invariant does not look at. *)
Definition aside (nx : u64) (op : BatchOp) : Prop :=
  match op with
  | Put (KXattr i _) _ => is_u64 i /\ ROOT_INO <= i < nx
  | Put KNextIno _ | Delete (KXattr _ _) => True
  | _ => False
  end.

(** The parts of an inode that the invariant reads. *)
Record same_core (n n' : Inode) : Prop := {
  sc_kind : i_kind n' = i_kind n;
  sc_nlink : i_nlink n' = i_nlink n;
  sc_size : i_size n' = i_size n;
  sc_next : i_next_dirent_id n' = i_next_dirent_id n;
  sc_billed : i_billed_bytes n' = i_billed_bytes n;
  sc_parent : i_parent_dir n' = i_parent_dir n
}.

(** Check a predicate on every operation of a listed batch. *)
Ltac forall_ops :=
  repeat first [apply Forall_nil_2 | apply Forall_cons_2 | apply Forall_app_2]; simpl;
  try done; try (by split); try (by intros ? [= <-]); try (by left); try (by right);
  try (by eexists).

Section wf_ops.
Context {NCR : NameCrypto} (names : NameCodec) (cs : u64).
Implicit Types (m : gmap Key Value).

Lemma aside_op nx op :
  aside nx op ->
  tree_key (op_key op) = false /\ is_inode_key (op_key op) = false /\ data_key (op_key op) = false /\
  op_below nx op /\ counter_safe KQuotaBytes op /\ counter_safe KQuotaInodes op /\
  delta_of KQuotaBytes op = 0 /\ delta_of KQuotaInodes op = 0.
Proof.
  destruct op as [k v|k|k d]; destruct k; simpl; try done; intros H; split_and!; try done.
  - apply H.
  - intros j [= <-]. apply H.
Qed.

Lemma aside_ops nx xs :
  Forall (aside nx) xs ->
  ops_on tree_key xs = [] /\ ops_on is_inode_key xs = [] /\ ops_on data_key xs = [] /\
  Forall (op_below nx) xs /\ Forall (counter_safe KQuotaBytes) xs /\
  Forall (counter_safe KQuotaInodes) xs /\ deltas KQuotaBytes xs = 0 /\ deltas KQuotaInodes xs = 0.
Proof.
  induction 1 as [|op xs Hop _ (? & ? & ? & ? & ? & ? & ? & ?)]; [done|].
  destruct (aside_op nx op Hop) as (E1 & E2 & E3 & ? & ? & ? & ? & ?).
  unfold ops_on. simpl. rewrite E1, E2, E3. split_and!; try done; try (by constructor); lia.
Qed.

Lemma deltas_app k b1 b2 : deltas k (b1 ++ b2) = deltas k b1 + deltas k b2.
Proof. unfold deltas. induction b1; simpl; lia. Qed.

(** Inodes rewritten in place, none of them buried or dropped. *)
Lemma evolves_puts nx m b :
  wf names cs nx m -> ops_on data_key b = [] ->
  (forall j r', node (apply_batch m b) j r' -> exists r, node m j r /\ i_kind r' = i_kind r /\
     i_size r' = i_size r /\ i_billed_bytes r' = i_billed_bytes r /\ is_u32 (i_nlink r') /\
     is_u64 (i_next_dirent_id r') /\ (i_kind r <> Dir -> i_nlink r' = 0 <-> i_nlink r = 0)) ->
  (forall j r, node m j r -> exists r', node (apply_batch m b) j r') ->
  evolves m (apply_batch m b) None None.
Proof.
  intros Hwf Hd Hback Hfwd. split; try done.
  - intros j r' Hj. destruct (Hback j r' Hj) as (r & ? & ? & ? & ? & ? & ? & Hnl). exists r.
    split_and!; try done. intros Hk. rewrite Hnl by done. naive_solver.
  - intros j r Hj. left. eauto.
  - intros k Hk _. by rewrite (apply_ops_on data_key), Hd.
Qed.

(** Rewriting an inode without touching what the invariant reads. *)
Lemma wf_touch nx m i n n' xs :
  wf names cs nx m -> node m i n -> same_core n n' -> Forall (aside nx) xs ->
  wf names cs nx (apply_batch m (xs ++ [Put (KInode i) (VInode n')])).
Proof.
  intros Hwf Hi [Ek En Es Ex Eb Ep] Hxs.
  destruct (aside_ops nx xs Hxs) as (Ht & Hin & Hda & Hbel & Hsb & Hsi & Hdb & Hdi).
  destruct (wf_node_below _ _ _ _ _ _ Hwf Hi) as [Hir Hiu].
  set (b := xs ++ [Put (KInode i) (VInode n')]).
  assert (ops_on is_inode_key b = [Put (KInode i) (VInode n')]) as Eb2 by (unfold b; by rewrite ops_on_app, Hin).
  apply (wf_evolves names cs nx m b None None); [done|..].
  - apply (evolves_puts nx); [done|unfold b; by rewrite ops_on_app, Hda|..].
    + intros j r'. rewrite (apply_ops_on is_inode_key), Eb2 by done.
      destruct (wf_widths _ _ _ _ Hwf i n Hi) as (? & ? & ?).
      intros [(-> & ->)|(_ & Hj)]%node_upd_inv; [exists n|exists r']; [by rewrite En, Ex|].
      by destruct (wf_widths _ _ _ _ Hwf j r' Hj) as (? & ? & ?).
    + intros j r Hj. rewrite (apply_ops_on is_inode_key), Eb2 by done.
      destruct (node_upd m i n n' j r Hi Hj) as (r' & ? & _). by exists r'.
  - apply (tree_frame names _ _ _ (<[KInode i := VInode n']> m)).
    + intros k Hk. rewrite (apply_ops_on tree_key) by done. unfold b. by rewrite ops_on_app, Ht.
    + pose proof (tree_upd_inode names _ _ _ m i n n' (wf_tree _ _ _ _ Hwf) Hi Ek Ep) as H1.
      eapply tree_ext; [|exact H1]. disc.
  - unfold b. forall_ops. split; [done|]. by intros j [= <-].
  - unfold b. forall_ops.
  - unfold b. forall_ops.
  - unfold b. by rewrite !deltas_app, Hdb, Hdi.
Qed.

(** Records the invariant does not look at. *)
Lemma wf_aside nx m xs :
  wf names cs nx m -> Forall (aside nx) xs -> wf names cs nx (apply_batch m xs).
Proof.
  intros Hwf Hxs.
  destruct (aside_ops nx xs Hxs) as (Ht & Hin & Hda & Hbel & Hsb & Hsi & Hdb & Hdi).
  assert (forall j, apply_batch m xs !! KInode j = m !! KInode j) as Hn.
  { intros j. by rewrite (apply_ops_on is_inode_key), Hin. }
  apply (wf_evolves names cs nx m xs None None); [done|..|done|done|done|by rewrite Hdb, Hdi].
  - apply (evolves_puts nx); [done|done|..].
    + intros j r. rewrite Hn. intros Hj. exists r. by destruct (wf_widths _ _ _ _ Hwf j r Hj) as (? & ? & ?).
    + intros j r. rewrite Hn. eauto.
  - apply (tree_frame names _ _ _ m); [|apply Hwf]. intros k Hk. by rewrite (apply_ops_on tree_key), Ht.
Qed.

(** What decides who may use an inode, and its generation. *)
Definition rights (n : Inode) := (i_mode n, i_uid n, i_gid n, i_generation n).

(** The fields of an updated directory inode: [dl] more subdirectories, [dx]
    more entry ids handed out. *)
(** The two inodes differ at most in links, entry counter, mtime and ctime. *)
Definition redirected (pn pn' : Inode) : Prop :=
  pn' = set_i_mtime (i_mtime pn') (set_i_ctime (i_ctime pn') (set_i_nlink (i_nlink pn')
          (set_i_next_dirent_id (i_next_dirent_id pn') pn))).

(** The two inodes differ at most in links and ctime. *)
Definition relinked (n n' : Inode) : Prop := n' = set_i_ctime (i_ctime n') (set_i_nlink (i_nlink n') n).

Lemma redirected_trans a b c : redirected a b -> redirected b c -> redirected a c.
Proof. unfold redirected. intros Hb ->. rewrite Hb. by destruct a. Qed.

Record dir_update (pn pn' : Inode) (dl dx : Z) : Prop := {
  du_kind : i_kind pn' = i_kind pn;
  du_parent : i_parent_dir pn' = i_parent_dir pn;
  du_size : i_size pn' = i_size pn;
  du_billed : i_billed_bytes pn' = i_billed_bytes pn;
  du_nlink : i_nlink pn' = i_nlink pn + dl;
  du_next : i_next_dirent_id pn' = i_next_dirent_id pn + dx;
  du_u32 : is_u32 (i_nlink pn');
  du_u64 : is_u64 (i_next_dirent_id pn');
  du_rights : rights pn' = rights pn;
  du_rest : redirected pn pn'
}.

Definition symlink_put (c : u64) (target : option bytes) : WriteBatch :=
  match target with Some t => [Put (KSymlink c) (VBytes t)] | None => [] end.

(** The batch of [insert_new_node]. *)
Definition create_batch (p : u64) (enc name : bytes) (c : u64) (child pn' : Inode) (id : u64)
    (target : option bytes) : WriteBatch :=
  [Put (KInode c) (VInode child)] ++ entry_puts p enc name c (i_kind child) id ++
  [Put (KInode p) (VInode pn')] ++ symlink_put c target ++ [Merge KQuotaInodes (encode_delta 1)].

Record fresh_child (p : u64) (child : Inode) : Prop := {
  fc_nlink : i_nlink child = (if is_dir (i_kind child) then 2 else 1);
  fc_next : i_next_dirent_id child = FIRST_DIRENT_ID;
  fc_billed : i_billed_bytes child = 0;
  fc_size : 0 <= i_size child <= max_size cs;
  fc_parent : i_kind child = Dir -> i_parent_dir child = p
}.

Lemma create_ops p enc name c child pn' id target :
  let b := create_batch p enc name c child pn' id target in
  ops_on tree_key b = [Put (KInode c) (VInode child)] ++ entry_puts p enc name c (i_kind child) id ++
                      [Put (KInode p) (VInode pn')] /\
  ops_on is_inode_key b = [Put (KInode c) (VInode child); Put (KInode p) (VInode pn')] /\
  ops_on data_key b = symlink_put c target.
Proof. by destruct target. Qed.

End wf_ops.

(** ** Creating an entry *)

Section create.
Context {NCR : NameCrypto} (names : NameCodec) (cs nx : u64) (m : gmap Key Value).
Context (p : u64) (pn pn' : Inode) (enc name : bytes) (child : Inode) (target : option bytes).
Hypotheses (Hwf : wf names cs nx m) (Hnx : nx < U64_MAX) (Hp : node m p pn) (Hpk : i_kind pn = Dir)
  (He : m !! KDirent p enc = None) (Hseal : seal_name names p name = Ok enc)
  (Hval : validate_name name = Ok tt) (Hchild : fresh_child cs p child)
  (Htarget : is_Some target <-> i_kind child = Symlink)
  (Hpn' : dir_update pn pn' (if is_dir (i_kind child) then 1 else 0) 1).

Let b : WriteBatch := create_batch p enc name nx child pn' (i_next_dirent_id pn) target.
Let m' : gmap Key Value := apply_batch m b.

Let ops := create_ops p enc name nx child pn' (i_next_dirent_id pn) target.

Lemma create_free : m !! KInode nx = None /\ p <> nx.
Proof. split; [by eapply wf_fresh|]. destruct (wf_node_below _ _ _ _ _ _ Hwf Hp). lia. Qed.

Lemma create_inode k :
  is_inode_key k = true -> m' !! k = <[KInode p := VInode pn']> (<[KInode nx := VInode child]> m) !! k.
Proof. intros Hk. destruct ops as (_ & E & _). unfold m', b. by rewrite (apply_ops_on is_inode_key), E. Qed.

Lemma create_back j r :
  node m' j r -> (j = nx /\ r = child) \/ (j = p /\ r = pn') \/ (j <> nx /\ node m j r).
Proof.
  rewrite create_inode by done. intros [(-> & ->)|(_ & Hj)]%node_upd_inv; [auto|].
  apply node_upd_inv in Hj as [(-> & ->)|(? & ?)]; auto.
Qed.

Lemma create_data k : data_key k = true -> k <> KSymlink nx -> m' !! k = m !! k.
Proof.
  intros Hk Hne. destruct ops as (_ & _ & E). unfold m', b. rewrite (apply_ops_on data_key), E by done.
  apply apply_batch_frame. destruct target; simpl; forall_ops.
Qed.

Lemma create_symlink : m' !! KSymlink nx = VBytes <$> target.
Proof.
  destruct ops as (_ & _ & E). unfold m', b. rewrite (apply_ops_on data_key), E by done.
  destruct target; simpl; [apply lookup_insert_eq|]. by eapply wf_fresh.
Qed.

Lemma create_totals : bytes_total m' = bytes_total m /\ inode_total m' = inode_total m + 1.
Proof.
  destruct create_free as [Hfree Hne]. destruct Hchild as [_ _ F3 _ _], Hpn' as [_ _ _ D4 _ _ _ _].
  destruct ops as (_ & E & _). destruct (totals_ops m b) as [T1 T2]. fold m' in T1, T2. unfold b in T1, T2.
  rewrite E in T1, T2. unfold apply_batch in T1, T2. simpl in T1, T2.
  destruct (totals_insert m nx child) as [T3 T4]; [intros v; by rewrite Hfree|].
  destruct (totals_insert (<[KInode nx := VInode child]> m) p pn') as [T5 T6].
  { intros v. rewrite lookup_insert_ne by congruence. rewrite Hp. intros [= <-]. by eexists. }
  rewrite lookup_insert_ne in T5, T6 by congruence. rewrite Hp in T5, T6. rewrite Hfree in T3, T4.
  rewrite decide_True in T6 by eauto. rewrite decide_False in T4 by (by intros [? ?]). simpl in T3, T5. lia.
Qed.

Lemma create_owned j : j = nx \/ owned m j -> owned m' j.
Proof.
  destruct create_free as [Hfree Hne]. intros [->|[[r Hr]|Ho]].
  - left. exists child. rewrite create_inode by done. rewrite lookup_insert_ne by congruence. apply lookup_insert_eq.
  - left. rewrite create_inode by done. destruct (decide (j = p)) as [->|]; [by rewrite lookup_insert_eq; eauto|].
    rewrite !lookup_insert_ne by congruence. eauto.
  - right. by rewrite create_data.
Qed.

Lemma create_orphans : orphans_ok m'.
Proof.
  destruct (wf_orphans _ _ _ _ Hwf) as [O1 O2 O3 O4 O5 O6]. destruct Hchild as [F1 _ _ _ _], Hpn' as [D1 _ _ _ _ _ _ _].
  assert (m !! KOrphan nx = None) as Honx by (by eapply wf_fresh).
  split.
  - intros j v. rewrite create_data by done. apply O1.
  - intros j r Hj Hk. rewrite create_data by done. apply create_back in Hj as [(-> & ->)|[(-> & ->)|(Hne & Hj)]].
    + rewrite Honx, F1, (proj2 (is_dir_false _) Hk). split; [lia|by intros [? ?]].
    + congruence.
    + by apply O2.
  - intros j r Hj Hk. apply create_back in Hj as [(-> & ->)|[(-> & ->)|(Hne & Hj)]].
    + rewrite create_data, create_symlink by done. split_and!; [done| |].
      * intros idx. rewrite create_data by done. by eapply wf_fresh.
      * destruct target; [|done]. rewrite (proj1 Htarget) in Hk by eauto. done.
    + destruct create_free as [_ Hpne]. destruct (O3 p pn Hp Hpk) as (E1 & E2 & E3).
      rewrite !create_data by (done || congruence). split_and!; [done| |done]. intros. by rewrite create_data.
    + destruct (O3 j r Hj Hk) as (E1 & E2 & E3). rewrite !create_data by (done || congruence).
      split_and!; [done| |done]. intros. by rewrite create_data.
  - intros j idx v. rewrite create_data by done. eauto using create_owned.
  - intros j v. destruct (decide (j = nx)) as [->|]; [eauto using create_owned|].
    rewrite create_data by (done || congruence). eauto using create_owned.
  - intros j r Hj Hk. apply create_back in Hj as [(-> & ->)|[(-> & ->)|(Hne & Hj)]].
    + rewrite create_symlink. by apply Htarget in Hk as [t ->].
    + congruence.
    + rewrite create_data by (done || congruence). by eapply O6.
Qed.

Lemma create_below :
  Forall (op_below (nx + 1)) b /\ Forall (counter_safe KQuotaBytes) b /\
  Forall (counter_safe KQuotaInodes) b /\ deltas KQuotaBytes b = 0 /\ deltas KQuotaInodes b = 1.
Proof.
  destruct (wf_node_below _ _ _ _ _ _ Hwf Hp) as [Hpr Hpu].
  destruct (wf_widths _ _ _ _ Hwf p pn Hp) as (_ & _ & Hxu).
  assert (is_u64 nx) by (unfold is_u64, U64_MAX, ROOT_INO in *; lia).
  unfold b, create_batch, symlink_put. destruct target; simpl; rewrite i64_le_wrap; split_and!;
    try done; forall_ops; split; try done; intros ? [= <-]; unfold ROOT_INO in *; lia.
Qed.

Lemma wf_create : wf names cs (nx + 1) m'.
Proof.
  destruct Hchild as [F1 F2 F3 F4 F5]. destruct Hpn' as [D1 D2 D3 D4 D5 D6 D7 D8 D9].
  destruct create_below as (B1 & B2 & B3 & B4 & B5), create_totals as [T1 T2], create_free as [Hfree Hne].
  apply (wf_batch names cs nx); [done|lia|..|done|done|done|by rewrite B4, Z.add_0_r, <- T1|by rewrite B5, <- T2].
  - apply (tree_frame names _ _ _ (apply_batch m (ops_on tree_key b))).
    + intros k Hk. by apply apply_ops_on.
    + destruct ops as (E & _ & _). unfold b. rewrite E. eapply (tree_create names m p pn pn' nx child enc
        {| d_name := name; d_child_ino := nx; d_kind := i_kind child; d_dirent_id := i_next_dirent_id pn |});
        done || apply Hwf.
  - intros j r [(-> & ->)|[(-> & ->)|(Hj & Hr)]]%create_back.
    + apply file_ok_fresh; [|done|done]. intros idx. rewrite create_data by done. by eapply wf_fresh.
    + eapply (file_ok_agree cs m); [by eapply (wf_data _ _ _ _ Hwf)|intros; by apply create_data|done|done].
    + eapply (file_ok_agree cs m); [by eapply (wf_data _ _ _ _ Hwf)|intros; by apply create_data|done|done].
  - apply create_orphans.
  - intros j r [(-> & ->)|[(-> & ->)|(Hj & Hr)]]%create_back.
    + rewrite F1, F2, F3. unfold is_u32, is_u64, FIRST_DIRENT_ID. case_match; lia.
    + rewrite D4. split_and!; [done| |done]. by eapply (wf_widths _ _ _ _ Hwf p pn).
    + by eapply (wf_widths _ _ _ _ Hwf).
Qed.
End create.

(** ** Linking, unlinking and moving *)

Section entries.
Context {NCR : NameCrypto} (names : NameCodec) (cs nx : u64).
Implicit Types (m : gmap Key Value).

(** The fields of a file inode whose link count changes by [dl]. *)
Record file_update (n n' : Inode) (dl : Z) : Prop := {
  fu_kind : i_kind n' = i_kind n;
  fu_parent : i_parent_dir n' = i_parent_dir n;
  fu_size : i_size n' = i_size n;
  fu_billed : i_billed_bytes n' = i_billed_bytes n;
  fu_next : i_next_dirent_id n' = i_next_dirent_id n;
  fu_nlink : i_nlink n' = i_nlink n + dl;
  fu_u32 : is_u32 (i_nlink n');
  fu_rest : relinked n n'
}.

(** How [r'] may differ from [r] at [j]; [ev_back] asks for it. *)
Definition rewrites (buried : option u64) (j : u64) (r r' : Inode) : Prop :=
  i_kind r' = i_kind r /\ i_size r' = i_size r /\ i_billed_bytes r' = i_billed_bytes r /\
  is_u32 (i_nlink r') /\ is_u64 (i_next_dirent_id r') /\
  (i_kind r <> Dir -> i_nlink r' = 0 <-> buried = Some j \/ i_nlink r = 0).

Lemma rewrites_refl m buried j r :
  wf names cs nx m -> node m j r -> buried <> Some j -> rewrites buried j r r.
Proof.
  intros Hwf Hj Hb. destruct (wf_widths _ _ _ _ Hwf j r Hj) as (? & ? & ?).
  unfold rewrites. split_and!; try done. naive_solver.
Qed.

Lemma rewrites_dir m buried j r r' dl dx :
  wf names cs nx m -> node m j r -> i_kind r = Dir -> dir_update r r' dl dx -> rewrites buried j r r'.
Proof. intros Hwf Hj Hk [? ? ? ? ? ? ? ? ?]. unfold rewrites. by split_and!. Qed.

Lemma rewrites_file m buried j r r' dl :
  wf names cs nx m -> node m j r -> file_update r r' dl ->
  (i_nlink r + dl = 0 <-> buried = Some j \/ i_nlink r = 0) -> rewrites buried j r r'.
Proof.
  intros Hwf Hj [? ? ? ? E E' ?] Hnl. destruct (wf_widths _ _ _ _ Hwf j r Hj) as (? & ? & ?).
  unfold rewrites. rewrite E. split_and!; try done. by rewrite E'.
Qed.

Lemma wf_link m p pn pn' i n n' enc name :
  wf names cs nx m -> node m p pn -> i_kind pn = Dir -> node m i n -> i_kind n <> Dir ->
  i_nlink n <> 0 -> m !! KDirent p enc = None -> seal_name names p name = Ok enc ->
  validate_name name = Ok tt -> file_update n n' 1 -> dir_update pn pn' 0 1 ->
  wf names cs nx (apply_batch m ([Put (KInode i) (VInode n')] ++
    entry_puts p enc name i (i_kind n') (i_next_dirent_id pn) ++ [Put (KInode p) (VInode pn')])).
Proof.
  intros Hwf Hp Hpk Hi Hik Hnl He Hseal Hval Hn' Hpn'.
  set (b := _ ++ _). destruct (wf_widths _ _ _ _ Hwf p pn Hp) as (_ & _ & Hxu).
  destruct (wf_widths _ _ _ _ Hwf i n Hi) as (Hnu & _ & _).
  destruct (wf_node_below _ _ _ _ _ _ Hwf Hp), (wf_node_below _ _ _ _ _ _ Hwf Hi).
  assert (i <> p) as Hne by congruence.
  apply (wf_evolves names cs nx m b None None); [done|..].
  - split; try done.
    + intros j r'. rewrite (apply_ops_on is_inode_key) by done. simpl.
      intros [(-> & ->)|(? & [(-> & ->)|(? & Hj)]%node_upd_inv)]%node_upd_inv.
      * exists pn. split; [done|]. by eapply rewrites_dir.
      * exists n. split; [done|]. eapply rewrites_file; [done..|]. unfold is_u32 in *. naive_solver lia.
      * exists r'. split; [done|]. by eapply rewrites_refl.
    + intros j r Hj. left. rewrite (apply_ops_on is_inode_key) by done. simpl. unfold apply_batch. simpl.
      destruct (decide (j = p)) as [->|]; [rewrite lookup_insert_eq; eauto|].
      rewrite lookup_insert_ne by congruence.
      destruct (decide (j = i)) as [->|]; [rewrite lookup_insert_eq; eauto|].
      rewrite lookup_insert_ne by congruence. eauto.
    + intros k Hk _. by rewrite (apply_ops_on data_key).
  - destruct Hn' as [U1 U2 U3 U4 U5 U6 U7], Hpn' as [D1 D2 D3 D4 D5 D6 D7 D8 D9].
    eapply (tree_link names m p pn pn' i n n' enc
      {| d_name := name; d_child_ino := i; d_kind := i_kind n'; d_dirent_id := i_next_dirent_id pn |});
      done || apply Hwf || (simpl; lia).
  - unfold b, entry_puts. simpl. forall_ops; split; try done; intros ? [= <-]; done.
  - unfold b, entry_puts. simpl. forall_ops.
  - unfold b, entry_puts. simpl. forall_ops.
  - done.
Qed.

(** What happens to the inode of a removed file entry: one link less, or
    buried while still open, or buried and dropped. *)
Inductive burial (c : u64) (n : Inode) : WriteBatch -> option u64 -> option u64 -> Prop :=
| bury_keep n' :
    file_update n n' (-1) -> i_nlink n <> 1 -> burial c n [Put (KInode c) (VInode n')] None None
| bury_open o n' :
    file_update n n' (-1) -> i_nlink n = 1 ->
    burial c n [Put (KOrphan c) (VOrphan o); Put (KInode c) (VInode n')] None (Some c)
| bury_gone o n' :
    file_update n n' (-1) -> i_nlink n = 1 ->
    burial c n (Put (KOrphan c) (VOrphan o) :: settle_batch c n') (Some c) (Some c).

Lemma burial_tree m p pn pn' enc d n bur dead buried :
  tree_ok names m -> dent m p enc d -> node m p pn -> node m (d_child_ino d) n -> i_kind n <> Dir ->
  dir_update pn pn' 0 0 -> burial (d_child_ino d) n bur dead buried ->
  tree_ok names (apply_batch (<[KInode p := VInode pn']> (del_entry p enc (d_dirent_id d) m)) bur).
Proof.
  intros Ht Hd Hp Hc Hk [D1 D2 D3 D4 D5 D6 D7 D8 D9] Hb.
  destruct Hb as [n' [U1 U2 U3 U4 U5 U6 U7] Hnl|o n' [U1 U2 U3 U4 U5 U6 U7] Hnl|o n' _ Hnl].
  - apply (tree_unlink_keep names m p pn pn' enc d n n'); done || lia.
  - eapply tree_frame; [|apply (tree_unlink_keep names m p pn pn' enc d n n'); done || lia].
    intros k Hk'. unfold apply_batch; simpl. rewrite (insert_insert_ne _ (KInode _)) by done.
    rewrite lookup_insert_ne; [done|]. by intros <-.
  - eapply tree_frame; [|apply (tree_unlink_gone names m p pn pn' enc d n); done || lia].
    intros k Hk'. change (apply_batch ?x (?a :: ?l)) with (apply_batch x ([a] ++ l)).
    rewrite (apply_ops_on tree_key) by done. done.
Qed.

Lemma burial_ops c n bur dead buried :
  burial c n bur dead buried -> ROOT_INO <= c < nx -> is_u64 c ->
  Forall (op_below nx) bur /\ Forall (counter_safe KQuotaBytes) bur /\
  Forall (counter_safe KQuotaInodes) bur /\
  match dead with
  | None => as_i64 (deltas KQuotaBytes bur) = 0 /\ as_i64 (deltas KQuotaInodes bur) = 0
  | Some _ => as_i64 (deltas KQuotaBytes bur) = as_i64 (- i_billed_bytes n) /\
              as_i64 (deltas KQuotaInodes bur) = -1
  end.
Proof.
  intros Hb Hr Hu. destruct Hb as [n' Hu' _|o n' Hu' _|o n' Hu' _]; split_and!; unfold settle_batch;
    forall_ops; try (split; [done|]; intros ? [= <-]; done).
  unfold deltas, delta_of, encode_delta. simpl. rewrite i64_le_wrap.
  rewrite !Z.add_0_l, !Z.add_0_r. unfold neg_billed. rewrite !as_i64_idem, as_i64_opp.
  by destruct Hu' as [_ _ _ -> _ _ _].
Qed.

(** The inodes after an entry's removal. *)
Lemma burial_evolves m m' p pn pn' c n bur dead buried :
  wf names cs nx m -> node m p pn -> i_kind pn = Dir -> node m c n -> i_kind n <> Dir -> i_nlink n <> 0 ->
  dir_update pn pn' 0 0 -> burial c n bur dead buried ->
  (forall k, is_inode_key k = true -> m' !! k = apply_batch (<[KInode p := VInode pn']> m) bur !! k) ->
  (forall k, data_key k = true -> m' !! k = apply_batch m bur !! k) ->
  evolves m m' dead buried.
Proof.
  intros Hwf Hp Hpk Hc Hck Hnl Hpn' Hb Hino Hdata.
  assert (c <> p) as Hne by congruence. destruct (wf_widths _ _ _ _ Hwf c n Hc) as (Hnu & _ & _).
  assert (forall j r', node (<[KInode p := VInode pn']> m) j r' -> buried <> Some j ->
            exists r, node m j r /\ rewrites buried j r r') as Hold.
  { intros j r' [(-> & ->)|(? & Hj)]%node_upd_inv Hbj; [exists pn|exists r'];
      (split; [done|]); [by eapply rewrites_dir|by eapply rewrites_refl]. }
  assert (forall j r, node m j r -> exists r', node (<[KInode p := VInode pn']> m) j r') as Hfwd.
  { intros j r Hj. destruct (node_upd m p pn pn' j r Hp Hj) as (r' & ? & _). eauto. }
  assert (forall j r' n', file_update n n' (-1) -> (i_nlink n = 1 <-> buried = Some c) ->
            (forall i, buried = Some i -> i = c) ->
            node (<[KInode c := VInode n']> (<[KInode p := VInode pn']> m)) j r' ->
            exists r, node m j r /\ rewrites buried j r r') as Hput.
  { intros j r' n' Hu Hbur Hbc [(-> & ->)|(Hj & Hr)]%node_upd_inv; [|apply Hold; naive_solver].
    exists n. split; [done|]. eapply rewrites_file; [done..|]. unfold is_u32 in *. naive_solver lia. }
  destruct Hb as [n' Hu H1|o n' Hu H1|o n' Hu H1]; split; try done.
  - intros j r'. rewrite Hino by done. apply (Hput j r' n' Hu); [naive_solver|done].
  - intros j r Hj. left. rewrite Hino by done. unfold apply_batch; simpl.
    destruct (decide (j = c)) as [->|]; [rewrite lookup_insert_eq; eauto|].
    rewrite lookup_insert_ne by congruence. eauto.
  - intros k Hk _. rewrite Hdata by done. unfold apply_batch; simpl.
    rewrite lookup_insert_ne; [done|by intros <-].
  - intros j r'. rewrite Hino by done. unfold apply_batch; simpl.
    rewrite (insert_insert_ne _ (KInode _)), lookup_insert_ne by done. apply (Hput j r' n' Hu); naive_solver.
  - intros j r Hj. left. rewrite Hino by done. unfold apply_batch; simpl.
    destruct (decide (j = c)) as [->|]; [rewrite lookup_insert_eq; eauto|].
    rewrite !lookup_insert_ne by congruence. eauto.
  - intros k Hk Hne'. rewrite Hdata by done. unfold apply_batch; simpl.
    rewrite lookup_insert_ne by (by intros <-). rewrite lookup_insert_ne; [done|]. intros <-. by eapply Hne'.
  - intros c' [= <-]. rewrite Hdata by done. unfold apply_batch; simpl.
    rewrite lookup_insert_ne, lookup_insert_eq by done. eauto.
  - intros j r'. rewrite Hino by done. change (apply_batch ?x (?a :: ?l)) with (apply_batch x ([a] ++ l)).
    rewrite (apply_ops_on is_inode_key) by done. unfold apply_batch; simpl.
    intros [Hj Hr]%lookup_delete_Some. apply Hold; [done|]. congruence.
  - intros j r Hj. rewrite Hino by done. change (apply_batch ?x (?a :: ?l)) with (apply_batch x ([a] ++ l)).
    rewrite (apply_ops_on is_inode_key) by done. unfold apply_batch; simpl.
    destruct (decide (j = c)) as [->|]; [right|left; rewrite lookup_delete_ne by congruence; eauto].
    rewrite lookup_delete_eq, Hdata by done. rewrite (apply_ops_on data_key) by done.
    split_and!; [done..|]. right. unfold apply_batch; simpl. rewrite lookup_insert_eq. eauto.
  - intros k Hk Hne'. rewrite Hdata by done. rewrite (apply_ops_on data_key) by done. unfold apply_batch; simpl.
    rewrite lookup_insert_ne; [done|]. intros <-. by eapply Hne'.
  - intros c' [= <-]. rewrite Hdata by done. rewrite (apply_ops_on data_key) by done. unfold apply_batch; simpl.
    rewrite lookup_insert_eq. eauto.
  - intros c' [= <-]. rewrite Hino by done. rewrite (apply_ops_on is_inode_key) by done.
    apply lookup_delete_eq.
Qed.

Lemma burial_keys c n bur dead buried :
  burial c n bur dead buried ->
  Forall (fun op => op_key op = KInode c \/ op_key op = KOrphan c \/
                    op_key op = KQuotaBytes \/ op_key op = KQuotaInodes) bur.
Proof. destruct 1; unfold settle_batch; forall_ops; tauto. Qed.

Lemma wf_unlink m p pn pn' enc d n bur dead buried :
  wf names cs nx m -> dent m p enc d -> node m p pn -> node m (d_child_ino d) n -> i_kind n <> Dir ->
  dir_update pn pn' 0 0 -> burial (d_child_ino d) n bur dead buried ->
  wf names cs nx (apply_batch m (entry_deletes p enc (d_dirent_id d) ++ [Put (KInode p) (VInode pn')] ++ bur)).
Proof.
  intros Hwf Hd Hp Hc Hk Hpn' Hb. pose proof (wf_tree _ _ _ _ Hwf) as Ht.
  destruct (tr_dirent _ _ _ _ _ Ht _ _ _ Hd) as (? & [= <-] & [_ _ _ (pn0 & Hp0 & Hpk & _) _]).
  assert (pn0 = pn) as -> by congruence.
  destruct (wf_node_below _ _ _ _ _ _ Hwf Hp), (wf_node_below _ _ _ _ _ _ Hwf Hc) as [Hcr Hcu].
  destruct (burial_ops _ n bur dead buried Hb Hcr Hcu) as (B1 & B2 & B3 & B4).
  assert (i_nlink n <> 0) as Hnl.
  { pose proof (tree_ok_file _ _ _ _ Ht Hc Hk). pose proof (links_dent _ _ _ _ Hd). lia. }
  set (e := entry_deletes p enc (d_dirent_id d)).
  apply (wf_evolves names cs nx m _ dead buried); [done|..].
  - apply (burial_evolves m _ p pn pn' (d_child_ino d) n bur); try done.
    + intros k Hk'. rewrite !apply_batch_app. apply apply_batch_local. unfold e, apply_batch; simpl.
      destruct (decide (k = KInode p)) as [->|]; [by rewrite !lookup_insert_eq|].
      rewrite !lookup_insert_ne by congruence. rewrite !lookup_delete_ne; [done|by intros <-..].
    + intros k Hk'. rewrite !apply_batch_app. apply apply_batch_local. unfold e, apply_batch; simpl.
      rewrite lookup_insert_ne by (by intros <-). rewrite !lookup_delete_ne; [done|by intros <-..].
  - rewrite !apply_batch_app. by eapply burial_tree.
  - unfold e, entry_deletes. forall_ops. split; [done|]. by intros ? [= <-].
  - unfold e, entry_deletes. forall_ops.
  - unfold e, entry_deletes. forall_ops.
  - rewrite !deltas_app. unfold e, deltas at 1 2 4 5; simpl. destruct dead as [c|]; [|done].
    assert (c = d_child_ino d) as -> by (by inversion Hb). exists n. destruct B4. done.
Qed.

Lemma wf_rmdir m p pn pn' enc d n xs :
  wf names cs nx m -> dent m p enc d -> node m p pn -> node m (d_child_ino d) n -> i_kind n = Dir ->
  (forall e, m !! KDirent (d_child_ino d) e = None) -> dir_update pn pn' (-1) 0 -> Forall (aside nx) xs ->
  wf names cs nx (apply_batch m (entry_deletes p enc (d_dirent_id d) ++ [Delete (KInode (d_child_ino d))] ++ xs ++
    [Put (KInode p) (VInode pn'); Merge KQuotaInodes (encode_delta (-1))])).
Proof.
  intros Hwf Hd Hp Hc Hk Hempty Hpn' Hxs. pose proof (wf_tree _ _ _ _ Hwf) as Ht.
  destruct (aside_ops nx xs Hxs) as (X1 & X2 & X3 & X4 & X5 & X6 & X7 & X8).
  destruct (tr_dirent _ _ _ _ _ Ht _ _ _ Hd) as (? & [= <-] & [_ _ _ (pn0 & Hp0 & Hpk & _) _]).
  assert (pn0 = pn) as -> by congruence. destruct (tree_child_ne names m p enc d Ht Hd) as [Hne _].
  destruct (wf_node_below _ _ _ _ _ _ Hwf Hp) as [Hpr Hpu].
  set (c := d_child_ino d) in *. set (e := entry_deletes p enc (d_dirent_id d)). set (b := e ++ _).
  assert (forall j, apply_batch m b !! KInode j =
    <[KInode p := VInode pn']> (delete (KInode c) m) !! KInode j) as Hino.
  { intros j. rewrite (apply_ops_on is_inode_key) by done. unfold b. rewrite !ops_on_app, X2. done. }
  assert (bill_c : i_billed_bytes n = 0).
  { destruct (or_dir _ (wf_orphans _ _ _ _ Hwf) c n Hc Hk) as (_ & Hno & _).
    rewrite <- (fo_bill _ _ _ _ (wf_data _ _ _ _ Hwf c n Hc)). apply msum_zero.
    intros [] v Hv; simpl; try done. destruct (Z.eqb_spec ino c) as [->|]; [|done]. by rewrite Hno in Hv. }
  apply (wf_evolves names cs nx m b (Some c) None); [done|..].
  - split; try done.
    + intros j r'. rewrite Hino. intros [(-> & ->)|(? & [? Hj]%lookup_delete_Some)]%node_upd_inv.
      * exists pn. split; [done|]. by eapply rewrites_dir.
      * exists r'. split; [done|]. by eapply rewrites_refl.
    + intros j r Hj. rewrite Hino. destruct (decide (j = c)) as [->|].
      * right. rewrite lookup_insert_ne, lookup_delete_eq by congruence. split_and!; [done..|]. left. congruence.
      * left. destruct (decide (j = p)) as [->|]; [rewrite lookup_insert_eq; eauto|].
        rewrite lookup_insert_ne, lookup_delete_ne by congruence. eauto.
    + intros k Hk' _. rewrite (apply_ops_on data_key) by done. unfold b. rewrite !ops_on_app, X3. done.
    + intros c' [= <-]. rewrite Hino. rewrite lookup_insert_ne, lookup_delete_eq by congruence. done.
  - destruct Hpn' as [D1 D2 D3 D4 D5 D6 D7 D8 D9].
    eapply tree_frame; [|apply (tree_rmdir names m p pn pn' enc d n); done || lia].
    intros k Hk'. rewrite (apply_ops_on tree_key) by done. unfold b. rewrite !ops_on_app, X1. done.
  - unfold b, e, entry_deletes. forall_ops. split; [done|]. by intros ? [= <-].
  - unfold b, e, entry_deletes. forall_ops.
  - unfold b, e, entry_deletes. forall_ops.
  - exists n. split; [done|]. unfold b. rewrite !deltas_app, X7, X8, bill_c. done.
Qed.

(** The moved inode: a directory that changes parent points to the new one. *)
Record moved_update (n n' : Inode) (parent : u64) : Prop := {
  mu_kind : i_kind n' = i_kind n;
  mu_parent : i_parent_dir n' = parent;
  mu_size : i_size n' = i_size n;
  mu_billed : i_billed_bytes n' = i_billed_bytes n;
  mu_nlink : i_nlink n' = i_nlink n;
  mu_next : i_next_dirent_id n' = i_next_dirent_id n;
  mu_rest : n' = set_i_ctime (i_ctime n') (set_i_parent_dir parent n)
}.

Lemma rewrites_moved m j r r' q :
  wf names cs nx m -> node m j r -> moved_update r r' q -> rewrites None j r r'.
Proof.
  intros Hwf Hj [E1 E2 E3 E4 E5 E6 _]. destruct (wf_widths _ _ _ _ Hwf j r Hj) as (? & ? & ?).
  unfold rewrites. rewrite E5, E6. split_and!; try done. naive_solver.
Qed.

(** Inode puts on existing inodes. *)
Definition inode_puts (ps : list (u64 * Inode)) : WriteBatch :=
  (fun x => Put (KInode x.1) (VInode x.2)) <$> ps.

Lemma inode_puts_back m ps j r :
  node (apply_batch m (inode_puts ps)) j r -> (j, r) ∈ ps \/ node m j r.
Proof.
  unfold apply_batch. revert m. induction ps as [|[i n] ps IH]; intros m; simpl; [auto|].
  intros [H|[(-> & ->)|(_ & H)]%node_upd_inv]%IH; [left; by right|left; by left|auto].
Qed.

Lemma inode_puts_fwd m ps j r :
  node m j r -> exists r', node (apply_batch m (inode_puts ps)) j r'.
Proof.
  unfold apply_batch. revert m r. induction ps as [|[i n] ps IH]; intros m r; simpl; [eauto|].
  intros Hj. destruct (decide (j = i)) as [->|Hne].
  - apply (IH _ n). apply lookup_insert_eq.
  - apply (IH _ r). by rewrite node_insert_ne.
Qed.

Lemma wf_inode_puts m b ps :
  wf names cs nx m -> ops_on is_inode_key b = inode_puts ps -> ops_on data_key b = [] ->
  (forall j r', (j, r') ∈ ps -> exists r, node m j r /\ rewrites None j r r') ->
  tree_ok names (apply_batch m b) ->
  Forall (op_below nx) b -> Forall (counter_safe KQuotaBytes) b -> Forall (counter_safe KQuotaInodes) b ->
  deltas KQuotaBytes b = 0 -> deltas KQuotaInodes b = 0 ->
  wf names cs nx (apply_batch m b).
Proof.
  intros Hwf Hi Hd Hps Ht Hb Hsb Hsi Hdb Hdi.
  apply (wf_evolves names cs nx m b None None); [done| |done..|by rewrite Hdb, Hdi].
  split; try done.
  - intros j r'. rewrite (apply_ops_on is_inode_key), Hi by done.
    intros [Hin|Hj]%inode_puts_back; [by apply Hps|]. exists r'. split; [done|]. by eapply rewrites_refl.
  - intros j r Hj. left. rewrite (apply_ops_on is_inode_key), Hi by done. by eapply inode_puts_fwd.
  - intros k Hk _. by rewrite (apply_ops_on data_key), Hd.
Qed.

Lemma wf_move_same m p pn pn' enc d enc' name' n n' :
  wf names cs nx m -> dent m p enc d -> node m p pn -> node m (d_child_ino d) n ->
  m !! KDirent p enc' = None -> seal_name names p name' = Ok enc' -> validate_name name' = Ok tt ->
  moved_update n n' (i_parent_dir n) -> dir_update pn pn' 0 1 ->
  wf names cs nx (apply_batch m (entry_deletes p enc (d_dirent_id d) ++
    entry_puts p enc' name' (d_child_ino d) (i_kind n') (i_next_dirent_id pn) ++
    [Put (KInode (d_child_ino d)) (VInode n'); Put (KInode p) (VInode pn')])).
Proof.
  intros Hwf Hd Hp Hc He' Hseal Hval Hn' Hpn'. pose proof (wf_tree _ _ _ _ Hwf) as Ht.
  destruct (tr_dirent _ _ _ _ _ Ht _ _ _ Hd) as (? & [= <-] & [_ _ _ (pn0 & Hp0 & Hpk & _) _]).
  assert (pn0 = pn) as -> by congruence. destruct (wf_widths _ _ _ _ Hwf p pn Hp) as (_ & _ & Hxu).
  destruct (wf_node_below _ _ _ _ _ _ Hwf Hp), (wf_node_below _ _ _ _ _ _ Hwf Hc).
  apply (wf_inode_puts m _ [(d_child_ino d, n'); (p, pn')]); try done.
  - intros j r' [[= -> ->]|[[= -> ->]|[]%elem_of_nil]%elem_of_cons]%elem_of_cons.
    + exists n. split; [done|]. by eapply rewrites_moved.
    + exists pn. split; [done|]. by eapply rewrites_dir.
  - destruct Hn' as [M1 M2 M3 M4 M5 M6], Hpn' as [D1 D2 D3 D4 D5 D6 D7 D8 D9].
    apply (tree_move_same names m p pn pn' enc d enc' {| d_name := name'; d_child_ino := d_child_ino d;
      d_kind := i_kind n'; d_dirent_id := i_next_dirent_id pn |} n n'); done || lia.
  - unfold entry_deletes, entry_puts. forall_ops; split; try done; by intros ? [= <-].
  - unfold entry_deletes, entry_puts. forall_ops.
  - unfold entry_deletes, entry_puts. forall_ops.
Qed.

Lemma wf_move_cross m p pn pn' q qn qn' enc d enc' name' n n' :
  wf names cs nx m -> p <> q -> dent m p enc d -> node m p pn -> node m q qn -> i_kind qn = Dir ->
  node m (d_child_ino d) n -> m !! KDirent q enc' = None -> seal_name names q name' = Ok enc' ->
  validate_name name' = Ok tt -> (i_kind n = Dir -> avoids m (d_child_ino d) q) ->
  moved_update n n' (if is_dir (i_kind n) then q else i_parent_dir n) ->
  dir_update pn pn' (- (if is_dir (i_kind n) then 1 else 0)) 0 ->
  dir_update qn qn' (if is_dir (i_kind n) then 1 else 0) 1 ->
  wf names cs nx (apply_batch m (entry_deletes p enc (d_dirent_id d) ++
    entry_puts q enc' name' (d_child_ino d) (i_kind n') (i_next_dirent_id qn) ++
    [Put (KInode (d_child_ino d)) (VInode n'); Put (KInode p) (VInode pn'); Put (KInode q) (VInode qn')])).
Proof.
  intros Hwf Hpq Hd Hp Hq Hqk Hc He' Hseal Hval Hav Hn' Hpn' Hqn'. pose proof (wf_tree _ _ _ _ Hwf) as Ht.
  destruct (tr_dirent _ _ _ _ _ Ht _ _ _ Hd) as (? & [= <-] & [_ _ _ (pn0 & Hp0 & Hpk & _) _]).
  assert (pn0 = pn) as -> by congruence. destruct (wf_widths _ _ _ _ Hwf q qn Hq) as (_ & _ & Hxu).
  destruct (wf_node_below _ _ _ _ _ _ Hwf Hp), (wf_node_below _ _ _ _ _ _ Hwf Hc),
    (wf_node_below _ _ _ _ _ _ Hwf Hq).
  apply (wf_inode_puts m _ [(d_child_ino d, n'); (p, pn'); (q, qn')]); try done.
  - intros j r' [[= -> ->]|[[= -> ->]|[[= -> ->]|[]%elem_of_nil]%elem_of_cons]%elem_of_cons]%elem_of_cons.
    + exists n. split; [done|]. by eapply rewrites_moved.
    + exists pn. split; [done|]. by eapply rewrites_dir.
    + exists qn. split; [done|]. by eapply rewrites_dir.
  - destruct Hn' as [M1 M2 M3 M4 M5 M6], Hpn' as [D1 D2 D3 D4 D5 D6 D7 D8 D9],
      Hqn' as [Q1 Q2 Q3 Q4 Q5 Q6 Q7 Q8 Q9].
    apply (tree_move_cross names m p pn pn' q qn qn' enc d enc' {| d_name := name'; d_child_ino := d_child_ino d;
      d_kind := i_kind n'; d_dirent_id := i_next_dirent_id qn |} n n'); done || lia.
  - unfold entry_deletes, entry_puts. forall_ops; split; try done; by intros ? [= <-].
  - unfold entry_deletes, entry_puts. forall_ops.
  - unfold entry_deletes, entry_puts. forall_ops.
Qed.

(** Settling an orphan whose last handle is gone: the inode goes, the marker
    stays for the reaper. *)
Lemma wf_settle m c n :
  wf names cs nx m -> node m c n -> is_Some (m !! KOrphan c) ->
  wf names cs nx (apply_batch m (settle_batch c n)).
Proof.
  intros Hwf Hc Ho. pose proof (wf_tree _ _ _ _ Hwf) as Ht.
  assert (i_kind n <> Dir) as Hk.
  { intros Hk. destruct (or_dir _ (wf_orphans _ _ _ _ Hwf) c n Hc Hk) as [E _]. rewrite E in Ho. by destruct Ho. }
  assert (i_nlink n = 0) as Hnl by (by apply (or_file _ (wf_orphans _ _ _ _ Hwf) c n)).
  assert (links m c = 0) as Hl by (by rewrite <- (tree_ok_file _ _ _ _ Ht Hc Hk)).
  assert (c <> ROOT_INO) as Hroot.
  { intros ->. destruct (tr_root _ _ _ _ _ Ht) as (r & Hr & ? & _). congruence. }
  assert (forall j, apply_batch m (settle_batch c n) !! KInode j = delete (KInode c) m !! KInode j) as Hino.
  { intros j. by rewrite (apply_ops_on is_inode_key). }
  apply (wf_evolves names cs nx m _ (Some c) None); [done|..].
  - split; try done.
    + intros j r'. rewrite Hino. intros [? Hj]%lookup_delete_Some. exists r'. split; [done|]. by eapply rewrites_refl.
    + intros j r Hj. rewrite Hino. destruct (decide (j = c)) as [->|].
      * right. rewrite lookup_delete_eq, (apply_ops_on data_key) by done. auto.
      * left. rewrite lookup_delete_ne by congruence. eauto.
    + intros k Hk' _. by rewrite (apply_ops_on data_key).
    + intros c' [= <-]. by rewrite Hino, lookup_delete_eq.
  - eapply tree_frame; [|by apply (tree_del_inode names _ _ _ m c n Ht Hc Hroot Hl)].
    intros k Hk'. by rewrite (apply_ops_on tree_key).
  - unfold settle_batch. forall_ops.
  - unfold settle_batch. forall_ops.
  - unfold settle_batch. forall_ops.
  - exists n. split; [done|]. unfold deltas, settle_batch, delta_of, encode_delta. simpl.
    rewrite i64_le_wrap, !Z.add_0_l, !Z.add_0_r. split; [|done].
    unfold neg_billed. by rewrite !as_i64_idem, as_i64_opp.
Qed.

(** Deleting data of an inode that is gone; its orphan marker goes last. *)
Lemma wf_reap m i ks :
  wf names cs nx m -> m !! KInode i = None ->
  Forall (fun k => (exists idx, k = KChunk i idx) \/ (exists x, k = KXattr i x) \/ k = KSymlink i \/ k = KOrphan i) ks ->
  (apply_batch m (Delete <$> ks) !! KOrphan i = None -> forall k v,
     (exists idx, k = KChunk i idx) \/ k = KSymlink i -> apply_batch m (Delete <$> ks) !! k <> Some v) ->
  wf names cs nx (apply_batch m (Delete <$> ks)).
Proof.
  intros Hwf Hi Hks Hlast. set (m' := apply_batch m (Delete <$> ks)) in *.
  assert (forall k, (forall idx, k <> KChunk i idx) -> (forall x, k <> KXattr i x) -> k <> KSymlink i ->
            k <> KOrphan i -> m' !! k = m !! k) as Hsame.
  { intros k H1 H2 H3 H4. apply apply_batch_frame, Forall_fmap, (Forall_impl _ _ _ Hks).
    intros k' [[? ->]|[[? ->]|[-> | ->]]] <-; simpl in *; naive_solver. }
  assert (forall k v, m' !! k = Some v -> m !! k = Some v) as Hsub.
  { intros k v. unfold m', apply_batch. clear. revert m. induction ks as [|k' ks IH]; intros m; simpl; [done|].
    intros [_ H]%IH%lookup_delete_Some. done. }
  assert (forall j, m' !! KInode j = m !! KInode j) as Hnode by (intros; by apply Hsame).
  assert (forall j k, j <> i -> key_ino k = Some j -> m' !! k = m !! k) as Hother.
  { intros j k Hj Hk. apply Hsame; intros; intros ->; simpl in Hk; congruence. }
  assert (forall j, owned m j -> owned m' j \/ j = i) as Hown.
  { intros j [[r Hr]|Ho]; destruct (decide (j = i)); auto; left; [left; by rewrite Hnode; eauto|right].
    by rewrite (Hother j). }
  assert (forall k v, m' !! k = Some v -> (exists idx, k = KChunk i idx) \/ k = KSymlink i -> owned m' i) as Hi'.
  { intros k v Hk Hkk. destruct (m' !! KOrphan i) as [o|] eqn:Eo; [right; by rewrite Eo|].
    by destruct (Hlast eq_refl k v Hkk). }
  destruct (wf_orphans _ _ _ _ Hwf) as [O1 O2 O3 O4 O5 O6].
  destruct (totals_same m m') as [T1 T2]; [intros j; unfold bill_at; by rewrite Hnode|].
  assert (deltas KQuotaBytes (Delete <$> ks) = 0 /\ deltas KQuotaInodes (Delete <$> ks) = 0) as [Z1 Z2].
  { clear. unfold deltas. induction ks as [|k ks IH]; [done|]. destruct IH. done. }
  apply (wf_batch names cs nx); [done|lia|..].
  - apply (tree_frame names _ _ _ m); [|apply Hwf]. intros k Hk. apply Hsame; intros; by intros ->.
  - intros j r. fold m'. rewrite Hnode. intros Hj. assert (j <> i) by congruence.
    eapply file_ok_agree; [by eapply (wf_data _ _ _ _ Hwf)| |done|done]. intros idx. by apply (Hother j).
  - fold m'. split.
    + intros j v Hv%Hsub. eauto.
    + intros j r. rewrite Hnode. intros Hj Hk. rewrite (Hother j) by (done || congruence). by apply O2.
    + intros j r. rewrite Hnode. intros Hj Hk. assert (j <> i) by congruence.
      destruct (O3 j r Hj Hk) as (? & ? & ?). rewrite !(Hother j) by done. split_and!; [done| |done].
      intros idx. by rewrite (Hother j).
    + intros j idx v Hv. destruct (Hown j) as [| ->]; [by eapply O4, Hsub|done|eauto].
    + intros j v Hv. destruct (Hown j) as [| ->]; [by eapply O5, Hsub|done|eauto].
    + intros j r. rewrite Hnode. intros Hj Hk. assert (j <> i) by congruence. rewrite (Hother j) by done. by eapply O6.
  - intros j r. fold m'. rewrite Hnode. by apply Hwf.
  - apply Forall_fmap, (Forall_impl _ _ _ Hks). done.
  - apply Forall_fmap, (Forall_impl _ _ _ Hks). intros k [[? ->]|[[? ->]|[-> | ->]]]; done.
  - apply Forall_fmap, (Forall_impl _ _ _ Hks). intros k [[? ->]|[[? ->]|[-> | ->]]]; done.
  - fold m'. by rewrite Z1, Z.add_0_r, T1.
  - fold m'. by rewrite Z2, Z.add_0_r, T2.
Qed.
End entries.
