(* ===== verification/VfsLogic.v ===== *)
(** A program logic for the operations of [Vfs].

    An operation runs on a volume whose storage may fail at any call.  The
    logic separates what a failed call, the clock and the health report can
    change ([calmed] erases it) from the state proper; [reads] specifies the
    computations that change nothing else, and the bind rules let an
    operation's proof follow its text. *)

From S2P Require Import Prelude Keys Meta Store Data Quota Locks Volume Vfs Tree Wf WfOps.

(** * Engine computations that only read *)

Section steady.
Context {DB : SlateDB}.

Definition unfaulted (s : Engine) : Engine := mkEngine (e_db s) [] (e_clock s) (e_log s).

(** [m] writes nothing, and what it returns with faults pending it also
    returns without. *)
Definition steady {E A} (m : ST Engine E A) : Prop := forall s r s',
  m s = (r, s') ->
  e_db s' = e_db s /\ e_log s' = e_log s /\ (e_faults s = [] -> e_faults s' = []) /\
  forall a, r = Ok a -> m (unfaulted s) = (Ok a, unfaulted s').

Lemma steady_ret {E A} (a : A) : steady (E := E) (st_ret a).
Proof. intros s r s' [= <- <-]. split_and!; try done. by intros ? [= <-]. Qed.

Lemma steady_lift {E A} (r : result E A) : steady (st_lift r).
Proof. intros s r' s' [= <- <-]. split_and!; try done. by intros ? ->. Qed.

Lemma steady_bind {E A B} (m : ST Engine E A) (f : A -> ST Engine E B) :
  steady m -> (forall a, steady (f a)) -> steady (st_bind m f).
Proof.
  intros Hm Hf s r s'. unfold st_bind. destruct (m s) as [[a|e] s1] eqn:Em.
  - intros Ef. destruct (Hm _ _ _ Em) as (? & ? & ? & Ha), (Hf a _ _ _ Ef) as (? & ? & ? & Hb).
    split_and!; [congruence..|auto|]. intros b ->. rewrite (Ha a eq_refl). auto.
  - intros [= <- <-]. destruct (Hm _ _ _ Em) as (? & ? & ? & _). by split_and!.
Qed.

Lemma steady_map_err {E E' A} (f : E -> E') (m : ST Engine E A) : steady m -> steady (st_map_err f m).
Proof.
  intros Hm s r s'. unfold st_map_err. destruct (m s) as [r0 s0] eqn:Em. intros [= <- <-].
  destruct (Hm _ _ _ Em) as (? & ? & ? & Ha). split_and!; try done.
  intros a Hr. destruct r0 as [a0|]; [|done]. injection Hr as ->. by rewrite (Ha a eq_refl).
Qed.

Lemma steady_poll : steady poll.
Proof.
  intros s r s'. unfold poll. destruct (e_faults s) as [|f fs] eqn:Ef; intros [= <- <-]; split_and!; try done.
  - by intros a [= <-].
  - intros a Ha. destruct f; [done|]. by injection Ha as <-.
Qed.

Lemma steady_get k : steady (get k).
Proof.
  apply steady_bind; [apply steady_poll|]. intros []. intros s r s' [= <- <-]. split_and!; try done.
  by intros a [= <-].
Qed.

Lemma steady_scan lo hi : steady (scan lo hi).
Proof.
  apply steady_bind; [apply steady_poll|]. intros []. intros s r s' [= <- <-]. split_and!; try done.
  by intros a [= <-].
Qed.

Lemma steady_snapshot : steady snapshot.
Proof.
  apply steady_bind; [apply steady_poll|]. intros []. intros s r s' [= <- <-]. split_and!; try done.
  by intros a [= <-].
Qed.

Lemma steady_snapshot_get d k : steady (snapshot_get d k).
Proof. apply steady_bind; [apply steady_poll|]. intros []. apply steady_ret. Qed.

Lemma steady_iter_next it : steady (iter_next it).
Proof. apply steady_bind; [apply steady_poll|]. intros []. apply steady_ret. Qed.

Lemma steady_iter_loop {A} (f : A -> Key * Value -> A + A) acc it : steady (iter_loop f acc it).
Proof.
  revert acc. induction it as [|kv it IH]; intros acc; simpl;
    (apply steady_bind; [apply steady_poll|]); intros []; [apply steady_ret|].
  destruct (f acc kv); [apply steady_ret|apply IH].
Qed.

Create HintDb steady.
#[local] Hint Resolve steady_ret steady_lift steady_poll steady_get steady_scan steady_snapshot
  steady_snapshot_get steady_iter_next steady_iter_loop : steady.
#[local] Hint Resolve steady_map_err : steady.

(** Follow the text of a reader. *)
Ltac steady :=
  repeat first
    [ progress (auto with steady) | apply steady_bind; [|intros] | apply steady_map_err | case_match ].

Lemma steady_read_chunks snap cs ino off idxs out : steady (read_chunks snap cs ino off idxs out).
Proof. revert out. induction idxs as [|idx idxs IH]; intros out; simpl; unfold lift_db; steady. Qed.

Lemma steady_read_range cs ino size off n : steady (read_range cs ino size off n).
Proof. unfold read_range, lift_db. steady; apply steady_read_chunks. Qed.

Lemma steady_write_chunks cs ino old new off data idxs puts delta :
  steady (write_chunks cs ino old new off data idxs puts delta).
Proof.
  revert puts delta. induction idxs as [|idx idxs IH]; intros puts delta; simpl; [steady|].
  apply steady_bind; [unfold lift_db; steady|]. intros o. repeat case_match; apply IH.
Qed.

Lemma steady_plan_write cs ino old off data : steady (plan_write cs ino old off data).
Proof. unfold plan_write. apply steady_bind; [apply steady_write_chunks|]. intros. steady. Qed.

Lemma steady_plan_truncate cs ino old new : steady (plan_truncate cs ino old new).
Proof. unfold plan_truncate, lift_db. steady. Qed.
End steady.

(** * Volume computations that only read *)

Section reads.
Context {DB : SlateDB} {AC : MokaCache u64 Inode} {NC : MokaCache (u64 * bytes) unit}
  {NCR : NameCrypto}.
Implicit Types (v c : Volume) (G : Prop).

(** The volume without the parts that faults, the clock and the health report
    change. *)
Definition calmed (v : Volume) : Volume :=
  set_health (VolumeHealth.new None)
    (set_eng (mkEngine (e_db (v_eng v)) [] [] (e_log (v_eng v))) v).

(** No fault is pending and the volume is live. *)
Definition quiet (v : Volume) : Prop := e_faults (v_eng v) = [] /\ h_dead (v_health v) = false.

(** From a volume that calms to [c], [m] changes nothing; it returns a value
    in [P], or on a quiet volume fails as [E] says. *)
Definition reads c {A} (m : FsM A) (P : A -> Prop) (E : FsError -> Prop) : Prop := forall v,
  calmed v = c ->
  wp m (fun r v' =>
    calmed v' = c /\ (quiet v -> quiet v') /\
    match r with
    | Ok a => P a
    | Err (Raise e) => quiet v -> E e
    | Err OutOfFuel => quiet v -> False
    end) v.

Definition never : FsError -> Prop := fun _ => False.

Lemma reads_mono c {A} (m : FsM A) (P P' : A -> Prop) (E E' : FsError -> Prop) :
  reads c m P E -> (forall a, P a -> P' a) -> (forall e, E e -> E' e) -> reads c m P' E'.
Proof.
  intros Hm HP HE v Hv. eapply wp_mono; [by apply Hm|]. intros r v' (H1 & H2 & H3).
  split_and!; [done..|]. destruct r as [a|[e|]]; eauto.
Qed.

Lemma reads_ret c {A} (a : A) (P : A -> Prop) E : P a -> reads c (st_ret a) P E.
Proof. intros HP v Hv. by apply wp_ret. Qed.

Lemma reads_fail c {A} e (P : A -> Prop) (E : FsError -> Prop) : E e -> reads c (fail e) P E.
Proof. intros HE v Hv. by apply wp_fail. Qed.

Lemma reads_bind c {A B} (m : FsM A) (f : A -> FsM B) P P' E :
  reads c m P E -> (forall a, P a -> reads c (f a) P' E) -> reads c (st_bind m f) P' E.
Proof.
  intros Hm Hf v Hv. apply wp_bind. eapply wp_mono; [by apply Hm|]. simpl.
  intros r v' (H1 & H2 & H3). destruct r as [a|e]; [|done].
  eapply wp_mono; [by apply (Hf a)|]. simpl. intros r v'' (K1 & K2 & K3).
  split_and!; [done|auto|]. destruct r as [b|[e|]]; auto.
Qed.

Lemma reads_assoc c {A B C} (m : FsM A) (f : A -> FsM B) (g : B -> FsM C) P E :
  reads c (st_bind m (fun a => st_bind (f a) g)) P E -> reads c (st_bind (st_bind m f) g) P E.
Proof. intros H v Hv. specialize (H v Hv). unfold wp, st_bind in *. by destruct (m v) as [[a|e] v']. Qed.

(** The value is the state's own. *)
Lemma reads_get c {A} (f : Volume -> FsM A) P E :
  (forall v, calmed v = c -> reads c (f v) P E) -> reads c (v <- st_get ;; f v) P E.
Proof. intros Hf v Hv. apply wp_bind. simpl. by apply Hf. Qed.

Lemma reads_guard c {A} (r : result FsError A) :
  reads c (guard r) (fun a => r = Ok a) (fun e => r = Err e).
Proof. intros v Hv. apply wp_lift. by destruct r. Qed.

Lemma reads_core c {A} (r : result Error A) :
  reads c (core r) (fun a => r = Ok a) (fun _ => is_ok r = false).
Proof. intros v Hv. apply wp_lift. by destruct r. Qed.

Lemma reads_or_else c {A} e (m : FsM A) P E :
  reads c m P E -> reads c (or_else e m) P (fun e' => e' = e /\ exists e0, E e0).
Proof.
  intros Hm v Hv. unfold wp, or_else, st_map_err. specialize (Hm v Hv). unfold wp in Hm.
  destruct (m v) as [[a|[e0|]] v']; simpl; naive_solver.
Qed.

Lemma reads_live c : reads c ensure_live (fun _ => True) never.
Proof.
  intros v Hv. unfold wp, ensure_live, VolumeHealth.ensure_live. destruct (h_dead (v_health v)) eqn:Hd; simpl.
  - split_and!; [done..|]. intros [_ ?]. congruence.
  - done.
Qed.

Lemma reads_now c : reads c now (fun _ => True) never.
Proof.
  intros v Hv. unfold wp, now, clock_now. destruct v as [[db fl ck lg]], ck; by simpl in *.
Qed.

Lemma reads_now_unix c : reads c now_unix (fun t => 0 <= t) never.
Proof. eapply reads_bind; [apply reads_now|]. intros. apply reads_ret. lia. Qed.

(** What awaiting a reader of the engine gives: its value, or a fault. *)
Lemma steady_run {E A} (m : ST Engine E A) (d : Db) P s r s' :
  steady m ->
  (forall s, e_faults s = [] -> e_db s = d -> exists a, m s = (Ok a, s) /\ P a) ->
  e_db s = d -> m s = (r, s') ->
  e_db s' = d /\ e_log s' = e_log s /\ (e_faults s = [] -> e_faults s' = []) /\
  match r with Ok a => P a | Err _ => e_faults s <> [] end.
Proof.
  intros Hst Hm Hd Em. destruct (Hst _ _ _ Em) as (E1 & E2 & E3 & E4).
  destruct (Hm (unfaulted s) eq_refl Hd) as (a & Ea & Pa). split_and!; [congruence..|done|].
  destruct r as [a'|e].
  - rewrite (E4 a' eq_refl) in Ea. by injection Ea as ->.
  - intros Hf. destruct s as [db fl ck lg]. simpl in *. subst fl. unfold unfaulted in Ea. simpl in Ea. congruence.
Qed.

Lemma reads_storage c {A} (m : EM A) P :
  steady m ->
  (forall s, e_faults s = [] -> e_db s = e_db (v_eng c) -> exists a, m s = (Ok a, s) /\ P a) ->
  reads c (storage m) P never.
Proof.
  intros Hst Hm v <-. unfold wp, storage. destruct (m (v_eng v)) as [r e] eqn:Em.
  destruct (steady_run m _ P (v_eng v) r e Hst Hm eq_refl Em) as (E1 & E2 & E3 & E4).
  destruct v as [[db fl ck lg] sb h nm rl q al ht cs at_ ra w], e as [db' fl' ck' lg']; simpl in *. subst db' lg'.
  unfold VolumeHealth.map_storage, VolumeHealth.ensure_live, quiet.
  destruct (h_dead h) eqn:Hd; [|destruct r]; simpl; (split_and!; [done|intuition congruence..]).
Qed.

Lemma reads_map_core c {A} (m : ST Engine Error A) P :
  steady m ->
  (forall s, e_faults s = [] -> e_db s = e_db (v_eng c) -> exists a, m s = (Ok a, s) /\ P a) ->
  reads c (map_core m) P never.
Proof.
  intros Hst Hm v <-. unfold wp, map_core. destruct (m (v_eng v)) as [r e] eqn:Em.
  destruct (steady_run m _ P (v_eng v) r e Hst Hm eq_refl Em) as (E1 & E2 & E3 & E4).
  destruct v as [[db fl ck lg] sb h nm rl q al ht cs at_ ra w], e as [db' fl' ck' lg']; simpl in *. subst db' lg'.
  unfold VolumeHealth.map_core, VolumeHealth.ensure_live, quiet.
  destruct (h_dead h) eqn:Hd; [|destruct r]; simpl; (split_and!; [done|intuition congruence..]).
Qed.

(** ** Storage access *)

Lemma reads_db_get c k : reads c (Vfs.db_get k) (fun o => o = store c !! k) never.
Proof.
  eapply reads_bind; [apply reads_live|]. intros _ _. apply reads_storage; [apply steady_get|].
  intros s Hs Hd. rewrite get_quiet by done. rewrite Hd. eauto.
Qed.

Lemma reads_db_scan c lo hi :
  reads c (Vfs.db_scan lo hi) (fun it => it = Store.db_scan (e_db (v_eng c)) (Some lo) (Some hi)) never.
Proof.
  eapply reads_bind; [apply reads_live|]. intros _ _. apply reads_storage; [apply steady_scan|].
  intros s Hs Hd. rewrite scan_quiet by done. rewrite Hd. eauto.
Qed.

Lemma reads_iter_next c it :
  reads c (vfs_iter_next it)
    (fun o => o = match it with [] => None | kv :: it' => Some (kv, it') end) never.
Proof.
  eapply reads_bind; [apply reads_live|]. intros _ _. apply reads_storage; [apply steady_iter_next|].
  intros s Hs Hd. rewrite iter_next_quiet by done. eauto.
Qed.

Lemma reads_iter c {A} (f : A -> Key * Value -> A) acc it :
  reads c (vfs_iter f acc it) (fun r => r = fold_left f it acc) never.
Proof.
  revert acc. induction it as [|kv it IH]; intros acc; simpl;
    (eapply reads_bind; [apply reads_iter_next|]); intros ? ->; [by apply reads_ret|apply IH].
Qed.
End reads.

(** Follow one call of a reader: its specification, then how its failures are
    failures of the whole. *)
Ltac loading H :=
  eapply reads_bind; [eapply reads_mono; [apply H|let x := fresh in let Hx := fresh in intros x Hx; exact Hx| ]| ]; cbv beta.
