(* ===== verification/VfsInv.v ===== *)
(** The invariant of a mounted volume and the specifications of the steps the
    operations are built from: loading records, committing a batch, caching,
    reserving quota, waiting for locks. *)

From S2P Require Import Prelude Keys Meta Store Data Quota Locks Volume Vfs Tree Wf WfOps VfsLogic.

Section inv.
Context {DB : SlateDB} {AC : MokaCache u64 Inode} {NC : MokaCache (u64 * bytes) unit}
  {NCR : NameCrypto}.
Implicit Types (c : Volume) (G : Prop).

(** The records are well formed, the quota tracker agrees with the counters,
    and whatever the cache answers is what the store holds.  The bound on the
    chunk size is the one [config.rs] enforces. *)
Record Inv (v : Volume) : Prop := {
  inv_wf : wf (v_names v) (v_chunk_size v) (al_next (v_alloc v)) (store v);
  inv_qb : q_bytes (v_quota v) = counter (store v) KQuotaBytes;
  inv_qi : q_inodes (v_quota v) = counter (store v) KQuotaInodes;
  inv_attrs i n : ac_get i (v_attrs v) = Some n -> node (store v) i n;
  inv_neg p name enc : ac_is_negative p name (v_attrs v) = true ->
    seal_name (v_names v) p name = Ok enc -> store v !! KDirent p enc = None;
  inv_cs : 0 < v_chunk_size v <= 2 ^ 22
}.

(** The 32- and 64-bit counters have not run out. *)
Definition roomy (v : Volume) : Prop :=
  al_next (v_alloc v) < U64_MAX /\
  forall i n, node (store v) i n -> i_nlink n < U32_MAX /\ i_next_dirent_id n < U64_MAX.

Lemma inv_calmed v : Inv (calmed v) <-> Inv v.
Proof. split; intros [? ? ? ? ? ?]; by split. Qed.

Lemma calmed_idem v : calmed (calmed v) = calmed v.
Proof. done. Qed.

Lemma inv_node c i v : Inv c -> store c !! KInode i = Some v -> exists n, v = VInode n.
Proof. intros Hi. apply (tr_inode _ _ _ _ _ (wf_tree _ _ _ _ (inv_wf _ Hi))). Qed.

Lemma inv_dirent c p enc v : Inv c -> store c !! KDirent p enc = Some v -> exists d, v = VDirent d.
Proof.
  intros Hi Hd. destruct (tr_dirent _ _ _ _ _ (wf_tree _ _ _ _ (inv_wf _ Hi)) _ _ _ Hd) as (d & -> & _). eauto.
Qed.

Lemma roomy_node c i n : Inv c -> roomy c -> node (store c) i n -> ROOT_INO <= i < U64_MAX.
Proof. intros Hi [Hr _] Hn. destruct (wf_node_below _ _ _ _ _ _ (inv_wf _ Hi) Hn). lia. Qed.

(** ** Loading records *)

Lemma reads_load_inode c i :
  Inv c -> reads c (load_inode i) (fun n => node (store c) i n)
                 (fun e => e = Stale /\ store c !! KInode i = None).
Proof.
  intros Hi. eapply reads_bind; [eapply reads_mono; [apply reads_db_get|eauto|done]|].
  intros o ->. destruct (store c !! KInode i) as [v|] eqn:Hv; [|by apply reads_fail].
  destruct (inv_node c i v Hi Hv) as [n ->].
  eapply reads_mono; [apply reads_core|by intros ? [= <-]|done].
Qed.

(** Loading a directory fails on what is not there or not a directory. *)
Definition no_dir c i (e : FsError) : Prop :=
  (e = Stale /\ store c !! KInode i = None) \/
  (e = NotDir /\ exists n, node (store c) i n /\ i_kind n <> Dir).

Lemma reads_load_dir c i :
  Inv c -> reads c (load_dir i) (fun n => node (store c) i n /\ i_kind n = Dir) (no_dir c i).
Proof.
  intros Hi. eapply reads_bind; [eapply reads_mono; [by apply reads_load_inode|eauto|by left]|].
  intros n Hn. unfold check_dir. destruct (is_dir (i_kind n)) eqn:Hd.
  - apply reads_ret. split; [done|]. by apply is_dir_true.
  - apply reads_fail. right. split; [done|]. exists n. split; [done|]. by apply is_dir_false.
Qed.

Lemma reads_seal c p name :
  len name <= MAX_NAME_LEN ->
  reads c (seal p name) (fun enc => seal_name (v_names c) p name = Ok enc) never.
Proof.
  intros Hn. apply reads_get. intros v <-. eapply reads_mono; [apply reads_core|done|].
  intros e. destruct (seal_name_ok (v_names v) p name Hn) as [enc ->]. done.
Qed.

(** The entry [name] of [p], by its sealed name. *)
Definition entry_is c p name (o : option Dirent) : Prop :=
  exists enc, seal_name (v_names c) p name = Ok enc /\
    match o with
    | Some d => dent (store c) p enc d
    | None => store c !! KDirent p enc = None
    end.

Lemma validate_len name : validate_name name = Ok tt -> len name <= MAX_NAME_LEN.
Proof. unfold validate_name. destruct (Z.ltb_spec MAX_NAME_LEN (len name)); repeat case_match; done || lia. Qed.

Lemma reads_dirent_of c p name :
  Inv c -> len name <= MAX_NAME_LEN -> reads c (dirent_of p name) (entry_is c p name) never.
Proof.
  intros Hi Hn. eapply reads_bind; [by apply reads_seal|]. intros enc Henc.
  eapply reads_bind; [apply reads_db_get|]. intros o ->.
  destruct (store c !! KDirent p enc) as [v|] eqn:Hv.
  - destruct (inv_dirent c p enc v Hi Hv) as [d ->]. apply reads_ret. by exists enc.
  - apply reads_ret. by exists enc.
Qed.

Lemma scan_elem c lo hi k v :
  Inv c ->
  (k, v) ∈ Store.db_scan (e_db (v_eng c)) (Some lo) (Some hi) <->
  store c !! k = Some v /\ key_ok k /\ in_range lo hi k = true.
Proof.
  intros Hi. rewrite db_scan_elem. unfold in_range. rewrite andb_true_iff. fold (store c).
  split.
  - intros (Hk & H1 & H2). split_and!; auto. by destruct (wf_keys _ _ _ _ (inv_wf _ Hi) k v Hk).
  - intros (Hk & _ & H1 & H2). split_and!; [done|..]; by intros ? [= <-].
Qed.

(** An empty directory passes, any other fails. *)
Lemma reads_check_empty c i n :
  Inv c -> roomy c -> node (store c) i n ->
  reads c (check_empty i) (fun _ => forall enc, store c !! KDirent i enc = None)
    (fun e => e = NotEmpty /\ exists enc d, dent (store c) i enc d).
Proof.
  intros Hi Hr Hn. destruct (roomy_node c i n Hi Hr Hn) as [Hlo Hhi]. unfold ROOT_INO in Hlo.
  assert (forall k v, (k, v) ∈ Store.db_scan (e_db (v_eng c)) (Some (keys.dirent_prefix i))
            (Some (keys.dirent_prefix (i + 1))) <-> store c !! k = Some v /\ exists enc, k = KDirent i enc) as Hs.
  { intros k v. rewrite scan_elem by done. split.
    - intros (Hk & Hok & Hin). apply in_range_dirents in Hin; [done|done|lia].
    - intros (Hk & Henc). destruct (wf_keys _ _ _ _ (inv_wf _ Hi) k v Hk) as [Hok _].
      split_and!; [done..|]. apply in_range_dirents; [done|lia|done]. }
  eapply reads_bind; [eapply reads_mono; [apply reads_db_scan|eauto|done]|]. intros it ->.
  eapply reads_bind; [eapply reads_mono; [apply reads_iter_next|eauto|done]|]. intros o ->.
  destruct (Store.db_scan _ _ _) as [|[k v] it] eqn:E; simpl.
  - apply reads_ret. intros enc. apply eq_None_not_Some. intros [v Hv].
    assert ((KDirent i enc, v) ∈ @nil (Key * Value)) as Hin by (apply Hs; eauto). by apply elem_of_nil in Hin.
  - apply reads_fail. split; [done|]. destruct (proj1 (Hs k v)) as [Hv [enc ->]]; [left|].
    destruct (inv_dirent c i enc v Hi Hv) as [d ->]. eauto.
Qed.

(** The extended attributes a removed directory takes along. *)
Lemma reads_xattr_deletes c i n :
  Inv c -> roomy c -> node (store c) i n ->
  reads c (it <- Vfs.db_scan (keys.xattr_prefix i) (keys.xattr_prefix (i + 1)) ;;
           vfs_iter (fun b kv => b ++ [Delete kv.1]) [] it)
    (fun xs => forall op, op ∈ xs <-> exists name, op = Delete (KXattr i name) /\ is_Some (store c !! KXattr i name))
    never.
Proof.
  intros Hi Hr Hn. destruct (roomy_node c i n Hi Hr Hn) as [Hlo Hhi]. unfold ROOT_INO in Hlo.
  eapply reads_bind; [apply reads_db_scan|]. intros it ->.
  eapply reads_mono; [apply reads_iter| |done]. intros xs ->.
  assert (forall l acc, fold_left (fun b (kv : Key * Value) => b ++ [Delete kv.1]) l acc = acc ++ (Delete <$> l.*1)) as Hf.
  { induction l as [|kv l IH]; intros acc; simpl; [by rewrite app_nil_r|]. by rewrite IH, <- app_assoc. }
  intros op. rewrite Hf, app_nil_l. rewrite list_elem_of_fmap. setoid_rewrite list_elem_of_fmap. split.
  - intros (k & -> & [k' v] & -> & Hin). apply scan_elem in Hin as (Hk & Hok & Hin); [|done].
    apply in_range_xattrs in Hin as [x ->]; [|done|lia]. exists x. simpl. eauto.
  - intros (x & -> & [v Hv]). exists (KXattr i x). split; [done|]. exists (KXattr i x, v). split; [done|].
    destruct (wf_keys _ _ _ _ (inv_wf _ Hi) _ _ Hv) as [Hok _].
    apply scan_elem; [done|]. split_and!; [done..|]. apply in_range_xattrs; [done|lia|eauto].
Qed.

(** ** Runs *)

(** The store of [c] after a batch. *)
Definition committed (b : WriteBatch) c : Volume :=
  set_eng (mkEngine (db_write (e_db (v_eng c)) b) [] [] (e_log (v_eng c) ++ [b])) c.

Lemma store_committed b c : store (committed b c) = apply_batch (store c) b.
Proof. unfold store, committed. simpl. apply db_write_spec. Qed.

(** [v] is [c] up to faults, clock and health; under [G] it is quiet. *)
Record calm G c v : Prop := { calm_eq : calmed v = c; calm_quiet : G -> quiet v }.

(** [m'] is [m] but for the allocator's mark. *)
Definition same_files (m m' : gmap Key Value) : Prop := forall k, k <> KNextIno -> m' !! k = m !! k.

(** How an operation that took effect on [c] ends: the invariant holds; under
    [G] a failure is one of [E] and left the files as they were. *)
Definition ends G c {A} (P : Volume -> A -> Prop) (E : FsError -> Prop)
    (r : result (Halt FsError) A) v : Prop :=
  Inv v /\ (G -> quiet v) /\ v_names v = v_names c /\ v_chunk_size v = v_chunk_size c /\
  match r with
  | Ok a => P (calmed v) a
  | Err (Raise e) => G -> E e /\ same_files (store c) (store v)
  | Err OutOfFuel => ~ G
  end.

(** [c] as seen from the start [c0] of an operation: no more than the
    allocator has moved. *)
Record begun c0 c : Prop := {
  bg_inv : Inv c;
  bg_names : v_names c = v_names c0;
  bg_cs : v_chunk_size c = v_chunk_size c0;
  bg_files : same_files (store c0) (store c)
}.

Lemma begun_refl c : Inv c -> begun c c.
Proof. by split. Qed.

Lemma ends_err G c0 c {A} (P : Volume -> A -> Prop) (E : FsError -> Prop) h v :
  begun c0 c -> calm G c v ->
  match h with Raise e => G -> E e | OutOfFuel => ~ G end ->
  ends G c0 P E (Err h) v.
Proof.
  intros [B1 B2 B3 B4] [<- Hq] Hh. rewrite inv_calmed in B1. split_and!; try done.
  destruct h as [e|]; [|done]. intros HG. auto.
Qed.

Lemma ends_ok G c0 c {A} (P : Volume -> A -> Prop) (E : FsError -> Prop) a v :
  calm G c v -> Inv c -> v_names c = v_names c0 -> v_chunk_size c = v_chunk_size c0 -> P c a ->
  ends G c0 P E (Ok a) v.
Proof. intros [<- Hq] Hi Hn Hcs HP. rewrite inv_calmed in Hi. by split_and!. Qed.

(** A failure that [G] rules out. *)
Lemma ends_not G c0 c {A} (P : Volume -> A -> Prop) (E : FsError -> Prop) h v :
  calm G c v -> Inv c -> v_names c = v_names c0 -> v_chunk_size c = v_chunk_size c0 -> ~ G ->
  ends G c0 P E (Err h) v.
Proof. intros [<- Hq] Hi Hn Hcs HG. rewrite inv_calmed in Hi. split_and!; try done. by destruct h. Qed.

Lemma wp_reads c {A} (m : FsM A) P E G v (Q : result (Halt FsError) A -> Volume -> Prop) :
  reads c m P E -> calm G c v ->
  (forall a v', calm G c v' -> P a -> Q (Ok a) v') ->
  (forall h v', calm G c v' -> match h with Raise e => G -> E e | OutOfFuel => ~ G end -> Q (Err h) v') ->
  wp m Q v.
Proof.
  intros Hm [Hc Hq] Hok Herr. eapply wp_mono; [by apply Hm|]. simpl. intros r v' (E1 & E2 & E3).
  assert (calm G c v') by (split; auto). destruct r as [a|[e|]]; [auto|apply Herr; auto|apply Herr; auto].
Qed.

(** The clock and the name codec do not fail. *)
Lemma wp_now G c v (Q : result (Halt FsError) Timespec -> Volume -> Prop) :
  calm G c v -> (forall t v', calm G c v' -> Q (Ok t) v') -> wp now Q v.
Proof.
  intros [<- Hq] HQ. unfold wp, now, clock_now.
  destruct v as [[db fl ck lg] sb h nm rl q al ht cs at_ ra w], ck; simpl in *; apply HQ; by split.
Qed.

Lemma wp_seal G c p name v (Q : result (Halt FsError) bytes -> Volume -> Prop) :
  len name <= MAX_NAME_LEN -> calm G c v ->
  (forall enc, seal_name (v_names c) p name = Ok enc -> Q (Ok enc) v) -> wp (seal p name) Q v.
Proof.
  intros Hn [<- Hq] HQ. apply (wp_bind st_get). unfold wp at 1. simpl.
  destruct (seal_name_ok (v_names v) p name Hn) as [enc E]. unfold core, guard. rewrite E. by apply HQ.
Qed.

Lemma bind_reads c0 c {A B} (m : FsM A) (f : A -> FsM B) P E G Pk Ek v :
  reads c m P E -> begun c0 c -> calm G c v ->
  (forall a v', calm G c v' -> P a -> wp (f a) (ends G c0 Pk Ek) v') ->
  (forall e, G -> E e -> Ek e) ->
  wp (st_bind m f) (ends G c0 Pk Ek) v.
Proof.
  intros Hm Hb Hc Hok Herr. apply wp_bind. eapply wp_reads; [done..|]. intros h v' Hc' Hh. simpl.
  eapply ends_err; [done..|]. destruct h; auto.
Qed.

Lemma wp_live G c v (Q : result (Halt FsError) unit -> Volume -> Prop) :
  calm G c v -> (calm G c v -> h_dead (v_health v) = false -> Q (Ok tt) v) ->
  (forall e, ~ G -> Q (Err (Raise e)) v) -> wp ensure_live Q v.
Proof.
  intros [Hc Hq] Hok Herr. unfold wp, ensure_live, VolumeHealth.ensure_live.
  destruct (h_dead (v_health v)) eqn:Hd; simpl; [|by apply Hok].
  apply Herr. intros HG. destruct (Hq HG). congruence.
Qed.

Lemma wp_write G c b v (Q : result (Halt FsError) unit -> Volume -> Prop) :
  calm G c v -> h_dead (v_health v) = false ->
  (forall v', calm G (committed b c) v' -> Q (Ok tt) v') ->
  (forall e v', calm G c v' -> ~ G -> Q (Err (Raise e)) v') -> wp (storage (Store.write b)) Q v.
Proof.
  intros [<- Hq] Hd Hok Herr. unfold wp, storage, Store.write, st_bind, poll, st_modify.
  destruct v as [[db fl ck lg] sb h nm rl q al ht cs at_ ra w]; simpl in *.
  destruct fl as [|[e|] fl]; simpl; unfold VolumeHealth.map_storage, VolumeHealth.ensure_live; rewrite Hd; simpl;
    try rewrite Hd; simpl.
  - apply Hok. split; [done|]. intros _. by split.
  - apply Herr; [split; [done|]|]; intros HG; destruct (Hq HG) as [Hf _]; done.
  - apply Hok. split; [done|]. intros HG. destruct (Hq HG) as [Hf _]. done.
Qed.

Lemma wp_commit G c b v (Q : result (Halt FsError) unit -> Volume -> Prop) :
  calm G c v -> (forall v', calm G (committed b c) v' -> Q (Ok tt) v') ->
  (forall e v', calm G c v' -> ~ G -> Q (Err (Raise e)) v') -> wp (commit b) Q v.
Proof.
  intros Hc Hok Herr. apply wp_bind. eapply wp_live; [done|..]; simpl; [|auto].
  intros _ Hd. by eapply wp_write.
Qed.

(** [c] with its writes on storage. *)
Definition flushed c : Volume := set_eng (mkEngine (db_flush (e_db (v_eng c))) [] [] (e_log (v_eng c))) c.

Lemma store_flushed c : store (flushed c) = store c.
Proof. apply db_flush_spec. Qed.

Lemma inv_flushed c : Inv c -> Inv (flushed c).
Proof. intros [? ? ? ? ? ?]. split; rewrite ?store_flushed; done. Qed.

Lemma wp_flush G c v (Q : result (Halt FsError) unit -> Volume -> Prop) :
  calm G c v -> h_dead (v_health v) = false -> (forall v', calm G (flushed c) v' -> Q (Ok tt) v') ->
  (forall e v', calm G c v' -> ~ G -> Q (Err (Raise e)) v') -> wp (storage flush) Q v.
Proof.
  intros [<- Hq] Hd Hok Herr. unfold wp, storage, flush, st_bind, poll, st_modify.
  destruct v as [[db fl ck lg] sb h nm rl q al ht cs at_ ra w]; simpl in *.
  destruct fl as [|[e|] fl]; simpl; unfold VolumeHealth.map_storage, VolumeHealth.ensure_live; rewrite Hd; simpl;
    try rewrite Hd; simpl.
  - apply Hok. split; [done|]. intros _. by split.
  - apply Herr; [split; [done|]|]; intros HG; destruct (Hq HG) as [Hf _]; done.
  - apply Hok. split; [done|]. intros HG. destruct (Hq HG) as [Hf _]. done.
Qed.

Lemma wp_cache G c g v (Q : result (Halt FsError) unit -> Volume -> Prop) :
  calm G c v -> (forall v', calm G (set_attrs (g (v_attrs c)) c) v' -> Q (Ok tt) v') -> wp (cache g) Q v.
Proof. intros [<- Hq] Hok. apply Hok. split; [done|]. apply Hq. Qed.

Lemma wp_release G c b i v (Q : result (Halt FsError) unit -> Volume -> Prop) :
  calm G c v -> (forall v', calm G (set_quota (QuotaTracker.release b i (v_quota c)) c) v' -> Q (Ok tt) v') ->
  wp (release b i) Q v.
Proof. intros [<- Hq] Hok. apply Hok. split; [done|]. apply Hq. Qed.

Lemma wp_commit_release G c bt b i v (Q : result (Halt FsError) unit -> Volume -> Prop) :
  calm G c v -> (forall v', calm G (committed bt c) v' -> Q (Ok tt) v') ->
  (forall e v', calm G (set_quota (QuotaTracker.release b i (v_quota c)) c) v' -> ~ G -> Q (Err (Raise e)) v') ->
  wp (commit_or bt (release b i)) Q v.
Proof.
  intros Hc Hok Herr. apply wp_bind. apply wp_try. eapply wp_commit; [done|..]; simpl.
  - intros v' Hc'. apply wp_ret. auto.
  - intros e v' Hc' HG. apply wp_bind. eapply wp_release; [done|]. intros v'' Hc''. apply wp_fail. auto.
Qed.

Lemma wp_reserve G c b i v (Q : result (Halt FsError) unit -> Volume -> Prop) :
  calm G c v ->
  (forall t r q v', QuotaTracker.reserve b i t (v_quota c) = (r, q) -> calm G (set_quota q c) v' ->
     Q (map_err Raise r) v') ->
  wp (reserve b i) Q v.
Proof.
  intros [<- Hq] HQ. unfold wp, reserve, now_unix, now, clock_now, st_bind, st_ret.
  destruct v as [[db fl ck lg] sb h nm rl q al ht cs at_ ra w], ck; simpl in *;
    destruct (QuotaTracker.reserve _ _ _ q) as [r q'] eqn:Er; (eapply HQ; [exact Er|]); by split.
Qed.

(** Waiting for locks: the other tasks run; alone, nothing changes but the
    number of waits. *)
Section rely.
Context (others : nat -> Volume -> Volume).

(** What the rest of the process may do between two steps of an operation. *)
Record rely : Prop := {
  rely_inv n v : Inv v -> roomy v -> Inv (others n v) /\ roomy (others n v);
  rely_orphan n v i : is_Some (store v !! KOrphan i) ->
    is_Some (store (others n v) !! KOrphan i) \/ store (others n v) !! KInode i = None;
  rely_names n v : v_names (others n v) = v_names v;
  rely_cs n v : v_chunk_size (others n v) = v_chunk_size v
}.

Definition alone : Prop := forall n v, others n v = v.

Lemma wp_lock G c v (Q : result (Halt FsError) unit -> Volume -> Prop) :
  rely -> (G -> alone) -> Inv c -> roomy c -> calm G c v ->
  (forall c' v', calm G c' v' -> Inv c' -> roomy c' -> v_names c' = v_names c ->
     v_chunk_size c' = v_chunk_size c -> (G -> c' = set_waits (S (v_waits c)) c) -> Q (Ok tt) v') ->
  wp (lock_wait others) Q v.
Proof.
  intros Hrely Halone Hi Hr [<- Hq] HQ. unfold wp, lock_wait.
  set (v1 := set_waits (S (v_waits v)) v).
  assert (Inv v1) as Hi1 by (by destruct Hi; split). assert (roomy v1) as Hr1 by done.
  destruct (rely_inv Hrely (v_waits v) v1 Hi1 Hr1) as [Hi2 Hr2].
  apply (HQ (calmed (others (v_waits v) v1))); [|by apply inv_calmed|done|
    exact (rely_names Hrely _ v1)|exact (rely_cs Hrely _ v1)|].
  - split; [done|]. intros HG. rewrite (Halone HG). apply (Hq HG).
  - intros HG. by rewrite (Halone HG).
Qed.
End rely.

(** ** The caches after a commit *)

(** The cached inodes and negative entries agree with the records, but for
    the inodes [di] and the entries [de], which a batch has just written. *)
Record coherent names (di : list u64) (de : list (u64 * bytes)) (a : AttrCache) (m : gmap Key Value) : Prop := {
  co_attrs i n : i ∉ di -> ac_get i a = Some n -> node m i n;
  co_neg p name enc : (p, enc) ∉ de -> ac_is_negative p name a = true -> seal_name names p name = Ok enc ->
    m !! KDirent p enc = None
}.

Definition dirty_inodes (b : WriteBatch) : list u64 :=
  omap (fun op => match op_key op with KInode i => Some i | _ => None end) b.
Definition dirty_entries (b : WriteBatch) : list (u64 * bytes) :=
  omap (fun op => match op with Put (KDirent p enc) _ => Some (p, enc) | _ => None end) b.

Lemma inv_coherent v : Inv v -> coherent (v_names v) [] [] (v_attrs v) (store v).
Proof. intros [? ? ? Ha Hn ?]. split; eauto. Qed.

Lemma apply_batch_none m b k :
  Forall (fun op => match op with Put k' _ | Merge k' _ => k' <> k | Delete _ => True end) b ->
  m !! k = None -> apply_batch m b !! k = None.
Proof.
  unfold apply_batch. intros Hb. revert m. induction Hb as [|op b Hop _ IH]; intros m Hm; simpl; [done|].
  apply IH. destruct op as [k' x|k'|k' x]; simpl.
  - by rewrite lookup_insert_ne.
  - destruct (decide (k' = k)) as [->|]; [apply lookup_delete_eq|by rewrite lookup_delete_ne].
  - case_match; [|done]. by rewrite lookup_insert_ne.
Qed.

Lemma coherent_commit names a m b :
  coherent names [] [] a m ->
  Forall (fun op => match op with Merge k _ => k = KQuotaBytes \/ k = KQuotaInodes | _ => True end) b ->
  coherent names (dirty_inodes b) (dirty_entries b) a (apply_batch m b).
Proof.
  intros [Ha Hn] Hmerge. split.
  - intros i n Hi Hget. rewrite apply_batch_frame; [apply Ha; [apply not_elem_of_nil|done]|].
    apply Forall_forall. intros op Hop Hk. apply Hi. apply list_elem_of_omap. exists op. by rewrite Hk.
  - intros p name enc Hi Hget Hseal. apply apply_batch_none; [|eapply Hn; [apply not_elem_of_nil|done..]].
    apply Forall_forall. intros op Hop. pose proof (proj1 (Forall_forall _ b) Hmerge op Hop) as Hm.
    destruct op as [k x|k|k x]; [|done|destruct Hm; subst; done].
    intros ->. apply Hi. apply list_elem_of_omap. by eexists.
Qed.

Lemma aside_dirty nx xs :
  Forall (aside nx) xs ->
  dirty_inodes xs = [] /\ dirty_entries xs = [] /\
  Forall (fun op => match op with Merge k _ => k = KQuotaBytes \/ k = KQuotaInodes | _ => True end) xs.
Proof.
  induction 1 as [|op xs Hop _ (IH1 & IH2 & IH3)]; [done|]. unfold dirty_inodes, dirty_entries. simpl.
  destruct op as [[]|[]|[]]; simpl in *; try done; split_and!; try done; by constructor.
Qed.

Lemma coherent_insert names i n di de a m :
  coherent names (i :: di) de a m -> node m i n -> coherent names di de (ac_insert i n a) m.
Proof.
  intros [Ha Hn] Hi. split; [|done]. intros j r Hj Hget.
  apply mk_get_insert in Hget as [[-> ->]|[Hne Hget]]; [done|]. apply Ha; [|done]. by apply not_elem_of_cons.
Qed.

Lemma coherent_remove names i di de a m :
  coherent names (i :: di) de a m -> coherent names di de (ac_remove i a) m.
Proof.
  intros [Ha Hn]. split; [|done]. intros j r Hj Hget.
  apply mk_get_invalidate in Hget as [Hne Hget]. apply Ha; [|done]. by apply not_elem_of_cons.
Qed.

Lemma coherent_negative names p name enc di de a m :
  coherent names di de a m -> seal_name names p name = Ok enc -> m !! KDirent p enc = None ->
  coherent names di de (ac_insert_negative p name a) m.
Proof.
  intros [Ha Hn] Hseal Hm. split; [done|]. intros q nm e Hde Hneg He. unfold ac_is_negative in Hneg.
  case_match eqn:Hget; [|done]. apply mk_get_insert in Hget as [[[= -> ->] _]|[Hne Hget]]; [congruence|].
  eapply Hn; [done| |done]. unfold ac_is_negative. simpl. by rewrite Hget.
Qed.

Lemma coherent_positive names p name enc di de a m :
  coherent names di ((p, enc) :: de) a m -> seal_name names p name = Ok enc ->
  coherent names di de (ac_remove_negative p name a) m.
Proof.
  intros [Ha Hn] Hseal. split; [done|]. intros q nm e Hde Hneg He. unfold ac_is_negative in Hneg.
  case_match eqn:Hget; [|done]. apply mk_get_invalidate in Hget as [Hne Hget].
  eapply Hn; [|unfold ac_is_negative; simpl; by rewrite Hget|done].
  apply not_elem_of_cons. split; [|done]. intros [= -> ->]. apply Hne. f_equal. by eapply seal_name_inj.
Qed.

Lemma coherent_perm names di di' de de' a m :
  (forall i, i ∈ di -> i ∈ di') -> (forall e, e ∈ de -> e ∈ de') ->
  coherent names di de a m -> coherent names di' de' a m.
Proof. intros H1 H2 [Ha Hn]. split; eauto. Qed.

(** A volume assembled from a well-formed store, exact counters and a
    coherent cache. *)
Lemma inv_build v :
  wf (v_names v) (v_chunk_size v) (al_next (v_alloc v)) (store v) ->
  q_bytes (v_quota v) = counter (store v) KQuotaBytes ->
  q_inodes (v_quota v) = counter (store v) KQuotaInodes ->
  coherent (v_names v) [] [] (v_attrs v) (store v) -> 0 < v_chunk_size v <= 2 ^ 22 -> Inv v.
Proof. intros ? ? ? [Ha Hn] ?. split; try done; intros; [eapply Ha|eapply Hn]; done || apply not_elem_of_nil. Qed.

Lemma inv_cache c g :
  Inv c -> coherent (v_names c) [] [] (g (v_attrs c)) (store c) -> Inv (set_attrs (g (v_attrs c)) c).
Proof. intros [? ? ? ? ? ?] Hg. by apply inv_build. Qed.

(** The counters after a batch, from the tracker before it. *)
Lemma inv_counters c b :
  Inv c -> Forall (counter_safe KQuotaBytes) b -> Forall (counter_safe KQuotaInodes) b ->
  counter (apply_batch (store c) b) KQuotaBytes = as_i64 (q_bytes (v_quota c) + deltas KQuotaBytes b) /\
  counter (apply_batch (store c) b) KQuotaInodes = as_i64 (q_inodes (v_quota c) + deltas KQuotaInodes b).
Proof.
  intros Hi Sb Si. rewrite (inv_qb _ Hi), (inv_qi _ Hi). split; apply counter_batch; try done; apply Hi.
Qed.

Lemma inv_tracker c : Inv c -> tracker_ok (v_quota c).
Proof. intros Hi. split; [rewrite (inv_qb _ Hi)|rewrite (inv_qi _ Hi)]; apply counter_range. Qed.

(** A batch on [c], the quota and the caches brought up to date with it. *)
Lemma inv_commit c b q a nx :
  Inv c -> wf (v_names c) (v_chunk_size c) nx (apply_batch (store c) b) ->
  al_next (v_alloc c) = nx ->
  Forall (counter_safe KQuotaBytes) b -> Forall (counter_safe KQuotaInodes) b ->
  q_bytes q = as_i64 (q_bytes (v_quota c) + deltas KQuotaBytes b) ->
  q_inodes q = as_i64 (q_inodes (v_quota c) + deltas KQuotaInodes b) ->
  coherent (v_names c) [] [] a (apply_batch (store c) b) ->
  Inv (set_quota q (set_attrs a (committed b c))).
Proof.
  intros Hi Hwf Hnx Sb Si Hqb Hqi Ha. destruct (inv_counters c b Hi Sb Si) as [Cb Ci].
  assert (store (set_quota q (set_attrs a (committed b c))) = apply_batch (store c) b) as E by apply store_committed.
  apply inv_build; rewrite ?E; simpl; subst; try congruence; apply Hi.
Qed.

Lemma begun_quota c0 c q :
  begun c0 c -> q_bytes q = q_bytes (v_quota c) -> q_inodes q = q_inodes (v_quota c) -> begun c0 (set_quota q c).
Proof.
  intros [[? ? ? ? ? ?] B2 B3 B4] Hb Hi. split; try done. split; simpl; try done; by rewrite ?Hb, ?Hi.
Qed.

Lemma set_quota_id c : set_quota (v_quota c) c = c.
Proof. by destruct c. Qed.

(** ** Whole operations *)

(** The same volume, but for the number of lock waits and what the caches
    happen to hold. *)
Definition at_rest c : Volume := set_readahead ∅ (set_attrs ac_default (set_waits 0 c)).

(** An operation started on [c] takes effect on some [c1] that satisfies the
    invariant; under [G], which rules interference out, on [c] itself. *)
Definition settles G c {A} (P : Volume -> Volume -> A -> Prop) (E : Volume -> FsError -> Prop)
    (r : result (Halt FsError) A) v : Prop :=
  exists c1, Inv c1 /\ (G -> at_rest c1 = at_rest c) /\ v_names c1 = v_names c /\
    v_chunk_size c1 = v_chunk_size c /\ ends G c1 (P c1) (E c1) r v.

Lemma settles_ends G c {A} (m : FsM A) P E v :
  Inv c -> wp m (ends G c (P c) (E c)) v -> wp m (settles G c P E) v.
Proof. intros Hi Hm. eapply wp_mono; [exact Hm|]. intros r v' H. by exists c. Qed.

Lemma settles_mono G c {A} (m : FsM A) P P' E E' v :
  wp m (settles G c P E) v ->
  (forall c1 c' a, Inv c1 -> Inv c' -> v_names c' = v_names c1 -> v_chunk_size c' = v_chunk_size c1 ->
     P c1 c' a -> P' c1 c' a) -> (forall c1 e, E c1 e -> E' c1 e) -> wp m (settles G c P' E') v.
Proof.
  intros Hm HP HE. eapply wp_mono; [exact Hm|]. intros r v' (c1 & H1 & H2 & H3 & H4 & H5 & H6 & H7 & H8 & H10).
  exists c1. unfold ends. split_and!; try done. destruct r as [a|[e|]]; [|intros HG; destruct (H10 HG); auto|done].
  apply HP; try done. by apply inv_calmed.
Qed.

Lemma wp_assoc {S E A B C} (m : ST S E A) (f : A -> ST S E B) (g : B -> ST S E C) Q s :
  wp (st_bind m (fun a => st_bind (f a) g)) Q s -> wp (st_bind (st_bind m f) g) Q s.
Proof. unfold wp, st_bind. by destruct (m s) as [[a|e] s']. Qed.

Lemma wp_group {S E A B C} (m : ST S E A) (f : A -> ST S E B) (g : B -> ST S E C) Q s :
  wp (st_bind (st_bind m f) g) Q s -> wp (st_bind m (fun a => st_bind (f a) g)) Q s.
Proof. unfold wp, st_bind. by destruct (m s) as [[a|e] s']. Qed.

Lemma wp_get {S E A} (f : S -> ST S E A) Q s : wp (f s) Q s -> wp (st_bind st_get f) Q s.
Proof. done. Qed.

Lemma wp_or_else {A} e (m : FsM A) Q v :
  wp m (fun r v' => Q (map_err (halt_map (fun _ => e)) r) v') v -> wp (or_else e m) Q v.
Proof. unfold wp, or_else, st_map_err. by destruct (m v). Qed.

(** Reading before the locks are taken. *)
Lemma settles_reads c {A B} (m : FsM A) (f : A -> FsM B) P E G Pk (Ek : Volume -> FsError -> Prop) v :
  reads c m P E -> Inv c -> calm G c v ->
  (forall a v', calm G c v' -> P a -> wp (f a) (settles G c Pk Ek) v') ->
  (forall e, G -> E e -> Ek c e) ->
  wp (st_bind m f) (settles G c Pk Ek) v.
Proof.
  intros Hm Hi Hc Hok Herr. apply wp_bind. eapply wp_reads; [done..|]. intros h v' Hc' Hh.
  exists c. split_and!; try done. eapply ends_err; [by apply begun_refl|done|]. destruct h; auto.
Qed.

Lemma settles_of_reads c {A} (m : FsM A) (P : Volume -> A -> Prop) E G v :
  reads c m (P c) (E c) -> Inv c -> calm G c v ->
  wp m (settles G c (fun c1 c' a => P c1 a /\ store c' = store c1) E) v.
Proof.
  intros Hm Hi Hc. apply settles_ends; [done|]. eapply wp_reads; [done..| |].
  - intros a v' Hc' HP. by eapply ends_ok.
  - intros h v' Hc' Hh. eapply ends_err; [by apply begun_refl|done..].
Qed.

(** The state the [n]-th lock wait of [v] ends in. *)
Definition after_wait (others : nat -> Volume -> Volume) v : Volume :=
  others (v_waits v) (set_waits (S (v_waits v)) v).

Lemma settles_lock_at others c {A} (f : unit -> FsM A) G P E v :
  rely others -> (G -> alone others) -> Inv c -> roomy c -> calm G c v ->
  (forall v', v' = after_wait others v -> calm G (calmed v') v' -> Inv (calmed v') -> roomy (calmed v') ->
     (G -> at_rest (calmed v') = at_rest c) ->
     wp (f tt) (ends G (calmed v') (P (calmed v')) (E (calmed v'))) v') ->
  wp (st_bind (lock_wait others) f) (settles G c P E) v.
Proof.
  intros Hrely Halone Hi Hr [<- Hq] Hf. apply wp_bind. unfold wp at 1, lock_wait.
  set (v1 := set_waits (S (v_waits v)) v).
  assert (Inv v1) as Hi1 by (by destruct Hi; split).
  destruct (rely_inv _ Hrely (v_waits v) v1 Hi1 Hr) as [Hi2 Hr2].
  assert (G -> at_rest (calmed (after_wait others v)) = at_rest (calmed v)) as Hw.
  { intros HG. unfold after_wait. by rewrite (Halone HG). }
  eapply wp_mono; [apply (Hf (after_wait others v)); try done|].
  - split; [done|]. intros HG. unfold after_wait. rewrite (Halone HG). apply (Hq HG).
  - by apply inv_calmed.
  - simpl. intros r v2 He. exists (calmed (after_wait others v)). split_and!; try done.
    + by apply inv_calmed.
    + exact (rely_names _ Hrely _ v1).
    + exact (rely_cs _ Hrely _ v1).
Qed.

Lemma settles_lock others c {A} (f : unit -> FsM A) G P E v :
  rely others -> (G -> alone others) -> Inv c -> roomy c -> calm G c v ->
  (forall c1 v', calm G c1 v' -> Inv c1 -> roomy c1 -> (G -> at_rest c1 = at_rest c) -> wp (f tt) (ends G c1 (P c1) (E c1)) v') ->
  wp (st_bind (lock_wait others) f) (settles G c P E) v.
Proof. intros Hrely Ha Hi Hr Hc Hf. eapply settles_lock_at; [done..|]. intros v' _ Hc' Hi' Hr' Hw. by apply Hf. Qed.
End inv.

(** Follow one reading step of an operation: the specification of the call,
    the state it runs on, what its failure means. *)
Ltac reading H :=
  first [eapply settles_reads; [apply H|eassumption|eassumption| | ]
        |eapply bind_reads; [apply H|eassumption|eassumption| | ]]; cbv beta.
