(* ===== verification/OpsAttr.v ===== *)
(** Extended attributes, attribute changes and the operations that only read. *)

From S2P Require Import Prelude Keys Meta Store Data Quota Locks Volume Vfs Tree Wf WfOps VfsLogic VfsInv.

Section ops.
Context {DB : SlateDB} {AC : MokaCache u64 Inode} {NC : MokaCache (u64 * bytes) unit}
  {NCR : NameCrypto}.
Context (others : nat -> Volume -> Volume) (Hrely : rely others).
Implicit Types (c : Volume) (G : Prop).

Lemma access_err creds n want e : access creds n want = Err e -> e = AccessDenied.
Proof. unfold access. repeat case_match; congruence. Qed.

(** Rewriting an inode in place, with records the invariant does not read. *)
Lemma inv_touch c i n n' xs :
  Inv c -> node (store c) i n -> same_core n n' -> Forall (aside (al_next (v_alloc c))) xs ->
  Inv (set_attrs (ac_insert i n' (v_attrs c)) (committed (xs ++ [Put (KInode i) (VInode n')]) c)).
Proof.
  intros Hi Hn Hcore Hxs. destruct (aside_ops _ xs Hxs) as (_ & Hin & _ & Hbel & Hsb & Hsi & Hdb & Hdi).
  pose proof (inv_tracker c Hi) as [Tb Ti].
  pose proof (inv_commit c (xs ++ [Put (KInode i) (VInode n')]) (v_quota c) (ac_insert i n' (v_attrs c))
    (al_next (v_alloc c))) as Hinv. apply Hinv; try done; clear Hinv.
  - eapply wf_touch; [apply Hi|done..].
  - forall_ops.
  - forall_ops.
  - by rewrite deltas_app, Hdb, Z.add_0_r, as_i64_small.
  - by rewrite deltas_app, Hdi, Z.add_0_r, as_i64_small.
  - apply coherent_insert; [|rewrite apply_batch_app; apply lookup_insert_eq].
    destruct (aside_dirty _ xs Hxs) as (D1 & D2 & D3).
    pose proof (coherent_commit (v_names c) (v_attrs c) (store c) (xs ++ [Put (KInode i) (VInode n')])
      (inv_coherent c Hi)) as Hco. unfold dirty_inodes, dirty_entries in Hco. rewrite !omap_app in Hco.
    fold (dirty_inodes xs) (dirty_entries xs) in Hco. rewrite D1, D2 in Hco. apply Hco.
    apply Forall_app_2; [done|by constructor].
Qed.

Lemma inv_aside c xs : Inv c -> Forall (aside (al_next (v_alloc c))) xs -> Inv (committed xs c).
Proof.
  intros Hi Hxs. destruct (aside_ops _ xs Hxs) as (_ & _ & _ & _ & Hsb & Hsi & Hdb & Hdi).
  pose proof (inv_tracker c Hi) as [Tb Ti]. destruct (aside_dirty _ xs Hxs) as (D1 & D2 & D3).
  pose proof (inv_commit c xs (v_quota c) (v_attrs c) (al_next (v_alloc c)) Hi) as Hinv. apply Hinv; try done.
  - apply wf_aside; [apply Hi|done].
  - by rewrite Hdb, Z.add_0_r, as_i64_small.
  - by rewrite Hdi, Z.add_0_r, as_i64_small.
  - rewrite <- D1, <- D2 at 1. apply coherent_commit; [by apply inv_coherent|done].
Qed.

(** ** Extended attributes *)

Definition xattr_set creds ino name value c c' : Prop :=
  exists n t, node (store c) ino n /\ access creds n ACCESS_W = Ok tt /\
    store c' = apply_batch (store c)
                 [Put (KXattr ino name) (VBytes value); Put (KInode ino) (VInode (set_i_ctime t n))].

Lemma setxattr_settles G creds ino name value c v :
  (G -> alone others) -> Inv c -> roomy c -> calm G c v ->
  wp (setxattr others creds ino name value)
    (settles G c (fun c1 c' _ => xattr_set creds ino name value c1 c')
       (fun c1 e =>
          (e = Invalid /\ (bad_xattr_name name = true \/ MAX_XATTR_VALUE < len value)) \/
          e = QuotaExceeded \/ (e = Stale /\ store c1 !! KInode ino = None) \/
          (e = AccessDenied /\ exists n, node (store c1) ino n /\ access creds n ACCESS_W = Err e))) v.
Proof.
  intros Ha Hi Hr Hc. unfold setxattr.
  destruct (bad_xattr_name name || (MAX_XATTR_VALUE <? len value)) eqn:Hbad.
  { apply settles_ends; [done|]. apply wp_fail. eapply ends_err; [by apply begun_refl|done|]. intros _. left.
    split; [done|]. apply orb_true_iff in Hbad as [|H%Z.ltb_lt]; auto. }
  reading reads_now_unix; [|done]. intros t v1 Hc1 _.
  destruct Hc1 as [<- Hq1]. apply wp_bind. unfold wp at 1.
  destruct (QuotaTracker.check_not_over t (v_quota v1)) as [r q] eqn:Eq.
  unfold QuotaTracker.check_not_over in Eq. case_match; injection Eq as <- <-; simpl.
  { exists (calmed v1). split_and!; [done..|].
    eapply ends_err; [eapply begun_quota; [by apply begun_refl|..]|split; [done|apply Hq1]|]; simpl; auto. }
  eapply settles_lock; [done..| |].
  { split; [by destruct v1|]. intros HG. destruct (Hq1 HG). by split. }
  intros c1 v2 Hc2 Hi1 Hr1 _. pose proof (begun_refl c1 Hi1) as Hb.
  reading reads_load_inode; [done| |auto]. intros n v3 Hc3 Hn.
  reading reads_guard; [|intros e _ He; pose proof (access_err _ _ _ _ He) as ->; right; right; right; eauto]. intros [] v4 Hc4 Hacc.
  reading reads_now; [|done]. intros ts v5 Hc5 _.
  apply wp_bind. eapply wp_commit; [done|..]; [|intros e v6 Hc6 HG; by eapply ends_err].
  intros v6 Hc6. eapply wp_cache; [done|]. intros v7 Hc7.
  eapply ends_ok; [exact Hc7|apply (inv_touch c1 ino n _ [Put (KXattr ino name) (VBytes value)]); try done|done..|].
  - constructor; [|done]. simpl. destruct (wf_node_below _ _ _ _ _ _ (inv_wf _ Hi1) Hn). done.
  - exists n, ts. split_and!; try done. apply store_committed.
Qed.

Definition xattr_removed creds ino name c c' : Prop :=
  exists n t, node (store c) ino n /\ access creds n ACCESS_W = Ok tt /\
    is_Some (store c !! KXattr ino name) /\
    store c' = apply_batch (store c) [Delete (KXattr ino name); Put (KInode ino) (VInode (set_i_ctime t n))].

Lemma removexattr_settles G creds ino name c v :
  (G -> alone others) -> Inv c -> roomy c -> calm G c v ->
  wp (removexattr others creds ino name)
    (settles G c (fun c1 c' _ => xattr_removed creds ino name c1 c')
       (fun c1 e =>
          (e = Invalid /\ bad_xattr_name name = true) \/ (e = Stale /\ store c1 !! KInode ino = None) \/
          (e = AccessDenied /\ exists n, node (store c1) ino n /\ access creds n ACCESS_W = Err e) \/
          (e = NoData /\ store c1 !! KXattr ino name = None))) v.
Proof.
  intros Ha Hi Hr Hc. unfold removexattr. destruct (bad_xattr_name name) eqn:Hbad.
  { apply settles_ends; [done|]. apply wp_fail. eapply ends_err; [by apply begun_refl|done|]. auto. }
  eapply settles_lock; [done..|]. intros c1 v1 Hc1 Hi1 Hr1 _. pose proof (begun_refl c1 Hi1) as Hb.
  reading reads_load_inode; [done| |auto]. intros n v2 Hc2 Hn.
  reading reads_guard; [|intros e _ He; pose proof (access_err _ _ _ _ He) as ->; right; right; left; eauto].
  intros [] v3 Hc3 Hacc. reading reads_db_get; [|done]. intros o v4 Hc4 ->.
  destruct (store c1 !! KXattr ino name) as [x|] eqn:Hx; simpl.
  - reading reads_now; [|done]. intros ts v5 Hc5 _.
    apply wp_bind. eapply wp_commit; [done|..]; [|intros e v6 Hc6 HG; by eapply ends_err].
    intros v6 Hc6. eapply wp_cache; [done|]. intros v7 Hc7.
    eapply ends_ok; [exact Hc7|apply (inv_touch c1 ino n _ [Delete (KXattr ino name)]); try done|done..|].
    + by constructor.
    + exists n, ts. rewrite Hx. split_and!; eauto. apply store_committed.
  - apply wp_fail. eapply ends_err; [done..|]. auto.
Qed.
End ops.
