(* ===== verification/OpsRead.v ===== *)
(** The operations that only read: lookup, getattr, readlink, readdir,
    getxattr, listxattr, statfs, permissions. *)

From S2P Require Import Prelude Keys Meta Store Data Quota Locks Volume Vfs Tree Wf WfOps VfsLogic VfsInv OpsAttr.

Section readers.
Context {DB : SlateDB} {AC : MokaCache u64 Inode} {NC : MokaCache (u64 * bytes) unit}
  {NCR : NameCrypto}.
Implicit Types (c : Volume) (G : Prop).

Lemma set_attrs_id c : set_attrs (v_attrs c) c = c.
Proof. by destruct c. Qed.

(** The cache may answer; what it answers is the stored inode. *)
Lemma wp_load_cached G c i v (Q : result (Halt FsError) Inode -> Volume -> Prop) :
  Inv c -> calm G c v ->
  (forall n a v', node (store c) i n -> calm G (set_attrs a c) v' -> Inv (set_attrs a c) -> Q (Ok n) v') ->
  (forall h v', calm G c v' ->
     match h with Raise e => G -> e = Stale /\ store c !! KInode i = None | OutOfFuel => ~ G end -> Q (Err h) v') ->
  wp (load_inode_cached i) Q v.
Proof.
  intros Hi Hc Hok Herr. apply wp_bind. eapply wp_reads; [apply (reads_live c)|done| |].
  2: { intros h v' Hc' Hh. apply Herr; [done|]. destruct h; [|done]. intros HG. by destruct (Hh HG). }
  intros [] v1 Hc1 _. apply wp_get.
  destruct (ac_get i (v_attrs v1)) as [n|] eqn:Hget.
  - apply wp_ret. destruct Hc1 as [<- Hq1].
    apply (Hok n (v_attrs (calmed v1))); [apply Hi; done|rewrite (set_attrs_id (calmed v1)); by split|by rewrite (set_attrs_id (calmed v1))].
  - apply wp_bind. eapply wp_reads; [by apply reads_load_inode|done| |done].
    intros n v2 Hc2 Hn. apply wp_bind. eapply wp_cache; [done|]. intros v3 Hc3. apply wp_ret.
    eapply Hok; [done..|]. apply (inv_cache c (ac_insert i n)); [done|].
    apply coherent_insert; [|done]. eapply coherent_perm; [| |by apply inv_coherent]; intros ? []%elem_of_nil.
Qed.

Definition getattr_done ino c (a : FileAttr) : Prop :=
  exists n, node (store c) ino n /\ a = make_attr ino n.

Lemma getattr_settles G ino c v :
  Inv c -> calm G c v ->
  wp (getattr ino)
    (settles G c (fun c1 c' a => getattr_done ino c1 a /\ store c' = store c1)
       (fun c1 e => e = Stale /\ store c1 !! KInode ino = None)) v.
Proof.
  intros Hi Hc. apply settles_ends; [done|]. apply wp_bind. eapply wp_load_cached; [done..| |].
  - intros n a v1 Hn Hc1 Hi1. apply wp_ret. eapply ends_ok; [done..|]. split; [by exists n|done].
  - intros h v1 Hc1 Hh. eapply ends_err; [by apply begun_refl|done..].
Qed.

(** ** Lookup *)

(** The entry a name denotes in a directory. *)
Definition entry names (m : gmap Key Value) (p : u64) (name : bytes) : option u64 :=
  match seal_name names p name with
  | Ok enc => match m !! KDirent p enc with Some (VDirent d) => Some (d_child_ino d) | _ => None end
  | Err _ => None
  end.

Lemma entry_of_is c p name o :
  entry_is c p name o -> entry (v_names c) (store c) p name = d_child_ino <$> o.
Proof. intros (enc & Hs & Ho). unfold entry. rewrite Hs. destruct o; by rewrite Ho. Qed.

Definition lookup_done creds p name c (a : FileAttr) : Prop :=
  exists pn, node (store c) p pn /\ i_kind pn = Dir /\ access creds pn ACCESS_X = Ok tt /\
    ((name = DOT /\ a = make_attr p pn) \/
     (name = DOTDOT /\ exists un, node (store c) (i_parent_dir pn) un /\ a = make_attr (i_parent_dir pn) un) \/
     (validate_name name = Ok tt /\ exists i n, entry (v_names c) (store c) p name = Some i /\
        node (store c) i n /\ a = make_attr i n)).

Definition lookup_fails creds p name c (e : FsError) : Prop :=
  no_dir c p e \/
  (e = AccessDenied /\ exists pn, node (store c) p pn /\ access creds pn ACCESS_X = Err e) \/
  (name <> DOT /\ name <> DOTDOT /\ validate_name name = Err e) \/
  (e = NotFound /\ validate_name name = Ok tt /\ entry (v_names c) (store c) p name = None).

(** A directory's parent and its entries exist. *)
Lemma inv_parent c p pn : Inv c -> node (store c) p pn -> i_kind pn = Dir ->
  exists un, node (store c) (i_parent_dir pn) un.
Proof.
  intros Hi Hp Hk. pose proof (tr_reach _ _ _ _ _ (wf_tree _ _ _ _ (inv_wf _ Hi)) p pn Hp Hk) as Hr.
  inversion Hr as [n Hn Hkn E|j n Hn Hkn Hup]; subst.
  - destruct (tr_root _ _ _ _ _ (wf_tree _ _ _ _ (inv_wf _ Hi))) as (r & Hrn & _ & Hpar).
    assert (pn = r) as -> by congruence. rewrite Hpar. eauto.
  - assert (n = pn) as -> by congruence. destruct (reaches_node _ _ Hup) as (u & ? & _). eauto.
Qed.

Lemma inv_child c p enc d : Inv c -> dent (store c) p enc d -> exists n, node (store c) (d_child_ino d) n.
Proof.
  intros Hi Hd. destruct (tr_dirent _ _ _ _ _ (wf_tree _ _ _ _ (inv_wf _ Hi)) _ _ _ Hd) as (d' & [= <-] & [_ _ _ _ (n & Hn & _)]).
  eauto.
Qed.

(** Loading a directory through the cache. *)
Lemma bind_load_dir_cached G c i {A} (f : Inode -> FsM A) P (E : FsError -> Prop) v :
  Inv c -> calm G c v ->
  (forall n a v', node (store c) i n -> i_kind n = Dir -> calm G (set_attrs a c) v' ->
     Inv (set_attrs a c) -> wp (f n) (ends G c P E) v') ->
  (forall e, G -> no_dir c i e -> E e) ->
  wp (st_bind (load_dir_cached i) f) (ends G c P E) v.
Proof.
  intros Hi Hc Hok Herr. apply wp_assoc, wp_bind. eapply wp_load_cached; [done..| |].
  - intros n a v1 Hn Hc1 Hi1. apply wp_bind. unfold check_dir. destruct (is_dir (i_kind n)) eqn:Hd.
    + apply wp_ret. eapply Hok; try done. by apply is_dir_true.
    + apply wp_fail. eapply ends_err; [|done|]; [by split|]. intros HG. apply Herr; [done|]. right.
      split; [done|]. exists n. split; [done|]. by apply is_dir_false.
  - intros h v1 Hc1 Hh. eapply ends_err; [by apply begun_refl|done|]. destruct h; [|done].
    intros HG. apply Herr; [done|]. left. auto.
Qed.

Lemma lookup_settles G creds p name c v :
  Inv c -> calm G c v ->
  wp (lookup creds p name)
    (settles G c (fun c1 c' a => lookup_done creds p name c1 a /\ store c' = store c1) (lookup_fails creds p name)) v.
Proof.
  intros Hi Hc. apply settles_ends; [done|]. unfold lookup. eapply bind_load_dir_cached; [done..| |by left].
  intros pn a v1 Hp Hk Hc1 Hi1. assert (begun c (set_attrs a c)) as Hb by (by split).
  reading reads_guard; [|intros e _ He; pose proof (access_err _ _ _ _ He) as ->; right; left; eauto].
  intros [] v2 Hc2 Hacc. case_bool_decide as Hdot.
  { apply wp_ret. eapply ends_ok; [done..|]. split; [|done]. exists pn. split_and!; try done. by left. }
  case_bool_decide as Hdotdot.
  { apply wp_bind. eapply (wp_load_cached G (set_attrs a c)); [done..| |].
    - intros un a' v3 Hu Hc3 Hi3. apply wp_ret. eapply ends_ok; [done..|]. split; [|done].
      exists pn. split_and!; try done. right. left. eauto.
    - intros h v3 Hc3 Hh. eapply ends_err; [done..|]. destruct h; [|done]. intros HG.
      destruct (Hh HG) as [_ Hn]. destruct (inv_parent c p pn Hi Hp Hk) as [un Hu]. by rewrite (Hn : store c !! _ = None) in Hu. }
  reading reads_guard; [|intros e _ He; right; right; left; by split_and!]. intros [] v3 Hc3 Hval.
  apply wp_get. destruct (ac_is_negative p name (v_attrs v3)) eqn:Hneg.
  { apply wp_fail. eapply ends_err; [done..|]. intros _. right; right; right. split_and!; [done..|]. unfold entry.
    destruct (seal_name (v_names c) p name) as [enc|] eqn:Hs; [|done].
    destruct Hc3 as [Hc3 _]. assert (v_attrs v3 = a) as Ea by (change (v_attrs v3) with (v_attrs (calmed v3)); by rewrite Hc3).
    assert (store c !! KDirent p enc = None) as ->; [|done]. apply (inv_neg _ Hi1 p name enc); [|done]. simpl. congruence. }
  reading reads_dirent_of; [done|by apply validate_len| |done]. intros o v4 Hc4 Ho.
  pose proof (entry_of_is _ _ _ _ Ho) as Hent. destruct o as [d|]; simpl in Hent.
  - apply wp_bind, wp_or_else. eapply wp_load_cached; [done..| |].
    + intros n a' v5 Hn Hc5 Hi5. apply wp_ret. eapply ends_ok; [done..|]. split; [|done].
      exists pn. split_and!; try done. right. right. split; [done|]. by exists (d_child_ino d), n.
    + intros h v5 Hc5 Hh. eapply ends_err; [done..|]. destruct h; [|done]. simpl. intros HG.
      destruct (Hh HG) as [_ Hn], Ho as (enc & _ & Hd), (inv_child _ p enc d Hi1 Hd) as [n ?]. congruence.
  - apply wp_bind. eapply wp_cache; [done|]. intros v5 Hc5. apply wp_fail.
    eapply ends_err; [|exact Hc5|intros _; right; right; right; split_and!; done].
    destruct Ho as (enc & Hs & Hn). split; try done. apply (inv_cache (set_attrs a c) (ac_insert_negative p name)); [done|].
    eapply coherent_negative; [by apply inv_coherent|done|done].
Qed.

(** ** Listing a directory *)

Definition de_of (d : Dirent) : DirEntry :=
  {| de_name := d_name d; de_ino := d_child_ino d; de_kind := d_kind d; de_cookie := d_dirent_id d |}.

(** [L] lists the entries of [p] after [cookie], in the order of their ids. *)
Record listed c p (cookie : u64) (L : list DirEntry) : Prop := {
  ls_elem e : e ∈ L <-> exists enc d, dent (store c) p enc d /\ cookie < d_dirent_id d /\ e = de_of d;
  ls_sorted : StronglySorted Z.lt (de_cookie <$> L)
}.

(** One scanned record of the cookie index and the entry it stands for. *)
Definition index_of c p (kv : Key * Value) (e : DirEntry) : Prop :=
  exists enc d, dent (store c) p enc d /\ e = de_of d /\ is_u64 p /\ is_u64 (d_dirent_id d) /\
    kv = (KDirentIdx p (d_dirent_id d), VDirentIdx (idx_of enc d)) /\
    open_name (v_names c) p enc = Ok (d_name d).

Lemma reads_readdir_loop c p max it L es :
  Forall2 (index_of c p) it L -> len es <= max ->
  reads c (readdir_loop p max it es)
    (fun rd => rd_entries rd = es ++ take (Z.to_nat (max - len es)) L /\
               rd_eof rd = (len es + len L <=? max)) never.
Proof.
  intros HF. revert es. induction HF as [|kv e it L Hkv HF IH]; intros es Hes; simpl.
  - eapply reads_bind; [apply reads_iter_next|]. intros o ->. apply reads_ret. simpl.
    rewrite take_nil, app_nil_r, len_nil. destruct (Z.leb_spec (len es + 0) max); [done|lia].
  - eapply reads_bind; [apply reads_iter_next|]. intros o ->. pose proof (len_nonneg L).
    destruct (Z.eqb_spec (len es) max) as [Em|Em].
    + apply reads_ret. simpl. rewrite Em, Z.sub_diag. simpl. rewrite app_nil_r. split; [done|].
      rewrite len_cons. destruct (Z.leb_spec (max + (len L + 1)) max); [lia|done].
    + destruct Hkv as (enc & d & Hd & -> & Hp & Hid & -> & Hopen). cbn [fst snd].
      rewrite parse_dirent_idx_ok by done. simpl. apply reads_get. intros v <-. simpl in Hopen.
      eapply reads_bind; [eapply reads_mono; [apply reads_core|exact (fun _ H => H)|]|].
      { intros e. simpl. by rewrite Hopen. }
      intros nm Hnm. assert (nm = d_name d) as -> by (simpl in Hnm; rewrite Hopen in Hnm; congruence).
      eapply reads_mono; [apply IH; rewrite len_app, len_cons, len_nil; lia| |done].
      intros rd [-> ->]. rewrite len_app, !len_cons, len_nil.
      replace (Z.to_nat (max - len es)) with (S (Z.to_nat (max - (len es + (0 + 1))))) by lia.
      rewrite <- app_assoc. split; [done|]. f_equal. lia.
Qed.

(** The cookie index of a directory, scanned. *)
Definition index_scan c p (cookie : u64) : list (Key * Value) :=
  Store.db_scan (e_db (v_eng c)) (Some (keys.dirent_idx p (saturating_add_u64 cookie 1)))
    (Some (keys.dirent_idx p U64_MAX)).

Lemma index_scan_elem c p pn cookie k x :
  Inv c -> node (store c) p pn -> is_u64 cookie ->
  (k, x) ∈ index_scan c p cookie <->
  exists enc d, dent (store c) p enc d /\ cookie < d_dirent_id d /\
    k = KDirentIdx p (d_dirent_id d) /\ x = VDirentIdx (idx_of enc d).
Proof.
  intros Hi Hp Hck. pose proof (wf_tree _ _ _ _ (inv_wf _ Hi)) as Ht.
  destruct (wf_node_below _ _ _ _ _ _ (inv_wf _ Hi) Hp) as [_ Hpu].
  assert (is_u64 (saturating_add_u64 cookie 1)) as Hlo by (unfold is_u64, saturating_add_u64, U64_MAX in *; lia).
  assert (is_u64 U64_MAX) as Hhi by (unfold is_u64, U64_MAX; lia).
  unfold index_scan. rewrite scan_elem by done. split.
  - intros (Hk & Hok & Hin). apply in_range_dirent_idx in Hin as (id & -> & Hid); [|done..].
    destruct (tr_idx _ _ _ _ _ Ht p id x Hk) as (enc & d & Hd & <-).
    destruct (tr_dirent _ _ _ _ _ Ht _ _ _ Hd) as (? & [= <-] & [_ _ Hidx _ _]).
    exists enc, d. split_and!; [done| |done|congruence]. unfold saturating_add_u64, is_u64, U64_MAX in *. lia.
  - intros (enc & d & Hd & Hlt & -> & ->).
    destruct (tr_dirent _ _ _ _ _ Ht _ _ _ Hd) as (? & [= <-] & [_ _ Hidx (pn' & Hp' & _ & Hr) _]).
    assert (pn' = pn) as -> by congruence. destruct (wf_widths _ _ _ _ (inv_wf _ Hi) p pn Hp) as (_ & _ & Hw).
    destruct (wf_keys _ _ _ _ (inv_wf _ Hi) _ _ Hidx) as [Hok _]. split_and!; [done..|].
    apply in_range_dirent_idx; [done..|]. exists (d_dirent_id d). split; [done|].
    unfold saturating_add_u64, is_u64, U64_MAX in *. lia.
Qed.

Lemma dirent_idx_le p i j :
  is_u64 p -> is_u64 i -> is_u64 j ->
  bytes_leb (keys.dirent_idx p i) (keys.dirent_idx p j) = true -> i <= j.
Proof.
  intros Hp Hi Hj. key_unfold. key_cmp. rewrite Z.compare_refl. destruct (Z.compare_spec i j); [lia|lia|done].
Qed.

Lemma index_sorted c p it L :
  StronglySorted key_le it -> NoDup it.*1 -> Forall2 (index_of c p) it L ->
  StronglySorted Z.lt (de_cookie <$> L).
Proof.
  intros Hs Hnd HF. revert Hs Hnd. induction HF as [|kv e it L Hkv HF IH]; simpl; intros Hs Hnd; [constructor|].
  apply StronglySorted_inv in Hs as [Hs Hall]. apply NoDup_cons in Hnd as [Hni Hnd].
  constructor; [auto|]. apply Forall_fmap, Forall_forall. intros e' (i & He')%list_elem_of_lookup.
  destruct (Forall2_lookup_r _ _ _ _ _ HF He') as (kv' & Hkv' & Hidx').
  apply list_elem_of_lookup_2 in Hkv'. pose proof (proj1 (Forall_forall _ it) Hall kv' Hkv') as Hle.
  destruct Hkv as (enc & d & _ & -> & Hp & Hid & -> & _), Hidx' as (enc' & d' & _ & -> & _ & Hid' & -> & _). simpl in *.
  apply dirent_idx_le in Hle; [|done..].
  assert (d_dirent_id d <> d_dirent_id d'); [|lia].
  intros E. apply Hni. rewrite E. apply list_elem_of_fmap. by eexists (_, _).
Qed.

Lemma index_listed c p pn cookie :
  Inv c -> node (store c) p pn -> is_u64 cookie ->
  exists L, Forall2 (index_of c p) (index_scan c p cookie) L /\ listed c p cookie L.
Proof.
  intros Hi Hp Hck. pose proof (wf_tree _ _ _ _ (inv_wf _ Hi)) as Ht.
  pose proof (fun k x => index_scan_elem c p pn cookie k x Hi Hp Hck) as Hel.
  destruct (wf_node_below _ _ _ _ _ _ (inv_wf _ Hi) Hp) as [_ Hpu].
  assert (forall kv enc d, dent (store c) p enc d -> kv = (KDirentIdx p (d_dirent_id d), VDirentIdx (idx_of enc d)) ->
            index_of c p kv (de_of d)) as Hidx.
  { intros kv enc d Hd ->. exists enc, d. destruct (tr_dirent _ _ _ _ _ Ht _ _ _ Hd) as (? & [= <-] & [Hs _ Hx _ _]).
    destruct (wf_keys _ _ _ _ (inv_wf _ Hi) _ _ Hx) as [[_ Hok] _]. split_and!; try done. by apply open_seal. }
  destruct (Forall_choose (index_of c p) (index_scan c p cookie)) as [L HL].
  { apply Forall_forall. intros [k x] Hkv. apply Hel in Hkv as (enc & d & Hd & _ & -> & ->). eauto. }
  exists L. split; [done|]. split.
  - intros e. rewrite list_elem_of_lookup. split.
    + intros (i & Hi'). destruct (Forall2_lookup_r _ _ _ _ _ HL Hi') as ([k x] & Hkv & (enc & d & Hd & -> & _ & _ & [= -> ->] & _)).
      apply list_elem_of_lookup_2, Hel in Hkv as (enc' & d' & Hd' & Hlt & [= E] & _). exists enc, d. split_and!; try done. lia.
    + intros (enc & d & Hd & Hlt & ->).
      destruct (proj1 (list_elem_of_lookup _ _) (proj2 (Hel _ _) (ex_intro _ enc (ex_intro _ d (conj Hd (conj Hlt (conj eq_refl eq_refl))))))) as [i Hi'].
      destruct (Forall2_lookup_l _ _ _ _ _ HL Hi') as (e & He & (enc' & d' & Hd' & -> & _ & _ & [= E1 E2] & _)).
      exists i. rewrite He. f_equal. destruct (tr_dirent _ _ _ _ _ Ht _ _ _ Hd) as (? & [= <-] & [Hs1 _ _ _ _]).
      destruct (tr_dirent _ _ _ _ _ Ht _ _ _ Hd') as (? & [= <-] & _). congruence.
  - eapply index_sorted; [|apply db_scan_nodup|done].
    apply Sorted_StronglySorted; [exact key_le_trans|apply db_scan_sorted].
Qed.

Definition readdir_done creds p cookie max c (rd : ReadDir) : Prop :=
  exists pn L, node (store c) p pn /\ i_kind pn = Dir /\ access creds pn ACCESS_R = Ok tt /\
    listed c p cookie L /\ rd_entries rd = take (Z.to_nat max) L /\ rd_eof rd = (len L <=? max).

Lemma readdir_settles G creds p cookie max c v :
  Inv c -> is_u64 cookie -> 0 <= max -> calm G c v ->
  wp (readdir creds p cookie max)
    (settles G c (fun c1 c' rd => readdir_done creds p cookie max c1 rd /\ store c' = store c1)
       (fun c1 e => no_dir c1 p e \/
          (e = AccessDenied /\ exists pn, node (store c1) p pn /\ access creds pn ACCESS_R = Err e))) v.
Proof.
  intros Hi Hck Hmax Hc. apply settles_ends; [done|]. unfold readdir. eapply bind_load_dir_cached; [done..| |by left].
  intros pn a v1 Hp Hk Hc1 Hi1. assert (begun c (set_attrs a c)) as Hb by (by split).
  reading reads_guard; [|intros e _ He; pose proof (access_err _ _ _ _ He) as ->; right; eauto].
  intros [] v2 Hc2 Hacc. reading reads_db_scan; [|done]. intros it v3 Hc3 ->.
  destruct (index_listed (set_attrs a c) p pn cookie Hi1 Hp Hck) as (L & HL & Hls).
  eapply wp_reads; [apply (reads_readdir_loop _ p max _ L []); [exact HL|done]|done|..].
  - intros rd v4 Hc4 [E1 E2]. eapply ends_ok; [done..|]. split; [|done]. exists pn, L.
    rewrite len_nil, Z.sub_0_r in E1. split_and!; try done. by destruct Hls.
  - intros h v4 Hc4 Hh. eapply ends_err; [done..|]. destruct h; [|done]. intros HG. by destruct (Hh HG).
Qed.

(** ** Symlinks, extended attributes, permissions, usage *)

Definition stale_at c i (e : FsError) : Prop := e = Stale /\ store c !! KInode i = None.
Definition denied_at creds c i want (e : FsError) : Prop :=
  e = AccessDenied /\ exists n, node (store c) i n /\ access creds n want = Err e.

Lemma denied_of creds c i n want e :
  node (store c) i n -> access creds n want = Err e -> denied_at creds c i want e.
Proof. intros Hn He. pose proof (access_err _ _ _ _ He) as ->. split; eauto. Qed.

(** Load an inode and check a permission on it. *)
Lemma reads_checked c creds i want {A} (f : Inode -> FsM A) P (E : FsError -> Prop) :
  Inv c -> (forall e, stale_at c i e -> E e) -> (forall e, denied_at creds c i want e -> E e) ->
  (forall n, node (store c) i n -> access creds n want = Ok tt -> reads c (f n) P E) ->
  reads c (n <- load_inode i ;; guard (access creds n want) ;;; f n) P E.
Proof.
  intros Hi Hst Hde Hf. loading reads_load_inode; [done..|].
  intros n Hn. loading reads_guard.
  - intros e He. apply Hde. pose proof (access_err _ _ _ _ He) as ->. split; eauto.
  - intros [] Hacc. auto.
Qed.

Lemma readlink_settles G ino c v :
  Inv c -> calm G c v ->
  wp (readlink ino)
    (settles G c (fun c1 c' t => (exists n x, node (store c1) ino n /\ i_kind n = Symlink /\
         store c1 !! KSymlink ino = Some x /\ t = value_bytes x) /\ store c' = store c1)
       (fun c1 e => stale_at c1 ino e \/
          (e = Invalid /\ exists n, node (store c1) ino n /\ i_kind n <> Symlink) \/
          (e = Io /\ store c1 !! KSymlink ino = None))) v.
Proof.
  intros Hi Hc. eapply (settles_of_reads c _ (fun c1 t => exists n x, node (store c1) ino n /\ i_kind n = Symlink /\
    store c1 !! KSymlink ino = Some x /\ t = value_bytes x)); [|done..].
  loading reads_load_inode; [done|by left|].
  intros n Hn. case_bool_decide as Hk; simpl.
  - loading reads_db_get; [done|]. intros o ->.
    destruct (store c !! KSymlink ino) as [x|] eqn:Hx; [apply reads_ret; by exists n, x|apply reads_fail; auto].
  - apply reads_fail. right. left. eauto.
Qed.

Lemma getxattr_settles G creds ino name c v :
  Inv c -> calm G c v ->
  wp (getxattr creds ino name)
    (settles G c (fun c1 c' t => (exists n x, node (store c1) ino n /\ access creds n ACCESS_R = Ok tt /\
         store c1 !! KXattr ino name = Some x /\ t = value_bytes x) /\ store c' = store c1)
       (fun c1 e => (e = Invalid /\ bad_xattr_name name = true) \/ stale_at c1 ino e \/
          denied_at creds c1 ino ACCESS_R e \/ (e = NoData /\ store c1 !! KXattr ino name = None))) v.
Proof.
  intros Hi Hc. eapply (settles_of_reads c _ (fun c1 t => exists n x, node (store c1) ino n /\
    access creds n ACCESS_R = Ok tt /\ store c1 !! KXattr ino name = Some x /\ t = value_bytes x)); [|done..].
  unfold getxattr. destruct (bad_xattr_name name) eqn:Hbad; [apply reads_fail; auto|].
  apply reads_checked; [done|auto..|]. intros n Hn Hacc.
  loading reads_db_get; [done|]. intros o ->.
  destruct (store c !! KXattr ino name) as [x|] eqn:Hx; [apply reads_ret; by exists n, x|apply reads_fail; auto].
Qed.

Lemma listxattr_settles G creds ino c v :
  Inv c -> roomy c -> calm G c v ->
  wp (listxattr creds ino)
    (settles G c (fun c1 c' ns => (exists n, node (store c1) ino n /\ access creds n ACCESS_R = Ok tt /\
         forall x, x ∈ ns <-> is_Some (store c1 !! KXattr ino x)) /\ store c' = store c1)
       (fun c1 e => stale_at c1 ino e \/ denied_at creds c1 ino ACCESS_R e)) v.
Proof.
  intros Hi Hr Hc. eapply (settles_of_reads c _ (fun c1 ns => exists n, node (store c1) ino n /\
    access creds n ACCESS_R = Ok tt /\ forall x, x ∈ ns <-> is_Some (store c1 !! KXattr ino x))); [|done..].
  apply reads_checked; [done|auto..|]. intros n Hn Hacc.
  destruct (roomy_node c ino n Hi Hr Hn) as [Hlo Hhi]. unfold ROOT_INO in Hlo.
  loading reads_db_scan; [done|]. intros it ->.
  eapply reads_mono; [apply reads_iter| |done]. intros ns ->. exists n. split_and!; try done.
  assert (forall l acc, fold_left (fun b (kv : Key * Value) => b ++ [drop 9 (key_bytes kv.1)]) l acc =
            acc ++ ((fun kv => drop 9 (key_bytes kv.1)) <$> l)) as ->.
  { induction l as [|kv l IH]; intros acc; simpl; [by rewrite app_nil_r|]. by rewrite IH, <- app_assoc. }
  assert (forall y, drop 9 (key_bytes (KXattr ino y)) = y) as Hdrop.
  { intros y. simpl. rewrite <- (length_to_be 8 ino) at 1. apply drop_app_length. }
  intros x. rewrite app_nil_l, list_elem_of_fmap. split.
  - intros ([k y] & -> & Hin). apply scan_elem in Hin as (Hk & Hok & Hin); [|done].
    apply in_range_xattrs in Hin as [y' ->]; [|done|lia]. cbn [fst]. rewrite Hdrop. eauto.
  - intros [y Hy]. exists (KXattr ino x, y). split; [symmetry; apply Hdrop|].
    destruct (wf_keys _ _ _ _ (inv_wf _ Hi) _ _ Hy) as [Hok _].
    apply scan_elem; [done|]. split_and!; [done..|]. apply in_range_xattrs; [done|lia|eauto].
Qed.

Definition permitted creds ino (parent : option (u64 * bytes)) c (p : EntryPermissions) : Prop :=
  exists n, node (store c) ino n /\
    can_read p = is_ok (access creds n ACCESS_R) /\ can_write p = is_ok (access creds n ACCESS_W) /\
    can_rename p = can_delete p /\
    match parent with
    | Some (pi, _) => exists pn, node (store c) pi pn /\
        can_delete p = is_ok (access creds pn (Z.lor ACCESS_W ACCESS_X)) && is_ok (check_sticky creds pn n)
    | None => can_delete p = false
    end.

Lemma permissions_settles G creds ino parent c v :
  Inv c -> calm G c v ->
  wp (permissions creds ino parent)
    (settles G c (fun c1 c' p => permitted creds ino parent c1 p /\ store c' = store c1)
       (fun c1 e => stale_at c1 ino e \/
          exists pi name, parent = Some (pi, name) /\ (validate_name name = Err e \/ stale_at c1 pi e))) v.
Proof.
  intros Hi Hc. apply settles_of_reads; [|done..].
  loading reads_load_inode; [done|by left|]. intros n Hn.
  destruct parent as [[pi name]|]; [apply reads_assoc|].
  - loading reads_guard; [eauto 6|]. intros [] _.
    apply reads_assoc. loading reads_load_inode; [done|..].
    { intros e He. right. exists pi, name. auto. }
    intros pn Hpn. apply reads_ret. exists n. split_and!; eauto.
  - apply reads_ret. exists n. by split_and!.
Qed.

(** Free space is the hard limit less what is used, within the width. *)
Lemma statfs_settles G c v :
  Inv c -> calm G c v ->
  wp statfs
    (settles G c (fun c1 c' s =>
        let total := default NOMINAL_BYTES (ql_hard (lim_bytes (q_limits (v_quota c1)))) in
        let inodes := default NOMINAL_INODES (ql_hard (lim_inodes (q_limits (v_quota c1)))) in
        sf_total_bytes s = total /\ sf_total_inodes s = inodes /\
        sf_free_bytes s = Z.max 0 (total - Z.max 0 (counter (store c1) KQuotaBytes)) /\
        sf_free_inodes s = Z.max 0 (inodes - Z.max 0 (counter (store c1) KQuotaInodes)) /\
        sf_avail_bytes s = sf_free_bytes s /\ store c' = store c1)
       (fun _ _ => False)) v.
Proof.
  intros Hi Hc. apply settles_ends; [done|]. unfold statfs.
  eapply bind_reads; [apply (reads_live c)|by apply begun_refl|done| |done].
  intros [] v1 [<- Hq] _. apply wp_get. apply wp_ret. rewrite <- (inv_qb _ Hi), <- (inv_qi _ Hi).
  eapply ends_ok; [by split|done..|]. simpl. unfold saturating_sub. split_and!; try done; f_equal; f_equal; lia.
Qed.
End readers.
