(* ===== verification/OpsCreate.v ===== *)
(** The operations that add entries: create, mkdir, mknod, symlink, link. *)

From S2P Require Import Prelude Keys Meta Store Data Quota Locks Volume Vfs Tree Wf WfOps VfsLogic VfsInv OpsAttr OpsRead.

Section create_ops.
Context {DB : SlateDB} {AC : MokaCache u64 Inode} {NC : MokaCache (u64 * bytes) unit}
  {NCR : NameCrypto}.
Context (others : nat -> Volume -> Volume) (Hrely : rely others).
Implicit Types (c : Volume) (G : Prop).

(** ** Allocating an inode number *)

Lemma wf_mono names cs nx nx' m : wf names cs nx m -> nx <= nx' -> wf names cs nx' m.
Proof.
  intros [? ? ? Hk ? ? ? ? ?] Hle. split; try done. intros k x Hx. destruct (Hk k x Hx) as [H1 H2].
  split; [done|]. intros i Hi. specialize (H2 i Hi). lia.
Qed.

(** [c'] is [c] with the number [ino] handed out: the next one is larger, and
    the lease may have been renewed. *)
Record allocated c ino c' : Prop := {
  al_ino : ino = al_next (v_alloc c);
  al_succ : al_next (v_alloc c') = ino + 1;
  al_wf : wf (v_names c) (v_chunk_size c) ino (store c');
  al_begun : begun c c';
  al_quota : v_quota c' = v_quota c;
  al_attrs : v_attrs c' = v_attrs c;
  al_handles : v_handles c' = v_handles c
}.

Lemma same_files_mark m x : same_files m (apply_batch m [Put KNextIno x]).
Proof. intros k Hk. unfold apply_batch. simpl. by rewrite lookup_insert_ne. Qed.

Lemma allocate_next s : 0 <= al_next s < U64_MAX ->
  (allocate s).1.1 = al_next s /\ al_next (allocate s).2 = al_next s + 1.
Proof.
  intros Hs. unfold allocate. assert (as_u64 (al_next s + 1) = al_next s + 1) as E.
  { apply as_u64_small. unfold is_u64, U64_MAX in *. lia. }
  rewrite E. case_match; done.
Qed.

Lemma inv_alloc_nonneg c : Inv c -> 0 <= al_next (v_alloc c).
Proof.
  intros Hi. destruct (tr_root _ _ _ _ _ (wf_tree _ _ _ _ (inv_wf _ Hi))) as (r & Hr & _).
  destruct (wf_node_below _ _ _ _ _ _ (inv_wf _ Hi) Hr) as [? _]. unfold ROOT_INO in *. lia.
Qed.

Lemma inv_set_alloc c a : Inv c -> al_next (v_alloc c) <= al_next a -> Inv (set_alloc a c).
Proof. intros [? ? ? ? ? ?] Hle. split; try done. simpl. by eapply wf_mono. Qed.

Lemma wp_alloc G c v (Q : result (Halt FsError) u64 -> Volume -> Prop) :
  Inv c -> roomy c -> calm G c v ->
  (forall ino c' v', allocated c ino c' -> calm G c' v' -> Q (Ok ino) v') ->
  (forall h c' v', begun c c' -> calm G c' v' -> ~ G -> Q (Err h) v') ->
  wp alloc_ino Q v.
Proof.
  intros Hi [Hr _] Hc Hok Herr. pose proof (inv_alloc_nonneg c Hi) as Hnn.
  apply wp_bind. eapply wp_live; [done|..]; simpl; [|intros e HG; by eapply Herr; [apply begun_refl|..]].
  intros [<- Hq] Hd. apply wp_bind. unfold wp at 1.
  destruct (allocate_next (v_alloc v)) as [E1 E2]; [simpl in *; lia|].
  destruct (allocate (v_alloc v)) as [[ino renew] a] eqn:Ea. simpl in E1, E2. subst ino.
  set (c1 := set_alloc a (calmed v)).
  assert (Inv c1) as Hi1 by (apply inv_set_alloc; [done|simpl; lia]).
  assert (begun (calmed v) c1) as Hb1 by (by split).
  assert (calm G c1 (set_alloc a v)) as Hc1 by (split; [done|apply Hq]).
  assert (allocated (calmed v) (al_next (v_alloc v)) c1) as Hal by (split; try done; apply Hi).
  destruct renew as [e|]; [|apply wp_ret; by eapply Hok].
  apply wp_bind. eapply wp_write; [exact Hc1|done|..]; [|intros e' v' Hc' HG; by eapply Herr].
  intros v2 Hc2. apply wp_ret. eapply Hok; [|exact Hc2].
  assert (forall nx, wf (v_names c1) (v_chunk_size c1) nx (store c1) ->
            wf (v_names c1) (v_chunk_size c1) nx (store (committed [Put KNextIno (VBytes (to_be 8 e))] c1))) as Hwf.
  { intros nx Hnx. rewrite store_committed. apply wf_aside; [done|]. by constructor. }
  split; try done.
  - apply Hwf, Hi.
  - split; try done; [|rewrite store_committed; apply same_files_mark].
    apply inv_aside; [done|by constructor].
Qed.

(** ** Inserting a new node *)

Definition created p name ino child target c c' : Prop :=
  exists pn pn' enc m0,
    node (store c) p pn /\ i_kind pn = Dir /\ seal_name (v_names c) p name = Ok enc /\
    store c !! KDirent p enc = None /\ store c !! KInode ino = None /\
    dir_update pn pn' (if is_dir (i_kind child) then 1 else 0) 1 /\ same_files (store c) m0 /\
    store c' = apply_batch m0 (create_batch p enc name ino child pn' (i_next_dirent_id pn) target).

(** The quota has no room for one more reservation. *)
Definition refuses b i c : Prop := exists t, (QuotaTracker.reserve b i t (v_quota c)).1 = Err QuotaExceeded.

Lemma reserve_err_only b i t q e q' : QuotaTracker.reserve b i t q = (Err e, q') -> e = QuotaExceeded.
Proof. unfold QuotaTracker.reserve. repeat case_match; congruence. Qed.

(** The parent as [insert_new_node] rewrites it. *)
Definition grown_dir (is_subdir : bool) (ts : Timespec) (pn : Inode) : Inode :=
  let pn := touch_mtime ts (set_i_next_dirent_id (as_u64 (i_next_dirent_id pn + 1)) pn) in
  if is_subdir then set_i_nlink (as_u32 (i_nlink pn + 1)) pn else pn.

Lemma grown_dir_update c p pn sub ts :
  Inv c -> roomy c -> node (store c) p pn -> dir_update pn (grown_dir sub ts pn) (if sub then 1 else 0) 1.
Proof.
  intros Hi [_ Hr] Hp. destruct (Hr p pn Hp) as [Hnl Hnx].
  destruct (wf_widths _ _ _ _ (inv_wf _ Hi) p pn Hp) as (W1 & _ & W3). unfold grown_dir, is_u32, is_u64, U32_MAX, U64_MAX in *.
  assert (as_u64 (i_next_dirent_id pn + 1) = i_next_dirent_id pn + 1) as Ex by (apply as_u64_small; unfold is_u64; lia).
  assert (as_u32 (i_nlink pn + 1) = i_nlink pn + 1) as El by (apply as_u32_small; unfold is_u32; lia).
  destruct sub; split; simpl; rewrite ?Ex, ?El; unfold is_u32, is_u64; try done; lia.
Qed.

Lemma create_counters p enc name ino child pn' id target :
  let b := create_batch p enc name ino child pn' id target in
  Forall (counter_safe KQuotaBytes) b /\ Forall (counter_safe KQuotaInodes) b /\
  deltas KQuotaBytes b = 0 /\ deltas KQuotaInodes b = 1.
Proof.
  unfold create_batch, symlink_put, entry_puts. destruct target; simpl; rewrite i64_le_wrap; split_and!; done || forall_ops.
Qed.

Lemma create_coherent c ino child p pn' enc name id target m :
  coherent (v_names c) [] [] (v_attrs c) m -> ino <> p -> seal_name (v_names c) p name = Ok enc ->
  coherent (v_names c) [] []
    (ac_remove_negative p name (ac_insert p pn' (ac_insert ino child (v_attrs c))))
    (apply_batch m (create_batch p enc name ino child pn' id target)).
Proof.
  intros Hco Hne Hs. set (b := create_batch p enc name ino child pn' id target).
  assert (forall j, apply_batch m b !! KInode j = <[KInode p := VInode pn']> (<[KInode ino := VInode child]> m) !! KInode j) as Hn.
  { intros j. destruct (create_ops p enc name ino child pn' id target) as (_ & E & _).
    unfold b. by rewrite (apply_ops_on is_inode_key), E. }
  apply (coherent_positive _ _ _ enc); [|done]. apply coherent_insert; [|rewrite Hn; apply lookup_insert_eq].
  apply coherent_insert; [|rewrite Hn; rewrite lookup_insert_ne by congruence; apply lookup_insert_eq].
  assert (dirty_inodes b = [ino; p] /\ dirty_entries b = [(p, enc)]) as [<- <-] by (by destruct target).
  apply coherent_commit; [done|]. unfold b, create_batch, symlink_put, entry_puts. destruct target; simpl; forall_ops.
Qed.

Lemma insert_ends G c0 c ino p pn name enc child target {A} (a : A) P (E : FsError -> Prop) v :
  Inv c0 -> roomy c0 -> allocated c0 ino c -> calm G c v ->
  node (store c0) p pn -> i_kind pn = Dir -> seal_name (v_names c0) p name = Ok enc ->
  store c0 !! KDirent p enc = None -> validate_name name = Ok tt -> fresh_child (v_chunk_size c0) p child ->
  (is_Some target <-> i_kind child = Symlink) ->
  (forall c', created p name ino child target c0 c' -> P c' a) -> (refuses 0 1 c0 -> E QuotaExceeded) ->
  wp (insert_new_node p pn name ino child target ;;; st_ret a) (ends G c0 P E) v.
Proof.
  intros Hi0 Hr0 [-> A2 A3 A4 A5 A6 A7] Hc Hp Hk Hs Hent Hval Hfc Htg HP HE.
  assert (Inv c) as Hi by apply A4. pose proof (inv_tracker c Hi) as [Tb Ti].
  destruct A4 as [_ B2 B3 B4]. assert (node (store c) p pn) as Hpc by (by rewrite B4).
  unfold insert_new_node. apply wp_assoc, wp_bind. eapply wp_reserve; [done|].
  intros t r q v1 Er Hc1. destruct r as [[]|e]; simpl.
  2: { pose proof (reserve_err _ _ _ _ _ _ (inv_tracker c Hi) Er) as (-> & Eb & Ein & _).
       eapply ends_err; [by eapply begun_quota|exact Hc1|]. intros _. apply HE. exists t. by rewrite <- A5, Er. }
  destruct (reserve_ok _ _ _ _ _ Er) as (Eb & Ein & _).
  apply wp_assoc, wp_bind. eapply wp_now; [exact Hc1|]. intros ts v2 Hc2.
  apply wp_assoc, wp_bind. eapply wp_seal; [by apply validate_len|exact Hc2|]. simpl. intros enc' Hs'.
  assert (enc' = enc) as -> by congruence.
  set (pn' := grown_dir (is_dir (i_kind child)) ts pn).
  set (b := create_batch p enc name (al_next (v_alloc c0)) child pn' (i_next_dirent_id pn) target).
  pose proof (grown_dir_update c0 p pn (is_dir (i_kind child)) ts Hi0 Hr0 Hp) as Hdu. fold pn' in Hdu.
  match goal with |- wp (st_bind (st_bind (commit_or ?b' _) _) _) _ _ => change b' with b end.
  apply wp_assoc, wp_bind. eapply wp_commit_release; [exact Hc2|..].
  2: { intros e v3 Hc3 HG. pose proof (reserve_release _ _ _ _ _ (inv_tracker c Hi) Er) as Hrel. injection Hrel as R1 R2.
       eapply ends_err; [|exact Hc3|done]. apply (begun_quota c0 c); [by split|done..]. }
  intros v3 Hc3. apply wp_assoc, wp_bind. eapply wp_cache; [exact Hc3|]. intros v4 Hc4.
  apply wp_assoc, wp_bind. eapply wp_cache; [exact Hc4|]. intros v5 Hc5.
  apply wp_bind. eapply wp_cache; [exact Hc5|]. intros v6 Hc6. apply wp_ret.
  destruct (create_counters p enc name (al_next (v_alloc c0)) child pn' (i_next_dirent_id pn) target) as (S1 & S2 & S3 & S4).
  fold b in S1, S2, S3, S4. destruct (wf_node_below _ _ _ _ _ _ (inv_wf _ Hi0) Hp) as [Hpr _].
  eapply ends_ok; [exact Hc6|apply (inv_commit c b q _ (al_next (v_alloc c)) Hi); try done| | |].
  - rewrite A2, B2, B3. destruct Hr0 as [Hroom _].
    apply (wf_create (v_names c0) (v_chunk_size c0) (al_next (v_alloc c0)) (store c) p pn pn' enc name child target); try done.
    by rewrite B4.
  - by rewrite S3.
  - by rewrite S4.
  - apply (create_coherent c (al_next (v_alloc c0)) child p pn' enc name (i_next_dirent_id pn) target (store c));
      [by apply inv_coherent|lia|congruence].
  - done.
  - done.
  - apply HP. exists pn, pn', enc, (store c). split_and!; try done; [|exact (store_committed b c)].
    eapply wf_fresh; [apply Hi0|done|lia].
Qed.

(** ** The operations *)

(** Lock a directory and check the caller may change its entries. *)
Lemma settles_lock_parent G creds p {A} (f : Inode -> FsM A) P E c v :
  (G -> alone others) -> Inv c -> roomy c -> calm G c v ->
  (forall c1 v' pn, calm G c1 v' -> Inv c1 -> roomy c1 -> node (store c1) p pn -> i_kind pn = Dir ->
     access creds pn WX = Ok tt -> wp (f pn) (ends G c1 (P c1) (E c1)) v') ->
  (forall c1 e, no_dir c1 p e \/ denied_at creds c1 p WX e -> E c1 e) ->
  wp (st_bind (lock_parent others creds p) f) (settles G c P E) v.
Proof.
  intros Ha Hi Hr Hc Hf HE. apply wp_assoc. eapply settles_lock; [done..|].
  intros c1 v1 Hc1 Hi1 Hr1 _. pose proof (begun_refl c1 Hi1) as Hb. apply wp_assoc.
  reading reads_load_dir; [done| |auto]. intros pn v2 Hc2 [Hp Hk]. apply wp_assoc.
  reading reads_guard; [|intros e _ He; apply HE; right; pose proof (access_err _ _ _ _ He) as ->; split; eauto].
  intros [] v3 Hc3 Hacc. by eapply (Hf c1 v3 pn).
Qed.

(** Why a name cannot be added to a directory. *)
Definition add_fails creds p name c (e : FsError) : Prop :=
  validate_name name = Err e \/ no_dir c p e \/ denied_at creds c p WX e \/
  (e = Exists /\ is_Some (entry (v_names c) (store c) p name)) \/
  (e = QuotaExceeded /\ refuses 0 1 c /\ entry (v_names c) (store c) p name = None).

(** A new node [child_of] its parent, under a free name. *)
Definition new_node creds p name (child_of : Inode -> Timespec -> Inode) target c c' (a : FileAttr) : Prop :=
  exists pn ts ino, node (store c) p pn /\ access creds pn WX = Ok tt /\ validate_name name = Ok tt /\
    a = make_attr ino (child_of pn ts) /\ created p name ino (child_of pn ts) target c c'.

Lemma create_child_ends G creds p pn name child_of target c v :
  Inv c -> roomy c -> calm G c v -> node (store c) p pn -> i_kind pn = Dir -> access creds pn WX = Ok tt ->
  validate_name name = Ok tt -> entry_is c p name None ->
  (forall ts, fresh_child (v_chunk_size c) p (child_of pn ts) /\ (is_Some target <-> i_kind (child_of pn ts) = Symlink)) ->
  wp (child_ino <- alloc_ino ;; ts <- now ;;
      insert_new_node p pn name child_ino (child_of pn ts) target ;;; st_ret (make_attr child_ino (child_of pn ts)))
    (ends G c (new_node creds p name child_of target c) (add_fails creds p name c)) v.
Proof.
  intros Hi Hr Hc Hp Hk Hacc Hval Hno Hch. pose proof (entry_of_is _ _ _ _ Hno) as Hent. destruct Hno as (enc & Hs & He).
  apply wp_bind. eapply wp_alloc; [done..| |].
  2: { intros h c' v' Hb Hc' HG. eapply ends_err; [done..|]. by destruct h. }
  intros ino c1 v1 Hal Hc1. apply wp_bind. eapply wp_now; [exact Hc1|]. intros ts v2 Hc2.
  destruct (Hch ts) as [Hfc Htg]. eapply insert_ends; try done.
  - intros c' Hcr. exists pn, ts, ino. by split_and!.
  - intros Href. right. right. right. right. done.
Qed.

Lemma create_new_settles G creds p name child_of target c v :
  (G -> alone others) -> Inv c -> roomy c -> calm G c v -> validate_name name = Ok tt ->
  (forall cs pn ts, 0 < cs -> fresh_child cs p (child_of pn ts) /\
     (is_Some target <-> i_kind (child_of pn ts) = Symlink)) ->
  wp (create_new others creds p name child_of target)
    (settles G c (new_node creds p name child_of target) (add_fails creds p name)) v.
Proof.
  intros Ha Hi Hr Hc Hval Hch. unfold create_new. eapply settles_lock_parent; [done..| |].
  2: { intros c1 e [H|H]; unfold add_fails; auto. }
  intros c1 v1 pn Hc1 Hi1 Hr1 Hp Hk Hacc. pose proof (begun_refl c1 Hi1) as Hb.
  reading reads_dirent_of; [done|by apply validate_len| |done]. intros o v2 Hc2 Ho. destruct o as [d|]; simpl.
  - apply wp_fail. eapply ends_err; [done..|]. intros _. right. right. right. left. split; [done|].
    rewrite (entry_of_is _ _ _ _ Ho). by eexists.
  - apply create_child_ends; try done. intros ts. apply Hch, Hi1.
Qed.

Lemma mkdir_settles G creds p name mode c v :
  (G -> alone others) -> Inv c -> roomy c -> calm G c v ->
  wp (mkdir others creds p name mode)
    (settles G c (new_node creds p name (fun dir ts =>
         let '(uid, gid, mode) := new_node_ids creds dir Dir mode in
         set_i_parent_dir p (Inode_new Dir mode uid gid ts)) None) (add_fails creds p name)) v.
Proof.
  intros Ha Hi Hr Hc. unfold mkdir. reading reads_guard; [|by left]. intros [] v1 Hc1 Hval.
  apply create_new_settles; try done. intros cs pn ts Hcs. unfold new_node_ids. simpl. split; [|by split; [intros [? ?]|]].
  split; simpl; try done. unfold max_size. lia.
Qed.

Lemma mknod_settles G creds p name mode kind rdev c v :
  (G -> alone others) -> Inv c -> roomy c -> calm G c v ->
  wp (mknod others creds p name mode kind rdev)
    (settles G c (fun c1 c' a => kind <> Dir /\ kind <> Symlink /\
         ((kind = CharDev \/ kind = BlockDev) -> is_root creds = true) /\
         new_node creds p name (fun dir ts =>
           let '(uid, gid, mode) := new_node_ids creds dir kind mode in
           set_i_rdev rdev (Inode_new kind mode uid gid ts)) None c1 c' a)
       (fun c1 e => add_fails creds p name c1 e \/ (e = Invalid /\ (kind = Dir \/ kind = Symlink)) \/
          (e = NotPermitted /\ is_root creds = false /\ (kind = CharDev \/ kind = BlockDev)))) v.
Proof.
  intros Ha Hi Hr Hc. unfold mknod. reading reads_guard; [|left; by left]. intros [] v1 Hc1 Hval.
  assert (reads c (match kind with
    | Fifo | Socket | File => st_ret tt
    | CharDev | BlockDev => if negb (is_root creds) then fail NotPermitted else st_ret tt
    | Dir | Symlink => fail Invalid
    end) (fun _ => kind <> Dir /\ kind <> Symlink /\ ((kind = CharDev \/ kind = BlockDev) -> is_root creds = true))
    (fun e => (e = Invalid /\ (kind = Dir \/ kind = Symlink)) \/
              (e = NotPermitted /\ is_root creds = false /\ (kind = CharDev \/ kind = BlockDev)))) as Hk.
  { destruct kind, (is_root creds) eqn:Hroot; simpl; (apply reads_ret || apply reads_fail); naive_solver. }
  reading Hk; [|by right]. intros [] v2 Hc2 (K1 & K2 & K3).
  eapply settles_mono; [eapply create_new_settles; try done| |].
  - intros cs pn ts Hcs. unfold new_node_ids. simpl. split; [|by split; [intros [? ?]|]].
    split; simpl; try done. unfold max_size. lia.
  - intros c1 c' a _ _ _ _ H. by split_and!.
  - intros c1 e H. by left.
Qed.

Lemma symlink_settles G creds p name target c v :
  (G -> alone others) -> Inv c -> roomy c -> calm G c v ->
  wp (symlink others creds p name target)
    (settles G c (new_node creds p name (fun dir ts =>
         let '(uid, gid, _) := new_node_ids creds dir Symlink o777 in
         set_i_size (len target) (Inode_new Symlink o777 uid gid ts)) (Some target))
       (fun c1 e => add_fails creds p name c1 e \/ (e = Invalid /\ (target = [] \/ 4096 < len target)))) v.
Proof.
  intros Ha Hi Hr Hc. unfold symlink. reading reads_guard; [|left; by left]. intros [] v1 Hc1 Hval.
  destruct (bool_decide (target = []) || (4096 <? len target)) eqn:Ht.
  { apply settles_ends; [done|]. apply wp_fail. eapply ends_err; [by apply begun_refl|done|]. intros _. right.
    split; [done|]. apply orb_true_iff in Ht as [Ht%bool_decide_eq_true|Ht%Z.ltb_lt]; auto. }
  apply orb_false_iff in Ht as [_ Ht%Z.ltb_ge]. pose proof (len_nonneg target).
  eapply settles_mono; [eapply create_new_settles; try done| |].
  - intros cs pn ts Hcs. unfold new_node_ids. simpl. split; [|by split; eauto]. split; simpl; try done. unfold max_size. lia.
  - done.
  - intros c1 e He. by left.
Qed.

(** An existing file may be opened by a create that is not exclusive. *)
Definition opened_existing creds p name c c' (a : FileAttr) : Prop :=
  store c' = store c /\ exists i n, entry (v_names c) (store c) p name = Some i /\ node (store c) i n /\
    i_kind n <> Dir /\ access creds n ACCESS_W = Ok tt /\ a = make_attr i n.

Lemma create_settles G creds p name mode exclusive c v :
  (G -> alone others) -> Inv c -> roomy c -> calm G c v ->
  wp (create others creds p name mode exclusive)
    (settles G c (fun c1 c' a =>
         new_node creds p name (fun dir ts =>
           let '(uid, gid, mode) := new_node_ids creds dir File mode in Inode_new File mode uid gid ts) None c1 c' a \/
         (exclusive = false /\ opened_existing creds p name c1 c' a))
       (fun c1 e => add_fails creds p name c1 e \/
          (exists i n, exclusive = false /\ entry (v_names c1) (store c1) p name = Some i /\ node (store c1) i n /\
             ((e = IsDir /\ i_kind n = Dir) \/ (e = AccessDenied /\ access creds n ACCESS_W = Err e))))) v.
Proof.
  intros Ha Hi Hr Hc. unfold create. reading reads_guard; [|left; by left]. intros [] v1 Hc1 Hval.
  eapply settles_lock_parent; [done..| |].
  2: { intros c1 e [H|H]; left; unfold add_fails; auto. }
  intros c1 v2 pn Hc2 Hi1 Hr1 Hp Hk Hacc. pose proof (begun_refl c1 Hi1) as Hb.
  reading reads_dirent_of; [done|by apply validate_len| |done]. intros o v3 Hc3 Ho.
  pose proof (entry_of_is _ _ _ _ Ho) as Hent. destruct o as [d|]; simpl in *.
  - destruct exclusive.
    { apply wp_fail. eapply ends_err; [done..|]. intros _. left. right. right. right. left. rewrite Hent. by split; eauto. }
    reading reads_load_inode; [done| |].
    2: { intros e _ [-> Hn]. destruct Ho as (enc & _ & Hd), (inv_child _ p enc d Hi1 Hd) as [n Hn']. congruence. }
    intros n v4 Hc4 Hn. destruct (is_dir (i_kind n)) eqn:Hd.
    { apply wp_fail. eapply ends_err; [done..|]. intros _. right. apply is_dir_true in Hd. exists (d_child_ino d), n. split_and!; auto. }
    apply is_dir_false in Hd. reading reads_guard.
    + intros [] v5 Hc5 Haw. apply wp_ret. eapply ends_ok; [done..|]. right. split; [done|]. split; [done|].
      exists (d_child_ino d), n. by split_and!.
    + intros e _ He. pose proof (access_err _ _ _ _ He) as ->. right. exists (d_child_ino d), n. split_and!; auto.
  - eapply wp_mono; [apply (create_child_ends G creds p pn name (fun dir ts =>
      let '(uid, gid, mode) := new_node_ids creds dir File mode in Inode_new File mode uid gid ts) None c1); try done|].
    + intros ts. unfold new_node_ids. simpl. split; [|by split; [intros [? ?]|]]. split; simpl; try done.
      pose proof (inv_cs _ Hi1). unfold max_size. lia.
    + intros r v4 (E1 & E2 & E3 & E4 & E5). unfold ends. split_and!; try done. destruct r as [a|[e|]]; [by left| |done].
      intros HG. destruct (E5 HG). auto.
Qed.

(** ** Link *)

Definition link_batch p enc name ino n' pn' id : WriteBatch :=
  [Put (KInode ino) (VInode n')] ++ entry_puts p enc name ino (i_kind n') id ++ [Put (KInode p) (VInode pn')].

(** One more entry for an existing file. *)
Definition linked creds ino p name c c' (a : FileAttr) : Prop :=
  exists n ts pn n' pn' enc, node (store c) ino n /\ i_kind n <> Dir /\ node (store c) p pn /\ i_kind pn = Dir /\
    access creds pn WX = Ok tt /\ validate_name name = Ok tt /\ seal_name (v_names c) p name = Ok enc /\
    store c !! KDirent p enc = None /\ dir_update pn pn' 0 1 /\
    n' = set_i_ctime ts (set_i_nlink (i_nlink n + 1) n) /\ a = make_attr ino n' /\
    store c' = apply_batch (store c) (link_batch p enc name ino n' pn' (i_next_dirent_id pn)).

Lemma inv_link c ino n n' p pn pn' enc name :
  Inv c -> node (store c) p pn -> i_kind pn = Dir -> node (store c) ino n -> i_kind n <> Dir -> i_nlink n <> 0 ->
  store c !! KDirent p enc = None -> seal_name (v_names c) p name = Ok enc -> validate_name name = Ok tt ->
  file_update n n' 1 -> dir_update pn pn' 0 1 ->
  Inv (set_attrs (ac_remove_negative p name (ac_insert p pn' (ac_insert ino n' (v_attrs c))))
         (committed (link_batch p enc name ino n' pn' (i_next_dirent_id pn)) c)).
Proof.
  intros Hi Hp Hpk Hn Hnk Hnl He Hs Hval Hn' Hpn'. set (b := link_batch _ _ _ _ _ _ _).
  pose proof (inv_tracker c Hi) as [Tb Ti]. assert (ino <> p) as Hne by congruence.
  assert (forall j, apply_batch (store c) b !! KInode j =
    <[KInode p := VInode pn']> (<[KInode ino := VInode n']> (store c)) !! KInode j) as Hino.
  { intros j. by rewrite (apply_ops_on is_inode_key). }
  pose proof (inv_commit c b (v_quota c) (ac_remove_negative p name (ac_insert p pn' (ac_insert ino n' (v_attrs c))))
    (al_next (v_alloc c)) Hi) as Hinv. apply Hinv; try done; clear Hinv.
  - eapply wf_link; try done. apply Hi.
  - unfold b, link_batch, entry_puts. forall_ops.
  - unfold b, link_batch, entry_puts. forall_ops.
  - simpl. by rewrite Z.add_0_r, as_i64_small.
  - simpl. by rewrite Z.add_0_r, as_i64_small.
  - apply (coherent_positive _ _ _ enc); [|done]. apply coherent_insert; [|rewrite Hino; apply lookup_insert_eq].
    apply coherent_insert; [|rewrite Hino; rewrite lookup_insert_ne by congruence; apply lookup_insert_eq].
    apply (coherent_commit _ _ _ b); [by apply inv_coherent|]. unfold b, link_batch, entry_puts. forall_ops.
Qed.

Lemma link_settles G creds ino p name c v :
  (G -> alone others) -> Inv c -> roomy c -> calm G c v ->
  (forall n, node (store (after_wait others v)) ino n -> i_nlink n <> 0) ->
  wp (link others creds ino p name)
    (settles G c (linked creds ino p name)
       (fun c1 e => validate_name name = Err e \/ stale_at c1 ino e \/
          (e = NotPermitted /\ exists n, node (store c1) ino n /\ i_kind n = Dir) \/ no_dir c1 p e \/
          denied_at creds c1 p WX e \/ (e = Exists /\ is_Some (entry (v_names c1) (store c1) p name)))) v.
Proof.
  intros Ha Hi Hr Hc Hlive. unfold link. apply wp_bind. unfold wp at 1, guard, st_lift.
  destruct (validate_name name) as [[]|e] eqn:Hval; simpl.
  2: { exists c. split_and!; try done. eapply ends_err; [by apply begun_refl|done|]. by left. }
  eapply settles_lock_at; [done..|]. intros v1 Ev1 Hc1 Hi1 Hr1 _. set (c1 := calmed v1) in *.
  pose proof (begun_refl c1 Hi1) as Hb.
  reading reads_load_inode; [done| |auto]. intros n v2 Hc2 Hn.
  destruct (is_dir (i_kind n)) eqn:Hd.
  { apply wp_fail. eapply ends_err; [done..|]. intros _. right. right. left. apply is_dir_true in Hd. eauto. }
  apply is_dir_false in Hd. reading reads_load_dir; [done| |auto]. intros pn v3 Hc3 [Hp Hk].
  reading reads_guard; [|intros e _ He; pose proof (access_err _ _ _ _ He) as ->; right; right; right; right; left; split; eauto].
  intros [] v4 Hc4 Hacc. reading reads_dirent_of; [done|by apply validate_len| |done]. intros o v5 Hc5 Ho.
  pose proof (entry_of_is _ _ _ _ Ho) as Hent. destruct o as [d|]; simpl in *.
  { apply wp_fail. eapply ends_err; [done..|]. intros _. right. right. right. right. right. rewrite Hent. by split; eauto. }
  reading reads_now; [|done]. intros ts v6 Hc6 _.
  destruct (proj2 Hr1 ino n Hn) as [Hnl _]. destruct (wf_widths _ _ _ _ (inv_wf _ Hi1) ino n Hn) as (Hnu & _ & _).
  assert (checked_add_u32 (i_nlink n) 1 = Some (i_nlink n + 1)) as ->.
  { unfold checked_add_u32. destruct (Z.leb_spec (i_nlink n + 1) U32_MAX); [done|lia]. }
  simpl. apply wp_bind, wp_lift. simpl.
  apply wp_bind. eapply wp_seal; [by apply validate_len|exact Hc6|]. intros enc Hs.
  destruct Ho as (enc' & Hs' & He). assert (enc' = enc) as -> by congruence.
  set (n' := set_i_ctime ts (set_i_nlink (i_nlink n + 1) n)). set (pn' := grown_dir false ts pn).
  apply wp_bind. eapply wp_commit; [exact Hc6|..]; [|intros e v7 Hc7 HG; by eapply ends_err]. intros v7 Hc7.
  apply wp_bind. eapply wp_cache; [exact Hc7|]. intros v8 Hc8. apply wp_bind. eapply wp_cache; [exact Hc8|]. intros v9 Hc9.
  apply wp_bind. eapply wp_cache; [exact Hc9|]. intros v10 Hc10. apply wp_ret.
  pose proof (grown_dir_update c1 p pn false ts Hi1 Hr1 Hp) as Hdu. fold pn' in Hdu.
  assert (file_update n n' 1) as Hfu by (split; try done; simpl; unfold is_u32, U32_MAX in *; lia).
  eapply ends_ok; [exact Hc10|apply (inv_link c1 ino n n' p pn pn' enc name); try done|done..|].
  - apply Hlive. by rewrite <- Ev1.
  - exists n, ts, pn, n', pn', enc. split_and!; try done. exact (store_committed (link_batch p enc name ino n' pn' (i_next_dirent_id pn)) c1).
Qed.
End create_ops.
