(* ===== verification/Reap.v ===== *)
(** The orphan reaper ([volume.rs]): it deletes the data of an inode that is
    gone in bounded batches, keeps the records well formed at every step, and
    finishes. *)

From S2P Require Import Prelude Keys Meta Store Data Quota Locks Volume Vfs Tree Wf WfOps VfsLogic.

Section reap.
Context {DB : SlateDB} {NCR : NameCrypto}.
Implicit Types (m : gmap Key Value) (H : Prop).

(** The engine holds [m]; under [H] no fault is pending. *)
Record holds_db H m (s : Engine) : Prop := { hd_db : contents (e_db s) = m; hd_quiet : H -> e_faults s = [] }.

(** [it] lists the records of [m] between [lo] and [hi]. *)
Record scanned m lo hi (it : list (Key * Value)) : Prop := {
  sn_elem k x : (k, x) ∈ it <->
    m !! k = Some x /\ (forall l, lo = Some l -> bytes_leb l (key_bytes k) = true) /\
    (forall h, hi = Some h -> bytes_ltb (key_bytes k) h = true);
  sn_nodup : NoDup it.*1
}.

Lemma wp_h_read H m s {A} (e : EM A) P (Q : result (Halt Error) A -> Engine -> Prop) :
  steady e -> (forall s, e_faults s = [] -> contents (e_db s) = m -> exists a, e s = (Ok a, s) /\ P a) ->
  holds_db H m s ->
  (forall a s', holds_db H m s' -> P a -> Q (Ok a) s') ->
  (forall h s', holds_db H m s' -> ~ H -> Q (Err h) s') -> wp (lift_h e) Q s.
Proof.
  intros Hst Hq [Hm Hf] Hok Herr. unfold wp, lift_h, st_map_err. destruct (e s) as [r s'] eqn:E.
  destruct (steady_run e (e_db s) P s r s' Hst) as (E1 & E2 & E3 & E4); [|done..|].
  { intros s0 Hs0 Hd. apply Hq; [done|]. by rewrite Hd. }
  assert (holds_db H m s') by (split; [by rewrite E1|auto]).
  destruct r as [a|e']; simpl; [auto|]. apply Herr; [done|]. intros HH. auto.
Qed.

Lemma wp_h_scan H m s lo hi (Q : result (Halt Error) (list (Key * Value)) -> Engine -> Prop) :
  holds_db H m s ->
  (forall it s', holds_db H m s' -> scanned m lo hi it -> Q (Ok it) s') ->
  (forall h s', holds_db H m s' -> ~ H -> Q (Err h) s') -> wp (lift_h (scan lo hi)) Q s.
Proof.
  intros Hd Hok Herr. eapply wp_h_read; [apply steady_scan|..]; [|done|done|done].
  intros s0 Hs0 <-. rewrite scan_quiet by done. eexists. split; [done|].
  split; [apply db_scan_elem|apply db_scan_nodup].
Qed.

(** What a loop over an iterator computes. *)
Fixpoint iter_val {A} (f : A -> Key * Value -> A + A) (acc : A) (it : list (Key * Value)) : A :=
  match it with
  | [] => acc
  | kv :: it' => match f acc kv with inl a => a | inr a => iter_val f a it' end
  end.

Lemma iter_loop_val {A} (f : A -> Key * Value -> A + A) acc it (s : Engine) :
  e_faults s = [] -> iter_loop f acc it s = (Ok (iter_val f acc it), s).
Proof.
  intros Hs. revert acc. induction it as [|kv it IH]; intros acc; simpl; unfold st_bind; rewrite poll_quiet by done; [done|].
  destruct (f acc kv); [done|apply IH].
Qed.

Lemma wp_h_iter H m s {A} (f : A -> Key * Value -> A + A) acc it (Q : result (Halt Error) A -> Engine -> Prop) :
  holds_db H m s -> (forall s', holds_db H m s' -> Q (Ok (iter_val f acc it)) s') ->
  (forall h s', holds_db H m s' -> ~ H -> Q (Err h) s') -> wp (lift_h (iter_loop f acc it)) Q s.
Proof.
  intros Hd Hok Herr. eapply (wp_h_read _ _ _ _ (fun a => a = iter_val f acc it)); [apply steady_iter_loop|..]; [|done| |done].
  - intros s0 Hs0 _. rewrite iter_loop_val by done. eauto.
  - intros a s' Hd' ->. auto.
Qed.

Lemma wp_h_write H m s b (Q : result (Halt Error) unit -> Engine -> Prop) :
  holds_db H m s -> (forall s', holds_db H (apply_batch m b) s' -> Q (Ok tt) s') ->
  (forall h s', holds_db H m s' -> ~ H -> Q (Err h) s') -> wp (lift_h (Store.write b)) Q s.
Proof.
  intros [Hm Hf] Hok Herr. unfold wp, lift_h, st_map_err, Store.write, st_bind, poll, st_modify.
  destruct s as [db [|[e|] fl] ck lg]; simpl in *.
  - apply Hok. split; [|done]. simpl. by rewrite db_write_spec, Hm.
  - apply Herr; [|intros HH; by specialize (Hf HH)]. split; [done|]. intros HH. by specialize (Hf HH).
  - apply Hok. split; [simpl; by rewrite db_write_spec, Hm|]. intros HH. by specialize (Hf HH).
Qed.

(** ** Batches of deletes *)

Lemma reap_step_val it b n :
  0 <= n < BATCH ->
  iter_val reap_step (b, n) it =
    (b ++ (Delete <$> take (Z.to_nat (BATCH - n)) it.*1), Z.min BATCH (n + len it)).
Proof.
  revert b n. induction it as [|kv it IH]; intros b n Hn.
  - simpl. rewrite take_nil, app_nil_r, len_nil. f_equal. lia.
  - pose proof (len_nonneg it). cbn [iter_val reap_step fmap list_fmap].
    replace (Z.to_nat (BATCH - n)) with (S (Z.to_nat (BATCH - (n + 1)))) by lia. cbn [take fmap list_fmap].
    rewrite len_cons. destruct (Z.eqb_spec (n + 1) BATCH) as [E|E].
    + rewrite E, Z.sub_diag. simpl. f_equal. unfold BATCH in *. lia.
    + rewrite IH by lia. rewrite <- app_assoc. f_equal. lia.
Qed.

Lemma delete_keys_lookup m ks k :
  apply_batch m (Delete <$> ks) !! k = if decide (k ∈ ks) then None else m !! k.
Proof.
  unfold apply_batch. revert m. induction ks as [|k' ks IH]; intros m.
  - by rewrite decide_False by apply not_elem_of_nil.
  - cbn [fmap list_fmap fold_left apply_op]. rewrite IH. destruct (decide (k = k')) as [->|Hne].
    + rewrite (decide_True _ _ (list_elem_of_here k' ks)). case_decide; [done|]. apply lookup_delete_eq.
    + rewrite lookup_delete_ne by done. apply decide_ext. rewrite elem_of_cons. naive_solver.
Qed.

(** The keys of the records that hold the data of [ino]. *)
Definition data_of ino (k : Key) : Prop :=
  (exists idx, k = KChunk ino idx) \/ (exists x, k = KXattr ino x) \/ k = KSymlink ino \/ k = KOrphan ino.

(** [m'] is [m] less some data of [ino]. *)
Definition pruned ino m m' : Prop := forall k, m' !! k = m !! k \/ (m' !! k = None /\ data_of ino k).

Lemma pruned_refl ino m : pruned ino m m.
Proof. intros k. by left. Qed.

Lemma pruned_trans ino m1 m2 m3 : pruned ino m1 m2 -> pruned ino m2 m3 -> pruned ino m1 m3.
Proof. intros P1 P2 k. destruct (P2 k) as [->|?]; auto. Qed.

Lemma pruned_deletes ino m ks : Forall (data_of ino) ks -> pruned ino m (apply_batch m (Delete <$> ks)).
Proof.
  intros Hks k. rewrite delete_keys_lookup. case_decide as Hk; [|by left]. right. split; [done|].
  by apply (proj1 (Forall_forall _ ks) Hks).
Qed.

Lemma pruned_other ino m m' k : pruned ino m m' -> ~ data_of ino k -> m' !! k = m !! k.
Proof. intros Hp Hk. destruct (Hp k) as [|[_ ?]]; done. Qed.

Section wf.
Context (names : NameCodec) (cs nx ino : u64).
Context (Hino : 0 <= ino < U64_MAX).

(** The records while [ino] is being reaped. *)
Record reaping m : Prop := {
  rp_wf : wf names cs nx m;
  rp_gone : m !! KInode ino = None
}.

(** Without inode and marker there is no data left. *)
Lemma reaping_unmarked m k x :
  reaping m -> m !! KOrphan ino = None -> (exists idx, k = KChunk ino idx) \/ k = KSymlink ino -> m !! k <> Some x.
Proof.
  intros [Hwf Hg] Ho Hk Hx. assert (owned m ino) as [[n Hn]|[? ?]]; [|congruence..].
  destruct Hk as [[idx ->]| ->]; [by eapply (or_chunk _ (wf_orphans _ _ _ _ Hwf))|by eapply (or_symlink _ (wf_orphans _ _ _ _ Hwf))].
Qed.

Lemma scanned_chunks m it :
  wf names cs nx m -> scanned m (Some (keys.chunk_prefix ino)) (Some (keys.chunk_prefix (ino + 1))) it ->
  forall k, k ∈ it.*1 <-> is_Some (m !! k) /\ exists idx, k = KChunk ino idx.
Proof.
  intros Hwf [Hel _] k. rewrite list_elem_of_fmap. split.
  - intros ([k' x] & -> & (Hk & Hlo & Hhi)%Hel). destruct (wf_keys _ _ _ _ Hwf _ _ Hk) as [Hok _]. simpl.
    split; [eauto|]. apply in_range_chunks; [done..|]. unfold in_range. by rewrite (Hlo _ eq_refl), (Hhi _ eq_refl).
  - intros ([x Hx] & Hidx). exists (k, x). split; [done|]. destruct (wf_keys _ _ _ _ Hwf _ _ Hx) as [Hok _].
    apply in_range_chunks in Hidx; [|done..]. unfold in_range in Hidx. apply andb_true_iff in Hidx as [? ?].
    apply Hel. split_and!; [done|..]; by intros ? [= <-].
Qed.

Lemma reaping_deletes m ks :
  reaping m -> Forall (fun k => exists idx, k = KChunk ino idx) ks -> reaping (apply_batch m (Delete <$> ks)).
Proof.
  intros Hrp Hks. pose proof Hrp as [Hwf Hg].
  assert (forall k, (forall idx, k <> KChunk ino idx) -> apply_batch m (Delete <$> ks) !! k = m !! k) as Hsame.
  { intros k Hk. rewrite delete_keys_lookup. case_decide as Hin; [|done].
    destruct (proj1 (Forall_forall _ ks) Hks k Hin) as [idx ->]. by destruct (Hk idx). }
  split; [|by rewrite Hsame].
  eapply (wf_reap names cs nx m ino); [done..| |].
  - eapply Forall_impl; [exact Hks|]. auto.
  - rewrite Hsame by done. intros Ho k x Hk. rewrite delete_keys_lookup. case_decide; [done|].
    by apply reaping_unmarked.
Qed.

Lemma deletes_size m ks k :
  k ∈ ks -> is_Some (m !! k) -> (base.size (apply_batch m (Delete <$> ks)) < base.size m)%nat.
Proof.
  intros Hk [x Hx]. apply map_subset_size. split.
  - apply map_subseteq_spec. intros k' y. rewrite delete_keys_lookup. by case_decide.
  - intros Hsub. eapply map_subseteq_spec in Hsub; [|exact Hx]. rewrite delete_keys_lookup, decide_True in Hsub; done.
Qed.

(** What reaping leaves behind. *)
Definition reaped H m (P : gmap Key Value -> Prop) (r : result (Halt Error) unit) (s : Engine) : Prop :=
  exists m', holds_db H m' s /\ wf names cs nx m' /\ pruned ino m m' /\
    match r with Ok _ => P m' | Err _ => ~ H end.

Lemma wp_reap_chunks H fuel m s :
  reaping m -> holds_db H m s -> (H -> (base.size m < fuel)%nat) ->
  wp (reap_chunks fuel ino)
    (reaped H m (fun m' => reaping m' /\ forall idx, m' !! KChunk ino idx = None)) s.
Proof.
  revert m s. induction fuel as [|fuel IH]; intros m s Hrp Hs Hfuel.
  { apply wp_fail. exists m. split_and!; [done|apply Hrp|apply pruned_refl|]. intros HH. specialize (Hfuel HH). lia. }
  assert (forall h s', holds_db H m s' -> ~ H ->
    reaped H m (fun m' => reaping m' /\ forall idx, m' !! KChunk ino idx = None) (Err h) s') as Herr.
  { intros h s' Hs' HH. exists m. split_and!; [done|apply Hrp|apply pruned_refl|done]. }
  simpl. apply wp_bind. eapply wp_h_scan; [done| |auto]. intros it s1 Hs1 Hit.
  pose proof (scanned_chunks m it (rp_wf _ Hrp) Hit) as Hk.
  apply wp_bind. eapply wp_h_iter; [done| |auto]. intros s2 Hs2. rewrite reap_step_val by done.
  rewrite app_nil_l, Z.sub_0_r, Z.add_0_l. set (ks := take (Z.to_nat BATCH) it.*1).
  assert (Forall (fun k => exists idx, k = KChunk ino idx) ks) as Hks.
  { apply Forall_forall. intros k Hin. apply (Hk k). apply elem_of_take in Hin as (i & Hi & _). by eapply list_elem_of_lookup_2. }
  destruct (Z.eqb_spec (Z.min BATCH (len it)) 0) as [E|E].
  { apply wp_ret. exists m. split_and!; [done|apply Hrp|apply pruned_refl|done|].
    intros idx. apply eq_None_not_Some. intros [x Hx].
    assert (it = []) as -> by (apply len_0_nil; pose proof (len_nonneg it); unfold BATCH in *; lia).
    assert (KChunk ino idx ∈ @nil Key) as []%elem_of_nil by (apply (Hk (KChunk ino idx)); eauto). }
  apply wp_bind. eapply wp_h_write; [done| |auto]. intros s3 Hs3.
  pose proof (reaping_deletes m ks Hrp Hks) as Hrp'.
  assert (pruned ino m (apply_batch m (Delete <$> ks))) as Hpr.
  { apply pruned_deletes. eapply Forall_impl; [exact Hks|]. by left. }
  destruct (Z.ltb_spec (Z.min BATCH (len it)) BATCH) as [Hlt|Hge].
  - apply wp_ret. eexists. split_and!; [done|apply Hrp'|done|done|]. intros idx.
    rewrite delete_keys_lookup. case_decide as Hin; [done|]. apply eq_None_not_Some. intros Hx. apply Hin.
    unfold ks. rewrite take_ge; [apply Hk; eauto|]. rewrite length_fmap. unfold len in *. lia.
  - destruct it as [|[k0 x0] it']; [done|].
    assert (k0 ∈ ks) as Hk0 by (unfold ks; rewrite fmap_cons; change (Z.to_nat BATCH) with (S 1023); simpl; left).
    eapply wp_mono; [apply IH; [done..|]|].
    + intros HH. specialize (Hfuel HH). pose proof (deletes_size m ks k0 Hk0) as Hsz.
      destruct (proj1 (Hk k0)) as [Hx0 _]; [simpl; left|]. specialize (Hsz Hx0). lia.
    + intros r s' (m' & H1 & H2 & H3 & H4). exists m'. split_and!; try done. by eapply pruned_trans.
Qed.

Lemma scanned_xattrs m it :
  wf names cs nx m -> scanned m (Some (keys.xattr_prefix ino)) (Some (keys.xattr_prefix (ino + 1))) it ->
  forall k, k ∈ it.*1 <-> is_Some (m !! k) /\ exists x, k = KXattr ino x.
Proof.
  intros Hwf [Hel _] k. rewrite list_elem_of_fmap. split.
  - intros ([k' x] & -> & (Hk & Hlo & Hhi)%Hel). destruct (wf_keys _ _ _ _ Hwf _ _ Hk) as [Hok _]. simpl.
    split; [eauto|]. apply in_range_xattrs; [done..|]. unfold in_range. by rewrite (Hlo _ eq_refl), (Hhi _ eq_refl).
  - intros ([x Hx] & Hidx). exists (k, x). split; [done|]. destruct (wf_keys _ _ _ _ Hwf _ _ Hx) as [Hok _].
    apply in_range_xattrs in Hidx; [|done..]. unfold in_range in Hidx. apply andb_true_iff in Hidx as [? ?].
    apply Hel. split_and!; [done|..]; by intros ? [= <-].
Qed.

Lemma iter_val_deletes it b :
  iter_val (fun (b : WriteBatch) (kv : Key * Value) => inr (b ++ [Delete kv.1])) b it = b ++ (Delete <$> it.*1).
Proof.
  revert b. induction it as [|kv it IH]; intros b; simpl; [by rewrite app_nil_r|]. by rewrite IH, <- app_assoc.
Qed.

(** The reaper removes everything a gone inode left behind, and finishes when
    nothing fails. *)
Lemma wp_reap_data H fuel m s :
  reaping m -> holds_db H m s -> (H -> (base.size m < fuel)%nat) ->
  wp (reap_orphan_data fuel ino) (reaped H m (fun m' => forall k, data_of ino k -> m' !! k = None)) s.
Proof.
  intros Hrp Hs Hfuel. apply wp_bind. eapply wp_mono; [by apply wp_reap_chunks|].
  intros r s1 (m1 & Hs1 & Hwf1 & Hpr1 & Hr). destruct r as [[]|h]; [|by exists m1].
  destruct Hr as [Hrp1 Hno].
  assert (forall h s', holds_db H m1 s' -> ~ H ->
    reaped H m (fun m' => forall k, data_of ino k -> m' !! k = None) (Err h) s') as Herr by (intros; by exists m1).
  apply wp_bind. eapply wp_h_scan; [done| |auto]. intros it s2 Hs2 Hit.
  pose proof (scanned_xattrs m1 it Hwf1 Hit) as Hk.
  apply wp_bind. eapply wp_h_iter; [done| |auto]. intros s3 Hs3. rewrite iter_val_deletes, app_nil_l.
  set (ks := it.*1 ++ [KSymlink ino; KOrphan ino]).
  assert ((Delete <$> it.*1) ++ [Delete (KSymlink ino); Delete (KOrphan ino)] = Delete <$> ks) as ->.
  { unfold ks. by rewrite fmap_app. }
  assert (Forall (data_of ino) ks) as Hks.
  { apply Forall_app_2; [|unfold data_of; constructor; [auto|constructor; [auto|constructor]]]. apply Forall_forall. intros k Hin.
    right. left. by apply Hk. }
  assert (forall k, data_of ino k -> apply_batch m1 (Delete <$> ks) !! k = None) as Hall.
  { intros k Hd. rewrite delete_keys_lookup. case_decide as Hin; [done|]. apply eq_None_not_Some. intros Hx. apply Hin.
    unfold ks. rewrite elem_of_app. destruct Hd as [[idx ->]|[[x ->]|[-> | ->]]].
    - rewrite Hno in Hx. by destruct Hx.
    - left. apply Hk. eauto.
    - right. left.
    - right. right. left. }
  eapply wp_h_write; [done| |auto]. intros s4 Hs4. eexists. split_and!; [done| |by eapply pruned_trans, pruned_deletes|done].
  eapply (wf_reap names cs nx m1 ino); [done|apply Hrp1|exact Hks|].
  intros _ k x Hkk. rewrite Hall; [done|]. destruct Hkk as [[idx ->]| ->]; unfold data_of; eauto.
Qed.
End wf.
End reap.
