(* ===== verification/OpsRemove.v ===== *)
(** The operations that remove entries (unlink, rmdir) and the life of an
    inode after its last link: burial, open handles, reaping, close. *)

From S2P Require Import Prelude Keys Meta Store Data Quota Locks Volume Vfs Tree Wf WfOps VfsLogic VfsInv Reap.
From S2P Require Import OpsAttr OpsRead OpsCreate.

(** ** What a file can bill *)

Lemma msum_bound `{Countable K} {V} (f : K -> V -> Z) (B : Z) (l : list K) (m : gmap K V) :
  0 <= B -> (forall k v, m !! k = Some v -> f k v <= B) -> (forall k v, m !! k = Some v -> f k v <> 0 -> k ∈ l) ->
  msum f m <= B * len l.
Proof.
  intros HB. revert m. induction l as [|k l IH]; intros m Hf Hl.
  - rewrite (msum_zero f m); [unfold len; simpl; lia|]. intros k v Hk.
    destruct (decide (f k v = 0)) as [|Hne]; [done|]. by apply Hl, elem_of_nil in Hne.
  - pose proof (msum_delete f m k) as Hd. rewrite len_cons.
    assert (msum f (delete k m) <= B * len l) as H1.
    { apply IH; intros k' v [Hne Hk']%lookup_delete_Some; [eauto|]. intros Hf'.
      apply Hl in Hk' as [->|]%elem_of_cons; done. }
    assert (from_option (f k) 0 (m !! k) <= B) by (destruct (m !! k) eqn:E; simpl; [by eapply Hf|done]). lia.
Qed.

Lemma len_fmap_seqZ {A} (f : Z -> A) N : 0 <= N -> len (f <$> seqZ 0 N) = N.
Proof. intros HN. unfold len. rewrite length_fmap, length_seqZ. lia. Qed.

Lemma billed_bound m cs i size : 0 < cs -> chunks_fit m cs i -> 0 <= billed m cs i size <= max_size cs.
Proof.
  intros Hcs Hfit. split; [apply billed_nonneg|]. unfold max_size.
  assert (forall N, N = 2 ^ 32 -> 0 <= N -> billed m cs i size <= cs * N) as H; [|apply H; done].
  intros N HN HN0. rewrite <- (len_fmap_seqZ (KChunk i) N) by done.
  apply msum_bound; [lia|..]; intros [] v Hv; simpl; try lia; destruct (Z.eqb_spec ino i) as [->|]; try lia;
    destruct (Hfit _ _ Hv) as [[? ?] Hl].
  - unfold billed_chunk_bytes, saturating_sub in *. lia.
  - intros _. apply list_elem_of_fmap. exists idx. split; [done|]. apply elem_of_seqZ. lia.
Qed.

Section remove_ops.
Context {DB : SlateDB} {AC : MokaCache u64 Inode} {NC : MokaCache (u64 * bytes) unit}
  {NCR : NameCrypto}.
Context (others : nat -> Volume -> Volume) (Hrely : rely others) (fuel : nat).
Implicit Types (c : Volume) (G : Prop).

Lemma inv_billed c i n : Inv c -> node (store c) i n -> 0 <= i_billed_bytes n <= 2 ^ 54.
Proof.
  intros Hi Hn. destruct (inv_cs _ Hi) as [H1 H2]. destruct (wf_data _ _ _ _ (inv_wf _ Hi) i n Hn) as [_ Hf _ <-].
  pose proof (billed_bound _ (v_chunk_size c) i (i_size n) H1 Hf). unfold max_size in *. lia.
Qed.

Lemma neg_billed_eq c i n : Inv c -> node (store c) i n -> neg_billed n = - i_billed_bytes n.
Proof.
  intros Hi Hn. pose proof (inv_billed c i n Hi Hn). unfold neg_billed.
  rewrite (as_i64_small (i_billed_bytes n)) by (unfold is_i64; lia). apply as_i64_small. unfold is_i64. lia.
Qed.

(** ** Reaping on a mounted volume *)

Lemma inv_pruned c e ino :
  Inv c -> wf (v_names c) (v_chunk_size c) (al_next (v_alloc c)) (contents (e_db e)) ->
  pruned ino (store c) (contents (e_db e)) -> Inv (set_eng e c).
Proof.
  intros Hi Hwf Hp. assert (forall k, ~ data_of ino k -> store (set_eng e c) !! k = store c !! k) as Hsame.
  { intros k Hk. by apply (pruned_other ino). }
  split; simpl; try done.
  - rewrite (inv_qb _ Hi). unfold counter. by rewrite Hsame by (by intros [[? ?]|[[? ?]|[?|?]]]).
  - rewrite (inv_qi _ Hi). unfold counter. by rewrite Hsame by (by intros [[? ?]|[[? ?]|[?|?]]]).
  - intros i n Hn. rewrite Hsame by (by intros [[? ?]|[[? ?]|[?|?]]]). by apply Hi.
  - intros p name enc Hneg Hs. rewrite Hsame by (by intros [[? ?]|[[? ?]|[?|?]]]). by eapply Hi.
  - apply Hi.
Qed.

(** [c'] is [c] less some data of [ino]. *)
Record reaped_from ino c c' : Prop := {
  rf_inv : Inv c';
  rf_same : c' = set_eng (v_eng c') c;
  rf_pruned : pruned ino (store c) (store c')
}.

Lemma wp_reap_orphan G c ino v (Q : result (Halt FsError) unit -> Volume -> Prop) :
  Inv c -> 0 <= ino < U64_MAX -> store c !! KInode ino = None -> calm G c v -> (G -> (base.size (store c) < fuel)%nat) ->
  (forall c' v', calm G c' v' -> reaped_from ino c c' -> (forall k, data_of ino k -> store c' !! k = None) ->
     Q (Ok tt) v') ->
  (forall h c' v', calm G c' v' -> reaped_from ino c c' -> ~ G -> Q (Err h) v') ->
  wp (reap_orphan fuel ino) Q v.
Proof.
  intros Hi Hino Hgone [<- Hq] Hfuel Hok Herr. unfold wp, reap_orphan, core_await.
  pose proof (wp_reap_data (v_names v) (v_chunk_size v) (al_next (v_alloc v)) ino Hino G fuel (store v) (v_eng v)) as Hr.
  unfold wp in Hr. destruct (reap_orphan_data fuel ino (v_eng v)) as [r e].
  destruct Hr as (m' & [Hm' Hqf] & Hwf & Hpr & Hres).
  - split; try done. apply Hi.
  - split; [done|]. intros HG. by destruct (Hq HG).
  - done.
  - assert (reaped_from ino (calmed v) (calmed (set_eng e v))) as Hrf.
    { split; [|done|by subst m']. apply (inv_pruned (calmed v) (mkEngine (e_db e) [] [] (e_log e)) ino); simpl; subst m'; done. }
    assert (calm G (calmed (set_eng e v)) (set_eng e v)) as Hc'.
    { split; [done|]. intros HG. destruct (Hq HG). split; [by apply Hqf|done]. }
    destruct r as [[]|h]; simpl; [eapply Hok|eapply Herr]; try done. subst m'. done.
Qed.

(** ** Locking an entry *)

Lemma settles_trans G c c1 {A} (m : FsM A) P E v :
  (G -> at_rest c1 = at_rest c) -> v_names c1 = v_names c -> v_chunk_size c1 = v_chunk_size c ->
  wp m (settles G c1 P E) v -> wp m (settles G c P E) v.
Proof.
  intros Hw Hn Hcs Hm. eapply wp_mono; [exact Hm|]. intros r v' (c2 & H1 & H2 & H3 & H4 & H5).
  exists c2. split_and!; try congruence. intros HG. by rewrite (H2 HG), (Hw HG).
Qed.

(** The entry under the locks: the one the caller saw, by number and id. *)
Definition entry_locked c p name (d : Dirent) : Prop :=
  exists enc d2, seal_name (v_names c) p name = Ok enc /\ dent (store c) p enc d2 /\
    d_child_ino d2 = d_child_ino d /\ d_dirent_id d2 = d_dirent_id d.

Lemma at_rest_store c c1 : at_rest c1 = at_rest c -> store c1 = store c /\ v_names c1 = v_names c.
Proof. intros H. split; [change (store (at_rest c1) = store (at_rest c))|change (v_names (at_rest c1) = v_names (at_rest c))]; by rewrite H. Qed.

Lemma settles_lock_entry G n p name {A} (f : Dirent -> FsM A) P E c v :
  (G -> alone others) -> (G -> (0 < n)%nat) -> Inv c -> roomy c -> calm G c v -> len name <= MAX_NAME_LEN ->
  (forall c1 v' d, calm G c1 v' -> Inv c1 -> roomy c1 -> (G -> at_rest c1 = at_rest c) -> entry_locked c1 p name d ->
     wp (f d) (ends G c1 (P c1) (E c1)) v') ->
  (forall c1, entry (v_names c1) (store c1) p name = None -> E c1 NotFound) ->
  wp (st_bind (lock_entry others n p name) f) (settles G c P E) v.
Proof.
  intros Ha Hn Hi Hr Hc Hlen Hf HE. revert c v Hn Hi Hr Hc Hf. induction n as [|n IH]; intros c v Hn Hi Hr Hc Hf; simpl.
  { apply wp_bind, wp_fail. exists c. split_and!; try done. eapply ends_err; [by apply begun_refl|done|].
    intros HG. specialize (Hn HG). lia. }
  apply wp_assoc. reading reads_dirent_of; [done|done| |done]. intros o v1 Hc1 Ho.
  destruct o as [d|].
  2: { apply wp_bind, wp_fail. exists c. split_and!; try done. eapply ends_err; [by apply begun_refl|done|].
       intros _. apply HE. by rewrite (entry_of_is _ _ _ _ Ho). }
  apply wp_assoc, wp_bind. eapply wp_lock; [done..|]. intros c1 v2 Hc2 Hi1 Hr1 Hn1 Hcs1 Hw1.
  assert (G -> at_rest c1 = at_rest c) as Hrest by (intros HG; by rewrite (Hw1 HG)).
  eapply settles_trans; [exact Hrest|done..|].
  apply wp_assoc. reading reads_dirent_of; [done|done| |done]. intros o v3 Hc3 Ho2.
  destruct o as [d2|].
  2: { apply wp_bind, wp_fail. exists c1. split_and!; try done. eapply ends_err; [by apply begun_refl|done|].
       intros _. apply HE. by rewrite (entry_of_is _ _ _ _ Ho2). }
  destruct (Z.eqb_spec (d_child_ino d2) (d_child_ino d)) as [E1|E1],
    (Z.eqb_spec (d_dirent_id d2) (d_dirent_id d)) as [E2|E2]; simpl.
  1: { apply wp_bind, wp_ret. apply settles_ends; [done|]. apply Hf; try done.
       destruct Ho2 as (enc & Hs & Hd). by exists enc, d2. }
  all: apply IH; try done.
  1,3,5: intros HG; exfalso; destruct (at_rest_store _ _ (Hrest HG)) as [Es En], Ho as (enc & Hs & Hd), Ho2 as (enc2 & Hs2 & Hd2);
    rewrite En, Hs in Hs2; injection Hs2 as <-; rewrite Es in Hd2; congruence.
  all: intros c2 v4 d' Hc4 Hi2 Hr2 Hw2 Hl; apply Hf; try done; intros HG; by rewrite (Hw2 HG), (Hrest HG).
Qed.

(** ** Dropping a link *)

(** What the caller of [drop_link] must do after the commit. *)
Definition burial_todo (n : Inode) (dead : option u64) (todo : bool * i64 * i64) : Prop :=
  todo = match dead with Some _ => (true, neg_billed n, -1) | None => (false, 0, 0) end.

(** The data goes exactly with the last link of a file nobody has open. *)
Definition buried_open c i (n : Inode) (dead : option u64) : Prop :=
  is_Some dead <-> i_nlink n = 1 /\ HandleTable.is_open i (v_handles c) = false.

Lemma dec_nlink_update c i n :
  Inv c -> node (store c) i n -> i_nlink n <> 0 -> file_update n (dec_nlink n) (-1).
Proof.
  intros Hi Hn Hnl. destruct (wf_widths _ _ _ _ (inv_wf _ Hi) i n Hn) as (Hu & _ & _). unfold is_u32 in Hu.
  assert (as_u32 (i_nlink n - 1) = i_nlink n - 1) as E by (apply as_u32_small; unfold is_u32; lia).
  split; simpl; rewrite ?E; try done; unfold is_u32; lia.
Qed.

Lemma wp_drop_link G c i n ts v (Q : result (Halt FsError) (WriteBatch * (bool * i64 * i64)) -> Volume -> Prop) :
  Inv c -> node (store c) i n -> i_nlink n <> 0 -> calm G c v ->
  (forall bur todo dead buried v', calm G c v' -> burial i n bur dead buried -> burial_todo n dead todo ->
     buried_open c i n dead -> Q (Ok (bur, todo)) v') ->
  wp (drop_link i n ts) Q v.
Proof.
  intros Hi Hn Hnl Hc HQ. pose proof (dec_nlink_update c i n Hi Hn Hnl) as Hdec.
  assert (v_handles v = v_handles c) as Hh by (rewrite <- (calm_eq _ _ _ Hc); done).
  unfold drop_link. destruct (Z.eqb_spec (i_nlink (dec_nlink n)) 0) as [E|E].
  - assert (i_nlink n = 1) as Hone by (rewrite (fu_nlink _ _ _ Hdec) in E; lia).
    apply (wp_bind st_get). unfold wp at 1. cbn [st_get]. destruct (HandleTable.is_open i (v_handles v)) eqn:Ho.
    + apply wp_bind. eapply wp_now; [done|]. intros t v1 Hc1. apply wp_ret.
      eapply HQ; [done|apply bury_open; [|done]|done|]; [destruct Hdec; split; simpl; unfold is_u32 in *; done || lia|].
      rewrite Hh in Ho. split; [by intros []|intros [_ ?]; congruence].
    + apply wp_ret. eapply HQ; [done|by apply bury_gone|done|]. rewrite Hh in Ho. split; eauto.
  - assert (i_nlink n <> 1) as Hmany by (rewrite (fu_nlink _ _ _ Hdec) in E; lia).
    apply wp_ret. eapply HQ; [done|apply bury_keep|done|]; [by destruct Hdec|done|]. split; [by intros []|by intros [? _]].
Qed.

Lemma burial_counters i n bur dead buried todo :
  burial i n bur dead buried -> burial_todo n dead todo ->
  Forall (counter_safe KQuotaBytes) bur /\ Forall (counter_safe KQuotaInodes) bur /\
  deltas KQuotaBytes bur = todo.1.2 /\ deltas KQuotaInodes bur = todo.2.
Proof.
  unfold burial_todo. intros Hb ->. destruct Hb as [n' Hu|o n' Hu|o n' Hu]; unfold settle_batch;
    (split_and!; [forall_ops|forall_ops|..]); try done; unfold deltas, delta_of, encode_delta; simpl; rewrite i64_le_wrap.
  rewrite Z.add_0_l, !Z.add_0_r. unfold neg_billed. rewrite as_i64_idem. by destruct Hu as [_ _ _ -> _ _ _].
Qed.

Lemma burial_dirty i n bur dead buried :
  burial i n bur dead buried ->
  (forall j, j ∈ dirty_inodes bur -> j = i) /\ dirty_entries bur = [] /\
  Forall (fun op => match op with Merge k _ => k = KQuotaBytes \/ k = KQuotaInodes | _ => True end) bur.
Proof.
  clear. destruct 1; unfold settle_batch; (split_and!; [|done|forall_ops]); intros j; simpl; set_solver.
Qed.

(** Giving quota back always succeeds. *)
Lemma wp_free G c b i v (Q : result (Halt FsError) unit -> Volume -> Prop) :
  b <= 0 -> i <= 0 -> calm G c v ->
  (forall q v', q_bytes q = as_i64 (q_bytes (v_quota c) + b) -> q_inodes q = as_i64 (q_inodes (v_quota c) + i) ->
     calm G (set_quota q c) v' -> Q (Ok tt) v') ->
  wp (reserve b i) Q v.
Proof.
  intros Hb Hi Hc HQ. eapply wp_reserve; [done|]. intros t r q v' Er Hc'. rewrite reserve_free in Er by done.
  injection Er as <- <-. simpl. eapply HQ; [..|exact Hc']; done.
Qed.

Lemma wp_ignore_free G c b i v (Q : result (Halt FsError) unit -> Volume -> Prop) :
  b <= 0 -> i <= 0 -> calm G c v ->
  (forall q v', q_bytes q = as_i64 (q_bytes (v_quota c) + b) -> q_inodes q = as_i64 (q_inodes (v_quota c) + i) ->
     calm G (set_quota q c) v' -> Q (Ok tt) v') ->
  wp (ignore (reserve b i)) Q v.
Proof.
  intros Hb Hi Hc HQ. apply wp_bind, wp_try. eapply wp_free; [done..|]. intros q v' H1 H2 Hc'. apply wp_ret. eauto.
Qed.

Lemma todo_free c i n dead reap qb qi :
  Inv c -> node (store c) i n -> burial_todo n dead (reap, qb, qi) -> qb <= 0 /\ qi <= 0.
Proof.
  intros Hi Hn Ht. pose proof (inv_billed c i n Hi Hn). unfold burial_todo in Ht.
  rewrite (neg_billed_eq c i n Hi Hn) in Ht. destruct dead; injection Ht as -> -> ->; lia.
Qed.

(** ** Unlink *)

Definition unlink_batch p enc id pn' bur : WriteBatch :=
  entry_deletes p enc id ++ [Put (KInode p) (VInode pn')] ++ bur.

Lemma unlink_entry m p enc id pn' i n bur dead buried :
  burial i n bur dead buried -> apply_batch m (unlink_batch p enc id pn' bur) !! KDirent p enc = None.
Proof.
  intros Hb. unfold unlink_batch. rewrite !apply_batch_app, (apply_batch_frame _ bur).
  - unfold apply_batch; simpl. by rewrite lookup_insert_ne, lookup_delete_ne, lookup_delete_eq.
  - eapply Forall_impl; [by eapply burial_keys|]. intros op [E|[E|[E|E]]]; by rewrite E.
Qed.

Lemma inv_unlink c p pn pn' name enc d n bur dead buried reap qb qi q :
  Inv c -> seal_name (v_names c) p name = Ok enc -> dent (store c) p enc d -> node (store c) p pn ->
  node (store c) (d_child_ino d) n -> i_kind n <> Dir -> dir_update pn pn' 0 0 ->
  burial (d_child_ino d) n bur dead buried -> burial_todo n dead (reap, qb, qi) ->
  q_bytes q = as_i64 (q_bytes (v_quota c) + qb) -> q_inodes q = as_i64 (q_inodes (v_quota c) + qi) ->
  Inv (set_quota q (set_attrs
         (ac_insert_negative p name (ac_remove (d_child_ino d) (ac_insert p pn' (v_attrs c))))
         (committed (unlink_batch p enc (d_dirent_id d) pn' bur) c))).
Proof.
  intros Hi Hs Hd Hp Hn Hk Hpn' Hb Ht Hqb Hqi. set (b := unlink_batch _ _ _ _ _).
  destruct (burial_counters _ _ _ _ _ _ Hb Ht) as (B1 & B2 & B3 & B4).
  destruct (burial_dirty _ _ _ _ _ Hb) as (D1 & D2 & D3).
  assert (d_child_ino d <> p) as Hne by (by destruct (tree_child_ne _ _ p enc d (wf_tree _ _ _ _ (inv_wf _ Hi)) Hd)).
  assert (apply_batch (store c) b !! KInode p = Some (VInode pn')) as Hp'.
  { unfold b, unlink_batch. rewrite !apply_batch_app, (apply_batch_frame _ bur); [apply lookup_insert_eq|].
    eapply Forall_impl; [by eapply burial_keys|]. intros op [E|[E|[E|E]]]; rewrite E; congruence. }
  eapply inv_commit; [done| |done|..].
  - eapply wf_unlink; [apply Hi|done..].
  - unfold b, unlink_batch, entry_deletes. forall_ops.
  - unfold b, unlink_batch, entry_deletes. forall_ops.
  - unfold b, unlink_batch. rewrite !deltas_app, B3. simpl. rewrite Hqb. f_equal; lia.
  - unfold b, unlink_batch. rewrite !deltas_app, B4. simpl. rewrite Hqi. f_equal; lia.
  - eapply coherent_negative; [|done|by eapply unlink_entry]. apply coherent_remove, coherent_insert; [|done].
    eapply coherent_perm; [| |apply (coherent_commit _ _ _ b); [by apply inv_coherent|]].
    + unfold b, unlink_batch, entry_deletes, dirty_inodes. rewrite !omap_app. fold (dirty_inodes bur). set_solver.
    + unfold b, unlink_batch, entry_deletes, dirty_entries. rewrite !omap_app. fold (dirty_entries bur). rewrite D2. set_solver.
    + unfold b, unlink_batch, entry_deletes. forall_ops.
Qed.

Lemma apply_batch_size m b : (base.size (apply_batch m b) <= base.size m + length b)%nat.
Proof.
  unfold apply_batch. revert m. induction b as [|op b IH]; intros m; simpl; [lia|].
  specialize (IH (apply_op m op)). assert (base.size (apply_op m op) <= S (base.size m))%nat; [|lia].
  assert (forall k x, base.size (<[k := x]> m) <= S (base.size m))%nat as Hins.
  { intros k x. rewrite map_size_insert. case_match; unfold id; lia. }
  destruct op as [k x|k|k x]; simpl; [apply Hins|rewrite map_size_delete; case_match; unfold id; lia|].
  case_match; [apply Hins|lia].
Qed.

(** The entry is gone; the file lost a link, and with its last link and no
    handle its data. *)
Definition unlinked creds p name c c' : Prop :=
  exists pn pn' enc d n bur dead buried,
    node (store c) p pn /\ i_kind pn = Dir /\ access creds pn WX = Ok tt /\ validate_name name = Ok tt /\
    seal_name (v_names c) p name = Ok enc /\ dent (store c) p enc d /\ node (store c) (d_child_ino d) n /\
    i_kind n <> Dir /\ check_sticky creds pn n = Ok tt /\ dir_update pn pn' 0 0 /\
    burial (d_child_ino d) n bur dead buried /\ buried_open c (d_child_ino d) n dead /\
    let m := apply_batch (store c) (unlink_batch p enc (d_dirent_id d) pn' bur) in
    pruned (d_child_ino d) m (store c') /\
    match dead with
    | None => store c' = m
    | Some _ => forall k, data_of (d_child_ino d) k -> store c' !! k = None
    end.

Definition sticky_at creds c p i (e : FsError) : Prop :=
  e = NotPermitted /\ exists pn n, node (store c) p pn /\ node (store c) i n /\ check_sticky creds pn n = Err e.

Definition remove_fails creds p name c (e : FsError) : Prop :=
  validate_name name = Err e \/ no_dir c p e \/ denied_at creds c p WX e \/
  (e = NotFound /\ entry (v_names c) (store c) p name = None) \/
  (exists i, entry (v_names c) (store c) p name = Some i /\ sticky_at creds c p i e).

Lemma check_sticky_err creds pn n e : check_sticky creds pn n = Err e -> e = NotPermitted.
Proof. unfold check_sticky. case_match; congruence. Qed.

Lemma locked_entry c p name d : entry_locked c p name d -> entry (v_names c) (store c) p name = Some (d_child_ino d).
Proof. intros (enc & d2 & Hs & Hd & E & _). unfold entry. by rewrite Hs, Hd, E. Qed.

Lemma burial_gone m p enc id pn' i n bur dead buried :
  burial i n bur dead buried -> is_Some dead -> i <> p ->
  apply_batch m (unlink_batch p enc id pn' bur) !! KInode i = None.
Proof.
  intros Hb [j ->] Hne. inversion Hb as [|o n' Hu Hnl|o n' Hu Hnl]; subst. unfold unlink_batch, settle_batch, entry_deletes.
  rewrite (apply_ops_on is_inode_key) by done. unfold apply_batch; simpl. apply lookup_delete_eq.
Qed.

(** No interference, and fuel for every loop on a store of this size. *)
Definition undisturbed G c : Prop := (G -> alone others) /\ (G -> (base.size (store c) + 16 < fuel)%nat).

(** The parent after losing an entry. *)
Lemma shrunk_dir_update c p pn ts :
  Inv c -> node (store c) p pn -> dir_update pn (touch_mtime ts pn) 0 0.
Proof.
  intros Hi Hp. destruct (wf_widths _ _ _ _ (inv_wf _ Hi) p pn Hp) as (? & _ & ?). split; simpl; try done; lia.
Qed.

Lemma locked_nlink c p enc d n :
  Inv c -> dent (store c) p enc d -> node (store c) (d_child_ino d) n -> i_kind n <> Dir -> i_nlink n <> 0.
Proof.
  intros Hi Hd Hn Hk. rewrite (tree_ok_file _ _ _ _ (wf_tree _ _ _ _ (inv_wf _ Hi)) Hn Hk).
  pose proof (links_dent _ _ _ _ Hd). lia.
Qed.

(** The tail of an unlink: commit, caches, quota, reaping. *)
Lemma unlink_tail G c p pn ts name enc d n bur reap qb qi dead buried (P : Volume -> unit -> Prop) E v :
  Inv c -> roomy c -> (G -> (base.size (store c) + 16 < fuel)%nat) -> calm G c v ->
  seal_name (v_names c) p name = Ok enc -> dent (store c) p enc d -> node (store c) p pn ->
  node (store c) (d_child_ino d) n -> i_kind n <> Dir ->
  burial (d_child_ino d) n bur dead buried -> burial_todo n dead (reap, qb, qi) ->
  (forall c', let m := apply_batch (store c) (unlink_batch p enc (d_dirent_id d) (touch_mtime ts pn) bur) in
     pruned (d_child_ino d) m (store c') ->
     match dead with None => store c' = m | Some _ => forall k, data_of (d_child_ino d) k -> store c' !! k = None end ->
     P c' tt) ->
  wp (commit (unlink_batch p enc (d_dirent_id d) (touch_mtime ts pn) bur) ;;;
      cache (ac_insert p (touch_mtime ts pn)) ;;; cache (ac_remove (d_child_ino d)) ;;;
      cache (ac_insert_negative p name) ;;; ignore (reserve qb qi) ;;;
      if (reap : bool) then reap_orphan fuel (d_child_ino d) else st_ret tt) (ends G c P E) v.
Proof.
  intros Hi Hr Hfuel Hc Hs Hd Hp Hn Hk Hb Ht HP. set (b := unlink_batch _ _ _ _ _) in *. simpl in HP.
  pose proof (shrunk_dir_update c p pn ts Hi Hp) as Hdu.
  apply wp_bind. eapply wp_commit; [done|..]; [|intros e v1 Hc1 HG; by eapply ends_err; [apply begun_refl|..]].
  intros v1 Hc1. apply wp_bind. eapply wp_cache; [done|]. intros v2 Hc2. apply wp_bind. eapply wp_cache; [done|]. intros v3 Hc3.
  apply wp_bind. eapply wp_cache; [done|]. intros v4 Hc4. apply wp_bind.
  destruct (todo_free c _ n dead reap qb qi Hi Hn Ht) as [Hqb Hqi].
  eapply wp_ignore_free; [done..|]. intros q v5 Eb Ei Hc5.
  pose proof (inv_unlink c p pn _ name enc d n bur dead buried reap qb qi q Hi Hs Hd Hp Hn Hk Hdu Hb Ht Eb Ei) as Hi5.
  fold b in Hi5. change (set_quota q _) with
    (set_quota q (set_attrs (ac_insert_negative p name (ac_remove (d_child_ino d) (ac_insert p (touch_mtime ts pn) (v_attrs c))))
       (committed b c))) in Hc5. set (c5 := set_quota q _) in *.
  assert (store c5 = apply_batch (store c) b) as E5 by apply store_committed.
  destruct reap.
  - assert (is_Some dead) as Hdead by (destruct dead; [eauto|done]).
    destruct (tree_child_ne _ _ p enc d (wf_tree _ _ _ _ (inv_wf _ Hi)) Hd) as [Hne _].
    pose proof (burial_gone (store c) p enc (d_dirent_id d) (touch_mtime ts pn) _ n bur dead buried Hb Hdead Hne) as Hg.
    fold b in Hg. rewrite <- E5 in Hg.
    eapply (wp_reap_orphan G c5); try done.
    + pose proof (roomy_node c _ n Hi Hr Hn) as [? ?]. unfold ROOT_INO in *. lia.
    + intros HG. specialize (Hfuel HG). rewrite E5. pose proof (apply_batch_size (store c) b) as Hsz.
      assert (length b <= 7)%nat by (unfold b; destruct Hb; simpl; lia). lia.
    + intros c' v' Hc' [R1 R2 R3] Hall. eapply ends_ok; [done|done|by rewrite R2|by rewrite R2|].
      rewrite E5 in R3. apply HP; [done|]. destruct dead; [done|]. by destruct Hdead.
    + intros h c' v' Hc' [R1 R2 R3] HG. eapply ends_not; [done|done|by rewrite R2|by rewrite R2|done].
  - apply wp_ret. eapply ends_ok; [done..|]. apply HP.
    + rewrite E5. apply pruned_refl.
    + unfold burial_todo in Ht. by destruct dead.
Qed.

(** Locking an entry, then its parent and child loaded and checked. *)
Lemma settles_removal G creds p name {A} (f : Dirent -> Inode -> Inode -> FsM A) P (E : Volume -> FsError -> Prop) c v :
  undisturbed G c -> Inv c -> roomy c -> calm G c v -> validate_name name = Ok tt ->
  (forall c1 v' d pn n enc d2, calm G c1 v' -> Inv c1 -> roomy c1 -> (G -> at_rest c1 = at_rest c) ->
     seal_name (v_names c1) p name = Ok enc -> dent (store c1) p enc d2 -> d_child_ino d2 = d_child_ino d ->
     d_dirent_id d2 = d_dirent_id d -> node (store c1) p pn -> i_kind pn = Dir -> access creds pn WX = Ok tt ->
     node (store c1) (d_child_ino d) n -> wp (f d pn n) (ends G c1 (P c1) (E c1)) v') ->
  (forall c1 e, remove_fails creds p name c1 e -> E c1 e) ->
  wp (d <- lock_entry others fuel p name ;; dir <- load_dir p ;; guard (access creds dir WX) ;;;
      child <- or_else Io (load_inode (d_child_ino d)) ;; f d dir child) (settles G c P E) v.
Proof.
  intros [Ha Hfuel] Hi Hr Hc Hval Hf HE.
  eapply settles_lock_entry; [done| |done..|by apply validate_len| |].
  - intros HG. specialize (Hfuel HG). lia.
  - intros c1 v1 d Hc1 Hi1 Hr1 Hrest (enc & d2 & Hs & Hd & E1 & E2). pose proof (begun_refl c1 Hi1) as Hb.
    reading reads_load_dir; [done| |intros e _ He; apply HE; right; by left]. intros pn v2 Hc2 [Hp Hk].
    reading reads_guard; [|intros e _ He; apply HE; right; right; left; pose proof (access_err _ _ _ _ He) as ->; split; eauto].
    intros [] v3 Hc3 Hacc. reading reads_or_else; [by apply reads_load_inode| |].
    + intros n v4 Hc4 Hn. by eapply Hf.
    + intros e _ [_ [e0 [_ Hno]]]. destruct (inv_child c1 p enc d2 Hi1 Hd) as [n Hn]. congruence.
  - intros c1 He. apply HE. right. right. right. by left.
Qed.

Lemma unlink_settles G creds p name c v :
  undisturbed G c -> Inv c -> roomy c -> calm G c v ->
  wp (unlink others fuel creds p name)
    (settles G c (fun c1 c' _ => unlinked creds p name c1 c')
       (fun c1 e => remove_fails creds p name c1 e \/
          (e = IsDir /\ exists i n, entry (v_names c1) (store c1) p name = Some i /\ node (store c1) i n /\ i_kind n = Dir))) v.
Proof.
  intros Hu Hi Hr Hc. unfold unlink. reading reads_guard; [|left; by left]. intros [] v1 Hc1 Hval.
  eapply settles_removal; [done..| |by left].
  intros c1 v2 d pn n enc d2 Hc2 Hi1 Hr1 Hrest Hs Hd E1 E2 Hp Hk Hacc Hn. rewrite <- E1, <- E2 in *.
  pose proof (begun_refl c1 Hi1) as Hb. assert (entry (v_names c1) (store c1) p name = Some (d_child_ino d2)) as Hent.
  { unfold entry. by rewrite Hs, Hd. }
  destruct (is_dir (i_kind n)) eqn:Hdir.
  { apply wp_fail. eapply ends_err; [done..|]. intros _. right. split; [done|]. apply is_dir_true in Hdir. eauto. }
  apply is_dir_false in Hdir. reading reads_guard.
  2: { intros e _ He. pose proof (check_sticky_err _ _ _ _ He) as ->. left. right. right. right. right.
       exists (d_child_ino d2). split; [done|]. split; eauto. }
  intros [] v3 Hc3 Hst. apply wp_bind. eapply wp_now; [done|]. intros ts v4 Hc4.
  apply wp_bind. eapply wp_seal; [by apply validate_len|done|]. intros enc' Hs'. assert (enc' = enc) as -> by congruence.
  apply wp_bind. eapply wp_drop_link; [done|exact Hn|by eapply locked_nlink|done|].
  intros bur [[reap qb] qi] dead buried v5 Hc5 Hbur Htodo Hopen.
  eapply unlink_tail; try done.
  - intros HG. rewrite (proj1 (at_rest_store _ _ (Hrest HG))). by apply Hu.
  - intros c' m Hpr Hm. exists pn, (touch_mtime ts pn), enc, d2, n, bur, dead, buried.
    pose proof (shrunk_dir_update c1 p pn ts Hi1 Hp). by split_and!.
Qed.

(** ** Rmdir *)

Definition rmdir_batch p enc id i xs pn' : WriteBatch :=
  entry_deletes p enc id ++ [Delete (KInode i)] ++ xs ++
  [Put (KInode p) (VInode pn'); Merge KQuotaInodes (encode_delta (-1))].

Lemma rmdir_records m p enc id i xs pn' nx :
  Forall (aside nx) xs -> i <> p ->
  apply_batch m (rmdir_batch p enc id i xs pn') !! KInode p = Some (VInode pn') /\
  apply_batch m (rmdir_batch p enc id i xs pn') !! KDirent p enc = None.
Proof.
  intros Hxs Hne. destruct (aside_ops _ xs Hxs) as (X1 & X2 & _). unfold rmdir_batch, entry_deletes. split.
  - rewrite (apply_ops_on is_inode_key) by done. rewrite !ops_on_app, X2. unfold apply_batch; simpl. apply lookup_insert_eq.
  - rewrite (apply_ops_on tree_key) by done. rewrite !ops_on_app, X1. unfold apply_batch; simpl.
    by rewrite lookup_insert_ne, !lookup_delete_ne, lookup_delete_eq by done.
Qed.

Lemma inv_rmdir c p pn pn' name enc d n xs q :
  Inv c -> seal_name (v_names c) p name = Ok enc -> dent (store c) p enc d -> node (store c) p pn ->
  node (store c) (d_child_ino d) n -> i_kind n = Dir -> (forall e, store c !! KDirent (d_child_ino d) e = None) ->
  dir_update pn pn' (-1) 0 -> Forall (aside (al_next (v_alloc c))) xs ->
  q_bytes q = as_i64 (q_bytes (v_quota c) + 0) -> q_inodes q = as_i64 (q_inodes (v_quota c) + -1) ->
  Inv (set_quota q (set_attrs
         (ac_insert_negative p name (ac_remove (d_child_ino d) (ac_insert p pn' (v_attrs c))))
         (committed (rmdir_batch p enc (d_dirent_id d) (d_child_ino d) xs pn') c))).
Proof.
  intros Hi Hs Hd Hp Hn Hk Hemp Hpn' Hxs Hqb Hqi. set (b := rmdir_batch _ _ _ _ _ _).
  destruct (tree_child_ne _ _ p enc d (wf_tree _ _ _ _ (inv_wf _ Hi)) Hd) as [Hne _].
  destruct (aside_ops _ xs Hxs) as (_ & _ & _ & _ & X5 & X6 & X7 & X8).
  destruct (aside_dirty _ xs Hxs) as (D1 & D2 & D3).
  destruct (rmdir_records (store c) p enc (d_dirent_id d) (d_child_ino d) xs pn' _ Hxs Hne) as [R1 R2]. fold b in R1, R2.
  eapply inv_commit; [done| |done|..].
  - eapply wf_rmdir; [apply Hi|done..].
  - unfold b, rmdir_batch, entry_deletes. forall_ops.
  - unfold b, rmdir_batch, entry_deletes. forall_ops.
  - unfold b, rmdir_batch. rewrite !deltas_app, X7. simpl. rewrite Hqb. f_equal; lia.
  - unfold b, rmdir_batch. rewrite !deltas_app, X8. unfold deltas, delta_of, encode_delta. simpl.
    rewrite i64_le_wrap, Hqi. done.
  - eapply coherent_negative; [|done|done]. apply coherent_remove, coherent_insert; [|done].
    eapply coherent_perm; [| |apply (coherent_commit _ _ _ b); [by apply inv_coherent|]].
    + unfold b, rmdir_batch, entry_deletes, dirty_inodes. rewrite !omap_app. fold (dirty_inodes xs). rewrite D1. set_solver.
    + unfold b, rmdir_batch, entry_deletes, dirty_entries. rewrite !omap_app. fold (dirty_entries xs). rewrite D2. set_solver.
    + unfold b, rmdir_batch, entry_deletes. forall_ops.
Qed.

Definition rmdired creds p name c c' : Prop :=
  exists pn pn' enc d n xs,
    node (store c) p pn /\ i_kind pn = Dir /\ access creds pn WX = Ok tt /\ validate_name name = Ok tt /\
    seal_name (v_names c) p name = Ok enc /\ dent (store c) p enc d /\ node (store c) (d_child_ino d) n /\
    i_kind n = Dir /\ check_sticky creds pn n = Ok tt /\ (forall e, store c !! KDirent (d_child_ino d) e = None) /\
    dir_update pn pn' (-1) 0 /\
    (forall op, op ∈ xs <-> exists x, op = Delete (KXattr (d_child_ino d) x) /\
                              is_Some (store c !! KXattr (d_child_ino d) x)) /\
    store c' = apply_batch (store c) (rmdir_batch p enc (d_dirent_id d) (d_child_ino d) xs pn').

Lemma dec_dir_update c p pn enc d ts :
  Inv c -> node (store c) p pn -> i_kind pn = Dir -> dent (store c) p enc d -> 
  dir_update pn (dec_nlink (touch_mtime ts pn)) (-1) 0.
Proof.
  intros Hi Hp Hk Hd. destruct (wf_widths _ _ _ _ (inv_wf _ Hi) p pn Hp) as (Hu & _ & ?). unfold is_u32 in Hu.
  destruct (tree_ok_dir _ _ _ _ (wf_tree _ _ _ _ (inv_wf _ Hi)) Hp Hk) as [E _]. pose proof (subdirs_nonneg (store c) p).
  assert (as_u32 (i_nlink pn - 1) = i_nlink pn - 1) as E1 by (apply as_u32_small; unfold is_u32; lia).
  split; simpl; rewrite ?E1; unfold is_u32; done || lia.
Qed.

Lemma rmdir_settles G creds p name c v :
  undisturbed G c -> Inv c -> roomy c -> calm G c v ->
  wp (rmdir others fuel creds p name)
    (settles G c (fun c1 c' _ => rmdired creds p name c1 c')
       (fun c1 e => remove_fails creds p name c1 e \/
          (exists i n, entry (v_names c1) (store c1) p name = Some i /\ node (store c1) i n /\
             ((e = NotDir /\ i_kind n <> Dir) \/
              (e = NotEmpty /\ i_kind n = Dir /\ exists enc d, dent (store c1) i enc d))))) v.
Proof.
  intros Hu Hi Hr Hc. unfold rmdir. reading reads_guard; [|left; by left]. intros [] v1 Hc1 Hval.
  eapply settles_removal; [done..| |by left].
  intros c1 v2 d pn n enc d2 Hc2 Hi1 Hr1 Hrest Hs Hd E1 E2 Hp Hk Hacc Hn. rewrite <- E1, <- E2 in *.
  pose proof (begun_refl c1 Hi1) as Hb. assert (entry (v_names c1) (store c1) p name = Some (d_child_ino d2)) as Hent.
  { unfold entry. by rewrite Hs, Hd. }
  destruct (is_dir (i_kind n)) eqn:Hdir; simpl.
  2: { apply wp_fail. eapply ends_err; [done..|]. intros _. right. apply is_dir_false in Hdir. exists (d_child_ino d2), n. auto. }
  apply is_dir_true in Hdir. reading reads_guard.
  2: { intros e _ He. pose proof (check_sticky_err _ _ _ _ He) as ->. left. right. right. right. right.
       exists (d_child_ino d2). split; [done|]. split; eauto. }
  intros [] v3 Hc3 Hst. reading (reads_check_empty c1 (d_child_ino d2) n Hi1 Hr1 Hn).
  2: { intros e _ [-> He]. right. exists (d_child_ino d2), n. auto 6. }
  intros [] v4 Hc4 Hemp. apply wp_bind. eapply wp_now; [done|]. intros ts v5 Hc5.
  apply wp_bind. eapply wp_seal; [by apply validate_len|done|]. intros enc' Hs'. assert (enc' = enc) as -> by congruence.
  pose proof (reads_xattr_deletes c1 (d_child_ino d2) n Hi1 Hr1 Hn) as Hxr.
  apply wp_group. reading Hxr; [|done]. intros xs v6 Hc6 Hxs.
  assert (Forall (aside (al_next (v_alloc c1))) xs) as Hax.
  { apply Forall_forall. intros op Hop. by apply Hxs in Hop as (x & -> & _). }
  set (pn' := dec_nlink (touch_mtime ts pn)).
  pose proof (dec_dir_update c1 p pn enc d2 ts Hi1 Hp Hk Hd) as Hdu. fold pn' in Hdu.
  apply wp_bind. eapply wp_commit; [done|..]; [|intros e v7 Hc7 HG; by eapply ends_err].
  intros v7 Hc7. apply wp_bind. eapply wp_cache; [done|]. intros v8 Hc8. apply wp_bind. eapply wp_cache; [done|]. intros v9 Hc9.
  apply wp_bind. eapply wp_cache; [done|]. intros v10 Hc10.
  eapply wp_ignore_free; [done..|]. intros q v11 Eb Ei Hc11.
  eapply ends_ok; [exact Hc11|eapply (inv_rmdir c1 p pn pn' name enc d2 n xs q); try done|done..|].
  exists pn, pn', enc, d2, n, xs. split_and!; try done.
  exact (store_committed (rmdir_batch p enc (d_dirent_id d2) (d_child_ino d2) xs pn') c1).
Qed.

(** ** Closing a handle *)

Lemma inv_shut c t l : Inv c -> Inv (set_range_locks l (set_handles t c)).
Proof. intros [? ? ? ? ? ?]. by split. Qed.

(** The inode record of an orphan, with its bill, is gone. *)
Inductive settled (ino : u64) (m : gmap Key Value) : gmap Key Value -> Prop :=
  | settled_before : m !! KInode ino = None -> settled ino m m
  | settled_now n : node m ino n -> is_Some (m !! KOrphan ino) ->
      settled ino m (apply_batch m (settle_batch ino n)).

(** The orphan and everything it owned are gone. *)
Definition finished ino (m m' : gmap Key Value) : Prop :=
  exists m1, settled ino m m1 /\ pruned ino m1 m' /\ forall k, data_of ino k -> m' !! k = None.

Lemma settle_counters n i :
  Forall (counter_safe KQuotaBytes) (settle_batch i n) /\ Forall (counter_safe KQuotaInodes) (settle_batch i n) /\
  deltas KQuotaBytes (settle_batch i n) = neg_billed n /\ deltas KQuotaInodes (settle_batch i n) = -1.
Proof.
  unfold settle_batch. split_and!; [forall_ops|forall_ops|..]; unfold deltas, delta_of, encode_delta; simpl; rewrite i64_le_wrap.
  - rewrite Z.add_0_l, !Z.add_0_r. unfold neg_billed. by rewrite as_i64_idem.
  - done.
Qed.

Lemma inv_settle c i n q :
  Inv c -> node (store c) i n -> is_Some (store c !! KOrphan i) ->
  q_bytes q = as_i64 (q_bytes (v_quota c) + neg_billed n) -> q_inodes q = as_i64 (q_inodes (v_quota c) + -1) ->
  Inv (set_quota q (set_attrs (ac_remove i (v_attrs c)) (committed (settle_batch i n) c))).
Proof.
  intros Hi Hn Ho Hqb Hqi. destruct (settle_counters n i) as (S1 & S2 & S3 & S4).
  eapply inv_commit; [done| |done|done|done|by rewrite S3|by rewrite S4|].
  - apply wf_settle; [apply Hi|done..].
  - apply coherent_remove. eapply coherent_perm; [| |apply (coherent_commit _ _ _ (settle_batch i n)); [by apply inv_coherent|]].
    + unfold settle_batch, dirty_inodes. simpl. set_solver.
    + unfold settle_batch, dirty_entries. simpl. set_solver.
    + unfold settle_batch. forall_ops.
Qed.

Lemma finish_reap G c c0 ino m (P : Volume -> unit -> Prop) E v :
  Inv c -> 0 <= ino < U64_MAX -> store c !! KInode ino = None -> calm G c v ->
  (G -> (base.size (store c) < fuel)%nat) -> v_names c = v_names c0 -> v_chunk_size c = v_chunk_size c0 ->
  settled ino m (store c) -> (forall c', finished ino m (store c') -> P c' tt) ->
  wp (reap_orphan fuel ino) (ends G c0 P E) v.
Proof.
  intros Hi Hino Hgone Hc Hfuel Hn Hcs Hs HP. eapply wp_reap_orphan; [done..| |].
  - intros c' v' Hc' [R1 R2 R3] Hall. eapply ends_ok; [done|done|by rewrite R2|by rewrite R2|].
    apply HP. by exists (store c).
  - intros h c' v' Hc' [R1 R2 R3] HG. eapply ends_not; [done|done|by rewrite R2|by rewrite R2|done].
Qed.

Lemma wp_finish_orphan G c ino (P : Volume -> unit -> Prop) E v :
  Inv c -> 0 <= ino < U64_MAX -> (is_Some (store c !! KOrphan ino) \/ store c !! KInode ino = None) ->
  calm G c v -> (G -> (base.size (store c) + 16 < fuel)%nat) ->
  (forall c', finished ino (store c) (store c') -> P c' tt) ->
  wp (finish_orphan fuel ino) (ends G c P E) v.
Proof.
  intros Hi Hino Ho Hc Hfuel HP. unfold finish_orphan. pose proof (begun_refl c Hi) as Hb.
  reading reads_db_get; [|done]. intros o v1 Hc1 ->. destruct (store c !! KInode ino) as [x|] eqn:Hx.
  - destruct (inv_node c ino x Hi Hx) as [n ->]. destruct Ho as [Ho|]; [|done].
    apply wp_assoc, wp_bind, wp_lift. simpl. apply wp_assoc, wp_bind.
    eapply wp_commit; [done|..]; [|intros e v2 Hc2 HG; by eapply ends_err].
    intros v2 Hc2. apply wp_bind. pose proof (inv_billed c ino n Hi Hx) as Hbill.
    eapply wp_free; [rewrite (neg_billed_eq c ino n Hi Hx); lia|done|done|]. intros q v3 Hqb Hqi Hc3.
    apply wp_bind. eapply wp_cache; [done|]. intros v4 Hc4.
    pose proof (inv_settle c ino n q Hi Hx Ho Hqb Hqi) as Hi4.
    pose proof (store_committed (settle_batch ino n) c) as Es.
    eapply (finish_reap G (set_quota q (set_attrs (ac_remove ino (v_attrs c)) (committed (settle_batch ino n) c))));
      try done.
    + change (store (committed (settle_batch ino n) c) !! KInode ino = None). rewrite Es.
      rewrite (apply_ops_on is_inode_key) by done. unfold apply_batch. simpl. apply lookup_delete_eq.
    + intros HG. specialize (Hfuel HG). change (base.size (store (committed (settle_batch ino n) c)) < fuel)%nat.
      rewrite Es. pose proof (apply_batch_size (store c) (settle_batch ino n)). simpl in *. lia.
    + change (settled ino (store c) (store (committed (settle_batch ino n) c))). rewrite Es. by constructor.
  - apply wp_bind, wp_ret. apply wp_bind. eapply wp_cache; [done|]. intros v2 Hc2.
    eapply (finish_reap G (set_attrs (ac_remove ino (v_attrs c)) c)); try done.
    + apply inv_cache; [done|]. apply coherent_remove. eapply coherent_perm; [| |by apply inv_coherent]; set_solver.
    + intros HG. specialize (Hfuel HG). change (base.size (store c) < fuel)%nat. lia.
    + by constructor.
Qed.

(** What a close leaves: nothing changed, or the last handle of an orphan was
    closed and the orphan is finished. *)
Definition closed G (ino : u64) (last : bool) c c' : Prop :=
  (store c' = store c /\ (G -> last = false \/ store c !! KOrphan ino = None)) \/
  (last = true /\ finished ino (store c) (store c')).

Lemma close_settles G h ino mode last t c v :
  undisturbed G c -> Inv c -> roomy c -> calm G c v ->
  HandleTable.close h (v_handles c) = (Some (ino, mode, last), t) ->
  wp (close others fuel h)
    (settles G (set_range_locks (RangeLockTable.unlock_owner h (v_range_locks c)) (set_handles t c))
       (fun c1 c' _ => closed G ino last c1 c') (fun _ _ => False)) v.
Proof.
  intros [Ha Hfuel] Hi Hr Hc Ht. set (c0 := set_range_locks _ _).
  assert (Inv c0) as Hi0 by (by apply inv_shut). assert (roomy c0) as Hr0 by exact Hr.
  unfold close. apply wp_bind. unfold wp at 1. replace (v_handles v) with (v_handles c) by (by rewrite <- (calm_eq _ _ _ Hc)).
  rewrite Ht. cbv beta iota zeta. apply wp_bind. unfold wp at 1, st_modify.
  set (v0 := set_range_locks _ (set_handles t v)).
  assert (calm G c0 v0) as Hc0 by (destruct Hc as [<- Hq]; by split).
  apply wp_get. destruct (last && negb (h_dead (v_health v0))) eqn:Hlast.
  - apply andb_true_iff in Hlast as [-> _]. reading reads_db_get; [|done]. intros o v1 Hc1 ->.
    destruct (store c0 !! KOrphan ino) as [x|] eqn:Hx; simpl.
    + destruct (wf_keys _ _ _ _ (inv_wf _ Hi0) _ _ Hx) as [_ Hk]. specialize (Hk ino eq_refl). destruct Hr0 as [Hr1 _].
      eapply settles_lock_at; try done. intros v2 E2 Hc2 Hi2 Hr2 Hrest. eapply wp_finish_orphan; try done.
      * unfold ROOT_INO in Hk. lia.
      * subst v2. destruct Hc1 as [E1 _].
        apply (rely_orphan _ Hrely (v_waits v1) (set_waits (S (v_waits v1)) v1) ino).
        change (is_Some (store (calmed v1) !! KOrphan ino)). rewrite E1, Hx. eauto.
      * intros HG. destruct (at_rest_store _ _ (Hrest HG)) as [-> _]. by apply Hfuel.
      * intros c' Hf. by right.
    + apply wp_ret. exists c0. split_and!; try done. eapply ends_ok; try done. left. split; [done|]. intros _. by right.
  - apply wp_ret. exists c0. split_and!; try done. eapply ends_ok; try done. left. split; [done|].
    intros HG. left. destruct last; [|done]. cbn [andb] in Hlast. destruct (calm_quiet _ _ _ Hc0 HG) as [_ Hd].
    rewrite Hd in Hlast. done.
Qed.

Lemma close_unknown h v :
  HandleTable.get h (v_handles v) = None -> close others fuel h v = (Err (Raise BadHandle), v).
Proof.
  unfold HandleTable.get. intros Hh. unfold close, st_bind, HandleTable.close. rewrite Hh. by destruct v.
Qed.
End remove_ops.
