(* ===== verification/OpsRename.v ===== *)
(** Rename: locking both entries, the ancestor check, replacing a target, and
    the single batch that moves the entry. *)

From S2P Require Import Prelude Keys Meta Store Data Quota Locks Volume Vfs Tree Wf WfOps VfsLogic VfsInv Reap.
From S2P Require Import OpsAttr OpsRead OpsCreate OpsRemove.

(** ** The chain of parents *)

(** The directories from [i] up to the root. *)
Inductive chain (m : gmap Key Value) : u64 -> list u64 -> Prop :=
  | chain_root n : node m ROOT_INO n -> i_kind n = Dir -> chain m ROOT_INO [ROOT_INO]
  | chain_up i n l : node m i n -> i_kind n = Dir -> i <> ROOT_INO -> chain m (i_parent_dir n) l ->
      chain m i (i :: l).

Lemma chain_suffix m i j l : chain m i l -> j ∈ l -> NoDup l -> exists l', chain m j l' /\ NoDup l'.
Proof.
  intros Hc Hj Hl. induction Hc as [n Hn Hk|i n l Hn Hk Hi Hc IH].
  - apply list_elem_of_singleton in Hj as ->. exists [ROOT_INO]. split; [by econstructor|done].
  - apply elem_of_cons in Hj as [->|Hj].
    + exists (i :: l). split; [by econstructor|done].
    + apply IH; [done|]. by apply NoDup_cons in Hl as [_ ?].
Qed.

(** Every directory has a chain without repetition. *)
Lemma reaches_chain m i : reaches m i -> exists l, chain m i l /\ NoDup l.
Proof.
  induction 1 as [n Hn Hk|i n Hn Hk _ (l & Hc & Hl)].
  - exists [ROOT_INO]. split; [by econstructor|apply NoDup_singleton].
  - destruct (decide (i = ROOT_INO)) as [->|Hi].
    { exists [ROOT_INO]. split; [by econstructor|apply NoDup_singleton]. }
    destruct (decide (i ∈ l)) as [Hin|Hout]; [by eapply chain_suffix|].
    exists (i :: l). split; [by econstructor|]. by constructor.
Qed.

Lemma chain_elem m i j l : chain m i l -> j ∈ l -> is_Some (m !! KInode j).
Proof.
  induction 1 as [n Hn Hk|i n l Hn Hk Hi Hc IH]; intros Hj.
  - apply list_elem_of_singleton in Hj as ->. rewrite Hn. eauto.
  - apply elem_of_cons in Hj as [->|Hj]; [rewrite Hn; eauto|auto].
Qed.

(** It is no longer than there are records. *)
Lemma chain_length m i l : chain m i l -> NoDup l -> (length l <= base.size m)%nat.
Proof.
  intros Hc Hl. rewrite <- (length_fmap KInode l), <- size_dom.
  rewrite <- (size_list_to_set (C := gset Key) (KInode <$> l)).
  - apply subseteq_size. intros k. rewrite elem_of_list_to_set, list_elem_of_fmap. intros (j & -> & Hj).
    apply elem_of_dom. by eapply chain_elem.
  - apply NoDup_fmap_2; [|done]. by intros x y [= ->].
Qed.

Lemma avoids_chain m x i l : avoids m x i -> chain m i l -> x ∉ l.
Proof.
  intros Hav. revert l. induction Hav as [n Hn Hk Hx|i n Hn Hk Hi _ IH]; intros l Hl.
  - inversion Hl; subst; [|done]. by intros ->%list_elem_of_singleton.
  - inversion Hl as [n' Hn' Hk'|i' n' l' Hn' Hk' Hi' Hc']; subst; [by intros ->%list_elem_of_singleton|].
    assert (n' = n) as -> by congruence. apply not_elem_of_cons. auto.
Qed.

(** Operations on different keys may be reordered. *)
Lemma apply_batch_perm b b' m :
  NoDup (op_key <$> b) -> b ≡ₚ b' -> apply_batch m b = apply_batch m b'.
Proof.
  unfold apply_batch. intros Hn Hp. revert m. induction Hp as [|op l l' Hp IH|o1 o2 l|l1 l2 l3 H1 IH1 H2 IH2]; intros m; simpl.
  - done.
  - apply IH. by apply NoDup_cons in Hn as [_ ?].
  - rewrite apply_op_comm; [done|]. simpl in Hn. rewrite !NoDup_cons in Hn. set_solver.
  - rewrite IH1 by done. apply IH2. by rewrite <- H1.
Qed.

(** A put hides what was there before the batch. *)
Lemma apply_batch_put_any m m' b k x : Put k x ∈ b -> apply_batch m b !! k = apply_batch m' b !! k.
Proof.
  unfold apply_batch. revert m m'. induction b as [|op b IH]; intros m m' Hin; [by apply elem_of_nil in Hin|].
  apply elem_of_cons in Hin as [<-|Hin]; simpl; [|by apply IH].
  apply apply_batch_local. simpl. by rewrite !lookup_insert_eq.
Qed.

Section rename_ops.
Context {DB : SlateDB} {AC : MokaCache u64 Inode} {NC : MokaCache (u64 * bytes) unit}
  {NCR : NameCrypto}.
Context (others : nat -> Volume -> Volume) (Hrely : rely others) (fuel : nat).
Implicit Types (c : Volume) (G : Prop).

Lemma wp_ancestors G c x n i l v (Q : result (Halt FsError) unit -> Volume -> Prop) :
  Inv c -> chain (store c) i l -> (G -> (length l <= n)%nat) -> calm G c v ->
  (forall v', calm G c v' -> avoids (store c) x i -> Q (Ok tt) v') ->
  (forall h v', calm G c v' ->
     match h with Raise e => G -> e = Invalid /\ x ∈ l | OutOfFuel => ~ G end -> Q (Err h) v') ->
  wp (ancestor_check n i x) Q v.
Proof.
  intros Hi Hl. revert n v Q. induction Hl as [r Hr Hk|i r l Hr Hk Hroot Hl IH]; intros n v Q Hn Hc Hok Herr;
    (destruct n as [|n]; cbn [ancestor_check]; [apply wp_fail, Herr; [done|]; intros HG; specialize (Hn HG); simpl in Hn; lia|]).
  - destruct (Z.eqb_spec ROOT_INO x) as [<-|Hx].
    + apply wp_fail, Herr; [done|]. intros _. split; [done|]. by left.
    + rewrite Z.eqb_refl. apply wp_ret. apply Hok; [done|]. by econstructor.
  - destruct (Z.eqb_spec i x) as [<-|Hx].
    { apply wp_fail, Herr; [done|]. intros _. split; [done|]. by left. }
    rewrite (proj2 (Z.eqb_neq i ROOT_INO)) by done. apply wp_bind.
    eapply (wp_reads c); [apply reads_or_else; by apply reads_load_inode|done|..].
    + intros n' v' Hc' Hn'. assert (n' = r) as -> by congruence. apply IH; [|done|..].
      * intros HG. specialize (Hn HG). simpl in Hn. lia.
      * intros v'' Hc'' Hav. apply Hok; [done|]. by econstructor.
      * intros h v'' Hc'' Hh. apply Herr; [done|]. destruct h; [|done]. intros HG. destruct (Hh HG).
        split; [done|]. by right.
    + intros h v' Hc' Hh. apply Herr; [done|]. destruct h; [|done]. intros HG. destruct (Hh HG) as [_ (e0 & _ & Hno)]. congruence.
Qed.

(** ** Locking both entries *)

(** The locked part looks at an entry's inode and id only. *)
Lemma rename_locked_keys creds op oname np nname src dst src2 dst2 :
  dirent_key <$> src2 = Some (dirent_key src) -> dirent_key <$> dst2 = dirent_key <$> dst ->
  exists s, src2 = Some s /\
  rename_locked fuel creds op oname np nname src dst = rename_locked fuel creds op oname np nname s dst2.
Proof.
  destruct src2 as [s|]; [|done]. intros [= E1 E2] Hd. exists s. split; [done|].
  unfold rename_locked, rename_load, replace_target, rename_cache. rewrite E1, E2.
  destruct dst2 as [d2|], dst as [d|]; try done. injection Hd as E3 E4. rewrite E3, E4. done.
Qed.

Lemma entry_is_det c c1 p name o o1 :
  at_rest c1 = at_rest c -> entry_is c p name o -> entry_is c1 p name o1 -> o1 = o.
Proof.
  intros Hr (e & S & D) (e1 & S1 & D1). destruct (at_rest_store _ _ Hr) as [Es En]. rewrite Es in D1. rewrite En, S in S1.
  injection S1 as <-. destruct o, o1; congruence.
Qed.

Lemma settles_lock_rename G n creds op oname np nname P E c v :
  (G -> alone others) -> (G -> (0 < n)%nat) -> Inv c -> roomy c -> calm G c v ->
  len oname <= MAX_NAME_LEN -> len nname <= MAX_NAME_LEN ->
  (forall c1 v' src dst, calm G c1 v' -> Inv c1 -> roomy c1 -> (G -> at_rest c1 = at_rest c) ->
     entry_is c1 op oname (Some src) -> entry_is c1 np nname dst ->
     wp (rename_locked fuel creds op oname np nname src dst) (ends G c1 (P c1) (E c1)) v') ->
  (forall c1, entry (v_names c1) (store c1) op oname = None -> E c1 NotFound) ->
  wp (let* (src, dst) := lock_rename others n op oname np nname in
      rename_locked fuel creds op oname np nname src dst) (settles G c P E) v.
Proof.
  intros Ha Hn Hi Hr Hc Hlo Hln Hf HE. revert c v Hn Hi Hr Hc Hf.
  induction n as [|n IH]; intros c v Hn Hi Hr Hc Hf; cbn [lock_rename].
  { apply wp_bind, wp_fail. exists c. split_and!; try done. eapply ends_err; [by apply begun_refl|done|].
    intros HG. specialize (Hn HG). lia. }
  apply wp_assoc. reading reads_dirent_of; [done|done| |done]. intros o v1 Hc1 Ho.
  destruct o as [src|].
  2: { apply wp_bind, wp_fail. exists c. split_and!; try done. eapply ends_err; [by apply begun_refl|done|].
       intros _. apply HE. by rewrite (entry_of_is _ _ _ _ Ho). }
  apply wp_assoc. reading reads_dirent_of; [done|done| |done]. intros dst v2 Hc2 Hd.
  apply wp_assoc, wp_bind. eapply wp_lock; [done..|]. intros c1 v3 Hc3 Hi1 Hr1 Hn1 Hcs1 Hw1.
  assert (G -> at_rest c1 = at_rest c) as Hrest by (intros HG; by rewrite (Hw1 HG)).
  eapply settles_trans; [exact Hrest|done..|].
  apply wp_assoc. reading reads_dirent_of; [done|done| |done]. intros src2 v4 Hc4 Hs2.
  apply wp_assoc. reading reads_dirent_of; [done|done| |done]. intros dst2 v5 Hc5 Hd2.
  destruct (bool_decide (dirent_key <$> src2 = Some (dirent_key src))) eqn:Es,
    (bool_decide (dirent_key <$> dst2 = dirent_key <$> dst)) eqn:Ed; cbn [negb orb].
  1: { apply bool_decide_eq_true in Es, Ed. apply wp_bind, wp_ret. apply settles_ends; [done|].
       destruct (rename_locked_keys creds op oname np nname src dst src2 dst2 Es Ed) as (s & -> & ->). by apply Hf. }
  all: apply IH; try done.
  1,3,5: intros HG; exfalso; rewrite (entry_is_det _ _ _ _ _ _ (Hrest HG) Ho Hs2), (entry_is_det _ _ _ _ _ _ (Hrest HG) Hd Hd2) in *;
    rewrite bool_decide_eq_true_2 in Es by done; rewrite bool_decide_eq_true_2 in Ed by done; done.
  all: intros c2 v6 s' d' Hc6 Hi2 Hr2 Hw2 Hl Hl2; apply Hf; try done; intros HG; by rewrite (Hw2 HG), (Hrest HG).
Qed.

(** ** Checks and parents *)

(** Why a rename is refused. *)
Inductive rename_error creds op oname np nname c : FsError -> Prop :=
  | ren_name name e : name = oname \/ name = nname -> validate_name name = Err e ->
      rename_error creds op oname np nname c e
  | ren_parent p e : p = op \/ p = np -> no_dir c p e \/ denied_at creds c p WX e ->
      rename_error creds op oname np nname c e
  | ren_absent : entry (v_names c) (store c) op oname = None -> rename_error creds op oname np nname c NotFound
  | ren_sticky p name i e : (p, name) = (op, oname) \/ (p, name) = (np, nname) ->
      entry (v_names c) (store c) p name = Some i -> sticky_at creds c p i e ->
      rename_error creds op oname np nname c e
  | ren_dotdot i e : entry (v_names c) (store c) op oname = Some i -> denied_at creds c i ACCESS_W e ->
      rename_error creds op oname np nname c e
  | ren_cycle i n : entry (v_names c) (store c) op oname = Some i -> node (store c) i n -> i_kind n = Dir ->
      ~ avoids (store c) i np -> rename_error creds op oname np nname c Invalid
  | ren_target i n t r e : entry (v_names c) (store c) op oname = Some i -> node (store c) i n ->
      entry (v_names c) (store c) np nname = Some t -> node (store c) t r ->
      (i_kind n = Dir /\ i_kind r <> Dir /\ e = NotDir) \/ (i_kind n <> Dir /\ i_kind r = Dir /\ e = IsDir) \/
      (i_kind r = Dir /\ (exists enc d, dent (store c) t enc d) /\ e = NotEmpty) ->
      rename_error creds op oname np nname c e.

(** The directories and the moved inode, checked. *)
Record rename_ready creds op np i c (on nn mv : Inode) : Prop := {
  rr_old : node (store c) op on;
  rr_old_dir : i_kind on = Dir;
  rr_old_wx : access creds on WX = Ok tt;
  rr_new : node (store c) np nn;
  rr_new_dir : i_kind nn = Dir;
  rr_new_wx : access creds nn WX = Ok tt;
  rr_moved : node (store c) i mv;
  rr_sticky : check_sticky creds on mv = Ok tt;
  rr_dotdot : i_kind mv = Dir -> op <> np -> access creds mv ACCESS_W = Ok tt;
  rr_avoids : i_kind mv = Dir -> op <> np -> avoids (store c) i np
}.

Lemma bind_rename_load G creds op oname np nname src {A} (f : Inode * Inode * Inode -> FsM A) P c v :
  Inv c -> (G -> (base.size (store c) < fuel)%nat) -> calm G c v -> entry_is c op oname (Some src) ->
  (forall on nn mv v', calm G c v' -> rename_ready creds op np (d_child_ino src) c on nn mv ->
     wp (f (on, nn, mv)) (ends G c P (rename_error creds op oname np nname c)) v') ->
  wp (st_bind (rename_load fuel creds op np src) f) (ends G c P (rename_error creds op oname np nname c)) v.
Proof.
  intros Hi Hfuel Hc Hsrc Hf. pose proof (begun_refl c Hi) as Hb.
  pose proof (entry_of_is _ _ _ _ Hsrc : _ = Some (d_child_ino src)) as Hent.
  destruct Hsrc as (enc & Hs & Hd). destruct (inv_child c op enc src Hi Hd) as [mv Hmv].
  unfold rename_load. apply wp_assoc. reading reads_load_dir; [done| |].
  2: { intros e _ He. apply (ren_parent _ _ _ _ _ _ op); auto. }
  intros on v1 Hc1 [Hon Hok]. apply wp_assoc. reading reads_guard.
  2: { intros e _ He. apply (ren_parent _ _ _ _ _ _ op); [auto|]. right. by eapply denied_of. }
  intros [] v2 Hc2 Hox.
  assert (reads c (if op =? np then st_ret on else d <- load_dir np ;; guard (access creds d WX) ;;; st_ret d)
    (fun nn => node (store c) np nn /\ i_kind nn = Dir /\ access creds nn WX = Ok tt)
    (fun e => no_dir c np e \/ denied_at creds c np WX e)) as Hnew.
  { destruct (Z.eqb_spec op np) as [<-|Hne]; [by apply reads_ret|].
    loading reads_load_dir; [done|by left|]. intros nn [H1 H2].
    loading reads_guard; [intros e He; right; by eapply denied_of|]. intros [] H3. by apply reads_ret. }
  apply wp_assoc. reading Hnew; [|intros e _ He; apply (ren_parent _ _ _ _ _ _ np); auto].
  intros nn v3 Hc3 (Hnn & Hnk & Hnx). apply wp_assoc. reading reads_or_else; [by apply reads_load_inode| |].
  2: { intros e _ [_ (e0 & _ & Hno)]. congruence. }
  intros mv' v4 Hc4 Hmv'. assert (mv' = mv) as -> by congruence. apply wp_assoc. reading reads_guard.
  2: { intros e _ He. pose proof (check_sticky_err _ _ _ _ He) as ->.
       apply (ren_sticky _ _ _ _ _ _ op oname (d_child_ino src)); [auto|done|]. split; eauto. }
  intros [] v5 Hc5 Hst. destruct (is_dir (i_kind mv) && negb (op =? np)) eqn:Hm; cbn [st_when].
  - apply andb_true_iff in Hm as [Hk Hne]. apply is_dir_true in Hk. apply negb_true_iff, Z.eqb_neq in Hne.
    apply wp_assoc. reading reads_guard.
    2: { intros e _ He. eapply ren_dotdot; [done|]. by eapply denied_of. }
    intros [] v6 Hc6 Hw. apply wp_assoc, wp_bind.
    destruct (reaches_chain (store c) np) as (l & Hl & Hnd).
    { by eapply (tr_reach _ _ _ _ _ (wf_tree _ _ _ _ (inv_wf _ Hi))). }
    eapply wp_ancestors; [done|exact Hl| |done|..].
    + intros HG. specialize (Hfuel HG). pose proof (chain_length _ _ _ Hl Hnd). lia.
    + intros v7 Hc7 Hav. apply wp_bind, wp_ret. apply Hf; [done|]. by split.
    + intros h v7 Hc7 Hh. eapply ends_err; [done..|]. destruct h as [e|]; [|done]. intros HG.
      destruct (Hh HG) as [-> Hin]. eapply ren_cycle; [done..|]. intros Hav. by eapply avoids_chain.
  - apply wp_assoc, wp_bind, wp_ret. apply wp_assoc, wp_bind, wp_ret. apply wp_bind, wp_ret. apply Hf; [done|].
    assert (i_kind mv = Dir -> op <> np -> False) as Hno.
    { intros Hk Hne. apply is_dir_true in Hk. apply Z.eqb_neq in Hne. by rewrite Hk, Hne in Hm. }
    split; try done; intros Hk Hne; destruct (Hno Hk Hne).
Qed.

(** ** Replacing a target *)

(** What replacing the target does: its batch, the new parent after it, the
    inode to reap and the quota to give back. *)
Inductive replacement creds np nname c (nn mv : Inode) :
    option Dirent -> WriteBatch -> Inode -> option u64 * i64 * i64 -> Prop :=
  | repl_none : replacement creds np nname c nn mv None [] nn (None, 0, 0)
  | repl_dir d enc t :
      seal_name (v_names c) np nname = Ok enc -> dent (store c) np enc d -> node (store c) (d_child_ino d) t ->
      check_sticky creds nn t = Ok tt -> i_kind mv = Dir -> i_kind t = Dir ->
      (forall e, store c !! KDirent (d_child_ino d) e = None) ->
      replacement creds np nname c nn mv (Some d)
        ([Delete (KInode (d_child_ino d)); Merge KQuotaInodes (encode_delta (-1))] ++
         entry_deletes np enc (d_dirent_id d)) (dec_nlink nn) (None, 0, -1)
  | repl_file d enc t bur dead buried reap qb qi :
      seal_name (v_names c) np nname = Ok enc -> dent (store c) np enc d -> node (store c) (d_child_ino d) t ->
      check_sticky creds nn t = Ok tt -> i_kind mv <> Dir -> i_kind t <> Dir ->
      burial (d_child_ino d) t bur dead buried -> burial_todo t dead (reap, qb, qi) ->
      buried_open c (d_child_ino d) t dead ->
      replacement creds np nname c nn mv (Some d) (bur ++ entry_deletes np enc (d_dirent_id d)) nn
        (if (reap : bool) then Some (d_child_ino d) else None, qb, qi).

Lemma bind_replace_target G creds op oname np nname src ts on nn mv dstd {A}
    (f : WriteBatch * Inode * (option u64 * i64 * i64) -> FsM A) P c v :
  Inv c -> roomy c -> calm G c v -> len nname <= MAX_NAME_LEN ->
  entry_is c op oname (Some src) -> entry_is c np nname (Some dstd) ->
  rename_ready creds op np (d_child_ino src) c on nn mv ->
  (forall b nn1 todo v', calm G c v' -> replacement creds np nname c nn mv (Some dstd) b nn1 todo ->
     wp (f (b, nn1, todo)) (ends G c P (rename_error creds op oname np nname c)) v') ->
  wp (st_bind (replace_target creds ts mv np nn nname dstd) f) (ends G c P (rename_error creds op oname np nname c)) v.
Proof.
  intros Hi Hr Hc Hlen Hsrc Hdst [? ? ? Hnn ? ? Hmv ? ? ?] Hf. pose proof (begun_refl c Hi) as Hb.
  pose proof (entry_of_is _ _ _ _ Hsrc : _ = Some (d_child_ino src)) as He.
  pose proof (entry_of_is _ _ _ _ Hdst : _ = Some (d_child_ino dstd)) as He'.
  destruct Hdst as (enc & Hs & Hd). destruct (inv_child c np enc dstd Hi Hd) as [t Ht].
  unfold replace_target. apply wp_assoc. reading reads_or_else; [by apply reads_load_inode| |].
  2: { intros e _ [_ (e0 & _ & Hno)]. congruence. }
  intros t' v1 Hc1 Ht'. assert (t' = t) as -> by congruence. apply wp_assoc. reading reads_guard.
  2: { intros e _ Herr. pose proof (check_sticky_err _ _ _ _ Herr) as ->.
       apply (ren_sticky _ _ _ _ _ _ np nname (d_child_ino dstd)); [auto|done|]. split; eauto. }
  intros [] v2 Hc2 Hst. apply wp_assoc.
  destruct (is_dir (i_kind mv)) eqn:Hm, (is_dir (i_kind t)) eqn:Htk;
    first [apply is_dir_true in Hm|apply is_dir_false in Hm]; first [apply is_dir_true in Htk|apply is_dir_false in Htk].
  - apply wp_assoc. reading (reads_check_empty c (d_child_ino dstd) t Hi Hr Ht).
    2: { intros e _ [-> Hne]. eapply ren_target; [done..|]. auto. }
    intros [] v3 Hc3 Hemp. apply wp_bind, wp_ret. apply wp_assoc, wp_bind. eapply wp_seal; [done..|].
    intros enc' Hs'. assert (enc' = enc) as -> by congruence. apply wp_bind, wp_ret. apply Hf; [done|]. by econstructor.
  - apply wp_bind, wp_fail. eapply ends_err; [done..|]. intros _. eapply ren_target; [done..|]. auto.
  - apply wp_bind, wp_fail. eapply ends_err; [done..|]. intros _. eapply ren_target; [done..|]. auto.
  - apply wp_assoc, wp_bind. eapply wp_drop_link; [done|exact Ht|by eapply locked_nlink|done|].
    intros bur [[reap qb] qi] dead buried v3 Hc3 Hbur Htodo Hopen. apply wp_bind, wp_ret. apply wp_assoc, wp_bind.
    eapply wp_seal; [done..|]. intros enc' Hs'. assert (enc' = enc) as -> by congruence. apply wp_bind, wp_ret.
    apply Hf; [done|]. by econstructor.
Qed.

(** The records a replacement may touch besides the new parent's. *)
Definition replaced_key np enc (dst : option Dirent) (k : Key) : Prop :=
  match dst with
  | None => False
  | Some d => k = KInode (d_child_ino d) \/ k = KOrphan (d_child_ino d) \/ k = KQuotaBytes \/ k = KQuotaInodes \/
              k = KDirent np enc \/ k = KDirentIdx np (d_dirent_id d)
  end.

Lemma replacement_keys creds np nname enc c nn mv dst b nn1 todo :
  replacement creds np nname c nn mv dst b nn1 todo -> seal_name (v_names c) np nname = Ok enc ->
  Forall (fun op => replaced_key np enc dst (op_key op)) b.
Proof.
  intros Hr Hs. destruct Hr as [|d enc' t Hs' _ _ _ _ _ _|d enc' t bur dead buried reap qb qi Hs' _ _ _ _ _ Hb _]; [done|..];
    assert (enc' = enc) as -> by congruence; unfold replaced_key.
  - unfold entry_deletes. forall_ops; simpl; auto 8.
  - apply Forall_app. split; [|unfold entry_deletes; forall_ops; simpl; auto 8].
    eapply Forall_impl; [by eapply burial_keys|]. naive_solver.
Qed.

Lemma replacement_counters creds np nname c nn mv dst b nn1 reap qb qi :
  replacement creds np nname c nn mv dst b nn1 (reap, qb, qi) ->
  Forall (counter_safe KQuotaBytes) b /\ Forall (counter_safe KQuotaInodes) b /\
  deltas KQuotaBytes b = qb /\ deltas KQuotaInodes b = qi /\ dirty_entries b = [] /\
  Forall (fun op => match op with Merge k _ => k = KQuotaBytes \/ k = KQuotaInodes | _ => True end) b.
Proof.
  inversion 1 as [|d enc t|d enc t bur dead buried reap' qb' qi' ? ? ? ? ? ? Hb Ht]; subst; [done|..].
  - unfold entry_deletes. split_and!; [forall_ops|forall_ops|done| |done|forall_ops].
    unfold deltas, delta_of, encode_delta. simpl. by rewrite i64_le_wrap.
  - destruct (burial_counters _ _ _ _ _ _ Hb Ht) as (B1 & B2 & B3 & B4), (burial_dirty _ _ _ _ _ Hb) as (_ & D2 & D3).
    unfold entry_deletes. rewrite !deltas_app, B3, B4. unfold dirty_entries. rewrite omap_app. fold (dirty_entries bur).
    rewrite D2. split_and!; [forall_ops|forall_ops|simpl; lia|simpl; lia|done|forall_ops].
Qed.

(** ** The store with the target replaced *)

(** The store after the replacement, with the new parent as it then is. *)
Definition replaced_store c b np nn1 : gmap Key Value :=
  apply_batch (store c) (b ++ [Put (KInode np) (VInode nn1)]).

Lemma dec_nlink_dir c p pn :
  Inv c -> node (store c) p pn -> i_kind pn = Dir -> dir_update pn (dec_nlink pn) (-1) 0.
Proof.
  intros Hi Hp Hk. destruct (wf_widths _ _ _ _ (inv_wf _ Hi) p pn Hp) as (Hu & _ & ?). unfold is_u32 in Hu.
  destruct (tree_ok_dir _ _ _ _ (wf_tree _ _ _ _ (inv_wf _ Hi)) Hp Hk) as [E _]. pose proof (subdirs_nonneg (store c) p).
  assert (as_u32 (i_nlink pn - 1) = i_nlink pn - 1) as E1 by (apply as_u32_small; unfold is_u32; lia).
  split; simpl; rewrite ?E1; unfold is_u32; done || lia.
Qed.

Lemma dir_update_refl c p pn : Inv c -> node (store c) p pn -> dir_update pn pn 0 0.
Proof. intros Hi Hp. destruct (wf_widths _ _ _ _ (inv_wf _ Hi) p pn Hp) as (? & _ & ?). split; try done; try lia. by destruct pn. Qed.

(** How the new parent stands after the replacement. *)
Lemma replacement_parent creds np nname c nn mv dst b nn1 todo :
  Inv c -> node (store c) np nn -> i_kind nn = Dir -> replacement creds np nname c nn mv dst b nn1 todo ->
  exists dl, -1 <= dl <= 0 /\ dir_update nn nn1 dl 0.
Proof.
  intros Hi Hn Hk Hr. destruct Hr.
  - exists 0. split; [lia|]. by eapply dir_update_refl.
  - exists (-1). split; [lia|]. by eapply dec_nlink_dir.
  - exists 0. split; [lia|]. by eapply dir_update_refl.
Qed.

(** It has one link less when a directory was replaced. *)
Lemma replacement_links creds np nname c nn mv dst b nn1 todo :
  Inv c -> node (store c) np nn -> i_kind nn = Dir -> replacement creds np nname c nn mv dst b nn1 todo ->
  dir_update nn nn1 (- (if dst then if is_dir (i_kind mv) then 1 else 0 else 0)) 0.
Proof.
  intros Hi Hn Hk Hr. destruct Hr as [|d enc t ? ? ? ? Hm|d enc t ? ? ? ? ? ? ? ? ? ? Hm].
  - by eapply dir_update_refl.
  - rewrite (proj2 (is_dir_true _) Hm). by eapply dec_nlink_dir.
  - rewrite (proj2 (is_dir_false _) Hm). by eapply dir_update_refl.
Qed.

Lemma wf_replaced creds np nname c nn mv dst b nn1 todo :
  Inv c -> node (store c) np nn -> i_kind nn = Dir -> replacement creds np nname c nn mv dst b nn1 todo ->
  wf (v_names c) (v_chunk_size c) (al_next (v_alloc c)) (replaced_store c b np nn1).
Proof.
  intros Hi Hn Hk Hr. unfold replaced_store.
  destruct Hr as [|d enc t Hs Hd Ht _ _ Htk Hemp|d enc t bur dead buried reap qb qi Hs Hd Ht _ _ Htk Hb _].
  - apply (wf_touch _ _ _ _ np nn nn []); [apply Hi|done|by split|done].
  - destruct (tree_child_ne _ _ np enc d (wf_tree _ _ _ _ (inv_wf _ Hi)) Hd) as [Hne _].
    pose proof (wf_rmdir _ _ _ (store c) np nn (dec_nlink nn) enc d t [] (inv_wf _ Hi) Hd Hn Ht Htk Hemp
      (dec_nlink_dir c np nn Hi Hn Hk) ltac:(done)) as Hwf.
    erewrite apply_batch_perm; [exact Hwf| |].
    + simpl. rewrite !NoDup_cons, !not_elem_of_cons.
      split_and!; first [congruence|apply not_elem_of_nil|apply NoDup_nil_2].
    + simpl. solve_Permutation.
  - destruct (tree_child_ne _ _ np enc d (wf_tree _ _ _ _ (inv_wf _ Hi)) Hd) as [Hne _].
    pose proof (wf_unlink _ _ _ (store c) np nn nn enc d t bur dead buried (inv_wf _ Hi) Hd Hn Ht Htk
      (dir_update_refl c np nn Hi Hn) Hb) as Hwf.
    rewrite <- app_assoc, apply_batch_swap; [rewrite app_assoc in Hwf; exact Hwf|].
    intros op1 op2 H1 H2. pose proof (proj1 (Forall_forall _ _) (burial_keys _ _ _ _ _ Hb) op1 H1) as H3.
    unfold entry_deletes in H2. simpl in H2.
    repeat (apply elem_of_cons in H2 as [->|H2]); try by (destruct H3 as [->|[->|[->| ->]]]; simpl; congruence).
    by apply elem_of_nil in H2.
Qed.

Lemma replaced_parent c b np nn1 : node (replaced_store c b np nn1) np nn1.
Proof. unfold replaced_store. rewrite apply_batch_app. apply lookup_insert_eq. Qed.

(** The batch of the move hides the intermediate record of the new parent. *)
Lemma replaced_compose c b np nn1 mb x :
  Put (KInode np) x ∈ mb -> apply_batch (store c) (b ++ mb) = apply_batch (replaced_store c b np nn1) mb.
Proof.
  intros Hin. unfold replaced_store. rewrite !apply_batch_app. apply map_eq. intros k.
  destruct (decide (k = KInode np)) as [->|Hk]; [by eapply apply_batch_put_any|].
  apply apply_batch_local. unfold apply_batch at 2. simpl. by rewrite lookup_insert_ne.
Qed.

Lemma avoids_prune m m' x (t : option u64) i :
  (forall j r, node m j r -> i_kind r = Dir -> Some j <> t ->
     Some (i_parent_dir r) <> t /\
     exists r', node m' j r' /\ i_kind r' = Dir /\ i_parent_dir r' = i_parent_dir r) ->
  avoids m x i -> Some i <> t -> avoids m' x i.
Proof.
  intros H. induction 1 as [n Hn Hk Hx|i n Hn Hk Hx _ IH]; intros Ht;
    destruct (H _ _ Hn Hk Ht) as (Hp & n' & Hn' & Hk' & Ep).
  - by eapply avoid_root.
  - eapply avoid_up; [done..|]. rewrite Ep. auto.
Qed.

(** Everything a move needs of the store it is applied to. *)
Record moveable (m : gmap Key Value) op senc src np enc (on nn1 mv : Inode) : Prop := {
  mo_entry : dent m op senc src;
  mo_old : op <> np -> node m op on;
  mo_new : node m np nn1;
  mo_moved : node m (d_child_ino src) mv;
  mo_free : m !! KDirent np enc = None;
  mo_ne : d_child_ino src <> np;
  mo_avoids : i_kind mv = Dir -> op <> np -> avoids m (d_child_ino src) np
}.

Section replaced.
Context (creds : Credentials) (op np : u64) (nname : bytes) (c : Volume) (src : Dirent) (dst : option Dirent)
  (on nn mv : Inode) (b : WriteBatch) (nn1 : Inode) (todo : option u64 * i64 * i64) (senc enc : bytes).
Context (Hi : Inv c) (Hd : dent (store c) op senc src) (Hs' : seal_name (v_names c) np nname = Ok enc).
Context (Hdst : entry_is c np nname dst) (Hne : forall d, dst = Some d -> d_child_ino d <> d_child_ino src).
Context (Hr : rename_ready creds op np (d_child_ino src) c on nn mv).
Context (Hrep : replacement creds np nname c nn mv dst b nn1 todo).
#[local] Abbreviation m := (replaced_store c b np nn1).

Lemma rename_distinct : d_child_ino src <> np.
Proof.
  intros E. destruct (tree_child_ne _ _ op senc src (wf_tree _ _ _ _ (inv_wf _ Hi)) Hd) as [Hn _].
  destruct (decide (i_kind mv = Dir)) as [Hk|Hk].
  - destruct (decide (op = np)) as [->|Hop]; [done|].
    by apply (avoids_ne _ _ _ (rr_avoids _ _ _ _ _ _ _ _ Hr Hk Hop)).
  - apply Hk. destruct Hr as [_ _ _ Hnn Hnk _ Hmv _ _ _]. rewrite E in Hmv. congruence.
Qed.

Lemma replaced_same k : k <> KInode np -> ~ replaced_key np enc dst k -> m !! k = store c !! k.
Proof.
  intros H1 H2. apply apply_batch_frame, Forall_app. split; [|forall_ops; congruence].
  eapply Forall_impl; [by eapply replacement_keys|]. intros op' Hk <-. done.
Qed.

Lemma replaced_dst : match dst with Some d => dent (store c) np enc d | None => store c !! KDirent np enc = None end.
Proof. destruct Hdst as (e & He & Hd'). rewrite He in Hs'. by injection Hs' as <-. Qed.

(** Source and destination are different entries. *)
Lemma replaced_place : (op, senc) <> (np, enc).
Proof.
  intros [= -> ->]. pose proof replaced_dst as H. destruct dst as [d|]; [|congruence]. apply (Hne d); [done|]. congruence.
Qed.

Lemma replaced_free : m !! KDirent np enc = None.
Proof.
  pose proof replaced_dst as Hd'. unfold replaced_store.
  destruct Hrep as [|d e t Hse|d e t bur dead buried reap qb qi Hse ? ? ? ? ? Hb _]; rewrite ?Hs' in *.
  - rewrite apply_batch_frame; [done|forall_ops].
  - injection Hse as <-. unfold apply_batch, entry_deletes. simpl. rewrite lookup_insert_ne by done.
    rewrite lookup_delete_ne by done. apply lookup_delete_eq.
  - injection Hse as <-. rewrite !apply_batch_app. unfold apply_batch at 1 2, entry_deletes. simpl.
    rewrite lookup_insert_ne by done. rewrite lookup_delete_ne by done. apply lookup_delete_eq.
Qed.

(** No directory lies below a replaced one. *)
Lemma replaced_childless j r :
  i_kind mv = Dir -> node (store c) j r -> i_kind r = Dir -> Some (i_parent_dir r) <> d_child_ino <$> dst.
Proof.
  intros Hk Hj Hkj E. pose proof replaced_dst as Hd'. destruct dst as [d|]; [|done]. injection E as E.
  assert (forall e, store c !! KDirent (d_child_ino d) e = None) as Hemp by (by inversion Hrep).
  destruct (tree_child_ne _ _ np enc d (wf_tree _ _ _ _ (inv_wf _ Hi)) Hd') as [_ Hroot].
  destruct (decide (j = ROOT_INO)) as [->|Hjr].
  { destruct (tr_root _ _ _ _ _ (wf_tree _ _ _ _ (inv_wf _ Hi))) as (r0 & Hr0 & _ & Ep). congruence. }
  destruct (tree_parent_entry _ _ _ _ _ _ _ (wf_tree _ _ _ _ (inv_wf _ Hi)) Hj Hkj Hjr ltac:(done)) as (e & d' & Hd2 & _).
  rewrite E, Hemp in Hd2. done.
Qed.

Lemma replaced_avoids : i_kind mv = Dir -> op <> np -> avoids m (d_child_ino src) np.
Proof.
  intros Hk Hop. pose proof replaced_dst as Hd'. pose proof Hr as [Hon Hok _ Hnn Hnk _ Hmv _ _ Hav].
  apply (avoids_prune (store c) m _ (d_child_ino <$> dst)); [|by apply Hav|].
  - intros j r Hj Hkj Hjt. split; [by eapply replaced_childless|]. destruct (decide (j = np)) as [->|Hjn].
    + destruct (replacement_parent _ _ _ _ _ _ _ _ _ _ Hi Hnn Hnk Hrep) as (dl & _ & [U1 U2 _ _ _ _ _ _]).
      exists nn1. assert (r = nn) as -> by congruence. split_and!; [apply replaced_parent|congruence..].
    + exists r. split_and!; [|done..]. rewrite replaced_same; [done|congruence|].
      destruct dst as [d|]; simpl; [|tauto]. assert (j <> d_child_ino d) by (by intros ->; apply Hjt). naive_solver.
  - destruct dst as [d|]; [|done]. intros [= E].
    destruct (tree_child_ne _ _ np enc d (wf_tree _ _ _ _ (inv_wf _ Hi)) Hd') as [Hnp _]. done.
Qed.

Lemma replaced_moveable : moveable m op senc src np enc on nn1 mv.
Proof.
  pose proof Hr as [Hon Hok _ Hnn Hnk _ Hmv _ _ _]. pose proof replaced_place as Hpl. pose proof rename_distinct as Hinp.
  split; [..|apply replaced_free|done|apply replaced_avoids].
  - rewrite replaced_same; [done..|]. destruct dst; simpl; [|tauto]. naive_solver.
  - intros Hop. rewrite replaced_same; [done|congruence|]. destruct Hrep as [|d e t ? ? ? ? ? ? Hemp|d e t]; simpl; [tauto|..].
    + intros [[= E]|[?|[?|[?|[?|?]]]]]; try done. rewrite <- E in Hemp. congruence.
    + intros [[= E]|[?|[?|[?|[?|?]]]]]; try done. congruence.
  - apply replaced_parent.
  - rewrite replaced_same; [done|congruence|]. destruct dst as [d|]; simpl; [|tauto]. specialize (Hne d eq_refl). naive_solver.
Qed.
End replaced.

(** ** The batch *)

(** The move proper. *)
Definition move_batch op senc (src : Dirent) np enc nname (nn1 mv' : Inode) puts : WriteBatch :=
  entry_deletes op senc (d_dirent_id src) ++
  entry_puts np enc nname (d_child_ino src) (i_kind mv') (i_next_dirent_id nn1) ++ puts.

Lemma rename_old_update c p pn ts (sub : bool) :
  Inv c -> node (store c) p pn -> i_kind pn = Dir ->
  dir_update pn (touch_mtime ts (if sub then dec_nlink pn else pn)) (- (if sub then 1 else 0)) 0.
Proof.
  intros Hi Hp Hk. destruct sub.
  - destruct (dec_nlink_dir c p pn Hi Hp Hk). by split.
  - destruct (dir_update_refl c p pn Hi Hp). by split.
Qed.

Lemma rename_new_update c p pn pn1 dl ts (sub : bool) :
  Inv c -> roomy c -> node (store c) p pn -> -1 <= dl <= 0 -> dir_update pn pn1 dl 0 ->
  dir_update pn1 (touch_mtime ts (if sub then set_i_nlink (as_u32 (i_nlink pn1 + 1))
      (set_i_next_dirent_id (as_u64 (i_next_dirent_id pn1 + 1)) pn1)
    else set_i_next_dirent_id (as_u64 (i_next_dirent_id pn1 + 1)) pn1)) (if sub then 1 else 0) 1.
Proof.
  intros Hi [_ Hr] Hp Hdl [U1 U2 U3 U4 U5 U6 U7 U8 _ _]. destruct (Hr p pn Hp) as [R1 R2].
  unfold U32_MAX, U64_MAX in *. unfold is_u32, is_u64 in U7, U8.
  assert (as_u64 (i_next_dirent_id pn1 + 1) = i_next_dirent_id pn1 + 1) as E1 by (apply as_u64_small; unfold is_u64; lia).
  assert (as_u32 (i_nlink pn1 + 1) = i_nlink pn1 + 1) as E2 by (apply as_u32_small; unfold is_u32; lia).
  destruct sub; split; simpl; rewrite ?E1, ?E2; unfold is_u32, is_u64; try done; lia.
Qed.

(** What a rename commits. *)
Record rename_writes op np i (on nn1 mv on' nn2 mv' : Inode) (puts : WriteBatch) : Prop := {
  rw_moved : moved_update mv mv' (if is_dir (i_kind mv) && negb (op =? np) then np else i_parent_dir mv);
  rw_old : op <> np -> dir_update on on' (- (if is_dir (i_kind mv) then 1 else 0)) 0;
  rw_new : dir_update nn1 nn2 (if is_dir (i_kind mv) && negb (op =? np) then 1 else 0) 1;
  rw_puts : puts = [Put (KInode i) (VInode mv')] ++ (if op =? np then [] else [Put (KInode op) (VInode on')]) ++
                   [Put (KInode np) (VInode nn2)]
}.

Lemma rename_inodes_writes creds np nname c op i ts on nn mv dst b nn1 todo on' nn2 mv' puts :
  Inv c -> roomy c -> rename_ready creds op np i c on nn mv ->
  replacement creds np nname c nn mv dst b nn1 todo ->
  rename_inodes op np i ts on nn1 mv = (on', nn2, mv', puts) ->
  rename_writes op np i on nn1 mv on' nn2 mv' puts.
Proof.
  intros Hi Hr [Hon Hok _ Hnn Hnk _ _ _ _ _] Hrep. unfold rename_inodes. intros [= <- <- <- <-].
  destruct (replacement_parent _ _ _ _ _ _ _ _ _ _ Hi Hnn Hnk Hrep) as (dl & Hdl & Hup). split; [| | |done].
  - by destruct (is_dir _ && _).
  - intros Hne. rewrite (proj2 (Z.eqb_neq op np)) by done. cbn [negb]. rewrite andb_true_r.
    by eapply rename_old_update.
  - by eapply rename_new_update.
Qed.

Lemma wf_moved names cs nx m op senc src np enc nname on nn1 mv on' nn2 mv' puts :
  wf names cs nx m -> moveable m op senc src np enc on nn1 mv -> i_kind nn1 = Dir ->
  seal_name names np nname = Ok enc -> validate_name nname = Ok tt ->
  rename_writes op np (d_child_ino src) on nn1 mv on' nn2 mv' puts ->
  wf names cs nx (apply_batch m (move_batch op senc src np enc nname nn1 mv' puts)).
Proof.
  intros Hwf [Hd Hold Hnew Hmv Hfree Hne Hav] Hnk Hs Hval [Wm Wo Wn ->]. unfold move_batch.
  destruct (Z.eqb_spec op np) as [->|Hop]; cbn [negb] in Wm, Wn.
  - rewrite andb_false_r in Wm, Wn. by eapply wf_move_same.
  - rewrite andb_true_r in Wm, Wn. eapply wf_move_cross; try done; auto.
Qed.

Lemma move_records m op senc src np enc nname on nn1 mv on' nn2 mv' puts :
  (op, senc) <> (np, enc) -> d_child_ino src <> np -> d_child_ino src <> op ->
  rename_writes op np (d_child_ino src) on nn1 mv on' nn2 mv' puts ->
  let m' := apply_batch m (move_batch op senc src np enc nname nn1 mv' puts) in
  node m' (d_child_ino src) mv' /\ (op <> np -> node m' op on') /\ node m' np nn2 /\
  m' !! KDirent op senc = None /\
  (forall j, j <> d_child_ino src -> j <> op -> j <> np -> m' !! KInode j = m !! KInode j).
Proof.
  intros Hpl H1 H2 [_ _ _ ->] m'.
  assert (forall j, m' !! KInode j = apply_batch m ([Put (KInode (d_child_ino src)) (VInode mv')] ++
    (if op =? np then [] else [Put (KInode op) (VInode on')]) ++ [Put (KInode np) (VInode nn2)]) !! KInode j) as E.
  { intros j. unfold m', move_batch, entry_deletes, entry_puts. rewrite (apply_ops_on is_inode_key) by done.
    by destruct (op =? np). }
  rewrite !E. unfold apply_batch. split_and!.
  - destruct (op =? np); simpl; rewrite !lookup_insert_ne by congruence; apply lookup_insert_eq.
  - intros Hop. rewrite (proj2 (Z.eqb_neq op np)) by done. simpl. rewrite lookup_insert_ne by congruence. apply lookup_insert_eq.
  - destruct (op =? np); simpl; apply lookup_insert_eq.
  - unfold m', move_batch, entry_deletes, entry_puts.
    rewrite (apply_ops_on (fun k => match k with KDirent _ _ => true | _ => false end)) by done.
    destruct (op =? np); unfold apply_batch; simpl; rewrite lookup_insert_ne by congruence; apply lookup_delete_eq.
  - intros j J1 J2 J3. rewrite E. unfold apply_batch. destruct (op =? np); simpl; rewrite !lookup_insert_ne by congruence; done.
Qed.

Lemma move_counters op senc src np enc nname nn1 on mv on' nn2 mv' puts :
  rename_writes op np (d_child_ino src) on nn1 mv on' nn2 mv' puts ->
  let b := move_batch op senc src np enc nname nn1 mv' puts in
  Forall (counter_safe KQuotaBytes) b /\ Forall (counter_safe KQuotaInodes) b /\
  deltas KQuotaBytes b = 0 /\ deltas KQuotaInodes b = 0 /\
  dirty_inodes b = [d_child_ino src] ++ (if op =? np then [] else [op]) ++ [np] /\ dirty_entries b = [(np, enc)] /\
  Forall (fun op => match op with Merge k _ => k = KQuotaBytes \/ k = KQuotaInodes | _ => True end) b.
Proof.
  intros [_ _ _ ->] b. unfold b, move_batch, entry_deletes, entry_puts.
  destruct (op =? np); (split_and!; [forall_ops|forall_ops|done|done|done|done|forall_ops]).
Qed.

(** The attribute cache as the code leaves it. *)
Definition renamed_attrs op oname np nname i (dst : option Dirent) (on' nn2 mv' : Inode) (a : AttrCache) : AttrCache :=
  let a := ac_insert i mv' a in
  let a := if op =? np then a else ac_insert op on' a in
  let a := ac_insert np nn2 a in
  let a := match dst with Some d => ac_remove (d_child_ino d) a | None => a end in
  ac_remove_negative np nname (ac_insert_negative op oname a).

Lemma wp_rename_cache G c op oname np nname i dst on' nn2 mv' v (Q : result (Halt FsError) unit -> Volume -> Prop) :
  calm G c v ->
  (forall v', calm G (set_attrs (renamed_attrs op oname np nname i dst on' nn2 mv' (v_attrs c)) c) v' -> Q (Ok tt) v') ->
  wp (rename_cache op oname np nname i dst on' nn2 mv') Q v.
Proof.
  intros Hc HQ. unfold rename_cache, renamed_attrs in *. apply wp_bind. eapply wp_cache; [done|]. intros v1 Hc1.
  destruct (op =? np); cbn [negb st_when]; apply wp_bind; [apply wp_ret|eapply wp_cache; [done|]; intros v2 Hc2];
    apply wp_bind; (eapply wp_cache; [done|]; intros v3 Hc3); apply wp_bind;
    (destruct dst; [eapply wp_cache; [done|]; intros v4 Hc4|apply wp_ret]);
    apply wp_bind; (eapply wp_cache; [done|]; intros v5 Hc5); eapply wp_cache; done.
Qed.

(** ** The operation *)

(** A rename that moves [src]: the checks it passed and the batch it wrote. *)
Record moving creds op oname np nname c (src : Dirent) (dst : option Dirent) (on nn mv : Inode)
    (b : WriteBatch) (nn1 : Inode) (todo : option u64 * i64 * i64) (senc enc : bytes)
    (on' nn2 mv' : Inode) (puts : WriteBatch) : Prop := {
  mg_src_enc : seal_name (v_names c) op oname = Ok senc;
  mg_src : dent (store c) op senc src;
  mg_dst_enc : seal_name (v_names c) np nname = Ok enc;
  mg_dst : entry_is c np nname dst;
  mg_ne d : dst = Some d -> d_child_ino d <> d_child_ino src;
  mg_name : validate_name nname = Ok tt;
  mg_ready : rename_ready creds op np (d_child_ino src) c on nn mv;
  mg_replaced : replacement creds np nname c nn mv dst b nn1 todo;
  mg_writes : rename_writes op np (d_child_ino src) on nn1 mv on' nn2 mv' puts
}.

Section moving.
Context (creds : Credentials) (op np : u64) (oname nname : bytes) (c : Volume) (src : Dirent) (dst : option Dirent)
  (on nn mv : Inode) (b : WriteBatch) (nn1 : Inode) (todo : option u64 * i64 * i64) (senc enc : bytes)
  (on' nn2 mv' : Inode) (puts : WriteBatch).
Context (Hi : Inv c)
  (Hm : moving creds op oname np nname c src dst on nn mv b nn1 todo senc enc on' nn2 mv' puts).
#[local] Abbreviation whole := (b ++ move_batch op senc src np enc nname nn1 mv' puts).

Lemma whole_store :
  apply_batch (store c) whole =
  apply_batch (replaced_store c b np nn1) (move_batch op senc src np enc nname nn1 mv' puts).
Proof.
  apply (replaced_compose _ _ _ _ _ (VInode nn2)). destruct Hm as [_ _ _ _ _ _ _ _ [_ _ _ ->]].
  unfold move_batch. rewrite !elem_of_app. right. right. right. right. by left.
Qed.

Lemma wf_whole : wf (v_names c) (v_chunk_size c) (al_next (v_alloc c)) (apply_batch (store c) whole).
Proof.
  rewrite whole_store. destruct Hm as [Hs Hd Hs' Hdst Hne Hval Hr Hrep Hw].
  pose proof Hr as [_ _ _ Hnn Hnk _ _ _ _ _].
  eapply wf_moved; [by eapply wf_replaced|by eapply replaced_moveable| |done..].
  destruct (replacement_parent _ _ _ _ _ _ _ _ _ _ Hi Hnn Hnk Hrep) as (dl & _ & [-> _ _ _ _ _ _ _]). done.
Qed.

Lemma moving_src_ne : d_child_ino src <> np /\ d_child_ino src <> op /\ (op, senc) <> (np, enc).
Proof.
  destruct Hm as [Hs Hd Hs' Hdst Hne Hval Hr Hrep Hw]. split_and!.
  - by eapply rename_distinct.
  - by destruct (tree_child_ne _ _ op senc src (wf_tree _ _ _ _ (inv_wf _ Hi)) Hd).
  - by eapply replaced_place.
Qed.

Lemma whole_records :
  let m' := apply_batch (store c) whole in
  node m' (d_child_ino src) mv' /\ (op <> np -> node m' op on') /\ node m' np nn2 /\ m' !! KDirent op senc = None /\
  (forall j, j <> d_child_ino src -> j <> op -> j <> np -> m' !! KInode j = replaced_store c b np nn1 !! KInode j).
Proof.
  cbv zeta. rewrite whole_store. destruct moving_src_ne as (H1 & H2 & H3). eapply move_records; try done. apply Hm.
Qed.

Lemma whole_coherent :
  coherent (v_names c) [] [] (renamed_attrs op oname np nname (d_child_ino src) dst on' nn2 mv' (v_attrs c))
    (apply_batch (store c) whole).
Proof.
  destruct whole_records as (R1 & R2 & R3 & R4 & _). destruct Hm as [Hs Hd Hs' Hdst Hne Hval Hr Hrep Hw].
  destruct todo as [[reap qb] qi].
  destruct (replacement_counters _ _ _ _ _ _ _ _ _ _ _ _ Hrep) as (_ & _ & _ & _ & D1 & D2).
  destruct (move_counters op senc src np enc nname _ _ _ _ _ _ _ Hw) as (_ & _ & _ & _ & D3 & D4 & D5).
  assert (forall j, j ∈ dirty_inodes b -> Some j = d_child_ino <$> dst) as Hdb.
  { intros j (o & Ho & Hk)%list_elem_of_omap.
    pose proof (proj1 (Forall_forall _ _) (replacement_keys _ _ _ _ _ _ _ _ _ _ _ Hrep Hs') o Ho) as Hrk.
    cbv beta in Hrk. destruct (op_key o); try done. injection Hk as ->. destruct dst; [|done]. by destruct Hrk as [[= ->]|[?|[?|[?|[?|?]]]]]. }
  assert (coherent (v_names c) (d_child_ino src :: (if op =? np then [] else [op]) ++ np :: from_option (fun d => [d_child_ino d]) [] dst)
    [(np, enc)] (v_attrs c) (apply_batch (store c) whole)) as Hco.
  { eapply coherent_perm; [| |apply coherent_commit; [by apply inv_coherent|by apply Forall_app]].
    - intros j. unfold dirty_inodes. rewrite omap_app. fold (dirty_inodes b) (dirty_inodes (move_batch op senc src np enc nname nn1 mv' puts)).
      rewrite D3, elem_of_app. intros [Hj%Hdb|Hj]; [destruct dst; [injection Hj as ->|done]|]; destruct (op =? np); set_solver.
    - unfold dirty_entries. rewrite omap_app. fold (dirty_entries b) (dirty_entries (move_batch op senc src np enc nname nn1 mv' puts)).
      rewrite D1, D4. set_solver. }
  unfold renamed_attrs. cbv zeta. eapply coherent_positive; [|done]. eapply coherent_negative; [|done..].
  eapply coherent_insert in Hco; [|exact R1].
  destruct (Z.eqb_spec op np) as [|Hop]; cbn [app] in Hco.
  - destruct dst; [apply coherent_remove|]; by apply coherent_insert.
  - eapply coherent_insert in Hco; [|by apply R2]. destruct dst; [apply coherent_remove|]; by apply coherent_insert.
Qed.

Lemma inv_rename q reap qb qi :
  todo = (reap, qb, qi) ->
  q_bytes q = as_i64 (q_bytes (v_quota c) + qb) -> q_inodes q = as_i64 (q_inodes (v_quota c) + qi) ->
  Inv (set_quota q (set_attrs (renamed_attrs op oname np nname (d_child_ino src) dst on' nn2 mv' (v_attrs c))
    (committed whole c))).
Proof.
  pose proof wf_whole as Hwf. pose proof whole_coherent as Hco. pose proof Hm as Hm'. intros Ht Hqb Hqi.
  rewrite Ht in Hm'. destruct Hm' as [_ _ _ _ _ _ _ Hrep Hw].
  destruct (replacement_counters _ _ _ _ _ _ _ _ _ _ _ _ Hrep) as (A1 & A2 & A3 & A4 & _).
  destruct (move_counters op senc src np enc nname _ _ _ _ _ _ _ Hw) as (B1 & B2 & B3 & B4 & _).
  eapply inv_commit; try done.
  - by apply Forall_app.
  - by apply Forall_app.
  - rewrite deltas_app, A3, B3, Hqb. f_equal. lia.
  - rewrite deltas_app, A4, B4, Hqi. f_equal. lia.
Qed.

(** An inode to reap has no record left. *)
Lemma whole_gone t qb qi : todo = (Some t, qb, qi) -> apply_batch (store c) whole !! KInode t = None /\
  exists n, node (store c) t n.
Proof.
  pose proof whole_records as (_ & _ & _ & _ & R). pose proof moving_src_ne as (_ & _ & Hpl). pose proof Hm as Hm'. intros Ht. rewrite Ht in Hm'.
  destruct Hm' as [_ Hd _ _ Hne _ [Hon Hok _ Hnn Hnk _ _ _ _ _] Hrep _].
  inversion Hrep as [|?|d e r bur dead buried reap qb' qi' Hse Hde Hr _ _ Hrk Hb Htodo]; subst.
  destruct reap; [|done]. simplify_eq. destruct (tree_child_ne _ _ np e d (wf_tree _ _ _ _ (inv_wf _ Hi)) Hde) as [Hnp _].
  split; [|eauto]. rewrite R; [|by apply Hne|congruence|done]. unfold replaced_store.
  destruct dead as [x|]; [|done]. inversion Hb; subst. unfold settle_batch, entry_deletes.
  rewrite (apply_ops_on is_inode_key) by done. unfold apply_batch; simpl. rewrite lookup_insert_ne by congruence. apply lookup_delete_eq.
Qed.

Lemma moving_free reap qb qi : todo = (reap, qb, qi) -> qb <= 0 /\ qi <= 0.
Proof.
  pose proof Hm as Hm'. intros Ht. rewrite Ht in Hm'. destruct Hm' as [_ _ _ _ _ _ _ Hrep _].
  inversion Hrep as [| |d e r bur dead buried reap' qb' qi' Hse Hde Hr _ _ Hrk Hb Htodo]; subst; [lia..|].
  by eapply todo_free.
Qed.

Lemma whole_length : (length whole <= 16)%nat.
Proof.
  destruct Hm as [_ _ _ _ _ _ _ Hrep [_ _ _ ->]]. unfold move_batch. rewrite !length_app.
  assert (length b <= 6)%nat.
  { destruct Hrep as [|?|d e r bur dead buried reap qb qi Hse Hde Hr _ _ Hrk Hb Htodo]; simpl; [lia..|].
    destruct Hb; simpl; lia. }
  destruct (op =? np); simpl; lia.
Qed.
End moving.

(** What a successful rename did: nothing, when both names denote the same
    inode; else the whole batch, and the replaced inode's data is reaped. *)
Inductive renamed creds op oname np nname c c' : Prop :=
  | renamed_same i : entry (v_names c) (store c) op oname = Some i -> entry (v_names c) (store c) np nname = Some i ->
      store c' = store c -> renamed creds op oname np nname c c'
  | renamed_moved src dst on nn mv b nn1 reap qb qi senc enc on' nn2 mv' puts :
      moving creds op oname np nname c src dst on nn mv b nn1 (reap, qb, qi) senc enc on' nn2 mv' puts ->
      match reap with
      | None => store c' = apply_batch (store c) (b ++ move_batch op senc src np enc nname nn1 mv' puts)
      | Some t => pruned t (apply_batch (store c) (b ++ move_batch op senc src np enc nname nn1 mv' puts)) (store c') /\
                  forall k, data_of t k -> store c' !! k = None
      end -> renamed creds op oname np nname c c'.

(** The tail of a rename: commit, caches, quota, reaping. *)
Lemma rename_tail G c creds op oname np nname src dst on nn mv b nn1 reap qb qi senc enc on' nn2 mv' puts
    (P : Volume -> unit -> Prop) E v :
  Inv c -> roomy c -> (G -> (base.size (store c) + 16 < fuel)%nat) -> calm G c v ->
  moving creds op oname np nname c src dst on nn mv b nn1 (reap, qb, qi) senc enc on' nn2 mv' puts ->
  (forall c', renamed creds op oname np nname c c' -> P c' tt) ->
  wp (commit (b ++ move_batch op senc src np enc nname nn1 mv' puts) ;;;
      rename_cache op oname np nname (d_child_ino src) dst on' nn2 mv' ;;;
      ignore (reserve qb qi) ;;;
      match reap with Some ino => reap_orphan fuel ino | None => st_ret tt end) (ends G c P E) v.
Proof.
  intros Hi Hr Hfuel Hc Hm HP. set (w := b ++ _).
  apply wp_bind. eapply wp_commit; [done|..]; [|intros e v1 Hc1 HG; by eapply ends_err; [apply begun_refl|..]].
  intros v1 Hc1. apply wp_bind. eapply wp_rename_cache; [done|]. intros v2 Hc2. apply wp_bind.
  destruct (moving_free creds op np oname nname c src dst on nn mv b nn1 _ senc enc on' nn2 mv' puts Hi Hm reap qb qi eq_refl) as [Hqb Hqi].
  eapply wp_ignore_free; [done..|]. intros q v3 Eb Ei Hc3.
  pose proof (inv_rename creds op np oname nname c src dst on nn mv b nn1 _ senc enc on' nn2 mv' puts Hi Hm q reap qb qi eq_refl Eb Ei) as Hi3.
  fold w in Hi3. set (c3 := set_quota q _) in *. change (calm G c3 v3) in Hc3.
  assert (store c3 = apply_batch (store c) w) as E3 by apply store_committed. destruct reap as [t|].
  - destruct (whole_gone creds op np oname nname c src dst on nn mv b nn1 _ senc enc on' nn2 mv' puts Hi Hm t qb qi eq_refl) as [Hg [n Hn]].
    eapply (wp_reap_orphan fuel G c3); try done.
    + pose proof (roomy_node c _ n Hi Hr Hn) as [? ?]. unfold ROOT_INO in *. lia.
    + by rewrite E3.
    + intros HG. specialize (Hfuel HG). rewrite E3. pose proof (apply_batch_size (store c) w).
      pose proof (whole_length creds op np oname nname c src dst on nn mv b nn1 _ senc enc on' nn2 mv' puts Hm) as Hl. fold w in Hl. lia.
    + intros c' v' Hc' [R1 R2 R3] Hall. eapply ends_ok; [done|done|by rewrite R2|by rewrite R2|].
      rewrite E3 in R3. apply HP. by eapply renamed_moved.
    + intros h c' v' Hc' [R1 R2 R3] HG. eapply ends_not; [done|done|by rewrite R2|by rewrite R2|done].
  - apply wp_ret. eapply ends_ok; [done..|]. apply HP. by eapply renamed_moved.
Qed.

(** From the replacement to the end. *)
Lemma rename_seals G creds op oname np nname src dst ts on nn mv b nn1 (todo : option u64 * i64 * i64) c v :
  Inv c -> roomy c -> calm G c v -> (G -> (base.size (store c) + 16 < fuel)%nat) ->
  validate_name oname = Ok tt -> validate_name nname = Ok tt ->
  entry_is c op oname (Some src) -> entry_is c np nname dst ->
  (forall d, dst = Some d -> d_child_ino d <> d_child_ino src) ->
  rename_ready creds op np (d_child_ino src) c on nn mv -> replacement creds np nname c nn mv dst b nn1 todo ->
  wp (let '(reap, qb, qi) := todo in
      src_enc <- seal op oname ;; new_enc <- seal np nname ;;
      let '(od, nd, md, puts) := rename_inodes op np (d_child_ino src) ts on nn1 mv in
      commit (b ++ entry_deletes op src_enc (d_dirent_id src) ++
          entry_puts np new_enc nname (d_child_ino src) (i_kind md) (i_next_dirent_id nn1) ++ puts) ;;;
      rename_cache op oname np nname (d_child_ino src) dst od nd md ;;;
      ignore (reserve qb qi) ;;;
      match reap with Some ino => reap_orphan fuel ino | None => st_ret tt end)
    (ends G c (fun c' _ => renamed creds op oname np nname c c') (rename_error creds op oname np nname c)) v.
Proof.
  intros Hi Hr Hc Hfuel Hvo Hvn Hsrc Hdst Hne Hready Hrep. destruct todo as [[reap qb] qi].
  apply wp_bind. eapply wp_seal; [by apply validate_len|done|]. intros senc Hs.
  apply wp_bind. eapply wp_seal; [by apply validate_len|done|]. intros enc Hs'.
  destruct (rename_inodes op np (d_child_ino src) ts on nn1 mv) as [[[on' nn2] mv'] puts] eqn:Er.
  eapply rename_tail; try done. split; try done.
  - destruct Hsrc as (e & He & Hd). congruence.
  - by eapply rename_inodes_writes.
Qed.

Lemma rename_locked_ends G creds op oname np nname src dst c v :
  Inv c -> roomy c -> calm G c v -> (G -> (base.size (store c) + 16 < fuel)%nat) ->
  validate_name oname = Ok tt -> validate_name nname = Ok tt ->
  entry_is c op oname (Some src) -> entry_is c np nname dst ->
  wp (rename_locked fuel creds op oname np nname src dst)
    (ends G c (fun c' _ => renamed creds op oname np nname c c') (rename_error creds op oname np nname c)) v.
Proof.
  intros Hi Hr Hc Hfuel Hvo Hvn Hsrc Hdst. pose proof (begun_refl c Hi) as Hb. unfold rename_locked.
  destruct (match dst with Some d => d_child_ino d =? d_child_ino src | None => false end) eqn:Hsame.
  { destruct dst as [d|]; [|done]. apply Z.eqb_eq in Hsame. apply wp_ret. eapply ends_ok; try done.
    apply (renamed_same _ _ _ _ _ _ _ (d_child_ino src)); [..|done].
    - by rewrite (entry_of_is _ _ _ _ Hsrc).
    - rewrite (entry_of_is _ _ _ _ Hdst). simpl. by rewrite Hsame. }
  assert (forall d, dst = Some d -> d_child_ino d <> d_child_ino src) as Hne.
  { intros d ->. by apply Z.eqb_neq. }
  destruct ((op =? np) && bool_decide (oname = nname)) eqn:Hpl.
  { apply andb_true_iff in Hpl as [->%Z.eqb_eq ->%bool_decide_eq_true].
    rewrite (entry_is_det c c _ _ _ _ eq_refl Hsrc Hdst) in Hne. by destruct (Hne src). }
  apply (bind_rename_load G creds op oname np nname src); [done| |done|done|].
  { intros HG. specialize (Hfuel HG). lia. }
  intros on nn mv v1 Hc1 Hready. cbv beta iota. apply wp_bind. eapply wp_now; [done|]. intros ts v2 Hc2.
  destruct dst as [d|].
  - eapply bind_replace_target; [done..|by apply validate_len|done|done|done|]. intros b nn1 todo v3 Hc3 Hrep. by eapply rename_seals.
  - apply wp_bind, wp_ret. by eapply (rename_seals G creds op oname np nname src None ts on nn mv [] nn (None, 0, 0)); [..|constructor].
Qed.

Lemma rename_settles G creds op oname np nname c v :
  undisturbed others fuel G c -> Inv c -> roomy c -> calm G c v ->
  wp (rename others fuel creds op oname np nname)
    (settles G c (fun c1 c' _ => renamed creds op oname np nname c1 c')
       (fun c1 e => rename_error creds op oname np nname c1 e)) v.
Proof.
  intros [Ha Hfuel] Hi Hr Hc. unfold rename. reading reads_guard; [|intros e _ He; apply (ren_name _ _ _ _ _ _ oname); auto].
  intros [] v1 Hc1 Hvo. reading reads_guard; [|intros e _ He; apply (ren_name _ _ _ _ _ _ nname); auto]. intros [] v2 Hc2 Hvn.
  apply wp_bind. eapply wp_lock; [done..|]. intros c1 v3 Hc3 Hi1 Hr1 Hn1 Hcs1 Hw1.
  assert (G -> at_rest c1 = at_rest c) as Hrest1 by (intros HG; by rewrite (Hw1 HG)).
  eapply settles_trans; [exact Hrest1|done..|].
  eapply settles_lock_rename; [done| |done..|by apply validate_len|by apply validate_len| |by constructor].
  { intros HG. specialize (Hfuel HG). lia. }
  intros c2 v4 src dst Hc4 Hi2 Hr2 Hrest2 Hsrc Hdst. apply rename_locked_ends; try done.
  intros HG. rewrite (proj1 (at_rest_store _ _ (Hrest2 HG))), (proj1 (at_rest_store _ _ (Hrest1 HG))). auto.
Qed.
End rename_ops.
