(* ===== verification/OpsData.v ===== *)
(** The operations on file contents and attributes: read with its atime
    update, write, setattr with truncation, open. *)

From S2P Require Import Prelude Keys Meta Store Data Quota Locks Volume Vfs Tree Wf WfOps VfsLogic VfsInv Reap.
From S2P Require Import OpsAttr OpsRead OpsCreate OpsRemove.

(** ** Batches that rewrite the data of one file *)

(** A change of one chunk of [i]. *)
Definition chunk_op (i : u64) (op : BatchOp) : Prop :=
  match op with
  | Put (KChunk j idx) (VBytes _) => j = i /\ is_u32 idx
  | Delete (KChunk j _) => j = i
  | _ => False
  end.

Definition bill_merge (d : i64) : WriteBatch :=
  if negb (d =? 0) then [Merge KQuotaBytes (encode_delta d)] else [].

Definition data_batch (i : u64) (xs : WriteBatch) (n' : Inode) (d : i64) : WriteBatch :=
  xs ++ [Put (KInode i) (VInode n')] ++ bill_merge d.

(** The inode after a change of its data: size, bill and times differ. *)
Record data_update (n n' : Inode) : Prop := {
  dt_kind : i_kind n' = i_kind n;
  dt_nlink : i_nlink n' = i_nlink n;
  dt_next : i_next_dirent_id n' = i_next_dirent_id n;
  dt_parent : i_parent_dir n' = i_parent_dir n
}.

Lemma chunk_ops nx i xs :
  Forall (chunk_op i) xs -> is_u64 i -> ROOT_INO <= i < nx ->
  ops_on tree_key xs = [] /\ ops_on is_inode_key xs = [] /\ Forall (op_below nx) xs /\
  Forall (counter_safe KQuotaBytes) xs /\ Forall (counter_safe KQuotaInodes) xs /\
  deltas KQuotaBytes xs = 0 /\ deltas KQuotaInodes xs = 0 /\ dirty_inodes xs = [] /\ dirty_entries xs = [] /\
  Forall (fun op => match op with Merge k _ => k = KQuotaBytes \/ k = KQuotaInodes | _ => True end) xs /\
  Forall (fun op => exists idx, op_key op = KChunk i idx) xs.
Proof.
  intros Hxs Hu Hi. induction Hxs as [|op xs Hop _ (I1 & I2 & I3 & I4 & I5 & I6 & I7 & I8 & I9 & I10 & I11)]; [done|].
  destruct op as [k x|k|k x]; destruct k as [| | | |j idx| | | | | |]; simpl in Hop; try done.
  - destruct x; try done. destruct Hop as [-> Hidx]. unfold dirty_inodes, dirty_entries, deltas in *. simpl.
    split_and!; try done; constructor; try done; simpl; [|eauto]. split; [done|]. by intros ? [= <-].
  - subst. unfold dirty_inodes, dirty_entries, deltas in *. simpl. split_and!; try done; constructor; try done; simpl; eauto.
Qed.

Section wf_data.
Context {NCR : NameCrypto} (names : NameCodec) (cs nx : u64).
Context (m : gmap Key Value) (i : u64) (n n' : Inode) (xs : WriteBatch) (d : i64).
Context (Hwf : wf names cs nx m) (Hn : node m i n) (Hk : i_kind n <> Dir) (Hu : data_update n n')
  (Hxs : Forall (chunk_op i) xs) (Hok : file_ok cs (apply_batch m xs) i n')
  (Hbill : i_billed_bytes n' = i_billed_bytes n + d) (Hb64 : is_u64 (i_billed_bytes n')) (Hd : is_i64 d).
#[local] Abbreviation b := (data_batch i xs n' d).
#[local] Abbreviation m' := (apply_batch m b).

Lemma data_inodes j : m' !! KInode j = <[KInode i := VInode n']> m !! KInode j.
Proof.
  destruct (wf_node_below _ _ _ _ _ _ Hwf Hn) as [Hr Hi64].
  destruct (chunk_ops nx i xs Hxs Hi64 Hr) as (_ & E & _).
  rewrite (apply_ops_on is_inode_key) by done. unfold data_batch, bill_merge. rewrite !ops_on_app, E.
  by destruct (negb (d =? 0)).
Qed.

Lemma data_frame k : k <> KInode i -> k <> KQuotaBytes -> m' !! k = apply_batch m xs !! k.
Proof.
  intros H1 H2. unfold data_batch. rewrite apply_batch_app. apply apply_batch_frame. unfold bill_merge.
  destruct (negb (d =? 0)); forall_ops; congruence.
Qed.

Lemma data_other k : (forall idx, k <> KChunk i idx) -> apply_batch m xs !! k = m !! k.
Proof.
  intros Hne. destruct (wf_node_below _ _ _ _ _ _ Hwf Hn) as [Hr Hi64].
  destruct (chunk_ops nx i xs Hxs Hi64 Hr) as (_ & _ & _ & _ & _ & _ & _ & _ & _ & _ & E).
  apply apply_batch_frame. eapply Forall_impl; [exact E|]. intros op [idx ->] ?. by apply (Hne idx).
Qed.

Lemma data_nodes j r : node m' j r -> (j = i /\ r = n') \/ (j <> i /\ node m j r).
Proof. rewrite data_inodes. intros [[[= ->] [= ->]]|[? ?]]%lookup_insert_Some; [by left|right]. split; congruence. Qed.

Lemma data_orphans : orphans_ok m'.
Proof.
  destruct (wf_orphans _ _ _ _ Hwf) as [O1 O2 O3 O4 O5 O6], Hu as [U1 U2 U3 U4].
  assert (forall j k, j <> i -> key_ino k = Some j -> m' !! k = m !! k) as Hother.
  { intros j k Hj E. assert (forall idx, k <> KChunk i idx) by (intros idx ->; simpl in E; congruence).
    destruct (decide (k = KQuotaBytes)) as [->|]; [done|].
    rewrite data_frame by (done || intros ->; simpl in E; congruence). by apply data_other. }
  assert (forall k, data_key k = true -> (forall idx, k <> KChunk i idx) -> m' !! k = m !! k) as Hdk.
  { intros k H1 H2. rewrite data_frame by (intros ->; done). by apply data_other. }
  assert (forall j, owned m j -> owned m' j) as Hown.
  { intros j [[r Hr]|Ho]; [left|right].
    - rewrite data_inodes. destruct (decide (j = i)) as [->|]; [rewrite lookup_insert_eq; eauto|].
      rewrite lookup_insert_ne by congruence. eauto.
    - by rewrite Hdk. }
  split.
  - intros j v. rewrite Hdk by done. apply O1.
  - intros j r Hj Hkj. rewrite Hdk by done. apply data_nodes in Hj as [[-> ->]|[_ Hj]]; [|by apply O2].
    rewrite U2. apply O2; [done|congruence].
  - intros j r Hj Hkj. apply data_nodes in Hj as [[-> ->]|[Hne Hj]]; [congruence|].
    destruct (O3 j r Hj Hkj) as (E1 & E2 & E3). rewrite !(Hother j) by done. split_and!; [done| |done].
    intros idx. by rewrite (Hother j).
  - intros j idx v Hv. apply Hown. destruct (decide (j = i)) as [->|Hne]; [left; eauto|].
    rewrite (Hother j) in Hv by done. by eapply O4.
  - intros j v. rewrite Hdk by done. intros Hv. apply Hown. by eapply O5.
  - intros j r Hj Hkj. apply data_nodes in Hj as [[-> ->]|[Hne Hj]].
    + rewrite Hdk by done. eapply O6; [done|congruence].
    + rewrite (Hother j) by done. by eapply O6.
Qed.

Lemma data_deltas : deltas KQuotaBytes b = d /\ deltas KQuotaInodes b = 0.
Proof.
  destruct (wf_node_below _ _ _ _ _ _ Hwf Hn) as [Hr Hi64].
  destruct (chunk_ops nx i xs Hxs Hi64 Hr) as (_ & _ & _ & _ & _ & D1 & D2 & _).
  unfold data_batch, bill_merge. rewrite !deltas_app, D1, D2. destruct (Z.eqb_spec d 0) as [->|]; [done|].
  unfold deltas, delta_of, encode_delta. simpl. rewrite i64_le_wrap, as_i64_small by done. lia.
Qed.

Lemma data_ops : Forall (op_below nx) b /\ Forall (counter_safe KQuotaBytes) b /\ Forall (counter_safe KQuotaInodes) b.
Proof.
  destruct (wf_node_below _ _ _ _ _ _ Hwf Hn) as [Hr Hi64].
  destruct (chunk_ops nx i xs Hxs Hi64 Hr) as (_ & _ & B1 & B2 & B3 & _).
  unfold data_batch, bill_merge. destruct (negb (d =? 0)); split_and!; forall_ops; split; try done; by intros ? [= <-].
Qed.

Lemma wf_data_batch : wf names cs nx m'.
Proof.
  destruct data_ops as (B1 & B2 & B3), data_deltas as [D1 D2], Hu as [U1 U2 U3 U4].
  destruct (wf_node_below _ _ _ _ _ _ Hwf Hn) as [Hr Hi64].
  destruct (chunk_ops nx i xs Hxs Hi64 Hr) as (T1 & _).
  assert (bytes_total m' = bytes_total m + d /\ inode_total m' = inode_total m) as [Tb Ti].
  { destruct (totals_insert m i n') as [E1 E2]; [by eapply tr_inode, Hwf|].
    rewrite Hn in E1, E2. simpl in E1. rewrite decide_True in E2 by eauto.
    destruct (totals_same (<[KInode i := VInode n']> m) m') as [-> ->]; [|lia].
    intros j. unfold bill_at. by rewrite data_inodes. }
  apply (wf_batch names cs nx); [done|lia|..|done|done|done|rewrite D1, Tb; done|rewrite D2, Ti; f_equal; lia].
  - apply (tree_frame names _ _ _ (<[KInode i := VInode n']> m)).
    + intros k Hkt. rewrite (apply_ops_on tree_key) by done. unfold data_batch, bill_merge. rewrite !ops_on_app, T1.
      by destruct (negb (d =? 0)).
    + pose proof (tree_upd_inode names _ _ _ m i n n' (wf_tree _ _ _ _ Hwf) Hn U1 U4) as H1.
      eapply tree_ext; [|exact H1]. disc.
  - intros j r [[-> ->]|[Hne Hj]]%data_nodes.
    + eapply file_ok_agree; [exact Hok| |done|done]. intros idx. by apply data_frame.
    + eapply file_ok_agree; [by eapply (wf_data _ _ _ _ Hwf)| |done|done]. intros idx.
      rewrite data_frame by done. apply data_other. congruence.
  - apply data_orphans.
  - intros j r [[-> ->]|[_ Hj]]%data_nodes; [|exact (wf_widths _ _ _ _ Hwf j r Hj)].
    destruct (wf_widths _ _ _ _ Hwf i n Hn) as (? & _ & ?). rewrite U2, U3. done.
Qed.
End wf_data.

Section data_ops.
Context {DB : SlateDB} {AC : MokaCache u64 Inode} {NC : MokaCache (u64 * bytes) unit}
  {NCR : NameCrypto}.
Context (others : nat -> Volume -> Volume) (Hrely : rely others).
Implicit Types (c : Volume) (G : Prop).

Lemma inv_data c i n n' xs d q :
  Inv c -> node (store c) i n -> i_kind n <> Dir -> data_update n n' -> Forall (chunk_op i) xs ->
  file_ok (v_chunk_size c) (apply_batch (store c) xs) i n' ->
  i_billed_bytes n' = i_billed_bytes n + d -> is_u64 (i_billed_bytes n') -> is_i64 d ->
  q_bytes q = as_i64 (q_bytes (v_quota c) + d) -> q_inodes q = as_i64 (q_inodes (v_quota c) + 0) ->
  Inv (set_quota q (set_attrs (ac_insert i n' (v_attrs c)) (committed (data_batch i xs n' d) c))).
Proof.
  intros Hi Hn Hk Hu Hxs Hok Hb H64 Hd Hqb Hqi. pose proof (inv_wf _ Hi) as Hwf.
  destruct (wf_node_below _ _ _ _ _ _ Hwf Hn) as [Hr Hi64].
  destruct (chunk_ops _ i xs Hxs Hi64 Hr) as (_ & _ & _ & _ & _ & _ & _ & D1 & D2 & D3 & _).
  assert (Forall (op_below (al_next (v_alloc c))) (data_batch i xs n' d) /\ Forall (counter_safe KQuotaBytes) (data_batch i xs n' d) /\
    Forall (counter_safe KQuotaInodes) (data_batch i xs n' d)) as (_ & B2 & B3) by (by eapply data_ops).
  assert (deltas KQuotaBytes (data_batch i xs n' d) = d /\ deltas KQuotaInodes (data_batch i xs n' d) = 0) as [E1 E2] by (by eapply data_deltas).
  eapply inv_commit; [done| |done|done|done|by rewrite E1|by rewrite E2|].
  - by eapply wf_data_batch.
  - apply coherent_insert; [|erewrite data_inodes by done; apply lookup_insert_eq].
    eapply coherent_perm; [| |apply (coherent_commit _ _ _ (data_batch i xs n' d)); [by apply inv_coherent|]].
    + unfold data_batch, dirty_inodes, bill_merge. rewrite !omap_app. fold (dirty_inodes xs). rewrite D1.
      destruct (negb (d =? 0)); set_solver.
    + unfold data_batch, dirty_entries, bill_merge. rewrite !omap_app. fold (dirty_entries xs). rewrite D2.
      destruct (negb (d =? 0)); set_solver.
    + unfold data_batch, bill_merge. destruct (negb (d =? 0)); forall_ops.
Qed.

(** ** Write *)

Lemma reads_plan_write c ino n off data :
  Inv c -> node (store c) ino n -> 0 <= off -> data <> [] -> off + len data <= max_size (v_chunk_size c) ->
  reads c (map_core (plan_write (v_chunk_size c) ino (i_size n) off data))
    (write_planned (store c) (v_chunk_size c) ino (i_size n) off data) never.
Proof.
  intros Hi Hn Hoff Hd Hmax. destruct (wf_data _ _ _ _ (inv_wf _ Hi) ino n Hn) as [[Hs0 Hs1] Hfit Htrim _].
  apply reads_map_core; [apply steady_plan_write|]. intros s Hs Hdb.
  destruct (plan_write_quiet (v_chunk_size c) ino (i_size n) off data s) as (plan & Hp & Hpl);
    rewrite ?Hdb; try done; [apply Hi|]. rewrite Hdb in Hpl. eauto.
Qed.

Lemma puts_batch m ino puts :
  apply_batch m ((fun p => Put (KChunk ino p.1) (VBytes p.2)) <$> puts) = put_chunks ino puts m.
Proof. unfold apply_batch, put_chunks. revert m. induction puts as [|p puts IH]; intros m; simpl; [done|]. apply IH. Qed.

(** The bill of a file whose chunks changed. *)
Lemma rebill_exact c ino n m' size d :
  Inv c -> node (store c) ino n -> chunks_fit m' (v_chunk_size c) ino ->
  billed m' (v_chunk_size c) ino size = billed (store c) (v_chunk_size c) ino (i_size n) + d ->
  rebill (i_billed_bytes n) d = i_billed_bytes n + d /\ is_u64 (i_billed_bytes n + d) /\ is_i64 d /\
  billed m' (v_chunk_size c) ino size = i_billed_bytes n + d.
Proof.
  intros Hi Hn Hfit Hb. destruct (inv_cs _ Hi) as [C1 C2]. pose proof (inv_billed c ino n Hi Hn).
  pose proof (billed_bound m' (v_chunk_size c) ino size C1 Hfit) as [B1 B2].
  rewrite (fo_bill _ _ _ _ (wf_data _ _ _ _ (inv_wf _ Hi) ino n Hn)) in Hb.
  assert (max_size (v_chunk_size c) <= 2 ^ 54) by (unfold max_size; lia).
  split_and!; [|unfold is_u64; lia|unfold is_i64; lia|done].
  unfold rebill. rewrite (as_i64_small (i_billed_bytes n)) by (unfold is_i64; lia). apply as_u64_small. unfold is_u64. lia.
Qed.

(** The inode after a write. *)
Definition written_inode creds ts size billed (n : Inode) : Inode :=
  let n := touch_mtime ts (set_i_billed_bytes billed (set_i_size size n)) in
  if negb (is_root creds) && negb (Z.land (i_mode n) o6000 =? 0) then set_i_mode (Z.ldiff (i_mode n) o6000) n else n.

Lemma written_fields creds ts size billed n :
  data_update n (written_inode creds ts size billed n) /\ i_size (written_inode creds ts size billed n) = size /\
  i_billed_bytes (written_inode creds ts size billed n) = billed /\
  i_mode (written_inode creds ts size billed n) =
    (if negb (is_root creds) && negb (Z.land (i_mode n) o6000 =? 0) then Z.ldiff (i_mode n) o6000 else i_mode n).
Proof. unfold written_inode. simpl. case_match; done. Qed.

(** [data] stands at [off]; everything else in the file and every other record
    is as before, but for the byte counter. *)
Definition written creds ino off data c c' : Prop :=
  exists n n', node (store c) ino n /\ i_kind n = File /\ access creds n ACCESS_W = Ok tt /\
    node (store c') ino n' /\ data_update n n' /\ i_size n' = Z.max (i_size n) (off + len data) /\
    i_mode n' = (if negb (is_root creds) && negb (Z.land (i_mode n) o6000 =? 0) then Z.ldiff (i_mode n) o6000 else i_mode n) /\
    (forall x, content (store c') (v_chunk_size c) ino (i_size n') x =
       if (off <=? x) && (x <? off + len data) then byte_at data (x - off)
       else content (store c) (v_chunk_size c) ino (i_size n) x) /\
    (forall k, (forall idx, k <> KChunk ino idx) -> k <> KInode ino -> k <> KQuotaBytes -> store c' !! k = store c !! k).

Lemma content_agree m m' cs ino size x :
  (forall idx, m' !! KChunk ino idx = m !! KChunk ino idx) -> content m' cs ino size x = content m cs ino size x.
Proof. intros H. unfold content, chunk_at. by rewrite H. Qed.

Lemma write_planned_done creds ino off data ts c n plan q :
  Inv c -> node (store c) ino n -> i_kind n = File -> 0 <= off -> off + len data <= max_size (v_chunk_size c) ->
  write_planned (store c) (v_chunk_size c) ino (i_size n) off data plan ->
  let d := wp_billed_delta plan in
  let n' := written_inode creds ts (wp_new_size plan) (rebill (i_billed_bytes n) d) n in
  let b := data_batch ino ((fun p => Put (KChunk ino p.1) (VBytes p.2)) <$> wp_puts plan) n' d in
  q_bytes q = as_i64 (q_bytes (v_quota c) + d) -> q_inodes q = as_i64 (q_inodes (v_quota c) + 0) ->
  let c' := set_quota q (set_attrs (ac_insert ino n' (v_attrs c)) (committed b c)) in
  Inv c' /\ (access creds n ACCESS_W = Ok tt -> written creds ino off data c c').
Proof.
  intros Hi Hn Hk Hoff Hmax [P1 P2 P3 P4 P5 P6 P7] d n' b Hqb Hqi c'.
  destruct (wf_data _ _ _ _ (inv_wf _ Hi) ino n Hn) as [[Hs0 Hs1] Hfit Htrim _].
  destruct (rebill_exact c ino n _ _ d Hi Hn P2 P5) as (R1 & R2 & R3 & R4).
  destruct (written_fields creds ts (wp_new_size plan) (rebill (i_billed_bytes n) d) n) as (F1 & F2 & F3 & F4).
  fold n' in F1, F2, F3, F4. rewrite R1 in F3.
  set (xs := (fun p => Put (KChunk ino p.1) (VBytes p.2)) <$> wp_puts plan) in *.
  assert (Forall (chunk_op ino) xs) as Hxs.
  { apply Forall_fmap, Forall_forall. intros p Hp. simpl. auto. }
  pose proof (len_nonneg data). split.
  - apply (inv_data c ino n n' xs d q); try done; [congruence| |by rewrite F3].
    unfold xs. rewrite puts_batch. split; rewrite ?F2; [rewrite P1; lia|done..|]. by rewrite F3.
  - intros Hacc. exists n, n'. rewrite F2.
    assert (store c' = apply_batch (store c) b) as Es by apply store_committed. rewrite Es.
    assert (forall k, k <> KInode ino -> k <> KQuotaBytes -> apply_batch (store c) b !! k = put_chunks ino (wp_puts plan) (store c) !! k) as Hfr.
    { intros k H1 H2. rewrite <- puts_batch. by apply data_frame. }
    split_and!; try done.
    + unfold b. erewrite data_inodes by first [done|apply Hi]. apply lookup_insert_eq.
    + intros x. rewrite <- P4. apply content_agree. intros idx. by apply Hfr.
    + intros k H1 H2 H3. rewrite Hfr by done. by apply P6.
Qed.

Lemma write_settles G creds ino off data c v :
  (G -> alone others) -> Inv c -> roomy c -> calm G c v -> is_u64 off ->
  wp (write others creds ino off data)
    (settles G c (fun c1 c' r => (data = [] /\ r = 0 /\ store c' = store c1) \/
                                 (data <> [] /\ r = as_u32 (len data) /\ written creds ino off data c1 c'))
       (fun c1 e => (e = FileTooBig /\ v_chunk_size c1 * U32_MAX < off + len data) \/ stale_at c1 ino e \/
          (exists n, node (store c1) ino n /\ i_kind n <> File /\ e = if is_dir (i_kind n) then IsDir else Invalid) \/
          denied_at creds c1 ino ACCESS_W e \/ (e = QuotaExceeded /\ exists d, refuses d 0 c1))) v.
Proof.
  intros Ha Hi Hr Hc Hoff. unfold write. case_bool_decide as Hd.
  { apply wp_ret. exists c. split_and!; try done. eapply ends_ok; try done. auto. }
  pose proof (inv_cs _ Hi) as [C1 C2]. unfold is_u64 in Hoff.
  apply wp_bind, wp_lift. unfold checked_add_u64. destruct (Z.leb_spec (off + len data) U64_MAX) as [Hle|Hgt]; simpl.
  2: { exists c. split_and!; try done. eapply ends_err; [by apply begun_refl|done|]. intros _. left.
       split; [done|]. unfold U64_MAX, U32_MAX in *. lia. }
  apply wp_get. replace (v_chunk_size v) with (v_chunk_size c) by (by rewrite <- (calm_eq _ _ _ Hc)).
  destruct (Z.ltb_spec (v_chunk_size c * U32_MAX) (off + len data)) as [Hbig|Hfits].
  { apply wp_fail. exists c. split_and!; try done. eapply ends_err; [by apply begun_refl|done|]. auto. }
  eapply settles_lock_at; [done..|]. intros v1 E1 Hc1 Hi1 Hr1 _.
  assert (v_chunk_size (calmed v1) = v_chunk_size c) as Ecs.
  { rewrite E1, <- (calm_eq _ _ _ Hc). exact (rely_cs _ Hrely _ (set_waits _ v)). }
  rewrite <- Ecs in *. clear E1. set (c1 := calmed v1) in *. pose proof (begun_refl c1 Hi1) as Hb.
  reading reads_load_inode; [done| |auto]. intros n v2 Hc2 Hn.
  case_bool_decide as Hk; simpl.
  2: { apply wp_fail. eapply ends_err; [done..|]. intros _. right. right. left. eauto. }
  reading reads_guard; [|intros e _ He; right; right; right; left; by eapply denied_of]. intros [] v3 Hc3 Hacc.
  assert (off + len data <= max_size (v_chunk_size c1)) as Hmax by (unfold max_size, U32_MAX in *; lia).
  reading (reads_plan_write c1 ino n off data Hi1 Hn); [lia|done|done| |done]. intros plan v4 Hc4 Hplan.
  apply wp_bind. eapply wp_reserve; [done|]. intros t r q v5 Er Hc5. destruct r as [[]|e]; simpl.
  2: { pose proof (reserve_err _ _ _ _ _ _ (inv_tracker c1 Hi1) Er) as (-> & Eb & Ein & _).
       eapply ends_err; [by eapply begun_quota|exact Hc5|]. intros _. right. right. right. right. split; [done|].
       exists (wp_billed_delta plan), t. by rewrite Er. }
  destruct (reserve_ok _ _ _ _ _ Er) as (Eb & Ein & _).
  apply wp_bind. eapply wp_now; [exact Hc5|]. intros ts v6 Hc6.
  apply wp_bind. eapply wp_commit_release; [exact Hc6|..].
  2: { intros e v7 Hc7 HG. pose proof (reserve_release _ _ _ _ _ (inv_tracker c1 Hi1) Er) as Hrel. injection Hrel as R1 R2.
       eapply ends_err; [|exact Hc7|done]. apply (begun_quota c1 c1); [done..]. }
  intros v7 Hc7. apply wp_bind. eapply wp_cache; [exact Hc7|]. intros v8 Hc8. apply wp_ret.
  destruct (write_planned_done creds ino off data ts c1 n plan q Hi1 Hn Hk ltac:(lia) Hmax Hplan Eb Ein) as [Hi8 Hw].
  eapply ends_ok; [exact Hc8|exact Hi8|done|done|]. right. auto.
Qed.

(** ** Setattr *)

Lemma result_bind_ok {E A B} (r : result E A) (f : A -> result E B) b :
  result_bind r f = Ok b -> exists a, r = Ok a /\ f a = Ok b.
Proof. destruct r; [eauto|done]. Qed.

Lemma same_core_refl n : same_core n n.
Proof. by split. Qed.

Lemma same_core_trans n1 n2 n3 : same_core n1 n2 -> same_core n2 n3 -> same_core n1 n3.
Proof. intros [? ? ? ? ? ?] [? ? ? ? ? ?]. split; congruence. Qed.

(** The attribute fields are no part of what the invariant reads. *)
Lemma setattr_fields_core creds attrs ts n n' : setattr_fields creds attrs ts n = Ok n' -> same_core n n'.
Proof.
  intros (n1 & H1 & (n2 & H2 & (n3 & H3 & (n4 & H4 & H5)%result_bind_ok)%result_bind_ok)%result_bind_ok)%result_bind_ok.
  assert (forall o b sl m m', set_time creds o b ts sl m = Ok m' -> same_core m m') as Htime.
  { intros o b sl m m'. unfold set_time. repeat case_match; intros [= <-]; by split. }
  apply Htime in H4, H5. eapply same_core_trans; [|eapply same_core_trans; [exact H4|exact H5]].
  assert (same_core n n1) as C1 by (revert H1; unfold set_mode; repeat case_match; intros [= <-]; by split).
  assert (same_core n1 n2) as C2 by (revert H2; unfold set_uid; repeat case_match; intros [= <-]; by split).
  assert (same_core n2 n3) as C3 by (revert H3; unfold set_gid; repeat case_match; intros [= <-]; by split).
  eapply same_core_trans; [exact C1|]. by eapply same_core_trans.
Qed.

Lemma reads_plan_truncate c ino n size :
  Inv c -> roomy c -> node (store c) ino n -> 0 <= size ->
  reads c (map_core (plan_truncate (v_chunk_size c) ino (i_size n) size))
    (truncate_planned (store c) (v_chunk_size c) ino (i_size n) size) never.
Proof.
  intros Hi Hr Hn Hsize. destruct (wf_data _ _ _ _ (inv_wf _ Hi) ino n Hn) as [[Hs0 Hs1] Hfit Htrim _].
  destruct (roomy_node c ino n Hi Hr Hn) as [H1 H2]. unfold ROOT_INO in H1.
  apply reads_map_core; [apply steady_plan_truncate|]. intros s Hs Hdb.
  destruct (plan_truncate_quiet (v_chunk_size c) ino (i_size n) size s) as (plan & Hp & Hpl); rewrite ?Hdb; try done.
  - apply Hi.
  - lia.
  - intros k x Hk. by destruct (wf_keys _ _ _ _ (inv_wf _ Hi) k x Hk).
  - rewrite Hdb in Hpl. eauto.
Qed.

Definition tail_ops ino (tail : option (u32 * bytes)) : WriteBatch :=
  match tail with Some (idx, bs) => [Put (KChunk ino idx) (VBytes bs)] | None => [] end.
Definition delete_ops ino (idxs : list u32) : WriteBatch := (fun idx => Delete (KChunk ino idx)) <$> idxs.

Lemma truncate_batch m ino plan :
  apply_batch m (tail_ops ino (tp_tail_put plan) ++ delete_ops ino (tp_deletes plan)) = truncate_chunks ino plan m.
Proof.
  rewrite apply_batch_app. unfold truncate_chunks.
  assert (apply_batch m (tail_ops ino (tp_tail_put plan)) = put_tail ino (tp_tail_put plan) m) as ->
    by (by destruct (tp_tail_put plan) as [[]|]).
  generalize (put_tail ino (tp_tail_put plan) m). unfold apply_batch, delete_chunks, delete_ops.
  induction (tp_deletes plan) as [|idx l IH]; intros m'; simpl; [done|]. apply IH.
Qed.

Lemma concat_groups {A} k n (l : list A) : (0 < n)%nat -> (length l <= k)%nat -> concat (groups k n l) = l.
Proof.
  intros Hn. revert l. induction k as [|k IH]; intros [|x l] Hl; simpl in *; try done; [lia|].
  rewrite IH by (rewrite length_drop; simpl; lia). by rewrite take_drop.
Qed.

Lemma concat_chunks_of {A} n (l : list A) : (0 < n)%nat -> concat (chunks_of n l) = l.
Proof. intros Hn. by apply concat_groups. Qed.

(** The follow-up batches that delete what the first one could not. *)
Lemma wp_spill G c ino gs v (Q : result (Halt FsError) unit -> Volume -> Prop) :
  calm G c v ->
  (forall e v', calm G (set_eng e c) v' -> contents (e_db e) = apply_batch (store c) (delete_ops ino (concat gs)) ->
     Q (Ok tt) v') ->
  (gs <> [] -> forall h v', ~ G -> Q (Err h) v') ->
  wp (st_iter (fun group => commit ((fun idx => Delete (KChunk ino idx)) <$> group)) gs) Q v.
Proof.
  revert c v. induction gs as [|g gs IH]; intros c v Hc Hok Herr; simpl.
  - apply wp_ret. apply (Hok (v_eng c)); [by destruct c|done].
  - apply wp_bind. eapply wp_commit; [done| |intros e v1 Hc1 HG; by apply Herr].
    intros v1 Hc1. eapply IH; [done| |intros _ h v2 HG; by apply Herr].
    intros e v2 Hc2 He. apply (Hok e); [done|]. rewrite He, store_committed. unfold delete_ops.
    cbn [concat]. by rewrite fmap_app, apply_batch_app.
Qed.

Lemma inv_same c c' :
  Inv c -> store c' = store c -> v_names c' = v_names c -> v_chunk_size c' = v_chunk_size c -> v_alloc c' = v_alloc c ->
  v_quota c' = v_quota c -> v_attrs c' = v_attrs c -> Inv c'.
Proof. intros [H1 H2 H3 H4 H5 H6] E1 E2 E3 E4 E5 E6. split; rewrite ?E1, ?E2, ?E3, ?E4, ?E5, ?E6; done. Qed.

(** No more chunks to delete than the first batch takes. *)
Definition few_chunks (m : gmap Key Value) cs ino size : Prop :=
  forall L, NoDup L -> (forall idx, idx ∈ L -> size <= idx * cs /\ is_Some (m !! KChunk ino idx)) -> len L <= INLINE_DELETES.

(** The first batch and the follow-ups together. *)
Lemma resize_store m ino tail d1 d2 n' d :
  apply_batch (apply_batch m ((tail_ops ino tail ++ delete_ops ino d1 ++ bill_merge d) ++ [Put (KInode ino) (VInode n')]))
    (delete_ops ino d2) =
  apply_batch m (data_batch ino (tail_ops ino tail ++ delete_ops ino (d1 ++ d2)) n' d).
Proof.
  rewrite <- apply_batch_app, <- !app_assoc. unfold data_batch. unfold delete_ops at 3. rewrite fmap_app.
  fold (delete_ops ino d1) (delete_ops ino d2). rewrite <- !app_assoc, !(apply_batch_app m (tail_ops ino tail)).
  generalize (apply_batch m (tail_ops ino tail)). intros m1. rewrite !(apply_batch_app m1 (delete_ops ino d1)).
  generalize (apply_batch m1 (delete_ops ino d1)). intros m2.
  rewrite (app_assoc (bill_merge d)), apply_batch_swap.
  - rewrite !(apply_batch_app m2 (delete_ops ino d2)). apply apply_batch_swap. unfold bill_merge.
    intros op1 op2. case_match; [|by intros ?%elem_of_nil]. by intros ->%list_elem_of_singleton ->%list_elem_of_singleton.
  - intros op1 op2 H1 (idx & -> & _)%list_elem_of_fmap. unfold bill_merge in H1.
    apply elem_of_app in H1 as [H1|H1]; [case_match; [|by apply elem_of_nil in H1]|];
      by apply list_elem_of_singleton in H1 as ->.
Qed.

(** The inode with its new size: mtime moves only when the size does. *)
Definition with_size ts size (n : Inode) : Inode :=
  set_i_ctime ts (if size =? i_size n then n else set_i_mtime ts (set_i_size size n)).

(** What a change of size asks for. *)
Definition sizeable creds attrs (n n1 : Inode) : Prop :=
  is_Some (s_size attrs) -> i_kind n = File /\ access creds n1 ACCESS_W = Ok tt.

(** What setattr did. *)
Definition attrs_set creds ino attrs c c' (a : FileAttr) : Prop :=
  exists n n1 n' ts, node (store c) ino n /\ setattr_fields creds attrs ts n = Ok n1 /\
    node (store c') ino n' /\ a = make_attr ino n' /\ data_update n n' /\
    i_size n' = default (i_size n) (s_size attrs) /\
    n' = set_i_billed_bytes (i_billed_bytes n') (with_size ts (default (i_size n) (s_size attrs)) n1) /\
    sizeable creds attrs n n1 /\
    (forall x, content (store c') (v_chunk_size c) ino (i_size n') x =
       if x <? i_size n' then content (store c) (v_chunk_size c) ino (i_size n) x else 0) /\
    (forall k, (forall idx, k <> KChunk ino idx) -> k <> KInode ino -> k <> KQuotaBytes -> store c' !! k = store c !! k).

(** The inode after a change of size. *)
Definition resized_inode ts size d (n : Inode) : Inode :=
  set_i_ctime ts (set_i_mtime ts (set_i_billed_bytes (rebill (i_billed_bytes n) d) (set_i_size size n))).

Lemma resized_done creds ino attrs size ts c n n1 plan q e :
  Inv c -> node (store c) ino n -> i_kind n = File -> setattr_fields creds attrs ts n = Ok n1 ->
  s_size attrs = Some size -> size <> i_size n -> sizeable creds attrs n n1 -> 0 <= size <= max_size (v_chunk_size c) ->
  truncate_planned (store c) (v_chunk_size c) ino (i_size n) size plan ->
  let d := tp_billed_delta plan in
  let n' := resized_inode ts size d n1 in
  let b := data_batch ino (tail_ops ino (tp_tail_put plan) ++ delete_ops ino (tp_deletes plan)) n' d in
  q_bytes q = as_i64 (q_bytes (v_quota c) + d) -> q_inodes q = as_i64 (q_inodes (v_quota c) + 0) ->
  contents (e_db e) = apply_batch (store c) b ->
  let c' := set_eng e (set_attrs (ac_insert ino n' (v_attrs c)) (set_quota q c)) in
  Inv c' /\ attrs_set creds ino attrs c c' (make_attr ino n').
Proof.
  intros Hi Hn Hk Hf Hsz Hne Hgate Hsize [P1 P2 P3 P4 P5 P6 [P7 P8]] d n' b Hqb Hqi He c'.
  pose proof (setattr_fields_core _ _ _ _ _ Hf) as [Z1 Z2 Z3 Z4 Z5 Z6].
  destruct (rebill_exact c ino n _ _ d Hi Hn P1 P4) as (R1 & R2 & R3 & R4). rewrite <- Z5 in R1.
  set (xs := tail_ops ino (tp_tail_put plan) ++ delete_ops ino (tp_deletes plan)) in *.
  assert (apply_batch (store c) xs = truncate_chunks ino plan (store c)) as Ex by apply truncate_batch.
  assert (Forall (chunk_op ino) xs) as Hxs.
  { apply Forall_app. split; [|apply Forall_fmap, Forall_forall; done]. unfold tail_ops.
    destruct (tp_tail_put plan) as [[idx bs]|]; [|done]. constructor; [|done]. simpl. split; [done|]. by eapply P6. }
  assert (data_update n n') as Hdu by by split.
  assert (i_billed_bytes n' = i_billed_bytes n + d) as Hbn by (simpl; by rewrite R1, Z5).
  assert (file_ok (v_chunk_size c) (apply_batch (store c) xs) ino n') as Hok.
  { rewrite Ex. split; simpl; [done..|]. by rewrite R1, Z5. }
  assert (i_kind n <> Dir) as Hkd by congruence. split.
  - eapply inv_same; [apply (inv_data c ino n n' xs d q); try done; by rewrite Hbn|..]; try done.
    symmetry. etransitivity; [apply store_committed|]. by symmetry.
  - exists n, n1, n', ts. assert (store c' = apply_batch (store c) b) as Es by exact He. rewrite Es, Hsz. cbn [default].
    assert (forall k, k <> KInode ino -> k <> KQuotaBytes -> apply_batch (store c) b !! k = truncate_chunks ino plan (store c) !! k) as Hfr.
    { intros k H1 H2. rewrite <- Ex. by apply data_frame. }
    split_and!; try done; [|by unfold with_size, id; rewrite Z3, (proj2 (Z.eqb_neq _ _) Hne)|..].
    + unfold b. erewrite data_inodes by first [done|apply Hi]. apply lookup_insert_eq.
    + intros x. rewrite <- P3. apply content_agree. intros idx. by apply Hfr.
    + intros k H1 H2 H3. rewrite Hfr by done. by apply P5.
Qed.

Lemma touched_done creds ino attrs ts c n n1 :
  Inv c -> node (store c) ino n -> setattr_fields creds attrs ts n = Ok n1 -> default (i_size n) (s_size attrs) = i_size n ->
  sizeable creds attrs n n1 ->
  let c' := set_attrs (ac_insert ino (set_i_ctime ts n1) (v_attrs c)) (committed [Put (KInode ino) (VInode (set_i_ctime ts n1))] c) in
  Inv c' /\ attrs_set creds ino attrs c c' (make_attr ino (set_i_ctime ts n1)).
Proof.
  intros Hi Hn Hf Hsz Hgate c'. pose proof (setattr_fields_core _ _ _ _ _ Hf) as [Z1 Z2 Z3 Z4 Z5 Z6]. split.
  - by apply (inv_touch c ino n (set_i_ctime ts n1) []).
  - exists n, n1, (set_i_ctime ts n1), ts. assert (store c' = <[KInode ino := VInode (set_i_ctime ts n1)]> (store c)) as Es.
    { apply (store_committed [Put (KInode ino) (VInode (set_i_ctime ts n1))] c). }
    rewrite Es, Hsz. split_and!; try done; [apply lookup_insert_eq|by unfold with_size; rewrite Z3, Z.eqb_refl; destruct n1|..].
    + intros x. simpl. rewrite Z3, (content_agree (store c)) by (intros; by rewrite lookup_insert_ne).
      unfold content. destruct (Z.leb_spec 0 x), (Z.ltb_spec x (i_size n)); done.
    + intros k H1 H2 H3. by rewrite lookup_insert_ne.
Qed.

(** Why a setattr is refused. *)
Definition setattr_fails creds ino attrs c (e : FsError) : Prop :=
  stale_at c ino e \/
  (exists n ts, node (store c) ino n /\
     (setattr_fields creds attrs ts n = Err e \/
      (is_Some (s_size attrs) /\ i_kind n <> File /\ e = (if is_dir (i_kind n) then IsDir else Invalid)) \/
      (exists n1, is_Some (s_size attrs) /\ setattr_fields creds attrs ts n = Ok n1 /\ access creds n1 ACCESS_W = Err e))) \/
  (e = QuotaExceeded /\ exists d, refuses d 0 c).

(** A new size within the chunk index, and the deletes of one batch. *)
Definition fair_size G attrs ino c : Prop :=
  forall size, s_size attrs = Some size ->
    0 <= size <= max_size (v_chunk_size c) /\ (G \/ few_chunks (store c) (v_chunk_size c) ino size).

Lemma resize_tail G creds ino attrs size ts c n n1 plan q (P : Volume -> FileAttr -> Prop) E v :
  Inv c -> node (store c) ino n -> i_kind n = File -> setattr_fields creds attrs ts n = Ok n1 ->
  s_size attrs = Some size -> size <> i_size n -> sizeable creds attrs n n1 -> fair_size G attrs ino c ->
  truncate_planned (store c) (v_chunk_size c) ino (i_size n) size plan ->
  q_bytes q = as_i64 (q_bytes (v_quota c) + tp_billed_delta plan) -> q_inodes q = as_i64 (q_inodes (v_quota c) + 0) ->
  QuotaTracker.usage (QuotaTracker.release (tp_billed_delta plan) 0 q) = QuotaTracker.usage (v_quota c) ->
  calm G (set_quota q c) v ->
  (forall c' a, attrs_set creds ino attrs c c' a -> P c' a) ->
  let n' := resized_inode ts size (tp_billed_delta plan) n1 in
  wp (commit_or ((tail_ops ino (tp_tail_put plan) ++ delete_ops ino (take (Z.to_nat INLINE_DELETES) (tp_deletes plan)) ++
                  bill_merge (tp_billed_delta plan)) ++ [Put (KInode ino) (VInode n')]) (release (tp_billed_delta plan) 0) ;;;
      cache (ac_insert ino n') ;;;
      st_iter (fun group => commit ((fun idx => Delete (KChunk ino idx)) <$> group))
        (chunks_of 1024 (drop (Z.to_nat INLINE_DELETES) (tp_deletes plan))) ;;;
      st_ret (make_attr ino n')) (ends G c P E) v.
Proof.
  intros Hi Hn Hk Hf Hsz Hnesz Hgate Hfair Hplan Hqb Hqi Hrel Hc HP n'. destruct (Hfair size Hsz) as [Hsize Hshort].
  apply wp_bind. eapply wp_commit_release; [exact Hc|..].
  2: { intros e v1 Hc1 HG. injection Hrel as R1 R2. eapply ends_err; [|exact Hc1|done].
       apply (begun_quota c c); [by apply begun_refl|done..]. }
  intros v1 Hc1. apply wp_bind. eapply wp_cache; [exact Hc1|]. intros v2 Hc2. apply wp_bind.
  eapply wp_spill; [exact Hc2|..].
  - intros e v3 Hc3 He. apply wp_ret. rewrite concat_chunks_of in He by lia.
    change (store _) with (store (committed ((tail_ops ino (tp_tail_put plan) ++ delete_ops ino (take (Z.to_nat INLINE_DELETES) (tp_deletes plan)) ++
                  bill_merge (tp_billed_delta plan)) ++ [Put (KInode ino) (VInode n')]) c)) in He.
    rewrite store_committed, resize_store, take_drop in He.
    destruct (resized_done creds ino attrs size ts c n n1 plan q e Hi Hn Hk Hf Hsz Hnesz Hgate Hsize Hplan Hqb Hqi He) as [Hi3 Hset].
    eapply ends_ok; [exact Hc3|exact Hi3|done|done|]. by apply HP.
  - intros Hgs h v3 HG. destruct Hshort as [|Hfew]; [done|]. exfalso. apply Hgs.
    destruct (tpl_deletes _ _ _ _ _ _ Hplan) as [Hnd Hin]. specialize (Hfew _ Hnd Hin). unfold len in Hfew.
    rewrite drop_ge by lia. done.
Qed.

Lemma setattr_settles G creds ino attrs c v :
  (G -> alone others) -> Inv c -> roomy c -> calm G c v -> fair_size G attrs ino (calmed (after_wait others v)) ->
  wp (setattr others creds ino attrs)
    (settles G c (fun c1 c' a => attrs_set creds ino attrs c1 c' a) (setattr_fails creds ino attrs)) v.
Proof.
  intros Ha Hi Hr Hc Hfair. unfold setattr. eapply settles_lock_at; [done..|]. intros v1 E1 Hc1 Hi1 Hr1 _.
  rewrite <- E1 in Hfair. clear E1. set (c1 := calmed v1) in *. clearbody c1. pose proof (begun_refl c1 Hi1) as Hb.
  reading reads_load_inode; [done| |by left]. intros n v2 Hc2 Hn.
  apply wp_bind. eapply wp_now; [done|]. intros ts v3 Hc3.
  reading reads_guard; [|intros e _ He; right; left; exists n, ts; auto]. intros n1 v4 Hc4 Hf.
  pose proof (setattr_fields_core _ _ _ _ _ Hf) as [Z1 Z2 Z3 Z4 Z5 Z6].
  assert (default (i_size n) (s_size attrs) = i_size n -> sizeable creds attrs n n1 -> forall v', calm G c1 v' ->
    wp (commit_or ([] ++ [Put (KInode ino) (VInode (set_i_ctime ts n1))]) (release 0 0) ;;;
        cache (ac_insert ino (set_i_ctime ts n1)) ;;; st_ret tt ;;; st_ret (make_attr ino (set_i_ctime ts n1)))
      (ends G c1 (fun c' a => attrs_set creds ino attrs c1 c' a) (setattr_fails creds ino attrs c1)) v') as Hplain.
  { intros Hd Hg v' Hc'. destruct (touched_done creds ino attrs ts c1 n n1 Hi1 Hn Hf Hd Hg) as [Hi' Hset].
    apply wp_bind. eapply wp_commit_release; [exact Hc'|..].
    2: { intros e v5 Hc5 HG. destruct (inv_tracker c1 Hi1) as [T1 T2]. eapply ends_err; [|exact Hc5|done].
         apply (begun_quota c1 c1); [done|..]; simpl; rewrite Z.sub_0_r; by apply as_i64_small. }
    intros v5 Hc5. apply wp_bind. eapply wp_cache; [exact Hc5|]. intros v6 Hc6. apply wp_bind, wp_ret, wp_ret.
    by eapply ends_ok. }
  destruct (s_size attrs) as [size|] eqn:Hsz; [|apply wp_bind, wp_ret; apply Hplain; [done| |done]; intros Hs; rewrite Hsz in Hs; by destruct Hs].
  unfold setattr_size. apply wp_assoc.
  assert (reads c1 (check_file n1) (fun _ => i_kind n = File) (setattr_fails creds ino attrs c1)) as Hcf.
  { unfold check_file. rewrite Z1. destruct (i_kind n) eqn:Hk; try (by apply reads_ret);
      apply reads_fail; right; left; exists n, ts; (split; [done|]); right; left;
      (split_and!; [rewrite Hsz; eauto|by rewrite Hk|by rewrite Hk]). }
  reading Hcf; [|auto]. intros [] v5 Hc5 Hk. apply wp_assoc.
  reading reads_guard; [|intros e _ He; right; left; exists n, ts; split; [done|]; right; right; exists n1; rewrite Hsz; eauto].
  intros [] v6 Hc6 Hacc. assert (sizeable creds attrs n n1) as Hgate by done. rewrite Z3. destruct (Z.eqb_spec size (i_size n)) as [->|Hne]; simpl.
  { apply wp_bind, wp_ret. by apply Hplain. }
  apply wp_assoc, wp_get. replace (v_chunk_size v6) with (v_chunk_size c1) by (by rewrite <- (calm_eq _ _ _ Hc6)).
  destruct (Hfair size Hsz) as [Hsize _]. apply wp_assoc.
  reading (reads_plan_truncate c1 ino n size Hi1 Hr1 Hn); [lia| |done]. intros plan v7 Hc7 Hplan.
  apply wp_assoc, wp_bind. eapply wp_reserve; [done|]. intros t r q v8 Er Hc8. destruct r as [[]|e]; simpl.
  2: { pose proof (reserve_err _ _ _ _ _ _ (inv_tracker c1 Hi1) Er) as (-> & Eb & Ein & _).
       eapply ends_err; [by eapply begun_quota|exact Hc8|]. intros _. right. right. split; [done|].
       exists (tp_billed_delta plan), t. by rewrite Er. }
  destruct (reserve_ok _ _ _ _ _ Er) as (Eb & Ein & _). apply wp_bind, wp_ret.
  eapply (resize_tail G creds ino attrs size ts c1 n n1 plan q); try done.
  by eapply reserve_release; [by apply inv_tracker|].
Qed.

(** ** Read *)

Definition read_done creds ino off n c (bs : bytes) : Prop :=
  exists r, node (store c) ino r /\ i_kind r = File /\ access creds r ACCESS_R = Ok tt /\
    len bs = Z.max 0 (Z.min (i_size r) (off + n) - off) /\
    forall i, 0 <= i < len bs -> byte_at bs i = content (store c) (v_chunk_size c) ino (i_size r) (off + i).

(** At most the access time of [ino] has changed. *)
Definition atimed ino c c' : Prop :=
  store c' = store c \/
  exists n ts, node (store c) ino n /\ store c' = <[KInode ino := VInode (set_i_atime ts n)]> (store c).

Lemma reads_read_range c ino r off n :
  Inv c -> node (store c) ino r -> is_u64 off -> is_u32 n ->
  reads c (map_core (read_range (v_chunk_size c) ino (i_size r) off n))
    (fun bs => len bs = Z.max 0 (Z.min (i_size r) (off + n) - off) /\
       forall i, 0 <= i < len bs -> byte_at bs i = content (store c) (v_chunk_size c) ino (i_size r) (off + i)) never.
Proof.
  intros Hi Hn Hoff Hl. destruct (wf_data _ _ _ _ (inv_wf _ Hi) ino r Hn) as [[Hs0 Hs1] Hfit Htrim _].
  destruct (inv_cs _ Hi) as [C1 C2]. unfold is_u64, is_u32 in Hoff, Hl.
  apply reads_map_core; [apply steady_read_range|]. intros s Hs Hdb.
  destruct (Z.leb_spec (i_size r) off) as [Hle|Hgt].
  - exists []. unfold read_range. rewrite (proj2 (Z.leb_le _ _) Hle). simpl.
    split_and!; [done|unfold len; simpl; lia|unfold len; simpl; lia].
  - destruct (read_range_quiet (v_chunk_size c) ino (i_size r) off n s) as (out & Ho & Hlen & Hcont);
      rewrite ?Hdb; try done; try lia.
    + unfold max_size, U64_MAX in *. lia.
    + exists out. rewrite Hdb in Hcont. done.
Qed.

Lemma wp_get_noting G c k v (Q : result (Halt FsError) (option Value) -> Volume -> Prop) :
  calm G c v -> (forall o v', calm G c v' -> o = store c !! k \/ o = None -> Q (Ok o) v') -> wp (get_noting k) Q v.
Proof.
  intros [<- Hq] HQ. unfold wp, get_noting, Store.get, st_bind, poll.
  destruct v as [[db fl ck lg] sb h nm rl q al ht cs at_ ra w]; simpl in *.
  destruct fl as [|[e|] fl]; simpl; apply HQ; auto; try by split.
  - left. unfold store. simpl. by rewrite db_get_spec.
  - split; [done|]. intros HG. by destruct (Hq HG).
  - split; [done|]. intros HG. by destruct (Hq HG).
  - left. unfold store. simpl. by rewrite db_get_spec.
Qed.

(** The access-time update never fails an operation. *)
Lemma wp_maybe_atime G c ino n policy v (Q : result (Halt FsError) unit -> Volume -> Prop) :
  (G -> alone others) -> Inv c -> roomy c -> calm G c v ->
  (forall c1 c' v', calm G c' v' -> Inv c1 -> Inv c' -> (G -> at_rest c1 = at_rest c) -> v_names c1 = v_names c ->
     v_chunk_size c1 = v_chunk_size c -> v_names c' = v_names c1 -> v_chunk_size c' = v_chunk_size c1 ->
     atimed ino c1 c' -> Q (Ok tt) v') ->
  wp (maybe_update_atime others ino n policy) Q v.
Proof.
  intros Ha Hi Hr Hc HQ. unfold maybe_update_atime. apply wp_bind. eapply wp_now; [done|]. intros ts v1 Hc1.
  destruct (atime_update_due policy n ts); simpl; [|apply wp_ret; eapply (HQ c c); try done; by left].
  apply wp_bind. eapply wp_lock; [done..|]. intros c1 v2 Hc2 Hi1 Hr1 Hn1 Hcs1 Hw1.
  assert (G -> at_rest c1 = at_rest c) as Hrest by (intros HG; by rewrite (Hw1 HG)).
  assert (forall v', calm G c1 v' -> Q (Ok tt) v') as Hsame by (intros; eapply (HQ c1 c1); try done; by left).
  apply wp_bind. eapply wp_get_noting; [done|]. intros o v3 Hc3 Ho. destruct o as [x|]; [|apply wp_ret; auto].
  destruct Ho as [Ho|]; [|done]. symmetry in Ho. destruct (inv_node c1 ino x Hi1 Ho) as [r ->]. simpl.
  destruct (atime_update_due policy r ts); [|apply wp_ret; auto].
  apply wp_bind, wp_try. eapply wp_commit; [done|..]; [|intros e v4 Hc4 HG; apply wp_ret; auto].
  intros v4 Hc4. simpl. eapply wp_cache; [done|]. intros v5 Hc5.
  eapply (HQ c1); [exact Hc5|done| |done..|].
  - by apply (inv_touch c1 ino r (set_i_atime ts r) []).
  - right. exists r, ts. split; [done|]. exact (store_committed [Put (KInode ino) (VInode (set_i_atime ts r))] c1).
Qed.

Lemma wp_plan_readahead G c ino off endo size v (Q : result (Halt FsError) unit -> Volume -> Prop) :
  calm G c v -> (forall ra v', calm G (set_readahead ra c) v' -> Q (Ok tt) v') -> wp (plan_readahead ino off endo size) Q v.
Proof.
  intros Hc HQ. unfold plan_readahead. case_match.
  - apply wp_ret. apply (HQ (v_readahead c)). by destruct c.
  - unfold wp, st_modify. eapply HQ. destruct Hc as [<- Hq]. by split.
Qed.

Lemma read_settles G creds ino off n policy c v :
  (G -> alone others) -> Inv c -> roomy c -> calm G c v -> is_u64 off -> is_u32 n ->
  wp (read_with_atime_policy others creds ino off n policy)
    (settles G c (fun c1 c' bs => read_done creds ino off n c bs /\ atimed ino c1 c')
       (fun c1 e => stale_at c1 ino e \/ denied_at creds c1 ino ACCESS_R e \/
          exists r, node (store c1) ino r /\ i_kind r <> File /\ e = (if is_dir (i_kind r) then IsDir else Invalid))) v.
Proof.
  intros Ha Hi Hr Hc Hoff Hn. unfold read_with_atime_policy. apply wp_bind. eapply wp_load_cached; [done..| |].
  2: { intros h v1 Hc1 Hh. exists c. split_and!; try done. eapply ends_err; [by apply begun_refl|done|].
       destruct h; [|done]. intros HG. left. by apply Hh. }
  intros r a v1 Hn1 Hc1 Hi1. set (ca := set_attrs a c) in *.
  apply (settles_trans G c ca); [done..|].
  assert (reads ca (check_file r) (fun _ => i_kind r = File)
    (fun e => i_kind r <> File /\ e = if is_dir (i_kind r) then IsDir else Invalid)) as Hcf.
  { unfold check_file. destruct (i_kind r); try (by apply reads_ret); by apply reads_fail. }
  reading Hcf; [|intros e _ [H1 H2]; right; right; eauto]. intros [] v2 Hc2 Hk.
  reading reads_guard; [|intros e _ He; right; left; by eapply (denied_of creds ca)]. intros [] v3 Hc3 Hacc.
  apply wp_get. replace (v_chunk_size v3) with (v_chunk_size ca) by (by rewrite <- (calm_eq _ _ _ Hc3)).
  reading (reads_read_range ca ino r off n Hi1 Hn1 Hoff Hn); [|done]. intros bs v4 Hc4 [Hlen Hbs].
  apply wp_bind. eapply wp_plan_readahead; [done|]. intros ra v5 Hc5. apply wp_bind.
  eapply wp_maybe_atime; [done| | |exact Hc5|].
  - eapply inv_same; [exact Hi1|done..].
  - exact Hr.
  - intros c1 c' v6 Hc6 I1 I2 Hrest N1 N2 N3 N4 Hat. apply wp_ret. exists c1. split_and!; try done.
    eapply ends_ok; try done. split; [|done]. by exists r.
Qed.
End data_ops.
