(* ===== verification/OpsHandle.v ===== *)
(** Open handles and byte-range lock calls on a mounted volume. *)

From S2P Require Import Prelude Keys Meta Store Data Quota Locks Volume Vfs Tree Wf WfOps VfsLogic VfsInv Reap.
From S2P Require Import OpsAttr OpsRead OpsCreate OpsRemove.

(** * The handle table *)

(** The handles open on [ino]. *)
Definition handles_on (t : HandleTable) (ino : u64) : Z :=
  msum (fun (_ : u64) (x : u64 * OpenMode) => if x.1 =? ino then 1 else 0) (ht_by_handle t).

(** The counts are the numbers of handles, and no handle number lies ahead. *)
Record handles_ok (t : HandleTable) : Prop := {
  ho_count ino : ht_open_count t !! ino = (if handles_on t ino =? 0 then None else Some (handles_on t ino));
  ho_next h x : ht_by_handle t !! h = Some x -> h <= ht_next t;
  ho_nonneg : 0 <= ht_next t
}.

(** Neither the handle numbers nor a count is about to wrap. *)
Definition handles_room (t : HandleTable) : Prop :=
  ht_next t < U64_MAX /\ forall ino, handles_on t ino < U32_MAX.

Lemma handles_on_nonneg t ino : 0 <= handles_on t ino.
Proof. apply msum_nonneg. intros h x. simpl. destruct (x.1 =? ino); lia. Qed.

Lemma handles_on_get t h ino mode : HandleTable.get h t = Some (ino, mode) -> 1 <= handles_on t ino.
Proof.
  intros Hh. pose proof (msum_ge (fun (_ : u64) (x : u64 * OpenMode) => if x.1 =? ino then 1 else 0) (ht_by_handle t) h
    (ino, mode) ltac:(intros k x; simpl; destruct (x.1 =? ino); lia) Hh) as H. simpl in H. rewrite Z.eqb_refl in H. exact H.
Qed.

Lemma handles_empty : handles_ok HandleTable.empty.
Proof. split; [done|intros h x; simpl; by rewrite lookup_empty|done]. Qed.

Lemma open_handles_ok ino mode t :
  handles_ok t -> handles_room t ->
  let '(h, t') := HandleTable.open ino mode t in
  handles_ok t' /\ HandleTable.get h t = None /\ HandleTable.get h t' = Some (ino, mode) /\
  (forall h', h' <> h -> HandleTable.get h' t' = HandleTable.get h' t).
Proof.
  intros [Hc Hn H0] [Hx Hm]. unfold HandleTable.open, HandleTable.get, U64_MAX in *. simpl.
  rewrite (as_u64_small (ht_next t + 1)) by (unfold is_u64; lia).
  assert (ht_by_handle t !! (ht_next t + 1) = None) as Hfresh.
  { destruct (ht_by_handle t !! (ht_next t + 1)) eqn:E; [|done]. apply Hn in E. lia. }
  assert (forall j, handles_on {| ht_next := ht_next t + 1; ht_by_handle := <[ht_next t + 1 := (ino, mode)]> (ht_by_handle t);
      ht_open_count := <[ino := as_u32 (default 0 (ht_open_count t !! ino) + 1)]> (ht_open_count t) |} j =
    handles_on t j + if ino =? j then 1 else 0) as Hon.
  { intros j. unfold handles_on. simpl. rewrite msum_insert, Hfresh. simpl. lia. }
  split_and!; [split|..]; simpl; try done.
  - intros j. rewrite Hon. pose proof (handles_on_nonneg t ino). specialize (Hm ino). unfold U32_MAX in Hm.
    destruct (Z.eqb_spec ino j) as [<-|Hne].
    + rewrite lookup_insert_eq, Hc. destruct (Z.eqb_spec (handles_on t ino + 1) 0); [lia|].
      destruct (Z.eqb_spec (handles_on t ino) 0) as [E|E]; simpl; [by rewrite E|].
      rewrite as_u32_small by (unfold is_u32; lia). done.
    + rewrite lookup_insert_ne by done. by rewrite Z.add_0_r.
  - intros h x [[<- _]|[_ Hh]]%lookup_insert_Some; [lia|]. apply Hn in Hh. lia.
  - lia.
  - apply lookup_insert_eq.
  - intros h' Hne. by rewrite lookup_insert_ne.
Qed.

Lemma close_handles_ok h ino mode t :
  handles_ok t -> handles_room t -> HandleTable.get h t = Some (ino, mode) ->
  exists last t', HandleTable.close h t = (Some (ino, mode, last), t') /\ handles_ok t' /\
    HandleTable.get h t' = None /\ (forall h', h' <> h -> HandleTable.get h' t' = HandleTable.get h' t) /\
    (last = true <-> HandleTable.is_open ino t' = false).
Proof.
  intros [Hc Hn H0] [Hx Hm] Hget. pose proof (handles_on_get t h ino mode Hget) as Hpos. specialize (Hm ino).
  unfold HandleTable.get in *. unfold HandleTable.close. rewrite Hget, (Hc ino). unfold U32_MAX in Hm.
  destruct (Z.eqb_spec (handles_on t ino) 0); [lia|].
  rewrite (as_u32_small (handles_on t ino - 1)) by (unfold is_u32; lia). do 2 eexists. split; [done|].
  set (t' := {| ht_next := _ |}).
  assert (forall j, handles_on t' j = handles_on t j - if ino =? j then 1 else 0) as Hon.
  { intros j. unfold handles_on, t'. simpl. rewrite msum_delete, Hget. simpl. lia. }
  split_and!; [split|..]; simpl; try done.
  - intros j. rewrite Hon. destruct (Z.eqb_spec ino j) as [<-|Hne].
    + destruct (Z.eqb_spec (handles_on t ino - 1) 0); [by rewrite lookup_delete_eq|by rewrite lookup_insert_eq].
    + rewrite Z.sub_0_r. destruct (handles_on t ino - 1 =? 0); [rewrite lookup_delete_ne by done|rewrite lookup_insert_ne by done]; apply Hc.
  - intros h' x [_ Hh]%lookup_delete_Some. by eapply Hn.
  - apply lookup_delete_eq.
  - intros h' Hne. by rewrite lookup_delete_ne.
  - unfold HandleTable.is_open. simpl.
    destruct (Z.eqb_spec (handles_on t ino - 1) 0); [rewrite lookup_delete_eq|rewrite lookup_insert_eq]; done.
Qed.

Lemma is_open_iff t ino : handles_ok t -> HandleTable.is_open ino t = true <-> exists h mode, HandleTable.get h t = Some (ino, mode).
Proof.
  intros Ht. unfold HandleTable.is_open. rewrite (ho_count t Ht ino). split.
  - destruct (Z.eqb_spec (handles_on t ino) 0) as [|E]; [done|]. intros _. pose proof (handles_on_nonneg t ino).
    destruct (msum_pos (fun (_ : u64) (x : u64 * OpenMode) => if x.1 =? ino then 1 else 0) (ht_by_handle t)) as (h & [i mode] & Hh & Hp).
    + intros h x. simpl. destruct (x.1 =? ino); lia.
    + fold (handles_on t ino). lia.
    + simpl in Hp. destruct (Z.eqb_spec i ino) as [->|]; [|lia]. by exists h, mode.
  - intros (h & mode & Hh). pose proof (handles_on_get t h ino mode Hh). by destruct (Z.eqb_spec (handles_on t ino) 0); [lia|].
Qed.

(** * The calls *)

Section handle_ops.
Context {DB : SlateDB} {AC : MokaCache u64 Inode} {NC : MokaCache (u64 * bytes) unit}
  {NCR : NameCrypto}.
Implicit Types (c : Volume) (G : Prop).

Definition open_want (mode : OpenMode) : u32 :=
  match mode with ORead => ACCESS_R | OWrite => ACCESS_W | OReadWrite => Z.lor ACCESS_R ACCESS_W end.

Lemma open_settles G creds ino mode c v :
  Inv c -> calm G c v ->
  wp (open_ creds ino mode)
    (settles G c (fun c1 c' h => (exists n, node (store c1) ino n /\ access creds n (open_want mode) = Ok tt) /\
                    HandleTable.open ino mode (v_handles c1) = (h, v_handles c') /\ store c' = store c1)
       (fun c1 e => stale_at c1 ino e \/ denied_at creds c1 ino (open_want mode) e)) v.
Proof.
  intros Hi Hc. unfold open_. reading reads_load_inode; [done| |by left]. intros n v1 Hc1 Hn.
  reading reads_guard; [|intros e _ He; right; by eapply denied_of]. intros [] v2 [<- Hq2] Hacc.
  unfold wp. destruct (HandleTable.open ino mode (v_handles v2)) as [h t] eqn:Ho.
  exists (calmed v2). split_and!; try done. eapply (ends_ok _ _ (set_handles t (calmed v2))); try done.
  - by apply (inv_shut (calmed v2) t (v_range_locks (calmed v2))).
  - split_and!; [by exists n|exact Ho|done].
Qed.

(** The inode of a handle, for a non-empty range. *)
Lemma reads_lock_target c h s e :
  reads c (lock_target h s e) (fun ino => s < e /\ exists mode, HandleTable.get h (v_handles c) = Some (ino, mode))
    (fun err => (err = Invalid /\ e <= s) \/ (err = BadHandle /\ HandleTable.get h (v_handles c) = None)).
Proof.
  eapply reads_bind; [eapply reads_mono; [apply reads_live|done|done]|]. intros _ _. destruct (Z.leb_spec e s).
  { apply reads_fail. by left. }
  apply reads_get. intros v <-. simpl. destruct (HandleTable.get h (v_handles v)) as [[ino mode]|].
  - apply reads_ret. eauto.
  - apply reads_fail. by right.
Qed.

Lemma lock_settles G h s e excl c v :
  Inv c -> calm G c v ->
  wp (lock h s e excl)
    (settles G c (fun c1 c' _ => store c' = store c1 /\ exists ino mode, HandleTable.get h (v_handles c1) = Some (ino, mode) /\
        RangeLockTable.try_lock ino {| rl_owner := h; rl_range := {| lr_start := s; lr_end := e |}; rl_exclusive := excl |}
          (v_range_locks c1) = (Ok tt, v_range_locks c'))
       (fun c1 err => (err = Invalid /\ e <= s) \/ (err = BadHandle /\ HandleTable.get h (v_handles c1) = None) \/
                      err = WouldBlock)) v.
Proof.
  intros Hi Hc. unfold lock. reading reads_lock_target; [|intros err _ [|]; auto].
  intros ino v1 [<- Hq1] [Hs [mode Hh]]. unfold wp.
  destruct (RangeLockTable.try_lock _ _ (v_range_locks v1)) as [[[]|err] t] eqn:Et; simpl; exists (calmed v1); split_and!; try done.
  - eapply (ends_ok _ _ (set_range_locks t (calmed v1))); try done; [|eauto].
    by apply (inv_shut (calmed v1) (v_handles (calmed v1)) t).
  - eapply (ends_err _ _ (set_range_locks t (calmed v1))); [|by split|auto].
    split; try done. by apply (inv_shut (calmed v1) (v_handles (calmed v1)) t).
Qed.

Lemma unlock_settles G h s e c v :
  Inv c -> calm G c v ->
  wp (unlock h s e)
    (settles G c (fun c1 c' _ => store c' = store c1 /\ exists ino mode, HandleTable.get h (v_handles c1) = Some (ino, mode) /\
        v_range_locks c' = RangeLockTable.unlock ino h {| lr_start := s; lr_end := e |} (v_range_locks c1))
       (fun c1 err => (err = Invalid /\ e <= s) \/ (err = BadHandle /\ HandleTable.get h (v_handles c1) = None))) v.
Proof.
  intros Hi Hc. unfold unlock. reading reads_lock_target; [|done]. intros ino v1 [<- Hq1] [Hs [mode Hh]].
  unfold wp, st_modify. exists (calmed v1). split_and!; try done.
  set (t := RangeLockTable.unlock _ _ _ _). eapply (ends_ok _ _ (set_range_locks t (calmed v1))); try done; [|eauto].
  by apply (inv_shut (calmed v1) (v_handles (calmed v1)) t).
Qed.

Lemma testlock_settles G h s e excl c v :
  Inv c -> calm G c v ->
  wp (testlock h s e excl)
    (settles G c (fun c1 c' r => (exists ino mode, HandleTable.get h (v_handles c1) = Some (ino, mode) /\
        r = (fun l => (lr_start (rl_range l), lr_end (rl_range l), rl_exclusive l)) <$>
          RangeLockTable.test ino {| rl_owner := h; rl_range := {| lr_start := s; lr_end := e |}; rl_exclusive := excl |}
            (v_range_locks c1)) /\ store c' = store c1)
       (fun c1 err => (err = Invalid /\ e <= s) \/ (err = BadHandle /\ HandleTable.get h (v_handles c1) = None))) v.
Proof.
  intros Hi Hc. apply (settles_of_reads c (testlock h s e excl) (fun c1 r => exists ino mode, HandleTable.get h (v_handles c1) = Some (ino, mode) /\
        r = (fun l => (lr_start (rl_range l), lr_end (rl_range l), rl_exclusive l)) <$>
          RangeLockTable.test ino {| rl_owner := h; rl_range := {| lr_start := s; lr_end := e |}; rl_exclusive := excl |}
            (v_range_locks c1)) (fun c1 err => (err = Invalid /\ e <= s) \/ (err = BadHandle /\ HandleTable.get h (v_handles c1) = None))); [|done..].
  unfold testlock. eapply reads_bind; [apply reads_lock_target|]. intros ino [Hs [mode Hh]].
  apply reads_get. intros v' <-. apply reads_ret. eauto.
Qed.

Lemma fsync_settles G c v :
  Inv c -> calm G c v ->
  wp fsync (settles G c (fun c1 c' _ => store c' = store c1) (fun _ _ => False)) v.
Proof.
  intros Hi Hc. apply settles_ends; [done|]. apply wp_bind. eapply wp_live; [done|..]; simpl.
  - intros _ Hd. eapply wp_flush; [done|done| |].
    + intros v' Hv'. eapply ends_ok; [done|by apply inv_flushed|done|done|apply store_flushed].
    + intros e v' Hv' HG. by eapply ends_not.
  - intros e HG. by eapply ends_not.
Qed.
End handle_ops.
