(* ===== verification/System.v ===== *)
(** The whole interface of a mounted volume, as one transition system.

    [call] lists the operations of the [Vfs] trait with their arguments; a run
    is any sequence of calls, each with storage faults at any engine call and
    with other tasks running whenever it waits for locks. *)

From S2P Require Import Prelude Keys Meta Store Data Quota Locks Volume Vfs Tree Wf WfOps VfsLogic VfsInv Reap.
From S2P Require Import OpsAttr OpsRead OpsCreate OpsRemove OpsRename OpsData OpsHandle.

Inductive call : Type :=
| CGetattr (ino : u64)
| CLookup (creds : Credentials) (parent : u64) (name : bytes)
| CReaddir (creds : Credentials) (parent cookie : u64) (max_entries : usize)
| CReadlink (ino : u64)
| CGetxattr (creds : Credentials) (ino : u64) (name : bytes)
| CListxattr (creds : Credentials) (ino : u64)
| CPermissions (creds : Credentials) (ino : u64) (parent : option (u64 * bytes))
| CStatfs
| CFsync
| CRead (creds : Credentials) (ino offset : u64) (length : u32) (policy : AtimeMode)
| CWrite (creds : Credentials) (ino offset : u64) (data : bytes)
| CSetattr (creds : Credentials) (ino : u64) (attrs : SetAttrs)
| CCreate (creds : Credentials) (parent : u64) (name : bytes) (mode : u32) (exclusive : bool)
| CMkdir (creds : Credentials) (parent : u64) (name : bytes) (mode : u32)
| CMknod (creds : Credentials) (parent : u64) (name : bytes) (mode : u32) (kind : FileKind) (rdev : u64)
| CSymlink (creds : Credentials) (parent : u64) (name target : bytes)
| CLink (creds : Credentials) (ino new_parent : u64) (new_name : bytes)
| CUnlink (creds : Credentials) (parent : u64) (name : bytes)
| CRmdir (creds : Credentials) (parent : u64) (name : bytes)
| CRename (creds : Credentials) (old_parent : u64) (old_name : bytes) (new_parent : u64) (new_name : bytes)
| CSetxattr (creds : Credentials) (ino : u64) (name value : bytes)
| CRemovexattr (creds : Credentials) (ino : u64) (name : bytes)
| COpen (creds : Credentials) (ino : u64) (mode : OpenMode)
| CClose (handle : u64)
| CLock (handle start endo : u64) (exclusive : bool)
| CUnlock (handle start endo : u64)
| CTestlock (handle start endo : u64) (exclusive : bool).

Section system.
Context {DB : SlateDB} {AC : MokaCache u64 Inode} {NC : MokaCache (u64 * bytes) unit}
  {NCR : NameCrypto}.
Context (others : nat -> Volume -> Volume) (fuel : nat).
Implicit Types (v : Volume).

(** Drop the value of an operation. *)
Definition void {A} (m : FsM A) : FsM unit := m ;;; st_ret tt.

Definition run (k : call) : FsM unit :=
  match k with
  | CGetattr ino => void (getattr ino)
  | CLookup creds parent name => void (lookup creds parent name)
  | CReaddir creds parent cookie max => void (readdir creds parent cookie max)
  | CReadlink ino => void (readlink ino)
  | CGetxattr creds ino name => void (getxattr creds ino name)
  | CListxattr creds ino => void (listxattr creds ino)
  | CPermissions creds ino parent => void (permissions creds ino parent)
  | CStatfs => void statfs
  | CFsync => fsync
  | CRead creds ino off n policy => void (read_with_atime_policy others creds ino off n policy)
  | CWrite creds ino off data => void (write others creds ino off data)
  | CSetattr creds ino attrs => void (setattr others creds ino attrs)
  | CCreate creds parent name mode excl => void (create others creds parent name mode excl)
  | CMkdir creds parent name mode => void (mkdir others creds parent name mode)
  | CMknod creds parent name mode kind rdev => void (mknod others creds parent name mode kind rdev)
  | CSymlink creds parent name target => void (symlink others creds parent name target)
  | CLink creds ino parent name => void (link others creds ino parent name)
  | CUnlink creds parent name => unlink others fuel creds parent name
  | CRmdir creds parent name => rmdir others fuel creds parent name
  | CRename creds op on np nn => rename others fuel creds op on np nn
  | CSetxattr creds ino name value => setxattr others creds ino name value
  | CRemovexattr creds ino name => removexattr others creds ino name
  | COpen creds ino mode => void (open_ creds ino mode)
  | CClose h => close others fuel h
  | CLock h s e excl => lock h s e excl
  | CUnlock h s e => unlock h s e
  | CTestlock h s e excl => void (testlock h s e excl)
  end.

(** What the caller must respect: the arguments are within their widths, a
    hard link is not made to an inode whose last link is gone, and a new file
    size is addressable and frees no more chunks than one batch deletes. *)
Definition fair (k : call) v : Prop :=
  match k with
  | CReaddir _ _ cookie max => is_u64 cookie /\ 0 <= max
  | CRead _ _ off n _ => is_u64 off /\ is_u32 n
  | CWrite _ _ off _ => is_u64 off
  | CSetattr _ ino attrs => fair_size False attrs ino (calmed (after_wait others v))
  | CLink _ ino _ _ => forall n, node (store (after_wait others v)) ino n -> i_nlink n <> 0
  | _ => True
  end.

(** A run of calls. *)
Inductive runs : Volume -> Volume -> Prop :=
  | runs_done v : runs v v
  | runs_call k v r v1 v2 : roomy v -> fair k v -> run k v = (r, v1) -> runs v1 v2 -> runs v v2.

(** ** Every call preserves the invariant *)

Lemma settles_inv G c {A} (m : FsM A) P E v : wp m (settles G c P E) v -> wp m (fun _ v' => Inv v') v.
Proof. intros Hm. eapply wp_mono; [exact Hm|]. intros r v' (c1 & _ & _ & _ & _ & Hi & _). exact Hi. Qed.

Lemma void_inv {A} (m : FsM A) v : wp m (fun _ v' => Inv v') v -> wp (void m) (fun _ v' => Inv v') v.
Proof.
  intros Hm. apply wp_bind. eapply wp_mono; [exact Hm|]. intros [a|e] v' Hi; [by apply wp_ret|done].
Qed.

Lemma close_inv h v :
  rely others -> Inv v -> roomy v -> wp (close others fuel h) (fun _ v' => Inv v') v.
Proof.
  intros Hrely Hi Hr. destruct (HandleTable.close h (v_handles v)) as [[[[ino mode] last]|] t] eqn:Ht.
  - eapply settles_inv. apply (close_settles others Hrely fuel False h ino mode last t (calmed v)); try done.
    + by apply inv_calmed.
  - unfold wp, close, st_bind. rewrite Ht. simpl. by apply (inv_shut v t (v_range_locks v)).
Qed.

Lemma run_inv k v : rely others -> Inv v -> roomy v -> fair k v -> wp (run k) (fun _ v' => Inv v') v.
Proof.
  intros Hrely Hi Hr Hf. assert (Inv (calmed v)) as Hic by (by apply inv_calmed).
  assert (roomy (calmed v)) as Hrc by exact Hr. assert (calm False (calmed v) v) as Hc by (by split).
  assert (forall G : Prop, (G -> False) -> G -> alone others) as Ha by (intros ? H ?; by destruct H).
  assert (undisturbed others fuel False (calmed v)) as Hu by (by split).
  destruct k; cbn [run fair] in *; try apply void_inv; try (by apply close_inv); eapply settles_inv.
  all: try match goal with
    | |- wp (getattr _) _ _ => by apply (getattr_settles False)
    | |- wp (lookup _ _ _) _ _ => by apply (lookup_settles False)
    | |- wp (readdir _ _ _ _) _ _ => by apply (readdir_settles False); try apply Hf
    | |- wp (readlink _) _ _ => by apply (readlink_settles False)
    | |- wp (getxattr _ _ _) _ _ => by apply (getxattr_settles False)
    | |- wp (listxattr _ _) _ _ => by apply (listxattr_settles False)
    | |- wp (permissions _ _ _) _ _ => by apply (permissions_settles False)
    | |- wp statfs _ _ => by apply (statfs_settles False)
    | |- wp fsync _ _ => by apply (fsync_settles False)
    | |- wp (read_with_atime_policy _ _ _ _ _ _) _ _ => by apply (read_settles others Hrely False); try apply Hf
    | |- wp (write _ _ _ _ _) _ _ => by apply (write_settles others Hrely False)
    | |- wp (setattr _ _ _ _) _ _ => by apply (setattr_settles others Hrely False)
    | |- wp (create _ _ _ _ _ _) _ _ => by apply (create_settles others Hrely False)
    | |- wp (mkdir _ _ _ _ _) _ _ => by apply (mkdir_settles others Hrely False)
    | |- wp (mknod _ _ _ _ _ _ _) _ _ => by apply (mknod_settles others Hrely False)
    | |- wp (symlink _ _ _ _ _) _ _ => by apply (symlink_settles others Hrely False)
    | |- wp (link _ _ _ _ _) _ _ => by apply (link_settles others Hrely False)
    | |- wp (unlink _ _ _ _ _) _ _ => by apply (unlink_settles others Hrely fuel False)
    | |- wp (rmdir _ _ _ _ _) _ _ => by apply (rmdir_settles others Hrely fuel False)
    | |- wp (rename _ _ _ _ _ _ _) _ _ => by apply (rename_settles others Hrely fuel False)
    | |- wp (setxattr _ _ _ _ _) _ _ => by apply (setxattr_settles others Hrely False)
    | |- wp (removexattr _ _ _ _) _ _ => by apply (removexattr_settles others Hrely False)
    | |- wp (open_ _ _ _) _ _ => by apply (open_settles False)
    | |- wp (lock _ _ _ _) _ _ => by apply (lock_settles False)
    | |- wp (unlock _ _ _) _ _ => by apply (unlock_settles False)
    | |- wp (testlock _ _ _ _) _ _ => by apply (testlock_settles False)
    end.
Qed.
(** ** Sequences of calls *)

(** The volume after a sequence of calls of its interface. *)
Fixpoint run_all (ks : list call) v : Volume :=
  match ks with [] => v | k :: ks => run_all ks (run k v).2 end.

Lemma run_all_app ks ks' v : run_all (ks ++ ks') v = run_all ks' (run_all ks v).
Proof. revert v. induction ks as [|k ks IH]; intros v; [done|]. apply IH. Qed.

(** The identity a call is made with. *)
Definition call_creds (k : call) : option Credentials :=
  match k with
  | CLookup c _ _ | CReaddir c _ _ _ | CGetxattr c _ _ | CListxattr c _ | CPermissions c _ _ | CRead c _ _ _ _ | CWrite c _ _ _
  | CSetattr c _ _ | CCreate c _ _ _ _ | CMkdir c _ _ _ | CMknod c _ _ _ _ _ | CSymlink c _ _ _ | CLink c _ _ _ | CUnlink c _ _
  | CRmdir c _ _ | CRename c _ _ _ _ | CSetxattr c _ _ _ | CRemovexattr c _ _ | COpen c _ _ => Some c
  | _ => None
  end.

Lemma call_state {A} (m : FsM A) v : (void m v).2 = (m v).2.
Proof. unfold void, st_bind. by destruct (m v) as [[a|e] v']. Qed.

End system.

(** The call of the interface that an operation is. *)
Ltac call_of m :=
  lazymatch m with
  | getattr ?i => constr:(CGetattr i)
  | lookup ?c ?p ?n => constr:(CLookup c p n)
  | readdir ?c ?p ?k ?m => constr:(CReaddir c p k m)
  | readlink ?i => constr:(CReadlink i)
  | getxattr ?c ?i ?n => constr:(CGetxattr c i n)
  | listxattr ?c ?i => constr:(CListxattr c i)
  | statfs => constr:(CStatfs)
  | fsync => constr:(CFsync)
  | read_with_atime_policy _ ?c ?i ?o ?n ?p => constr:(CRead c i o n p)
  | write _ ?c ?i ?o ?d => constr:(CWrite c i o d)
  | setattr _ ?c ?i ?a => constr:(CSetattr c i a)
  | create _ ?c ?p ?n ?m ?e => constr:(CCreate c p n m e)
  | mkdir _ ?c ?p ?n ?m => constr:(CMkdir c p n m)
  | mknod _ ?c ?p ?n ?m ?k ?r => constr:(CMknod c p n m k r)
  | symlink _ ?c ?p ?n ?t => constr:(CSymlink c p n t)
  | link _ ?c ?i ?p ?n => constr:(CLink c i p n)
  | unlink _ _ ?c ?p ?n => constr:(CUnlink c p n)
  | rmdir _ _ ?c ?p ?n => constr:(CRmdir c p n)
  | rename _ _ ?c ?a ?b ?d ?e => constr:(CRename c a b d e)
  | setxattr _ ?c ?i ?n ?w => constr:(CSetxattr c i n w)
  | open_ ?c ?i ?m => constr:(COpen c i m)
  | close _ _ ?h => constr:(CClose h)
  | lock ?h ?s ?e ?b => constr:(CLock h s e b)
  | unlock ?h ?s ?e => constr:(CUnlock h s e)
  | testlock ?h ?s ?e ?b => constr:(CTestlock h s e b)
  end.
