(* ===== verification/Mount.v ===== *)
(** Creating and opening a volume ([volume.rs]): mkfs writes a well-formed
    store, and open, which reaps what a crash left and loads the counters and
    the allocator, establishes the invariant of a mounted volume. *)

From S2P Require Import Prelude Keys Meta Store Data Quota Locks Volume Vfs Tree Wf WfOps VfsLogic VfsInv Reap.
From S2P Require Import OpsAttr OpsRead OpsCreate OpsRemove.

Section recovery.
Context {DB : SlateDB} {NCR : NameCrypto} (names : NameCodec) (cs nx : u64) (fuel : nat).
Implicit Types (m : gmap Key Value) (H : Prop).

(** ** One orphan *)

Lemma settled_wf ino m m1 : wf names cs nx m -> settled ino m m1 -> wf names cs nx m1 /\ m1 !! KInode ino = None.
Proof.
  intros Hwf [Hg|n Hn Ho]; [done|]. split; [by apply wf_settle|].
  rewrite (apply_ops_on is_inode_key) by done. unfold apply_batch. simpl. apply lookup_delete_eq.
Qed.

Lemma settled_other ino m m1 k :
  settled ino m m1 -> k <> KInode ino -> k <> KQuotaBytes -> k <> KQuotaInodes -> m1 !! k = m !! k.
Proof.
  intros [Hg|n Hn Ho] H1 H2 H3; [done|]. apply apply_batch_frame. unfold settle_batch. forall_ops; congruence.
Qed.

Lemma finished_other ino m m' k :
  finished ino m m' -> k <> KInode ino -> ~ data_of ino k -> k <> KQuotaBytes -> k <> KQuotaInodes -> m' !! k = m !! k.
Proof.
  intros (m1 & Hs & Hp & _) H1 H2 H3 H4. rewrite (pruned_other ino m1 m' k Hp H2). by eapply settled_other.
Qed.

Lemma finished_gone ino m m' : wf names cs nx m -> finished ino m m' -> m' !! KInode ino = None /\ m' !! KOrphan ino = None.
Proof.
  intros Hwf (m1 & Hs & Hp & Hall). destruct (settled_wf _ _ _ Hwf Hs) as [_ Hg]. split; [|apply Hall; unfold data_of; auto].
  rewrite (pruned_other ino m1 m'); [done|done|]. by intros [[? ?]|[[? ?]|[?|?]]].
Qed.

Lemma settled_size ino m m1 : settled ino m m1 -> (base.size m1 <= base.size m + 3)%nat.
Proof.
  intros [Hg|n Hn Ho]; [lia|]. pose proof (apply_batch_size m (settle_batch ino n)) as Hs. change (length (settle_batch ino n)) with 3%nat in Hs. lia.
Qed.

Lemma wp_reap_one H ino m s :
  wf names cs nx m -> 0 <= ino < U64_MAX -> is_Some (m !! KOrphan ino) \/ m !! KInode ino = None ->
  holds_db H m s -> (H -> (base.size m + 3 < fuel)%nat) ->
  wp (reap_one fuel ino) (fun r s' => exists m', holds_db H m' s' /\ wf names cs nx m' /\
    match r with Ok _ => finished ino m m' | Err _ => ~ H end) s.
Proof.
  intros Hwf Hino Ho Hs Hfuel. unfold reap_one. apply wp_bind.
  eapply (wp_h_read H m s _ (fun o => o = m !! KInode ino)); [apply steady_get| |done| |].
  { intros s0 Hs0 <-. rewrite get_quiet by done. eauto. }
  2: { intros h s' Hs' HH. by exists m. }
  assert (forall m1 s1, settled ino m m1 -> holds_db H m1 s1 -> wp (reap_orphan_data fuel ino)
    (fun r s' => exists m', holds_db H m' s' /\ wf names cs nx m' /\ match r with Ok _ => finished ino m m' | Err _ => ~ H end) s1) as Hreap.
  { intros m1 s1 Hset Hs1. destruct (settled_wf _ _ _ Hwf Hset) as [Hwf1 Hg].
    eapply wp_mono; [apply (wp_reap_data names cs nx ino Hino H fuel m1 s1); [by split|done|]|].
    - intros HH. specialize (Hfuel HH). pose proof (settled_size _ _ _ Hset). lia.
    - intros r s2 (m2 & H1 & H2 & H3 & H4). exists m2. split_and!; try done. destruct r; [by exists m1|done]. }
  intros o s1 Hs1 ->. destruct (m !! KInode ino) as [x|] eqn:Hx.
  - destruct (tr_inode _ _ _ _ _ (wf_tree _ _ _ _ Hwf) _ _ Hx) as [n ->]. destruct Ho as [Ho|]; [|done].
    apply wp_assoc, wp_bind, wp_lift. simpl. apply wp_bind. eapply wp_h_write; [done| |].
    + intros s2 Hs2. eapply Hreap; [|done]. by constructor.
    + intros h s2 Hs2 HH. by exists m.
  - apply wp_bind, wp_ret. eapply Hreap; [|done]. by constructor.
Qed.

(** ** All of them *)

(** The orphans [L] are gone; nothing but them and the counters has changed. *)
Record cleaned (L : list u64) m m' : Prop := {
  cl_gone i : i ∈ L -> m' !! KInode i = None /\ m' !! KOrphan i = None;
  cl_other k : (forall i, i ∈ L -> k <> KInode i /\ ~ data_of i k) -> k <> KQuotaBytes -> k <> KQuotaInodes -> m' !! k = m !! k
}.

Lemma wp_reap_list H L m s :
  wf names cs nx m -> (forall i, i ∈ L -> 0 <= i < U64_MAX /\ (is_Some (m !! KOrphan i) \/ m !! KInode i = None)) ->
  holds_db H m s -> (H -> (base.size m + 3 * length L < fuel)%nat) ->
  wp (st_iter (reap_one fuel) L) (fun r s' => exists m', holds_db H m' s' /\ wf names cs nx m' /\
    match r with Ok _ => cleaned L m m' | Err _ => ~ H end) s.
Proof.
  revert m s. induction L as [|i L IH]; intros m s Hwf HL Hs Hfuel; simpl.
  { apply wp_ret. exists m. split_and!; try done. split; [by intros i ?%elem_of_nil|done]. }
  destruct (HL i) as [Hi Ho]; [by left|]. apply wp_bind. eapply wp_mono; [apply wp_reap_one; try done|].
  { intros HH. specialize (Hfuel HH). simpl in Hfuel. lia. }
  intros r s1 (m1 & Hs1 & Hwf1 & Hr). destruct r as [[]|h]; [|by exists m1].
  destruct (finished_gone i m m1 Hwf Hr) as [G1 G2].
  eapply wp_mono; [apply (IH m1); try done|].
  - intros j Hj. destruct (HL j) as [Hj1 Hj2]; [by right|]. split; [done|]. destruct (decide (j = i)) as [->|Hne]; [by right|].
    assert (forall k, k = KOrphan j \/ k = KInode j -> m1 !! k = m !! k) as E.
    { intros k Hk. eapply finished_other; [done|..]; destruct Hk as [-> | ->]; try congruence;
        intros [[? ?]|[[? ?]|[?|?]]]; congruence. }
    rewrite !E by auto. done.
  - intros HH. specialize (Hfuel HH). simpl in Hfuel. destruct Hr as (m0 & Hset & Hpr & _).
    assert (base.size m1 <= base.size m0)%nat; [|pose proof (settled_size _ _ _ Hset); lia].
    apply map_subseteq_size, map_subseteq_spec. intros k x Hk. destruct (Hpr k) as [|[? _]]; congruence.
  - intros r s2 (m2 & Hs2 & Hwf2 & Hr2). exists m2. split_and!; try done. destruct r as [[]|]; [|done].
    destruct Hr2 as [C1 C2]. split.
    + intros j [->|Hj]%elem_of_cons; [|by apply C1]. destruct (decide (i ∈ L)) as [Hin|Hout]; [by apply C1|].
      assert (forall k, k = KOrphan i \/ k = KInode i -> m2 !! k = m1 !! k) as E.
      { intros k Hk. apply C2; [|destruct Hk; congruence..]. intros j Hj. assert (j <> i) by congruence.
        destruct Hk as [-> | ->]; (split; [congruence|]); intros [[? ?]|[[? ?]|[?|?]]]; congruence. }
      by rewrite !E by auto.
    + intros k Hk H1 H2. rewrite C2; [|by intros j Hj; apply Hk; right|done..].
      destruct (Hk i) as [K1 K2]; [by left|]. by eapply finished_other.
Qed.

(** The markers a scan lists. *)
Lemma orphan_scan m it :
  wf names cs nx m -> scanned m (Some keys.ORPHAN_PREFIX) (Some [112]) it ->
  exists L, iter_val orphan_step (Ok []) it = Ok L /\ NoDup L /\ forall i, i ∈ L <-> is_Some (m !! KOrphan i).
Proof.
  intros Hwf [Hel Hnd].
  assert (forall k x, (k, x) ∈ it -> exists i o, k = KOrphan i /\ x = VOrphan o /\ is_u64 i) as Hit.
  { intros k x (Hk & Hlo & Hhi)%Hel. destruct (wf_keys _ _ _ _ Hwf _ _ Hk) as [Hok _].
    destruct (proj1 (in_range_orphans k Hok)) as [i ->].
    { unfold in_range. by rewrite (Hlo _ eq_refl), (Hhi _ eq_refl). }
    destruct (or_typed _ (wf_orphans _ _ _ _ Hwf) i x Hk) as [o ->]. by exists i, o. }
  assert (forall acc, exists L, iter_val orphan_step (Ok acc) it = Ok (acc ++ L) /\ it.*1 = KOrphan <$> L) as Hval.
  { clear Hel Hnd. induction it as [|[k x] it IH]; intros acc.
    - exists []. by rewrite app_nil_r.
    - destruct (Hit k x) as (i & o & -> & -> & Hi); [by left|].
      destruct (IH ltac:(intros; apply Hit; by right) (acc ++ [i])) as (L & E1 & E2). exists (i :: L).
      cbn [iter_val orphan_step fst snd key_bytes Orphan_decode]. unfold keys.orphan.
      rewrite <- (app_nil_r (to_be 8 i)), parse_ino_ok by done. rewrite E1, <- app_assoc. split; [done|]. cbn. by rewrite E2. }
  destruct (Hval []) as (L & E1 & E2). exists L. split; [done|]. split.
  - rewrite E2 in Hnd. by apply NoDup_fmap_1 in Hnd.
  - intros i. split.
    + intros Hi. assert (KOrphan i ∈ it.*1) as ([k x] & Ek & Hin)%list_elem_of_fmap by (rewrite E2; by apply list_elem_of_fmap_2).
      apply Hel in Hin as [Hk _]. simpl in Ek. subst. eauto.
    + intros [x Hx]. destruct (wf_keys _ _ _ _ Hwf _ _ Hx) as [Hok _].
      assert (in_range keys.ORPHAN_PREFIX [112] (KOrphan i) = true) as Hr by (apply in_range_orphans; eauto).
      unfold in_range in Hr. apply andb_true_iff in Hr as [H1 H2].
      assert ((KOrphan i, x) ∈ it) as Hin by (apply Hel; split_and!; [done|..]; by intros ? [= <-]).
      apply (list_elem_of_fmap_2 fst) in Hin. rewrite E2 in Hin. apply list_elem_of_fmap in Hin as (j & [= ->] & Hj). done.
Qed.

(** No orphan is left; nothing but orphans and the counters has changed. *)
Definition recovered m m' : Prop :=
  (forall i, m' !! KOrphan i = None) /\
  forall k, (forall i, is_Some (m !! KOrphan i) -> k <> KInode i /\ ~ data_of i k) -> k <> KQuotaBytes -> k <> KQuotaInodes ->
    m' !! k = m !! k.

Lemma wp_recover H m s :
  wf names cs nx m -> nx <= U64_MAX -> holds_db H m s -> (H -> (4 * base.size m < fuel)%nat) ->
  wp (reap_crashed_orphans fuel) (fun r s' => exists m', holds_db H m' s' /\ wf names cs nx m' /\
    match r with Ok _ => recovered m m' | Err _ => ~ H end) s.
Proof.
  intros Hwf Hnx Hs Hfuel. unfold reap_crashed_orphans.
  apply wp_bind. eapply wp_h_scan; [done| |intros; by exists m]. intros it s1 Hs1 Hit.
  destruct (orphan_scan m it Hwf Hit) as (L & E & Hnd & HL).
  apply wp_bind. eapply wp_h_iter; [done| |intros; by exists m]. intros s2 Hs2. rewrite E.
  apply wp_bind, wp_lift. simpl. eapply wp_mono; [apply (wp_reap_list H L m); try done|].
  - intros i Hi%HL. destruct Hi as [x Hx]. destruct (wf_keys _ _ _ _ Hwf _ _ Hx) as [_ Hk].
    specialize (Hk i eq_refl). unfold ROOT_INO in Hk. split; [lia|]. left. rewrite Hx. eauto.
  - intros HH. specialize (Hfuel HH). assert (length L <= base.size m)%nat; [|lia].
    rewrite <- (length_fmap KOrphan L), <- size_dom, <- (size_list_to_set (C := gset Key) (KOrphan <$> L)).
    + apply subseteq_size. intros k. rewrite elem_of_list_to_set, list_elem_of_fmap. intros (j & -> & Hj).
      apply elem_of_dom. by apply HL.
    + apply NoDup_fmap_2; [|done]. by intros x y [= ->].
  - intros r s3 (m' & H1 & H2 & H3). exists m'. split_and!; try done. destruct r; [|done]. destruct H3 as [C1 C2]. split.
    + intros i. destruct (decide (i ∈ L)) as [Hi|Hi]; [by apply C1|]. rewrite C2; try done.
      * apply eq_None_not_Some. by rewrite <- HL.
      * intros j Hj. split; [done|]. intros [[? ?]|[[? ?]|[?|?]]]; congruence.
    + intros k Hk K1 K2. apply C2; try done. intros i Hi. apply Hk. by apply HL.
Qed.
End recovery.

(** * Opening *)

Section mount.
Context {DB : SlateDB} {AC : MokaCache u64 Inode} {NC : MokaCache (u64 * bytes) unit} {NCR : NameCrypto}.
Implicit Types (m : gmap Key Value) (H : Prop).

(** The allocator's durable mark, ahead of every inode of [m]. *)
Definition marked nx m (mark : u64) : Prop :=
  m !! KNextIno = Some (VBytes (to_be 8 mark)) /\ nx <= mark /\ 0 <= mark /\ mark + LEASE_SIZE <= U64_MAX.

(** What an opened volume is: the records recovered, everything loaded from
    them, nothing in the caches. *)
Record opened names m (record : VolumeRecord) mark (v : Volume) : Prop := {
  op_inv : Inv v;
  op_names : v_names v = names;
  op_cs : v_chunk_size v = vr_chunk_size record;
  op_recovered : exists m', recovered m m' /\ store v = <[KNextIno := VBytes (to_be 8 (mark + LEASE_SIZE))]> m';
  op_alloc : v_alloc v = {| al_next := mark; al_lease_end := mark + LEASE_SIZE |};
  op_handles : v_handles v = HandleTable.empty;
  op_live : h_dead (v_health v) = false
}.

(** Loading the allocator: the numbers up to the mark are spent, and the lease
    is durable before the first of it is handed out. *)
Lemma wp_alloc_load H m s mark (Q : result (Halt Error) AllocState -> Engine -> Prop) :
  m !! KNextIno = Some (VBytes (to_be 8 mark)) -> 0 <= mark -> mark + LEASE_SIZE <= U64_MAX -> holds_db H m s ->
  (forall s', holds_db H (<[KNextIno := VBytes (to_be 8 (mark + LEASE_SIZE))]> m) s' ->
     Q (Ok {| al_next := mark; al_lease_end := mark + LEASE_SIZE |}) s') ->
  (forall h s', ~ H -> Q (Err h) s') -> wp (st_map_err Raise InodeAllocator_load) Q s.
Proof.
  intros Hmk H0 H1 [Hm Hq] Hok Herr.
  assert (mark_of (VBytes (to_be 8 mark)) = Some mark) as Em.
  { unfold mark_of. simpl. rewrite len_to_be. simpl. f_equal. apply from_be_to_be.
    unfold LEASE_SIZE, U64_MAX in *. change (256 ^ Z.of_nat 8) with (2 ^ 64). lia. }
  assert (checked_add_u64 mark LEASE_SIZE = Some (mark + LEASE_SIZE)) as Ec.
  { unfold checked_add_u64. destruct (Z.leb_spec (mark + LEASE_SIZE) U64_MAX); [done|lia]. }
  unfold wp, st_map_err, InodeAllocator_load, lift_db, st_map_err, st_bind, Store.get, Store.put, Store.write, st_bind, poll, st_lift.
  destruct s as [db fl ck lg]. simpl in *. rewrite <- Hm, <- db_get_spec in Hmk.
  assert (forall fl' lg', (H -> fl' = []) -> holds_db H (<[KNextIno := VBytes (to_be 8 (mark + LEASE_SIZE))]> m)
    (mkEngine (db_write db [Put KNextIno (VBytes (to_be 8 (mark + LEASE_SIZE)))]) fl' ck lg')) as Hh.
  { intros fl' lg' Hf. split; [|done]. simpl. by rewrite db_write_spec, Hm. }
  destruct fl as [|[e|] fl]; simpl; [|apply Herr; intros HH; by specialize (Hq HH)|].
  - rewrite Hmk, Em. simpl. rewrite Ec. simpl. by apply Hok, Hh.
  - rewrite Hmk, Em. simpl. rewrite Ec. simpl. destruct fl as [|[e|] fl]; simpl; [|apply Herr; intros HH; by specialize (Hq HH)|];
      apply Hok, Hh; intros HH; by specialize (Hq HH).
Qed.

Lemma wp_open H fuel record dek nx m mark sb s :
  let names := {| nc_dek := dek |} in
  wf names (vr_chunk_size record) nx m -> marked nx m mark -> m !! KSuperblock = Some (VSuperblock sb) ->
  verify_superblock_matches_record record sb = Ok tt -> sb_kind sb = Filesystem -> vr_state record = Active ->
  0 < vr_chunk_size record <= 2 ^ 22 ->
  holds_db H m s -> (H -> (4 * base.size m < fuel)%nat) ->
  wp (Volume_open fuel record dek)
    (fun r s' => match r with Ok v => opened names m record mark v /\ v_eng v = s' /\ (H -> quiet v) | Err _ => ~ H end) s.
Proof.
  intros names Hwf (Hmk & Hnx & Hm0 & Hm1) Hsb Hver Hkind Hst Hcs Hs Hfuel. unfold Volume_open.
  rewrite Hst. cbn [negb bool_decide decide]. rewrite bool_decide_eq_true_2 by done. cbn [negb].
  assert (forall k s0 (m0 : gmap Key Value) (Q : result (Halt Error) (option Value) -> Engine -> Prop), holds_db H m0 s0 ->
    (forall s1, holds_db H m0 s1 -> Q (Ok (m0 !! k)) s1) -> (forall h s1, ~ H -> Q (Err h) s1) -> wp (lift_h (Store.get k)) Q s0) as Hget.
  { intros k s0 m0 Q Hs0 Hok Herr. eapply (wp_h_read H m0 s0 _ (fun o => o = m0 !! k)); [apply steady_get| |done| |].
    - intros s1 Hs1 <-. rewrite get_quiet by done. eauto.
    - intros o s1 Hs1 ->. auto.
    - auto. }
  apply wp_bind. eapply Hget; [done| |done]. intros s1 Hs1. rewrite Hsb. apply wp_bind, wp_lift. simpl. rewrite Hver, Hkind. simpl.
  apply wp_bind. eapply wp_mono; [apply (wp_recover names (vr_chunk_size record) nx fuel H m s1); try done; unfold LEASE_SIZE in *; lia|].
  intros r s2 (m' & Hs2 & Hwf' & Hr). destruct r as [[]|h]; [|done]. destruct Hr as [R1 R2].
  apply wp_bind. eapply Hget; [done| |done]. intros s3 Hs3. apply wp_bind. eapply Hget; [done| |done]. intros s4 Hs4.
  assert (m' !! KNextIno = Some (VBytes (to_be 8 mark))) as Hmk'.
  { rewrite R2; try done. intros i _. split; [done|]. by intros [[? ?]|[[? ?]|[?|?]]]. }
  apply wp_bind. eapply (wp_alloc_load H m' s4 mark); [done..| |done]. intros s5 Hs5. apply wp_get, wp_ret.
  set (v := mkVolume _ _ _ _ _ _ _ _ _ _ _ _). destruct Hs5 as [E5 Q5].
  assert (store v = <[KNextIno := VBytes (to_be 8 (mark + LEASE_SIZE))]> m') as Es by exact E5.
  assert (sb_chunk_size sb = vr_chunk_size record) as Ecs.
  { unfold verify_superblock_matches_record in Hver. repeat case_match; try done.
    all: match goal with E : negb (sb_chunk_size _ =? _) = false |- _ => by apply negb_false_iff, Z.eqb_eq in E end. }
  split_and!; [|done|].
  - split; try done; [|by exists m'].
    apply inv_build; rewrite ?Es; simpl; rewrite ?Ecs; try done.
    + apply (wf_aside names (vr_chunk_size record) mark m' [Put KNextIno (VBytes (to_be 8 (mark + LEASE_SIZE)))]).
      * by eapply wf_mono.
      * by constructor.
    + unfold counter. by rewrite lookup_insert_ne.
    + unfold counter. by rewrite lookup_insert_ne.
    + split; unfold ac_get, ac_is_negative; simpl; intros; rewrite mk_get_new in *; done.
  - intros HH. split; [by apply Q5|done].
Qed.
End mount.

(** * Mkfs *)

Section mkfs.
Context {DB : SlateDB} {NCR : NameCrypto}.
Implicit Types (m : gmap Key Value).

Definition root_inode (ts : Timespec) : Inode := set_i_parent_dir ROOT_INO (Inode_new Dir o755 0 0 ts).

(** The records mkfs writes. *)
Definition mkfs_store (record : VolumeRecord) (ts : Timespec) : gmap Key Value := apply_batch ∅ (mkfs_batch record ts).

Lemma mkfs_store_lookup record ts k :
  vr_kind record = Filesystem ->
  mkfs_store record ts !! k =
    match k with
    | KSuperblock => Some (VSuperblock {| sb_fsid := vr_fsid record; sb_cipher := vr_cipher record;
        sb_chunk_size := vr_chunk_size record; sb_name_enc := true; sb_created_at := vr_created_at record; sb_kind := Filesystem |})
    | KInode i => if i =? ROOT_INO then Some (VInode (root_inode ts)) else None
    | KNextIno => Some (VBytes (to_be 8 (ROOT_INO + 1)))
    | KQuotaInodes => Some (VBytes (to_le 8 1))
    | _ => None
    end.
Proof.
  intros Hk. unfold mkfs_store, mkfs_batch. rewrite Hk. unfold apply_batch.
  cbn [is_filesystem app fold_left apply_op].
  assert ((<[KNextIno := VBytes (to_be 8 (ROOT_INO + 1))]> (<[KInode ROOT_INO := VInode (set_i_parent_dir ROOT_INO (Inode_new Dir o755 0 0 ts))]>
    (<[KSuperblock := VSuperblock {| sb_fsid := vr_fsid record; sb_cipher := vr_cipher record;
        sb_chunk_size := vr_chunk_size record; sb_name_enc := true; sb_created_at := vr_created_at record; sb_kind := Filesystem |}]>
    (∅ : gmap Key Value)))) !! KQuotaInodes = None) as ->.
  { by rewrite !lookup_insert_ne. }
  change (CounterMergeOperator_merge (value_bytes <$> None) (encode_delta 1)) with (@Ok unit bytes (to_le 8 1)).
  destruct k; try (destruct (Z.eqb_spec ino ROOT_INO) as [->|Hne]);
    repeat first [rewrite lookup_insert_eq | rewrite lookup_insert_ne by congruence]; done.
Qed.

Lemma mkfs_node record ts i n : vr_kind record = Filesystem -> node (mkfs_store record ts) i n -> i = ROOT_INO /\ n = root_inode ts.
Proof. intros Hk. rewrite mkfs_store_lookup by done. destruct (Z.eqb_spec i ROOT_INO); [|done]. by intros [= <-]. Qed.

(** A fresh volume is well formed, whatever key its names are sealed with. *)
Lemma mkfs_wf names record ts :
  vr_kind record = Filesystem -> 0 < vr_chunk_size record ->
  wf names (vr_chunk_size record) (ROOT_INO + 1) (mkfs_store record ts).
Proof.
  intros Hk Hcs. set (m := mkfs_store record ts).
  assert (forall k, m !! k = _) as Hm by (intros k; apply (mkfs_store_lookup record ts k Hk)).
  assert (node m ROOT_INO (root_inode ts)) as Hroot by (by rewrite Hm).
  assert (forall i n, node m i n -> i = ROOT_INO /\ n = root_inode ts) as Hn by (intros; by eapply mkfs_node).
  assert (forall i, links m i = 0) as Hl.
  { intros i. apply msum_zero. intros [] x; rewrite Hm; try done. }
  assert (forall i, subdirs m i = 0) as Hs.
  { intros i. apply msum_zero. intros [] x; rewrite Hm; try done. }
  assert (forall i idx, m !! KChunk i idx = None) as Hc by (intros; by rewrite Hm).
  split.
  - split.
    + intros i x. rewrite Hm. case_match; [|done]. intros [= <-]. eauto.
    + by exists (root_inode ts).
    + intros p enc x. by rewrite Hm.
    + intros p id x. by rewrite Hm.
    + intros i n [-> ->]%Hn. done.
    + intros i n [-> ->]%Hn. done.
    + intros i n [-> ->]%Hn _. by rewrite Hl, Hs.
    + intros i n [-> ->]%Hn _. by econstructor.
  - intros i n [-> ->]%Hn. apply file_ok_fresh; [done| |done]. simpl. unfold max_size. lia.
  - split.
    + intros i x. by rewrite Hm.
    + intros i n [-> ->]%Hn. done.
    + intros i n _ _. rewrite !Hm. done.
    + intros i idx x. by rewrite Hm.
    + intros i x. by rewrite Hm.
    + intros i n [-> ->]%Hn. done.
  - intros k x. rewrite Hm. destruct k; try done. destruct (Z.eqb_spec ino ROOT_INO) as [->|]; [|done]. intros _.
    split; [done|]. by intros i [= <-].
  - intros i n [-> ->]%Hn. done.
  - intros x. by rewrite Hm.
  - intros x. rewrite Hm. intros [= <-]. by eexists.
  - assert (bytes_total m = 0) as ->; [|unfold counter; by rewrite Hm]. apply msum_zero.
    intros [] x Hx; try done. rewrite Hm in Hx. case_match; [|done]. by injection Hx as <-.
  - assert (inode_total m = 1) as ->; [|unfold counter; by rewrite Hm].
    unfold inode_total. rewrite <- (insert_id m (KInode ROOT_INO) (VInode (root_inode ts))), <- insert_delete_eq, msum_insert, lookup_delete_eq by done.
    rewrite (msum_zero _ (delete _ m)); [done|]. intros [] x [Hne Hx]%lookup_delete_Some; try done.
    rewrite Hm in Hx. destruct (Z.eqb_spec ino ROOT_INO); [congruence|done].
Qed.

(** ** Running mkfs *)

Lemma wp_lift_db_read {A} (e : EM A) H m s (Q : result Error A -> Engine -> Prop) :
  steady e -> holds_db H m s -> (H -> exists a, (e (unfaulted s)).1 = Ok a) ->
  (forall a s', holds_db H m s' -> e (unfaulted s) = (Ok a, unfaulted s') -> Q (Ok a) s') ->
  (forall x s', holds_db H m s' -> ~ H -> Q (Err x) s') -> wp (lift_db e) Q s.
Proof.
  intros He [Hd Hq] Htot Hok Herr. unfold wp, lift_db, st_map_err. destruct (e s) as [r s'] eqn:E.
  destruct (He s r s' E) as (E1 & _ & E3 & E4).
  assert (holds_db H m s') as Hs by (split; [by rewrite E1|auto]).
  destruct r as [a|x]; simpl; [by apply Hok; auto|]. apply Herr; [done|]. intros HH.
  destruct (Htot HH) as [a Ha]. assert (unfaulted s = s) as Eu by (specialize (Hq HH); destruct s; by simplify_eq/=).
  rewrite Eu, E in Ha. done.
Qed.

Lemma wp_db_get k H m s (Q : result Error (option Value) -> Engine -> Prop) :
  holds_db H m s -> (forall s', holds_db H m s' -> Q (Ok (m !! k)) s') ->
  (forall x s', holds_db H m s' -> ~ H -> Q (Err x) s') -> wp (lift_db (Store.get k)) Q s.
Proof.
  intros Hs Hok Herr. eapply wp_lift_db_read; [apply steady_get|done| |intros a s' Hs' E|done].
  - intros _. rewrite get_quiet by done. by eexists.
  - rewrite get_quiet in E by done. injection E as <- _. simpl. rewrite (hd_db _ _ _ Hs). by apply Hok.
Qed.

Lemma wp_db_write b H m s (Q : result Error unit -> Engine -> Prop) :
  holds_db H m s -> (forall s', holds_db H (apply_batch m b) s' -> Q (Ok tt) s') ->
  (forall x s', holds_db H m s' -> ~ H -> Q (Err x) s') -> wp (lift_db (Store.write b)) Q s.
Proof.
  intros [Hd Hq] Hok Herr. unfold wp, lift_db, st_map_err, Store.write, st_bind, poll, st_modify.
  destruct s as [d [|[x|] fs] cl lg]; simpl in *.
  - apply Hok. split; simpl; [|done]. by rewrite db_write_spec, Hd.
  - apply Herr; [split; simpl; [done|]|]; intros HH; by specialize (Hq HH).
  - apply Hok. split; simpl; [by rewrite db_write_spec, Hd|]. intros HH. by specialize (Hq HH).
Qed.

Lemma wp_db_poll H m s (Q : result Error unit -> Engine -> Prop) :
  holds_db H m s -> (forall s', holds_db H m s' -> Q (Ok tt) s') ->
  (forall x s', holds_db H m s' -> ~ H -> Q (Err x) s') -> wp (lift_db poll) Q s.
Proof.
  intros Hs Hok Herr. eapply wp_lift_db_read; [apply steady_poll|done| |intros [] s' Hs' _; by apply Hok|done].
  intros _. by eexists.
Qed.

Lemma wp_db_flush H m s (Q : result Error unit -> Engine -> Prop) :
  holds_db H m s -> (forall s', holds_db H m s' -> Q (Ok tt) s') ->
  (forall x s', holds_db H m s' -> ~ H -> Q (Err x) s') -> wp (lift_db flush) Q s.
Proof.
  intros [Hd Hq] Hok Herr. unfold wp, lift_db, st_map_err, flush, st_bind, poll, st_modify.
  destruct s as [d [|[x|] fs] cl lg]; simpl in *.
  - apply Hok. split; simpl; [|done]. by rewrite db_flush_spec.
  - apply Herr; [split; simpl; [done|]|]; intros HH; by specialize (Hq HH).
  - apply Hok. split; simpl; [by rewrite db_flush_spec|]. intros HH. by specialize (Hq HH).
Qed.

(** A filesystem, or a device of a legal size. *)
Definition makeable (record : VolumeRecord) : Prop :=
  match vr_kind record with Filesystem => True | Block size_bytes => validate_block_size size_bytes (vr_chunk_size record) = Ok tt end.

(** The records of a fresh block volume. *)
Lemma mkfs_block_lookup record size ts k :
  vr_kind record = Block size ->
  mkfs_store record ts !! k =
    match k with
    | KSuperblock => Some (VSuperblock {| sb_fsid := vr_fsid record; sb_cipher := vr_cipher record;
        sb_chunk_size := vr_chunk_size record; sb_name_enc := false; sb_created_at := vr_created_at record; sb_kind := Block size |})
    | KQuotaInodes => Some (VBytes (to_le 8 1))
    | _ => None
    end.
Proof.
  intros Hk. unfold mkfs_store, mkfs_batch. rewrite Hk. unfold apply_batch. cbn [is_filesystem app fold_left apply_op].
  rewrite (lookup_insert_ne _ KSuperblock KQuotaInodes), lookup_empty by done.
  change (CounterMergeOperator_merge (value_bytes <$> None) (encode_delta 1)) with (@Ok unit bytes (to_le 8 1)).
  destruct k; repeat first [rewrite lookup_insert_eq | rewrite lookup_insert_ne by congruence]; done.
Qed.

(** The superblock of a record matches it. *)
Lemma mkfs_superblock record ts :
  makeable record ->
  exists sb, mkfs_store record ts !! KSuperblock = Some (VSuperblock sb) /\ sb_kind sb = vr_kind record /\
    sb_chunk_size sb = vr_chunk_size record /\ verify_superblock_matches_record record sb = Ok tt.
Proof.
  unfold makeable. intros Hk. destruct (vr_kind record) as [|size] eqn:E; eexists;
    [rewrite mkfs_store_lookup by done|rewrite (mkfs_block_lookup record size) by done]; (split; [done|]); (split; [done|]); (split; [done|]);
    unfold verify_superblock_matches_record; simpl; rewrite E; by rewrite !Z.eqb_refl, !bool_decide_eq_true_2 by done.
Qed.

(** A made volume, or one mkfs has not reached. *)
Definition half_made record (m : gmap Key Value) : Prop := m = ∅ \/ exists ts, m = mkfs_store record ts.

(** How a run of mkfs ends: all or nothing was written. *)
Definition made_fs H record (r : result Error unit) (s : Engine) : Prop :=
  exists m, holds_db H m s /\ half_made record m /\
    match r with Ok _ => exists ts, m = mkfs_store record ts | Err _ => ~ H end.

Lemma wp_mkfs_close H record r m s :
  holds_db H m s -> half_made record m -> match r with Ok _ => exists ts, m = mkfs_store record ts | Err _ => ~ H end ->
  wp (lift_db close_db ;;; st_lift r) (made_fs H record) s.
Proof.
  intros Hs Hm Hr. apply wp_bind. eapply wp_db_poll; [done|intros s2 Hs2; by exists m|]. intros x s2 Hs2 HnH. by exists m.
Qed.

Lemma wp_mkfs H record m s :
  makeable record -> half_made record m -> holds_db H m s -> wp (mkfs record) (made_fs H record) s.
Proof.
  intros Hk Hm Hs. unfold mkfs. apply wp_bind, wp_try. pose proof (wp_mkfs_close H record) as Hend.
  unfold mkfs_body. apply wp_bind. eapply wp_db_get; [done| |intros x s1 Hs1 HnH; by eapply Hend].
  intros s1 Hs1. destruct Hm as [->|[ts ->]].
  - rewrite lookup_empty. apply wp_bind.
    assert (forall ts s2, holds_db H ∅ s2 -> wp (lift_db (Store.write (mkfs_batch record ts)) ;;; lift_db flush)
      (fun r s' => wp (lift_db close_db ;;; st_lift r) (made_fs H record) s') s2) as Hrest.
    { intros ts s2 Hs2. assert (half_made record (mkfs_store record ts)) as Hmade by (right; by exists ts).
      apply wp_bind. eapply wp_db_write; [done| |intros x s3 Hs3 HnH; eapply Hend; [done|by left|done]].
      intros s3 Hs3. eapply wp_db_flush; [done|intros s4 Hs4; eapply Hend; [done|done|by exists ts]|]. intros x s4 Hs4 HnH. by eapply Hend. }
    destruct (is_filesystem (vr_kind record)); [|by apply wp_ret, Hrest].
    unfold wp at 1, clock_now. destruct Hs1 as [Hd Hq]. destruct (e_clock s1); apply Hrest; by split.
  - destruct (mkfs_superblock record ts Hk) as (sb & -> & _ & _ & Hv). apply wp_bind, wp_lift. cbn [SuperblockV_decode].
    apply wp_lift. rewrite Hv. eapply Hend; [done|right; by exists ts|by exists ts].
Qed.
End mkfs.
