(* ===== verification/Concrete.v ===== *)
(** A concrete volume: the third-party parts instantiated, mkfs and open run.
    The theorems of the development are applied to it. *)

From S2P Require Import Prelude Keys Meta Store Data Quota Locks Volume Vfs Tree Wf WfOps VfsLogic VfsInv Reap.
From S2P Require Import OpsAttr OpsRead OpsCreate OpsRemove OpsRename OpsData OpsHandle System Mount.

(** Names stored as they are, under a key of the right length. *)
#[refine] Definition plain_names : NameCrypto := {|
  hkdf_expand dek info n := take n (dek ++ info ++ replicate n 0);
  siv_encrypt k name := Some name;
  siv_decrypt k c := Some c
|}.
Proof.
  - intros dek info n _. rewrite length_take, !length_app, length_replicate. lia.
  - intros. eauto.
  - by intros k name c [= ->].
Defined.

#[global] Existing Instance map_slatedb.
#[global] Existing Instance plain_names.
#[global] Instance attr_moka : MokaCache u64 Inode := gmap_moka u64 Inode.
#[global] Instance negative_moka : MokaCache (u64 * bytes) unit := gmap_moka (u64 * bytes) unit.

Definition demo_record : VolumeRecord :=
  {| vr_tenant := [116]; vr_name := [118]; vr_state := Active; vr_clone_parent := None;
     vr_clone_parent_checkpoint_ids := None; vr_fsid := 7; vr_wrapped_dek := []; vr_cipher := Aes256Gcm;
     vr_chunk_size := 4096; vr_compression := CNone;
     vr_quota := {| lim_bytes := {| ql_soft := None; ql_hard := None; ql_grace_until := None |};
                    lim_inodes := {| ql_soft := None; ql_hard := None; ql_grace_until := None |} |};
     vr_kind := Filesystem; vr_note := None; vr_created_at := 0 |}.

Definition demo_engine : Engine := mkEngine (∅ : gmap Key Value) [] [] [].
Definition demo_fuel : nat := 200.

(** The engine after mkfs, and the volume opened on it. *)
Definition demo_made : Engine := (mkfs demo_record demo_engine).2.
Definition demo_open : result (Halt Error) Volume * Engine := Volume_open demo_fuel demo_record [1] demo_made.
