(* ===== verification/Spec.v ===== *)
(** The views a caller has of a volume, and how the specifications of the
    operations read on a quiet volume without interference. *)

From S2P Require Import Prelude Keys Meta Store Data Quota Locks Volume Vfs Tree Wf WfOps VfsLogic VfsInv Reap.
From S2P Require Import OpsAttr OpsRead OpsCreate OpsRemove OpsRename OpsData OpsHandle System Mount.

Section spec.
Context {DB : SlateDB} {AC : MokaCache u64 Inode} {NC : MokaCache (u64 * bytes) unit} {NCR : NameCrypto}.
Implicit Types (v c : Volume).

(** No other task runs. *)
Definition nobody : nat -> Volume -> Volume := fun _ v => v.

Lemma rely_nobody : rely nobody.
Proof. by split; [..|intros; left| |]. Qed.
Lemma alone_nobody : alone nobody.
Proof. done. Qed.

(** The invariant holds, no fault is pending, the counters have room and the
    fuel covers every loop. *)
Record ready (fuel : nat) v : Prop := {
  rd_inv : Inv v;
  rd_roomy : roomy v;
  rd_quiet : quiet v;
  rd_fuel : (base.size (store v) + 16 < fuel)%nat
}.

(** ** Views *)

(** The namespace: the inode a name denotes in a directory. *)
Definition names_of v (p : u64) (name : bytes) : option u64 := entry (v_names v) (store v) p name.

Definition inode_of v (i : u64) : option Inode :=
  match store v !! KInode i with Some (VInode n) => Some n | _ => None end.

(** The bytes of a file. *)
Definition bytes_of v (i : u64) (x : Z) : u8 :=
  content (store v) (v_chunk_size v) i (from_option i_size 0 (inode_of v i)) x.

Definition xattr_of v (i : u64) (name : bytes) : option bytes := value_bytes <$> store v !! KXattr i name.

Lemma inode_of_node v i n : inode_of v i = Some n <-> node (store v) i n.
Proof. unfold inode_of. split; [by repeat case_match; intros; simplify_eq|by intros ->]. Qed.

(** ** From the specifications to quiet runs *)

(** [c] is [v] in everything the specifications speak of. *)
Record like c v : Prop := {
  lk_store : store c = store v;
  lk_names : v_names c = v_names v;
  lk_cs : v_chunk_size c = v_chunk_size v;
  lk_quota : v_quota c = v_quota v;
  lk_handles : v_handles c = v_handles v;
  lk_locks : v_range_locks c = v_range_locks v
}.

(** The volume after an operation on [v]. *)
Record settled v v' : Prop := {
  sd_inv : Inv v';
  sd_quiet : quiet v';
  sd_names : v_names v' = v_names v
}.

(** How an operation ends on [v]: it never runs out of fuel; a success
    satisfies [P], a failure satisfies [E] and changed no file; either way the
    invariant holds and no fault is pending. *)
Definition outcome {A} (m : FsM A) v (P : A -> Volume -> Prop) (E : FsError -> Prop) : Prop :=
  match m v with
  | (Ok a, v') => settled v v' /\ P a v'
  | (Err (Raise e), v') => settled v v' /\ same_files (store v) (store v') /\ E e
  | (Err OutOfFuel, _) => False
  end.

Lemma outcome_mono {A} (m : FsM A) v (P P' : A -> Volume -> Prop) (E E' : FsError -> Prop) :
  outcome m v P E -> (forall a v', P a v' -> P' a v') -> (forall e, E e -> E' e) -> outcome m v P' E'.
Proof. unfold outcome. destruct (m v) as [[a|[e|]] v']; naive_solver. Qed.

Lemma settles_outcome {A} (m : FsM A) v c0 P0 E0 (P : A -> Volume -> Prop) (E : FsError -> Prop) :
  wp m (settles True c0 P0 E0) v -> like c0 v ->
  (forall c v' a, Inv c -> Inv v' -> at_rest c = at_rest c0 -> like c v -> quiet v' -> v_names v' = v_names v ->
     v_chunk_size v' = v_chunk_size v -> P0 c (calmed v') a -> P a v') ->
  (forall c e, Inv c -> like c v -> E0 c e -> E e) -> outcome m v P E.
Proof.
  unfold wp, outcome. destruct (m v) as [r v']. intros (c1 & Hi1 & Hrest & Hn1 & Hcs1 & Hi & Hq & Hn & Hcs & Hr) Hl0 HP HE.
  assert (like c1 v) as Hlike.
  { destruct Hl0. specialize (Hrest I). pose proof (at_rest_store _ _ Hrest) as [Hs _]. split; [congruence..| | |].
    - transitivity (v_quota c0); [|done]. change (v_quota (at_rest c1) = v_quota (at_rest c0)). by rewrite Hrest.
    - transitivity (v_handles c0); [|done]. change (v_handles (at_rest c1) = v_handles (at_rest c0)). by rewrite Hrest.
    - transitivity (v_range_locks c0); [|done]. change (v_range_locks (at_rest c1) = v_range_locks (at_rest c0)). by rewrite Hrest. }
  assert (v_names v' = v_names v) by (by rewrite Hn, (lk_names _ _ Hlike)).
  assert (v_chunk_size v' = v_chunk_size v) by (by rewrite Hcs, (lk_cs _ _ Hlike)).
  assert (settled v v') by (split; auto).
  destruct r as [a|[e|]]; [split; [done|by apply (HP c1); auto]| |by destruct Hr].
  destruct (Hr I) as [He Hs]. rewrite (lk_store _ _ Hlike) in Hs. eauto.
Qed.

Lemma like_calmed v : like (calmed v) v.
Proof. done. Qed.

Lemma ready_calm fuel v : ready fuel v -> Inv (calmed v) /\ roomy (calmed v) /\ calm True (calmed v) v /\ undisturbed nobody fuel True (calmed v).
Proof. intros [H1 H2 H3 H4]. split_and!; [by apply inv_calmed|done|by split|by split]. Qed.

(** ** Entries under a batch *)

Lemma entry_upd names m m' p name enc (o : option Dirent) :
  seal_name names p name = Ok enc ->
  m' !! KDirent p enc = VDirent <$> o -> (forall q e, (q, e) <> (p, enc) -> m' !! KDirent q e = m !! KDirent q e) ->
  entry names m' p name = d_child_ino <$> o /\
  forall q nm, (q, nm) <> (p, name) -> entry names m' q nm = entry names m q nm.
Proof.
  intros Hs Hm Hsame. split.
  - unfold entry. rewrite Hs, Hm. by destruct o.
  - intros q nm Hne. unfold entry. destruct (seal_name names q nm) as [e|] eqn:E; [|done].
    rewrite Hsame; [done|]. intros [= -> ->]. apply Hne. f_equal. by eapply seal_name_inj.
Qed.

Lemma entry_agree names m m' p name :
  (forall q e, m' !! KDirent q e = m !! KDirent q e) -> entry names m' p name = entry names m p name.
Proof. intros H. unfold entry. destruct (seal_name names p name); [|done]. by rewrite H. Qed.

Lemma pruned_dirent i m m' q e : pruned i m m' -> m' !! KDirent q e = m !! KDirent q e.
Proof. intros Hp. apply (pruned_other i); [done|]. by intros [[? ?]|[[? ?]|[?|?]]]. Qed.

Lemma pruned_inode i m m' j : pruned i m m' -> m' !! KInode j = m !! KInode j.
Proof. intros Hp. apply (pruned_other i); [done|]. by intros [[? ?]|[[? ?]|[?|?]]]. Qed.
End spec.
