(* ===== verification/Namespace.v ===== *)
(** The namespace operations as a caller sees them: what each one does to the
    names, the inodes and the bytes of a volume. *)

From S2P Require Import Prelude Keys Meta Store Data Quota Locks Volume Vfs Tree Wf WfOps VfsLogic VfsInv Reap.
From S2P Require Import OpsAttr OpsRead OpsCreate OpsRemove OpsRename OpsData OpsHandle System Mount Spec.

(** Looks a record up after a batch whose operations on its kind of keys are
    few. *)
Ltac batch_at f :=
  rewrite (apply_ops_on f) by done; rewrite ?ops_on_app;
  cbn [ops_on List.filter op_key f app apply_batch fold_left apply_op]; simplify_map_eq.

Ltac batch_at_but f H :=
  rewrite (apply_ops_on f) by done; rewrite ?ops_on_app, ?(H f) by done;
  cbn [ops_on List.filter op_key f app apply_batch fold_left apply_op]; simplify_map_eq.

Definition is_dirent_key (k : Key) : bool := match k with KDirent _ _ => true | _ => false end.
Definition is_symlink_key (k : Key) : bool := match k with KSymlink _ => true | _ => false end.
Definition is_chunk_key (k : Key) : bool := match k with KChunk _ _ => true | _ => false end.

Section namespace.
Context {DB : SlateDB} {AC : MokaCache u64 Inode} {NC : MokaCache (u64 * bytes) unit} {NCR : NameCrypto}.
Implicit Types (v c : Volume).

(** One name of a namespace set to [o]. *)
Definition renamed_to (f : u64 -> bytes -> option u64) p name (o : option u64) : u64 -> bytes -> option u64 :=
  fun q nm => if decide ((q, nm) = (p, name)) then o else f q nm.

(** The directory [p] keeps everything, its rights included, but its times, its
    count of subdirectories, which changes by [dl], and its next cookie. *)
Definition dir_changed p (dl : Z) v v' : Prop :=
  exists pn pn', inode_of v p = Some pn /\ inode_of v' p = Some pn' /\ i_kind pn = Dir /\ i_kind pn' = Dir /\
    i_parent_dir pn' = i_parent_dir pn /\ i_nlink pn' = i_nlink pn + dl /\ i_size pn' = i_size pn /\
    rights pn' = rights pn /\ redirected pn pn'.

(** The chunks, extended attributes, link target and orphan marker of [i] are
    the same records. *)
Definition data_kept i v v' : Prop := forall k, data_of i k -> store v' !! k = store v !! k.

Lemma data_unmoved m b i k :
  data_of i k -> Forall (fun op => match op_key op with KChunk _ _ | KXattr _ _ | KSymlink _ | KOrphan _ => False | _ => True end) b ->
  apply_batch m b !! k = m !! k.
Proof.
  intros Hk Hb. apply apply_batch_frame. eapply Forall_impl; [exact Hb|]. intros op Hop E. cbv beta in Hop. rewrite E in Hop.
  by destruct Hk as [[? ->]|[[? ->]|[->| ->]]].
Qed.

(** [v'] is [v] with a new inode [ino], named [name] in [p]. *)
Record gained p name ino (child : Inode) v v' : Prop := {
  gn_fresh : inode_of v ino = None;
  gn_absent : names_of v p name = None;
  gn_names q nm : names_of v' q nm = renamed_to (names_of v) p name (Some ino) q nm;
  gn_child : inode_of v' ino = Some child;
  gn_parent : dir_changed p (if is_dir (i_kind child) then 1 else 0) v v';
  gn_inodes i : i <> ino -> i <> p -> inode_of v' i = inode_of v i;
  gn_bytes i x : i <> ino -> bytes_of v' i x = bytes_of v i x
}.

Lemma names_set v v' p name enc (o : option Dirent) :
  v_names v' = v_names v -> seal_name (v_names v) p name = Ok enc ->
  store v' !! KDirent p enc = VDirent <$> o ->
  (forall q e, (q, e) <> (p, enc) -> store v' !! KDirent q e = store v !! KDirent q e) ->
  forall q nm, names_of v' q nm = renamed_to (names_of v) p name (d_child_ino <$> o) q nm.
Proof.
  intros Hn Hs H1 H2 q nm. unfold names_of, renamed_to. rewrite Hn.
  destruct (entry_upd _ (store v) (store v') p name enc o Hs H1 H2) as [E1 E2].
  case_decide as E; [by simplify_eq|by apply E2].
Qed.

Lemma names_add v v' p name enc i :
  v_names v' = v_names v -> seal_name (v_names v) p name = Ok enc ->
  (exists d, store v' !! KDirent p enc = Some (VDirent d) /\ d_child_ino d = i) ->
  (forall q e, (q, e) <> (p, enc) -> store v' !! KDirent q e = store v !! KDirent q e) ->
  forall q nm, names_of v' q nm = renamed_to (names_of v) p name (Some i) q nm.
Proof. intros Hn Hs [d [H1 <-]] H2 q nm. by rewrite (names_set v v' p name enc (Some d) Hn Hs H1 H2). Qed.

Lemma bytes_same v v' i :
  v_chunk_size v' = v_chunk_size v -> (forall idx, store v' !! KChunk i idx = store v !! KChunk i idx) ->
  i_size <$> inode_of v' i = i_size <$> inode_of v i -> forall x, bytes_of v' i x = bytes_of v i x.
Proof.
  intros Hcs Hc Hs x. unfold bytes_of. rewrite Hcs.
  assert (from_option i_size 0 (inode_of v' i) = from_option i_size 0 (inode_of v i)) as -> by
    (destruct (inode_of v' i), (inode_of v i); simplify_eq/=; congruence).
  unfold content, chunk_at. by rewrite Hc.
Qed.

Lemma inode_of_same v v' i : store v' !! KInode i = store v !! KInode i -> inode_of v' i = inode_of v i.
Proof. unfold inode_of. by intros ->. Qed.

Lemma created_gained p name ino child target c v v' :
  like c v -> Inv c -> v_names v' = v_names v -> v_chunk_size v' = v_chunk_size v ->
  created p name ino child target c (calmed v') -> gained p name ino child v v'.
Proof.
  intros [Hs Hn Hcs _ _ _] Hi Hn' Hcs' (pn & pn' & enc & m0 & Hp & Hk & Hse & Hfree & Hnew & Hdu & Hsame & Hst).
  rewrite Hs, ?Hn in *. change (store (calmed v')) with (store v') in Hst.
  assert (ino <> p) as Hne by congruence.
  assert (forall k, k <> KNextIno -> m0 !! k = store v !! k) as Hm0 by done.
  assert (inode_of v' ino = Some child) as Hc'.
  { apply inode_of_node. rewrite Hst. batch_at is_inode_key. destruct target; by simplify_map_eq. }
  assert (inode_of v' p = Some pn') as Hp'.
  { apply inode_of_node. rewrite Hst. batch_at is_inode_key. destruct target; by simplify_map_eq. }
  assert (forall i, i <> ino -> i <> p -> inode_of v' i = inode_of v i) as Ho.
  { intros i H1 H2. apply inode_of_same. rewrite Hst. batch_at is_inode_key.
    destruct target; simpl; rewrite ?lookup_insert_ne by congruence; by apply Hm0. }
  destruct Hdu as [D1 D2 D3 D4 D5 D6 D7 D8 D9]. split.
  - unfold inode_of. by rewrite Hnew.
  - unfold names_of, entry. by rewrite Hse, Hfree.
  - apply (names_add v v' p name enc ino Hn' Hse); [eexists; split|].
    + rewrite Hst. batch_at is_dirent_key. destruct target; by simplify_map_eq.
    + done.
    + intros q e Hqe. rewrite Hst. batch_at is_dirent_key. destruct target; simpl; rewrite lookup_insert_ne by congruence; by apply Hm0.
  - done.
  - exists pn, pn'. split_and!; try done; [by apply inode_of_node|congruence..].
  - done.
  - intros i x Hix. apply bytes_same; [done|..].
    + intros idx. rewrite Hst. batch_at is_chunk_key. destruct target; by apply Hm0.
    + destruct (decide (i = p)) as [->|]; [|by rewrite Ho]. rewrite Hp'. apply inode_of_node in Hp. rewrite Hp. simpl. congruence.
Qed.

(** ** Creation *)

Lemma add_fails_like creds p name c v e : like c v -> add_fails creds p name c e -> add_fails creds p name v e.
Proof.
  intros [E1 E2 E3 E4 _ _]. unfold add_fails, no_dir, denied_at, refuses. by rewrite E1, E2, E4.
Qed.

Lemma new_node_gained creds p name child_of target c v v' a :
  like c v -> Inv c -> v_names v' = v_names v -> v_chunk_size v' = v_chunk_size v ->
  new_node creds p name child_of target c (calmed v') a ->
  exists pn ts ino, inode_of v p = Some pn /\ access creds pn WX = Ok tt /\ validate_name name = Ok tt /\
    a = make_attr ino (child_of pn ts) /\ gained p name ino (child_of pn ts) v v'.
Proof.
  intros Hl Hi H1 H2 (pn & ts & ino & Hp & Hacc & Hval & -> & Hcr). exists pn, ts, ino. split_and!; try done.
  - apply inode_of_node. by rewrite <- (lk_store _ _ Hl).
  - by eapply created_gained.
Qed.

(** The inode [creds] gets for a new node of [kind] in the directory [dir]. *)
Definition new_inode creds kind mode (dir : Inode) ts : Inode :=
  let '(uid, gid, mode) := new_node_ids creds dir kind mode in Inode_new kind mode uid gid ts.

(** A call's success: the caller may write the directory, the name is legal
    and new, and the volume gained an inode with it. *)
Definition made creds p name (child_of : Inode -> Timespec -> Inode) v (a : FileAttr) v' : Prop :=
  exists pn ts ino, inode_of v p = Some pn /\ access creds pn WX = Ok tt /\ validate_name name = Ok tt /\
    a = make_attr ino (child_of pn ts) /\ gained p name ino (child_of pn ts) v v'.

(** The two ways a creation succeeds. *)
Definition made_or_opened creds p name mode (exclusive : bool) v (a : FileAttr) v' : Prop :=
  made creds p name (new_inode creds File mode) v a v' \/
  (exclusive = false /\ store v' = store v /\ exists i n, names_of v p name = Some i /\ inode_of v i = Some n /\
     i_kind n <> Dir /\ access creds n ACCESS_W = Ok tt /\ a = make_attr i n).

Definition create_fails creds p name (exclusive : bool) v (e : FsError) : Prop :=
  add_fails creds p name v e \/
  (exists i n, exclusive = false /\ names_of v p name = Some i /\ inode_of v i = Some n /\
     ((e = IsDir /\ i_kind n = Dir) \/ (e = AccessDenied /\ access creds n ACCESS_W = Err e))).

Lemma create_outcome fuel v creds p name mode exclusive :
  ready fuel v ->
  outcome (create nobody creds p name mode exclusive) v
    (made_or_opened creds p name mode exclusive v) (create_fails creds p name exclusive v).
Proof.
  intros Hr. destruct (ready_calm _ _ Hr) as (Hi & Hro & Hc & Hu).
  eapply settles_outcome; [by apply (create_settles nobody rely_nobody)|done|..].
  - intros c v' a Hi1 Hi' _ Hl _ H1 H2 [H|(He & Hs & i & n & Hent & Hn & Hk & Hacc & ->)].
    + left. by eapply new_node_gained in H.
    + right. unfold names_of. rewrite <- (lk_store _ _ Hl), <- (lk_names _ _ Hl). split_and!; [done|done|].
      exists i, n. split_and!; try done. apply inode_of_node. by rewrite <- (lk_store _ _ Hl).
  - intros c e Hi1 Hl [H|(i & n & He & Hent & Hn & H)]; [left; by eapply add_fails_like|]. right. exists i, n.
    unfold names_of. rewrite <- (lk_store _ _ Hl), <- (lk_names _ _ Hl). split_and!; try done.
    apply inode_of_node. by rewrite <- (lk_store _ _ Hl).
Qed.

(** C33: [create] either makes an empty file under a new name, with the
    attributes it returns and nothing else changed, or, when not exclusive,
    returns the attributes of the writable non-directory the name already has;
    each error has the cause its name says and leaves the files as they were. *)
Theorem create_correct fuel v creds p name mode exclusive :
  ready fuel v ->
  outcome (create nobody creds p name mode exclusive) v
    (fun a v' => made creds p name (new_inode creds File mode) v a v' \/
       (exclusive = false /\ store v' = store v /\ exists i n, names_of v p name = Some i /\ inode_of v i = Some n /\
          i_kind n <> Dir /\ access creds n ACCESS_W = Ok tt /\ a = make_attr i n))
    (fun e => add_fails creds p name v e \/
       (exists i n, exclusive = false /\ names_of v p name = Some i /\ inode_of v i = Some n /\
          ((e = IsDir /\ i_kind n = Dir) \/ (e = AccessDenied /\ access creds n ACCESS_W = Err e)))).
Proof. apply create_outcome. Qed.

(** [mkdir] makes an empty directory whose parent is the directory it is
    made in, and that directory counts one more subdirectory; nothing else
    changes, and each error has the cause its name says. *)
Theorem mkdir_correct fuel v creds p name mode :
  ready fuel v ->
  outcome (mkdir nobody creds p name mode) v
    (made creds p name (fun dir ts => set_i_parent_dir p (new_inode creds Dir mode dir ts)) v)
    (add_fails creds p name v).
Proof.
  intros Hr. destruct (ready_calm _ _ Hr) as (Hi & Hro & Hc & Hu).
  eapply settles_outcome; [by apply (mkdir_settles nobody rely_nobody)|done|..].
  - intros c v' a Hi1 Hi' _ Hl _ H1 H2 H. eapply new_node_gained in H; [|done..]. exact H.
  - intros c e _ Hl H. by eapply add_fails_like.
Qed.

(** ** Symbolic links *)

Lemma readlink_outcome v ino :
  Inv v -> quiet v ->
  outcome (readlink ino) v
    (fun t v' => store v' = store v /\ exists n x, node (store v) ino n /\ i_kind n = Symlink /\
       store v !! KSymlink ino = Some x /\ t = value_bytes x)
    (fun e => stale_at v ino e \/ (e = Invalid /\ exists n, node (store v) ino n /\ i_kind n <> Symlink) \/
              (e = Io /\ store v !! KSymlink ino = None)).
Proof.
  intros Hi Hq. eapply settles_outcome; [eapply (readlink_settles True); [by apply inv_calmed|by split]|done|..].
  - intros c v' t _ _ _ Hl _ _ _ [H1 H2]. rewrite (lk_store _ _ Hl) in *. done.
  - intros c e _ Hl H. unfold stale_at in *. by rewrite (lk_store _ _ Hl) in H.
Qed.

Lemma outcome_ok {A} (m : FsM A) v P E (R : A -> Prop) :
  outcome m v P E -> (forall e, ~ E e) -> (forall a v', P a v' -> R a) -> exists a, (m v).1 = Ok a /\ R a.
Proof.
  unfold outcome. destruct (m v) as [[a|[e|]] v'].
  - intros [_ HP] _ HR. exists a. split; [done|by eapply HR].
  - intros (_ & _ & He) HE. by destruct (HE e).
  - by intros [].
Qed.

(** A symbolic link that [symlink] makes reads back, by [readlink] on the
    inode it returns, as exactly the target it was made with. *)
Theorem symlink_readlink fuel v creds p name target :
  ready fuel v ->
  outcome (symlink nobody creds p name target) v
    (fun a v' => (readlink (a_ino a) v').1 = Ok target /\
       made creds p name (fun dir ts => set_i_size (len target) (new_inode creds Symlink o777 dir ts)) v a v')
    (fun e => add_fails creds p name v e \/ (e = Invalid /\ (target = [] \/ 4096 < len target))).
Proof.
  intros Hr. destruct (ready_calm _ _ Hr) as (Hi & Hro & Hc & Hu).
  eapply settles_outcome; [by apply (symlink_settles nobody rely_nobody)|done|..].
  - intros c v' a Hi1 Hi' _ Hl Hq H1 H2 H. split; [|by eapply new_node_gained in H].
    destruct H as (pn & ts & ino & Hp & Hacc & Hval & -> & (pn0 & pn' & enc & m0 & _ & _ & _ & _ & Hnew & _ & _ & Hst)).
    change (store (calmed v')) with (store v') in Hst. assert (ino <> p) by congruence.
    assert (store v' !! KSymlink ino = Some (VBytes target)) as Hsym by (rewrite Hst; by batch_at is_symlink_key).
    assert (exists n, node (store v') ino n /\ i_kind n = Symlink) as (n & Hn & Hk).
    { eexists. split; [rewrite Hst; by batch_at is_inode_key|]. done. }
    destruct (outcome_ok _ _ _ _ (fun t => t = target) (readlink_outcome v' ino Hi' Hq)) as (t & Ht & ->).
    + unfold stale_at. intros e [[_ ?]|[[_ (n0 & Hn0 & Hk0)]|[_ ?]]]; [congruence| |congruence]. congruence.
    + intros t v2 (_ & n0 & x & _ & _ & Hx & ->). by simplify_map_eq.
    + exact Ht.
  - intros c e _ Hl [H|H]; [left; by eapply add_fails_like|by right].
Qed.

(** ** Links *)

Lemma calm_ready fuel v : ready fuel v -> calm True (calmed v) v.
Proof. intros Hr. by destruct (ready_calm _ _ Hr) as (_ & _ & ? & _). Qed.

(** [link] gives a file that has a name one more, and counts it: only that
    name, the file's link count and the directory change. *)
Theorem link_correct fuel v creds ino p name :
  ready fuel v -> (forall n, inode_of v ino = Some n -> i_nlink n <> 0) ->
  outcome (link nobody creds ino p name) v
    (fun a v' => names_of v p name = None /\ dir_changed p 0 v v' /\
       (forall q nm, names_of v' q nm = renamed_to (names_of v) p name (Some ino) q nm) /\
       (exists n ts, inode_of v ino = Some n /\ i_kind n <> Dir /\
          inode_of v' ino = Some (set_i_ctime ts (set_i_nlink (i_nlink n + 1) n)) /\
          a = make_attr ino (set_i_ctime ts (set_i_nlink (i_nlink n + 1) n))) /\
       (forall i, i <> ino -> i <> p -> inode_of v' i = inode_of v i) /\
       (forall i x, bytes_of v' i x = bytes_of v i x))
    (fun e => validate_name name = Err e \/ stale_at v ino e \/
       (e = NotPermitted /\ exists n, inode_of v ino = Some n /\ i_kind n = Dir) \/ no_dir v p e \/
       denied_at creds v p WX e \/ (e = Exists /\ is_Some (names_of v p name))).
Proof.
  intros Hr Hnl. destruct (ready_calm _ _ Hr) as (Hi & Hro & Hc & Hu).
  eapply settles_outcome; [apply (link_settles nobody rely_nobody); try done|done|..].
  { intros n Hn. apply Hnl. by apply inode_of_node. }
  - intros c v' a Hi1 Hi' _ [Es En Ec _ _ _] _ H1 H2 (n & ts & pn & n' & pn' & enc & Hn & Hk & Hp & Hkp & _ & _ & Hse & Hfree & Hdu & -> & -> & Hst).
    rewrite Es, ?En in *. change (store (calmed v')) with (store v') in Hst. assert (ino <> p) as Hne by congruence.
    set (n' := set_i_ctime _ _) in *.
    assert (inode_of v' ino = Some n' /\ inode_of v' p = Some pn') as [In Ip].
    { split; apply inode_of_node; rewrite Hst; unfold link_batch; batch_at is_inode_key; by rewrite ?lookup_insert_ne, ?lookup_insert_eq by congruence. }
    assert (forall i, i <> ino -> i <> p -> inode_of v' i = inode_of v i) as Ho.
    { intros i Hi2 Hi3. apply inode_of_same. rewrite Hst. unfold link_batch. batch_at is_inode_key. by rewrite !lookup_insert_ne by congruence. }
    pose proof (proj2 (inode_of_node _ _ _) Hn) as Hn0. pose proof (proj2 (inode_of_node _ _ _) Hp) as Hp0.
    split_and!; try done.
    + unfold names_of, entry. by rewrite Hse, Hfree.
    + destruct Hdu. exists pn, pn'. split_and!; try done; congruence.
    + apply (names_add v v' p name enc ino H1 Hse); [eexists; split; [rewrite Hst; unfold link_batch; by batch_at is_dirent_key|done]|].
      intros q e Hqe. rewrite Hst. unfold link_batch. batch_at is_dirent_key. by rewrite lookup_insert_ne by congruence.
    + eauto 10.
    + intros i x. apply bytes_same; [done|intros idx; rewrite Hst; unfold link_batch; by batch_at is_chunk_key|].
      destruct (decide (i = ino)) as [->|]; [by rewrite In, Hn0|]. destruct (decide (i = p)) as [->|]; [|by rewrite Ho].
      rewrite Ip, Hp0. simpl. destruct Hdu. congruence.
  - intros c e _ [Es En _ _ _ _] H. unfold stale_at, no_dir, denied_at, names_of in *. rewrite Es, En in H.
    setoid_rewrite inode_of_node. done.
Qed.

(** ** Removal *)

(** The file [i] lost one link: with its last link, when no handle keeps it,
    everything stored for it is gone; otherwise the inode keeps all but its
    link count and ctime, and its bytes, extended attributes and link target
    stay. *)
Definition link_dropped i (n : Inode) v v' : Prop :=
  if (i_nlink n =? 1) && negb (HandleTable.is_open i (v_handles v))
  then inode_of v' i = None /\ forall k, data_of i k -> store v' !! k = None
  else (exists n', inode_of v' i = Some n' /\ i_kind n' = i_kind n /\ i_nlink n' = i_nlink n - 1 /\ relinked n n') /\
       (forall x, bytes_of v' i x = bytes_of v i x) /\
       forall k, data_of i k -> k <> KOrphan i -> store v' !! k = store v !! k.

Lemma burial_inode m i n bur dead buried :
  burial i n bur dead buried ->
  match dead with
  | Some _ => apply_batch m bur !! KInode i = None
  | None => exists n', node (apply_batch m bur) i n' /\ file_update n n' (-1)
  end.
Proof.
  destruct 1 as [n' Hu|o n' Hu|o n' Hu]; unfold settle_batch;
    [exists n'; split; [|done]..|]; by batch_at is_inode_key.
Qed.

Lemma burial_frame m i n bur dead buried k :
  burial i n bur dead buried -> k <> KInode i -> k <> KOrphan i -> k <> KQuotaBytes -> k <> KQuotaInodes ->
  apply_batch m bur !! k = m !! k.
Proof.
  intros Hb H1 H2 H3 H4. apply apply_batch_frame. eapply Forall_impl; [by eapply burial_keys|].
  intros op [->|[->|[->| ->]]]; congruence.
Qed.

Lemma buried_flag c i n (dead : option u64) v :
  like c v -> buried_open c i n dead ->
  (i_nlink n =? 1) && negb (HandleTable.is_open i (v_handles v)) = bool_decide (is_Some dead).
Proof.
  intros Hl Hb. unfold buried_open in Hb. rewrite (lk_handles _ _ Hl) in Hb.
  destruct (HandleTable.is_open i (v_handles v)), (Z.eqb_spec (i_nlink n) 1) as [E|E]; simpl; symmetry;
    (apply bool_decide_eq_true_2 || apply bool_decide_eq_false_2); rewrite Hb; naive_solver.
Qed.

(** How a file fares whose burial [bur] was part of a batch and whose data may
    have been reaped after it. *)
Lemma burial_dropped c v v' i n m bur dead buried :
  like c v -> v_chunk_size v' = v_chunk_size v -> node (store v) i n ->
  burial i n bur dead buried -> buried_open c i n dead ->
  store v' !! KInode i = apply_batch m bur !! KInode i ->
  match dead with
  | None => forall k, data_of i k -> k <> KOrphan i -> store v' !! k = store v !! k
  | Some _ => forall k, data_of i k -> store v' !! k = None
  end -> link_dropped i n v v'.
Proof.
  intros Hl Hcs Hn Hb Ho Hm Hd. unfold link_dropped. rewrite (buried_flag _ _ _ _ _ Hl Ho).
  pose proof (burial_inode m i n bur dead buried Hb) as Hi. destruct dead as [d|].
  - rewrite bool_decide_eq_true_2 by eauto. split; [|done]. unfold inode_of. by rewrite Hm, Hi.
  - rewrite bool_decide_eq_false_2 by (by intros []). destruct Hi as (n' & Hn' & Hu). rewrite <- Hm in Hn'.
    apply inode_of_node in Hn', Hn. destruct Hu. split; [exists n'; split_and!; try done; lia|]. split; [|done].
    apply bytes_same; [done|intros idx; apply Hd; [left; eauto|done]|]. rewrite Hn', Hn. simpl. congruence.
Qed.

Lemma data_of_other i j k : data_of j k -> j <> i -> ~ data_of i k.
Proof. intros [[? ->]|[[? ->]|[->| ->]]] Hj [[? ?]|[[? ?]|[?|?]]]; congruence. Qed.

Lemma pruned_chunk i m m' j idx : pruned i m m' -> j <> i -> m' !! KChunk j idx = m !! KChunk j idx.
Proof. intros Hp Hj. apply (pruned_other i); [done|]. intros [[? ?]|[[? ?]|[?|?]]]; congruence. Qed.

Lemma remove_fails_like creds p name c v e : like c v -> remove_fails creds p name c e -> remove_fails creds p name v e.
Proof. intros [E1 E2 _ _ _ _]. unfold remove_fails, no_dir, denied_at, sticky_at. by rewrite E1, E2. Qed.

(** The caller may remove the entry [name] of [p], which denotes [i]. *)
Definition removable creds p name i (n : Inode) v : Prop :=
  names_of v p name = Some i /\ inode_of v i = Some n /\ validate_name name = Ok tt /\
  exists pn, inode_of v p = Some pn /\ access creds pn WX = Ok tt /\ check_sticky creds pn n = Ok tt.

(** C32: [unlink] removes one name of a file and counts it; when that was the
    last name and no handle is open everything the file stored is gone, and
    otherwise the inode keeps everything but its link count and ctime, and its
    bytes and extended attributes stay.  The directory keeps everything but its
    entries and times; the inode, the bytes, the extended attributes and the
    link target of everything else are as before. *)
Theorem unlink_correct fuel v creds p name :
  ready fuel v ->
  outcome (unlink nobody fuel creds p name) v
    (fun _ v' => exists i n, removable creds p name i n v /\ i_kind n <> Dir /\
       (forall q nm, names_of v' q nm = renamed_to (names_of v) p name None q nm) /\
       dir_changed p 0 v v' /\ link_dropped i n v v' /\
       (forall j, j <> i -> j <> p -> inode_of v' j = inode_of v j) /\
       (forall j x, j <> i -> bytes_of v' j x = bytes_of v j x) /\
       (forall j, j <> i -> data_kept j v v'))
    (fun e => remove_fails creds p name v e \/
       (e = IsDir /\ exists i n, names_of v p name = Some i /\ inode_of v i = Some n /\ i_kind n = Dir)).
Proof.
  intros Hr. destruct (ready_calm _ _ Hr) as (Hi & Hro & Hc & Hu).
  eapply settles_outcome; [by apply (unlink_settles nobody rely_nobody)|done|..].
  2: { intros c e _ Hl [H|H]; [left; by eapply remove_fails_like|right]. destruct Hl as [E1 E2 _ _ _ _].
       unfold names_of. setoid_rewrite inode_of_node. by rewrite E1, E2 in H. }
  intros c v' a Hi1 Hi' _ Hl _ H1 H2
    (pn & pn' & enc & d & n & bur & dead & buried & Hp & Hk & Hacc & Hval & Hse & Hd & Hn & Hkn & Hst & Hdu & Hb & Ho & Hpr & Hm).
  change (store (calmed v')) with (store v') in *. pose proof Hl as [Es En _ _ _ _]. rewrite Es, ?En in *.
  destruct (tree_child_ne _ _ p enc d (wf_tree _ _ _ _ (inv_wf _ (rd_inv _ _ Hr))) Hd) as [Hne _].
  set (i := d_child_ino d) in *. set (m1 := apply_batch (store v) (entry_deletes p enc (d_dirent_id d) ++ [Put (KInode p) (VInode pn')])).
  assert (apply_batch (store v) (unlink_batch p enc (d_dirent_id d) pn' bur) = apply_batch m1 bur) as Eb.
  { unfold unlink_batch, m1. by rewrite (app_assoc _ _ bur), (apply_batch_app _ _ bur). }
  rewrite Eb in Hpr, Hm. clear Eb.
  assert (forall j, j <> i -> store v' !! KInode j = m1 !! KInode j) as Hj.
  { intros j Hji. rewrite (pruned_inode i _ _ j Hpr). eapply burial_frame; [done|congruence..]. }
  assert (inode_of v' p = Some pn') as Hp'.
  { apply inode_of_node. rewrite Hj by done. unfold m1. by batch_at is_inode_key. }
  assert (forall j, j <> i -> j <> p -> inode_of v' j = inode_of v j) as Hother.
  { intros j H3 H4. apply inode_of_same. rewrite Hj by done. unfold m1. batch_at is_inode_key. by rewrite lookup_insert_ne by congruence. }
  assert (forall q e, store v' !! KDirent q e = m1 !! KDirent q e) as Hdir.
  { intros q e. rewrite (pruned_dirent i _ _ q e Hpr). by eapply burial_frame. }
  assert (forall j k, data_of j k -> m1 !! k = store v !! k) as Hdata.
  { intros j k Hdk. eapply data_unmoved; [done|]. by repeat constructor. }
  pose proof (proj2 (inode_of_node _ _ _) Hn) as Hn0. pose proof (proj2 (inode_of_node _ _ _) Hp) as Hp0.
  exists i, n. split_and!; try done.
  - split_and!; [unfold names_of, entry; by rewrite Hse, Hd|done..|]. by exists pn.
  - refine (names_set v v' p name enc None H1 Hse _ _).
    + rewrite Hdir. unfold m1. by batch_at is_dirent_key.
    + intros q e Hqe. rewrite Hdir. unfold m1. batch_at is_dirent_key. by rewrite lookup_delete_ne by congruence.
  - destruct Hdu. exists pn, pn'. split_and!; try done; congruence.
  - eapply (burial_dropped c v v' i n m1); try done; [by apply (pruned_inode i)|]. destruct dead; [done|]. intros k Hdk Hko.
    rewrite Hm, (burial_frame _ _ _ _ _ _ _ Hb); [by eapply Hdata|..]; try done; by destruct Hdk as [[? ->]|[[? ->]|[->| ->]]].
  - intros j x Hji. apply bytes_same; [done|..].
    + intros idx. rewrite (pruned_chunk i _ _ j idx Hpr Hji), (burial_frame _ _ _ _ _ _ _ Hb) by done. unfold m1. by batch_at is_chunk_key.
    + destruct (decide (j = p)) as [->|]; [|by rewrite Hother]. rewrite Hp', Hp0. simpl. destruct Hdu. congruence.
  - intros j Hji k Hdk. rewrite (pruned_other i _ _ k Hpr) by (by eapply data_of_other).
    rewrite (burial_frame _ _ _ _ _ _ _ Hb); [by eapply Hdata|..]; destruct Hdk as [[? ->]|[[? ->]|[->| ->]]]; congruence.
Qed.

Lemma xattr_deletes_none i xs (P : bytes -> Prop) :
  (forall op, op ∈ xs <-> exists x, op = Delete (KXattr i x) /\ P x) ->
  forall f, (forall x, f (KXattr i x) = false) -> ops_on f xs = [].
Proof. intros Hxs f Hf. apply ops_on_none, Forall_forall. intros op Hop. apply Hxs in Hop as (x & -> & _). apply Hf. Qed.

Lemma apply_batch_deleted m b k :
  Delete k ∈ b -> Forall (fun op => match op with Put k' _ | Merge k' _ => k' <> k | Delete _ => True end) b ->
  apply_batch m b !! k = None.
Proof.
  intros (b1 & b2 & ->)%list_elem_of_split Hb. rewrite apply_batch_app. apply Forall_app in Hb as [_ Hb].
  inversion Hb as [|? ? _ Hb2]; subst. change (Delete k :: b2) with ([Delete k] ++ b2). rewrite apply_batch_app.
  apply apply_batch_none; [done|]. apply lookup_delete_eq.
Qed.

Lemma xattrs_forall p enc id i xs pn' x :
  (forall op, op ∈ xs -> exists x, op = Delete (KXattr i x)) ->
  Forall (fun op => match op with Put k' _ | Merge k' _ => k' <> KXattr i x | Delete _ => True end)
    (rmdir_batch p enc id i xs pn').
Proof.
  intros Hxs. unfold rmdir_batch. repeat (apply Forall_app; split); try (by repeat constructor).
  apply Forall_forall. intros op Hop. by destruct (Hxs op Hop) as [y ->].
Qed.

(** [rmdir] removes a directory that has no entries, with its inode and
    its extended attributes, and its parent counts one subdirectory less;
    a directory with entries, or something that is not one, stays. *)
Theorem rmdir_correct fuel v creds p name :
  ready fuel v ->
  outcome (rmdir nobody fuel creds p name) v
    (fun _ v' => exists i n, removable creds p name i n v /\ i_kind n = Dir /\ (forall nm, names_of v i nm = None) /\
       (forall q nm, names_of v' q nm = renamed_to (names_of v) p name None q nm) /\
       dir_changed p (-1) v v' /\ inode_of v' i = None /\ (forall x, xattr_of v' i x = None) /\
       (forall j, j <> i -> j <> p -> inode_of v' j = inode_of v j) /\
       (forall j x, j <> i -> bytes_of v' j x = bytes_of v j x))
    (fun e => remove_fails creds p name v e \/
       (exists i n, names_of v p name = Some i /\ inode_of v i = Some n /\
          ((e = NotDir /\ i_kind n <> Dir) \/
           (e = NotEmpty /\ i_kind n = Dir /\ exists enc d, dent (store v) i enc d)))).
Proof.
  intros Hr. destruct (ready_calm _ _ Hr) as (Hi & Hro & Hc & Hu).
  eapply settles_outcome; [by apply (rmdir_settles nobody rely_nobody)|done|..].
  2: { intros c e _ Hl [H|H]; [left; by eapply remove_fails_like|right]. destruct Hl as [E1 E2 _ _ _ _].
       unfold names_of. setoid_rewrite inode_of_node. by rewrite E1, E2 in H. }
  intros c v' a Hi1 Hi' _ Hl _ H1 H2
    (pn & pn' & enc & d & n & xs & Hp & Hk & Hacc & Hval & Hse & Hd & Hn & Hkn & Hsti & Hemp & Hdu & Hxs & Hst).
  change (store (calmed v')) with (store v') in *. pose proof Hl as [Es En _ _ _ _]. rewrite Es, ?En in *.
  destruct (tree_child_ne _ _ p enc d (wf_tree _ _ _ _ (inv_wf _ (rd_inv _ _ Hr))) Hd) as [Hne _].
  set (i := d_child_ino d) in *. pose proof (xattr_deletes_none i xs _ Hxs) as Hoff. unfold rmdir_batch in Hst.
  assert (forall j, j <> p -> store v' !! KInode j = delete (KInode i) (store v) !! KInode j) as Hj.
  { intros j Hjp. rewrite Hst. batch_at_but is_inode_key Hoff. by rewrite lookup_insert_ne by congruence. }
  assert (inode_of v' p = Some pn') as Hp'.
  { apply inode_of_node. rewrite Hst. by batch_at_but is_inode_key Hoff. }
  assert (forall j, j <> i -> j <> p -> inode_of v' j = inode_of v j) as Hother.
  { intros j H3 H4. apply inode_of_same. rewrite Hj by done. by rewrite lookup_delete_ne by congruence. }
  pose proof (proj2 (inode_of_node _ _ _) Hn) as Hn0. pose proof (proj2 (inode_of_node _ _ _) Hp) as Hp0.
  exists i, n. split_and!; try done.
  - split_and!; [unfold names_of, entry; by rewrite Hse, Hd|done..|]. by exists pn.
  - intros nm. unfold names_of, entry. destruct (seal_name (v_names v) i nm); [|done].
    by rewrite Hemp.
  - refine (names_set v v' p name enc None H1 Hse _ _).
    + rewrite Hst. by batch_at_but is_dirent_key Hoff.
    + intros q e Hqe. rewrite Hst. batch_at_but is_dirent_key Hoff. by rewrite lookup_delete_ne by congruence.
  - destruct Hdu. exists pn, pn'. split_and!; try done; congruence.
  - unfold inode_of. rewrite Hj by done. by rewrite lookup_delete_eq.
  - intros x. unfold xattr_of. rewrite Hst. destruct (decide (is_Some (store v !! KXattr i x))) as [Hx|Hx%eq_None_not_Some].
    + rewrite apply_batch_deleted; [done| |apply xattrs_forall; naive_solver].
      rewrite !elem_of_app. right. right. left. apply Hxs. eauto.
    + rewrite apply_batch_none; [done|apply xattrs_forall; naive_solver|done].
  - intros j x Hji. apply bytes_same; [done|intros idx; rewrite Hst; by batch_at_but is_chunk_key Hoff|].
    destruct (decide (j = p)) as [->|]; [|by rewrite Hother]. rewrite Hp', Hp0. simpl. destruct Hdu. congruence.
Qed.

(** ** Rename *)

(** The fate of what the new name denoted: an empty directory's inode is gone
    (its extended attributes stay behind), a file lost a link. *)
Definition replaced t (r : Inode) v v' : Prop :=
  if is_dir (i_kind r) then (forall nm, names_of v t nm = None) /\ inode_of v' t = None /\ data_kept t v v'
  else link_dropped t r v v'.

(** What a subdirectory adds to the links of its parent. *)
Definition dir_links (n : Inode) : Z := if is_dir (i_kind n) then 1 else 0.

(** [i] moved from [oname] in [op] to [nname] in [np]. *)
Record moved op oname np nname i (mv : Inode) v v' : Prop := {
  mvd_from : names_of v op oname = Some i;
  mvd_inode : inode_of v i = Some mv;
  mvd_names q nm : names_of v' q nm = renamed_to (renamed_to (names_of v) op oname None) np nname (Some i) q nm;
  mvd_cycle : i_kind mv = Dir -> op <> np -> avoids (store v) i np;
  mvd_kept : exists ts, inode_of v' i =
    Some (set_i_ctime ts (set_i_parent_dir (if is_dir (i_kind mv) && negb (op =? np) then np else i_parent_dir mv) mv));
  mvd_old : op <> np -> dir_changed op (- dir_links mv) v v';
  mvd_new : dir_changed np ((if op =? np then 0 else dir_links mv) -
    (if names_of v np nname then dir_links mv else 0)) v v';
  mvd_target t : names_of v np nname = Some t ->
    t <> i /\ exists r, inode_of v t = Some r /\ is_dir (i_kind r) = is_dir (i_kind mv) /\ replaced t r v v';
  mvd_inodes j : j <> i -> j <> op -> j <> np -> names_of v np nname <> Some j -> inode_of v' j = inode_of v j;
  mvd_bytes j x : names_of v np nname <> Some j -> bytes_of v' j x = bytes_of v j x;
  mvd_data j : names_of v np nname <> Some j -> data_kept j v v'
}.

Section moved.
Context (creds : Credentials) (op np : u64) (oname nname : bytes) (c v v' : Volume) (src : Dirent) (dst : option Dirent).
Context (on nn mv : Inode) (b : WriteBatch) (nn1 : Inode) (reap : option u64) (qb qi : i64) (senc enc : bytes).
Context (on' nn2 mv' : Inode) (puts : WriteBatch).
Context (Hl : like c v) (Hi : Inv c) (Hn' : v_names v' = v_names v) (Hcs : v_chunk_size v' = v_chunk_size v).
Context (Hmg : moving creds op oname np nname c src dst on nn mv b nn1 (reap, qb, qi) senc enc on' nn2 mv' puts).
#[local] Abbreviation i := (d_child_ino src).
#[local] Abbreviation m1 := (apply_batch (store c) b).
#[local] Abbreviation m := (apply_batch (store c) (b ++ move_batch op senc src np enc nname nn1 mv' puts)).
Context (Hst : match reap with
               | None => store v' = m
               | Some t => pruned t m (store v') /\ forall k, data_of t k -> store v' !! k = None
               end).

Lemma moved_distinct : i <> op /\ i <> np.
Proof.
  destruct Hmg. split; [|by eapply rename_distinct].
  by destruct (tree_child_ne _ _ op senc src (wf_tree _ _ _ _ (inv_wf _ Hi)) mg_src).
Qed.

(** What the new name denoted is none of the inodes the move rewrites. *)
Lemma target_distinct d : dst = Some d -> d_child_ino d <> i /\ d_child_ino d <> op /\ d_child_ino d <> np.
Proof.
  intros ->. destruct Hmg. pose proof (mg_ne d eq_refl) as Hne. destruct mg_dst as (e & Hse & Hde).
  destruct (tree_child_ne _ _ np e d (wf_tree _ _ _ _ (inv_wf _ Hi)) Hde) as [Hnp _]. split_and!; [done| |done].
  intros Eop. inversion mg_replaced as [|? e' t Hs' Hd' Ht _ _ _ Hemp|? e' t ? ? ? ? ? ? Hs' Hd' Ht _ _ Hk]; subst.
  - by rewrite Hemp in mg_src.
  - destruct mg_ready as [Hop Hopk _ _ _ _ _ _ _ _]. congruence.
Qed.

Lemma moved_store k : (forall t, reap = Some t -> ~ data_of t k) -> store v' !! k = m !! k.
Proof.
  intros Hk. destruct reap as [t|]; [|by rewrite Hst]. destruct Hst as [Hp _]. apply (pruned_other t); [done|]. by apply Hk.
Qed.

Lemma moved_puts : puts = [Put (KInode i) (VInode mv')] ++ (if op =? np then [] else [Put (KInode op) (VInode on')]) ++
                   [Put (KInode np) (VInode nn2)].
Proof. apply Hmg. Qed.

Lemma moved_inode j :
  store v' !! KInode j =
    (if decide (j = np) then Some (VInode nn2) else if decide (j = op) then Some (VInode on')
     else if decide (j = i) then Some (VInode mv') else m1 !! KInode j).
Proof.
  rewrite moved_store by (by intros t _ [[? ?]|[[? ?]|[?|?]]]). rewrite apply_batch_app. unfold move_batch. rewrite moved_puts.
  destruct moved_distinct as [H1 H2].
  destruct (Z.eqb_spec op np) as [Eo|Eo]; rewrite (apply_ops_on is_inode_key) by done;
    cbn [ops_on List.filter op_key is_inode_key app apply_batch fold_left apply_op entry_deletes entry_puts];
    repeat case_decide; try subst j; rewrite ?lookup_insert_ne, ?lookup_insert_eq by congruence; done || congruence.
Qed.

Lemma moved_dirent q e :
  store v' !! KDirent q e =
    (if decide ((q, e) = (np, enc)) then Some (VDirent {| d_name := nname; d_child_ino := i; d_kind := i_kind mv';
                                                          d_dirent_id := i_next_dirent_id nn1 |})
     else if decide ((q, e) = (op, senc)) then None else store c !! KDirent q e).
Proof.
  rewrite moved_store by (by intros t _ [[? ?]|[[? ?]|[?|?]]]). rewrite apply_batch_app. unfold move_batch. rewrite moved_puts.
  assert ((q, e) <> (np, enc) -> m1 !! KDirent q e = store c !! KDirent q e) as Hfr.
  { intros Hne. apply apply_batch_frame. eapply Forall_impl; [by eapply replacement_keys; apply Hmg|]. intros o Hk Eo. cbv beta in Hk. rewrite Eo in Hk.
    destruct dst; [|done]. destruct Hk as [?|[?|[?|[?|[?|?]]]]]; congruence. }
  rewrite (apply_ops_on is_dirent_key) by done. destruct (op =? np);
    cbn [ops_on List.filter op_key is_dirent_key app apply_batch fold_left apply_op entry_deletes entry_puts];
    (destruct (decide ((q, e) = (np, enc))) as [[= -> ->]|Hne]; [apply lookup_insert_eq|]; rewrite lookup_insert_ne by congruence;
     destruct (decide ((q, e) = (op, senc))) as [[= -> ->]|]; [apply lookup_delete_eq|]; rewrite lookup_delete_ne by congruence; auto).
Qed.

Lemma moved_frame j : (forall d, dst = Some d -> j <> d_child_ino d) -> m1 !! KInode j = store c !! KInode j.
Proof.
  intros Hj. apply apply_batch_frame. eapply Forall_impl; [by eapply replacement_keys; apply Hmg|].
  intros o Hk Eo. cbv beta in Hk. rewrite Eo in Hk. destruct dst as [d|]; [|done].
  specialize (Hj d eq_refl). destruct Hk as [?|[?|[?|[?|[?|?]]]]]; congruence.
Qed.

Lemma moved_data j k :
  data_of j k -> (forall t, reap = Some t -> j <> t) -> (forall d, dst = Some d -> k <> KOrphan (d_child_ino d)) ->
  store v' !! k = store c !! k.
Proof.
  intros Hk Hj Ho. rewrite moved_store by (intros t Ht; eapply data_of_other; [done|by apply Hj]).
  rewrite apply_batch_app. transitivity (m1 !! k).
  - eapply data_unmoved; [done|]. unfold move_batch. rewrite moved_puts. destruct (op =? np); by repeat constructor.
  - apply apply_batch_frame. eapply Forall_impl; [by eapply replacement_keys; apply Hmg|].
    intros o Hr Eo. cbv beta in Hr. rewrite Eo in Hr. destruct dst as [d|]; [|done]. specialize (Ho d eq_refl).
    destruct Hk as [[? ->]|[[? ->]|[->| ->]]], Hr as [?|[?|[?|[?|[?|?]]]]]; congruence.
Qed.

Lemma moved_chunk j idx :
  (forall t, reap = Some t -> j <> t) -> store v' !! KChunk j idx = store c !! KChunk j idx.
Proof. intros Hj. eapply moved_data; [left; by eexists|done|done]. Qed.

(** The reaped inode is what the new name denoted. *)
Lemma moved_reaps t : reap = Some t -> exists d, dst = Some d /\ d_child_ino d = t.
Proof.
  intros Ht. destruct Hmg. inversion mg_replaced as [|?|d ? ? ? ? ? rp]; subst; [congruence..|].
  exists d. split; [done|]. destruct rp; congruence.
Qed.

Lemma dst_entry : entry (v_names c) (store c) np nname = d_child_ino <$> dst.
Proof.
  destruct Hmg. destruct mg_dst as (e & He & Hd). unfold entry. rewrite He. destruct dst; by rewrite Hd.
Qed.

Lemma moved_target d :
  dst = Some d -> exists r, node (store c) (d_child_ino d) r /\ is_dir (i_kind r) = is_dir (i_kind mv) /\
    replaced (d_child_ino d) r v v'.
Proof.
  intros Ed. destruct (target_distinct d Ed) as (T1 & T2 & T3). pose proof (moved_inode (d_child_ino d)) as Ht.
  rewrite !decide_False in Ht by done. pose proof Hl as [Es En _ _ _ _]. unfold replaced.
  pose proof moved_data as Hdata. destruct Hmg.
  inversion mg_replaced as [|d' e r He Hd Hr _ Hkm Hkr Hemp|d' e r bur dead buried rp ? ? He Hd Hr _ Hkm Hkr Hb Htd Hop];
    simplify_eq; exists r; (split; [done|]).
  - rewrite (proj2 (is_dir_true _) Hkr), (proj2 (is_dir_true _) Hkm). split_and!; [done|..].
    + intros nm. unfold names_of, entry. rewrite <- En, <- Es. destruct (seal_name (v_names c) (d_child_ino d) nm); [|done]. by rewrite Hemp.
    + unfold inode_of. rewrite Ht. by batch_at is_inode_key.
    + intros k Hk. rewrite Hst, <- Es, apply_batch_app. etrans; [eapply data_unmoved; [done|]|eapply data_unmoved; [done|by repeat constructor]].
      unfold move_batch. destruct mg_writes as [_ _ _ ->]. destruct (op =? np); by repeat constructor.
  - rewrite (proj2 (is_dir_false _) Hkr), (proj2 (is_dir_false _) Hkm). split; [done|].
    apply (burial_dropped c v v' _ r (store c) bur dead buried); try done; [by rewrite <- Es|..].
    + rewrite Ht, apply_batch_app. apply apply_batch_frame. by repeat constructor.
    + unfold burial_todo in Htd. destruct dead; simplify_eq/=; [by destruct Hst|].
      intros k Hk Hko. rewrite <- Es. eapply Hdata; [done|done|]. by intros d' [= <-].
Qed.

Lemma moving_moved : moved op oname np nname i mv v v'.
Proof.
  pose proof Hl as [Es En _ _ _ _]. destruct moved_distinct as [M1 M2].
  assert (names_of v op oname = Some i) as Hfrom.
  { unfold names_of, entry. rewrite <- Es, <- En, (mg_src_enc _ _ _ _ _ _ _ _ _ _ _ _ _ _ _ _ _ _ _ _ Hmg). by rewrite (mg_src _ _ _ _ _ _ _ _ _ _ _ _ _ _ _ _ _ _ _ _ Hmg). }
  assert (names_of v np nname = d_child_ino <$> dst) as Hto by (unfold names_of; rewrite <- Es, <- En; apply dst_entry).
  pose proof moved_inode as Hin. pose proof moved_dirent as Hde. pose proof moved_frame as Hfr. pose proof moved_chunk as Hch.
  pose proof moved_data as Hdt.
  pose proof moved_target as Htg. pose proof target_distinct as Htd. pose proof moved_reaps as Hre.
  destruct Hmg as [S1 S2 S3 S4 S5 S6 [R1 R2 R3 R4 R5 R6 R7 R8 R9 R10] S8 [W1 W2 W3 W4]].
  assert (inode_of v' i = Some mv') as Hmv' by (apply inode_of_node; rewrite Hin, !decide_False by done; by rewrite decide_True).
  assert (forall j, j <> i -> j <> op -> j <> np -> names_of v np nname <> Some j -> inode_of v' j = inode_of v j) as Hj.
  { intros j J1 J2 J3 J4. apply inode_of_same. rewrite Hin, !decide_False by done. rewrite <- Es. apply Hfr.
    intros d -> ->. by rewrite Hto in J4. }
  split; try done.
  - apply inode_of_node. by rewrite <- Es.
  - intros q nm. transitivity (entry (v_names v) (store v') q nm); [unfold names_of; by rewrite Hn'|].
    unfold renamed_to, entry. case_decide as E1; [injection E1 as -> ->; rewrite <- En, S3, Hde; by rewrite decide_True|].
    case_decide as E2; [injection E2 as -> ->; rewrite <- En, S1, Hde|].
    + rewrite decide_False; [by rewrite decide_True|]. intros [= -> ->]. apply E1. f_equal. by eapply seal_name_inj.
    + unfold names_of, entry. rewrite <- En. destruct (seal_name (v_names c) q nm) as [e|] eqn:Eq; [|done].
      rewrite Hde, !decide_False, Es; [done|..]; intros [= -> ->]; [apply E2|apply E1]; f_equal; by eapply seal_name_inj.
  - rewrite <- Es. done.
  - exists (i_ctime mv'). rewrite Hmv'. f_equal. by destruct W1.
  - intros Hne. destruct (W2 Hne). exists on, on'. unfold inode_of. rewrite Hin, decide_False, decide_True, <- Es, R1 by done.
    split_and!; try done; congruence.
  - rewrite Hto. pose proof (replacement_links _ _ _ _ _ _ _ _ _ _ Hi R4 R5 S8) as [L1 L2 L3 L4 L5 L6 _ _ L7 L8]. destruct W3 as [U1 U2 U3 U4 U5 U6 _ _ U7 U8].
    exists nn, nn2. unfold inode_of. rewrite Hin, decide_True, <- Es, R4 by done.
    split_and!; try done; try congruence; [|by eapply redirected_trans]. rewrite U5, L5. unfold dir_links.
    destruct (op =? np), (is_dir (i_kind mv)), dst; simpl; lia.
  - intros t Ht. rewrite Hto in Ht. destruct dst as [d|]; [|done]. injection Ht as <-.
    split; [by apply (Htd d)|]. destruct (Htg d eq_refl) as (r & Hr1 & Hr2 & Hr3). exists r.
    split_and!; try done. apply inode_of_node. by rewrite <- Es.
  - intros j x Hjt. apply bytes_same; [done|..].
    + intros idx. rewrite <- Es. apply Hch. intros t Ht ->. destruct (Hre t Ht) as (d & -> & <-). by rewrite Hto in Hjt.
    + destruct (decide (j = np)) as [->|J1].
      { unfold inode_of. rewrite Hin, decide_True, <- Es, R4 by done. simpl. destruct W3. f_equal. destruct S8; simpl in *; congruence. }
      destruct (decide (j = op)) as [->|J2].
      { unfold inode_of. rewrite Hin, decide_False, decide_True, <- Es, R1 by done. simpl. destruct (W2 J1). congruence. }
      destruct (decide (j = i)) as [->|J3]; [|by rewrite Hj]. rewrite Hmv'. unfold inode_of. rewrite <- Es, R7. simpl. destruct W1. congruence.
  - intros j Hjt k Hk. rewrite <- Es. eapply Hdt; [done|..].
    + intros t Ht ->. destruct (Hre t Ht) as (d & -> & <-). by rewrite Hto in Hjt.
    + intros d -> ->. apply Hjt. rewrite Hto. by destruct Hk as [[? ?]|[[? ?]|[?|?]]]; simplify_eq.
Qed.
End moved.

(** C2: [rename] makes the new name denote what the old one did and frees the
    old one, replacing an empty directory or dropping a link of a file; when
    both names denote one file it does nothing; it never moves a directory
    below itself, and each error has the cause its name says.  The moved inode
    keeps everything but its ctime and, for a directory, its parent; the
    directories keep everything but entries, links and times; the inodes, the
    bytes, the extended attributes and the link targets of everything but a
    replaced target are as before. *)
Theorem rename_correct fuel v creds op oname np nname :
  ready fuel v ->
  outcome (rename nobody fuel creds op oname np nname) v
    (fun _ v' => (exists i, names_of v op oname = Some i /\ names_of v np nname = Some i /\ store v' = store v) \/
                 (exists i mv, moved op oname np nname i mv v v'))
    (rename_error creds op oname np nname v).
Proof.
  intros Hr. destruct (ready_calm _ _ Hr) as (Hi & Hro & Hc & Hu).
  eapply settles_outcome; [by apply (rename_settles nobody rely_nobody)|done|..].
  - intros c v' a Hi1 Hi' _ Hl _ H1 H2 H. change (store (calmed v')) with (store v') in *.
    destruct H as [i E1 E2 E3|src dst on nn mv b nn1 reap qb qi senc enc on' nn2 mv' puts Hmg Hst].
    + left. exists i. unfold names_of. by rewrite <- (lk_store _ _ Hl), <- (lk_names _ _ Hl).
    + right. exists (d_child_ino src), mv. by eapply moving_moved.
  - intros c e _ [E1 E2 _ _ _ _] H.
    destruct H; unfold no_dir, denied_at, sticky_at in *; rewrite ?E1, ?E2 in *;
      [by eapply ren_name|by eapply ren_parent|by eapply ren_absent|by eapply ren_sticky|by eapply ren_dotdot|by eapply ren_cycle|by eapply ren_target].
Qed.
End namespace.
