(* ===== verification/Files.v ===== *)
(** Lookup, listing, file data and extended attributes as a caller sees them. *)

From S2P Require Import Prelude Keys Meta Store Data Quota Locks Volume Vfs Tree Wf WfOps VfsLogic VfsInv Reap.
From S2P Require Import OpsAttr OpsRead OpsCreate OpsRemove OpsRename OpsData OpsHandle System Mount Spec Namespace.

Section files.
Context {DB : SlateDB} {AC : MokaCache u64 Inode} {NC : MokaCache (u64 * bytes) unit} {NCR : NameCrypto}.
Implicit Types (v c : Volume).

(** ** Lookup and attributes *)

(** What a lookup finds. *)
Definition looked_up creds p name v (a : FileAttr) v' : Prop :=
  store v' = store v /\ exists pn, inode_of v p = Some pn /\ i_kind pn = Dir /\ access creds pn ACCESS_X = Ok tt /\
    ((name = DOT /\ a = make_attr p pn) \/
     (name = DOTDOT /\ exists un, inode_of v (i_parent_dir pn) = Some un /\ a = make_attr (i_parent_dir pn) un) \/
     (validate_name name = Ok tt /\ exists i n, names_of v p name = Some i /\ inode_of v i = Some n /\ a = make_attr i n)).

Lemma lookup_outcome v creds p name :
  Inv v -> quiet v -> outcome (lookup creds p name) v (looked_up creds p name v) (lookup_fails creds p name v).
Proof.
  intros Hi Hq. eapply settles_outcome; [eapply (lookup_settles True); [by apply inv_calmed|by split]|done|..].
  - intros c v' a _ _ _ [E1 E2 _ _ _ _] _ _ _ [H1 H2]. unfold looked_up, lookup_done, names_of in *.
    setoid_rewrite inode_of_node. change (store (calmed v')) with (store v') in H2. rewrite E1, E2 in *. done.
  - intros c e _ [E1 E2 _ _ _ _]. unfold lookup_fails, no_dir. by rewrite E1, E2.
Qed.

(** C36: on a consistent volume, whose caches agree with the records, [lookup]
    gives the same answer from a hit and from a miss: the attributes of the inode
    the name denotes, of the directory for a dot, of its parent for two; not
    found exactly when the name is free.  The call runs whole: it takes no lock,
    and what a change during its cache fill does is shown separately. *)
Theorem lookup_correct v creds p name :
  Inv v -> quiet v ->
  outcome (lookup creds p name) v
    (fun a v' => store v' = store v /\ exists pn, inode_of v p = Some pn /\ i_kind pn = Dir /\ access creds pn ACCESS_X = Ok tt /\
       ((name = DOT /\ a = make_attr p pn) \/
        (name = DOTDOT /\ exists un, inode_of v (i_parent_dir pn) = Some un /\ a = make_attr (i_parent_dir pn) un) \/
        (validate_name name = Ok tt /\ exists i n, names_of v p name = Some i /\ inode_of v i = Some n /\ a = make_attr i n)))
    (lookup_fails creds p name v).
Proof. apply lookup_outcome. Qed.

(** [getattr] gives the record's attributes from a hit and from a miss of a
    coherent cache, and fails only for an inode that does not exist. *)
Theorem getattr_correct v ino :
  Inv v -> quiet v ->
  outcome (getattr ino) v
    (fun a v' => store v' = store v /\ exists n, inode_of v ino = Some n /\ a = make_attr ino n)
    (fun e => e = Stale /\ inode_of v ino = None).
Proof.
  intros Hi Hq. eapply settles_outcome; [eapply (getattr_settles True); [by apply inv_calmed|by split]|done|..].
  - intros c v' a _ _ _ [E1 _ _ _ _ _] _ _ _ [(n & Hn & ->) H2]. change (store (calmed v')) with (store v') in H2.
    rewrite E1 in *. split; [done|]. exists n. split; [|done]. by apply inode_of_node.
  - intros c e _ [E1 _ _ _ _ _] [-> H]. unfold inode_of. by rewrite <- E1, H.
Qed.

(** ** Listing *)

Lemma readdir_outcome v creds p cookie max :
  Inv v -> quiet v -> is_u64 cookie -> 0 <= max ->
  outcome (readdir creds p cookie max) v
    (fun rd v' => readdir_done creds p cookie max v rd /\ store v' = store v /\ quiet v' /\ v_names v' = v_names v)
    (fun e => no_dir v p e \/ denied_at creds v p ACCESS_R e).
Proof.
  intros Hi Hq Hc Hm. eapply settles_outcome; [eapply (readdir_settles True); [by apply inv_calmed|done|done|by split]|done|..].
  - intros c v' rd _ _ _ [E1 E2 _ _ _ _] Hq' Hn _ [(pn & L & H1 & H2 & H3 & H4 & H5 & H7) H6]. change (store (calmed v')) with (store v') in H6.
    rewrite E1 in *. split_and!; try done. exists pn, L. split_and!; try done. destruct H4 as [A B]. rewrite E1 in A. by split.
  - intros c e _ [E1 _ _ _ _ _] H. unfold no_dir, denied_at in *. by rewrite E1 in H.
Qed.

(** A client's listing: pages of at most [max] entries from [cookie] on. *)
Fixpoint list_pages (pages : nat) creds p (cookie : u64) (max : usize) : FsM (list DirEntry) :=
  match pages with
  | O => st_fail OutOfFuel
  | S pages =>
      rd <- readdir creds p cookie max ;;
      if rd_eof rd then st_ret (rd_entries rd)
      else rest <- list_pages pages creds p (default cookie (de_cookie <$> last (rd_entries rd))) max ;;
           st_ret (rd_entries rd ++ rest)
  end.

Definition cookie_lt (a b : DirEntry) : Prop := de_cookie a < de_cookie b.

Lemma sorted_cookies L : StronglySorted Z.lt (de_cookie <$> L) <-> StronglySorted cookie_lt L.
Proof.
  induction L as [|e L IH]; simpl; [split; constructor|]. split; intros [H1 H2]%StronglySorted_inv; constructor.
  - by apply IH.
  - exact (proj1 (Forall_fmap _ _ _) H2).
  - by apply IH.
  - exact (proj2 (Forall_fmap _ _ _) H2).
Qed.

Lemma sorted_nodup L : StronglySorted cookie_lt L -> NoDup L.
Proof.
  induction 1 as [|e L _ IH Hall]; constructor; [|done]. intros He.
  pose proof (proj1 (Forall_forall _ _) Hall e He) as H. unfold cookie_lt in H. lia.
Qed.

Lemma listed_unique v p cookie L L' : listed v p cookie L -> listed v p cookie L' -> L = L'.
Proof.
  intros [A B%sorted_cookies] [A' B'%sorted_cookies].
  assert (AntiSymm eq cookie_lt) by (intros a b H1 H2; unfold cookie_lt in *; lia).
  eapply (StronglySorted_unique cookie_lt); [done..|]. apply NoDup_Permutation; [by apply sorted_nodup..|].
  intros e. by rewrite A, A'.
Qed.

(** What follows a page is the listing from the cookie of its last entry. *)
Lemma listed_rest v p cookie L1 e L2 :
  listed v p cookie (L1 ++ e :: L2) -> listed v p (de_cookie e) L2.
Proof.
  intros [A B%sorted_cookies].
  assert (StronglySorted cookie_lt (e :: L2) /\ Forall (fun a => cookie_lt a e) L1) as [B2 B1].
  { clear A. induction L1 as [|a L1 IH]; simpl in *; [done|]. apply StronglySorted_inv in B as [B Ba]. destruct (IH B) as [H1 H2].
    split; [done|]. constructor; [|done]. apply Forall_app in Ba as [_ Ba]. by inversion Ba. }
  apply StronglySorted_inv in B2 as [B2 Be]. split; [|by apply sorted_cookies].
  assert (cookie < de_cookie e) as Hce.
  { destruct (proj1 (A e)) as (enc & d & _ & H & ->); [set_solver|done]. }
  intros a. split.
  - intros Ha. destruct (proj1 (A a)) as (enc & d & Hd & _ & ->); [set_solver|]. exists enc, d. split_and!; [done| |done].
    exact (proj1 (Forall_forall _ _) Be _ Ha).
  - intros (enc & d & Hd & Hlt & ->).
    assert (de_of d ∈ L1 ++ e :: L2) as Hin by (apply A; exists enc, d; split_and!; [done|lia|done]).
    apply elem_of_app in Hin as [Hin|Hin%elem_of_cons]; [|destruct Hin as [<-|]; [simpl in Hlt; lia|done]].
    pose proof (proj1 (Forall_forall _ _) B1 _ Hin) as H. unfold cookie_lt in H. simpl in H. lia.
Qed.

Lemma listed_store v v' p cookie L : store v' = store v -> listed v p cookie L -> listed v' p cookie L.
Proof. intros E [A B]. split; [|done]. by rewrite E. Qed.

Lemma pages_listed pages creds p pn cookie max L : forall v,
  Inv v -> quiet v -> is_u64 cookie -> 0 < max -> node (store v) p pn -> i_kind pn = Dir -> access creds pn ACCESS_R = Ok tt ->
  listed v p cookie L -> (length L < pages)%nat ->
  exists v', list_pages pages creds p cookie max v = (Ok L, v').
Proof.
  revert cookie L. induction pages as [|pages IH]; intros cookie L v Hi Hq Hck Hmax Hp Hk Hacc HL Hlen; [lia|].
  cbn [list_pages]. unfold st_bind.
  pose proof (readdir_outcome v creds p cookie max Hi Hq Hck ltac:(lia)) as Ho. unfold outcome in Ho.
  destruct (readdir creds p cookie max v) as [[rd|[e|]] v1]; [|exfalso|done].
  2: { destruct Ho as (_ & _ & [[[_ ?]|(_ & n & ? & ?)]|[_ (n & ? & ?)]]); congruence. }
  destruct Ho as ([Hi1 _ _] & (pn' & L' & Hp' & _ & _ & HL' & Hent & Heof) & Hs1 & Hq1 & Hn1).
  assert (L' = L) as -> by by eapply listed_unique. rewrite Heof, Hent.
  destruct (Z.leb_spec (len L) max) as [Hle|Hgt].
  { exists v1. unfold st_ret. rewrite take_ge; [done|]. unfold len in Hle. lia. }
  assert (exists L1 e L2, L = L1 ++ e :: L2 /\ take (Z.to_nat max) L = L1 ++ [e] /\ (length L2 < length L)%nat) as (L1 & e & L2 & E1 & E2 & E3).
  { destruct (Z.to_nat max) as [|k] eqn:Ek; [lia|]. unfold len in Hgt. destruct (lookup_lt_is_Some_2 L k) as [e He]; [lia|].
    exists (take k L), e, (drop (S k) L). rewrite (take_S_r _ _ _ He), length_drop. split_and!; [by rewrite take_drop_middle|done|lia]. }
  rewrite E2, last_snoc. change (default cookie (de_cookie <$> Some e)) with (de_cookie e).
  pose proof (listed_rest v p cookie L1 e L2 ltac:(by rewrite <- E1)) as HL2.
  destruct (IH (de_cookie e) L2 v1) as [v2 Hv2]; try done; [|by rewrite Hs1|by eapply listed_store|lia|].
  - destruct (proj1 (ls_elem _ _ _ _ HL e)) as (enc & d & Hd & _ & ->); [rewrite E1; set_solver|].
    destruct (tr_dirent _ _ _ _ _ (wf_tree _ _ _ _ (inv_wf _ Hi)) _ _ _ Hd) as (? & [= <-] & [_ _ Hx _ _]).
    by destruct (wf_keys _ _ _ _ (inv_wf _ Hi) _ _ Hx) as [[_ Hok] _].
  - exists v2. rewrite Hv2. unfold st_ret. by rewrite E1, <- app_assoc.
Qed.

(** C35: a client that pages through a directory with any page size gets every
    entry exactly once, in cookie order, and the end-of-directory mark after
    finitely many pages. *)
Theorem readdir_complete v creds p pn max pages :
  Inv v -> quiet v -> 0 < max -> inode_of v p = Some pn -> i_kind pn = Dir -> access creds pn ACCESS_R = Ok tt ->
  exists L, listed v p 0 L /\ NoDup L /\
    ((length L < pages)%nat -> (list_pages pages creds p 0 max v).1 = Ok L).
Proof.
  intros Hi Hq Hmax Hp%inode_of_node Hk Hacc. assert (is_u64 0) as H0 by (unfold is_u64; lia).
  destruct (index_listed v p pn 0 Hi Hp H0) as (L & _ & HL).
  exists L. split; [done|]. split; [apply sorted_nodup, sorted_cookies, HL|]. intros Hlen.
  destruct (pages_listed pages creds p pn 0 max L v) as [v' Hv']; try done. by rewrite Hv'.
Qed.

(** ** File data *)

(** Only the file [i] changed: its bytes, its inode and the byte quota. *)
Definition only_file i v v' : Prop :=
  (forall q nm, names_of v' q nm = names_of v q nm) /\
  (forall j, j <> i -> inode_of v' j = inode_of v j) /\ (forall j x, j <> i -> bytes_of v' j x = bytes_of v j x) /\
  (forall j x, xattr_of v' j x = xattr_of v j x).

Lemma only_file_intro i v v' :
  v_names v' = v_names v -> v_chunk_size v' = v_chunk_size v ->
  (forall k, (forall idx, k <> KChunk i idx) -> k <> KInode i -> k <> KQuotaBytes -> store v' !! k = store v !! k) ->
  only_file i v v'.
Proof.
  intros Hn Hcs Hk. split_and!.
  - intros q nm. unfold names_of. rewrite Hn. apply entry_agree. intros. by apply Hk.
  - intros j Hj. apply inode_of_same, Hk; [done|congruence|done].
  - intros j x Hj. apply bytes_same; [done|intros idx; apply Hk; congruence|].
    f_equal. apply inode_of_same, Hk; [done|congruence|done].
  - intros j x. unfold xattr_of. by rewrite Hk.
Qed.

Lemma bytes_of_size v i n x : inode_of v i = Some n -> bytes_of v i x = content (store v) (v_chunk_size v) i (i_size n) x.
Proof. unfold bytes_of. by intros ->. Qed.

Definition no_file v i (e : FsError) : Prop :=
  exists n, inode_of v i = Some n /\ i_kind n <> File /\ e = if is_dir (i_kind n) then IsDir else Invalid.

Lemma write_outcome fuel v creds ino off data :
  ready fuel v -> is_u64 off ->
  outcome (write nobody creds ino off data) v
    (fun r v' => r = as_u32 (len data) /\ only_file ino v v' /\ (data = [] -> store v' = store v) /\ (data <> [] ->
       exists n n', inode_of v ino = Some n /\ i_kind n = File /\ access creds n ACCESS_W = Ok tt /\
         inode_of v' ino = Some n' /\ i_size n' = Z.max (i_size n) (off + len data) /\ i_kind n' = File /\ i_nlink n' = i_nlink n /\
         i_mode n' = (if negb (is_root creds) && negb (Z.land (i_mode n) o6000 =? 0) then Z.ldiff (i_mode n) o6000 else i_mode n) /\
         forall x, bytes_of v' ino x = if (off <=? x) && (x <? off + len data) then byte_at data (x - off) else bytes_of v ino x))
    (fun e => (e = FileTooBig /\ v_chunk_size v * U32_MAX < off + len data) \/ stale_at v ino e \/ no_file v ino e \/
       denied_at creds v ino ACCESS_W e \/ (e = QuotaExceeded /\ exists d, refuses d 0 v)).
Proof.
  intros Hr Hoff. destruct (ready_calm _ _ Hr) as (Hi & Hro & Hc & Hu).
  eapply settles_outcome; [by apply (write_settles nobody rely_nobody)|done|..].
  - intros c v' r _ _ _ [E1 E2 E3 _ _ _] _ H1 H2 H. change (store (calmed v')) with (store v') in H. rewrite E1 in H.
    destruct H as [(-> & -> & Hs)|(Hne & -> & (n & n' & Hn & Hk & Hacc & Hn' & Hu' & Hsz & Hmode & Hx & Hf))].
    + split_and!; try done. apply only_file_intro; [done..|]. intros. by rewrite Hs.
    + change (store (calmed v')) with (store v') in *. rewrite E1, ?E3 in *. apply inode_of_node in Hn, Hn'. split_and!; try done.
      * by apply only_file_intro.
      * intros _. exists n, n'. destruct Hu'. split_and!; try done; [congruence|]. intros x. rewrite (bytes_of_size _ _ _ _ Hn), (bytes_of_size _ _ _ _ Hn').
        rewrite H2. apply Hx.
  - intros c e _ [E1 E2 E3 E4 _ _] H. unfold stale_at, denied_at, refuses, no_file in *. setoid_rewrite inode_of_node.
    by rewrite E1, E3, E4 in H.
Qed.

(** C3: [write] replaces exactly the bytes it is given, across any number of
    chunks and past the end with zeros between, grows the size to the last byte
    written and drops the setuid bits for all but root; no other file, name or
    attribute changes, and an error changes nothing. *)
Theorem write_correct fuel v creds ino off data :
  ready fuel v -> is_u64 off ->
  outcome (write nobody creds ino off data) v
    (fun r v' => r = as_u32 (len data) /\ only_file ino v v' /\ (data = [] -> store v' = store v) /\ (data <> [] ->
       exists n n', inode_of v ino = Some n /\ i_kind n = File /\ access creds n ACCESS_W = Ok tt /\
         inode_of v' ino = Some n' /\ i_size n' = Z.max (i_size n) (off + len data) /\ i_kind n' = File /\ i_nlink n' = i_nlink n /\
         i_mode n' = (if negb (is_root creds) && negb (Z.land (i_mode n) o6000 =? 0) then Z.ldiff (i_mode n) o6000 else i_mode n) /\
         forall x, bytes_of v' ino x = if (off <=? x) && (x <? off + len data) then byte_at data (x - off) else bytes_of v ino x))
    (fun e => (e = FileTooBig /\ v_chunk_size v * U32_MAX < off + len data) \/ stale_at v ino e \/ no_file v ino e \/
       denied_at creds v ino ACCESS_W e \/ (e = QuotaExceeded /\ exists d, refuses d 0 v)).
Proof. apply write_outcome. Qed.

Lemma read_outcome fuel v creds ino off n policy :
  ready fuel v -> is_u64 off -> is_u32 n ->
  outcome (read_with_atime_policy nobody creds ino off n policy) v
    (fun bs v' => exists r, inode_of v ino = Some r /\ i_kind r = File /\ access creds r ACCESS_R = Ok tt /\
       len bs = Z.max 0 (Z.min (i_size r) (off + n) - off) /\
       (forall i, 0 <= i < len bs -> byte_at bs i = bytes_of v ino (off + i)) /\
       (store v' = store v \/ exists ts, store v' = <[KInode ino := VInode (set_i_atime ts r)]> (store v)))
    (fun e => stale_at v ino e \/ denied_at creds v ino ACCESS_R e \/ no_file v ino e).
Proof.
  intros Hr Hoff Hn. destruct (ready_calm _ _ Hr) as (Hi & Hro & Hc & Hu).
  eapply settles_outcome; [by apply (read_settles nobody rely_nobody)|done|..].
  - intros c v' bs _ _ _ [E1 E2 E3 _ _ _] _ H1 H2 [(r & Hn0 & Hk & Hacc & Hl & Hb) Ha].
    change (store (calmed v)) with (store v) in *. change (v_chunk_size (calmed v)) with (v_chunk_size v) in *.
    exists r. pose proof (proj2 (inode_of_node _ _ _) Hn0) as Hr0. split_and!; try done.
    + intros i Hi2. rewrite (Hb i Hi2). by rewrite (bytes_of_size _ _ _ _ Hr0).
    + unfold atimed in Ha. change (store (calmed v')) with (store v') in Ha. rewrite E1 in Ha.
      destruct Ha as [|(r' & ts & Hr' & Ha)]; [by left|]. right. exists ts. congruence.
  - intros c e _ [E1 E2 E3 E4 _ _] H. unfold stale_at, denied_at, no_file in *. setoid_rewrite inode_of_node. rewrite E1 in H.
    destruct H as [?|[?|(r & ? & ? & ?)]]; eauto 10.
Qed.

(** C8: [read] returns exactly the file's bytes from the offset up to the
    requested length or the end of the file, holes as zeros, and changes at
    most the access time. *)
Theorem read_correct fuel v creds ino off n policy :
  ready fuel v -> is_u64 off -> is_u32 n ->
  outcome (read_with_atime_policy nobody creds ino off n policy) v
    (fun bs v' => exists r, inode_of v ino = Some r /\ i_kind r = File /\ access creds r ACCESS_R = Ok tt /\
       len bs = Z.max 0 (Z.min (i_size r) (off + n) - off) /\
       (forall i, 0 <= i < len bs -> byte_at bs i = bytes_of v ino (off + i)) /\
       (store v' = store v \/ exists ts, store v' = <[KInode ino := VInode (set_i_atime ts r)]> (store v)))
    (fun e => stale_at v ino e \/ denied_at creds v ino ACCESS_R e \/ no_file v ino e).
Proof. apply read_outcome. Qed.

(** C9: what [write] wrote, [read] reads back: the bytes of one successful
    write are the result of a read of the same range that follows it. *)
Theorem write_read fuel v v' creds ino off data r policy :
  ready fuel v -> is_u64 off -> is_u32 (len data) -> data <> [] ->
  write nobody creds ino off data v = (Ok r, v') -> ready fuel v' ->
  (forall n', inode_of v' ino = Some n' -> access creds n' ACCESS_R = Ok tt) ->
  (read_with_atime_policy nobody creds ino off (len data) policy v').1 = Ok data.
Proof.
  intros Hr Hoff Hlen Hne Hw Hr' Hacc.
  pose proof (write_outcome fuel v creds ino off data Hr Hoff) as Ho. unfold outcome in Ho. rewrite Hw in Ho.
  destruct Ho as (_ & _ & _ & _ & Hd). destruct (Hd Hne) as (n & n' & Hn & Hk & _ & Hn' & Hsz & Hkd & _ & _ & Hx).
  pose proof (read_outcome fuel v' creds ino off (len data) policy Hr' Hoff Hlen) as Hro.
  destruct (outcome_ok _ _ _ _ (fun bs => bs = data) Hro) as (bs & Hbs & ->); [| |done].
  - intros e [[_ Hs]|[(_ & r0 & Hr0 & Hd0)|(r0 & Hr0 & Hk0 & _)]].
    + apply inode_of_node in Hn'. congruence.
    + apply inode_of_node in Hr0. rewrite (Hacc r0 Hr0) in Hd0. done.
    + congruence.
  - intros bs v2 (r0 & Hr0 & _ & _ & Hl & Hb & _). simplify_eq. rewrite Hsz in Hl.
    assert (len bs = len data) as El by (unfold is_u64, len in *; lia). apply byte_at_ext; [done|].
    intros i Hi. rewrite (Hb i Hi), Hx. rewrite (proj2 (Z.leb_le _ _)), (proj2 (Z.ltb_lt _ _)) by lia. simpl. f_equal. lia.
Qed.

(** ** Attributes *)

(** The caller may set a time of [n] to [t]. *)
Definition may_time creds (n : Inode) t : Prop :=
  is_privileged creds = true \/ c_uid creds = i_uid n \/ (t = TNow /\ access creds n ACCESS_W = Ok tt).

(** Who may set what: the mode, its owner; the owner, only a privileged caller
    may change it; the group, its owner to a group the caller is in; a time,
    its owner, or to the current time whoever may write. *)
Record setattr_permitted creds attrs (n : Inode) : Prop := {
  sp_mode : is_Some (s_mode attrs) -> is_privileged creds = true \/ c_uid creds = i_uid n;
  sp_uid u : s_uid attrs = Some u -> is_privileged creds = true \/ (c_uid creds = i_uid n /\ u = i_uid n);
  sp_gid g : s_gid attrs = Some g ->
    is_privileged creds = true \/ (c_uid creds = i_uid n /\ (g = i_gid n \/ in_group creds g = true));
  sp_time t : s_atime attrs = Some t \/ s_mtime attrs = Some t -> may_time creds n t
}.

(** The mode bits after it: set-group-id is dropped for a caller outside the
    group, and both set-id bits when a caller other than root changes the group. *)
Definition mode_after creds attrs (n : Inode) : u32 :=
  let mode := match s_mode attrs with
              | Some m => let m := Z.land m o7777 in
                          if is_privileged creds || in_group creds (i_gid n) then m else Z.ldiff m o2000
              | None => i_mode n
              end in
  match s_gid attrs with
  | Some g => if is_root creds || (g =? i_gid n) then mode else Z.ldiff mode o6000
  | None => mode
  end.

Definition time_after (slot : option TimeSet) (ts old : Timespec) : Timespec :=
  match slot with None => old | Some TNow => ts | Some (TTime t) => t end.

(** The inode after the gates, before a change of size. *)
Definition fields_after creds attrs ts (n : Inode) : Inode :=
  set_i_mtime (time_after (s_mtime attrs) ts (i_mtime n)) (set_i_atime (time_after (s_atime attrs) ts (i_atime n))
    (set_i_gid (default (i_gid n) (s_gid attrs)) (set_i_uid (default (i_uid n) (s_uid attrs))
      (set_i_mode (mode_after creds attrs n) n)))).

(** The gates one by one: the change they refuse, and what they do. *)
Definition mode_refused creds (o : bool) (m : option u32) : bool := opt_ok m && negb (is_privileged creds || o).
Definition uid_refused creds (o : bool) (u : option u32) (n : Inode) : bool :=
  match u with Some u => negb (is_privileged creds || (o && (u =? i_uid n))) | None => false end.
Definition gid_refused creds (o : bool) (g : option u32) (n : Inode) : bool :=
  match g with Some g => negb (is_privileged creds || (o && ((g =? i_gid n) || in_group creds g))) | None => false end.
Definition time_refused creds (o : bool) (t : option TimeSet) (n : Inode) : option FsError :=
  if is_privileged creds || o then None
  else match t with
       | None => None
       | Some TNow => match access creds n ACCESS_W with Ok _ => None | Err e => Some e end
       | Some (TTime _) => Some NotPermitted
       end.

Definition mode_given creds (m : option u32) (n : Inode) : u32 :=
  match m with
  | Some m => let m := Z.land m o7777 in if is_privileged creds || in_group creds (i_gid n) then m else Z.ldiff m o2000
  | None => i_mode n
  end.

Lemma set_mode_gate creds o m n :
  set_mode creds o m n = if mode_refused creds o m then Err NotPermitted else Ok (set_i_mode (mode_given creds m n) n).
Proof.
  unfold set_mode, mode_refused, mode_given. destruct m; [|by destruct n]. rewrite <- negb_orb. cbn [opt_ok andb].
  destruct (is_privileged creds || o); cbn [negb]; [|done]. by rewrite <- negb_orb; destruct (_ || in_group _ _).
Qed.

Lemma set_uid_gate creds o u n :
  set_uid creds o u n = if uid_refused creds o u n then Err NotPermitted else Ok (set_i_uid (default (i_uid n) u) n).
Proof. unfold set_uid, uid_refused. destruct u; [done|by destruct n]. Qed.

Lemma set_gid_gate creds o g n :
  set_gid creds o g n =
    if gid_refused creds o g n then Err NotPermitted
    else Ok (set_i_gid (default (i_gid n) g)
      (set_i_mode (match g with Some g => if is_root creds || (g =? i_gid n) then i_mode n else Z.ldiff (i_mode n) o6000 | None => i_mode n end) n)).
Proof.
  unfold set_gid, gid_refused. destruct g; [|by destruct n]. rewrite <- negb_orb. destruct (negb _); [done|].
  rewrite <- negb_orb. destruct n. by destruct (is_root creds || _).
Qed.

Lemma set_time_gate creds o b ts t n :
  set_time creds o b ts t n =
    match time_refused creds o t n with
    | Some e => Err e
    | None => Ok (if b then set_i_atime (time_after t ts (i_atime n)) n else set_i_mtime (time_after t ts (i_mtime n)) n)
    end.
Proof.
  unfold set_time, time_refused. rewrite <- negb_orb. destruct (is_privileged creds || o); cbn [negb];
    destruct t as [[|t]|]; try done; try (by destruct b, n). by destruct (access creds n ACCESS_W) as [[]|].
Qed.

Lemma access_denied creds n w e : access creds n w = Err e -> e = AccessDenied.
Proof. unfold access. repeat case_match; intros; by simplify_eq. Qed.

Lemma time_refused_spec creds o t n :
  (o = true <-> c_uid creds = i_uid n) ->
  match time_refused creds o t n with
  | None => forall t', t = Some t' -> may_time creds n t'
  | Some e => (e = NotPermitted \/ (e = AccessDenied /\ access creds n ACCESS_W = Err AccessDenied)) /\
              exists t', t = Some t' /\ ~ may_time creds n t'
  end.
Proof.
  intros Ho. unfold time_refused, may_time. destruct (is_privileged creds); cbn [orb]; [by auto|].
  destruct o; [intros t' _; right; left; by apply Ho|]. assert (c_uid creds <> i_uid n) by (intros E%Ho; done).
  destruct t as [[|t]|]; [destruct (access creds n ACCESS_W) as [[]|e] eqn:E| |done].
  - intros t' [= <-]. auto.
  - rewrite (access_denied _ _ _ _ E) in *. split; [by right|]. eexists. split; [done|]. by intros [?|[?|[_ ?]]].
  - split; [by left|]. eexists. split; [done|]. by intros [?|[?|[? _]]].
Qed.

(** The gates let a setattr through exactly when it is permitted. *)
Lemma setattr_fields_spec creds attrs ts n :
  match setattr_fields creds attrs ts n with
  | Ok n1 => setattr_permitted creds attrs n /\ n1 = fields_after creds attrs ts n
  | Err e => ~ setattr_permitted creds attrs n /\ (e = NotPermitted \/ (e = AccessDenied /\ access creds n ACCESS_W = Err AccessDenied))
  end.
Proof.
  destruct attrs as [sm su sg ss sa st]. unfold setattr_fields, fields_after, mode_after. cbn [s_mode s_uid s_gid s_size s_atime s_mtime].
  set (o := c_uid creds =? i_uid n). assert (o = true <-> c_uid creds = i_uid n) as Ho by apply Z.eqb_eq. clearbody o.
  rewrite set_mode_gate. destruct (mode_refused creds o sm) eqn:Em; cbn [result_bind].
  { split; [|by left]. intros [H _ _ _]. unfold mode_refused in Em. destruct sm; [|done]. apply negb_true_iff, orb_false_iff in Em as [E1 E2].
    destruct H as [?|E%Ho]; cbn; [by eauto|congruence..]. }
  rewrite set_uid_gate. change (uid_refused _ _ _ _) with (uid_refused creds o su n). destruct (uid_refused creds o su n) eqn:Eu; cbn [result_bind].
  { split; [|by left]. intros [_ H _ _]. unfold uid_refused in Eu. cbn in H. destruct su as [u|]; [|done]. destruct (H u eq_refl) as [E|[E1%Ho ->]];
      [by rewrite E in Eu|]. by rewrite E1, Z.eqb_refl, orb_true_r in Eu. }
  rewrite set_gid_gate. change (gid_refused _ _ _ _) with (gid_refused creds o sg n). destruct (gid_refused creds o sg n) eqn:Eg; cbn [result_bind].
  { split; [|by left]. intros [_ _ H _]. unfold gid_refused in Eg. cbn in H. destruct sg as [g|]; [|done].
    destruct (H g eq_refl) as [E|[E1%Ho [->|E2]]]; [by rewrite E in Eg|by rewrite E1, Z.eqb_refl, orb_true_r in Eg|].
    by rewrite E1, E2, !orb_true_r in Eg. }
  rewrite set_time_gate. set (n3 := set_i_gid _ _).
  assert (forall t, time_refused creds o t n3 = time_refused creds o t n) as Hn3.
  { intros t. unfold time_refused. destruct (is_privileged creds) eqn:Hp, o; try done; cbn [orb].
    unfold mode_refused, uid_refused, gid_refused in Em, Eu, Eg. rewrite Hp in Em, Eu, Eg. by destruct sm, su, sg. }
  pose proof (fun t => time_refused_spec creds o t n Ho) as Hspec. pose proof (Hspec sa) as Ha. pose proof (Hspec st) as Hm.
  rewrite Hn3. destruct (time_refused creds o sa n) as [e|]; cbn [result_bind].
  { destruct Ha as (He & t & -> & Hx). split; [|done]. intros [_ _ _ H]. apply Hx, H. by left. }
  rewrite set_time_gate. change (time_refused creds o st _) with (time_refused creds o st n3). rewrite Hn3.
  destruct (time_refused creds o st n) as [e|].
  { destruct Hm as (He & t & -> & Hx). split; [|done]. intros [_ _ _ H]. apply Hx, H. by right. }
  split; [|by destruct n]. unfold mode_refused, uid_refused, gid_refused in Em, Eu, Eg. split; cbn.
  - intros [m ->]. apply negb_false_iff, orb_true_iff in Em as [?|?%Ho]; auto.
  - intros u ->. apply negb_false_iff, orb_true_iff in Eu as [?|[?%Ho ?%Z.eqb_eq]%andb_true_iff]; auto.
  - intros g ->. apply negb_false_iff, orb_true_iff in Eg as [?|[?%Ho [?%Z.eqb_eq|?]%orb_true_iff]%andb_true_iff]; auto.
  - intros t [->| ->]; auto.
Qed.

(** Why a setattr is refused. *)
Definition setattr_refused creds ino attrs v (e : FsError) : Prop :=
  stale_at v ino e \/
  (exists n ts, inode_of v ino = Some n /\
     ((~ setattr_permitted creds attrs n /\ (e = NotPermitted \/ (e = AccessDenied /\ access creds n ACCESS_W = Err AccessDenied))) \/
      (is_Some (s_size attrs) /\ i_kind n <> File /\ e = (if is_dir (i_kind n) then IsDir else Invalid)) \/
      (is_Some (s_size attrs) /\ setattr_permitted creds attrs n /\ e = AccessDenied /\
         access creds (fields_after creds attrs ts n) ACCESS_W = Err AccessDenied))) \/
  (e = QuotaExceeded /\ exists d, refuses d 0 v).

Lemma setattr_fails_refused creds ino attrs v e : setattr_fails creds ino attrs v e -> setattr_refused creds ino attrs v e.
Proof.
  intros [?|[(n & ts & Hn & H)|?]]; [by left| |by right; right]. right. left. exists n, ts. split; [by apply inode_of_node|].
  pose proof (setattr_fields_spec creds attrs ts n) as Hs. destruct H as [H|[H|(n1 & Hz & H & Ha)]]; [rewrite H in Hs; by left|by right; left|].
  rewrite H in Hs. destruct Hs as [Hp ->]. pose proof (access_denied _ _ _ _ Ha). subst e. by right; right.
Qed.

(** C34: [setattr] to a size the chunk index can address cuts or extends the
    file to it: bytes below the new size stay, bytes past it are gone, and a
    file extended again reads zeros there.  It goes through exactly when the
    caller is permitted every change, and then each attribute is the one asked
    for (the set-id bits dropped where the rules say), mtime and ctime move as
    the change of size says, and no other field or file changes. *)
Theorem setattr_correct fuel v creds ino attrs :
  ready fuel v -> (forall size, s_size attrs = Some size -> 0 <= size <= max_size (v_chunk_size v)) ->
  outcome (setattr nobody creds ino attrs) v
    (fun a v' => only_file ino v v' /\ exists n n' ts, inode_of v ino = Some n /\ setattr_permitted creds attrs n /\
       sizeable creds attrs n (fields_after creds attrs ts n) /\
       inode_of v' ino = Some n' /\ a = make_attr ino n' /\
       n' = set_i_billed_bytes (i_billed_bytes n') (with_size ts (default (i_size n) (s_size attrs)) (fields_after creds attrs ts n)) /\
       forall x, bytes_of v' ino x = if x <? i_size n' then bytes_of v ino x else 0)
    (setattr_refused creds ino attrs v).
Proof.
  intros Hr Hsize. destruct (ready_calm _ _ Hr) as (Hi & Hro & Hc & Hu).
  eapply settles_outcome; [apply (setattr_settles nobody rely_nobody); try done|done|..].
  { intros size Hs. split; [by apply Hsize|by left]. }
  - intros c v' a _ _ _ [E1 E2 E3 _ _ _] _ H1 H2 (n & n1 & n' & ts & Hn & Hf & Hn' & -> & Hu' & Hsz & Hm & Hg & Hx & Ho).
    change (store (calmed v')) with (store v') in *. rewrite E1, ?E3 in *. apply inode_of_node in Hn, Hn'.
    pose proof (setattr_fields_spec creds attrs ts n) as Hs. rewrite Hf in Hs. destruct Hs as [Hp ->].
    split; [by apply only_file_intro|]. exists n, n', ts. split_and!; try done.
    intros x. rewrite (bytes_of_size _ _ _ _ Hn), (bytes_of_size _ _ _ _ Hn'), H2. apply Hx.
  - intros c e _ [E1 E2 E3 E4 _ _] H. apply setattr_fails_refused. unfold setattr_fails, stale_at, refuses in *. by rewrite E1, E4 in H.
Qed.

(** ** Extended attributes *)

Lemma getxattr_outcome v creds ino name :
  Inv v -> quiet v ->
  outcome (getxattr creds ino name) v
    (fun t v' => store v' = store v /\ xattr_of v ino name = Some t)
    (fun e => (e = Invalid /\ bad_xattr_name name = true) \/ stale_at v ino e \/
       denied_at creds v ino ACCESS_R e \/ (e = NoData /\ xattr_of v ino name = None)).
Proof.
  intros Hi Hq. eapply settles_outcome; [eapply (getxattr_settles True); [by apply inv_calmed|by split]|done|..].
  - intros c v' t _ _ _ [E1 _ _ _ _ _] _ _ _ [(n & x & _ & _ & Hx & ->) H2]. change (store (calmed v')) with (store v') in H2.
    unfold xattr_of. rewrite E1 in *. by rewrite Hx.
  - intros c e _ [E1 _ _ _ _ _] H. unfold stale_at, denied_at, xattr_of in *. rewrite E1 in H.
    destruct H as [?|[?|[?|[? H]]]]; [by auto..|]. rewrite H. auto.
Qed.

Lemma setxattr_outcome fuel v creds ino name value :
  ready fuel v ->
  outcome (setxattr nobody creds ino name value) v
    (fun _ v' => Inv v' /\ quiet v' /\ v_names v' = v_names v /\ v_chunk_size v' = v_chunk_size v /\
       xattr_set creds ino name value v v')
    (fun e => (e = Invalid /\ (bad_xattr_name name = true \/ MAX_XATTR_VALUE < len value)) \/ e = QuotaExceeded \/
       stale_at v ino e \/ denied_at creds v ino ACCESS_W e).
Proof.
  intros Hr. destruct (ready_calm _ _ Hr) as (Hi & Hro & Hc & Hu).
  eapply settles_outcome; [by apply (setxattr_settles nobody rely_nobody)|done|..].
  - intros c v' [] _ Hi' _ Hl Hq H1 H2 (n & t & Hn & Hacc & Hst). split_and!; try done. exists n, t.
    change (store (calmed v')) with (store v') in *. by rewrite <- (lk_store _ _ Hl).
  - intros c e _ [E1 _ _ _ _ _] H. unfold stale_at, denied_at in *. by rewrite E1 in H.
Qed.

(** A stored attribute is the inode's only change but its change time. *)
Lemma xattr_set_views creds ino name value v v' :
  v_names v' = v_names v -> v_chunk_size v' = v_chunk_size v -> xattr_set creds ino name value v v' ->
  (forall j x, xattr_of v' j x = if decide ((j, x) = (ino, name)) then Some value else xattr_of v j x) /\
  (forall q nm, names_of v' q nm = names_of v q nm) /\ (forall j x, bytes_of v' j x = bytes_of v j x) /\
  (forall j, j <> ino -> inode_of v' j = inode_of v j) /\
  exists n t, inode_of v ino = Some n /\ inode_of v' ino = Some (set_i_ctime t n).
Proof.
  intros H1 H2 (n & t & Hn & _ & Hst). simpl in Hst. pose proof (proj2 (inode_of_node _ _ _) Hn) as Hn0.
  assert (forall j, j <> ino -> inode_of v' j = inode_of v j) as Ho.
  { intros j Hj. apply inode_of_same. by rewrite Hst, !lookup_insert_ne by congruence. }
  assert (inode_of v' ino = Some (set_i_ctime t n)) as Hn'.
  { apply inode_of_node. by rewrite Hst, lookup_insert_eq. }
  split_and!; [..|done|by exists n, t].
  - intros j x. unfold xattr_of. rewrite Hst, lookup_insert_ne by done.
    case_decide as E; [injection E as -> ->; by rewrite lookup_insert_eq|by rewrite lookup_insert_ne by congruence].
  - intros q nm. unfold names_of. rewrite H1. apply entry_agree. intros. by rewrite Hst, !lookup_insert_ne.
  - intros j x. apply bytes_same; [done|intros idx; by rewrite Hst, !lookup_insert_ne|].
    destruct (decide (j = ino)) as [->|]; [by rewrite Hn', Hn0|by rewrite Ho].
Qed.

(** An extended attribute that [setxattr] stored is what [getxattr] then
    returns to a reader, and no other attribute, name or file changed. *)
Theorem setxattr_getxattr fuel v creds ino name value :
  ready fuel v ->
  outcome (setxattr nobody creds ino name value) v
    (fun _ v' => (forall j x, xattr_of v' j x = if decide ((j, x) = (ino, name)) then Some value else xattr_of v j x) /\
       (forall q nm, names_of v' q nm = names_of v q nm) /\ (forall j x, bytes_of v' j x = bytes_of v j x) /\
       forall who n', inode_of v' ino = Some n' -> access who n' ACCESS_R = Ok tt -> bad_xattr_name name = false ->
         (getxattr who ino name v').1 = Ok value)
    (fun e => (e = Invalid /\ (bad_xattr_name name = true \/ MAX_XATTR_VALUE < len value)) \/ e = QuotaExceeded \/
       stale_at v ino e \/ denied_at creds v ino ACCESS_W e).
Proof.
  intros Hr. eapply outcome_mono; [by apply (setxattr_outcome fuel)| |done].
  intros [] v' (Hi' & Hq & H1 & H2 & Hset). destruct (xattr_set_views _ _ _ _ _ _ H1 H2 Hset) as (Hx & Hnm & Hb & _).
  split_and!; [done..|]. intros who n' Hn' Hw Hbad.
  destruct (outcome_ok _ _ _ _ (fun t => t = value) (getxattr_outcome v' who ino name Hi' Hq)) as (t' & Ht & ->); [| |done].
  - apply inode_of_node in Hn'. intros e [[_ ?]|[[_ ?]|[(_ & n2 & Hn2 & Hd)|[_ He]]]]; [congruence| | |].
    + congruence.
    + replace n2 with n' in Hd by congruence. by rewrite Hw in Hd.
    + rewrite Hx in He. by rewrite decide_True in He.
  - intros t' v2 [_ He]. rewrite Hx, decide_True in He by done. congruence.
Qed.
End files.
