(* ===== verification/Still.v ===== *)
(** Operations that only read, on a quiet volume: they leave everything but the
    caches as it was. The protocol servers' listings are proved with these. *)

From S2P Require Import Prelude Keys Meta Store Data Quota Locks Volume Vfs Tree Wf WfOps VfsLogic VfsInv Reap.
From S2P Require Import OpsAttr OpsRead OpsCreate OpsRemove OpsRename OpsData OpsHandle System Spec Files.

Section still.
Context {DB : SlateDB} {AC : MokaCache u64 Inode} {NC : MokaCache (u64 * bytes) unit} {NCR : NameCrypto}.
Implicit Types (v : Volume).

(** Nothing happened but in the caches. *)
Record still v v' : Prop := { sl_inv : Inv v'; sl_quiet : quiet v'; sl_store : store v' = store v }.
Lemma still_trans v v' v'' : still v v' -> still v' v'' -> still v v''.
Proof. intros [] []. split; [done..|congruence]. Qed.

Lemma trusted_access c n w : c_trusted c = true -> access c n w = Ok tt.
Proof. intros Hc. unfold access, is_privileged. by rewrite Hc, orb_true_r. Qed.

Lemma still_getattr v i n : Inv v -> quiet v -> node (store v) i n ->
  exists v', getattr i v = (Ok (make_attr i n), v') /\ still v v'.
Proof.
  intros Hi Hq Hn.
  assert (outcome (getattr i) v (fun a v' => a = make_attr i n /\ still v v') (fun _ => False)) as Ho.
  { eapply settles_outcome; [eapply (getattr_settles True); [by apply inv_calmed|by split]|done|..].
    - intros c v' a _ Hi' _ [E1 _ _ _ _ _] Hq' _ _ [(n' & Hn' & ->) H2]. change (store (calmed v')) with (store v') in H2.
      rewrite E1 in *. assert (n' = n) as -> by congruence. by split.
    - intros c e _ [E1 _ _ _ _ _] [_ H]. rewrite E1 in H. congruence. }
  unfold outcome in Ho. destruct (getattr i v) as [[a|[e|]] v']; [|by destruct Ho as (_ & _ & [])|done]. destruct Ho as (_ & -> & ?). eauto.
Qed.

Lemma still_readdir v i n c cookie max L : Inv v -> quiet v -> node (store v) i n -> i_kind n = Dir -> access c n ACCESS_R = Ok tt ->
  is_u64 cookie -> 0 <= max -> listed v i cookie L ->
  exists rd v', readdir c i cookie max v = (Ok rd, v') /\ still v v' /\ rd_entries rd = take (Z.to_nat max) L /\ rd_eof rd = (len L <=? max).
Proof.
  intros Hi Hq Hn Hk Hc Hck Hm HL.
  pose proof (readdir_outcome v c i cookie max Hi Hq Hck Hm) as Ho. unfold outcome in Ho.
  destruct (readdir c i cookie max v) as [[rd|[e|]] v1]; [|exfalso|done].
  - destruct Ho as ([Hi1 _ _] & (pn & L' & _ & _ & _ & HL' & Hent & Heof) & Hs & Hq1 & _).
    assert (L' = L) as -> by by eapply listed_unique. exists rd, v1. split_and!; [done|by split|done|done].
  - destruct Ho as (_ & _ & [[[_ ?]|(_ & pn & ? & ?)]|[_ (pn & Hpn & Ha)]]); [congruence..|].
    assert (pn = n) as -> by congruence. by rewrite Hc in Ha.
Qed.

(** ** The superblock *)

(** [m] does not touch the superblock. *)
Definition keeps_sb {A} (m : FsM A) : Prop := forall v, v_superblock (m v).2 = v_superblock v.

Lemma keeps_sb_bind {A B} (m : FsM A) (k : A -> FsM B) : keeps_sb m -> (forall a, keeps_sb (k a)) -> keeps_sb (st_bind m k).
Proof.
  intros Hm Hk v. unfold st_bind. specialize (Hm v). destruct (m v) as [[a|e] v']; [|done]. cbn [snd] in *. rewrite <- Hm. apply Hk.
Qed.
Lemma keeps_sb_lift {A} (r : result (Halt FsError) A) : keeps_sb (st_lift r).
Proof. done. Qed.
Lemma keeps_sb_storage {A} (m : EM A) : keeps_sb (storage m).
Proof. intros v. unfold storage. destruct (m (v_eng v)) as [r e]. by destruct (VolumeHealth.map_storage r (v_health v)). Qed.

Lemma keeps_sb_load ino : keeps_sb (load_inode_cached ino).
Proof.
  unfold load_inode_cached, load_inode, db_get, cache. apply keeps_sb_bind; [done|intros _]. apply keeps_sb_bind; [done|intros v]. destruct (ac_get ino (v_attrs v)); [done|].
  apply keeps_sb_bind; [|intros n; apply keeps_sb_bind; done].
  apply keeps_sb_bind; [apply keeps_sb_bind; [done|intros; apply keeps_sb_storage]|]. intros o. by destruct o.
Qed.
Lemma getattr_sb ino : keeps_sb (getattr ino).
Proof. unfold getattr. apply keeps_sb_bind; [apply keeps_sb_load|done]. Qed.

Lemma keeps_sb_readdir_loop p max it es : keeps_sb (readdir_loop p max it es).
Proof.
  revert es. induction it as [|kv it IH]; intros es; cbn [readdir_loop];
    (apply keeps_sb_bind; [apply keeps_sb_bind; [done|intros; apply keeps_sb_storage]|]); intros o; cbv beta; [by destruct o|].
  destruct o; [|done]. destruct (_ =? _); [done|]. destruct (keys.parse_dirent_idx _) as [[? ?]|]; [|done]. apply keeps_sb_bind; [done|]. intros idx.
  apply keeps_sb_bind; [done|]. intros v'. apply keeps_sb_bind; [done|]. intros name. apply IH.
Qed.
Lemma readdir_sb c p cookie max : keeps_sb (readdir c p cookie max).
Proof.
  unfold readdir, load_dir_cached. apply keeps_sb_bind.
  - apply keeps_sb_bind; [apply keeps_sb_load|]. intros n. unfold check_dir. by destruct (is_dir _).
  - intros n. apply keeps_sb_bind; [done|]. intros _. apply keeps_sb_bind; [apply keeps_sb_bind; [done|intros; apply keeps_sb_storage]|]. intros it. apply keeps_sb_readdir_loop.
Qed.
End still.
