(* ===== verification/Finite.v ===== *)
(** Calls that always return. Every loop of the volume's interface but those of
    the removals, of [rename] and of [close] runs over what it has already
    read, so these calls end on any volume, consistent or not, whatever faults
    and whatever the other tasks do. *)

From S2P Require Import Prelude Keys Meta Store Data Quota Locks Volume Vfs.

Create HintDb finite.

Section finite.
Context {DB : SlateDB} {AC : MokaCache u64 Inode} {NC : MokaCache (u64 * bytes) unit} {NCR : NameCrypto}.
Context (others : nat -> Volume -> Volume).
Implicit Types (v : Volume).

(** [m] never runs out of fuel. *)
Definition finite {A} (m : FsM A) : Prop := forall v, (m v).1 <> Err OutOfFuel.

Lemma finite_bind {A B} (m : FsM A) (f : A -> FsM B) : finite m -> (forall a, finite (f a)) -> finite (st_bind m f).
Proof.
  intros Hm Hf v. unfold st_bind. specialize (Hm v). destruct (m v) as [[a|e] v']; [apply Hf|]. cbn in *. congruence.
Qed.
Lemma finite_ret {A} (a : A) : finite (st_ret a).
Proof. done. Qed.
Lemma finite_fail {A} e : finite (fail e : FsM A).
Proof. done. Qed.
Lemma finite_get : finite st_get.
Proof. done. Qed.
Lemma finite_modify f : finite (st_modify f).
Proof. done. Qed.
Lemma finite_guard {A} (r : result FsError A) : finite (guard r).
Proof. by destruct r. Qed.
Lemma finite_storage {A} (m : EM A) : finite (storage m).
Proof. intros v. unfold storage. destruct (m (v_eng v)) as [r e]. destruct (VolumeHealth.map_storage r (v_health v)) as [r' h]. by destruct r'. Qed.
Lemma finite_map_core {A} (m : ST Engine Error A) : finite (map_core m).
Proof. intros v. unfold map_core. destruct (m (v_eng v)) as [r e]. destruct (VolumeHealth.map_core r (v_health v)) as [r' h]. by destruct r'. Qed.
Lemma finite_live : finite ensure_live.
Proof. intros v. unfold ensure_live. by destruct (VolumeHealth.ensure_live (v_health v)). Qed.
Lemma finite_now : finite now.
Proof. intros v. unfold now, clock_now. by destruct (e_clock (v_eng v)). Qed.
Lemma finite_or_else {A} e (m : FsM A) : finite m -> finite (or_else e m).
Proof. intros Hm v. unfold or_else, st_map_err. specialize (Hm v). by destruct (m v) as [[a|[x|]] v']. Qed.
Lemma finite_iter {A} (f : A -> FsM unit) l : (forall a, finite (f a)) -> finite (st_iter f l).
Proof. intros Hf. induction l as [|a l IH]; cbn [st_iter]; [done|]. by apply finite_bind. Qed.

Lemma finite_reserve b i : finite (reserve b i).
Proof.
  apply finite_bind; [apply finite_bind; [apply finite_now|done]|]. intros t v.
  destruct (QuotaTracker.reserve b i t (v_quota v)) as [r q]. by destruct r.
Qed.
Lemma finite_commit b : finite (commit b).
Proof. apply finite_bind; [apply finite_live|]. intros _. apply finite_storage. Qed.
Lemma finite_commit_or b undo : finite undo -> finite (commit_or b undo).
Proof.
  intros Hu v. unfold commit_or, st_bind at 1, st_try. pose proof (finite_commit b v) as Hc. destruct (commit b v) as [[a|e] v']; [done|].
  unfold st_bind. specialize (Hu v'). destruct (undo v') as [[a|e'] v'']; cbn in *; congruence.
Qed.
End finite.

#[export] Hint Resolve finite_ret finite_fail finite_get finite_modify finite_guard finite_storage finite_map_core finite_live
  finite_now finite_reserve finite_commit : finite.
#[export] Hint Extern 1 (finite (core _)) => apply finite_guard : finite.
#[export] Hint Extern 1 (finite (lock_wait _)) => intros ?; discriminate : finite.
#[export] Hint Extern 1 (finite (cache _)) => intros ?; discriminate : finite.

(** One step through the code of a call. *)
Ltac finite_step :=
  lazymatch goal with
  | |- finite (st_bind _ _) => apply finite_bind; [|intros ?]
  | |- finite (or_else _ _) => apply finite_or_else
  | |- finite (commit_or _ _) => apply finite_commit_or
  | |- finite (st_iter _ _) => apply finite_iter; intros ?
  | |- finite (if ?b then _ else _) => destruct b
  | |- finite (match ?o with _ => _ end) => destruct o
  | |- finite _ => solve [auto with finite nocore]
  end.
Ltac finite_steps := cbv beta zeta; repeat (finite_step; cbv beta zeta).

Section calls.
Context {DB : SlateDB} {AC : MokaCache u64 Inode} {NC : MokaCache (u64 * bytes) unit} {NCR : NameCrypto}.
Context (others : nat -> Volume -> Volume).

Lemma finite_db_get k : finite (db_get k).
Proof. unfold db_get. finite_steps. Qed.
Lemma finite_scan lo hi : finite (db_scan lo hi).
Proof. unfold db_scan. finite_steps. Qed.
Lemma finite_next it : finite (vfs_iter_next it).
Proof. unfold vfs_iter_next. finite_steps. Qed.
Lemma finite_try {A} (m : FsM A) : finite (st_try m).
Proof. intros v. unfold st_try. by destruct (m v). Qed.
#[local] Hint Resolve finite_db_get finite_scan finite_next finite_try : finite.

Lemma finite_load i : finite (load_inode i).
Proof. unfold load_inode. finite_steps. Qed.
#[local] Hint Resolve finite_load : finite.
Lemma finite_load_cached i : finite (load_inode_cached i).
Proof. unfold load_inode_cached. finite_steps. Qed.
#[local] Hint Resolve finite_load_cached : finite.
Lemma finite_dir i : finite (load_dir i).
Proof. unfold load_dir, check_dir. finite_steps. Qed.
Lemma finite_dir_cached i : finite (load_dir_cached i).
Proof. unfold load_dir_cached, check_dir. finite_steps. Qed.
Lemma finite_check_file n : finite (check_file n).
Proof. unfold check_file. finite_steps. Qed.
Lemma finite_seal p name : finite (seal p name).
Proof. unfold seal. finite_steps. Qed.
#[local] Hint Resolve finite_dir finite_dir_cached finite_check_file finite_seal : finite.
Lemma finite_dirent p name : finite (dirent_of p name).
Proof. unfold dirent_of. finite_steps. Qed.
Lemma finite_alloc : finite alloc_ino.
Proof. unfold alloc_ino. finite_steps. intros v. by destruct (allocate (v_alloc v)). Qed.
Lemma finite_parent creds p : finite (lock_parent others creds p).
Proof. unfold lock_parent. finite_steps. Qed.
#[local] Hint Resolve finite_dirent finite_alloc finite_parent : finite.
Lemma finite_insert p pn name i n t : finite (insert_new_node p pn name i n t).
Proof. unfold insert_new_node, release. finite_steps. Qed.
#[local] Hint Resolve finite_insert : finite.
Lemma finite_create_new creds p name child t : finite (create_new others creds p name child t).
Proof. unfold create_new. finite_steps. Qed.
#[local] Hint Resolve finite_create_new : finite.

Lemma finite_lookup creds p name : finite (lookup creds p name).
Proof. unfold lookup. finite_steps. Qed.
Lemma finite_getattr i : finite (getattr i).
Proof. unfold getattr. finite_steps. Qed.
Lemma finite_atime i n policy : finite (maybe_update_atime others i n policy).
Proof.
  unfold maybe_update_atime. finite_steps. intros v. unfold get_noting. by destruct (get (KInode i) (v_eng v)) as [[] ?].
Qed.
#[local] Hint Resolve finite_atime : finite.
Lemma finite_read creds i off n policy : finite (read_with_atime_policy others creds i off n policy).
Proof. unfold read_with_atime_policy, plan_readahead. finite_steps. Qed.
Lemma finite_readlink i : finite (readlink i).
Proof. unfold readlink. finite_steps. Qed.
Lemma finite_readdir creds p cookie max : finite (readdir creds p cookie max).
Proof.
  unfold readdir. finite_steps. generalize (@nil DirEntry). induction a1 as [|kv it IH]; intros es; cbn [readdir_loop]; finite_steps.
Qed.
Lemma finite_getxattr creds i name : finite (getxattr creds i name).
Proof. unfold getxattr. finite_steps. Qed.
Lemma finite_vfs_iter {A} (f : A -> Key * Value -> A) acc it : finite (vfs_iter f acc it).
Proof. revert acc. induction it as [|kv it IH]; intros acc; cbn [vfs_iter]; finite_steps. Qed.
#[local] Hint Resolve finite_vfs_iter : finite.
Lemma finite_listxattr creds i : finite (listxattr creds i).
Proof. unfold listxattr. finite_steps. Qed.
Lemma finite_statfs : finite statfs.
Proof. unfold statfs. finite_steps. Qed.
Lemma finite_fsync : finite fsync.
Proof. unfold fsync. finite_steps. Qed.
Lemma finite_setattr creds i attrs : finite (setattr others creds i attrs).
Proof. unfold setattr, setattr_size, release. finite_steps. Qed.
Lemma finite_write creds i off data : finite (write others creds i off data).
Proof. unfold write, release. finite_steps. Qed.
Lemma finite_create creds p name mode excl : finite (create others creds p name mode excl).
Proof. unfold create. finite_steps. Qed.
Lemma finite_mkdir creds p name mode : finite (mkdir others creds p name mode).
Proof. unfold mkdir. finite_steps. Qed.
Lemma finite_mknod creds p name mode kind rdev : finite (mknod others creds p name mode kind rdev).
Proof. unfold mknod. finite_steps. Qed.
Lemma finite_symlink creds p name target : finite (symlink others creds p name target).
Proof. unfold symlink. finite_steps. Qed.
Lemma finite_link creds i p name : finite (link others creds i p name).
Proof. unfold link. finite_steps. Qed.
Lemma finite_setxattr creds i name value : finite (setxattr others creds i name value).
Proof.
  unfold setxattr, now_unix. finite_steps. intros v. destruct (QuotaTracker.check_not_over _ _) as [[] q]; discriminate.
Qed.
Lemma finite_open creds i mode : finite (open_ creds i mode).
Proof. unfold open_. finite_steps; intros v; by destruct (HandleTable.open i _ (v_handles v)). Qed.
Lemma finite_lock_target h a b : finite (lock_target h a b).
Proof. unfold lock_target. finite_steps. Qed.
#[local] Hint Resolve finite_lock_target : finite.
Lemma finite_lock h a b excl : finite (lock h a b excl).
Proof. unfold lock. finite_steps. intros v. by destruct (RangeLockTable.try_lock _ _ _) as [[] ?]. Qed.
Lemma finite_unlock h a b : finite (unlock h a b).
Proof. unfold unlock. finite_steps. Qed.
Lemma finite_testlock h a b excl : finite (testlock h a b excl).
Proof. unfold testlock. finite_steps. Qed.
End calls.

#[export] Hint Resolve finite_lookup finite_getattr finite_read finite_readlink finite_readdir finite_getxattr finite_listxattr
  finite_statfs finite_fsync finite_setattr finite_write finite_create finite_mkdir finite_mknod finite_symlink finite_link
  finite_setxattr finite_open finite_lock finite_unlock finite_testlock : finite.
