(* ===== verification/Fence.v ===== *)
(** Fencing: a volume that lost its writer lease refuses every call that
    needs storage and never writes again. *)

From S2P Require Import Prelude Keys Meta Store Data Quota Locks Volume Vfs VfsLogic VfsInv System.

Section fence.
Context {DB : SlateDB} {AC : MokaCache u64 Inode} {NC : MokaCache (u64 * bytes) unit} {NCR : NameCrypto}.
Implicit Types (v : Volume).

Definition dead v : Prop := h_dead (v_health v) = true.

(** [v'] is still dead and its records and its write log are those of [v]. *)
Record frozen v v' : Prop := {
  fz_dead : dead v';
  fz_db : e_db (v_eng v') = e_db (v_eng v);
  fz_log : e_log (v_eng v') = e_log (v_eng v)
}.

(** On a dead volume [m] writes nothing. *)
Definition inert {A} (m : FsM A) : Prop := forall v, dead v -> frozen v (m v).2.
(** On a dead volume [m] writes nothing and fails. *)
Definition refused {A} (m : FsM A) : Prop := forall v, dead v -> frozen v (m v).2 /\ exists h, (m v).1 = Err h.

Lemma frozen_refl v : dead v -> frozen v v.
Proof. by split. Qed.
Lemma frozen_trans v1 v2 v3 : frozen v1 v2 -> frozen v2 v3 -> frozen v1 v3.
Proof. intros [] []. split; congruence. Qed.

Lemma refused_inert {A} (m : FsM A) : refused m -> inert m.
Proof. intros Hm v Hd. by apply Hm. Qed.
Lemma inert_bind {A B} (m : FsM A) (f : A -> FsM B) : inert m -> (forall a, inert (f a)) -> inert (st_bind m f).
Proof.
  intros Hm Hf v Hd. unfold st_bind. specialize (Hm v Hd). destruct (m v) as [[a|e] v']; simpl in *; [|done].
  eapply frozen_trans; [done|]. by apply Hf, Hm.
Qed.
Lemma refused_bind {A B} (m : FsM A) (f : A -> FsM B) : refused m -> refused (st_bind m f).
Proof.
  intros Hm v Hd. destruct (Hm v Hd) as [Hf [h Hh]]. unfold st_bind. destruct (m v) as [r v']; simpl in *. subst. split; [done|by exists h].
Qed.
Lemma refused_later {A B} (m : FsM A) (f : A -> FsM B) : inert m -> (forall a, refused (f a)) -> refused (st_bind m f).
Proof.
  intros Hm Hb v Hd. unfold st_bind. specialize (Hm v Hd). destruct (m v) as [[a|h] v']; simpl in *; [|split; [done|by exists h]].
  destruct (Hb a v' (fz_dead _ _ Hm)) as [H1 H2]. split; [by eapply frozen_trans|done].
Qed.

Lemma inert_ret {A} (a : A) : inert (st_ret a : FsM A).
Proof. intros v Hd. by apply frozen_refl. Qed.
Lemma inert_lift {A} (r : result (Halt FsError) A) : inert (st_lift r).
Proof. intros v Hd. by apply frozen_refl. Qed.
Lemma inert_get : inert (st_get : FsM Volume).
Proof. intros v Hd. by apply frozen_refl. Qed.
Lemma refused_fail {A} h : refused (st_fail h : FsM A).
Proof. intros v Hd. split; [by apply frozen_refl|by exists h]. Qed.
Lemma refused_live : refused ensure_live.
Proof.
  intros v Hd. split; [by apply frozen_refl|]. unfold ensure_live, VolumeHealth.ensure_live. rewrite Hd. by eexists.
Qed.
Lemma inert_modify f : (forall v, dead v -> frozen v (f v)) -> inert (st_modify f).
Proof. intros Hf v Hd. by apply Hf. Qed.
Lemma inert_cache f : inert (cache f).
Proof. apply inert_modify. intros v Hd. by split. Qed.
Lemma inert_now : inert now.
Proof. intros v Hd. unfold now, clock_now. destruct (e_clock (v_eng v)) as [|t ts]; by split. Qed.

Create HintDb fence.
#[local] Hint Resolve inert_ret inert_lift inert_get refused_fail refused_live inert_cache inert_now : fence.

(** Follow the text up to the first access, which is refused. *)
Ltac fence :=
  repeat first
    [ solve [auto 2 with fence]
    | apply refused_bind; solve [auto 2 with fence]
    | apply refused_later; [solve [fence_inert]|intros]
    | case_match ]
with fence_inert :=
  repeat first [ solve [auto 2 with fence] | apply inert_bind; [|intros] | apply refused_inert; solve [auto 2 with fence] | case_match ].

Lemma db_get_refused k : refused (db_get k).
Proof. unfold db_get. fence. Qed.
Lemma commit_refused b : refused (commit b).
Proof. unfold commit. fence. Qed.
#[local] Hint Resolve db_get_refused commit_refused : fence.

Lemma load_refused i : refused (load_inode i).
Proof. unfold load_inode. fence. Qed.
Lemma load_cached_refused i : refused (load_inode_cached i).
Proof. unfold load_inode_cached. fence. Qed.
#[local] Hint Resolve load_refused load_cached_refused : fence.
Lemma load_dir_refused i : refused (load_dir i).
Proof. unfold load_dir. fence. Qed.
Lemma load_dir_cached_refused i : refused (load_dir_cached i).
Proof. unfold load_dir_cached. fence. Qed.
Lemma dirent_of_refused p name : refused (dirent_of p name).
Proof. unfold dirent_of, seal, core, guard. fence. Qed.
#[local] Hint Resolve load_dir_refused load_dir_cached_refused dirent_of_refused : fence.

(** ** The operations *)

Section calls.
Context (others : nat -> Volume -> Volume) (fuel : nat).
Hypothesis (Hothers : forall n v, dead v -> frozen v (others n v)).

Lemma inert_wait : inert (lock_wait others).
Proof. intros v Hd. unfold lock_wait. simpl. by destruct (Hothers (v_waits v) (set_waits (S (v_waits v)) v) Hd). Qed.
#[local] Hint Resolve inert_wait : fence.

Lemma lock_entry_refused n p name : refused (lock_entry others n p name).
Proof. destruct n; cbn [lock_entry]; fence. Qed.
Lemma lock_rename_refused n op on np nn : refused (lock_rename others n op on np nn).
Proof. destruct n; cbn [lock_rename]; fence. Qed.
Lemma lock_target_refused h s e : refused (lock_target h s e).
Proof. unfold lock_target. fence. Qed.
Lemma lock_parent_refused creds p : refused (lock_parent others creds p).
Proof. unfold lock_parent. fence. Qed.
#[local] Hint Resolve lock_entry_refused lock_rename_refused lock_target_refused lock_parent_refused : fence.

Lemma check_quota_inert t : inert ((fun v => let '(r, q) := QuotaTracker.check_not_over t (v_quota v) in
              (map_err Raise r, set_quota q v)) : FsM unit).
Proof. intros v Hd. destruct (QuotaTracker.check_not_over t (v_quota v)) as [r q]. by split. Qed.
#[local] Hint Resolve check_quota_inert : fence.

(** The calls that a dead volume can still answer: they need no storage. *)
Definition storageless (k : call) : bool :=
  match k with CClose _ => true | CWrite _ _ _ data => bool_decide (data = []) | _ => false end.

Lemma close_inert h : inert (close others fuel h).
Proof.
  intros v Hd. unfold close, st_bind. destruct (HandleTable.close h (v_handles v)) as [[[[ino mode] last]|] t]; [|by split].
  cbn. rewrite Hd, andb_false_r. by split.
Qed.

Lemma write_refused creds ino off data : data <> [] -> refused (write others creds ino off data).
Proof. intros Hne. unfold write. rewrite bool_decide_eq_false_2 by done. unfold guard, fail. fence. Qed.

Lemma refused_void {A} (m : FsM A) : refused m -> refused (void m).
Proof. apply refused_bind. Qed.

Lemma run_refused k : storageless k = false -> refused (run others fuel k).
Proof.
  destruct k; cbn [run storageless]; intros Hk; try discriminate; try (apply refused_void);
    unfold getattr, lookup, readdir, readlink, getxattr, listxattr, permissions, statfs, fsync, read_with_atime_policy,
      setattr, create, mkdir, mknod, symlink, create_new, link, unlink, rmdir, rename, setxattr, removexattr, open_,
      lock, unlock, testlock, now_unix, guard, fail in *; try solve [fence].
  apply write_refused. by apply bool_decide_eq_false in Hk.
Qed.

(** C4: once a volume is fenced off, no call of any kind writes: its records
    and its log of writes stay, it stays fenced off, and every call that needs
    storage fails, whatever faults are pending and whatever other calls wait. *)
Theorem fenced_never_writes v k :
  dead v ->
  frozen v (run others fuel k v).2 /\ (storageless k = false -> exists h, (run others fuel k v).1 = Err h).
Proof.
  intros Hd. destruct (storageless k) eqn:Hk; [|split; intros; by apply (run_refused k Hk v Hd)].
  split; [|done]. destruct k; try discriminate; cbn [run storageless] in *.
  - unfold void, write. rewrite Hk. by apply frozen_refl.
  - by apply close_inert.
Qed.
End calls.
End fence.
