(* ===== verification/Safety.v ===== *)
(** What a volume guarantees over its life: mkfs and open, any sequence of
    calls under faults and interference, recovery after a crash. *)

From S2P Require Import Prelude Keys Meta Store Data Quota Locks Volume Vfs Tree Wf WfOps VfsLogic VfsInv Reap.
From S2P Require Import OpsAttr OpsRead OpsCreate OpsRemove OpsRename OpsData OpsHandle System Mount Spec.

Section safety.
Context {DB : SlateDB} {AC : MokaCache u64 Inode} {NC : MokaCache (u64 * bytes) unit} {NCR : NameCrypto}.
Implicit Types (v : Volume).

(** ** The invariant as a caller reads it *)

(** Entries that denote [i], over all directories. *)
Definition link_count v i : Z := links (store v) i.

Record consistent v : Prop := {
  (** Every name denotes an inode that exists, and a directory's parent field
      names the directory that holds it. *)
  cs_resolves p name i : names_of v p name = Some i ->
    exists n, inode_of v i = Some n /\ (i_kind n = Dir -> i_parent_dir n = p);
  (** A file's link count is the number of its names. *)
  cs_nlink i n : inode_of v i = Some n -> i_kind n <> Dir -> i_nlink n = link_count v i;
  (** A directory has one name, the root none, and counts its subdirectories. *)
  cs_dir i n : inode_of v i = Some n -> i_kind n = Dir ->
    link_count v i = (if i =? ROOT_INO then 0 else 1) /\ i_nlink n = 2 + subdirs (store v) i;
  (** Parent fields lead from every directory to the root. *)
  cs_reaches i n : inode_of v i = Some n -> i_kind n = Dir -> reaches (store v) i;
  (** A file without a name has an orphan marker, and only such a file. *)
  cs_orphan i n : inode_of v i = Some n -> i_kind n <> Dir -> (i_nlink n = 0 <-> is_Some (store v !! KOrphan i));
  (** Each file is billed for the bytes its chunks store, and the counters of
      the tracker and of the store are the sums over the inodes. *)
  cs_billed i n : inode_of v i = Some n -> billed (store v) (v_chunk_size v) i (i_size n) = i_billed_bytes n;
  cs_bytes : q_bytes (v_quota v) = as_i64 (bytes_total (store v)) /\ counter (store v) KQuotaBytes = q_bytes (v_quota v);
  cs_inodes : q_inodes (v_quota v) = as_i64 (inode_total (store v)) /\ counter (store v) KQuotaInodes = q_inodes (v_quota v)
}.

Lemma inv_consistent v : Inv v -> consistent v.
Proof.
  intros [Hwf Hqb Hqi _ _ _]. pose proof (wf_tree _ _ _ _ Hwf) as Ht. destruct (wf_orphans _ _ _ _ Hwf). split.
  - intros p name i. unfold names_of, entry. destruct (seal_name (v_names v) p name) as [enc|]; [|done].
    destruct (store v !! KDirent p enc) as [[]|] eqn:E; try done. intros [= <-].
    destruct (tr_dirent _ _ _ _ _ Ht _ _ _ E) as (? & [= <-] & [_ _ _ _ (cn & Hc & _ & Hp)]). exists cn. split; [by apply inode_of_node|done].
  - intros i n Hn%inode_of_node Hk. rewrite (tr_file _ _ _ _ _ Ht i n Hn Hk). unfold link_count. lia.
  - intros i n Hn%inode_of_node Hk. destruct (tr_dir _ _ _ _ _ Ht i n Hn Hk). unfold link_count. split; lia.
  - intros i n Hn%inode_of_node Hk. by eapply tr_reach.
  - intros i n Hn%inode_of_node Hk. by apply or_file.
  - intros i n Hn%inode_of_node. by apply (wf_data _ _ _ _ Hwf).
  - split; [|done]. rewrite Hqb. by apply Hwf.
  - split; [|done]. rewrite Hqi. by apply Hwf.
Qed.

Lemma runs_inv others fuel v v' : rely others -> runs others fuel v v' -> Inv v -> Inv v'.
Proof.
  intros Hrely Hruns. induction Hruns as [|k v r v1 v2 Hroom Hfair Hrun _ IH]; [done|]. intros Hi. apply IH.
  pose proof (run_inv others fuel k v Hrely Hi Hroom Hfair) as H. unfold wp in H. by rewrite Hrun in H.
Qed.

(** C1: any sequence of fair calls on a volume with room, each of which may be
    cut short by storage faults at any point and interleaved with other tasks
    wherever it waits for a lock, keeps the volume consistent: names resolve,
    link counts are exact, directories form a tree and quotas are exact sums.
    Room means that no inode number, link count or entry id is at its maximum;
    fair means that integers are within their widths, a hard link is not made to
    an inode without names, and a new size is addressable (its chunk
    numbers fit 32 bits) and frees no more chunks than one batch deletes. *)
Theorem calls_consistent others fuel v v' :
  rely others -> Inv v -> runs others fuel v v' -> Inv v' /\ consistent v'.
Proof. intros Hrely Hi Hruns. assert (Inv v') by (by eapply runs_inv). split; [done|by apply inv_consistent]. Qed.

(** ** Mkfs and open *)

(** Mkfs is atomic and can be resumed: cut short anywhere it wrote all of
    an empty volume (a filesystem or a device) or nothing, and running it again
    succeeds on what is there. *)
Theorem mkfs_resumable record (s : Engine) clock log :
  makeable record -> contents (e_db s) = ∅ ->
  let s1 := (mkfs record s).2 in
  half_made record (contents (e_db s1)) /\
  exists ts s3, mkfs record (mkEngine (e_db s1) [] clock log) = (Ok tt, s3) /\ contents (e_db s3) = mkfs_store record ts.
Proof.
  intros Hk Hs s1. pose proof (wp_mkfs False record ∅ s Hk (or_introl eq_refl) ltac:(by split)) as H1.
  unfold wp, made_fs in H1. subst s1. destruct (mkfs record s) as [r1 s1]. simpl. destruct H1 as (m1 & [Hd1 _] & Hm1 & _).
  rewrite Hd1. split; [done|]. set (s2 := mkEngine _ _ _ _).
  pose proof (wp_mkfs True record m1 s2 Hk Hm1 ltac:(by split)) as H2. unfold wp, made_fs in H2.
  destruct (mkfs record s2) as [[[]|e] s3]; destruct H2 as (m3 & [Hd3 _] & _ & H3); [|done].
  destruct H3 as [ts ->]. by exists ts, s3.
Qed.

(** An active filesystem volume with a legal chunk size. *)
Record mountable (record : VolumeRecord) : Prop := {
  mt_kind : vr_kind record = Filesystem;
  mt_state : vr_state record = Active;
  mt_cs : 0 < vr_chunk_size record <= 2 ^ 22
}.

Lemma mkfs_size record ts : vr_kind record = Filesystem -> (base.size (mkfs_store record ts) <= 4)%nat.
Proof.
  intros Hk. pose proof (apply_batch_size ∅ (mkfs_batch record ts)) as H. unfold mkfs_store.
  rewrite map_size_empty in H. unfold mkfs_batch in *. rewrite Hk in *. simpl in H. exact H.
Qed.

Lemma open_fresh fuel record dek ts s :
  mountable record -> contents (e_db s) = mkfs_store record ts -> e_faults s = [] -> (16 < fuel)%nat ->
  exists v, (Volume_open fuel record dek s).1 = Ok v /\ Inv v /\ quiet v /\
    opened {| nc_dek := dek |} (mkfs_store record ts) record (ROOT_INO + 1) v.
Proof.
  intros [Hk Hst Hcs] Hd Hf Hfuel. assert (makeable record) as Hmk by (unfold makeable; by rewrite Hk).
  destruct (mkfs_superblock record ts Hmk) as (sb & Hsb & Hsk & _ & Hver). rewrite Hk in Hsk.
  pose proof (wp_open True fuel record dek (ROOT_INO + 1) (mkfs_store record ts) (ROOT_INO + 1) sb s) as H.
  unfold wp in H. destruct (Volume_open fuel record dek s) as [r s']. simpl.
  assert (match r with Ok v => opened {| nc_dek := dek |} (mkfs_store record ts) record (ROOT_INO + 1) v /\ v_eng v = s' /\ (True -> quiet v) | Err _ => ~ True end) as Hr.
  { apply H; try done.
    - apply mkfs_wf; [done|lia].
    - split; [by rewrite mkfs_store_lookup|]. unfold ROOT_INO, LEASE_SIZE, U64_MAX. lia.
    - intros _. pose proof (mkfs_size record ts Hk). lia. }
  destruct r as [v|]; [|by destruct Hr]. exists v. destruct Hr as (Ho & _ & Hq). split_and!; try done; [by destruct Ho|by apply Hq].
Qed.

(** A volume opened on what mkfs made has the invariant, and with it any
    later sequence of calls leaves a consistent volume. *)
Theorem mounted_consistent others fuel record dek ts (s : Engine) :
  mountable record -> contents (e_db s) = mkfs_store record ts -> e_faults s = [] -> (16 < fuel)%nat -> rely others ->
  exists v, (Volume_open fuel record dek s).1 = Ok v /\
    (forall i n, inode_of v i = Some n <-> i = ROOT_INO /\ n = root_inode ts) /\
    forall v', runs others fuel v v' -> consistent v'.
Proof.
  intros Hm Hd Hf Hfuel Hrely. destruct (open_fresh fuel record dek ts s Hm Hd Hf Hfuel) as (v & Hv & Hi & _ & Ho).
  exists v. split; [done|]. split; [|intros v' Hr; apply inv_consistent; by eapply runs_inv].
  destruct (op_recovered _ _ _ _ _ Ho) as (m' & [Hor Hrec] & Hst). intros i n. rewrite inode_of_node, Hst.
  rewrite lookup_insert_ne by done. rewrite Hrec; try done.
  - split; [apply mkfs_node, Hm|]. intros [-> ->]. rewrite mkfs_store_lookup by apply Hm. done.
  - intros j [x Hx]. rewrite mkfs_store_lookup in Hx by apply Hm. done.
Qed.

(** C7: open cleans up after a crash: from any well-formed store it yields a
    volume with the invariant in which no orphan marker is left, and every
    record that does not belong to an orphaned inode is what it was. *)
Theorem open_recovers fuel record dek nx mark sb (s : Engine) :
  mountable record -> wf {| nc_dek := dek |} (vr_chunk_size record) nx (contents (e_db s)) -> marked nx (contents (e_db s)) mark ->
  contents (e_db s) !! KSuperblock = Some (VSuperblock sb) -> verify_superblock_matches_record record sb = Ok tt ->
  sb_kind sb = Filesystem -> e_faults s = [] -> (4 * base.size (contents (e_db s)) < fuel)%nat ->
  exists v, (Volume_open fuel record dek s).1 = Ok v /\ Inv v /\ (forall i, store v !! KOrphan i = None) /\
    forall k, (forall i, is_Some (contents (e_db s) !! KOrphan i) -> k <> KInode i /\ ~ data_of i k) ->
      k <> KQuotaBytes -> k <> KQuotaInodes -> k <> KNextIno -> store v !! k = contents (e_db s) !! k.
Proof.
  intros [Hk Hst Hcs] Hwf Hmark Hsb Hver Hsk Hf Hfuel.
  pose proof (wp_open True fuel record dek nx _ mark sb s Hwf Hmark Hsb Hver Hsk Hst Hcs ltac:(by split) ltac:(done)) as H.
  unfold wp in H. destruct (Volume_open fuel record dek s) as [[v|] s']; [|by destruct H]. exists v. destruct H as (Ho & _ & _).
  destruct (op_recovered _ _ _ _ _ Ho) as (m' & [Hor Hrec] & Hsto). split_and!; [done|by destruct Ho|..].
  - intros i. rewrite Hsto, lookup_insert_ne by done. apply Hor.
  - intros k H1 H2 H3 H4. rewrite Hsto, lookup_insert_ne by done. by apply Hrec.
Qed.
End safety.
