(* ===== verification/Demo.v ===== *)
(** A volume made, mounted and used: the runs the theorems are applied to. *)

From S2P Require Import Prelude Keys Meta Store Data Quota Locks Volume Vfs Tree Wf WfOps VfsLogic VfsInv Reap.
From S2P Require Import OpsAttr OpsRead OpsCreate OpsRemove OpsRename OpsData OpsHandle System Mount Concrete Spec Safety.

(** ** Checking that a volume is ready *)

Definition node_roomy (_ : Key) (x : Value) : bool :=
  match x with VInode n => (i_nlink n <? U32_MAX) && (i_next_dirent_id n <? U64_MAX) | _ => true end.

Definition readyb (fuel : nat) (v : Volume) : bool :=
  (al_next (v_alloc v) <? U64_MAX) && bool_decide (map_Forall (fun k x => node_roomy k x = true) (store v)) &&
  bool_decide (e_faults (v_eng v) = []) && negb (h_dead (v_health v)) && bool_decide (base.size (store v) + 16 < fuel)%nat.

Lemma readyb_ready fuel v : Inv v -> readyb fuel v = true -> ready fuel v.
Proof.
  intros Hi. unfold readyb. rewrite !andb_true_iff, Z.ltb_lt, !bool_decide_eq_true, negb_true_iff. intros [[[[H1 H2] H3] H4] H5].
  split; [done| |by split|done]. split; [done|]. intros i n Hn. specialize (H2 _ _ Hn). simpl in H2.
  rewrite andb_true_iff, !Z.ltb_lt in H2. done.
Qed.

(** ** The volume *)

Definition no_volume : Volume :=
  mkVolume (mkEngine (∅ : gmap Key Value) [] [] [])
    {| sb_fsid := 0; sb_cipher := Aes256Gcm; sb_chunk_size := 0; sb_name_enc := false; sb_created_at := 0; sb_kind := Filesystem |}
    (VolumeHealth.new None) {| nc_dek := [] |} ∅ (QuotaTracker.new 0 0 (vr_quota demo_record))
    {| al_next := 0; al_lease_end := 0 |} HandleTable.empty 0 ac_default ∅ 0.

Definition demo0 : Volume := match demo_open.1 with Ok v => v | Err _ => no_volume end.

Definition after (v : Volume) (k : call) : Volume := (run nobody demo_fuel k v).2.

Lemma demo_mountable : mountable demo_record.
Proof. split; [done|done|]. vm_compute. split; congruence. Qed.

Lemma demo0_ready : ready demo_fuel demo0.
Proof.
  apply readyb_ready; [|vm_compute; reflexivity].
  destruct (open_fresh demo_fuel demo_record [1] ZERO demo_made demo_mountable) as (v & Hv & Hi & _).
  - vm_compute. reflexivity.
  - vm_compute. reflexivity.
  - unfold demo_fuel. lia.
  - unfold demo0, demo_open. by rewrite Hv.
Qed.

Lemma after_ready v k : ready demo_fuel v -> fair nobody k v -> readyb demo_fuel (after v k) = true -> ready demo_fuel (after v k).
Proof.
  intros [Hi Hr _ _] Hf. apply readyb_ready. unfold after.
  pose proof (run_inv nobody demo_fuel k v rely_nobody Hi Hr Hf) as H. unfold wp in H. by destruct (run nobody demo_fuel k v).
Qed.

Definition root_user : Credentials := {| c_uid := 0; c_gid := 0; c_groups := []; c_trusted := true |}.
Definition nm (c : Z) : bytes := [c].

(** A directory [d] (inode 2), a file [f] (inode 3) with five bytes, open. *)
Definition demo1 : Volume := after demo0 (CMkdir root_user ROOT_INO (nm 100) o755).
Definition demo2 : Volume := after demo1 (CCreate root_user ROOT_INO (nm 102) 420 true).
Definition demo3 : Volume := after demo2 (CWrite root_user 3 0 [104; 101; 108; 108; 111]).
Definition demo4 : Volume := after demo3 (COpen root_user 3 ORead).

Lemma demo1_ready : ready demo_fuel demo1.
Proof. apply after_ready; [apply demo0_ready|done|]. vm_compute. reflexivity. Qed.
Lemma demo2_ready : ready demo_fuel demo2.
Proof. apply after_ready; [apply demo1_ready|done|]. vm_compute. reflexivity. Qed.
Lemma demo3_ready : ready demo_fuel demo3.
Proof. apply after_ready; [apply demo2_ready|unfold fair, is_u64; lia|]. vm_compute. reflexivity. Qed.
Lemma demo4_ready : ready demo_fuel demo4.
Proof. apply after_ready; [apply demo3_ready|done|]. vm_compute. reflexivity. Qed.

Create HintDb demo.
#[export] Hint Resolve demo0_ready demo1_ready demo2_ready demo3_ready demo4_ready : demo.
