(* ===== verification/Race.v ===== *)
(** Two interleavings that the atomic reading calls of [Vfs] leave out.

    A reading call takes no lock: between its read of the store and its fill of
    a cache another call can commit and bring the cache up to date, and the
    late fill then undoes that.  The halves of such a call are the computations
    [load_inode_cached] and [lookup] are made of; on a concrete volume the
    cache ends up contradicting the records, and stays so until an operation on
    the same inode or name, or an eviction, clears it. *)

From S2P Require Import Prelude Keys Meta Store Data Quota Locks Volume Vfs Tree Wf WfOps VfsLogic VfsInv Reap Mount Concrete.
From S2P Require Import Spec Namespace Files Demo.

Section halves.
Context {DB : SlateDB} {AC : MokaCache u64 Inode} {NC : MokaCache (u64 * bytes) unit} {NCR : NameCrypto}.

(** On a miss the cached load is a load, then a fill. *)
Lemma load_inode_cached_miss ino (v : Volume) :
  h_dead (v_health v) = false -> ac_get ino (v_attrs v) = None ->
  load_inode_cached ino v = (inode <- load_inode ino ;; cache (ac_insert ino inode) ;;; st_ret inode) v.
Proof.
  intros Hd Ha. unfold load_inode_cached, st_bind at 1, ensure_live, VolumeHealth.ensure_live. rewrite Hd. simpl.
  unfold st_bind at 1. simpl. by rewrite Ha.
Qed.
End halves.

(** A volume with a file, and nothing cached. *)
Definition cold : Volume := set_attrs ac_default demo3.

Definition chmod (mode : u32) : SetAttrs :=
  {| s_mode := Some mode; s_uid := None; s_gid := None; s_size := None; s_atime := None; s_mtime := None |}.

(** [getattr] loads inode 3, [setattr] changes its mode, [getattr] fills the
    cache: from then on the old mode is what [getattr] answers. *)
Definition filled_late : Volume :=
  match (load_inode 3 cold).1 with
  | Ok inode => (cache (ac_insert 3 inode) (setattr nobody root_user 3 (chmod 0) cold).2).2
  | Err _ => cold
  end.

Lemma stale_attributes : exists a n,
  (getattr 3 filled_late).1 = Ok a /\ a_mode a = 420 /\ inode_of filled_late 3 = Some n /\ i_mode n = 0.
Proof. eexists _, _. vm_compute. repeat split. Qed.

(** [lookup] finds no entry, [create] makes one, [lookup] records the miss: the
    file exists and cannot be looked up. *)
Definition missed_late : Volume :=
  match (dirent_of ROOT_INO [120] cold).1 with
  | Ok None => (cache (ac_insert_negative ROOT_INO [120]) (create nobody root_user ROOT_INO [120] 420 false cold).2).2
  | _ => cold
  end.

Lemma stale_miss : (lookup root_user ROOT_INO [120] missed_late).1 = Err (Raise NotFound) /\
  is_Some (names_of missed_late ROOT_INO [120]).
Proof. vm_compute. split; [reflexivity|by eexists]. Qed.
