(* ===== verification/Fsck.v ===== *)
(** The volume checker ([fsck.rs]): one scan collects the records, the checks
    run on what was collected, and a recount rewrites the quota counters. A
    problem is a constructor where the source formats a message. *)

From S2P Require Import Prelude Keys Meta Store Data Quota Volume.

(** * The report *)

Inductive Problem : Type :=
| RootMissing | RootNotDir | RootParent
| ParentMissing (parent : u64) (name : bytes)
| ParentNotDir (parent : u64) (name : bytes)
| DirentIdBeyond (parent : u64) (name : bytes)
| DanglingChild (parent : u64) (name : bytes) (child : u64)
| KindMismatch (parent : u64) (name : bytes)
| ChildParentMismatch (parent : u64) (name : bytes)
| IndexMissing (parent : u64) (name : bytes)
| IndexDisagrees (parent : u64) (name : bytes)
| NameDiffers (parent : u64) (name : bytes)
| NameUndecryptable (parent : u64) (name : bytes)
| IndexUnpaired (parent dirent_id : u64)
| DirMultipleEntries (ino : u64)
| DirNlink (ino : u64) (nlink expected : u32)
| DirUnlinked (ino : u64)
| FileNlink (ino : u64) (nlink links : u32)
| SymlinkWithoutTarget (ino : u64)
| ChunkOversize (ino : u64) (idx : u32) (length : usize)
| BilledDiffers (ino : u64) (billed_bytes billed : u64)
| ChunksUnowned (ino : u64)
| Unreachable (ino : u64)
| UnexpectedKey (k : Key)
| UnexpectedOwner (ino : u64) (idx : u32)
| ChunkBeyondSize (idx : u32)
| BlockChunkOversize (idx : u32) (length : usize)
| SuperblockMissing.

Inductive Reapable : Type := AwaitingReap (ino : u64) | OrphanMarker (ino : u64).

Record FsckReport : Type := {
  problems : list Problem;
  reapable : list Reapable;
  inodes_counted : i64;
  bytes_counted : i64;
  counter_inodes : i64;
  counter_bytes : i64
}.

Definition counters_match (r : FsckReport) : bool :=
  (inodes_counted r =? counter_inodes r) && (bytes_counted r =? counter_bytes r).

Definition is_clean (r : FsckReport) : bool :=
  match problems r with [] => counters_match r | _ => false end.

(** * The scan *)

Record Scanned : Type := {
  s_inodes : gmap u64 Inode;
  s_dirents : gmap (u64 * bytes) Dirent;
  s_idx : gmap (u64 * u64) DirentIdx;
  s_chunks : gmap u64 (list (u32 * usize));
  s_orphans : gmap u64 Orphan;
  s_symlinks : gset u64
}.

Definition scanned_empty : Scanned :=
  {| s_inodes := ∅; s_dirents := ∅; s_idx := ∅; s_chunks := ∅; s_orphans := ∅; s_symlinks := ∅ |}.

Definition set_inodes x s := {| s_inodes := x; s_dirents := s_dirents s; s_idx := s_idx s; s_chunks := s_chunks s; s_orphans := s_orphans s; s_symlinks := s_symlinks s |}.
Definition set_dirents x s := {| s_inodes := s_inodes s; s_dirents := x; s_idx := s_idx s; s_chunks := s_chunks s; s_orphans := s_orphans s; s_symlinks := s_symlinks s |}.
Definition set_idx x s := {| s_inodes := s_inodes s; s_dirents := s_dirents s; s_idx := x; s_chunks := s_chunks s; s_orphans := s_orphans s; s_symlinks := s_symlinks s |}.
Definition set_chunks x s := {| s_inodes := s_inodes s; s_dirents := s_dirents s; s_idx := s_idx s; s_chunks := x; s_orphans := s_orphans s; s_symlinks := s_symlinks s |}.
Definition set_orphans x s := {| s_inodes := s_inodes s; s_dirents := s_dirents s; s_idx := s_idx s; s_chunks := s_chunks s; s_orphans := x; s_symlinks := s_symlinks s |}.
Definition set_symlinks x s := {| s_inodes := s_inodes s; s_dirents := s_dirents s; s_idx := s_idx s; s_chunks := s_chunks s; s_orphans := s_orphans s; s_symlinks := x |}.

(** [map.entry(k).or_default().push(x)] *)
Definition push_at {A} (k : u64) (x : A) (m : gmap u64 (list A)) : gmap u64 (list A) :=
  <[k := default [] (m !! k) ++ [x]]> m.

(** One record of the scan, by the first byte of its key. *)
Definition scan_step (s : Scanned) (kv : Key * Value) : result Error Scanned :=
  let key := key_bytes kv.1 in
  match head key with
  | Some 105 =>
      match keys.parse_ino key with
      | Some ino => match Inode_decode kv.2 with Ok n => Ok (set_inodes (<[ino := n]> (s_inodes s)) s) | Err e => Err e end
      | None => Ok s
      end
  | Some 100 =>
      match keys.parse_ino key with
      | Some parent =>
          match Dirent_decode kv.2 with
          | Ok d => Ok (set_dirents (<[(parent, drop 9 key) := d]> (s_dirents s)) s)
          | Err e => Err e
          end
      | None => Ok s
      end
  | Some 101 =>
      match keys.parse_dirent_idx key with
      | Some (parent, id) =>
          match DirentIdx_decode kv.2 with Ok e => Ok (set_idx (<[(parent, id) := e]> (s_idx s)) s) | Err e => Err e end
      | None => Ok s
      end
  | Some 99 =>
      match keys.parse_chunk key with
      | Some (ino, idx) => Ok (set_chunks (push_at ino (idx, len (value_bytes kv.2)) (s_chunks s)) s)
      | None => Ok s
      end
  | Some 111 =>
      match keys.parse_ino key with
      | Some ino => match Orphan_decode kv.2 with Ok o => Ok (set_orphans (<[ino := o]> (s_orphans s)) s) | Err e => Err e end
      | None => Ok s
      end
  | Some 115 =>
      match keys.parse_ino key with
      | Some ino => Ok (set_symlinks ({[ino]} ∪ s_symlinks s) s)
      | None => Ok s
      end
  | _ => Ok s
  end.

(** * The checks *)

(** What the loop over the entries collects. *)
Record Links : Type := {
  l_problems : list Problem;
  l_counts : gmap u64 u32;
  l_child_dirs : gmap u64 u32;
  l_children : gmap u64 (list u64)
}.

(** [*map.entry(k).or_insert(0) += 1] *)
Definition count_at (k : u64) (m : gmap u64 u32) : gmap u64 u32 :=
  <[k := as_u32 (default 0 (m !! k) + 1)]> m.

Definition check_parent (s : Scanned) (parent : u64) (d : Dirent) : list Problem :=
  match s_inodes s !! parent with
  | None => [ParentMissing parent (d_name d)]
  | Some p =>
      if negb (is_dir (i_kind p)) then [ParentNotDir parent (d_name d)]
      else if i_next_dirent_id p <=? d_dirent_id d then [DirentIdBeyond parent (d_name d)] else []
  end.

Definition check_child (s : Scanned) (parent : u64) (d : Dirent) : list Problem :=
  match s_inodes s !! d_child_ino d with
  | None => [DanglingChild parent (d_name d) (d_child_ino d)]
  | Some c =>
      (if negb (bool_decide (i_kind c = d_kind d)) then [KindMismatch parent (d_name d)] else []) ++
      (if is_dir (i_kind c) && negb (i_parent_dir c =? parent) then [ChildParentMismatch parent (d_name d)] else [])
  end.

Definition check_index (s : Scanned) (parent : u64) (enc_name : bytes) (d : Dirent) : list Problem :=
  match s_idx s !! (parent, d_dirent_id d) with
  | None => [IndexMissing parent (d_name d)]
  | Some e =>
      if negb (bool_decide (e_enc_name e = enc_name)) || negb (e_child_ino e =? d_child_ino d) ||
         negb (bool_decide (e_kind e = d_kind d))
      then [IndexDisagrees parent (d_name d)] else []
  end.

Definition check_name `{!NameCrypto} (names : NameCodec) (parent : u64) (enc_name : bytes) (d : Dirent) : list Problem :=
  match open_name names parent enc_name with
  | Ok name => if bool_decide (name = d_name d) then [] else [NameDiffers parent (d_name d)]
  | Err _ => [NameUndecryptable parent (d_name d)]
  end.

Definition check_dirent `{!NameCrypto} (names : NameCodec) (s : Scanned) (l : Links) (e : u64 * bytes * Dirent) : Links :=
  let '(parent, enc_name, d) := e in
  {| l_problems := l_problems l ++ check_parent s parent d ++ check_child s parent d ++
                   check_index s parent enc_name d ++ check_name names parent enc_name d;
     l_counts := count_at (d_child_ino d) (l_counts l);
     l_child_dirs :=
       match s_inodes s !! d_child_ino d with
       | Some c => if is_dir (i_kind c) then count_at parent (l_child_dirs l) else l_child_dirs l
       | None => l_child_dirs l
       end;
     l_children := push_at parent (d_child_ino d) (l_children l) |}.

Definition check_root (s : Scanned) : list Problem :=
  match s_inodes s !! ROOT_INO with
  | None => [RootMissing]
  | Some root =>
      (if negb (is_dir (i_kind root)) then [RootNotDir] else []) ++
      (if negb (i_parent_dir root =? ROOT_INO) then [RootParent] else [])
  end.

(** An index record with no entry. *)
Definition check_paired (s : Scanned) (k : u64 * u64) : list Problem :=
  let '(parent, id) := k in
  if existsb (fun e : u64 * bytes * Dirent => (e.1.1 =? parent) && (d_dirent_id e.2 =? id)) (map_to_list (s_dirents s))
  then [] else [IndexUnpaired parent id].

(** The chunks of one inode: their problems and the bytes they bill. *)
Definition bill_chunks (chunk_size : u64) (ino : u64) (size : u64) (chunks : list (u32 * usize)) : list Problem * u64 :=
  fold_left (fun '(ps, billed) '(idx, length) =>
    (ps ++ (if chunk_size <? length then [ChunkOversize ino idx length] else []),
     as_u64 (billed + billed_chunk_bytes size (as_u64 (idx * chunk_size)) length))) chunks ([], 0).

Definition check_links (s : Scanned) (l : Links) (ino : u64) (inode : Inode) : list Problem :=
  let links := default 0 (l_counts l !! ino) in
  if is_dir (i_kind inode) then
    let expected := as_u32 (2 + default 0 (l_child_dirs l !! ino)) in
    (if 1 <? links then [DirMultipleEntries ino] else []) ++
    (if negb (i_nlink inode =? expected) then [DirNlink ino (i_nlink inode) expected] else []) ++
    (if negb (ino =? ROOT_INO) && (links =? 0) then [DirUnlinked ino] else [])
  else
    (if negb (i_nlink inode =? links) &&
        negb ((i_nlink inode =? 0) && bool_decide (is_Some (s_orphans s !! ino)))
     then [FileNlink ino (i_nlink inode) links] else []) ++
    (if bool_decide (i_kind inode = Symlink) && negb (bool_decide (ino ∈ s_symlinks s)) then [SymlinkWithoutTarget ino] else []).

Definition check_inode (chunk_size : u64) (s : Scanned) (l : Links) (acc : list Problem * i64) (e : u64 * Inode) :
    list Problem * i64 :=
  let '(ps, bytes) := acc in
  let '(ino, inode) := e in
  let '(bp, billed) := bill_chunks chunk_size ino (i_size inode) (default [] (s_chunks s !! ino)) in
  (ps ++ check_links s l ino inode ++ bp ++
   (if negb (billed =? i_billed_bytes inode) then [BilledDiffers ino (i_billed_bytes inode) billed] else []),
   as_i64 (bytes + as_i64 billed)).

Definition unowned (s : Scanned) (ino : u64) : bool := negb (bool_decide (is_Some (s_inodes s !! ino))).

(** Breadth-first from the root over the entries. *)
Definition visit_child (s : Scanned) (acc : gset u64 * list u64) (child : u64) : gset u64 * list u64 :=
  let '(reachable, queue) := acc in
  if bool_decide (child ∈ reachable) then acc
  else ({[child]} ∪ reachable,
        match s_inodes s !! child with Some i => if is_dir (i_kind i) then queue ++ [child] else queue | None => queue end).

Fixpoint reach_loop (fuel : nat) (s : Scanned) (children : gmap u64 (list u64)) (reachable : gset u64) (queue : list u64) :
    option (gset u64) :=
  match queue with
  | [] => Some reachable
  | dir :: queue =>
      match fuel with
      | O => None
      | S fuel =>
          let '(reachable, queue) := fold_left (visit_child s) (default [] (children !! dir)) (reachable, queue) in
          reach_loop fuel s children reachable queue
      end
  end.

Definition check_reached (s : Scanned) (reachable : gset u64) (e : u64 * Inode) : list Problem :=
  let '(ino, inode) := e in
  let legit_orphan := (i_nlink inode =? 0) && bool_decide (is_Some (s_orphans s !! ino)) in
  if negb (bool_decide (ino ∈ reachable)) && negb legit_orphan then [Unreachable ino] else [].

(** The checks over what the scan collected; [None] when the search of the
    tree runs out of [fuel]. *)
Definition check_scanned `{!NameCrypto} (fuel : nat) (chunk_size : u64) (names : NameCodec) (s : Scanned)
    (counter_bytes counter_inodes : i64) : option FsckReport :=
  let root := check_root s in
  let l := fold_left (check_dirent names s) (map_to_list (s_dirents s))
             {| l_problems := root; l_counts := ∅; l_child_dirs := ∅; l_children := ∅ |} in
  let unpaired := flat_map (check_paired s) ((map_to_list (s_idx s)).*1) in
  let '(ps, bytes) := fold_left (check_inode chunk_size s l) (map_to_list (s_inodes s)) (l_problems l ++ unpaired, 0) in
  let stray := filter (fun ino => unowned s ino = true) ((map_to_list (s_chunks s)).*1) in
  let orphaned ino := bool_decide (is_Some (s_orphans s !! ino)) in
  let ps := ps ++ (ChunksUnowned <$> filter (fun ino => orphaned ino = false) stray) in
  let reap := (AwaitingReap <$> filter (fun ino => orphaned ino = true) stray) ++
              (OrphanMarker <$> (map_to_list (s_orphans s)).*1) in
  match reach_loop fuel s (l_children l) {[ROOT_INO]} [ROOT_INO] with
  | None => None
  | Some reachable =>
      Some {| problems := ps ++ flat_map (check_reached s reachable) (map_to_list (s_inodes s));
              reapable := reap;
              inodes_counted := as_i64 (Z.of_nat (base.size (s_inodes s)));
              bytes_counted := bytes;
              counter_inodes := counter_inodes;
              counter_bytes := counter_bytes |}
  end.

(** * Running the checker *)

Section fsck.
Context {DB : SlateDB} {NCR : NameCrypto}.

(** [while let Some(kv) = iter.next().await? { ... }] *)
Fixpoint scan_records (it : list (Key * Value)) (s : Scanned) : ST Engine Error Scanned :=
  o <- lift_db (iter_next it) ;;
  match it, o with
  | kv :: it', Some _ => s <- st_lift (scan_step s kv) ;; scan_records it' s
  | _, _ => st_ret s
  end.

Definition read_counter (k : Key) : ST Engine Error i64 :=
  o <- lift_db (get k) ;; st_ret (decode_counter (value_bytes <$> o)).

Definition scan_all : ST Engine Error (Scanned * i64 * i64) :=
  it <- lift_db (scan None None) ;;
  s <- scan_records it scanned_empty ;;
  bytes <- read_counter KQuotaBytes ;;
  inodes <- read_counter KQuotaInodes ;;
  st_ret (s, bytes, inodes).

Definition check (fuel : nat) (chunk_size : u64) (names : NameCodec) : ST Engine (Halt Error) FsckReport :=
  let* (s, bytes, inodes) := st_map_err Raise scan_all in
  match check_scanned fuel chunk_size names s bytes inodes with
  | Some r => st_ret r
  | None => st_fail OutOfFuel
  end.

(** The counters as the report counted them. *)
Definition recount_batch (r : FsckReport) : WriteBatch :=
  [Put KQuotaBytes (VBytes (to_le 8 (bytes_counted r))); Put KQuotaInodes (VBytes (to_le 8 (inodes_counted r)))].

Definition rewrite_counters (r : FsckReport) : ST Engine Error unit :=
  if counters_match r then st_ret tt
  else lift_db (write (recount_batch r)) ;;; lift_db flush.

Definition recount (fuel : nat) (chunk_size : u64) (names : NameCodec) : ST Engine (Halt Error) FsckReport :=
  r <- check fuel chunk_size names ;;
  st_map_err Raise (rewrite_counters r) ;;;
  st_ret r.

(** * Block volumes *)

Definition BLOCK_INO : u64 := 0.

Record BlockScan : Type := { b_problems : list Problem; b_superblock : bool; b_bytes : i64 }.

Definition block_step (size_bytes chunk_size : u64) (b : BlockScan) (kv : Key * Value) : BlockScan :=
  let key := key_bytes kv.1 in
  let report ps := {| b_problems := b_problems b ++ ps; b_superblock := b_superblock b; b_bytes := b_bytes b |} in
  if bool_decide (key = keys.KEY_SUPERBLOCK) then
    {| b_problems := b_problems b; b_superblock := true; b_bytes := b_bytes b |}
  else if bool_decide (key = keys.KEY_QUOTA_BYTES) || bool_decide (key = keys.KEY_QUOTA_INODES) then b
  else
    match keys.parse_chunk key with
    | None => report [UnexpectedKey kv.1]
    | Some (ino, idx) =>
        if negb (ino =? BLOCK_INO) then report [UnexpectedOwner ino idx]
        else
          let length := len (value_bytes kv.2) in
          let chunk_start := as_u64 (idx * chunk_size) in
          {| b_problems := b_problems b ++
               (if size_bytes <=? chunk_start then [ChunkBeyondSize idx] else []) ++
               (if chunk_size <? length then [BlockChunkOversize idx length] else []);
             b_superblock := b_superblock b;
             b_bytes := as_i64 (b_bytes b + as_i64 (billed_chunk_bytes size_bytes chunk_start length)) |}
    end.

Fixpoint scan_block (size_bytes chunk_size : u64) (it : list (Key * Value)) (b : BlockScan) : ST Engine Error BlockScan :=
  o <- lift_db (iter_next it) ;;
  match it, o with
  | kv :: it', Some _ => scan_block size_bytes chunk_size it' (block_step size_bytes chunk_size b kv)
  | _, _ => st_ret b
  end.

Definition check_block (size_bytes chunk_size : u64) : ST Engine Error FsckReport :=
  bytes <- read_counter KQuotaBytes ;;
  inodes <- read_counter KQuotaInodes ;;
  it <- lift_db (scan None None) ;;
  b <- scan_block size_bytes chunk_size it {| b_problems := []; b_superblock := false; b_bytes := 0 |} ;;
  st_ret {| problems := b_problems b ++ (if b_superblock b then [] else [SuperblockMissing]);
            reapable := [];
            inodes_counted := 1; bytes_counted := b_bytes b;
            counter_inodes := inodes; counter_bytes := bytes |}.

Definition recount_block (size_bytes chunk_size : u64) : ST Engine Error FsckReport :=
  r <- check_block size_bytes chunk_size ;;
  rewrite_counters r ;;;
  st_ret r.
End fsck.
