(* ===== verification/FsckThm.v ===== *)
(** The checker against the invariant: what its scan collects, and that it
    reports a well-formed volume clean. *)

From stdpp Require Import fin_sets gmap.
From S2P Require Import Prelude Keys Meta Store Data Quota Volume Vfs Tree Wf WfOps VfsLogic VfsInv Fsck.

(** * What the scan collects *)

Definition as_inode (v : Value) : option Inode := match v with VInode n => Some n | _ => None end.
Definition as_dirent (v : Value) : option Dirent := match v with VDirent d => Some d | _ => None end.
Definition as_idx (v : Value) : option DirentIdx := match v with VDirentIdx e => Some e | _ => None end.
Definition as_orphan (v : Value) : option Orphan := match v with VOrphan o => Some o | _ => None end.

(** A record whose key fits the layout and whose value has the type its key
    calls for. *)
Definition record_ok (k : Key) (v : Value) : Prop :=
  key_ok k /\
  match k with
  | KInode _ => is_Some (as_inode v)
  | KDirent _ _ => is_Some (as_dirent v)
  | KDirentIdx _ _ => is_Some (as_idx v)
  | KOrphan _ => is_Some (as_orphan v)
  | _ => True
  end.

Definition entry_links (i : u64) (_ : u64 * bytes) (d : Dirent) : Z := if d_child_ino d =? i then 1 else 0.
Definition entry_subdirs (p : u64) (k : u64 * bytes) (d : Dirent) : Z := if (k.1 =? p) && is_dir (d_kind d) then 1 else 0.

(** The index and length of the chunks of [i]. *)
Definition chunk_of_record (i : u64) (kv : Key * Value) : option (u32 * usize) :=
  match kv.1 with KChunk j idx => if j =? i then Some (idx, len (value_bytes kv.2)) else None | _ => None end.

Record view (m : gmap Key Value) (s : Scanned) : Prop := {
  vw_inodes i : s_inodes s !! i = m !! KInode i ≫= as_inode;
  vw_dirents p e : s_dirents s !! (p, e) = m !! KDirent p e ≫= as_dirent;
  vw_idx p id : s_idx s !! (p, id) = m !! KDirentIdx p id ≫= as_idx;
  vw_orphans i : s_orphans s !! i = m !! KOrphan i ≫= as_orphan;
  vw_symlinks i : i ∈ s_symlinks s <-> is_Some (m !! KSymlink i);
  vw_chunks i : default [] (s_chunks s !! i) ≡ₚ omap (chunk_of_record i) (map_to_list m);
  vw_stray i : is_Some (s_chunks s !! i) -> exists idx, is_Some (m !! KChunk i idx);
  vw_links i : msum (entry_links i) (s_dirents s) = links m i;
  vw_subdirs p : msum (entry_subdirs p) (s_dirents s) = subdirs m p;
  vw_bytes : msum (fun (_ : u64) n => i_billed_bytes n) (s_inodes s) = bytes_total m;
  vw_count : Z.of_nat (base.size (s_inodes s)) = inode_total m
}.

Lemma view_empty : view ∅ scanned_empty.
Proof.
  split; simpl; intros; rewrite ?lookup_empty; try done.
  by destruct H.
Qed.

(** Adding a record to the store and to the scan. *)
Lemma omap_perm {A B} (f : A -> option B) l1 l2 : l1 ≡ₚ l2 -> omap f l1 ≡ₚ omap f l2.
Proof. induction 1; simpl; repeat case_match; eauto using perm_skip, perm_swap, perm_trans. Qed.

Lemma chunks_insert m k v i :
  m !! k = None ->
  omap (chunk_of_record i) (map_to_list (<[k := v]> m)) ≡ₚ
    match chunk_of_record i (k, v) with Some c => [c] | None => [] end ++ omap (chunk_of_record i) (map_to_list m).
Proof. intros Hk. rewrite (omap_perm _ _ _ (map_to_list_insert m k v Hk)). simpl. by destruct (chunk_of_record i (k, v)). Qed.

Lemma view_other m s k v :
  m !! k = None -> view m s ->
  match k with KInode _ | KDirent _ _ | KDirentIdx _ _ | KChunk _ _ | KOrphan _ | KSymlink _ => False | _ => True end ->
  view (<[k := v]> m) s.
Proof.
  intros Hk [] Hkind. assert (forall k', match k' with KInode _ | KDirent _ _ | KDirentIdx _ _ | KChunk _ _ | KOrphan _ | KSymlink _ => True | _ => False end ->
    <[k := v]> m !! k' = m !! k') as Hne by (intros k' Hk'; apply lookup_insert_ne; intros ->; by destruct k').
  split; intros; rewrite ?Hne by done; try done; try (by eauto).
  - rewrite chunks_insert by done. by destruct k.
  - setoid_rewrite Hne; [by apply vw_stray0|done].
  - unfold links. rewrite msum_insert_fresh by done. rewrite vw_links0. by destruct k.
  - unfold subdirs. rewrite msum_insert_fresh by done. rewrite vw_subdirs0. by destruct k.
  - unfold bytes_total. rewrite msum_insert_fresh by done. rewrite vw_bytes0. by destruct k.
  - unfold inode_total. rewrite msum_insert_fresh by done. rewrite vw_count0. by destruct k.
Qed.

(** What [scan_step] does to a record that is as it should be. *)
Definition typed_step (s : Scanned) (k : Key) (v : Value) : Scanned :=
  match k, v with
  | KInode i, VInode n => set_inodes (<[i := n]> (s_inodes s)) s
  | KDirent p e, VDirent d => set_dirents (<[(p, e) := d]> (s_dirents s)) s
  | KDirentIdx p id, VDirentIdx x => set_idx (<[(p, id) := x]> (s_idx s)) s
  | KChunk i idx, _ => set_chunks (push_at i (idx, len (value_bytes v)) (s_chunks s)) s
  | KOrphan i, VOrphan o => set_orphans (<[i := o]> (s_orphans s)) s
  | KSymlink i, _ => set_symlinks ({[i]} ∪ s_symlinks s) s
  | _, _ => s
  end.

Lemma scan_step_typed s k v : record_ok k v -> scan_step s (k, v) = Ok (typed_step s k v).
Proof.
  intros [Hk Hv]. unfold scan_step. cbn [fst snd]. pose proof (parse_chunk_ok k Hk) as Hpc. pose proof (parse_dirent_idx_ok k Hk) as Hpi.
  destruct k; cbn [key_ok] in Hk; cbn [head key_bytes keys.inode keys.dirent keys.dirent_idx keys.chunk keys.symlink keys.xattr keys.orphan
    keys.KEY_SUPERBLOCK keys.KEY_QUOTA_BYTES keys.KEY_QUOTA_INODES keys.KEY_NEXT_INO]; try done.
  - pose proof (parse_ino_ok 105 ino [] Hk) as Hp. rewrite app_nil_r in Hp. unfold keys.inode. rewrite Hp. destruct v; by destruct Hv.
  - pose proof (parse_ino_ok 100 parent enc_name Hk) as Hp. unfold keys.dirent. rewrite Hp. destruct v; try by destruct Hv.
  - unfold keys.dirent_idx in *. cbn [key_bytes] in Hpi. unfold keys.dirent_idx in Hpi. cbn [head]. rewrite Hpi. destruct v; by destruct Hv.
  - cbn [key_bytes] in Hpc. unfold keys.chunk in *. cbn [head]. by rewrite Hpc.
  - pose proof (parse_ino_ok 115 ino [] Hk) as Hp. rewrite app_nil_r in Hp. unfold keys.symlink. by rewrite Hp.
  - pose proof (parse_ino_ok 111 ino [] Hk) as Hp. rewrite app_nil_r in Hp. unfold keys.orphan. rewrite Hp. destruct v; by destruct Hv.
Qed.

(** The tables a new record leaves alone. *)
Ltac view_same Hk :=
  match goal with
  | |- context [omap _ (map_to_list (<[_ := _]> _))] => rewrite chunks_insert by exact Hk; simpl; try done
  | |- context [links (<[_ := _]> _)] => unfold links; rewrite msum_insert_fresh by exact Hk; simpl; try (fold (links); lia)
  | |- context [subdirs (<[_ := _]> _)] => unfold subdirs; rewrite msum_insert_fresh by exact Hk; simpl; try lia
  | |- context [bytes_total (<[_ := _]> _)] => unfold bytes_total; rewrite msum_insert_fresh by exact Hk; simpl; try lia
  | |- context [inode_total (<[_ := _]> _)] => unfold inode_total; rewrite msum_insert_fresh by exact Hk; simpl; try lia
  | |- context [<[_ := _]> _ !! _] => rewrite ?lookup_insert_ne by congruence; try done
  end.

Lemma view_inode m s i n : m !! KInode i = None -> view m s -> view (<[KInode i := VInode n]> m) (set_inodes (<[i := n]> (s_inodes s)) s).
Proof.
  intros Hk [V1 V2 V3 V4 V5 V6 V7 V8 V9 V10 V11]. assert (s_inodes s !! i = None) as Hi by (by rewrite V1, Hk).
  split; simpl; intros; try (view_same Hk).
  - destruct (decide (i0 = i)) as [->|]; [by rewrite !lookup_insert_eq|by rewrite !lookup_insert_ne by congruence].
  - destruct (V7 _ ltac:(eassumption)) as [idx ?]. exists idx. by rewrite lookup_insert_ne.
  - apply V8.
  - apply V9.
  - unfold bytes_total in *. rewrite !msum_insert_fresh by done. cbv beta. cbn [inode_bill]. lia.
  - unfold inode_total in *. rewrite map_size_insert_None by done. lia.
Qed.

Lemma view_dirent m s p e d : m !! KDirent p e = None -> view m s -> view (<[KDirent p e := VDirent d]> m) (set_dirents (<[(p, e) := d]> (s_dirents s)) s).
Proof.
  intros Hk [V1 V2 V3 V4 V5 V6 V7 V8 V9 V10 V11]. assert (s_dirents s !! (p, e) = None) as Hi by (by rewrite V2, Hk).
  split; simpl; intros; try (view_same Hk).
  - destruct (decide ((p0, e0) = (p, e))) as [[= -> ->]|]; [by rewrite !lookup_insert_eq|by rewrite !lookup_insert_ne by congruence].
  - destruct (V7 _ ltac:(eassumption)) as [idx ?]. exists idx. by rewrite lookup_insert_ne.
  - unfold links in *. rewrite !msum_insert_fresh by done. rewrite V8. done.
  - unfold subdirs in *. rewrite !msum_insert_fresh by done. rewrite V9. done.
  - apply V10.
  - apply V11.
Qed.

Lemma view_idx_record m s p id x : m !! KDirentIdx p id = None -> view m s -> view (<[KDirentIdx p id := VDirentIdx x]> m) (set_idx (<[(p, id) := x]> (s_idx s)) s).
Proof.
  intros Hk [V1 V2 V3 V4 V5 V6 V7 V8 V9 V10 V11].
  split; simpl; intros; try (view_same Hk).
  - destruct (decide ((p0, id0) = (p, id))) as [[= -> ->]|]; [by rewrite !lookup_insert_eq|by rewrite !lookup_insert_ne by congruence].
  - destruct (V7 _ ltac:(eassumption)) as [idx ?]. exists idx. by rewrite lookup_insert_ne.
  - apply V8.
  - apply V9.
  - apply V10.
  - apply V11.
Qed.

Lemma view_orphan m s i o : m !! KOrphan i = None -> view m s -> view (<[KOrphan i := VOrphan o]> m) (set_orphans (<[i := o]> (s_orphans s)) s).
Proof.
  intros Hk [V1 V2 V3 V4 V5 V6 V7 V8 V9 V10 V11].
  split; simpl; intros; try (view_same Hk).
  - destruct (decide (i0 = i)) as [->|]; [by rewrite !lookup_insert_eq|by rewrite !lookup_insert_ne by congruence].
  - destruct (V7 _ ltac:(eassumption)) as [idx ?]. exists idx. by rewrite lookup_insert_ne.
  - apply V8.
  - apply V9.
  - apply V10.
  - apply V11.
Qed.

Lemma view_symlink m s i x : m !! KSymlink i = None -> view m s -> view (<[KSymlink i := x]> m) (set_symlinks ({[i]} ∪ s_symlinks s) s).
Proof.
  intros Hk [V1 V2 V3 V4 V5 V6 V7 V8 V9 V10 V11].
  split; simpl; intros; try (view_same Hk).
  - rewrite elem_of_union, elem_of_singleton, V5. destruct (decide (i0 = i)) as [->|]; [rewrite lookup_insert_eq|rewrite lookup_insert_ne by congruence]; naive_solver.
  - destruct (V7 _ ltac:(eassumption)) as [idx ?]. exists idx. by rewrite lookup_insert_ne.
  - apply V8.
  - apply V9.
  - apply V10.
  - apply V11.
Qed.

Lemma view_chunk m s i idx x : m !! KChunk i idx = None -> view m s ->
  view (<[KChunk i idx := x]> m) (set_chunks (push_at i (idx, len (value_bytes x)) (s_chunks s)) s).
Proof.
  intros Hk [V1 V2 V3 V4 V5 V6 V7 V8 V9 V10 V11].
  split; simpl; intros; try (view_same Hk).
  - unfold push_at, chunk_of_record at 1. simpl. destruct (Z.eqb_spec i i0) as [->|]; simpl.
    + rewrite lookup_insert_eq. simpl. rewrite V6. by rewrite Permutation_app_comm.
    + by rewrite lookup_insert_ne.
  - unfold push_at in H. destruct (decide (i0 = i)) as [->|]; [exists idx; by rewrite lookup_insert_eq|].
    rewrite lookup_insert_ne in H by congruence. destruct (V7 _ H) as [idx' ?]. exists idx'. by rewrite lookup_insert_ne by congruence.
  - apply V8.
  - apply V9.
  - apply V10.
  - apply V11.
Qed.

Lemma view_typed m s k v : m !! k = None -> record_ok k v -> view m s -> view (<[k := v]> m) (typed_step s k v).
Proof.
  intros Hk [_ Hv] Hs. destruct k; simpl; try (by apply view_other); try (by apply view_symlink); try (by apply view_chunk);
    destruct Hv as [x Hx]; destruct v; simplify_eq/=; by auto using view_inode, view_dirent, view_idx_record, view_orphan.
Qed.

(** The list form of the loop. *)
Fixpoint typed_scan (it : list (Key * Value)) (s : Scanned) : Scanned :=
  match it with [] => s | kv :: it' => typed_scan it' (typed_step s kv.1 kv.2) end.

Lemma view_scan it : forall m s,
  NoDup it.*1 -> Forall (fun kv => record_ok kv.1 kv.2 /\ m !! kv.1 = None) it -> view m s ->
  view (list_to_map it ∪ m) (typed_scan it s).
Proof.
  induction it as [|[k v] it IH]; simpl; intros m s Hnd Hall Hs; [by rewrite map_empty_union|].
  apply NoDup_cons in Hnd as [Hni Hnd]. inversion Hall as [|? ? [Hok Hk] Hrest]; subst. simpl in *.
  replace (<[k := v]> (list_to_map it) ∪ m) with (list_to_map it ∪ <[k := v]> m).
  - apply IH; [done| |by apply view_typed]. apply Forall_forall. intros [k' v'] Hin.
    destruct (proj1 (Forall_forall _ it) Hrest _ Hin) as [H1 H2]. split; [done|]. simpl in *. rewrite lookup_insert_ne; [done|].
    intros ->. apply Hni. apply list_elem_of_fmap. by exists (k', v').
  - rewrite <- insert_union_l, <- insert_union_r; [done|]. by apply not_elem_of_list_to_map_1.
Qed.

Section scan.
Context {DB : SlateDB}.

Lemma scan_records_quiet it : forall s (e : Engine),
  e_faults e = [] -> Forall (fun kv => record_ok kv.1 kv.2) it -> scan_records it s e = (Ok (typed_scan it s), e).
Proof.
  induction it as [|[k v] it IH]; intros s e He Hall; cbn [scan_records typed_scan]; unfold st_bind, lift_db, st_map_err;
    rewrite iter_next_quiet by done; cbn [map_err fst snd]; [done|].
  inversion Hall as [|? ? Hok Hrest]; subst. unfold st_lift. rewrite scan_step_typed by done. by apply IH.
Qed.

Definition counter_value (m : gmap Key Value) (k : Key) : i64 := decode_counter (value_bytes <$> m !! k).

(** On a quiet engine whose records are as they should be the scan succeeds
    and collects them all. *)
Lemma scan_all_quiet (e : Engine) :
  e_faults e = [] -> (forall k v, contents (e_db e) !! k = Some v -> record_ok k v) ->
  exists s, scan_all e = (Ok (s, counter_value (contents (e_db e)) KQuotaBytes, counter_value (contents (e_db e)) KQuotaInodes), e) /\
    view (contents (e_db e)) s.
Proof.
  intros He Hok. set (m := contents (e_db e)) in *. set (it := Store.db_scan (e_db e) None None).
  assert (forall k v, (k, v) ∈ it <-> m !! k = Some v) as Hel.
  { intros k v. unfold it. rewrite Store.db_scan_elem. fold m. naive_solver. }
  assert (Forall (fun kv => record_ok kv.1 kv.2) it) as Hall.
  { apply Forall_forall. intros [k v] Hin. apply Hok. by apply Hel. }
  exists (typed_scan it scanned_empty). split.
  - unfold scan_all, read_counter, st_bind, lift_db, st_map_err. rewrite scan_quiet by done. cbn [map_err]. fold it.
    rewrite scan_records_quiet, get_quiet by done. cbn [map_err st_ret]. rewrite get_quiet by done. done.
  - pose proof (Store.db_scan_nodup (e_db e) None None) as Hnd. fold it in Hnd.
    replace m with ((list_to_map it : gmap Key Value) ∪ ∅).
    + apply view_scan; [done| |apply view_empty]. eapply Forall_impl; [exact Hall|]. intros kv H. split; [done|apply lookup_empty].
    + rewrite map_union_empty. apply map_eq. intros k. apply option_eq. intros v. rewrite <- elem_of_list_to_map by done. apply Hel.
Qed.
End scan.

(** * The loop over the entries *)

Section links.
Context {NCR : NameCrypto} (names : NameCodec) (s : Scanned).

(** What each entry is checked for. *)
Definition dirent_problems (x : u64 * bytes * Dirent) : list Problem :=
  let '(parent, enc_name, d) := x in
  check_parent s parent d ++ check_child s parent d ++ check_index s parent enc_name d ++ check_name names parent enc_name d.

Definition child_is_dir (d : Dirent) : bool :=
  match s_inodes s !! d_child_ino d with Some c => is_dir (i_kind c) | None => false end.

Definition sumZ {A} (f : A -> Z) (l : list A) : Z := foldr (fun x acc => f x + acc) 0 l.

Lemma sumZ_nonneg {A} (f : A -> Z) l : (forall x, 0 <= f x) -> 0 <= sumZ f l.
Proof. intros Hf. induction l as [|x l IH]; simpl; [lia|]. specialize (Hf x). lia. Qed.

Lemma count_at_default k m i :
  default 0 (count_at k m !! i) = if k =? i then as_u32 (default 0 (m !! i) + 1) else default 0 (m !! i).
Proof.
  unfold count_at. destruct (Z.eqb_spec k i) as [->|]; [by rewrite lookup_insert_eq|by rewrite lookup_insert_ne].
Qed.

Lemma as_u32_add_l x y : as_u32 (as_u32 x + y) = as_u32 (x + y).
Proof. unfold as_u32. apply Z.add_mod_idemp_l. lia. Qed.
Lemma as_u32_range x : is_u32 (as_u32 x).
Proof. unfold is_u32, as_u32. apply Z.mod_pos_bound. lia. Qed.

Record links_of (L : list (u64 * bytes * Dirent)) (l l' : Links) : Prop := {
  lo_problems : l_problems l' = l_problems l ++ flat_map dirent_problems L;
  lo_counts i : is_u32 (default 0 (l_counts l !! i)) ->
    default 0 (l_counts l' !! i) = as_u32 (default 0 (l_counts l !! i) + sumZ (fun x => entry_links i x.1 x.2) L);
  lo_dirs p : is_u32 (default 0 (l_child_dirs l !! p)) ->
    default 0 (l_child_dirs l' !! p) =
      as_u32 (default 0 (l_child_dirs l !! p) + sumZ (fun x => if (x.1.1 =? p) && child_is_dir x.2 then 1 else 0) L);
  lo_children p c : c ∈ default [] (l_children l' !! p) <->
    c ∈ default [] (l_children l !! p) \/ exists x, x ∈ L /\ x.1.1 = p /\ d_child_ino x.2 = c
}.

Lemma check_dirents L : forall l, links_of L l (fold_left (check_dirent names s) L l).
Proof.
  induction L as [|[[p e] d] L IH]; intros l; cbn [fold_left].
  - split; simpl; intros; rewrite ?app_nil_r, ?Z.add_0_r, ?as_u32_small by done; try done.
    split; [auto|]. intros [?|(x & []%not_elem_of_nil & _)]. done.
  - set (l1 := check_dirent names s l (p, e, d)). destruct (IH l1) as [I1 I2 I3 I4].
    assert (forall i, default 0 (l_child_dirs l1 !! i) =
      if (p =? i) && child_is_dir d then as_u32 (default 0 (l_child_dirs l !! i) + 1) else default 0 (l_child_dirs l !! i)) as Hd.
    { intros i. unfold child_is_dir. simpl. destruct (s_inodes s !! d_child_ino d) as [c|]; [|by rewrite andb_false_r].
      destruct (is_dir (i_kind c)); [|by rewrite andb_false_r]. by rewrite count_at_default, andb_true_r. }
    assert (forall i, default 0 (l_counts l1 !! i) =
      if d_child_ino d =? i then as_u32 (default 0 (l_counts l !! i) + 1) else default 0 (l_counts l !! i)) as Hc by (intros; apply count_at_default).
    split.
    + rewrite I1. simpl. by rewrite <- !app_assoc.
    + intros i Hi. rewrite I2; rewrite Hc; [|destruct (_ =? _); [apply as_u32_range|done]].
      simpl. unfold entry_links at 2. simpl. destruct (d_child_ino d =? i); [rewrite as_u32_add_l|]; f_equal; lia.
    + intros q Hq. rewrite I3; rewrite Hd; [|destruct (_ && _); [apply as_u32_range|done]].
      simpl. destruct ((p =? q) && child_is_dir d); [rewrite as_u32_add_l|]; f_equal; lia.
    + intros q c. rewrite I4. simpl. unfold push_at. destruct (decide (q = p)) as [->|Hne].
      * rewrite lookup_insert_eq. simpl. rewrite elem_of_app, list_elem_of_singleton. split.
        -- intros [[?| ->]|(x & ? & ? & ?)]; [by left|right; exists (p, e, d); set_solver|right; exists x; set_solver].
        -- intros [?|(x & [->|Hx]%elem_of_cons & Hp & <-)]; [auto|auto|right; eauto].
      * rewrite lookup_insert_ne by done. split.
        -- intros [?|(x & ? & ? & ?)]; [by left|right; exists x; set_solver].
        -- intros [?|(x & [->|Hx]%elem_of_cons & Hp & Hc')]; [auto|simpl in Hp; congruence|right; eauto].
Qed.
End links.

(** * The search from the root *)

Section reach.
Context (s : Scanned) (children : gmap u64 (list u64)).

Definition dir_at (i : u64) : bool := match s_inodes s !! i with Some n => is_dir (i_kind n) | None => false end.
Definition dirs : gset u64 := filter (fun i => dir_at i = true) (dom (s_inodes s)).

Lemma elem_dirs i : i ∈ dirs <-> dir_at i = true.
Proof.
  unfold dirs. rewrite elem_of_filter, elem_of_dom. unfold dir_at. destruct (s_inodes s !! i); [|by split; [intros [? _]|]].
  split; [by intros [? _]|]. eauto.
Qed.

Lemma visit_children cs : forall (R : gset u64) Q,
  exists R' Q', fold_left (visit_child s) cs (R, Q) = (R', Q') /\ R ⊆ R' /\ (forall c, c ∈ cs -> c ∈ R') /\
    (forall x, x ∈ Q -> x ∈ Q') /\ (forall x, x ∈ Q' -> x ∈ Q \/ x ∈ R') /\
    (forall x, x ∈ R' -> x ∉ R -> dir_at x = true -> x ∈ Q') /\
    (size (dirs ∖ R') + length Q' = size (dirs ∖ R) + length Q)%nat.
Proof.
  induction cs as [|c cs IH]; intros R Q; cbn [fold_left].
  - exists R, Q. split_and!; try done; [set_solver|auto].
  - cbn [visit_child]. destruct (decide (c ∈ R)) as [Hin|Hni].
    + rewrite bool_decide_eq_true_2 by done. destruct (IH R Q) as (R' & Q' & E & H1 & H2 & H3). exists R', Q'. split; [done|].
      split_and!; try done; [|tauto..]. intros x [->|?]%elem_of_cons; [by apply H1|by apply H2].
    + rewrite bool_decide_eq_false_2 by done.
      set (Q1 := match s_inodes s !! c with Some i => if is_dir (i_kind i) then Q ++ [c] else Q | None => Q end).
      assert (Q1 = if dir_at c then Q ++ [c] else Q) as EQ by (unfold Q1, dir_at; by destruct (s_inodes s !! c)).
      destruct (IH ({[c]} ∪ R) Q1) as (R' & Q' & E & H1 & H2 & H3 & H4 & H5 & H6). exists R', Q'. split; [done|].
      assert (forall x, x ∈ Q -> x ∈ Q1) by (rewrite EQ; intros x Hx; destruct (dir_at c); set_solver).
      split_and!.
      * set_solver.
      * intros x [->|?]%elem_of_cons; [set_solver|by apply H2].
      * auto.
      * intros x Hx. destruct (H4 x Hx) as [Hq|]; [|by right]. rewrite EQ in Hq. destruct (dir_at c); [|by left].
        apply elem_of_app in Hq as [?|Hq%list_elem_of_singleton]; [by left|right; set_solver].
      * intros x Hx Hni' Hd. destruct (decide (x = c)) as [->|]; [|apply H5; [done|set_solver|done]].
        apply H3. rewrite EQ, Hd. set_solver.
      * rewrite H6, EQ. destruct (dir_at c) eqn:Hd.
        -- rewrite length_app. cbn [length]. assert (dirs ∖ R = {[c]} ∪ dirs ∖ ({[c]} ∪ R)) as ->.
           { apply set_eq. intros x. rewrite elem_of_union, !elem_of_difference, elem_of_union, elem_of_singleton.
             destruct (decide (x = c)) as [->|]; [|tauto]. rewrite elem_dirs. tauto. }
           assert (({[c]} : gset u64) ## dirs ∖ ({[c]} ∪ R)) as Hdisj by set_solver.
           rewrite (fin_sets.size_union _ _ Hdisj), (fin_sets.size_singleton c). lia.
        -- f_equal. f_equal. apply set_eq. intros x. rewrite !elem_of_difference, elem_of_union, elem_of_singleton.
           destruct (decide (x = c)) as [->|]; [|tauto]. rewrite !elem_dirs, !Hd. naive_solver.
Qed.

(** With fuel for every directory the search ends, and its result is closed
    under the entries of the directories in it. *)
Lemma reach_loop_closed fuel : forall (R : gset u64) Q,
  (size (dirs ∖ R) + length Q <= fuel)%nat -> (forall x, x ∈ Q -> x ∈ R) ->
  (forall d c, d ∈ R -> d ∉ Q -> dir_at d = true -> c ∈ default [] (children !! d) -> c ∈ R) ->
  exists R', reach_loop fuel s children R Q = Some R' /\ R ⊆ R' /\
    forall d c, d ∈ R' -> dir_at d = true -> c ∈ default [] (children !! d) -> c ∈ R'.
Proof.
  induction fuel as [|fuel IH]; intros R [|d Q] Hf HQ Hcl; cbn [reach_loop].
  - exists R. split_and!; try done. intros d c Hd. apply (Hcl d c Hd). set_solver.
  - simpl in Hf. lia.
  - exists R. split_and!; try done. intros d c Hd. apply (Hcl d c Hd). set_solver.
  - destruct (visit_children (default [] (children !! d)) R Q) as (R1 & Q1 & E & H1 & H2 & H3 & H4 & H5 & H6). rewrite E.
    simpl in Hf. destruct (IH R1 Q1) as (R' & ER & HR & Hc); [lia|..].
    + intros x [Hx|Hx]%H4; [|done]. apply H1, HQ. set_solver.
    + intros x c Hx Hnq Hd Hc. destruct (decide (x = d)) as [->|Hne]; [by apply H2|].
      destruct (decide (x ∈ R)) as [HxR|HxR]; [|by destruct Hnq; apply H5].
      apply H1. apply (Hcl x c HxR); [|done|done]. intros [?|?]%elem_of_cons; [done|]. by apply Hnq, H3.
    + exists R'. split_and!; [done|set_solver|done].
Qed.
End reach.

(** * A well-formed volume is clean *)

Lemma sumZ_perm {A} (f : A -> Z) l1 l2 : l1 ≡ₚ l2 -> sumZ f l1 = sumZ f l2.
Proof. unfold sumZ. induction 1 as [|x l l' _ IH|x y l|? ? ? _ IH1 _ IH2]; simpl; [done|by rewrite IH|lia|by rewrite IH1]. Qed.
Lemma sumZ_ext {A} (f g : A -> Z) l : (forall x, x ∈ l -> f x = g x) -> sumZ f l = sumZ g l.
Proof.
  induction l as [|x l IH]; intros H; simpl; [done|]. rewrite (H x) by set_solver. rewrite IH; [done|]. intros y Hy. apply H. set_solver.
Qed.
Lemma sumZ_app {A} (f : A -> Z) l1 l2 : sumZ f (l1 ++ l2) = sumZ f l1 + sumZ f l2.
Proof. unfold sumZ. induction l1 as [|x l IH]; simpl; [done|]. rewrite IH. lia. Qed.
Lemma sumZ_map `{Countable K} {V} (f : K -> V -> Z) (m : gmap K V) : sumZ (fun x => f x.1 x.2) (map_to_list m) = msum f m.
Proof.
  induction m as [|k v m Hk IH] using map_ind; [by rewrite map_to_list_empty, msum_empty|].
  rewrite (sumZ_perm _ _ _ (map_to_list_insert m k v Hk)), msum_insert_fresh by done. cbn [sumZ foldr fst snd]. unfold sumZ in IH. lia.
Qed.
Lemma sumZ_omap {A B} (f : B -> Z) (g : A -> option B) l : sumZ f (omap g l) = sumZ (fun x => from_option f 0 (g x)) l.
Proof.
  unfold sumZ. induction l as [|x l IH]; [done|].
  change (omap g (x :: l)) with (match g x with Some y => y :: omap g l | None => omap g l end).
  cbn [foldr]. rewrite <- IH. by destruct (g x).
Qed.

Lemma flat_map_nil {A B} (f : A -> list B) l : (forall x, x ∈ l -> f x = []) -> flat_map f l = [].
Proof.
  induction l as [|x l IH]; intros H; simpl; [done|]. rewrite H by set_solver. apply IH. intros y Hy. apply H. set_solver.
Qed.

Lemma as_u64_add_l x y : as_u64 (as_u64 x + y) = as_u64 (x + y).
Proof. unfold as_u64. apply Z.add_mod_idemp_l. lia. Qed.

Definition bill_of cs size (c : u32 * usize) : u64 := billed_chunk_bytes size (as_u64 (c.1 * cs)) c.2.

Lemma bill_chunks_spec cs ino size L :
  bill_chunks cs ino size L =
    (flat_map (fun c => if cs <? c.2 then [ChunkOversize ino c.1 c.2] else []) L, as_u64 (sumZ (bill_of cs size) L)).
Proof.
  unfold bill_chunks. assert (forall ps b, fold_left (fun '(ps, billed) '(idx, length) =>
    (ps ++ (if cs <? length then [ChunkOversize ino idx length] else []),
     as_u64 (billed + billed_chunk_bytes size (as_u64 (idx * cs)) length))) L (ps, as_u64 b) =
    (ps ++ flat_map (fun c => if cs <? c.2 then [ChunkOversize ino c.1 c.2] else []) L, as_u64 (b + sumZ (bill_of cs size) L))) as H.
  { induction L as [|[idx l] L IH]; intros ps b; simpl; [by rewrite app_nil_r, Z.add_0_r|].
    rewrite as_u64_add_l, IH, <- app_assoc. f_equal. f_equal. unfold bill_of at 2. simpl. lia. }
  apply (H [] 0).
Qed.

Lemma check_inodes_spec cs s l L ps b :
  fold_left (check_inode cs s l) L (ps, as_i64 b) =
    (ps ++ flat_map (fun e => check_links s l e.1 e.2 ++ (bill_chunks cs e.1 (i_size e.2) (default [] (s_chunks s !! e.1))).1 ++
        (if negb ((bill_chunks cs e.1 (i_size e.2) (default [] (s_chunks s !! e.1))).2 =? i_billed_bytes e.2)
         then [BilledDiffers e.1 (i_billed_bytes e.2) (bill_chunks cs e.1 (i_size e.2) (default [] (s_chunks s !! e.1))).2] else [])) L,
     as_i64 (b + sumZ (fun e => (bill_chunks cs e.1 (i_size e.2) (default [] (s_chunks s !! e.1))).2) L)).
Proof.
  revert ps b. induction L as [|[i n] L IH]; intros ps b; cbn [fold_left flat_map sumZ foldr]; [by rewrite app_nil_r, Z.add_0_r|].
  unfold check_inode at 2. cbn [fst snd]. destruct (bill_chunks cs i (i_size n) (default [] (s_chunks s !! i))) as [bp bl]. cbn [fst snd].
  rewrite as_i64_add_l, as_i64_add_r, IH, <- !app_assoc. f_equal. f_equal. unfold sumZ. lia.
Qed.

Section clean.
Context {NCR : NameCrypto} (names : NameCodec) (cs nx : u64) (m : gmap Key Value) (s : Scanned).
Context (Hwf : wf names cs nx m) (Hcs : 0 < cs <= 2 ^ 22) (Hv : view m s).

Let Ht : tree_ok names m := wf_tree _ _ _ _ Hwf.

Lemma scanned_inode i n : s_inodes s !! i = Some n <-> node m i n.
Proof.
  rewrite (vw_inodes _ _ Hv). split; [|by intros ->]. intros (v & Hm & Hn)%bind_Some. destruct v; simplify_eq/=. done.
Qed.
Lemma scanned_dirent p e d : s_dirents s !! (p, e) = Some d <-> dent m p e d.
Proof.
  rewrite (vw_dirents _ _ Hv). split; [|by intros ->]. intros (v & Hm & Hn)%bind_Some. destruct v; simplify_eq/=. done.
Qed.
Lemma scanned_entry x : x ∈ map_to_list (s_dirents s) <-> dent m x.1.1 x.1.2 x.2.
Proof. destruct x as [[p e] d]. rewrite elem_of_map_to_list. apply scanned_dirent. Qed.

Lemma entry_of p e d : dent m p e d -> entry_ok names (fun _ => 0) m p e d.
Proof. intros Hd. destruct (tr_dirent _ _ _ _ _ Ht p e _ Hd) as (? & [= <-] & H). done. Qed.

Lemma clean_root : check_root s = [].
Proof.
  unfold check_root. destruct (tr_root _ _ _ _ _ Ht) as (r & Hr & Hk & Hp). apply scanned_inode in Hr. rewrite Hr, Hk, Hp. done.
Qed.

Lemma clean_dirent x : x ∈ map_to_list (s_dirents s) -> dirent_problems names s x = [].
Proof.
  intros Hx%scanned_entry. destruct x as [[p e] d]. simpl in Hx. destruct (entry_of p e d Hx) as [E1 E2 E3 (pn & Hp & Hpk & Hid) (cn & Hc & Hck & Hpar)].
  unfold dirent_problems, check_parent, check_child, check_index, check_name.
  apply scanned_inode in Hp, Hc. rewrite Hp, Hc, Hpk, Hck. simpl.
  rewrite (proj2 (Z.leb_gt _ _)) by lia. rewrite bool_decide_eq_true_2 by done. simpl.
  assert (is_dir (d_kind d) && negb (i_parent_dir cn =? p) = false) as ->.
  { destruct (is_dir (d_kind d)) eqn:Hd; [|done]. rewrite Hpar, Z.eqb_refl; [done|]. apply is_dir_true in Hd. congruence. }
  simpl. rewrite (vw_idx _ _ Hv), E3. simpl. rewrite !bool_decide_eq_true_2, Z.eqb_refl by done. simpl.
  rewrite (open_seal _ _ _ _ E1). by rewrite bool_decide_eq_true_2.
Qed.

Lemma clean_paired k : k ∈ (map_to_list (s_idx s)).*1 -> check_paired s k = [].
Proof.
  destruct k as [p id]. intros ([k' x] & E & Hx)%list_elem_of_fmap. simpl in E. subst k'. apply elem_of_map_to_list in Hx.
  rewrite (vw_idx _ _ Hv) in Hx. apply bind_Some in Hx as (v & Hm & _).
  destruct (tr_idx _ _ _ _ _ Ht p id v Hm) as (enc & d & Hd & <-). unfold check_paired.
  assert (existsb (fun e : u64 * bytes * Dirent => (e.1.1 =? p) && (d_dirent_id e.2 =? d_dirent_id d)) (map_to_list (s_dirents s)) = true) as ->; [|done].
  apply existsb_exists. exists (p, enc, d). split; [|simpl; by rewrite !Z.eqb_refl].
  apply list_elem_of_In, scanned_entry. done.
Qed.

(** The table of links after the loop over the entries. *)
Definition clean_links : Links := fold_left (check_dirent names s) (map_to_list (s_dirents s))
             {| l_problems := check_root s; l_counts := ∅; l_child_dirs := ∅; l_children := ∅ |}.

Lemma clean_links_ok : l_problems clean_links = [] /\
  (forall i, default 0 (l_counts clean_links !! i) = as_u32 (links m i)) /\
  (forall p, default 0 (l_child_dirs clean_links !! p) = as_u32 (subdirs m p)) /\
  (forall p c, c ∈ default [] (l_children clean_links !! p) <-> exists e d, dent m p e d /\ d_child_ino d = c).
Proof.
  unfold clean_links. set (l0 := {| l_problems := _ |}).
  destruct (check_dirents names s (map_to_list (s_dirents s)) l0) as [P C D Ch]. split_and!.
  - rewrite P. simpl. rewrite clean_root. apply flat_map_nil, clean_dirent.
  - intros i. rewrite C by (by simpl). simpl. rewrite (sumZ_map (entry_links i)), (vw_links _ _ Hv). done.
  - intros p. rewrite D by (by simpl). simpl.
    rewrite (sumZ_ext _ (fun x => entry_subdirs p x.1 x.2)); [by rewrite (sumZ_map (entry_subdirs p)), (vw_subdirs _ _ Hv)|].
    intros x Hx%scanned_entry. unfold entry_subdirs. destruct (entry_of _ _ _ Hx) as [_ _ _ _ (cn & Hc & Hck & _)].
    unfold child_is_dir. apply scanned_inode in Hc. by rewrite Hc, Hck.
  - intros p c. rewrite Ch. simpl. rewrite lookup_empty. simpl. split.
    + intros [[]%not_elem_of_nil|(x & Hx%scanned_entry & <- & <-)]. eauto.
    + intros (e & d & Hd & <-). right. exists (p, e, d). split; [by apply scanned_entry|done].
Qed.

Lemma clean_links_at i n : node m i n -> check_links s clean_links i n = [].
Proof.
  intros Hn. destruct clean_links_ok as (_ & C & D & _). destruct (wf_widths _ _ _ _ Hwf i n Hn) as (Hu & _ & _).
  unfold check_links. rewrite C, D. destruct (is_dir (i_kind n)) eqn:Hk.
  - apply is_dir_true in Hk. destruct (tr_dir _ _ _ _ _ Ht i n Hn Hk) as [H1 H2]. cbv beta in H1, H2.
    assert (is_u32 (links m i)) by (unfold is_u32; destruct (i =? ROOT_INO); lia). rewrite (as_u32_small (links m i)) by done.
    assert (as_u32 (2 + as_u32 (subdirs m i)) = i_nlink n) as ->.
    { rewrite Z.add_comm, as_u32_add_l. replace (subdirs m i + 2) with (i_nlink n) by lia. by apply as_u32_small. }
    rewrite Z.eqb_refl. destruct (Z.eqb_spec i ROOT_INO); simpl; destruct (Z.ltb_spec 1 (links m i)); try lia; simpl; try done.
    destruct (Z.eqb_spec (links m i) 0); [lia|done].
  - apply is_dir_false in Hk. pose proof (tr_file _ _ _ _ _ Ht i n Hn Hk) as H1. cbv beta in H1.
    assert (links m i = i_nlink n) as -> by lia. rewrite as_u32_small, Z.eqb_refl by done. simpl.
    destruct (decide (i_kind n = Symlink)) as [Hs|Hs]; [|by rewrite bool_decide_eq_false_2].
    rewrite bool_decide_eq_true_2 by done. simpl. rewrite bool_decide_eq_true_2; [done|].
    apply (vw_symlinks _ _ Hv). by apply (or_target _ (wf_orphans _ _ _ _ Hwf) i n).
Qed.

Lemma chunk_records i c : c ∈ default [] (s_chunks s !! i) <-> exists v, m !! KChunk i c.1 = Some v /\ c.2 = len (value_bytes v).
Proof.
  rewrite (vw_chunks _ _ Hv i). rewrite list_elem_of_omap. split.
  - intros ([k v] & Hkv%elem_of_map_to_list & Hc). unfold chunk_of_record in Hc. destruct k; try done. simpl in Hc.
    destruct (Z.eqb_spec ino i) as [->|]; [|done]. injection Hc as <-. eauto.
  - intros (v & Hk & Hl). exists (KChunk i c.1, v). split; [by apply elem_of_map_to_list|]. unfold chunk_of_record. simpl.
    rewrite Z.eqb_refl, <- Hl. by destruct c.
Qed.

Lemma billed_scanned i size : (forall idx v, m !! KChunk i idx = Some v -> is_u32 idx) ->
  as_u64 (sumZ (bill_of cs size) (default [] (s_chunks s !! i))) = as_u64 (billed m cs i size).
Proof.
  intros Hidx. rewrite (sumZ_perm _ _ _ (vw_chunks _ _ Hv i)), sumZ_omap.
  rewrite (sumZ_ext _ (fun x => billed_chunk cs i size x.1 x.2)); [by rewrite (sumZ_map (billed_chunk cs i size))|].
  intros [k v] Hkv%elem_of_map_to_list. unfold chunk_of_record, billed_chunk. simpl. destruct k; try done.
  destruct (Z.eqb_spec ino i) as [->|]; [|done]. simpl. unfold bill_of. simpl. f_equal. apply as_u64_small.
  specialize (Hidx _ _ Hkv). unfold is_u32, is_u64 in *. nia.
Qed.

Lemma clean_bill i n : node m i n ->
  bill_chunks cs i (i_size n) (default [] (s_chunks s !! i)) = ([], i_billed_bytes n).
Proof.
  intros Hn. destruct (wf_data _ _ _ _ Hwf i n Hn) as [F1 F2 F3 F4]. rewrite bill_chunks_spec. f_equal.
  - apply flat_map_nil. intros c (v & Hk & Hl)%chunk_records. destruct (F2 _ _ Hk) as [_ Hfit]. rewrite Hl.
    by rewrite (proj2 (Z.ltb_ge _ _)).
  - rewrite billed_scanned by apply F2. rewrite F4. apply as_u64_small. by apply (wf_widths _ _ _ _ Hwf i n).
Qed.

Lemma clean_reached fuel : (base.size (s_inodes s) < fuel)%nat ->
  exists R, reach_loop fuel s (l_children clean_links) {[ROOT_INO]} [ROOT_INO] = Some R /\
  forall i n, node m i n -> check_reached s R (i, n) = [].
Proof.
  intros Hfuel. destruct clean_links_ok as (_ & _ & _ & Hch).
  destruct (reach_loop_closed s (l_children clean_links) fuel {[ROOT_INO]} [ROOT_INO]) as (R & ER & HR & Hcl).
  - simpl. assert (size (dirs s ∖ {[ROOT_INO]}) <= size (dom (s_inodes s)))%nat as Hle.
    { apply subseteq_size. unfold dirs. set_solver. }
    rewrite size_dom in Hle. lia.
  - set_solver.
  - intros d c Hd Hn. set_solver.
  - exists R. split; [done|].
    assert (forall i n, node m i n -> dir_at s i = is_dir (i_kind n)) as Hdir.
    { intros i n Hn%scanned_inode. unfold dir_at. by rewrite Hn. }
    assert (forall p e d, dent m p e d -> p ∈ R -> d_child_ino d ∈ R) as Hstep.
    { intros p e d Hd Hp. destruct (entry_of p e d Hd) as [_ _ _ (pn & Hpn & Hpk & _) _].
      apply (Hcl p); [done|by rewrite (Hdir p pn Hpn), Hpk|]. apply Hch. eauto. }
    assert (forall i, reaches m i -> i ∈ R) as Hreach.
    { intros i Hi. induction Hi as [n Hn Hk|i n Hn Hk _ IH]; [set_solver|].
      destruct (decide (i = ROOT_INO)) as [->|Hne]; [set_solver|].
      destruct (tr_dir _ _ _ _ _ Ht i n Hn Hk) as [_ Hl]. cbv beta in Hl. rewrite (proj2 (Z.eqb_neq _ _) Hne) in Hl.
      destruct (links_pos m i ltac:(lia)) as (p & e & d & Hd & <-).
      destruct (entry_of p e d Hd) as [_ _ _ _ (cn & Hc & _ & Hpar)]. assert (cn = n) as -> by congruence.
      rewrite (Hpar Hk) in IH. by eapply Hstep. }
    intros i n Hn. unfold check_reached. destruct (decide (i ∈ R)) as [Hi|Hi]; [by rewrite bool_decide_eq_true_2|].
    rewrite bool_decide_eq_false_2 by done. simpl. destruct (decide (i_kind n = Dir)) as [Hk|Hk]; [destruct Hi; apply Hreach; by eapply (tr_reach _ _ _ _ _ Ht)|].
    pose proof (tr_file _ _ _ _ _ Ht i n Hn Hk) as Hl. cbv beta in Hl.
    destruct (Z.eqb_spec (i_nlink n) 0) as [H0|H0].
    + simpl. rewrite bool_decide_eq_true_2; [done|]. rewrite (vw_orphans _ _ Hv).
      destruct (proj1 (or_file _ (wf_orphans _ _ _ _ Hwf) i n Hn Hk) H0) as [v Hov]. rewrite Hov.
      destruct (or_typed _ (wf_orphans _ _ _ _ Hwf) i v Hov) as [o ->]. by eexists.
    + destruct Hi. assert (0 <= links m i) by apply links_nonneg. destruct (links_pos m i ltac:(lia)) as (p & e & d & Hd & <-).
      eapply Hstep; [done|]. destruct (entry_of p e d Hd) as [_ _ _ (pn & Hpn & Hpk & _) _]. apply Hreach. by eapply (tr_reach _ _ _ _ _ Ht).
Qed.

Lemma clean_stray i : i ∈ (map_to_list (s_chunks s)).*1 -> unowned s i = true -> is_Some (s_orphans s !! i).
Proof.
  intros ([j l] & -> & Hl)%list_elem_of_fmap Hun. simpl in *. apply elem_of_map_to_list in Hl.
  destruct (vw_stray _ _ Hv j ltac:(eauto)) as [idx [v Hc]].
  destruct (or_chunk _ (wf_orphans _ _ _ _ Hwf) j idx v Hc) as [[n Hn]|[x Ho]].
  - apply scanned_inode in Hn. unfold unowned in Hun. rewrite Hn in Hun. by rewrite bool_decide_eq_true_2 in Hun by eauto.
  - rewrite (vw_orphans _ _ Hv), Ho. destruct (or_typed _ (wf_orphans _ _ _ _ Hwf) j x Ho) as [o ->]. by eexists.
Qed.

Lemma clean_inodes : fold_left (check_inode cs s clean_links) (map_to_list (s_inodes s))
    (l_problems clean_links ++ flat_map (check_paired s) ((map_to_list (s_idx s)).*1), 0) = ([], as_i64 (bytes_total m)).
Proof.
  rewrite (proj1 clean_links_ok), (flat_map_nil _ _ clean_paired). rewrite (check_inodes_spec cs s clean_links _ [] 0).
  assert (forall e, e ∈ map_to_list (s_inodes s) -> node m e.1 e.2) as Hel.
  { intros [i n] He%elem_of_map_to_list. by apply scanned_inode. }
  f_equal.
  - apply flat_map_nil. intros e He%Hel. rewrite clean_links_at, clean_bill by done. simpl. by rewrite Z.eqb_refl.
  - f_equal. rewrite <- (vw_bytes _ _ Hv), <- (sumZ_map (fun (_ : u64) n => i_billed_bytes n)). apply sumZ_ext.
    intros e He%Hel. by rewrite clean_bill.
Qed.

Lemma filter_none {A} (P : A -> bool) (l : list A) : (forall x, x ∈ l -> P x = false) -> filter (fun x => P x = true) l = [].
Proof.
  intros H. apply elem_of_nil_inv. intros x [Hp Hx]%list_elem_of_filter. rewrite H in Hp by done. done.
Qed.

Lemma clean_orphan_free l :
  (forall i, i ∈ l -> i ∈ (map_to_list (s_chunks s)).*1) ->
  filter (fun ino : u64 => bool_decide (is_Some (s_orphans s !! ino)) = false) (filter (fun ino => unowned s ino = true) l) = [].
Proof.
  intros Hl. apply elem_of_nil_inv. intros i [H1 [H2 H3]%list_elem_of_filter]%list_elem_of_filter.
  apply bool_decide_eq_false in H1. destruct H1. apply clean_stray; [by apply Hl|done].
Qed.

(** No problem is found, and the totals are those of the volume. *)
Lemma check_scanned_clean fuel cb ci :
  (base.size (s_inodes s) < fuel)%nat ->
  exists r, check_scanned fuel cs names s cb ci = Some r /\ problems r = [] /\
    counter_bytes r = cb /\ counter_inodes r = ci /\
    bytes_counted r = as_i64 (bytes_total m) /\ inodes_counted r = as_i64 (inode_total m) /\
    (forall i, OrphanMarker i ∈ reapable r <-> is_Some (m !! KOrphan i)).
Proof.
  intros Hfuel. unfold check_scanned. fold clean_links. rewrite clean_inodes. cbn beta iota zeta.
  destruct (clean_reached fuel Hfuel) as (R & -> & HR). eexists. split; [done|]. split_and!; try done; simpl.
  - rewrite clean_orphan_free by done. apply flat_map_nil. intros [i n] He%elem_of_map_to_list. apply HR. by apply scanned_inode.
  - by rewrite (vw_count _ _ Hv).
  - intros i. rewrite elem_of_app, !list_elem_of_fmap. split.
    + intros [(j & [=] & _)|(j & [= <-] & ([j' o] & -> & Ho)%list_elem_of_fmap)]. simpl. apply elem_of_map_to_list in Ho.
      rewrite (vw_orphans _ _ Hv) in Ho. apply bind_Some in Ho as (v & Hm & _). by exists v.
    + intros [v Ho]. right. exists i. split; [done|]. destruct (or_typed _ (wf_orphans _ _ _ _ Hwf) i v Ho) as [o ->].
      apply list_elem_of_fmap. exists (i, o). split; [done|]. apply elem_of_map_to_list. by rewrite (vw_orphans _ _ Hv), Ho.
Qed.
End clean.

Lemma wf_records {NCR : NameCrypto} names cs nx m k v : wf names cs nx m -> m !! k = Some v -> record_ok k v.
Proof.
  intros Hwf Hk. pose proof (wf_tree _ _ _ _ Hwf) as Ht. split; [by destruct (wf_keys _ _ _ _ Hwf k v Hk)|]. destruct k; try done.
  - destruct (tr_inode _ _ _ _ _ Ht _ _ Hk) as [n ->]. by eexists.
  - destruct (tr_dirent _ _ _ _ _ Ht _ _ _ Hk) as (d & -> & _). by eexists.
  - destruct (tr_idx _ _ _ _ _ Ht _ _ _ Hk) as (enc & d & Hd & <-).
    destruct (tr_dirent _ _ _ _ _ Ht _ _ _ Hd) as (? & [= <-] & [_ _ E _ _]). rewrite E in Hk. injection Hk as <-. by eexists.
  - destruct (or_typed _ (wf_orphans _ _ _ _ Hwf) _ _ Hk) as [o ->]. by eexists.
Qed.

Lemma inode_total_size m : inode_total m <= Z.of_nat (base.size m).
Proof.
  unfold inode_total. induction m as [|k v m Hk IH] using map_ind; [by rewrite msum_empty|].
  rewrite msum_insert_fresh, map_size_insert_None by done. unfold inode_one at 1. destruct k, v; lia.
Qed.

(** ** The counters apart *)

(** The stores hold the same records but for the two counters. *)
Definition but_counters (m m' : gmap Key Value) : Prop :=
  forall k, k <> KQuotaBytes -> k <> KQuotaInodes -> m' !! k = m !! k.

(** The records the scan collects. *)
Definition scanned_key (k : Key) : bool :=
  match k with KInode _ | KDirent _ _ | KDirentIdx _ _ | KChunk _ _ | KOrphan _ | KSymlink _ => true | _ => false end.

Lemma view_agree m m' s :
  (forall k, scanned_key k = true -> m' !! k = m !! k) ->
  (forall i, omap (chunk_of_record i) (map_to_list m') ≡ₚ omap (chunk_of_record i) (map_to_list m)) ->
  view m s -> view m' s.
Proof.
  intros Hag Hc [V1 V2 V3 V4 V5 V6 V7 V8 V9 V10 V11]. split; intros; rewrite ?Hag, ?Hc by done; eauto.
  - destruct (V7 _ ltac:(eassumption)) as [idx Hi]. exists idx. by rewrite Hag.
  - rewrite V8. apply links_agree. intros. by rewrite Hag.
  - rewrite V9. apply subdirs_agree. intros. by rewrite Hag.
  - rewrite V10. apply (msum_agree is_inode_key); [by intros [] v|]. intros [] H; try done. by rewrite Hag.
  - rewrite V11. apply (msum_agree is_inode_key); [by intros [] v|]. intros [] H; try done. by rewrite Hag.
Qed.

Lemma view_delete k m s : scanned_key k = false -> view m s <-> view (delete k m) s.
Proof.
  intros Hk. destruct (m !! k) as [v|] eqn:E; [|by rewrite delete_id].
  assert (forall k', scanned_key k' = true -> delete k m !! k' = m !! k') as Hne.
  { intros k' Hk'. apply lookup_delete_ne. intros ->. congruence. }
  assert (forall i, omap (chunk_of_record i) (map_to_list m) ≡ₚ omap (chunk_of_record i) (map_to_list (delete k m))) as Hc.
  { intros i. rewrite <- (insert_delete_id m k v E) at 1. rewrite chunks_insert by apply lookup_delete_eq. by destruct k. }
  split; apply view_agree; intros; [by apply Hne|by rewrite Hc|symmetry; by apply Hne|apply Hc].
Qed.

Lemma view_counters m m' s : but_counters m m' -> view m' s -> view m s.
Proof.
  intros Hag. rewrite (view_delete KQuotaBytes m'), (view_delete KQuotaInodes) by done. intros Hv.
  apply (view_delete KQuotaBytes); [done|]. apply (view_delete KQuotaInodes); [done|]. revert Hv.
  match goal with |- view ?a s -> view ?b s => assert (b = a) as ->; [|done] end.
  apply map_eq. intros k. destruct (decide (k = KQuotaInodes)) as [->|]; [by rewrite !lookup_delete_eq|].
  rewrite !(lookup_delete_ne _ KQuotaInodes) by done.
  destruct (decide (k = KQuotaBytes)) as [->|]; [by rewrite !lookup_delete_eq|]. rewrite !lookup_delete_ne by done. symmetry. by apply Hag.
Qed.

Section run.
Context {DB : SlateDB} {NCR : NameCrypto} (names : NameCodec) (cs : u64) (nx : u64) (m0 : gmap Key Value) (e : Engine).
Hypothesis Hwf : wf names cs nx m0.
Hypothesis Hcs : 0 < cs <= 2 ^ 22.
Hypothesis He : e_faults e = [].

Lemma counters_records k v :
  but_counters m0 (contents (e_db e)) -> contents (e_db e) !! k = Some v -> record_ok k v.
Proof.
  intros Hag Hk. destruct (decide (k = KQuotaBytes)) as [->|]; [done|]. destruct (decide (k = KQuotaInodes)) as [->|]; [done|].
  rewrite Hag in Hk by done. by eapply wf_records.
Qed.

(** The checker on a quiet engine whose records are well-formed but perhaps
    for the counters. *)
Lemma check_run fuel :
  but_counters m0 (contents (e_db e)) -> (base.size m0 < fuel)%nat ->
  exists r, check fuel cs names e = (Ok r, e) /\ problems r = [] /\
    counter_bytes r = counter (contents (e_db e)) KQuotaBytes /\ counter_inodes r = counter (contents (e_db e)) KQuotaInodes /\
    bytes_counted r = as_i64 (bytes_total m0) /\ inodes_counted r = as_i64 (inode_total m0) /\
    (forall i, OrphanMarker i ∈ reapable r <-> is_Some (m0 !! KOrphan i)).
Proof.
  intros Hag Hfuel. destruct (scan_all_quiet e He) as (s & Hs & Hv); [intros; by apply counters_records|].
  apply (view_counters m0) in Hv; [|done].
  destruct (check_scanned_clean names cs nx m0 s Hwf Hcs Hv fuel (counter_value (contents (e_db e)) KQuotaBytes)
    (counter_value (contents (e_db e)) KQuotaInodes)) as (r & Hr & Hc).
  - pose proof (inode_total_size m0). pose proof (vw_count _ _ Hv). lia.
  - exists r. split; [|done]. unfold check, st_bind, st_map_err. rewrite Hs. cbn [map_err]. by rewrite Hr.
Qed.

Lemma recount_run fuel :
  but_counters m0 (contents (e_db e)) -> (base.size m0 < fuel)%nat ->
  exists r e', recount fuel cs names e = (Ok r, e') /\ problems r = [] /\ e_faults e' = [] /\
    but_counters m0 (contents (e_db e')) /\
    counter (contents (e_db e')) KQuotaBytes = as_i64 (bytes_total m0) /\
    counter (contents (e_db e')) KQuotaInodes = as_i64 (inode_total m0).
Proof.
  intros Hag Hfuel. destruct (check_run fuel Hag Hfuel) as (r & Hr & Hp & Hcb & Hci & Hb & Hi & _).
  exists r. unfold recount, st_bind, st_map_err. rewrite Hr. unfold rewrite_counters, counters_match.
  destruct (_ && _) eqn:Em.
  - exists e. apply andb_true_iff in Em as [E1%Z.eqb_eq E2%Z.eqb_eq]. split_and!; try done; congruence.
  - unfold lift_db, st_map_err, st_bind. rewrite write_quiet by done. cbn [map_err].
    rewrite flush_quiet by done. cbn [map_err]. eexists. split; [reflexivity|].
    split; [done|]. split; [done|]. cbn [e_db]. rewrite db_flush_spec, db_write_spec. split_and!.
    + intros k H1 H2. simpl. rewrite !lookup_insert_ne by done. by apply Hag.
    + unfold counter. simpl. rewrite lookup_insert_ne, lookup_insert_eq by done. simpl. rewrite len_to_le. simpl.
      by rewrite i64_le_wrap, Hb, as_i64_idem.
    + unfold counter. simpl. rewrite lookup_insert_eq. simpl. rewrite len_to_le. simpl. by rewrite i64_le_wrap, Hi, as_i64_idem.
Qed.
End run.
