(* ===== verification/FsckSound.v ===== *)
(** What a clean report of the checker means, and what the checker says of a
    volume after any sequence of calls. *)

From S2P Require Import Prelude Keys Meta Store Data Quota Locks Volume Vfs Tree Wf WfOps VfsLogic VfsInv Reap.
From S2P Require Import OpsAttr OpsRead OpsCreate OpsRemove OpsRename OpsData OpsHandle System Mount Spec Safety Fsck FsckThm.

(** ** The search finds only what has a path *)

(** A chain of entries leads from the root to the inode. *)
Inductive named (m : gmap Key Value) : u64 -> Prop :=
| named_root : named m ROOT_INO
| named_entry p e d : named m p -> m !! KDirent p e = Some (VDirent d) -> named m (d_child_ino d).

Section search.
Context (s : Scanned) (children : gmap u64 (list u64)) (P : u64 -> Prop).
Hypothesis Hstep : forall d c, P d -> c ∈ default [] (children !! d) -> P c.

Lemma visit_only l : forall (R : gset u64) Q R' Q',
  fold_left (visit_child s) l (R, Q) = (R', Q') -> (forall c, c ∈ l -> P c) -> (forall x, x ∈ R -> P x) -> (forall x, x ∈ Q -> P x) ->
  (forall x, x ∈ R' -> P x) /\ (forall x, x ∈ Q' -> P x).
Proof.
  induction l as [|c l IH]; intros R Q R' Q'; cbn [fold_left]; [intros [= <- <-]; done|].
  cbn [visit_child]. case_bool_decide as Hin; intros E Hl HR HQ; (eapply IH; [exact E|intros; apply Hl; set_solver|..]); [done|done|..].
  - intros x [->%elem_of_singleton|Hx]%elem_of_union; [apply Hl; set_solver|by apply HR].
  - intros x. repeat case_match; try apply HQ. intros [Hx| ->%list_elem_of_singleton]%elem_of_app; [by apply HQ|apply Hl; set_solver].
Qed.

Lemma reach_only fuel : forall (R : gset u64) Q R',
  reach_loop fuel s children R Q = Some R' -> (forall x, x ∈ R -> P x) -> (forall x, x ∈ Q -> P x) -> forall x, x ∈ R' -> P x.
Proof.
  induction fuel as [|fuel IH]; intros R [|d Q] R'; cbn [reach_loop]; try (by intros [= <-]).
  destruct (fold_left _ _ _) as [R1 Q1] eqn:E. intros Hr HR HQ.
  destruct (visit_only _ _ _ _ _ E) as [H1 H2]; [|done|intros; apply HQ; set_solver|by apply (IH _ _ _ Hr)].
  intros c. apply Hstep, HQ. set_solver.
Qed.
End search.

(** ** What the report vouches for *)

Record vouched `{!NameCrypto} (names : NameCodec) (cs : u64) (m : gmap Key Value) : Prop := {
  (** The root is a directory and its own parent. *)
  vo_root : exists n, m !! KInode ROOT_INO = Some (VInode n) /\ i_kind n = Dir /\ i_parent_dir n = ROOT_INO;
  (** An entry sits in a directory, denotes an inode of its kind, has its index
      record, and opens to its name; a child directory knows its parent. *)
  vo_entry p e d : m !! KDirent p e = Some (VDirent d) ->
    exists pn cn, m !! KInode p = Some (VInode pn) /\ i_kind pn = Dir /\ d_dirent_id d < i_next_dirent_id pn /\
      m !! KInode (d_child_ino d) = Some (VInode cn) /\ i_kind cn = d_kind d /\ (i_kind cn = Dir -> i_parent_dir cn = p) /\
      m !! KDirentIdx p (d_dirent_id d) =
        Some (VDirentIdx {| e_enc_name := e; e_child_ino := d_child_ino d; e_kind := d_kind d |}) /\
      open_name names p e = Ok (d_name d);
  vo_index p id x : m !! KDirentIdx p id = Some (VDirentIdx x) ->
    exists e d, m !! KDirent p e = Some (VDirent d) /\ d_dirent_id d = id;
  (** Link counts, as 32-bit numbers. *)
  vo_dir i n : m !! KInode i = Some (VInode n) -> i_kind n = Dir ->
    i_nlink n = as_u32 (2 + subdirs m i) /\ as_u32 (links m i) <= 1 /\ (i <> ROOT_INO -> as_u32 (links m i) <> 0);
  vo_file i n : m !! KInode i = Some (VInode n) -> i_kind n <> Dir ->
    i_nlink n = as_u32 (links m i) \/ (i_nlink n = 0 /\ is_Some (m !! KOrphan i));
  vo_symlink i n : m !! KInode i = Some (VInode n) -> i_kind n = Symlink -> is_Some (m !! KSymlink i);
  (** Every inode has a path, or waits to be reaped. *)
  vo_named i n : m !! KInode i = Some (VInode n) -> named m i \/ (i_nlink n = 0 /\ is_Some (m !! KOrphan i));
  (** Chunks have an owner and fit, and each inode is billed for its own. *)
  vo_chunk i idx v : m !! KChunk i idx = Some v ->
    owned m i /\ (forall n, m !! KInode i = Some (VInode n) -> len (value_bytes v) <= cs);
  vo_billed i n : m !! KInode i = Some (VInode n) -> i_billed_bytes n = as_u64 (billed m cs i (i_size n));
  (** The counters. *)
  vo_bytes : counter m KQuotaBytes = as_i64 (bytes_total m);
  vo_inodes : counter m KQuotaInodes = as_i64 (inode_total m)
}.

Lemma flat_map_nil_inv {A B} (f : A -> list B) l : flat_map f l = [] -> forall x, x ∈ l -> f x = [].
Proof.
  induction l as [|y l IH]; simpl; intros H x; [by intros ?%not_elem_of_nil|]. apply app_eq_nil in H as [H1 H2].
  intros [->|Hx]%elem_of_cons; auto.
Qed.

Lemma if_nil {A} (b : bool) (x : A) : (if b then [x] else []) = [] <-> b = false.
Proof. by destruct b. Qed.

Section sound.
Context {NCR : NameCrypto} (names : NameCodec) (cs : u64) (m : gmap Key Value) (s : Scanned).
Hypothesis Hv : view m s.
Hypothesis Hcs : 0 < cs <= 2 ^ 22.
Hypothesis Hrec : forall k v, m !! k = Some v -> record_ok k v.

Lemma sound_root : check_root s = [] ->
  exists n, m !! KInode ROOT_INO = Some (VInode n) /\ i_kind n = Dir /\ i_parent_dir n = ROOT_INO.
Proof.
  unfold check_root. destruct (s_inodes s !! ROOT_INO) as [n|] eqn:E; [|done]. intros [H1 H2]%app_eq_nil.
  apply if_nil in H1, H2. apply negb_false_iff in H1, H2. apply Z.eqb_eq in H2. apply is_dir_true in H1.
  exists n. split; [by apply (scanned_inode m s Hv)|done].
Qed.

Lemma sound_entry p e d : dirent_problems names s (p, e, d) = [] -> m !! KDirent p e = Some (VDirent d) ->
  exists pn cn, m !! KInode p = Some (VInode pn) /\ i_kind pn = Dir /\ d_dirent_id d < i_next_dirent_id pn /\
    m !! KInode (d_child_ino d) = Some (VInode cn) /\ i_kind cn = d_kind d /\ (i_kind cn = Dir -> i_parent_dir cn = p) /\
    m !! KDirentIdx p (d_dirent_id d) =
      Some (VDirentIdx {| e_enc_name := e; e_child_ino := d_child_ino d; e_kind := d_kind d |}) /\
    open_name names p e = Ok (d_name d).
Proof.
  intros H _. unfold dirent_problems in H. apply app_eq_nil in H as [H1 [H2 [H3 H4]%app_eq_nil]%app_eq_nil].
  unfold check_parent in H1. destruct (s_inodes s !! p) as [pn|] eqn:Ep; [|done].
  destruct (negb (is_dir (i_kind pn))) eqn:Hpk; [done|]. apply negb_false_iff, is_dir_true in Hpk.
  apply if_nil, Z.leb_gt in H1. unfold check_child in H2. destruct (s_inodes s !! d_child_ino d) as [cn|] eqn:Ec; [|done].
  apply app_eq_nil in H2 as [H2 H2']. apply if_nil in H2, H2'. apply negb_false_iff, bool_decide_eq_true in H2.
  unfold check_index in H3. destruct (s_idx s !! (p, d_dirent_id d)) as [x|] eqn:Ex; [|done].
  apply if_nil in H3. rewrite !orb_false_iff, !negb_false_iff, !bool_decide_eq_true, Z.eqb_eq in H3. destruct H3 as [[X1 X2] X3].
  unfold check_name in H4. destruct (open_name names p e) as [nm|] eqn:En; [|done].
  exists pn, cn. apply (scanned_inode m s Hv) in Ep, Ec. split_and!; try done.
  - intros Hk. rewrite (proj2 (is_dir_true _) Hk) in H2'. simpl in H2'. by apply negb_false_iff, Z.eqb_eq in H2'.
  - rewrite (vw_idx _ _ Hv) in Ex. apply bind_Some in Ex as (v & -> & Hx). destruct v; simpl in Hx; try done.
    injection Hx as ->. rewrite <- X1, <- X2, <- X3. by destruct x.
  - case_bool_decide; [congruence|done].
Qed.

Lemma sound_index p id x : flat_map (check_paired s) ((map_to_list (s_idx s)).*1) = [] ->
  m !! KDirentIdx p id = Some (VDirentIdx x) -> exists e d, m !! KDirent p e = Some (VDirent d) /\ d_dirent_id d = id.
Proof.
  intros H Hx. assert (s_idx s !! (p, id) = Some x) as Hi by (by rewrite (vw_idx _ _ Hv), Hx).
  assert ((p, id) ∈ (map_to_list (s_idx s)).*1) as Hin by (apply list_elem_of_fmap; exists ((p, id), x); by rewrite elem_of_map_to_list).
  pose proof (flat_map_nil_inv _ _ H _ Hin) as Hp. unfold check_paired in Hp. destruct (existsb _ _) eqn:Ee; [|done]. clear Hin.
  apply existsb_exists in Ee as ([[q e] d] & Hin%list_elem_of_In & Hq). simpl in Hq.
  apply andb_true_iff in Hq as [->%Z.eqb_eq ?%Z.eqb_eq]. exists e, d. split; [by apply (scanned_entry m s Hv) in Hin|done].
Qed.

(** The tables the loop over the entries builds. *)
Lemma sound_links l : l = fold_left (check_dirent names s) (map_to_list (s_dirents s))
    {| l_problems := check_root s; l_counts := ∅; l_child_dirs := ∅; l_children := ∅ |} -> l_problems l = [] ->
  check_root s = [] /\ (forall p e d, m !! KDirent p e = Some (VDirent d) -> dirent_problems names s (p, e, d) = []) /\
  (forall i, default 0 (l_counts l !! i) = as_u32 (links m i)) /\
  (forall p, default 0 (l_child_dirs l !! p) = as_u32 (subdirs m p)) /\
  (forall p c, c ∈ default [] (l_children l !! p) -> exists e d, m !! KDirent p e = Some (VDirent d) /\ d_child_ino d = c).
Proof.
  intros -> Hl. set (l0 := {| l_problems := _ |}) in *. destruct (check_dirents names s (map_to_list (s_dirents s)) l0) as [P C D Ch].
  rewrite Hl in P. symmetry in P. apply app_eq_nil in P as [P1 P2].
  assert (forall p e d, m !! KDirent p e = Some (VDirent d) -> dirent_problems names s (p, e, d) = []) as Hd.
  { intros p e d Hd. apply (flat_map_nil_inv _ _ P2). by apply (scanned_entry m s Hv (p, e, d)). }
  split_and!; [done|done|..].
  - intros i. rewrite C by (by simpl). simpl. rewrite (sumZ_map (entry_links i)), (vw_links _ _ Hv). done.
  - intros p. rewrite D by (by simpl). simpl.
    rewrite (sumZ_ext _ (fun x => entry_subdirs p x.1 x.2)); [by rewrite (sumZ_map (entry_subdirs p)), (vw_subdirs _ _ Hv)|].
    intros [[q e] d] Hx%(scanned_entry m s Hv). unfold entry_subdirs, child_is_dir. simpl in *.
    destruct (sound_entry q e d (Hd _ _ _ Hx) Hx) as (pn & cn & _ & _ & _ & Hc & Hk & _). apply (scanned_inode m s Hv) in Hc. by rewrite Hc, Hk.
  - intros p c. rewrite Ch. simpl. rewrite lookup_empty. simpl.
    intros [[]%not_elem_of_nil|([[q e] d] & Hx%(scanned_entry m s Hv) & <- & <-)]. eauto.
Qed.

Lemma sound_inode l i n :
  (forall i, default 0 (l_counts l !! i) = as_u32 (links m i)) -> (forall p, default 0 (l_child_dirs l !! p) = as_u32 (subdirs m p)) ->
  check_links s l i n = [] ->
  (i_kind n = Dir -> i_nlink n = as_u32 (2 + subdirs m i) /\ as_u32 (links m i) <= 1 /\ (i <> ROOT_INO -> as_u32 (links m i) <> 0)) /\
  (i_kind n <> Dir -> i_nlink n = as_u32 (links m i) \/ (i_nlink n = 0 /\ is_Some (m !! KOrphan i))) /\
  (i_kind n = Symlink -> is_Some (m !! KSymlink i)).
Proof.
  intros HC HD. unfold check_links. rewrite HC, HD. destruct (is_dir (i_kind n)) eqn:Hk.
  - apply is_dir_true in Hk. rewrite Hk. intros [H1%if_nil [H2%if_nil H3%if_nil]%app_eq_nil]%app_eq_nil.
    apply negb_false_iff, Z.eqb_eq in H2. apply Z.ltb_ge in H1. split_and!; [|done..]. intros _. split_and!; [|done|].
    + by rewrite H2, Z.add_comm, as_u32_add_l, Z.add_comm.
    + intros Hr E. rewrite E in H3. by destruct (Z.eqb_spec i ROOT_INO).
  - intros [H1%if_nil H2%if_nil]%app_eq_nil. split; [intros E; by rewrite E in Hk|]. split; intros Hkd.
    + destruct (Z.eqb_spec (i_nlink n) (as_u32 (links m i))); [by left|right]. simpl in H1.
      apply negb_false_iff, andb_true_iff in H1 as [H1%Z.eqb_eq H1'%bool_decide_eq_true]. split; [done|].
      rewrite (vw_orphans _ _ Hv) in H1'. destruct H1' as [o Ho]. apply bind_Some in Ho as (v & Ho & _). by exists v.
    + rewrite bool_decide_eq_true_2 in H2 by done. simpl in H2. apply negb_false_iff, bool_decide_eq_true in H2.
      by apply (vw_symlinks _ _ Hv).
Qed.

Lemma scanned_orphan i : is_Some (s_orphans s !! i) -> is_Some (m !! KOrphan i).
Proof. rewrite (vw_orphans _ _ Hv). intros [o (v & Ho & _)%bind_Some]. by exists v. Qed.

Lemma sound_chunk i idx v : m !! KChunk i idx = Some v -> ChunksUnowned <$>
    filter (fun ino : u64 => bool_decide (is_Some (s_orphans s !! ino)) = false)
      (filter (fun ino => unowned s ino = true) (map_to_list (s_chunks s)).*1) = [] -> owned m i.
Proof.
  intros Hc Hf%fmap_nil_inv. assert ((idx, len (value_bytes v)) ∈ default [] (s_chunks s !! i)) as Hin.
  { apply (chunk_records m s Hv i (_, _)). eauto. }
  destruct (s_chunks s !! i) as [L|] eqn:EL; [|by apply not_elem_of_nil in Hin].
  destruct (unowned s i) eqn:Hu.
  - right. apply scanned_orphan. apply dec_stable. intros Hno. apply (not_elem_of_nil i). rewrite <- Hf.
    apply list_elem_of_filter. split; [by apply bool_decide_eq_false|]. apply list_elem_of_filter. split; [done|].
    apply list_elem_of_fmap. exists (i, L). split; [done|]. by apply elem_of_map_to_list.
  - left. unfold unowned in Hu. apply negb_false_iff, bool_decide_eq_true in Hu as [n Hn]. exists n. by apply (scanned_inode m s Hv).
Qed.

(** What a clean report says of each loop of the checker. *)
Lemma clean_parts fuel cb ci r :
  check_scanned fuel cs names s cb ci = Some r -> is_clean r = true ->
  exists l R, l = fold_left (check_dirent names s) (map_to_list (s_dirents s))
      {| l_problems := check_root s; l_counts := ∅; l_child_dirs := ∅; l_children := ∅ |} /\ l_problems l = [] /\
    reach_loop fuel s (l_children l) {[ROOT_INO]} [ROOT_INO] = Some R /\
    flat_map (check_paired s) ((map_to_list (s_idx s)).*1) = [] /\
    (forall i n, m !! KInode i = Some (VInode n) -> check_links s l i n = [] /\
       bill_chunks cs i (i_size n) (default [] (s_chunks s !! i)) = ([], i_billed_bytes n) /\ check_reached s R (i, n) = []) /\
    ChunksUnowned <$> filter (fun ino : u64 => bool_decide (is_Some (s_orphans s !! ino)) = false)
      (filter (fun ino => unowned s ino = true) (map_to_list (s_chunks s)).*1) = [] /\
    as_i64 (inode_total m) = ci /\ as_i64 (bytes_total m) = cb.
Proof.
  unfold check_scanned. remember (fold_left (check_dirent _ _) _ _) as l eqn:El. pose proof (check_inodes_spec cs s l (map_to_list (s_inodes s))
    (l_problems l ++ flat_map (check_paired s) (map_to_list (s_idx s)).*1) 0) as Hi. change (as_i64 0) with 0 in Hi.
  rewrite Hi. clear Hi. destruct (reach_loop _ _ _ _ _) as [R|] eqn:ER; [|done]. intros [= <-].
  unfold is_clean, counters_match. cbn [problems inodes_counted counter_inodes bytes_counted counter_bytes].
  destruct (_ ++ _) eqn:Ep; [|done]. intros [Ec1%Z.eqb_eq Ec2%Z.eqb_eq]%andb_true_iff.
  apply app_eq_nil in Ep as [[[[Hp1 Hp2]%app_eq_nil Hp3]%app_eq_nil Hp4]%app_eq_nil Hp5].
  assert (forall e, e ∈ map_to_list (s_inodes s) -> check_links s l e.1 e.2 = [] /\
    bill_chunks cs e.1 (i_size e.2) (default [] (s_chunks s !! e.1)) = ([], i_billed_bytes e.2) /\ check_reached s R e = []) as Hn.
  { intros e He. apply (flat_map_nil_inv _ _ Hp3) in He as Hn. apply app_eq_nil in Hn as [H1 [H2 H3%if_nil]%app_eq_nil].
    apply negb_false_iff, Z.eqb_eq in H3. split_and!; [done|by rewrite <- H2, <- H3, <- surjective_pairing|by apply (flat_map_nil_inv _ _ Hp5)]. }
  exists l, R. split_and!; try done.
  - intros i n Hi. apply (Hn (i, n)). apply elem_of_map_to_list. by apply (scanned_inode m s Hv).
  - by rewrite <- (vw_count _ _ Hv).
  - rewrite <- Ec2, <- (vw_bytes _ _ Hv), <- (sumZ_map (fun (_ : u64) n => i_billed_bytes n)). f_equal. rewrite Z.add_0_l.
    apply sumZ_ext. intros e (_ & -> & _)%Hn. done.
Qed.

Lemma sound_scanned fuel r :
  check_scanned fuel cs names s (counter m KQuotaBytes) (counter m KQuotaInodes) = Some r -> is_clean r = true -> vouched names cs m.
Proof.
  intros Hr Hc. destruct (clean_parts _ _ _ _ Hr Hc) as (l & R & El & Hl & ER & Hidx & Hn & Hst & Ei & Eb).
  destruct (sound_links l El Hl) as (Hroot & Hent & HC & HD & HCh).
  assert (forall i n, m !! KInode i = Some (VInode n) -> check_links s l i n = []) as Hlk by (intros; by apply Hn).
  split; try done.
  - by apply sound_root.
  - intros p e d Hd. apply sound_entry; auto.
  - intros p id x. by apply sound_index.
  - intros i n Hi Hk. by apply (sound_inode l i n HC HD (Hlk i n Hi)).
  - intros i n Hi Hk. by apply (sound_inode l i n HC HD (Hlk i n Hi)).
  - intros i n Hi Hk. by apply (sound_inode l i n HC HD (Hlk i n Hi)).
  - intros i n (_ & _ & Hi)%Hn. unfold check_reached in Hi. apply if_nil, andb_false_iff in Hi.
    rewrite !negb_false_iff, andb_true_iff, Z.eqb_eq, !bool_decide_eq_true in Hi. destruct Hi as [Hi|[Hi Ho]]; [left|right; auto using scanned_orphan].
    revert i Hi. apply (reach_only s (l_children l) (named m)) with (2 := ER); [|set_solver by constructor..].
    intros p c Hp (e & d & Hd & <-)%HCh. by econstructor.
  - intros i idx v Hk. split; [by eapply sound_chunk|]. intros n (_ & Hb & _)%Hn. rewrite bill_chunks_spec in Hb. injection Hb as Hb _.
    pose proof (flat_map_nil_inv _ _ Hb (idx, len (value_bytes v))) as H. cbv beta in H. rewrite if_nil in H. apply Z.ltb_ge, H.
    apply (chunk_records m s Hv i (_, _)). eauto.
  - intros i n (_ & Hb & _)%Hn. rewrite bill_chunks_spec in Hb. injection Hb as _ <-. apply (billed_scanned cs m s); [done|done|].
    intros idx v Hk. by destruct (Hrec _ _ Hk) as [[]].
Qed.
End sound.

(** ** The checker on a volume *)

Section claims.
Context {DB : SlateDB} {AC : MokaCache u64 Inode} {NC : MokaCache (u64 * bytes) unit} {NCR : NameCrypto}.

(** C6: whatever fair calls were made on a volume with room (as in the theorem
    on sequences of calls), under faults and interference, the checker run on
    what they left (the engine quiet again) ends with a clean report, and the
    orphan markers among its reapable items are exactly those in the store. *)
Theorem fsck_clean others fuel v v' clock log :
  rely others -> Inv v -> runs others fuel v v' ->
  let e := mkEngine (e_db (v_eng v')) [] clock log in
  exists r, check (S (base.size (store v'))) (v_chunk_size v') (v_names v') e = (Ok r, e) /\ is_clean r = true /\
    forall i, OrphanMarker i ∈ reapable r <-> is_Some (store v' !! KOrphan i).
Proof.
  intros Hrely Hi Hruns e. apply (runs_inv others fuel v v' Hrely Hruns) in Hi. pose proof (inv_wf _ Hi) as Hwf. pose proof (inv_cs _ Hi) as Hcs.
  destruct (check_run (v_names v') (v_chunk_size v') _ (store v') e Hwf Hcs eq_refl (S (base.size (store v'))))
    as (r & Hr & Hp & Hcb & Hci & Hb & Hn & Ho); [by intros k|lia|].
  exists r. split; [done|]. split; [|done]. unfold is_clean, counters_match. rewrite Hp, Hcb, Hci, Hb, Hn. simpl.
  by rewrite <- (wf_qb _ _ _ _ Hwf), <- (wf_qi _ _ _ _ Hwf), !Z.eqb_refl.
Qed.

(** C5: a clean report is worth something: on any store whose records decode,
    it means every entry resolves and is indexed, link counts are exact as
    32-bit numbers, every inode has a path or waits to be reaped, chunks are
    owned and billed, and the counters are the sums over the inodes. *)
Theorem fsck_sound fuel names cs (e e' : Engine) r :
  e_faults e = [] -> 0 < cs <= 2 ^ 22 -> (forall k x, contents (e_db e) !! k = Some x -> record_ok k x) ->
  check fuel cs names e = (Ok r, e') -> is_clean r = true -> vouched names cs (contents (e_db e)).
Proof.
  intros He Hcs Hrec Hr Hc. destruct (scan_all_quiet e He Hrec) as (s & Hs & Hv).
  unfold check, st_bind, st_map_err in Hr. rewrite Hs in Hr. cbn [map_err] in Hr.
  destruct (check_scanned _ _ _ _ _ _) as [r'|] eqn:Hcs'; [|done]. injection Hr as -> _. by eapply sound_scanned.
Qed.

(** Recount repairs the counters: on a store that is well-formed but for
    its two counter records it changes only those, and the checker is clean
    on the result. *)
Theorem recount_repairs names cs nx m0 (e : Engine) :
  wf names cs nx m0 -> 0 < cs <= 2 ^ 22 -> e_faults e = [] -> but_counters m0 (contents (e_db e)) ->
  let fuel := S (base.size m0) in
  exists r e', recount fuel cs names e = (Ok r, e') /\ but_counters m0 (contents (e_db e')) /\
    exists r', check fuel cs names e' = (Ok r', e') /\ is_clean r' = true.
Proof.
  intros Hwf Hcs He Hag fuel. destruct (recount_run names cs nx m0 e Hwf Hcs He fuel Hag) as (r & e' & Hr & _ & He' & Hag' & Hb & Hn); [lia|].
  exists r, e'. split; [done|]. split; [done|].
  destruct (check_run names cs nx m0 e' Hwf Hcs He' fuel Hag') as (r' & Hr' & Hp & Hcb & Hci & Hb' & Hn' & _); [lia|].
  exists r'. split; [done|]. unfold is_clean, counters_match. by rewrite Hp, Hcb, Hci, Hb', Hn', Hb, Hn, !Z.eqb_refl.
Qed.
End claims.
