(* ===== verification/Witness.v ===== *)
(** The theorems on the file system applied to the volume of [Demo]: their
    hypotheses hold there, and the runs they speak of succeed. *)

From S2P Require Import Prelude Keys Meta Store Data Quota Locks Volume Vfs Tree Wf WfOps VfsLogic VfsInv Reap.
From S2P Require Import OpsAttr OpsRead OpsCreate OpsRemove OpsRename OpsData OpsHandle System Mount Concrete Spec Namespace Files Fence.
From S2P Require Import Safety Demo Fsck FsckThm FsckSound.

Lemma outcome_run {A} (m : FsM A) v P E :
  outcome m v P E -> is_ok (m v).1 = true -> exists a v', m v = (Ok a, v') /\ Inv v' /\ P a v'.
Proof. unfold outcome. destruct (m v) as [[a|[e|]] v']; simpl; try done. intros [[? _ _] ?] _. eauto. Qed.

Lemma void_state {A} (m : FsM A) v : (void m v).2 = (m v).2.
Proof. unfold void, st_bind. by destruct (m v) as [[a|e] v']. Qed.

(** Run the call and keep what the theorem says of its success. *)
Ltac succeed H :=
  let R := fresh "R" in
  pose proof (outcome_run _ _ _ _ H ltac:(vm_compute; reflexivity)) as R;
  destruct R as (?a & ?v' & ?E & _ & ?P); eexists _, _; split; [eassumption|].

Lemma create_correct_witness : exists a v',
  create nobody root_user ROOT_INO (nm 102) 420 true demo1 = (Ok a, v') /\ names_of v' ROOT_INO (nm 102) = Some (a_ino a).
Proof.
  succeed (create_correct demo_fuel demo1 root_user ROOT_INO (nm 102) 420 true demo1_ready).
  destruct P as [(pn & ts & ino & _ & _ & _ & -> & G)|(H & _)]; [|discriminate H]. rewrite (gn_names _ _ _ _ _ _ G). reflexivity.
Defined.

Lemma mkdir_correct_witness : exists a v',
  mkdir nobody root_user ROOT_INO (nm 100) o755 demo0 = (Ok a, v') /\ names_of v' ROOT_INO (nm 100) = Some (a_ino a).
Proof.
  succeed (mkdir_correct demo_fuel demo0 root_user ROOT_INO (nm 100) o755 demo0_ready).
  destruct P as (pn & ts & ino & _ & _ & _ & -> & G). rewrite (gn_names _ _ _ _ _ _ G). reflexivity.
Defined.

Lemma symlink_readlink_witness : exists a v',
  symlink nobody root_user ROOT_INO (nm 108) [47; 116] demo2 = (Ok a, v') /\ (readlink (a_ino a) v').1 = Ok [47; 116].
Proof.
  succeed (symlink_readlink demo_fuel demo2 root_user ROOT_INO (nm 108) [47; 116] demo2_ready). exact (proj1 P).
Defined.

Lemma link_correct_witness : exists a v',
  link nobody root_user 3 2 (nm 103) demo2 = (Ok a, v') /\ names_of v' 2 (nm 103) = Some 3.
Proof.
  assert (forall n, inode_of demo2 3 = Some n -> i_nlink n <> 0) as Hn.
  { intros n Hn. vm_compute in Hn. injection Hn as <-. discriminate. }
  succeed (link_correct demo_fuel demo2 root_user 3 2 (nm 103) demo2_ready Hn).
  destruct P as (_ & _ & P & _). rewrite P. reflexivity.
Defined.

Lemma unlink_correct_witness : exists a v',
  unlink nobody demo_fuel root_user ROOT_INO (nm 102) demo3 = (Ok a, v') /\ names_of v' ROOT_INO (nm 102) = None.
Proof.
  succeed (unlink_correct demo_fuel demo3 root_user ROOT_INO (nm 102) demo3_ready).
  destruct P as (i & n & _ & _ & P & _). rewrite P. reflexivity.
Defined.

Lemma rmdir_correct_witness : exists a v',
  rmdir nobody demo_fuel root_user ROOT_INO (nm 100) demo2 = (Ok a, v') /\ names_of v' ROOT_INO (nm 100) = None.
Proof.
  succeed (rmdir_correct demo_fuel demo2 root_user ROOT_INO (nm 100) demo2_ready).
  destruct P as (i & n & _ & _ & _ & P & _). rewrite P. reflexivity.
Defined.

Lemma rename_correct_witness : exists a v',
  rename nobody demo_fuel root_user ROOT_INO (nm 102) 2 (nm 103) demo3 = (Ok a, v') /\
  ((exists i, names_of demo3 ROOT_INO (nm 102) = Some i /\ names_of demo3 2 (nm 103) = Some i /\ store v' = store demo3) \/
   (exists i mv, moved ROOT_INO (nm 102) 2 (nm 103) i mv demo3 v')).
Proof.
  succeed (rename_correct demo_fuel demo3 root_user ROOT_INO (nm 102) 2 (nm 103) demo3_ready). exact P.
Defined.

Lemma lookup_correct_witness : exists a v',
  lookup root_user ROOT_INO (nm 102) demo3 = (Ok a, v') /\ store v' = store demo3.
Proof.
  succeed (lookup_correct demo3 root_user ROOT_INO (nm 102) (rd_inv _ _ demo3_ready) (rd_quiet _ _ demo3_ready)). exact (proj1 P).
Defined.

Lemma getattr_correct_witness : exists a v',
  getattr 3 demo3 = (Ok a, v') /\ exists n, inode_of demo3 3 = Some n /\ a = make_attr 3 n.
Proof.
  succeed (getattr_correct demo3 3 (rd_inv _ _ demo3_ready) (rd_quiet _ _ demo3_ready)). exact (proj2 P).
Defined.

Lemma readdir_complete_witness : exists L pn,
  inode_of demo3 ROOT_INO = Some pn /\ listed demo3 ROOT_INO 0 L /\ NoDup L /\
  ((length L < 5)%nat -> (list_pages 5 root_user ROOT_INO 0 1 demo3).1 = Ok L).
Proof.
  destruct (inode_of demo3 ROOT_INO) as [pn|] eqn:E; [|vm_compute in E; discriminate E].
  assert (i_kind pn = Dir) as Hk by (vm_compute in E; injection E as <-; reflexivity).
  destruct (readdir_complete demo3 root_user ROOT_INO pn 1 5 (rd_inv _ _ demo3_ready) (rd_quiet _ _ demo3_ready)) as (L & H1 & H2 & H3);
    [lia|exact E|exact Hk|reflexivity|]. exists L, pn. split; [reflexivity|]. auto.
Defined.

Lemma write_correct_witness : exists a v',
  write nobody root_user 3 4094 [1; 2; 3; 4] demo3 = (Ok a, v') /\ bytes_of v' 3 4095 = 2 /\ bytes_of v' 3 0 = bytes_of demo3 3 0.
Proof.
  succeed (write_correct demo_fuel demo3 root_user 3 4094 [1; 2; 3; 4] demo3_ready ltac:(unfold is_u64; lia)).
  destruct P as (_ & _ & _ & P). destruct (P ltac:(discriminate)) as (n & n' & _ & _ & _ & _ & _ & _ & _ & _ & Hb).
  split; rewrite Hb; reflexivity.
Defined.

Lemma read_correct_witness : exists a v',
  read_with_atime_policy nobody root_user 3 1 100 Noatime demo3 = (Ok a, v') /\ 
  forall i, 0 <= i < len a -> byte_at a i = bytes_of demo3 3 (1 + i).
Proof.
  succeed (read_correct demo_fuel demo3 root_user 3 1 100 Noatime demo3_ready ltac:(unfold is_u64; lia) ltac:(unfold is_u32; lia)).
  destruct P as (r & _ & _ & _ & _ & H & _). exact H.
Defined.

Lemma write_read_witness :
  (read_with_atime_policy nobody root_user 3 0 5 Relatime demo3).1 = Ok [104; 101; 108; 108; 111].
Proof.
  assert (write nobody root_user 3 0 [104; 101; 108; 108; 111] demo2 =
    (Ok 5, (write nobody root_user 3 0 [104; 101; 108; 108; 111] demo2).2)) as E.
  { assert ((write nobody root_user 3 0 [104; 101; 108; 108; 111] demo2).1 = Ok 5) as E1 by (vm_compute; reflexivity).
    rewrite <- E1. apply surjective_pairing. }
  assert ((write nobody root_user 3 0 [104; 101; 108; 108; 111] demo2).2 = demo3) as E3.
  { symmetry. apply (void_state (write nobody root_user 3 0 [104; 101; 108; 108; 111]) demo2). }
  rewrite E3 in E. apply (write_read demo_fuel demo2 demo3 root_user 3 0 [104; 101; 108; 108; 111] 5 Relatime); try exact E.
  - exact demo2_ready.
  - unfold is_u64. lia.
  - unfold is_u32. vm_compute. split; congruence.
  - discriminate.
  - exact demo3_ready.
  - reflexivity.
Defined.

Lemma setattr_correct_witness : exists a v',
  setattr nobody root_user 3 {| s_mode := None; s_uid := None; s_gid := None; s_size := Some 2; s_atime := None; s_mtime := None |} demo3 = (Ok a, v') /\
  only_file 3 demo3 v'.
Proof.
  succeed (setattr_correct demo_fuel demo3 root_user 3
    {| s_mode := None; s_uid := None; s_gid := None; s_size := Some 2; s_atime := None; s_mtime := None |} demo3_ready
    ltac:(intros size [= <-]; vm_compute; split; congruence)). exact (proj1 P).
Defined.

Lemma setxattr_getxattr_witness : exists a v',
  setxattr nobody root_user 3 [117; 46; 97] [7; 7] demo3 = (Ok a, v') /\ xattr_of v' 3 [117; 46; 97] = Some [7; 7].
Proof.
  succeed (setxattr_getxattr demo_fuel demo3 root_user 3 [117; 46; 97] [7; 7] demo3_ready).
  destruct P as (P & _). rewrite P. reflexivity.
Defined.

(** ** Whole runs *)

Lemma demo_runs : runs nobody demo_fuel demo0 demo3.
Proof.
  eapply (runs_call nobody demo_fuel (CMkdir root_user ROOT_INO (nm 100) o755)); [apply (rd_roomy _ _ demo0_ready)|done|apply surjective_pairing|].
  eapply (runs_call nobody demo_fuel (CCreate root_user ROOT_INO (nm 102) 420 true)); [apply (rd_roomy _ _ demo1_ready)|done|apply surjective_pairing|].
  eapply (runs_call nobody demo_fuel (CWrite root_user 3 0 [104; 101; 108; 108; 111])); [apply (rd_roomy _ _ demo2_ready)| |apply surjective_pairing|].
  - unfold fair, is_u64. lia.
  - apply runs_done.
Qed.

Lemma calls_consistent_witness : Inv demo3 /\ consistent demo3.
Proof. apply (calls_consistent nobody demo_fuel demo0 demo3 rely_nobody (rd_inv _ _ demo0_ready) demo_runs). Defined.

(** A volume that lost its writer lease. *)
Definition demo_fenced : Volume := set_health (VolumeHealth.mark_fenced (v_health demo3)) demo3.

Lemma fenced_never_writes_witness :
  store (run nobody demo_fuel (CUnlink root_user ROOT_INO (nm 102)) demo_fenced).2 = store demo_fenced /\
  exists h, (run nobody demo_fuel (CUnlink root_user ROOT_INO (nm 102)) demo_fenced).1 = Err h.
Proof.
  destruct (fenced_never_writes nobody demo_fuel ltac:(intros n v Hd; by apply frozen_refl) demo_fenced
    (CUnlink root_user ROOT_INO (nm 102)) eq_refl) as [[_ Hdb _] Hfail].
  split; [exact (f_equal contents Hdb)|apply Hfail; reflexivity].
Defined.

Lemma mkfs_resumable_witness :
  half_made demo_record (contents (e_db demo_made)) /\
  exists ts s3, mkfs demo_record (mkEngine (e_db demo_made) [] [] []) = (Ok tt, s3) /\ contents (e_db s3) = mkfs_store demo_record ts.
Proof. exact (mkfs_resumable demo_record demo_engine [] [] I eq_refl). Defined.

Lemma mounted_consistent_witness : exists v,
  (Volume_open demo_fuel demo_record [1] demo_made).1 = Ok v /\ consistent v.
Proof.
  destruct (mounted_consistent nobody demo_fuel demo_record [1] ZERO demo_made demo_mountable) as (v & Hv & _ & Hc).
  - vm_compute. reflexivity.
  - reflexivity.
  - unfold demo_fuel. lia.
  - exact rely_nobody.
  - exists v. split; [exact Hv|]. apply Hc. apply runs_done.
Defined.

(** A crash with an unlinked file still open. *)
Definition demo_orphaned : Volume := after demo4 (CUnlink root_user ROOT_INO (nm 102)).
Definition demo_crashed : Engine := mkEngine (e_db (v_eng demo_orphaned)) [] [] [].

Lemma demo_orphaned_inv : Inv demo_orphaned.
Proof.
  pose proof (run_inv nobody demo_fuel (CUnlink root_user ROOT_INO (nm 102)) demo4 rely_nobody (rd_inv _ _ demo4_ready)
    (rd_roomy _ _ demo4_ready) I) as H. unfold wp in H. unfold demo_orphaned, after. by destruct (run _ _ _ demo4).
Qed.

Lemma open_recovers_witness : exists v,
  contents (e_db demo_crashed) !! KOrphan 3 <> None /\
  (Volume_open demo_fuel demo_record [1] demo_crashed).1 = Ok v /\ Inv v /\ forall i, store v !! KOrphan i = None.
Proof.
  destruct (open_recovers demo_fuel demo_record [1] (al_next (v_alloc demo_orphaned)) (al_lease_end (v_alloc demo_orphaned))
    (v_superblock demo_orphaned) demo_crashed demo_mountable) as (v & H1 & H2 & H3 & _).
  - exact (inv_wf _ demo_orphaned_inv).
  - split_and!; [vm_compute; reflexivity|vm_compute; congruence..].
  - vm_compute. reflexivity.
  - vm_compute. reflexivity.
  - vm_compute. reflexivity.
  - reflexivity.
  - apply (bool_decide_unpack _). vm_compute. exact I.
  - exists v. split; [|auto]. intros E. vm_compute in E. discriminate E.
Defined.

(** ** The checker *)

Lemma fsck_clean_witness : exists r,
  (check (S (base.size (store demo3))) (v_chunk_size demo3) (v_names demo3) (mkEngine (e_db (v_eng demo3)) [] [] [])).1 = Ok r /\
  is_clean r = true.
Proof.
  destruct (fsck_clean nobody demo_fuel demo0 demo3 [] [] rely_nobody (rd_inv _ _ demo0_ready) demo_runs) as (r & H1 & H2 & _).
  exists r. rewrite H1. split; [reflexivity|exact H2].
Defined.

Lemma fsck_sound_witness : vouched (v_names demo3) 4096 (store demo3).
Proof.
  destruct (check 20 4096 (v_names demo3) (v_eng demo3)) as [[r|h] e'] eqn:E.
  2: { assert (is_ok (check 20 4096 (v_names demo3) (v_eng demo3)).1 = true) as X by (vm_compute; reflexivity). rewrite E in X. discriminate X. }
  apply (fsck_sound 20 (v_names demo3) 4096 (v_eng demo3) e' r); [reflexivity|lia| |exact E|].
  - intros k x. apply (wf_records (v_names demo3) (v_chunk_size demo3) (al_next (v_alloc demo3))). exact (inv_wf _ (rd_inv _ _ demo3_ready)).
  - assert (match check 20 4096 (v_names demo3) (v_eng demo3) with (Ok r, _) => is_clean r | _ => false end = true) as X by (vm_compute; reflexivity).
    rewrite E in X. exact X.
Defined.

(** The engine of [demo3] with its byte counter lost. *)
Definition demo_miscounted : Engine := mkEngine (delete KQuotaBytes (store demo3)) [] [] [].

Lemma recount_repairs_witness :
  exists r e', recount (S (base.size (store demo3))) (v_chunk_size demo3) (v_names demo3) demo_miscounted = (Ok r, e') /\
    but_counters (store demo3) (contents (e_db e')).
Proof.
  destruct (recount_repairs (v_names demo3) (v_chunk_size demo3) (al_next (v_alloc demo3)) (store demo3) demo_miscounted
    (inv_wf _ (rd_inv _ _ demo3_ready)) (inv_cs _ (rd_inv _ _ demo3_ready)) eq_refl) as (r & e' & H1 & H2 & _).
  - intros k H _. apply lookup_delete_ne. congruence.
  - exists r, e'. split; [exact H1|exact H2].
Defined.
