(* ===== verification/Snap.v ===== *)
(** Snapshots of a file system ([core/snapshot.rs]): the read-only volume over
    the reader of a checkpoint, which answers the reading half of the [Vfs]
    trait from the records alone and refuses the writing half. The file's own
    copies of [make_attr], [access], [validate_name] and [copy_from_chunk] are
    the same as the live volume's and are taken from its model. *)

From S2P Require Import Prelude Keys Meta Store Data Quota Locks Volume Vfs System.

Section snapshot.
Context {DB : SlateDB} {NCR : NameCrypto}.

(** [struct SnapshotVolume] *)
Record SnapshotVolume : Type := mkSnap {
  ss_reader : Engine;
  ss_fsid : u64;
  ss_names : NameCodec;
  ss_chunk_size : u64;
  ss_quota : QuotaLimits;
  ss_handles : HandleTable;
  ss_range_locks : RangeLockTable
}.

Definition SnM : Type -> Type := ST SnapshotVolume (Halt FsError).

Definition sfail {A} (e : FsError) : SnM A := st_fail (Raise e).
Definition sguard {A} (r : result FsError A) : SnM A := st_lift (map_err Raise r).
Definition score {A} (r : result Error A) : SnM A := sguard (map_err fs_error_from_error r).

(** [self.reader.op(..).await?] *)
Definition reader {A} (m : EM A) : SnM A := fun s =>
  let '(r, e) := m (ss_reader s) in
  (map_err (fun x => Raise (fs_error_from_slatedb x)) r,
   mkSnap e (ss_fsid s) (ss_names s) (ss_chunk_size s) (ss_quota s) (ss_handles s) (ss_range_locks s)).

Definition set_ss_handles (t : HandleTable) (s : SnapshotVolume) : SnapshotVolume :=
  mkSnap (ss_reader s) (ss_fsid s) (ss_names s) (ss_chunk_size s) (ss_quota s) t (ss_range_locks s).
Definition set_ss_locks (t : RangeLockTable) (s : SnapshotVolume) : SnapshotVolume :=
  mkSnap (ss_reader s) (ss_fsid s) (ss_names s) (ss_chunk_size s) (ss_quota s) (ss_handles s) t.

(** ** Opening *)

(** The identity of a snapshot, from its volume's and the first bytes of its
    checkpoint's. *)
Definition snapshot_fsid (source_fsid : u64) (checkpoint : bytes) : u64 :=
  let fsid := Z.lxor source_fsid (from_be (take 8 checkpoint)) in
  if fsid =? source_fsid then Z.lxor fsid (Z.shiftl 1 63) else fsid.

(** [SnapshotVolume::open] on the reader that [DbReader::builder] built;
    [checkpoint] is what [Uuid::parse_str] made of the snapshot id. *)
Definition SnapshotVolume_open (record : VolumeRecord) (dek : bytes) (checkpoint : option bytes) : ST Engine Error SnapshotVolume :=
  if negb (bool_decide (vr_state record = Active)) then st_fail EInvalid
  else
    match checkpoint with
    | None => st_fail EInvalid
    | Some checkpoint =>
        r <- st_try (
          o <- lift_db (get KSuperblock) ;;
          superblock <- st_lift (match o with Some v => SuperblockV_decode v | None => Err EInvalid end) ;;
          st_lift (verify_superblock_matches_record record superblock) ;;;
          if negb (is_filesystem (sb_kind superblock)) then st_fail EInvalid else st_ret superblock) ;;
        match r with
        | Err e => lift_db close_db ;;; st_fail e
        | Ok superblock =>
            s <- st_get ;;
            st_ret (mkSnap s (snapshot_fsid (vr_fsid record) checkpoint) {| nc_dek := dek |} (sb_chunk_size superblock)
                      (vr_quota record) HandleTable.empty ∅)
        end
    end.

(** ** Records *)

Definition snap_load_inode (ino : u64) : SnM Inode :=
  o <- reader (get (KInode ino)) ;;
  match o with Some v => score (Inode_decode v) | None => sfail Stale end.

Definition snap_load_dir (ino : u64) : SnM Inode :=
  inode <- snap_load_inode ino ;;
  if negb (is_dir (i_kind inode)) then sfail NotDir else st_ret inode.

Definition snap_dirent_of (parent : u64) (name : bytes) : SnM (option Dirent) :=
  s <- st_get ;;
  enc <- score (seal_name (ss_names s) parent name) ;;
  o <- reader (get (KDirent parent enc)) ;;
  match o with Some v => d <- score (Dirent_decode v) ;; st_ret (Some d) | None => st_ret None end.

(** The loop of [read_range]. *)
Fixpoint snap_chunks (chunk_size ino offset : u64) (idxs : list u32) (out : bytes) : SnM bytes :=
  match idxs with
  | [] => st_ret out
  | idx :: idxs =>
      o <- reader (get (KChunk ino idx)) ;;
      snap_chunks chunk_size ino offset idxs
        (match o with Some chunk => copy_from_chunk out offset idx (value_bytes chunk) chunk_size | None => out end)
  end.

Definition snap_read_range (ino size offset : u64) (length : u32) : SnM bytes :=
  if (size <=? offset) || (length =? 0) then st_ret []
  else
    s <- st_get ;;
    let cs := ss_chunk_size s in
    let endo := Z.min size (as_u64 (offset + length)) in
    let first := chunk_of offset cs in
    let last := chunk_of (endo - 1) cs in
    snap_chunks cs ino offset (range_incl first last) (zeros (endo - offset)).

(** ** [impl Vfs for SnapshotVolume] *)

Definition snap_getattr (ino : u64) : SnM FileAttr :=
  inode <- snap_load_inode ino ;;
  st_ret (make_attr ino inode).

(** Everyone may read, whatever the caller. *)
Definition snap_permissions (creds : Credentials) (ino : u64) (parent : option (u64 * bytes)) : SnM EntryPermissions :=
  snap_getattr ino ;;;
  st_ret {| can_read := true; can_write := false; can_delete := false; can_rename := false |}.

Definition snap_lookup (creds : Credentials) (parent : u64) (name : bytes) : SnM FileAttr :=
  dir <- snap_load_dir parent ;;
  sguard (access creds dir ACCESS_R) ;;;
  if bool_decide (name = DOT) then st_ret (make_attr parent dir)
  else if bool_decide (name = DOTDOT) then
    p <- snap_load_inode (i_parent_dir dir) ;;
    st_ret (make_attr (i_parent_dir dir) p)
  else
    sguard (validate_name name) ;;;
    o <- snap_dirent_of parent name ;;
    match o with
    | Some d =>
        inode <- snap_load_inode (d_child_ino d) ;;
        st_ret (make_attr (d_child_ino d) inode)
    | None => sfail NotFound
    end.

Definition snap_read (creds : Credentials) (ino offset : u64) (length : u32) : SnM bytes :=
  inode <- snap_load_inode ino ;;
  (match i_kind inode with
   | File => st_ret tt
   | Dir => sfail IsDir
   | _ => sfail Invalid
   end) ;;;
  sguard (access creds inode ACCESS_R) ;;;
  snap_read_range ino (i_size inode) offset length.

Definition snap_readlink (ino : u64) : SnM bytes :=
  inode <- snap_load_inode ino ;;
  if negb (bool_decide (i_kind inode = Symlink)) then sfail Invalid
  else
    o <- reader (get (KSymlink ino)) ;;
    match o with Some bs => st_ret (value_bytes bs) | None => sfail Io end.

(** The loop of [readdir]. *)
Fixpoint snap_readdir_loop (parent : u64) (max_entries : usize) (it : list (Key * Value)) (entries : list DirEntry) : SnM ReadDir :=
  o <- reader (iter_next it) ;;
  match it, o with
  | kv :: it', Some _ =>
      if len entries =? max_entries then st_ret {| rd_entries := entries; rd_eof := false |}
      else
        match keys.parse_dirent_idx (key_bytes kv.1) with
        | None => sfail Io
        | Some (_, dirent_id) =>
            idx <- score (DirentIdx_decode kv.2) ;;
            s <- st_get ;;
            name <- score (open_name (ss_names s) parent (e_enc_name idx)) ;;
            snap_readdir_loop parent max_entries it'
              (entries ++ [{| de_name := name; de_ino := e_child_ino idx; de_kind := e_kind idx; de_cookie := dirent_id |}])
        end
  | _, _ => st_ret {| rd_entries := entries; rd_eof := true |}
  end.

Definition snap_readdir (creds : Credentials) (parent cookie : u64) (max_entries : usize) : SnM ReadDir :=
  dir <- snap_load_dir parent ;;
  sguard (access creds dir ACCESS_R) ;;;
  it <- reader (scan (Some (keys.dirent_idx parent (saturating_add_u64 cookie 1))) (Some (keys.dirent_idx parent U64_MAX))) ;;
  snap_readdir_loop parent max_entries it [].

Definition snap_getxattr (creds : Credentials) (ino : u64) (name : bytes) : SnM bytes :=
  if bool_decide (name = []) || (MAX_NAME_LEN <? len name) then sfail Invalid
  else
    inode <- snap_load_inode ino ;;
    sguard (access creds inode ACCESS_R) ;;;
    o <- reader (get (KXattr ino name)) ;;
    match o with Some bs => st_ret (value_bytes bs) | None => sfail NoData end.

(** The loop of [listxattr]. *)
Fixpoint snap_names (names : list bytes) (it : list (Key * Value)) : SnM (list bytes) :=
  o <- reader (iter_next it) ;;
  match it, o with
  | kv :: it', Some _ => snap_names (names ++ [drop 9 (key_bytes kv.1)]) it'
  | _, _ => st_ret names
  end.

Definition snap_listxattr (creds : Credentials) (ino : u64) : SnM (list bytes) :=
  inode <- snap_load_inode ino ;;
  sguard (access creds inode ACCESS_R) ;;;
  it <- reader (scan (Some (keys.xattr_prefix ino)) (Some (keys.xattr_prefix (ino + 1)))) ;;
  snap_names [] it.

Definition snap_statfs : SnM StatFs :=
  qb <- reader (get KQuotaBytes) ;;
  let bytes_used := decode_counter (value_bytes <$> qb) in
  qi <- reader (get KQuotaInodes) ;;
  let inodes_used := decode_counter (value_bytes <$> qi) in
  s <- st_get ;;
  let total_bytes := default NOMINAL_BYTES (ql_hard (lim_bytes (ss_quota s))) in
  let free_bytes := saturating_sub total_bytes (Z.max bytes_used 0) in
  let total_inodes := default NOMINAL_INODES (ql_hard (lim_inodes (ss_quota s))) in
  let free_inodes := saturating_sub total_inodes (Z.max inodes_used 0) in
  st_ret {| sf_block_size := STATFS_BSIZE; sf_total_bytes := total_bytes; sf_free_bytes := free_bytes; sf_avail_bytes := free_bytes;
            sf_total_inodes := total_inodes; sf_free_inodes := free_inodes |}.

Definition snap_open (creds : Credentials) (ino : u64) (mode : OpenMode) : SnM u64 :=
  match mode with
  | ORead =>
      inode <- snap_load_inode ino ;;
      sguard (access creds inode ACCESS_R) ;;;
      fun s => let '(h, t) := HandleTable.open ino mode (ss_handles s) in (Ok h, set_ss_handles t s)
  | _ => sfail ReadOnly
  end.

Definition snap_close (handle : u64) : SnM unit :=
  closed <- (fun s => let '(r, t) := HandleTable.close handle (ss_handles s) in (Ok r, set_ss_handles t s)) ;;
  match closed with
  | None => sfail BadHandle
  | Some _ => st_modify (fun s => set_ss_locks (RangeLockTable.unlock_owner handle (ss_range_locks s)) s)
  end.

(** The inode a lock call is about. *)
Definition snap_lock_target (handle start endo : u64) : SnM u64 :=
  if endo <=? start then sfail Invalid
  else
    s <- st_get ;;
    match HandleTable.get handle (ss_handles s) with
    | None => sfail BadHandle
    | Some (ino, _) => st_ret ino
    end.

Definition snap_lock (handle start endo : u64) (exclusive : bool) : SnM unit :=
  if exclusive then sfail ReadOnly
  else
    ino <- snap_lock_target handle start endo ;;
    fun s =>
      let '(r, t) := RangeLockTable.try_lock ino
          {| rl_owner := handle; rl_range := {| lr_start := start; lr_end := endo |}; rl_exclusive := exclusive |} (ss_range_locks s) in
      (map_err (fun _ => Raise WouldBlock) r, set_ss_locks t s).

Definition snap_unlock (handle start endo : u64) : SnM unit :=
  ino <- snap_lock_target handle start endo ;;
  st_modify (fun s =>
    set_ss_locks (RangeLockTable.unlock ino handle {| lr_start := start; lr_end := endo |} (ss_range_locks s)) s).

Definition snap_testlock (handle start endo : u64) (exclusive : bool) : SnM (option (u64 * u64 * bool)) :=
  if exclusive then sfail ReadOnly
  else
    ino <- snap_lock_target handle start endo ;;
    s <- st_get ;;
    st_ret ((fun l => (lr_start (rl_range l), lr_end (rl_range l), rl_exclusive l)) <$>
            RangeLockTable.test ino
              {| rl_owner := handle; rl_range := {| lr_start := start; lr_end := endo |}; rl_exclusive := exclusive |} (ss_range_locks s)).

Definition snap_void {A} (m : SnM A) : SnM unit := m ;;; st_ret tt.

(** Any call of the trait; the writing ones are all [read_only()]. *)
Definition snap_call (k : call) : SnM unit :=
  match k with
  | CGetattr ino => snap_void (snap_getattr ino)
  | CLookup creds parent name => snap_void (snap_lookup creds parent name)
  | CReaddir creds parent cookie max => snap_void (snap_readdir creds parent cookie max)
  | CReadlink ino => snap_void (snap_readlink ino)
  | CGetxattr creds ino name => snap_void (snap_getxattr creds ino name)
  | CListxattr creds ino => snap_void (snap_listxattr creds ino)
  | CPermissions creds ino parent => snap_void (snap_permissions creds ino parent)
  | CStatfs => snap_void snap_statfs
  | CFsync => st_ret tt
  | CRead creds ino offset length _ => snap_void (snap_read creds ino offset length)
  | COpen creds ino mode => snap_void (snap_open creds ino mode)
  | CClose handle => snap_close handle
  | CLock handle start endo exclusive => snap_lock handle start endo exclusive
  | CUnlock handle start endo => snap_unlock handle start endo
  | CTestlock handle start endo exclusive => snap_void (snap_testlock handle start endo exclusive)
  | CWrite _ _ _ _ | CSetattr _ _ _ | CCreate _ _ _ _ _ | CMkdir _ _ _ _ | CMknod _ _ _ _ _ _ | CSymlink _ _ _ _ | CLink _ _ _ _
  | CUnlink _ _ _ | CRmdir _ _ _ | CRename _ _ _ _ _ | CSetxattr _ _ _ _ | CRemovexattr _ _ _ => sfail ReadOnly
  end.
End snapshot.
