(* ===== verification/SnapThm.v ===== *)
(** A snapshot is its volume at the checkpoint: it answers the reading calls
    as the live volume would, up to the permission checks of two of them,
    refuses every writing one, and never writes. *)

From S2P Require Import Prelude Keys Meta Store Data Quota Locks Volume Vfs Tree Wf WfOps VfsLogic VfsInv Reap.
From S2P Require Import OpsAttr OpsRead OpsCreate OpsRemove OpsRename OpsData OpsHandle System Spec Files Snap.

(** * Identity *)

(** The identity of a snapshot is never its volume's. *)
Lemma snapshot_fsid_new fsid checkpoint : is_u64 fsid -> Forall is_u8 checkpoint ->
  is_u64 (snapshot_fsid fsid checkpoint) /\ snapshot_fsid fsid checkpoint <> fsid.
Proof.
  intros Hf Hc. assert (is_u64 (from_be (take 8 checkpoint))) as Hp.
  { apply (from_be_bound _ 8); [by apply Forall_take|]. rewrite length_take. lia. }
  assert (forall a b, is_u64 a -> is_u64 b -> is_u64 (Z.lxor a b)) as Hx.
  { unfold is_u64. intros a b Ha Hb. split; [apply Z.lxor_nonneg; lia|]. destruct (decide (Z.lxor a b = 0)) as [->|Hne]; [lia|].
    assert (0 < Z.lxor a b) by (assert (0 <= Z.lxor a b) by (apply Z.lxor_nonneg; lia); lia).
    apply Z.log2_lt_pow2; [done|]. eapply Z.le_lt_trans; [apply Z.log2_lxor; lia|].
    destruct (decide (a = 0)) as [->|], (decide (b = 0)) as [->|]; cbn;
      repeat match goal with |- context [Z.log2 ?y] => lazymatch goal with H : Z.log2 y < 64 |- _ => fail | _ => assert (Z.log2 y < 64) by (apply Z.log2_lt_pow2; lia) end end; lia. }
  unfold snapshot_fsid. case (Z.eqb_spec (Z.lxor fsid (from_be (take 8 checkpoint))) fsid) as [E|E]; [|by split; [apply Hx|]].
  rewrite E. split; [by apply Hx|]. intros E2. apply (f_equal (Z.lxor fsid)) in E2.
  rewrite <- Z.lxor_assoc, Z.lxor_nilpotent, Z.lxor_0_l in E2. done.
Qed.

Section snapshots.
Context {DB : SlateDB} {AC : MokaCache u64 Inode} {NC : MokaCache (u64 * bytes) unit} {NCR : NameCrypto}.
Implicit Types (v : Volume) (s : SnapshotVolume).

(** * What a snapshot writes *)

(** Everything but the handles and the locks is as it was. *)
Record untouched s s' : Prop := {
  ut_db : e_db (ss_reader s') = e_db (ss_reader s);
  ut_log : e_log (ss_reader s') = e_log (ss_reader s);
  ut_faults : e_faults (ss_reader s) = [] -> e_faults (ss_reader s') = [];
  ut_fsid : ss_fsid s' = ss_fsid s;
  ut_names : ss_names s' = ss_names s;
  ut_cs : ss_chunk_size s' = ss_chunk_size s;
  ut_quota : ss_quota s' = ss_quota s
}.
Definition keeps {A} (m : SnM A) : Prop := forall s, untouched s (m s).2.

Lemma untouched_trans s s' s'' : untouched s s' -> untouched s' s'' -> untouched s s''.
Proof. intros [] []. split; first [congruence | auto]. Qed.
Lemma keeps_bind {A B} (m : SnM A) (k : A -> SnM B) : keeps m -> (forall a, keeps (k a)) -> keeps (st_bind m k).
Proof.
  intros Hm Hk s. unfold st_bind. specialize (Hm s). destruct (m s) as [[a|e] s1]; [|done]. eapply untouched_trans; [done|apply Hk].
Qed.
Lemma keeps_still {A} (m : SnM A) : (forall s, (m s).2 = s) -> keeps m.
Proof. intros Hm s. by rewrite Hm. Qed.
Definition same_engine (e e' : Engine) : Prop := e_db e' = e_db e /\ e_log e' = e_log e /\ (e_faults e = [] -> e_faults e' = []).
Lemma keeps_reader {A} (m : EM A) : (forall e, same_engine e (m e).2) -> keeps (reader m).
Proof. intros Hm s. unfold reader. specialize (Hm (ss_reader s)). destruct (m (ss_reader s)) as [r e]. destruct Hm as (? & ? & ?). by split. Qed.
Lemma poll_keeps (e : Engine) : same_engine e (poll e).2.
Proof. unfold same_engine, poll. destruct (e_faults e) eqn:E; cbn; by rewrite ?E. Qed.
Lemma keeps_poll {A} (m : EM A) (k : EM A) : m = (poll ;;; k) -> (forall e, (k e).2 = e) -> keeps (reader m).
Proof.
  intros -> Hk. apply keeps_reader. intros e. unfold st_bind. pose proof (poll_keeps e) as Hp. destruct (poll e) as [[[]|x] e1]; [|done].
  by rewrite Hk.
Qed.
Lemma keeps_get k : keeps (reader (get k)).
Proof. by eapply keeps_poll. Qed.
Lemma keeps_scan lo hi : keeps (reader (scan lo hi)).
Proof. by eapply keeps_poll. Qed.
Lemma keeps_next it : keeps (reader (iter_next it)).
Proof. by eapply keeps_poll. Qed.
Lemma keeps_lift {A} (r : result (Halt FsError) A) : keeps (st_lift r).
Proof. by apply keeps_still. Qed.

Create HintDb snap_keeps.
#[local] Hint Resolve keeps_get keeps_scan keeps_next keeps_lift : snap_keeps.

(** Take a computation apart to its calls of the reader. *)
Ltac keeping :=
  repeat (match goal with
          | |- keeps (st_bind _ _) => apply keeps_bind; [|intros ?]
          | |- keeps (if ?b then _ else _) => destruct b
          | |- keeps (match ?x with _ => _ end) => destruct x
          | |- keeps (reader _) => solve [auto with snap_keeps]
          | |- keeps _ => first [by apply keeps_still | solve [auto with snap_keeps]]
          end).

Lemma keeps_load ino : keeps (snap_load_inode ino).
Proof. unfold snap_load_inode. keeping. Qed.
#[local] Hint Resolve keeps_load : snap_keeps.
Lemma keeps_load_dir ino : keeps (snap_load_dir ino).
Proof. unfold snap_load_dir. keeping. Qed.
#[local] Hint Resolve keeps_load_dir : snap_keeps.
Lemma keeps_chunks cs ino off idxs out : keeps (snap_chunks cs ino off idxs out).
Proof. revert out. induction idxs as [|i idxs IH]; intros out; cbn [snap_chunks]; keeping. Qed.
Lemma keeps_readdir_loop p max it es : keeps (snap_readdir_loop p max it es).
Proof. revert es. induction it as [|kv it IH]; intros es; cbn [snap_readdir_loop]; keeping. Qed.
Lemma keeps_names names it : keeps (snap_names names it).
Proof. revert names. induction it as [|kv it IH]; intros names; cbn [snap_names]; keeping. Qed.
#[local] Hint Resolve keeps_chunks keeps_readdir_loop keeps_names : snap_keeps.
Lemma keeps_target h a b : keeps (snap_lock_target h a b).
Proof. unfold snap_lock_target. keeping. Qed.
#[local] Hint Resolve keeps_target : snap_keeps.

Lemma keeps_call k : keeps (snap_call k).
Proof.
  destruct k; cbn [snap_call]; unfold snap_void, snap_getattr, snap_lookup, snap_readdir, snap_readlink, snap_getxattr, snap_listxattr, snap_permissions,
    snap_statfs, snap_read, snap_read_range, snap_open, snap_close, snap_lock, snap_unlock, snap_testlock, snap_dirent_of, snap_getattr; keeping.
  all: intros s; cbn; repeat case_match; by split.
Qed.

(** * The volume it was taken of *)

(** [s] shows the records of [v], and neither meets a fault. *)
Record twin s v : Prop := {
  tw_inv : Inv v;
  tw_quiet : quiet v;
  tw_faults : e_faults (ss_reader s) = [];
  tw_store : contents (e_db (ss_reader s)) = store v;
  tw_names : ss_names s = v_names v;
  tw_cs : ss_chunk_size s = v_chunk_size v;
  tw_quota : ss_quota s = q_limits (v_quota v)
}.

(** The two computations end alike and leave twins: from [s] and [v], and from
    all twins. *)
Definition alike {A} (ms : SnM A) (ml : FsM A) s v : Prop :=
  exists v', ml v = ((ms s).1, v') /\ (ms s).2 = s /\ twin s v'.
Definition agrees {A} (ms : SnM A) (ml : FsM A) : Prop := forall s v, twin s v -> alike ms ml s v.

Lemma alike_bind {A B} (ms : SnM A) (ml : FsM A) (ks : A -> SnM B) (kl : A -> FsM B) s v :
  alike ms ml s v -> (forall a v', ms s = (Ok a, s) -> twin s v' -> alike (ks a) (kl a) s v') -> alike (st_bind ms ks) (st_bind ml kl) s v.
Proof.
  intros (v1 & E & Es & Ht1) Hk. unfold alike, st_bind. rewrite E. destruct (ms s) as [[a|e] s1]; cbn [fst snd] in *; subst s1.
  - by apply Hk.
  - by exists v1.
Qed.
Lemma agrees_bind {A B} (ms : SnM A) (ml : FsM A) (ks : A -> SnM B) (kl : A -> FsM B) :
  agrees ms ml -> (forall a, agrees (ks a) (kl a)) -> agrees (st_bind ms ks) (st_bind ml kl).
Proof. intros Hm Hk s v Ht. apply alike_bind; [by apply Hm|]. intros a v' _. apply Hk. Qed.
Lemma agrees_lift {A} (r : result (Halt FsError) A) : agrees (st_lift r) (st_lift r).
Proof. intros s v Ht. by exists v. Qed.

Lemma reads_run {A} (m : FsM A) (P : A -> Prop) v : reads (calmed v) m P never -> quiet v ->
  exists a v', m v = (Ok a, v') /\ P a /\ calmed v' = calmed v /\ quiet v'.
Proof.
  intros Hm Hq. specialize (Hm v eq_refl). unfold wp in Hm. destruct (m v) as [[a|[e|]] v']; destruct Hm as (H1 & H2 & H3).
  - eauto 10.
  - by destruct (H3 Hq).
  - by destruct (H3 Hq).
Qed.

Lemma twin_calmed s v v' : twin s v -> calmed v' = calmed v -> quiet v' -> twin s v'.
Proof.
  intros [H1 H2 H3 H4 H5 H6 H7] E Hq. split; [|done|done|..].
  - apply inv_calmed. rewrite E. by apply inv_calmed.
  - change (store v') with (store (calmed v')). by rewrite E.
  - change (v_names v') with (v_names (calmed v')). by rewrite E.
  - change (v_chunk_size v') with (v_chunk_size (calmed v')). by rewrite E.
  - change (v_quota v') with (v_quota (calmed v')). by rewrite E.
Qed.

Lemma twin_get s v k : twin s v -> reader (get k) s = (Ok (store v !! k), s).
Proof. intros Ht. unfold reader. rewrite get_quiet, (tw_store _ _ Ht) by apply Ht. by destruct s. Qed.

(** A call of the reader and the same call of the live database. *)
Lemma agrees_reader {A} (m : EM A) (ml : FsM A) (f : gmap Key Value -> A) :
  (forall s v, twin s v -> m (ss_reader s) = (Ok (f (store v)), ss_reader s)) ->
  (forall s v, twin s v -> reads (calmed v) ml (fun a => a = f (store v)) never) ->
  agrees (reader m) ml.
Proof.
  intros Hs Hl s v Ht. destruct (reads_run ml _ v (Hl s v Ht) (tw_quiet _ _ Ht)) as (a & v' & E & -> & Hc & Hq).
  exists v'. rewrite E. unfold reader. rewrite (Hs s v Ht). split_and!; [done|by destruct s|by eapply twin_calmed].
Qed.

Lemma agrees_get k : agrees (reader (get k)) (Vfs.db_get k).
Proof.
  apply (agrees_reader _ _ (fun m => m !! k)).
  - intros s v Ht. by rewrite get_quiet, (tw_store _ _ Ht) by apply Ht.
  - intros s v Ht. apply (reads_db_get (calmed v)).
Qed.

Lemma agrees_codec {A} (f : NameCodec -> SnM A) (g : NameCodec -> FsM A) :
  (forall names, agrees (f names) (g names)) -> agrees (s <- st_get ;; f (ss_names s)) (v <- st_get ;; g (v_names v)).
Proof. intros H s v Ht. unfold alike, st_bind, st_get. cbv beta iota. rewrite <- (tw_names _ _ Ht). by apply H. Qed.

Lemma bytes_leb_antisym a b : bytes_leb a b = true -> bytes_leb b a = true -> a = b.
Proof.
  unfold bytes_leb. rewrite (bytes_cmp_antisym a b). destruct (bytes_cmp a b) eqn:E; cbn; try done. intros _ _. by apply bytes_cmp_eq.
Qed.

(** The records of a range come in one order. *)
Lemma scan_unique v (d d' : Db) lo hi : Inv v -> contents d = store v -> contents d' = store v -> Store.db_scan d lo hi = Store.db_scan d' lo hi.
Proof.
  intros Hi E E'. assert (forall x, contents x = store v -> forall kv, kv ∈ Store.db_scan x lo hi -> key_ok kv.1 /\ store v !! kv.1 = Some kv.2) as Hok.
  { intros x Ex [k y] [Hk _]%db_scan_elem. rewrite Ex in Hk. split; [|done]. by apply (wf_keys _ _ _ _ (inv_wf _ Hi) k y Hk). }
  apply (StronglySorted_unique_strong key_le).
  - intros [k1 x1] [k2 x2] H1 H2 L1 L2. destruct (Hok d E _ H1) as [K1 S1], (Hok d' E' _ H2) as [K2 S2]. cbn in *.
    assert (k1 = k2) as -> by (apply key_bytes_inj; [done..|by apply bytes_leb_antisym]). congruence.
  - apply Sorted_StronglySorted; [apply key_le_trans|apply db_scan_sorted].
  - apply Sorted_StronglySorted; [apply key_le_trans|apply db_scan_sorted].
  - apply NoDup_Permutation; [eapply NoDup_fmap_1, db_scan_nodup..|]. intros [k x]. rewrite !db_scan_elem. by rewrite E, E'.
Qed.

Lemma agrees_scan lo hi : agrees (reader (scan (Some lo) (Some hi))) (Vfs.db_scan lo hi).
Proof.
  intros s v Ht. destruct (reads_run _ _ v (reads_db_scan (calmed v) lo hi) (tw_quiet _ _ Ht)) as (it & v' & E & -> & Hc & Hq).
  exists v'. rewrite E. unfold reader. rewrite scan_quiet by apply Ht. cbn [map_err fst snd].
  rewrite (scan_unique v (e_db (ss_reader s)) (e_db (v_eng v))); [|apply Ht..|done].
  split_and!; [done|by destruct s|by eapply twin_calmed].
Qed.
Lemma agrees_next it : agrees (reader (iter_next it)) (vfs_iter_next it).
Proof.
  apply (agrees_reader _ _ (fun _ => match it with [] => None | kv :: it' => Some (kv, it') end)).
  - intros s v Ht. by rewrite iter_next_quiet by apply Ht.
  - intros s v Ht. apply (reads_iter_next (calmed v)).
Qed.

Lemma agrees_load ino : agrees (snap_load_inode ino) (load_inode ino).
Proof. apply agrees_bind; [apply agrees_get|]. intros o. destruct o; apply agrees_lift. Qed.

(** The attribute cache holds what the records hold. *)
Lemma agrees_cached ino : agrees (snap_load_inode ino) (load_inode_cached ino).
Proof.
  intros s v Ht. destruct (agrees_load ino s v Ht) as (v1 & E1 & Es & _).
  assert (wp (load_inode_cached ino) (fun r v' => twin s v' /\ match r with
      | Ok n => node (store v) ino n | Err h => h = Raise Stale /\ store v !! KInode ino = None end) v) as Hw.
  { pose proof Ht as [H1 H2 H3 H4 H5 H6 H7]. apply (wp_load_cached True (calmed v)); [by apply inv_calmed|by split|..].
    - intros n a v' Hn [Hc Hq] Hi. split; [|done]. split; [apply inv_calmed; by rewrite Hc|by apply Hq|done|..].
      + change (store v') with (store (calmed v')). by rewrite Hc.
      + change (v_names v') with (v_names (calmed v')). by rewrite Hc.
      + change (v_chunk_size v') with (v_chunk_size (calmed v')). by rewrite Hc.
      + change (v_quota v') with (v_quota (calmed v')). by rewrite Hc.
    - intros h v' [Hc Hq] Hh. split; [by eapply twin_calmed, Hq|]. destruct h as [e|]; [|by destruct (Hh I)]. by destruct (Hh I) as [-> ?]. }
  unfold wp in Hw. unfold alike. destruct (load_inode_cached ino v) as [r v']. destruct Hw as [Ht' Hr]. exists v'. split_and!; [|done|done]. f_equal.
  unfold snap_load_inode, st_bind. rewrite (twin_get _ _ _ Ht).
  destruct r as [n|h]; [by rewrite Hr|]. destruct Hr as [-> Hn]. by rewrite Hn.
Qed.
Lemma agrees_dir ino : agrees (snap_load_dir ino) (load_dir_cached ino).
Proof.
  apply agrees_bind; [apply agrees_cached|]. intros n. unfold check_dir. destruct (is_dir (i_kind n)); cbn [negb]; apply agrees_lift.
Qed.

(** * The reading calls *)

Lemma agrees_getattr ino : agrees (snap_getattr ino) (getattr ino).
Proof. apply agrees_bind; [apply agrees_cached|]. intros n. apply agrees_lift. Qed.
Lemma agrees_readlink ino : agrees (snap_readlink ino) (readlink ino).
Proof.
  apply agrees_bind; [apply agrees_load|]. intros n. destruct (negb _); [apply agrees_lift|].
  apply agrees_bind; [apply agrees_get|]. intros o. destruct o; apply agrees_lift.
Qed.
Lemma agrees_getxattr creds ino name : agrees (snap_getxattr creds ino name) (getxattr creds ino name).
Proof.
  unfold snap_getxattr, getxattr, bad_xattr_name. destruct (_ || _); [apply agrees_lift|].
  apply agrees_bind; [apply agrees_load|]. intros n. apply agrees_bind; [apply agrees_lift|]. intros _.
  apply agrees_bind; [apply agrees_get|]. intros o. destruct o; apply agrees_lift.
Qed.
Lemma agrees_names names it : agrees (snap_names names it) (vfs_iter (fun names kv => names ++ [drop 9 (key_bytes kv.1)]) names it).
Proof.
  revert names. induction it as [|kv it IH]; intros names; cbn [snap_names vfs_iter];
    (apply agrees_bind; [apply agrees_next|]); intros o; [apply agrees_lift|]. destruct o; [apply IH|apply agrees_lift].
Qed.
Lemma agrees_listxattr creds ino : agrees (snap_listxattr creds ino) (listxattr creds ino).
Proof.
  apply agrees_bind; [apply agrees_load|]. intros n. apply agrees_bind; [apply agrees_lift|]. intros _.
  apply agrees_bind; [apply agrees_scan|]. intros it. apply agrees_names.
Qed.
Lemma agrees_readdir_loop p max it es : agrees (snap_readdir_loop p max it es) (readdir_loop p max it es).
Proof.
  revert es. induction it as [|kv it IH]; intros es; cbn [snap_readdir_loop readdir_loop];
    (apply agrees_bind; [apply agrees_next|]); intros o; [apply agrees_lift|]. destruct o; [|apply agrees_lift].
  destruct (_ =? _); [apply agrees_lift|]. destruct (keys.parse_dirent_idx _) as [[? id]|]; [|apply agrees_lift].
  apply agrees_bind; [apply agrees_lift|]. intros idx.
  apply (agrees_codec (fun names => name <- score (open_name names p (e_enc_name idx)) ;; _)
                      (fun names => name <- core (open_name names p (e_enc_name idx)) ;; _)).
  intros names. apply agrees_bind; [apply agrees_lift|]. intros name. apply IH.
Qed.
Lemma agrees_readdir creds p cookie max : agrees (snap_readdir creds p cookie max) (readdir creds p cookie max).
Proof.
  apply agrees_bind; [apply agrees_dir|]. intros n. apply agrees_bind; [apply agrees_lift|]. intros _.
  apply agrees_bind; [apply agrees_scan|]. intros it. apply agrees_readdir_loop.
Qed.

Lemma agrees_dirent p name : agrees (snap_dirent_of p name) (dirent_of p name).
Proof.
  intros s v Ht. unfold dirent_of, seal.
  assert (agrees (snap_dirent_of p name) (v <- st_get ;; enc <- core (seal_name (v_names v) p name) ;; o <- Vfs.db_get (KDirent p enc) ;;
     match o with Some x => d <- core (Dirent_decode x) ;; st_ret (Some d) | None => st_ret None end)) as H.
  { apply (agrees_codec (fun names => enc <- score (seal_name names p name) ;; _) (fun names => enc <- core (seal_name names p name) ;; _)).
    intros names. apply agrees_bind; [apply agrees_lift|]. intros enc. apply agrees_bind; [apply agrees_get|].
    intros o. destruct o; [|apply agrees_lift]. apply agrees_bind; [apply agrees_lift|]. intros d. apply agrees_lift. }
  by apply (H s v Ht).
Qed.

(** The name a directory holds, and the negative cache over it. *)
Lemma agrees_found p name : len name <= MAX_NAME_LEN ->
  agrees (o <- snap_dirent_of p name ;;
          match o with Some d => inode <- snap_load_inode (d_child_ino d) ;; st_ret (make_attr (d_child_ino d) inode) | None => sfail NotFound end)
    (v <- st_get ;;
     if ac_is_negative p name (v_attrs v) then fail NotFound
     else
       o <- dirent_of p name ;;
       match o with
       | Some d => inode <- or_else NotFound (load_inode_cached (d_child_ino d)) ;; st_ret (make_attr (d_child_ino d) inode)
       | None => cache (ac_insert_negative p name) ;;; fail NotFound
       end).
Proof.
  intros Hlen s v Ht. destruct (agrees_dirent p name s v Ht) as (v1 & E & Es & Ht1).
  destruct (reads_run _ _ v (reads_dirent_of (calmed v) p name (proj2 (inv_calmed v) (tw_inv _ _ Ht)) Hlen) (tw_quiet _ _ Ht))
    as (o & v1' & E' & Ho & Hc & Hq).
  rewrite E in E'. destruct (snap_dirent_of p name s) as [r s1] eqn:Ed. cbn in E', Es. subst s1. injection E' as -> <-.
  unfold alike, st_bind, st_get. rewrite Ed. cbv beta iota. destruct Ho as (enc & Hs & Ho).
  destruct (ac_is_negative p name (v_attrs v)) eqn:Hn.
  - pose proof (inv_neg _ (tw_inv _ _ Ht) p name enc Hn Hs) as Hno. destruct o as [d|].
    + by rewrite (Hno : store (calmed v) !! _ = None) in Ho.
    + by exists v.
  - rewrite E. cbn [fst]. cbv beta iota. destruct o as [d|].
    + destruct (inv_child _ p enc d (proj2 (inv_calmed v) (tw_inv _ _ Ht)) Ho) as [n Hn'].
      assert (snap_load_inode (d_child_ino d) s = (Ok n, s)) as El.
      { unfold snap_load_inode, st_bind. rewrite (twin_get _ _ _ Ht), (Hn' : store v !! _ = _). done. }
      destruct (agrees_cached (d_child_ino d) s v1 Ht1) as (v2 & E2 & _ & Ht2). rewrite El in E2. cbn [fst snd] in E2.
      exists v2. unfold or_else, st_map_err. cbv beta iota. by rewrite E2, El.
    + eexists. split; [done|]. split; [done|]. pose proof Ht1 as [H1 H2 H3 H4 H5 H6 H7]. split; try done.
      apply inv_cache; [done|]. eapply coherent_negative; [by apply inv_coherent| |].
      * change (v_names v1) with (v_names (calmed v1)). rewrite Hc. exact Hs.
      * change (store v1) with (store (calmed v1)). rewrite Hc. exact Ho.
Qed.

Lemma snap_dir_node s v p n s' : twin s v -> snap_load_dir p s = (Ok n, s') -> inode_of v p = Some n /\ is_dir (i_kind n) = true.
Proof.
  intros Ht. unfold snap_load_dir, snap_load_inode, st_bind. rewrite (twin_get _ _ _ Ht).
  destruct (store v !! KInode p) as [x|] eqn:Ex; [|done]. destruct (Inode_decode x) as [n0|] eqn:En; [|done]. cbn. destruct (is_dir (i_kind n0)) eqn:Hd; [|done].
  intros [= -> _]. split; [|done]. unfold inode_of. rewrite Ex. by destruct x; simplify_eq/=.
Qed.

(** [lookup] asks for search permission of the live directory and for read
    permission of the snapshot's. *)
Lemma lookup_agrees creds creds' p name s v : twin s v ->
  (forall n, inode_of v p = Some n -> is_dir (i_kind n) = true -> access creds' n ACCESS_X = access creds n ACCESS_R) ->
  alike (snap_lookup creds p name) (lookup creds' p name) s v.
Proof.
  intros Ht Hacc. apply alike_bind; [by apply agrees_dir|]. intros n v1 En Ht1.
  rewrite (Hacc n) by by eapply snap_dir_node. apply alike_bind; [by apply agrees_lift|]. intros _ v2 _ Ht2.
  case_bool_decide; [by apply agrees_lift|]. case_bool_decide.
  - apply alike_bind; [by apply agrees_cached|]. intros u v3 _ Ht3. by apply agrees_lift.
  - destruct (validate_name name) as [[]|e] eqn:Hv; [|by exists v2]. by apply (agrees_found p name (validate_len _ Hv) s v2 Ht2).
Qed.

Lemma lookup_unreadable creds p name s v n e : twin s v ->
  inode_of v p = Some n -> is_dir (i_kind n) = true -> access creds n ACCESS_R = Err e -> snap_lookup creds p name s = (Err (Raise e), s).
Proof.
  intros Ht Hn Hd Ha. apply inode_of_node in Hn. unfold snap_lookup, snap_load_dir, snap_load_inode, st_bind.
  rewrite (twin_get _ _ _ Ht), Hn. cbn. rewrite Hd. cbn. by rewrite Ha.
Qed.

Lemma statfs_agrees : agrees snap_statfs statfs.
Proof.
  intros s v Ht. exists v. destruct (tw_quiet _ _ Ht) as [_ Hd]. unfold snap_statfs, statfs, st_bind, ensure_live, VolumeHealth.ensure_live, st_get.
  rewrite Hd, (twin_get _ _ KQuotaBytes Ht). cbv beta iota. rewrite (twin_get _ _ KQuotaInodes Ht), (tw_quota _ _ Ht).
  unfold QuotaTracker.usage. cbn [map_err]. rewrite (inv_qb _ (tw_inv _ _ Ht)), (inv_qi _ (tw_inv _ _ Ht)). done.
Qed.

(** ** Reading *)

Fixpoint filled (m : gmap Key Value) (cs ino off : u64) (idxs : list u32) (out : bytes) : bytes :=
  match idxs with
  | [] => out
  | idx :: idxs =>
      filled m cs ino off idxs (match m !! KChunk ino idx with Some chunk => copy_from_chunk out off idx (value_bytes chunk) cs | None => out end)
  end.

Lemma snap_chunks_filled s v cs ino off idxs out :
  twin s v -> snap_chunks cs ino off idxs out s = (Ok (filled (store v) cs ino off idxs out), s).
Proof.
  intros Ht. revert out. induction idxs as [|i idxs IH]; intros out; [done|]. cbn [snap_chunks filled]. unfold st_bind.
  rewrite (twin_get _ _ _ Ht). apply IH.
Qed.
Lemma read_chunks_filled snap e cs ino off idxs out :
  e_faults e = [] -> read_chunks snap cs ino off idxs out e = (Ok (filled (contents snap) cs ino off idxs out), e).
Proof.
  intros He. revert out. induction idxs as [|i idxs IH]; intros out; [done|]. cbn [read_chunks filled]. unfold st_bind, lift_db, st_map_err.
  rewrite snapshot_get_quiet by done. apply IH.
Qed.

(** One read of a chunk, or a loop over the chunks of a snapshot of the
    database: the same bytes. *)
Lemma range_agrees ino size off n s v : twin s v -> 
  exists bs, snap_read_range ino size off n s = (Ok bs, s) /\ read_range (v_chunk_size v) ino size off n (v_eng v) = (Ok bs, v_eng v).
Proof.
  intros Ht. unfold snap_read_range, read_range. destruct (_ || _); [by eexists|]. unfold st_bind at 1, st_get. cbv beta iota zeta.
  rewrite (tw_cs _ _ Ht), (snap_chunks_filled _ _ _ _ _ _ _ Ht). eexists. split; [done|]. destruct (tw_quiet _ _ Ht) as [He _].
  destruct (Z.eqb_spec (chunk_of off (v_chunk_size v)) (chunk_of (Z.min size (as_u64 (off + n)) - 1) (v_chunk_size v))) as [E|E].
  - rewrite <- E. unfold range_incl. rewrite Z.sub_diag, Z.add_0_l. unfold st_bind, lift_db, st_map_err. rewrite get_quiet by done. done.
  - unfold st_bind, lift_db, st_map_err. rewrite snapshot_quiet by done. cbn [map_err]. by rewrite read_chunks_filled.
Qed.

(** What [read] does before it looks after readahead and the access time. *)
Definition read_prefix creds ino off n : FsM (Inode * bytes) :=
  inode <- load_inode_cached ino ;;
  check_file inode ;;;
  guard (access creds inode ACCESS_R) ;;;
  v <- st_get ;;
  bs <- map_core (read_range (v_chunk_size v) ino (i_size inode) off n) ;;
  st_ret (inode, bs).

Definition snap_prefix creds ino off n : SnM (Inode * bytes) :=
  inode <- snap_load_inode ino ;;
  (match i_kind inode with File => st_ret tt | Dir => sfail IsDir | _ => sfail Invalid end) ;;;
  sguard (access creds inode ACCESS_R) ;;;
  bs <- snap_read_range ino (i_size inode) off n ;;
  st_ret (inode, bs).

Lemma read_prefix_then creds ino off n policy v :
  read_with_atime_policy nobody creds ino off n policy v =
    (ib <- read_prefix creds ino off n ;;
     plan_readahead ino off (as_u64 (off + len ib.2)) (i_size ib.1) ;;; maybe_update_atime nobody ino ib.1 policy ;;; st_ret ib.2) v.
Proof. unfold read_with_atime_policy, read_prefix, st_bind, st_get. repeat (case_match; simplify_eq/=); done. Qed.

Lemma agrees_read_prefix creds ino off n :
  agrees (snap_prefix creds ino off n) (read_prefix creds ino off n).
Proof.
  apply agrees_bind; [apply agrees_cached|]. intros r. apply agrees_bind; [unfold check_file; destruct (i_kind r); apply agrees_lift|]. intros _.
  apply agrees_bind; [apply agrees_lift|]. intros _ s v Ht. destruct (range_agrees ino (i_size r) off n s v Ht) as (bs & Es & El).
  destruct (tw_quiet _ _ Ht) as [_ Hd]. exists v. unfold st_bind, st_get, map_core, VolumeHealth.map_core, VolumeHealth.ensure_live.
  rewrite Es, El, !Hd. split_and!; [by destruct v|done..].
Qed.

Lemma snap_read_prefix creds ino off n s :
  snap_read creds ino off n s =
    (match (snap_prefix creds ino off n s).1 with Ok ib => Ok ib.2 | Err h => Err h end, (snap_prefix creds ino off n s).2).
Proof. unfold snap_read, snap_prefix, st_bind. repeat (case_match; simplify_eq/=); done. Qed.

Lemma snap_read_ok creds ino off n s v bs : twin s v -> (snap_read creds ino off n s).1 = Ok bs ->
  exists r, inode_of v ino = Some r /\ i_kind r = File /\ access creds r ACCESS_R = Ok tt.
Proof.
  intros Ht. unfold snap_read, snap_load_inode, st_bind. rewrite (twin_get _ _ _ Ht). unfold inode_of.
  destruct (store v !! KInode ino) as [[]|]; try done. cbn. destruct (i_kind i) eqn:Hk; try done. cbn.
  destruct (access creds i ACCESS_R) as [[]|] eqn:Ha; [|done]. eauto.
Qed.

(** The answer of [read]; the live volume may move the access time. *)
Lemma read_same fuel creds ino off n policy s v :
  ready fuel v -> twin s v -> is_u64 off -> is_u32 n ->
  snap_read creds ino off n s = ((read_with_atime_policy nobody creds ino off n policy v).1, s).
Proof.
  intros Hr Ht Hoff Hn. pose proof (read_outcome fuel v creds ino off n policy Hr Hoff Hn) as Ho.
  pose proof (fun bs => snap_read_ok creds ino off n s v bs Ht) as Hok. rewrite snap_read_prefix in *.
  destruct (agrees_read_prefix creds ino off n s v Ht) as (v1 & E & -> & _).
  unfold outcome in Ho. rewrite read_prefix_then in *. unfold st_bind in Ho. unfold st_bind. rewrite E in *.
  destruct (snap_prefix creds ino off n s).1 as [[r bs]|h]; [|done].
  destruct (Hok bs eq_refl) as (r' & Hn' & Hk & Ha). pose proof (proj1 (inode_of_node _ _ _) Hn') as Hm.
  assert (forall e, ~ (stale_at v ino e \/ denied_at creds v ino ACCESS_R e \/ no_file v ino e)) as Hno.
  { intros e [[_ Hs]|[(_ & r0 & Hr0 & Hd0)|(r0 & Hr0 & Hk0 & _)]]; [congruence| |congruence].
    assert (r0 = r') as -> by congruence. congruence. }
  cbn [fst snd] in *. destruct (plan_readahead _ _ _ _ v1) as [[?|[?|]] v2]; [|by destruct Ho as (_ & _ & []%Hno)|done].
  destruct (maybe_update_atime _ _ _ _ v2) as [[?|[?|]] v3]; [done|by destruct Ho as (_ & _ & []%Hno)|done].
Qed.

(** * The contract *)

(** What can be asked of both, and what they answer. *)
Inductive query : Type :=
| QGetattr (ino : u64)
| QLookup (creds : Credentials) (parent : u64) (name : bytes)
| QReaddir (creds : Credentials) (parent cookie : u64) (max_entries : usize)
| QReadlink (ino : u64)
| QGetxattr (creds : Credentials) (ino : u64) (name : bytes)
| QListxattr (creds : Credentials) (ino : u64)
| QPermissions (creds : Credentials) (ino : u64) (parent : option (u64 * bytes))
| QStatfs
| QRead (creds : Credentials) (ino offset : u64) (length : u32).

Inductive answer : Type :=
| AAttr (a : FileAttr)
| ADir (d : ReadDir)
| ABytes (b : bytes)
| ANames (l : list bytes)
| APermissions (p : EntryPermissions)
| AStat (f : StatFs).

Definition ask_snapshot (q : query) : SnM answer :=
  match q with
  | QGetattr ino => a <- snap_getattr ino ;; st_ret (AAttr a)
  | QLookup creds p name => a <- snap_lookup creds p name ;; st_ret (AAttr a)
  | QReaddir creds p cookie max => d <- snap_readdir creds p cookie max ;; st_ret (ADir d)
  | QReadlink ino => b <- snap_readlink ino ;; st_ret (ABytes b)
  | QGetxattr creds ino name => b <- snap_getxattr creds ino name ;; st_ret (ABytes b)
  | QListxattr creds ino => l <- snap_listxattr creds ino ;; st_ret (ANames l)
  | QPermissions creds ino parent => p <- snap_permissions creds ino parent ;; st_ret (APermissions p)
  | QStatfs => f <- snap_statfs ;; st_ret (AStat f)
  | QRead creds ino off n => b <- snap_read creds ino off n ;; st_ret (ABytes b)
  end.
Definition ask_live (q : query) : FsM answer :=
  match q with
  | QGetattr ino => a <- getattr ino ;; st_ret (AAttr a)
  | QLookup creds p name => a <- lookup creds p name ;; st_ret (AAttr a)
  | QReaddir creds p cookie max => d <- readdir creds p cookie max ;; st_ret (ADir d)
  | QReadlink ino => b <- readlink ino ;; st_ret (ABytes b)
  | QGetxattr creds ino name => b <- getxattr creds ino name ;; st_ret (ABytes b)
  | QListxattr creds ino => l <- listxattr creds ino ;; st_ret (ANames l)
  | QPermissions creds ino parent => p <- permissions creds ino parent ;; st_ret (APermissions p)
  | QStatfs => f <- statfs ;; st_ret (AStat f)
  | QRead creds ino off n => b <- read nobody creds ino off n ;; st_ret (ABytes b)
  end.

(** A caller who may search every directory. *)
Definition searcher : Credentials := {| c_uid := 0; c_gid := 0; c_groups := []; c_trusted := false |}.

(** What a snapshot of [v] answers: what [v] answers, but for two calls.
    [lookup] asks for read permission of the directory, where a live volume asks
    for search permission, and with it finds what anybody may find who may
    search; [permissions] says of everything that exists that it can be read
    and no more. *)
Definition snapshot_answer v (q : query) : result (Halt FsError) answer :=
  match q with
  | QLookup creds p name =>
      match inode_of v p with
      | Some n =>
          if is_dir (i_kind n)
          then match access creds n ACCESS_R with
               | Ok _ => (ask_live (QLookup searcher p name) v).1
               | Err e => Err (Raise e)
               end
          else (ask_live q v).1
      | None => (ask_live q v).1
      end
  | QPermissions creds ino parent =>
      match (ask_live (QGetattr ino) v).1 with
      | Ok _ => Ok (APermissions {| can_read := true; can_write := false; can_delete := false; can_rename := false |})
      | Err h => Err h
      end
  | _ => (ask_live q v).1
  end.

(** The arguments are of their types. *)
Definition askable (q : query) : Prop :=
  match q with
  | QRead _ _ off n => is_u64 off /\ is_u32 n
  | _ => True
  end.

(** [e] is a reader at a checkpoint of [v], the volume mounted from [record]. *)
Record checkpoint_of (record : VolumeRecord) (dek : bytes) v (e : Engine) : Prop := {
  cp_active : vr_state record = Active;
  cp_superblock : exists sb, store v !! KSuperblock = Some (VSuperblock sb) /\ verify_superblock_matches_record record sb = Ok tt /\
    sb_kind sb = Filesystem /\ sb_chunk_size sb = v_chunk_size v;
  cp_names : v_names v = {| nc_dek := dek |};
  cp_quota : q_limits (v_quota v) = vr_quota record;
  cp_faults : e_faults e = [];
  cp_records : contents (e_db e) = store v
}.

Lemma open_twin record dek cp v e : Inv v -> quiet v -> checkpoint_of record dek v e ->
  exists s, SnapshotVolume_open record dek (Some cp) e = (Ok s, e) /\ twin s v /\ ss_fsid s = snapshot_fsid (vr_fsid record) cp.
Proof.
  intros Hi Hq [H1 (sb & H2 & Hv & Hk & Hcs) H3 H4 H5 H6]. unfold SnapshotVolume_open. rewrite bool_decide_true by done. cbn [negb].
  unfold st_bind, st_try, lift_db, st_map_err. rewrite get_quiet by done. rewrite H6, H2. cbn. rewrite Hv. cbn. rewrite Hk. cbn.
  eexists. split; [done|]. split; [|done]. by split.
Qed.

Lemma twin_untouched s s' v : twin s v -> untouched s s' -> twin s' v.
Proof. intros [] []. split; try done; [by auto|congruence..]. Qed.

Fixpoint snap_run (ks : list call) s : SnapshotVolume :=
  match ks with [] => s | k :: ks => snap_run ks (snap_call k s).2 end.
Lemma snap_run_untouched ks s : untouched s (snap_run ks s).
Proof. revert s. induction ks as [|k ks IH]; intros s; [done|]. eapply untouched_trans; [apply (keeps_call k)|apply IH]. Qed.

Lemma alike_answer {A} (ms : SnM A) (ml : FsM A) (f : A -> answer) s v :
  alike ms ml s v -> (a <- ms ;; st_ret (f a)) s = (((a <- ml ;; st_ret (f a)) v).1, s).
Proof. intros (v' & E & Es & _). unfold st_bind. rewrite E. destruct (ms s) as [[a|h] s1]; cbn in *; by subst. Qed.

Lemma ask_lookup s v creds p name : twin s v ->
  ask_snapshot (QLookup creds p name) s = (snapshot_answer v (QLookup creds p name), s).
Proof.
  intros Ht. cbn [ask_snapshot snapshot_answer ask_live]. destruct (inode_of v p) as [n|] eqn:Hn.
  - destruct (is_dir (i_kind n)) eqn:Hd.
    + destruct (access creds n ACCESS_R) as [[]|e] eqn:Ha.
      * apply alike_answer, lookup_agrees; [done|]. intros n' Hn' _. by simplify_eq.
      * unfold st_bind. by rewrite (lookup_unreadable creds p name s v n e).
    + apply alike_answer, lookup_agrees; [done|]. intros n' Hn' Hd'. congruence.
  - apply alike_answer, lookup_agrees; [done|]. intros n' Hn'. congruence.
Qed.

Lemma ask_permissions s v creds ino parent : twin s v ->
  ask_snapshot (QPermissions creds ino parent) s = (snapshot_answer v (QPermissions creds ino parent), s).
Proof.
  intros Ht. destruct (agrees_getattr ino s v Ht) as (v' & E & Es & _).
  cbn [ask_snapshot snapshot_answer ask_live]. unfold snap_permissions, st_bind. rewrite E.
  destruct (snap_getattr ino s) as [[a|h] s1]; cbn in *; by subst.
Qed.

Lemma ask_same fuel s v q : ready fuel v -> twin s v -> askable q -> ask_snapshot q s = (snapshot_answer v q, s).
Proof.
  intros Hr Ht Hq. destruct q; try (by apply ask_lookup); try (by apply ask_permissions); cbn [ask_snapshot ask_live snapshot_answer askable] in *.
  - by apply alike_answer, agrees_getattr.
  - by apply alike_answer, agrees_readdir.
  - by apply alike_answer, agrees_readlink.
  - by apply alike_answer, agrees_getxattr.
  - by apply alike_answer, agrees_listxattr.
  - by apply alike_answer, statfs_agrees.
  - destruct Hq as [Hoff Hn]. unfold st_bind, read. rewrite (read_same fuel creds ino offset length Relatime s v) by done.
    by destruct (read_with_atime_policy _ _ _ _ _ _ v) as [[]].
Qed.


(** The calls that would change the volume, or open it for writing. *)
Definition writing (k : call) : bool :=
  match k with
  | CWrite _ _ _ _ | CSetattr _ _ _ | CCreate _ _ _ _ _ | CMkdir _ _ _ _ | CMknod _ _ _ _ _ _ | CSymlink _ _ _ _ | CLink _ _ _ _
  | CUnlink _ _ _ | CRmdir _ _ _ | CRename _ _ _ _ _ | CSetxattr _ _ _ _ | CRemovexattr _ _ _ => true
  | COpen _ _ mode => match mode with ORead => false | _ => true end
  | CLock _ _ _ exclusive | CTestlock _ _ _ exclusive => exclusive
  | _ => false
  end.

(** C11: whatever is asked of a snapshot, and whichever storage calls fail under
    it, it writes nothing: its reader's records and write log and its own
    identity stay as they were, and each writing call is refused as read-only
    without a single storage call. *)
Theorem snapshot_never_writes calls s :
  untouched s (snap_run calls s) /\ forall k, writing k = true -> snap_call k s = (Err (Raise ReadOnly), s).
Proof.
  split; [apply snap_run_untouched|]. intros k Hk. destruct k; try done; cbn in Hk; try (by subst). by destruct mode.
Qed.
End snapshots.
