(* ===== verification/SnapWitness.v ===== *)
(** The theorems on snapshots applied to a snapshot of the volume of [Demo],
    and the directory a snapshot and its volume treat differently. *)

From S2P Require Import Prelude Keys Meta Store Data Quota Locks Volume Vfs Tree Wf WfOps VfsLogic VfsInv System Mount Concrete Spec Demo.
From S2P Require Import Snap SnapThm.

Definition demo_checkpoint : bytes := [1; 2; 3; 4; 5; 6; 7; 8; 9; 10; 11; 12; 13; 14; 15; 16].

Lemma demo_checkpoint_of : checkpoint_of demo_record [1] demo3 (v_eng demo3).
Proof.
  split; [vm_compute; reflexivity| |vm_compute; reflexivity..|reflexivity].
  exists (v_superblock demo3). split_and!; vm_compute; reflexivity.
Qed.

Lemma fst_of {A B} (x : A * B) a b : x = (a, b) -> x.1 = a.
Proof. by intros ->. Qed.


(** * Where a snapshot differs *)

(** Someone who owns nothing, a directory they may search and not read, and a
    file they may not read. *)
Definition stranger : Credentials := {| c_uid := 5; c_gid := 5; c_groups := []; c_trusted := false |}.
Definition only_mode (mode : u32) : SetAttrs :=
  {| s_mode := Some mode; s_uid := None; s_gid := None; s_size := None; s_atime := None; s_mtime := None |}.
Definition demo_private : Volume :=
  after (after demo3 (CSetattr root_user ROOT_INO (only_mode 457))) (CSetattr root_user 3 (only_mode 384)).
Definition demo_private_snapshot : option SnapshotVolume :=
  match (SnapshotVolume_open demo_record [1] (Some demo_checkpoint) (v_eng demo_private)).1 with Ok s => Some s | Err _ => None end.

(** A name in a directory with mode 0711 can be looked up on the volume and not
    in a snapshot of it. *)
Lemma snapshot_search_denied :
  is_ok (lookup stranger ROOT_INO (nm 102) demo_private).1 = true /\
  ((fun s => (snap_lookup stranger ROOT_INO (nm 102) s).1) <$> demo_private_snapshot) = Some (Err (Raise AccessDenied)).
Proof. split; vm_compute; reflexivity. Qed.

(** A snapshot reports a file with mode 0600 as readable and refuses the read. *)
Lemma snapshot_permissions_unchecked :
  ((fun s => ((snap_permissions stranger 3 None s).1, (snap_read stranger 3 0 5 s).1)) <$> demo_private_snapshot) =
    Some (Ok {| can_read := true; can_write := false; can_delete := false; can_rename := false |}, Err (Raise AccessDenied)).
Proof. vm_compute. reflexivity. Qed.
