(* ===== verification/Block.v ===== *)
(** Block volumes ([block.rs]): one sparse byte range kept in the chunks of
    inode 0, served through the [BlockDev] trait.

    As for [Vfs], [others] is what the rest of the process does to the volume
    while an operation waits for its chunk locks, and [fuel] bounds the batched
    loop of [trim]. *)

From S2P Require Import Prelude Keys Meta Store Data Quota Locks Volume Fsck.

Definition MIN_BLOCK_SIZE : u32 := 512.
Definition MAX_PAYLOAD : u32 := 32 * 1024 * 1024.

Record BlockGeometry : Type := {
  g_size_bytes : u64;
  g_min_block : u32;
  g_preferred_block : u32;
  g_max_payload : u32;
  g_read_only : bool
}.

(** [trait BlockDev], for a device with state [S]. *)
Record BlockDev (S : Type) : Type := {
  bd_geometry : S -> BlockGeometry;
  bd_read : u64 -> u32 -> ST S (Halt FsError) bytes;
  bd_write : u64 -> bytes -> bool -> ST S (Halt FsError) unit;
  bd_flush : ST S (Halt FsError) unit;
  bd_trim : u64 -> u64 -> ST S (Halt FsError) unit;
  bd_write_zeroes : u64 -> u64 -> bool -> ST S (Halt FsError) unit
}.
Arguments bd_geometry {S}.
Arguments bd_read {S}.
Arguments bd_write {S}.
Arguments bd_flush {S}.
Arguments bd_trim {S}.
Arguments bd_write_zeroes {S}.

(** * Geometry *)

Definition chunk_size (g : BlockGeometry) : u64 := g_preferred_block g.

Definition chunk_bounds (g : BlockGeometry) (idx : u32) : u64 * u64 :=
  let start := idx * chunk_size g in
  (start, Z.min (start + chunk_size g) (g_size_bytes g)).

Definition chunk_fully_covered (g : BlockGeometry) (idx : u32) (offset endo : u64) : bool :=
  let '(chunk_start, chunk_end) := chunk_bounds g idx in
  (offset <=? chunk_start) && (chunk_end <=? endo).

Definition extent_end (g : BlockGeometry) (offset length : u64) : result FsError u64 :=
  match checked_add_u64 offset length with
  | None => Err Invalid
  | Some endo =>
      if (g_size_bytes g <? offset) || (g_size_bytes g <? endo) then Err Invalid else Ok endo
  end.

Definition chunk_range (g : BlockGeometry) (offset length : u64) : result FsError (option (u32 * u32)) :=
  match extent_end g offset length with
  | Err e => Err e
  | Ok endo =>
      if length =? 0 then Ok None
      else Ok (Some (chunk_of offset (chunk_size g), chunk_of (endo - 1) (chunk_size g)))
  end.

(** [while buf.last() == Some(0) { buf.pop(); }] *)
Fixpoint drop_zeroes (rbuf : bytes) : bytes :=
  match rbuf with
  | b :: rest => if b =? 0 then drop_zeroes rest else rbuf
  | [] => []
  end.
Definition trim_trailing_zeroes (buf : bytes) : bytes := rev (drop_zeroes (rev buf)).

(** What zeroing [zero_from, zero_to) does to the stored chunk [existing]:
    nothing, or the operation on its record and the billing delta. *)
Definition zero_chunk (g : BlockGeometry) (idx : u32) (zero_from zero_to : u64) (existing : bytes) : option (BatchOp * i64) :=
  let '(chunk_start, chunk_end) := chunk_bounds g idx in
  let key := KChunk BLOCK_INO idx in
  let old_billed := billed_chunk_bytes (g_size_bytes g) chunk_start (len existing) in
  if (zero_from <=? chunk_start) && (chunk_end <=? zero_to) then Some (Delete key, - old_billed)
  else
    let from := Z.max zero_from chunk_start - chunk_start in
    let to := Z.min (Z.min zero_to chunk_end - chunk_start) (len existing) in
    if to <=? from then None
    else
      let buf := trim_trailing_zeroes (splice existing from (zeros (to - from))) in
      let new_billed := billed_chunk_bytes (g_size_bytes g) chunk_start (len buf) in
      Some (if bool_decide (buf = []) then Delete key else Put key (VBytes buf), new_billed - old_billed).

(** One record of the scan of [trim]; [inl] is the [break]. *)
Definition trim_step (g : BlockGeometry) (scan_last : u32) (acc : WriteBatch * i64 * usize * usize) (kv : Key * Value) :
    (WriteBatch * i64 * usize * usize) + (WriteBatch * i64 * usize * usize) :=
  let '(batch, batch_delta, mutations, n) := acc in
  match keys.parse_chunk (key_bytes kv.1) with
  | None => inl acc
  | Some (ino, idx) =>
      if negb (ino =? BLOCK_INO) || (scan_last <? idx) then inl acc
      else
        let '(chunk_start, _) := chunk_bounds g idx in
        let acc' := (batch ++ [Delete kv.1],
                     batch_delta - billed_chunk_bytes (g_size_bytes g) chunk_start (len (value_bytes kv.2)),
                     mutations + 1, n + 1) in
        if n + 1 =? BATCH then inl acc' else inr acc'
  end.

(** [if billed_delta != 0 { batch.merge(KEY_QUOTA_BYTES, ..) }] *)
Definition charge (batch : WriteBatch) (billed_delta : i64) : WriteBatch :=
  batch ++ (if billed_delta =? 0 then [] else [Merge KQuotaBytes (encode_delta billed_delta)]).

(** * The volume *)

Section block.
Context {DB : SlateDB}.

(** [struct BlockVolume]; [b_waits] counts the lock waits so far. *)
Record BlockVolume : Type := mkBlock {
  b_eng : Engine;
  b_geometry : BlockGeometry;
  b_quota : QuotaTracker;
  b_health : VolumeHealth;
  b_waits : nat
}.

Definition b_set_eng (e : Engine) (v : BlockVolume) : BlockVolume :=
  mkBlock e (b_geometry v) (b_quota v) (b_health v) (b_waits v).
Definition b_set_quota (q : QuotaTracker) (v : BlockVolume) : BlockVolume :=
  mkBlock (b_eng v) (b_geometry v) q (b_health v) (b_waits v).
Definition b_set_health (h : VolumeHealth) (v : BlockVolume) : BlockVolume :=
  mkBlock (b_eng v) (b_geometry v) (b_quota v) h (b_waits v).

Definition BM : Type -> Type := ST BlockVolume (Halt FsError).

Definition b_guard {A} (r : result FsError A) : BM A := st_lift (map_err Raise r).

Definition b_ensure_live : BM unit := fun v =>
  (map_err Raise (VolumeHealth.ensure_live (b_health v)), v).

(** Await an engine call, then [map_storage] its result. *)
Definition b_storage {A} (m : EM A) : BM A := fun v =>
  let '(r, e) := m (b_eng v) in
  let '(r, h) := VolumeHealth.map_storage r (b_health v) in
  (map_err Raise r, b_set_health h (b_set_eng e v)).

(** Await a core call, then [map_core] its result. *)
Definition b_map_core {A} (m : ST Engine Error A) : BM A := fun v =>
  let '(r, e) := m (b_eng v) in
  let '(r, h) := VolumeHealth.map_core r (b_health v) in
  (map_err Raise r, b_set_health h (b_set_eng e v)).

(** [core_call.await?] *)
Definition b_core_await {A} (m : ST Engine Error A) : BM A := fun v =>
  let '(r, e) := m (b_eng v) in
  (map_err (fun x => Raise (fs_error_from_error x)) r, b_set_eng e v).

Definition b_now_unix : BM u64 := fun v =>
  let '(r, e) := clock_now (E := Halt FsError) (b_eng v) in
  (match r with Ok t => Ok (Z.max 0 (secs t)) | Err x => Err x end, b_set_eng e v).

Definition b_reserve (bytes_delta : i64) : BM unit :=
  t <- b_now_unix ;;
  fun v => let '(r, q) := QuotaTracker.reserve bytes_delta 0 t (b_quota v) in
           (map_err Raise r, b_set_quota q v).

(** [self.db.write_with_options(batch, &opts).await], undone on failure. *)
Definition b_write (batch : WriteBatch) (billed_delta : i64) : BM unit := fun v =>
  let '(r, e) := write batch (b_eng v) in
  match r with
  | Ok _ => (Ok tt, b_set_eng e v)
  | Err error =>
      (Err (Raise (fs_error_from_slatedb error)),
       b_set_health (VolumeHealth.note_storage_error error (b_health v))
         (b_set_quota (QuotaTracker.release billed_delta 0 (b_quota v)) (b_set_eng e v)))
  end.

Definition b_commit (batch : WriteBatch) (billed_delta : i64) (fua : bool) : BM unit :=
  b_ensure_live ;;;
  b_reserve billed_delta ;;;
  b_write batch billed_delta ;;;
  st_when fua (b_storage flush).

Definition stage_zeroes_for_existing_chunk (batch : WriteBatch) (idx : u32) (zero_from zero_to : u64) :
    BM (option i64 * WriteBatch) :=
  v <- st_get ;;
  o <- b_storage (get (KChunk BLOCK_INO idx)) ;;
  match o with
  | None => st_ret (None, batch)
  | Some existing =>
      match zero_chunk (b_geometry v) idx zero_from zero_to (value_bytes existing) with
      | None => st_ret (None, batch)
      | Some (op, delta) => st_ret (Some delta, batch ++ [op])
      end
  end.

(** The chunks of a range in order, each zeroed in [offset, endo). *)
Fixpoint stage_all (idxs : list u32) (offset endo : u64) (acc : WriteBatch * i64 * usize) : BM (WriteBatch * i64 * usize) :=
  match idxs with
  | [] => st_ret acc
  | idx :: idxs =>
      let '(batch, billed_delta, mutations) := acc in
      let* (o, batch) := stage_zeroes_for_existing_chunk batch idx offset endo in
      stage_all idxs offset endo
        (match o with Some delta => (batch, billed_delta + delta, mutations + 1) | None => (batch, billed_delta, mutations) end)
  end.

(** What other tasks do during the [n]-th lock wait. *)
Context (others : nat -> BlockVolume -> BlockVolume) (fuel : nat).

(** [self.locks.write_range(first, last).await] *)
Definition b_lock_wait : BM unit := fun v =>
  (Ok tt, others (b_waits v) (mkBlock (b_eng v) (b_geometry v) (b_quota v) (b_health v) (S (b_waits v)))).

Definition block_read (offset : u64) (length : u32) : BM bytes :=
  b_ensure_live ;;;
  v <- st_get ;;
  b_guard (extent_end (b_geometry v) offset length) ;;;
  b_map_core (read_range (chunk_size (b_geometry v)) BLOCK_INO (g_size_bytes (b_geometry v)) offset length).

Definition block_flush : BM unit := b_storage flush.

Definition block_write (offset : u64) (data : bytes) (fua : bool) : BM unit :=
  b_ensure_live ;;;
  v <- st_get ;;
  r <- b_guard (chunk_range (b_geometry v) offset (len data)) ;;
  match r with
  | None => st_when fua (b_storage flush)
  | Some _ =>
      b_lock_wait ;;;
      plan <- b_core_await (plan_write (chunk_size (b_geometry v)) BLOCK_INO (g_size_bytes (b_geometry v)) offset data) ;;
      let batch := map (fun p => Put (KChunk BLOCK_INO p.1) (VBytes p.2)) (wp_puts plan) in
      b_commit (charge batch (wp_billed_delta plan)) (wp_billed_delta plan) fua
  end.

(** The edge chunks of a [trim] that it does not cover whole. *)
Definition trim_edges (g : BlockGeometry) (first last : u32) (offset endo : u64) : list u32 :=
  filter (fun idx => chunk_fully_covered g idx offset endo = false)
    (if first =? last then [first] else [first; last]).

(** The chunks it covers whole. *)
Definition trim_full (g : BlockGeometry) (first last : u32) (offset endo : u64) : option (u32 * u32) :=
  let full_first := if chunk_fully_covered g first offset endo then first else saturating_add_u32 first 1 in
  let full_last := if chunk_fully_covered g last offset endo then Some last
                   else if last =? 0 then None else Some (last - 1) in
  match full_last with
  | Some full_last => if full_first <=? full_last then Some (full_first, full_last) else None
  | None => None
  end.

Fixpoint trim_loop (fuel : nat) (full_range : option (u32 * u32)) (acc : WriteBatch * i64 * usize) : BM unit :=
  match fuel with
  | O => st_fail OutOfFuel
  | S fuel =>
      v <- st_get ;;
      let* (batch, batch_delta, mutations, full_scan_done) :=
        match full_range with
        | Some (scan_first, scan_last) =>
            it <- b_storage (scan (Some (keys.chunk BLOCK_INO scan_first)) (Some (keys.chunk_prefix (BLOCK_INO + 1)))) ;;
            let* (batch, batch_delta, mutations, n) :=
              b_storage (iter_loop (trim_step (b_geometry v) scan_last) (acc, 0) it) in
            st_ret (batch, batch_delta, mutations, n <? BATCH)
        | None => st_ret (acc, true)
        end in
      if mutations =? 0 then st_ret tt
      else
        b_commit (charge batch batch_delta) batch_delta false ;;;
        if full_scan_done then st_ret tt else trim_loop fuel full_range ([], 0, 0)
  end.

Definition block_trim (offset length : u64) : BM unit :=
  b_ensure_live ;;;
  v <- st_get ;;
  r <- b_guard (chunk_range (b_geometry v) offset length) ;;
  match r with
  | None => st_ret tt
  | Some (first, last) =>
      let endo := offset + length in
      b_lock_wait ;;;
      acc <- stage_all (trim_edges (b_geometry v) first last offset endo) offset endo ([], 0, 0) ;;
      trim_loop fuel (trim_full (b_geometry v) first last offset endo) acc
  end.

Definition block_write_zeroes (offset length : u64) (fua : bool) : BM unit :=
  b_ensure_live ;;;
  v <- st_get ;;
  r <- b_guard (chunk_range (b_geometry v) offset length) ;;
  match r with
  | None => st_when fua (b_storage flush)
  | Some (first, last) =>
      let endo := offset + length in
      b_lock_wait ;;;
      let* (batch, billed_delta, mutations) := stage_all (range_incl first last) offset endo ([], 0, 0) in
      if mutations =? 0 then st_when fua (b_storage flush)
      else b_commit (charge batch billed_delta) billed_delta fua
  end.

(** [impl BlockDev for BlockVolume] *)
Definition BlockVolume_dev : BlockDev BlockVolume :=
  {| bd_geometry := b_geometry; bd_read := block_read; bd_write := block_write; bd_flush := block_flush;
     bd_trim := block_trim; bd_write_zeroes := block_write_zeroes |}.

(** ** Open *)

Definition block_superblock (record : VolumeRecord) (o : option Value) : result Error (Superblock * u64) :=
  match o with
  | None => Err EInvalid
  | Some v =>
      match SuperblockV_decode v with
      | Err e => Err e
      | Ok superblock =>
          match verify_superblock_matches_record record superblock with
          | Err e => Err e
          | Ok _ =>
              match sb_kind superblock with
              | Filesystem => Err EInvalid
              | Block size_bytes =>
                  match validate_block_size size_bytes (sb_chunk_size superblock) with
                  | Err e => Err e
                  | Ok _ => Ok (superblock, size_bytes)
                  end
              end
          end
      end
  end.

Definition block_load (record : VolumeRecord) : ST Engine Error (Superblock * u64 * i64 * i64) :=
  o <- lift_db (get KSuperblock) ;;
  let* (superblock, size_bytes) := st_lift (block_superblock record o) in
  qb <- lift_db (get KQuotaBytes) ;;
  qi <- lift_db (get KQuotaInodes) ;;
  st_ret (superblock, size_bytes, decode_counter (value_bytes <$> qb), decode_counter (value_bytes <$> qi)).

Definition block_geometry (superblock : Superblock) (size_bytes : u64) (read_only : bool) : BlockGeometry :=
  {| g_size_bytes := size_bytes; g_min_block := MIN_BLOCK_SIZE; g_preferred_block := sb_chunk_size superblock;
     g_max_payload := MAX_PAYLOAD; g_read_only := read_only |}.

(** [BlockVolume::open_with_caches], on the engine that [open_volume_db]
    returned. *)
Definition BlockVolume_open (record : VolumeRecord) : ST Engine Error BlockVolume :=
  if negb (bool_decide (vr_state record = Active)) then st_fail EInvalid
  else
    r <- st_try (block_load record) ;;
    match r with
    | Err error => lift_db close_db ;;; st_fail error
    | Ok (superblock, size_bytes, bytes_used, inodes_used) =>
        s <- st_get ;;
        st_ret (mkBlock s (block_geometry superblock size_bytes false)
                  (QuotaTracker.new bytes_used inodes_used (vr_quota record)) (VolumeHealth.new None) 0)
    end.

(** * Snapshots *)

(** [struct SnapshotBlockVolume]: the reader of a checkpoint. *)
Record SnapshotBlockVolume : Type := mkSnapshot { sv_reader : Engine; sv_geometry : BlockGeometry }.

(** [SnapshotBlockVolume::open], on the reader that [DbReader::builder] built
    for the checkpoint. *)
Definition Snapshot_open (record : VolumeRecord) : ST Engine Error SnapshotBlockVolume :=
  if negb (bool_decide (vr_state record = Active)) then st_fail EInvalid
  else
    r <- st_try (o <- lift_db (get KSuperblock) ;; st_lift (block_superblock record o)) ;;
    match r with
    | Err error => lift_db close_db ;;; st_fail error
    | Ok (superblock, size_bytes) => s <- st_get ;; st_ret (mkSnapshot s (block_geometry superblock size_bytes true))
    end.

Definition snapshot_reader {A} (m : EM A) : ST SnapshotBlockVolume (Halt FsError) A := fun v =>
  let '(r, e) := m (sv_reader v) in
  (map_err (fun x => Raise (fs_error_from_slatedb x)) r, mkSnapshot e (sv_geometry v)).

Fixpoint snapshot_chunks (cs offset : u64) (idxs : list u32) (out : bytes) : ST SnapshotBlockVolume (Halt FsError) bytes :=
  match idxs with
  | [] => st_ret out
  | idx :: idxs =>
      o <- snapshot_reader (get (KChunk BLOCK_INO idx)) ;;
      snapshot_chunks cs offset idxs
        (match o with Some chunk => copy_from_chunk out offset idx (value_bytes chunk) cs | None => out end)
  end.

Definition snapshot_read (offset : u64) (length : u32) : ST SnapshotBlockVolume (Halt FsError) bytes :=
  v <- st_get ;;
  let g := sv_geometry v in
  endo <- st_lift (map_err Raise (extent_end g offset length)) ;;
  if length =? 0 then st_ret []
  else
    let first := chunk_of offset (chunk_size g) in
    let last := chunk_of (endo - 1) (chunk_size g) in
    snapshot_chunks (chunk_size g) offset (range_incl first last) (zeros (endo - offset)).

(** [impl BlockDev for SnapshotBlockVolume] *)
Definition SnapshotBlockVolume_dev : BlockDev SnapshotBlockVolume :=
  {| bd_geometry := sv_geometry; bd_read := snapshot_read;
     bd_write _ _ _ := st_fail (Raise ReadOnly); bd_flush := st_ret tt;
     bd_trim _ _ := st_fail (Raise ReadOnly); bd_write_zeroes _ _ _ := st_fail (Raise ReadOnly) |}.
End block.

Arguments BlockVolume {DB}.
Arguments SnapshotBlockVolume {DB}.

(** * Decorators *)

(** [impl BlockDev for ReadOnlyBlockDev] *)
Definition ReadOnlyBlockDev {S} (inner : BlockDev S) : BlockDev S :=
  {| bd_geometry s := let g := bd_geometry inner s in
       {| g_size_bytes := g_size_bytes g; g_min_block := g_min_block g; g_preferred_block := g_preferred_block g;
          g_max_payload := g_max_payload g; g_read_only := true |};
     bd_read := bd_read inner;
     bd_write _ _ _ := st_fail (Raise ReadOnly);
     bd_flush := bd_flush inner;
     bd_trim _ _ := st_fail (Raise ReadOnly);
     bd_write_zeroes _ _ _ := st_fail (Raise ReadOnly) |}.

(** [impl BlockDev for StrictSyncBlockDev] *)
Definition StrictSyncBlockDev {S} (inner : BlockDev S) : BlockDev S :=
  {| bd_geometry := bd_geometry inner;
     bd_read := bd_read inner;
     bd_write offset data _ := bd_write inner offset data true;
     bd_flush := bd_flush inner;
     bd_trim := bd_trim inner;
     bd_write_zeroes offset length _ := bd_write_zeroes inner offset length true |}.
