(* ===== verification/BlockThm.v ===== *)
(** The block device reads back what it stored: zeroing, writing and trimming
    act on the bytes of the device exactly in their range, bill exactly, and
    keep the invariant of a block volume through storage faults. *)

From S2P Require Import Prelude Keys Meta Store Data Quota Locks Volume Wf VfsLogic Reap Fsck Block.

(** * Zeroing *)

Lemma drop_zeroes_spec l : exists n, l = replicate n 0 ++ drop_zeroes l.
Proof.
  induction l as [|b l [n IH]]; simpl; [by exists 0%nat|]. destruct (Z.eqb_spec b 0) as [->|]; [|by exists 0%nat].
  exists (S n). simpl. by f_equal.
Qed.

Lemma trim_trailing_spec buf : exists n, buf = trim_trailing_zeroes buf ++ zeros (Z.of_nat n).
Proof.
  destruct (drop_zeroes_spec (rev buf)) as [n Hn]. exists n. unfold trim_trailing_zeroes, zeros. rewrite Nat2Z.id.
  rewrite <- (rev_involutive buf) at 1. rewrite Hn, rev_app_distr, <- Hn. f_equal.
  clear. induction n as [|n IH]; [done|]. simpl. rewrite IH. by rewrite <- replicate_cons_app.
Qed.

Lemma byte_at_trim_trailing buf i : byte_at (trim_trailing_zeroes buf) i = byte_at buf i.
Proof.
  destruct (trim_trailing_spec buf) as [n E]. rewrite E at 2. destruct (Z.ltb_spec i 0); [by rewrite !byte_at_neg|].
  rewrite byte_at_app, byte_at_zeros by done. destruct (Z.ltb_spec i (len (trim_trailing_zeroes buf))); [done|by rewrite byte_at_ge].
Qed.

Lemma len_trim_trailing buf : len (trim_trailing_zeroes buf) <= len buf.
Proof. destruct (trim_trailing_spec buf) as [n E]. rewrite E at 2. autorewrite with slate_len. lia. Qed.

Section zero.
Context (g : BlockGeometry).
Implicit Types (m : gmap Key Value) (I : Z -> bool).

#[local] Abbreviation cs := (chunk_size g).
#[local] Abbreviation size := (g_size_bytes g).

(** The bytes of the device and what they are billed. *)
Definition bytes_at m x : u8 := content m cs BLOCK_INO size x.
Definition bill m : Z := billed m cs BLOCK_INO size.

(** [m'] is [m] with the part of [zf, zt) in the chunks [I] zeroed; [d] is the
    change of the bill. *)
Record zeroes I zf zt m m' (d : Z) : Prop := {
  z_fit : chunks_fit m' cs BLOCK_INO;
  z_trim : chunks_trimmed m' cs BLOCK_INO size;
  z_zero x : I (x / cs) = true -> zf <= x < zt -> bytes_at m' x = 0;
  z_keep x : I (x / cs) = false \/ ~ zf <= x < zt -> bytes_at m' x = bytes_at m x;
  z_bill : bill m' = bill m + d;
  z_free : d <= 0;
  z_frame k : (forall idx, I idx = true -> k <> KChunk BLOCK_INO idx) -> m' !! k = m !! k;
  z_dom idx : is_Some (m' !! KChunk BLOCK_INO idx) -> is_Some (m !! KChunk BLOCK_INO idx)
}.

Lemma zeroes_refl zf zt m :
  chunks_fit m cs BLOCK_INO -> chunks_trimmed m cs BLOCK_INO size -> zeroes (fun _ => false) zf zt m m 0.
Proof. intros. split; try done; lia. Qed.

Lemma zeroes_trans I J zf zt m m1 m2 d1 d2 :
  zeroes I zf zt m m1 d1 -> zeroes J zf zt m1 m2 d2 -> zeroes (fun i => I i || J i) zf zt m m2 (d1 + d2).
Proof.
  intros [F1 T1 Z1 K1 B1 D1 R1 S1] [F2 T2 Z2 K2 B2 D2 R2 S2]. split; try done; try lia; auto.
  - intros x Hx Hr. destruct (J (x / cs)) eqn:HJ; [by apply Z2|]. rewrite orb_false_r in Hx. rewrite K2 by auto. by apply Z1.
  - intros x Hx. rewrite orb_false_iff in Hx. rewrite K2, K1; naive_solver.
  - intros k Hk. rewrite R2, R1; [done|..]; intros idx Hi; apply Hk; rewrite Hi; [done|apply orb_true_r].
Qed.

(** Chunks that are gone read as zero anyway. *)
Lemma zeroes_widen I J zf zt m m' d :
  zeroes I zf zt m m' d -> (forall i, J i = true -> I i = true \/ m' !! KChunk BLOCK_INO i = None) ->
  zeroes (fun i => I i || J i) zf zt m m' d.
Proof.
  intros [F T Z0 K B D R S] HJ. split; try done.
  - intros x Hx Hr. destruct (I (x / cs)) eqn:HI; [by apply Z0|]. destruct (HJ _ Hx) as [?|Hn]; [congruence|].
    unfold bytes_at, content, chunk_at. rewrite Hn, byte_at_nil. by destruct (_ && _).
  - intros x Hx. apply K. rewrite orb_false_iff in Hx. naive_solver.
  - intros k Hk. apply R. intros idx Hi. apply Hk. by rewrite Hi.
Qed.

Lemma zeroes_ext I J zf zt m m' d : (forall i, I i = J i) -> zeroes I zf zt m m' d -> zeroes J zf zt m m' d.
Proof.
  intros HE [F T Z0 K B D R S]. split; try done.
  - intros x Hx. apply Z0. by rewrite HE.
  - intros x Hx. apply K. by rewrite HE.
  - intros k Hk. apply R. intros idx Hi. apply Hk. by rewrite <- HE.
Qed.

Hypothesis Hcs : 0 < cs.

(** Replacing one chunk. *)
Lemma zeroes_chunk idx zf zt m m' old new :
  chunks_fit m cs BLOCK_INO -> chunks_trimmed m cs BLOCK_INO size ->
  m !! KChunk BLOCK_INO idx = Some old ->
  (forall k, k <> KChunk BLOCK_INO idx -> m' !! k = m !! k) ->
  m' !! KChunk BLOCK_INO idx = new ->
  len (from_option value_bytes [] new) <= len (value_bytes old) ->
  (forall i, 0 <= i < cs -> idx * cs + i < size -> byte_at (from_option value_bytes [] new) i =
     if (zf <=? idx * cs + i) && (idx * cs + i <? zt) then 0 else byte_at (value_bytes old) i) ->
  zeroes (fun i => i =? idx) zf zt m m' (len (from_option value_bytes [] new) - len (value_bytes old)).
Proof.
  intros Hf Ht Hold Hoth Hnew Hlen Hb. destruct (Hf _ _ Hold) as [Hu Hfit]. pose proof (Ht _ _ Hold) as Htr.
  assert (forall x, x / cs = idx -> bytes_at m' x = if (zf <=? x) && (x <? zt) then 0 else bytes_at m x) as Hbytes.
  { intros x Hx. unfold bytes_at, content. destruct ((0 <=? x) && (x <? size)) eqn:Hin; [|by destruct ((zf <=? x) && (x <? zt))].
    apply andb_true_iff in Hin as [H1%Z.leb_le H2%Z.ltb_lt]. pose proof (Z.div_mod x cs ltac:(lia)) as E. pose proof (Z.mod_pos_bound x cs Hcs).
    rewrite Hx in *. unfold chunk_at. rewrite Hold, Hnew. specialize (Hb (x mod cs)). replace (idx * cs + x mod cs) with x in Hb by lia.
    destruct new; simpl in Hb; rewrite <- ?Hb by lia; done. }
  split.
  - intros j v Hj. destruct (decide (j = idx)) as [->|Hne]; [|rewrite Hoth in Hj by congruence; by apply Hf in Hj].
    rewrite Hnew in Hj. rewrite Hj in Hlen. cbn [from_option] in Hlen. split; [done|lia].
  - intros j v Hj. destruct (decide (j = idx)) as [->|Hne]; [|rewrite Hoth in Hj by congruence; by apply Ht in Hj].
    rewrite Hnew in Hj. rewrite Hj in Hlen. cbn [from_option] in Hlen. lia.
  - intros x Hx%Z.eqb_eq Hr. rewrite Hbytes by done. rewrite (proj2 (Z.leb_le _ _)), (proj2 (Z.ltb_lt _ _)) by lia. done.
  - intros x [Hx%Z.eqb_neq|Hr].
    + unfold bytes_at, content, chunk_at. rewrite Hoth by congruence. done.
    + destruct (decide (x / cs = idx)) as [Hx|Hx]; [|unfold bytes_at, content, chunk_at; by rewrite Hoth by congruence].
      rewrite Hbytes by done. destruct (Z.leb_spec zf x), (Z.ltb_spec x zt); try done; lia.
  - assert (m' = match new with Some v => <[KChunk BLOCK_INO idx := v]> m | None => delete (KChunk BLOCK_INO idx) m end) as ->.
    { apply map_eq. intros k. destruct (decide (k = KChunk BLOCK_INO idx)) as [->|Hk].
      - rewrite Hnew. destruct new; by rewrite ?lookup_insert_eq, ?lookup_delete_eq.
      - rewrite Hoth by done. destruct new; by rewrite ?lookup_insert_ne, ?lookup_delete_ne by done. }
    assert (forall v, len (value_bytes v) <= len (value_bytes old) ->
      billed_chunk cs BLOCK_INO size (KChunk BLOCK_INO idx) v = len (value_bytes v)) as Hbc.
    { intros v Hv. unfold billed_chunk, billed_chunk_bytes, saturating_sub. rewrite Z.eqb_refl. pose proof (len_nonneg (value_bytes v)). lia. }
    unfold bill, billed. destruct new as [v|]; cbn [from_option] in *.
    + rewrite msum_insert, Hold. cbn [from_option]. rewrite !Hbc by lia. lia.
    + rewrite msum_delete, Hold. cbn [from_option]. rewrite Hbc by lia. change (len (@nil Z)) with 0. lia.
  - lia.
  - intros k Hk. apply Hoth. apply Hk. apply Z.eqb_refl.
  - intros j Hj. destruct (decide (j = idx)) as [->|Hne]; [by rewrite Hold|]. by rewrite Hoth in Hj by congruence.
Qed.

(** Deleting a chunk that lies in the range. *)
Lemma zeroes_delete idx zf zt m v :
  chunks_fit m cs BLOCK_INO -> chunks_trimmed m cs BLOCK_INO size -> m !! KChunk BLOCK_INO idx = Some v ->
  chunk_fully_covered g idx zf zt = true ->
  zeroes (fun i => i =? idx) zf zt m (delete (KChunk BLOCK_INO idx) m)
    (- billed_chunk_bytes size (idx * cs) (len (value_bytes v))).
Proof.
  intros Hf Ht Hv Hcov. pose proof (Ht _ _ Hv) as Htr. pose proof (len_nonneg (value_bytes v)).
  unfold chunk_fully_covered, chunk_bounds in Hcov. apply andb_true_iff in Hcov as [H1%Z.leb_le H2%Z.leb_le].
  replace (- _) with (len (from_option value_bytes [] None) - len (value_bytes v)).
  - apply zeroes_chunk; try done.
    + intros k Hk. by apply lookup_delete_ne.
    + apply lookup_delete_eq.
    + intros i Hi Hs. simpl. rewrite byte_at_nil, (proj2 (Z.leb_le _ _)), (proj2 (Z.ltb_lt _ _)) by lia. done.
  - unfold billed_chunk_bytes, saturating_sub. cbn [from_option]. change (len (@nil Z)) with 0. lia.
Qed.

(** What staging one chunk does to the store. *)
Definition staged m (o : option (BatchOp * i64)) : gmap Key Value :=
  match o with Some (op, _) => apply_op m op | None => m end.
Definition staged_delta (o : option (BatchOp * i64)) : i64 := match o with Some (_, d) => d | None => 0 end.

Lemma zero_chunk_zeroes idx zf zt m v :
  chunks_fit m cs BLOCK_INO -> chunks_trimmed m cs BLOCK_INO size -> m !! KChunk BLOCK_INO idx = Some v ->
  let o := zero_chunk g idx zf zt (value_bytes v) in
  zeroes (fun i => i =? idx) zf zt m (staged m o) (staged_delta o).
Proof.
  intros Hf Ht Hv. destruct (Hf _ _ Hv) as [Hu Hfit]. pose proof (Ht _ _ Hv) as Htr. pose proof (len_nonneg (value_bytes v)).
  unfold zero_chunk, chunk_bounds. destruct (_ && _) eqn:Hcov.
  { by apply (zeroes_delete idx zf zt m v). }
  set (from := Z.max zf (idx * cs) - idx * cs). set (to := Z.min (Z.min zt (Z.min (idx * cs + cs) size) - idx * cs) (len (value_bytes v))).
  destruct (Z.leb_spec to from) as [Hle|Hlt].
  - simpl. replace 0 with (len (from_option value_bytes [] (Some v)) - len (value_bytes v)) by (simpl; lia).
    apply zeroes_chunk; try done. intros i Hi Hs. simpl. destruct (Z.leb_spec zf (idx * cs + i)), (Z.ltb_spec (idx * cs + i) zt); try done.
    simpl. apply byte_at_ge. lia.
  - set (buf := trim_trailing_zeroes _).
    assert (len buf <= len (value_bytes v)) as Hbl.
    { unfold buf. etransitivity; [apply len_trim_trailing|]. rewrite len_splice by (rewrite ?len_zeros; lia). lia. }
    assert (forall i, 0 <= i < cs -> idx * cs + i < size -> byte_at buf i =
      if (zf <=? idx * cs + i) && (idx * cs + i <? zt) then 0 else byte_at (value_bytes v) i) as Hbb.
    { intros i Hi Hs. unfold buf. rewrite byte_at_trim_trailing, byte_at_splice, byte_at_zeros, len_zeros by (rewrite ?len_zeros; lia).
      destruct (Z.leb_spec from i), (Z.ltb_spec i (from + Z.max 0 (to - from))), (Z.leb_spec zf (idx * cs + i)), (Z.ltb_spec (idx * cs + i) zt);
        simpl; try done; try lia; [by apply byte_at_ge; lia|symmetry; apply byte_at_ge; lia..]. }
    set (new := if bool_decide (buf = []) then None else Some (VBytes buf)).
    assert (from_option value_bytes [] new = buf) as En by (unfold new; case_bool_decide; [by subst|done]).
    assert (staged_delta (Some (if bool_decide (buf = []) then Delete (KChunk BLOCK_INO idx) else Put (KChunk BLOCK_INO idx) (VBytes buf),
      billed_chunk_bytes size (idx * cs) (len buf) - billed_chunk_bytes size (idx * cs) (len (value_bytes v)))) =
      len (from_option value_bytes [] new) - len (value_bytes v)) as ->.
    { rewrite En. simpl. pose proof (len_nonneg buf). unfold billed_chunk_bytes, saturating_sub. lia. }
    apply zeroes_chunk; try done; rewrite ?En; try done.
    + intros k Hk. simpl. case_bool_decide; simpl; [by apply lookup_delete_ne|by apply lookup_insert_ne].
    + unfold new. simpl. case_bool_decide; simpl; [apply lookup_delete_eq|apply lookup_insert_eq].
Qed.

Lemma zeroes_absent idx zf zt m :
  chunks_fit m cs BLOCK_INO -> chunks_trimmed m cs BLOCK_INO size -> m !! KChunk BLOCK_INO idx = None ->
  zeroes (fun i => i =? idx) zf zt m m 0.
Proof.
  intros Hf Ht Hn. apply (zeroes_ext (fun i => false || (i =? idx))); [done|]. apply zeroes_widen; [by apply zeroes_refl|].
  intros i ->%Z.eqb_eq. by right.
Qed.
End zero.

(** * Running on the volume *)

(** What is claimed of the records a crash may leave. *)
Class Crash : Type := crash_ok : gmap Key Value -> Prop.

Section logic.
Context {DB : SlateDB} {CR : Crash}.
Implicit Types (v : BlockVolume) (H : Prop).

(** What a client of the volume can tell: the records, the geometry, the
    usage and the limits. *)
Record bstate : Type := {
  bs_m : gmap Key Value;
  bs_g : BlockGeometry;
  bs_bytes : i64;
  bs_inodes : i64;
  bs_limits : QuotaLimits
}.

Definition bview v : bstate :=
  {| bs_m := contents (e_db (b_eng v)); bs_g := b_geometry v; bs_bytes := q_bytes (b_quota v);
     bs_inodes := q_inodes (b_quota v); bs_limits := q_limits (b_quota v) |}.

(** No fault is pending and the volume is live. *)
Definition bquiet v : Prop := e_faults (b_eng v) = [] /\ h_dead (b_health v) = false.

(** The claim holds of the records now and of all a crash may leave. *)
Definition safe v : Prop := forall m,
  m = contents (e_db (b_eng v)) \/ db_survives (e_db (b_eng v)) m -> crash_ok m.

(** The volume is in state [s], quiet under [H] and safe. *)
Record at_b H (s : bstate) v : Prop := { ab_view : bview v = s; ab_quiet : H -> bquiet v; ab_safe : safe v }.

Lemma safe_db v v' : e_db (b_eng v') = e_db (b_eng v) -> safe v -> safe v'.
Proof. unfold safe. by intros ->. Qed.

(** The state after a batch that bills [d] more. *)
Definition committed (s : bstate) (b : WriteBatch) (d : Z) : bstate :=
  {| bs_m := apply_batch (bs_m s) b; bs_g := bs_g s; bs_bytes := as_i64 (bs_bytes s + d);
     bs_inodes := bs_inodes s; bs_limits := bs_limits s |}.

Definition usage_ok (s : bstate) : Prop := is_i64 (bs_bytes s) /\ is_i64 (bs_inodes s).

(** The limits refuse a charge of [d]. *)
Definition over_limit (s : bstate) (d : Z) : Prop :=
  0 < d /\ exists now, exceeds_limit (as_i64 (bs_bytes s + d)) (lim_bytes (bs_limits s)) now = true.

Lemma wp_b_storage H s v {A} (m : EM A) P (Q : result (Halt FsError) A -> BlockVolume -> Prop) :
  steady m -> (forall e, e_faults e = [] -> contents (e_db e) = bs_m s -> exists a, m e = (Ok a, e) /\ P a) ->
  at_b H s v -> (forall a v', at_b H s v' -> P a -> Q (Ok a) v') ->
  (forall x v', at_b H s v' -> ~ H -> Q (Err (Raise x)) v') -> wp (b_storage m) Q v.
Proof.
  intros Hst Hm [<- Hq Hsf] Hok Herr. unfold wp, b_storage. destruct (m (b_eng v)) as [r e] eqn:Em.
  destruct (steady_run m (e_db (b_eng v)) P (b_eng v) r e Hst) as (E1 & _ & E3 & E4); [|done|done|].
  { intros s0 Hs0 Hd. apply Hm; [done|]. by rewrite Hd. }
  assert (forall h, (H -> h_dead h = false) -> at_b H (bview v) (b_set_health h (b_set_eng e v))) as Hat.
  { intros h Hh. split; [unfold bview; simpl; by rewrite E1| |by apply (safe_db v)]. intros HH. destruct (Hq HH). split; [by apply E3|by apply Hh]. }
  unfold VolumeHealth.map_storage, VolumeHealth.ensure_live. destruct (h_dead (b_health v)) eqn:Hd.
  { apply Herr; [apply Hat|]; intros HH; destruct (Hq HH); congruence. }
  destruct r as [a|x]; rewrite ?Hd; simpl; [by apply Hok; [apply Hat|]|].
  apply Herr; [apply Hat|]; intros HH; destruct (Hq HH); congruence.
Qed.

Lemma wp_b_get H s v k (Q : result (Halt FsError) (option Value) -> BlockVolume -> Prop) :
  at_b H s v -> (forall v', at_b H s v' -> Q (Ok (bs_m s !! k)) v') ->
  (forall x v', at_b H s v' -> ~ H -> Q (Err (Raise x)) v') -> wp (b_storage (Store.get k)) Q v.
Proof.
  intros Hs Hok Herr. eapply (wp_b_storage H s v _ (fun o => o = bs_m s !! k)); [apply steady_get| |done|by intros a v' Hv ->; apply Hok|done].
  intros e He <-. rewrite get_quiet by done. eauto.
Qed.

Lemma wp_b_flush H s v (Q : result (Halt FsError) unit -> BlockVolume -> Prop) :
  at_b H s v -> (forall v', at_b H s v' -> Q (Ok tt) v') ->
  (forall x v', at_b H s v' -> ~ H -> Q (Err (Raise x)) v') -> wp (b_storage flush) Q v.
Proof.
  intros [<- Hq Hsf] Hok Herr. unfold wp, b_storage, flush, st_bind, poll, st_modify.
  destruct v as [[db fl ck lg] g q h w]; simpl in *. unfold VolumeHealth.map_storage, VolumeHealth.ensure_live.
  assert (forall fl' h', (H -> fl' = [] /\ h_dead h' = false) ->
    at_b H (bview (mkBlock (mkEngine db fl ck lg) g q h w)) (mkBlock (mkEngine (db_flush db) fl' ck lg) g q h' w)) as Hat.
  { intros fl' h' Hh. split; [unfold bview; simpl; by rewrite db_flush_spec|done|]. intros m Hm. apply Hsf. left. simpl in *.
    destruct Hm as [->|Hm]; [apply db_flush_spec|by apply db_flush_survives]. }
  destruct fl as [|[x|] fl]; simpl; destruct (h_dead h) eqn:Hd; simpl; rewrite ?Hd.
  - apply Herr; [apply Hat|]; intros HH; destruct (Hq HH); simpl in *; congruence.
  - apply Hok, Hat. done.
  - apply Herr; [split; [done| |exact Hsf]|]; intros HH; destruct (Hq HH); simpl in *; congruence.
  - apply Herr; [split; [done| |exact Hsf]|]; intros HH; destruct (Hq HH); simpl in *; congruence.
  - apply Herr; [apply Hat|]; intros HH; destruct (Hq HH); simpl in *; congruence.
  - apply Hok, Hat. intros HH; destruct (Hq HH); simpl in *; congruence.
Qed.

Lemma wp_b_live H s v (Q : result (Halt FsError) unit -> BlockVolume -> Prop) :
  at_b H s v -> Q (Ok tt) v -> (forall x, ~ H -> Q (Err (Raise x)) v) -> wp b_ensure_live Q v.
Proof.
  intros [_ Hq _] Hok Herr. unfold wp, b_ensure_live, VolumeHealth.ensure_live. destruct (h_dead (b_health v)) eqn:Hd; simpl; [|done].
  apply Herr. intros HH. destruct (Hq HH). congruence.
Qed.

(** Reading through [map_core] and [?]. *)
Lemma wp_b_core H s v {A} (m : ST Engine Error A) P (Q : result (Halt FsError) A -> BlockVolume -> Prop) :
  steady m -> (forall e, e_faults e = [] -> contents (e_db e) = bs_m s -> exists a, m e = (Ok a, e) /\ P a) ->
  at_b H s v -> (forall a v', at_b H s v' -> P a -> Q (Ok a) v') ->
  (forall x v', at_b H s v' -> ~ H -> Q (Err (Raise x)) v') -> wp (b_core_await m) Q v /\ wp (b_map_core m) Q v.
Proof.
  intros Hst Hm [<- Hq Hsf] Hok Herr. unfold wp, b_core_await, b_map_core. destruct (m (b_eng v)) as [r e] eqn:Em.
  destruct (steady_run m (e_db (b_eng v)) P (b_eng v) r e Hst) as (E1 & _ & E3 & E4); [|done|done|].
  { intros s0 Hs0 Hd. apply Hm; [done|]. by rewrite Hd. }
  assert (forall h, (H -> h_dead h = false) -> at_b H (bview v) (b_set_health h (b_set_eng e v))) as Hat.
  { intros h Hh. split; [unfold bview; simpl; by rewrite E1| |by apply (safe_db v)]. intros HH. destruct (Hq HH). split; [by apply E3|by apply Hh]. }
  assert (at_b H (bview v) (b_set_eng e v)) as Hat'.
  { split; [unfold bview; simpl; by rewrite E1| |by apply (safe_db v)]. intros HH. destruct (Hq HH). split; [by apply E3|done]. }
  split.
  - destruct r as [a|x]; simpl; [by apply Hok|]. apply Herr; [done|]. intros HH. destruct (Hq HH). congruence.
  - unfold VolumeHealth.map_core, VolumeHealth.ensure_live. destruct (h_dead (b_health v)) eqn:Hd.
    { apply Herr; [apply Hat|]; intros HH; destruct (Hq HH); congruence. }
    destruct r as [a|x]; rewrite ?Hd; simpl; [by apply Hok; [apply Hat|]|].
    apply Herr; [apply Hat|]; intros HH; destruct (Hq HH); congruence.
Qed.

Lemma wp_b_reserve H s d v (Q : result (Halt FsError) unit -> BlockVolume -> Prop) :
  at_b H s v -> usage_ok s ->
  (forall v', at_b H {| bs_m := bs_m s; bs_g := bs_g s; bs_bytes := as_i64 (bs_bytes s + d); bs_inodes := bs_inodes s; bs_limits := bs_limits s |} v' ->
     (H -> h_dead (b_health v') = false) -> Q (Ok tt) v') ->
  (forall v', at_b H s v' -> over_limit s d -> Q (Err (Raise QuotaExceeded)) v') -> wp (b_reserve d) Q v.
Proof.
  intros [<- Hq Hsf] [Hb Hi] Hok Herr. unfold wp, b_reserve, st_bind, b_now_unix, clock_now.
  assert (forall e t, e_db e = e_db (b_eng v) -> (H -> e_faults e = []) -> wp (fun v' => let '(r, q) := QuotaTracker.reserve d 0 t (b_quota v') in
    (map_err Raise r, b_set_quota q v')) Q (b_set_eng e v)) as Hres.
  { intros e t He Hf. unfold wp. simpl. destruct (QuotaTracker.reserve d 0 t (b_quota v)) as [[[]|x] q] eqn:Er; simpl.
    - apply reserve_ok in Er as (E1 & E2 & E3 & _). apply Hok.
      + split; [|intros HH; destruct (Hq HH); by split; [apply Hf|]|by apply (safe_db v)]. unfold bview. simpl. rewrite He, E1, E2, E3. f_equal.
        rewrite Z.add_0_r. by apply as_i64_small.
      + intros HH. by destruct (Hq HH).
    - pose proof Er as Er'. apply reserve_err in Er as (-> & E1 & E2 & E3 & _); [|by split]. apply Herr.
      + split; [|intros HH; destruct (Hq HH); by split; [apply Hf|]|by apply (safe_db v)]. unfold bview. simpl. by rewrite He, E1, E2, E3.
      + unfold QuotaTracker.reserve in Er'. destruct (Z.ltb_spec 0 d) as [Hd|]; simpl in Er'; [|done]. split; [done|].
        exists t. simpl. destruct (exceeds_limit _ _ t); [done|simpl in Er'; done]. }
  unfold wp in Hres. destruct (e_clock (b_eng v)) as [|t ts].
  - apply (Hres (b_eng v)); [done|]. intros HH. by destruct (Hq HH).
  - apply (Hres (mkEngine _ _ _ _)); [done|]. intros HH. by destruct (Hq HH).
Qed.

Lemma wp_b_commit H s b d fua v (Q : result (Halt FsError) unit -> BlockVolume -> Prop) :
  at_b H s v -> usage_ok s -> crash_ok (bs_m (committed s b d)) ->
  (forall v', at_b H (committed s b d) v' -> Q (Ok tt) v') ->
  (forall x v', at_b H s v' -> (H -> x = QuotaExceeded /\ over_limit s d) -> Q (Err (Raise x)) v') ->
  (forall x v', at_b H (committed s b d) v' -> ~ H -> Q (Err (Raise x)) v') -> wp (b_commit b d fua) Q v.
Proof.
  intros Hs Hu Hcr Hok Hno Hhalf. unfold b_commit. apply wp_bind. eapply wp_b_live; [done| |by intros x HnH; apply Hno].
  apply wp_bind. eapply wp_b_reserve; [done|done| |by intros v' Hv Ho; apply Hno].
  intros v1 Hv1 Hl1. apply wp_bind. unfold wp at 1, b_write. destruct (Store.write b (b_eng v1)) as [r e] eqn:Ew.
  unfold Store.write, st_bind, poll, st_modify in Ew. destruct Hv1 as [Hview Hq1 Hsf]. destruct (b_eng v1) as [db fl ck lg] eqn:Ee.
  assert (forall fl', (H -> fl' = []) -> at_b H (committed s b d) (b_set_eng (mkEngine (db_write db b) fl' ck (lg ++ [b])) v1)) as Hnew.
  { intros fl' Hfl. unfold bview, committed in *. rewrite Ee in Hview. simpl in *. injection Hview as E1 E2 E3 E4 E5.
    split; [unfold bview; simpl; rewrite db_write_spec; by rewrite E1, E2, E3, E4, E5|intros HH; split; [by apply Hfl|by apply Hl1]|].
    rewrite <- E1, <- db_write_spec in Hcr. intros m [->|[Hm| ->]%db_write_survives]; [done| |done]. apply Hsf. rewrite Ee. by right. }
  assert (forall v2, at_b H (committed s b d) v2 -> wp (st_when fua (b_storage flush)) Q v2) as Hfl.
  { intros v2 Hv2. destruct fua; [|by apply wp_ret, Hok]. by eapply wp_b_flush. }
  simpl in Ew. destruct fl as [|[x|] fl]; injection Ew as <- <-.
  - by apply Hfl, Hnew.
  - apply Hno; [|intros HH; destruct (Hq1 HH) as [Hx _]; rewrite Ee in Hx; done].
    split; [|intros HH; destruct (Hq1 HH) as [Hx _]; rewrite Ee in Hx; done|apply (safe_db v1); [by rewrite Ee|done]].
    unfold bview in *. rewrite Ee in Hview. simpl in *. injection Hview as E1 E2 E3 E4 E5.
    rewrite E1, E2, E3, E4, E5. destruct Hu as [Hb Hi]. destruct s as [sm sg sb si sl]. simpl in *. f_equal; [by apply as_i64_sub_add|].
    rewrite Z.sub_0_r. by apply as_i64_small.
  - apply Hfl, Hnew. intros HH. destruct (Hq1 HH) as [Hx _]. by rewrite Ee in Hx.
Qed.
End logic.

(** * The invariant *)

(** The records of a block volume. *)
Definition block_key (k : Key) : Prop :=
  match k with KSuperblock | KQuotaBytes | KQuotaInodes => True | KChunk i idx => i = BLOCK_INO /\ is_u32 idx | _ => False end.

Record BInv (s : bstate) : Prop := {
  bi_cs : 0 < chunk_size (bs_g s) <= 2 ^ 22;
  bi_size : 0 < g_size_bytes (bs_g s) <= max_size (chunk_size (bs_g s));
  bi_keys k x : bs_m s !! k = Some x -> block_key k;
  bi_super : is_Some (bs_m s !! KSuperblock);
  bi_fit : chunks_fit (bs_m s) (chunk_size (bs_g s)) BLOCK_INO;
  bi_trim : chunks_trimmed (bs_m s) (chunk_size (bs_g s)) BLOCK_INO (g_size_bytes (bs_g s));
  bi_start idx : is_Some (bs_m s !! KChunk BLOCK_INO idx) -> idx * chunk_size (bs_g s) < g_size_bytes (bs_g s);
  bi_qb_ok : counter_ok (bs_m s) KQuotaBytes;
  bi_qb : counter (bs_m s) KQuotaBytes = as_i64 (bill (bs_g s) (bs_m s));
  bi_qi : counter (bs_m s) KQuotaInodes = 1;
  bi_bytes : bs_bytes s = counter (bs_m s) KQuotaBytes;
  bi_inodes : bs_inodes s = counter (bs_m s) KQuotaInodes
}.

Lemma binv_usage s : BInv s -> usage_ok s.
Proof. intros [_ _ _ _ _ _ _ _ _ _ Hb Hi]. split; rewrite ?Hb, ?Hi; apply counter_range. Qed.

(** The operation puts or deletes a chunk of the device. *)
Definition chunk_op (op : BatchOp) : Prop :=
  match op with Put (KChunk i idx) _ | Delete (KChunk i idx) => i = BLOCK_INO /\ is_u32 idx | _ => False end.

Lemma chunk_ops_frame m b k : Forall chunk_op b -> (forall idx, k <> KChunk BLOCK_INO idx) -> apply_batch m b !! k = m !! k.
Proof.
  intros Hb Hk. apply apply_batch_frame. eapply Forall_impl; [exact Hb|]. intros [[] ?|[]|] Hop; try done; simpl in *;
    destruct Hop as [-> _]; naive_solver.
Qed.

Lemma charge_frame m b d k : k <> KQuotaBytes -> apply_batch m (charge b d) !! k = apply_batch m b !! k.
Proof.
  intros Hk. unfold charge. rewrite apply_batch_app. destruct (d =? 0); [done|]. cbn [apply_batch fold_left]. apply merge_frame. congruence.
Qed.

Lemma charge_counter m b d :
  counter_ok m KQuotaBytes -> Forall chunk_op b ->
  counter_ok (apply_batch m (charge b d)) KQuotaBytes /\
  counter (apply_batch m (charge b d)) KQuotaBytes = as_i64 (counter m KQuotaBytes + d).
Proof.
  intros Hok Hb. assert (apply_batch m b !! KQuotaBytes = m !! KQuotaBytes) as E by (by apply chunk_ops_frame).
  assert (counter_ok (apply_batch m b) KQuotaBytes) as Hok' by (unfold counter_ok; by rewrite E).
  assert (counter (apply_batch m b) KQuotaBytes = counter m KQuotaBytes) as Ec by (unfold counter; by rewrite E).
  unfold charge. rewrite apply_batch_app. destruct (Z.eqb_spec d 0) as [->|].
  - cbn [apply_batch fold_left]. split; [done|]. rewrite Z.add_0_r, as_i64_small by apply counter_range. done.
  - cbn [apply_batch fold_left]. destruct (merge_counter _ KQuotaBytes d Hok') as [E1 E2]. split; [done|]. by rewrite E1, Ec.
Qed.

(** The bytes of the device and its bill see only its chunks. *)
Lemma chunks_agree g m m' :
  (forall idx, m' !! KChunk BLOCK_INO idx = m !! KChunk BLOCK_INO idx) ->
  (forall x, bytes_at g m' x = bytes_at g m x) /\ bill g m' = bill g m /\
  (chunks_fit m (chunk_size g) BLOCK_INO -> chunks_fit m' (chunk_size g) BLOCK_INO) /\
  (chunks_trimmed m (chunk_size g) BLOCK_INO (g_size_bytes g) -> chunks_trimmed m' (chunk_size g) BLOCK_INO (g_size_bytes g)).
Proof.
  intros Hag. split_and!.
  - intros x. unfold bytes_at, content, chunk_at. by rewrite Hag.
  - by apply billed_agree.
  - intros Hf idx x. rewrite Hag. apply Hf.
  - intros Ht idx x. rewrite Hag. apply Ht.
Qed.

Lemma apply_chunk_ops_keys m b : (forall k x, m !! k = Some x -> block_key k) -> Forall chunk_op b ->
  forall k x, apply_batch m b !! k = Some x -> block_key k.
Proof.
  intros Hm Hb. revert m Hm. induction Hb as [|op b Hop _ IH]; intros m Hm; [done|]. cbn [apply_batch fold_left]. apply IH.
  destruct op as [[] ?|[]|]; try done; simpl in *; intros k x.
  - intros [[<- _]|[_ Hk]]%lookup_insert_Some; [done|by eapply Hm].
  - intros [_ Hk]%lookup_delete_Some. by eapply Hm.
Qed.

(** A billed batch of chunk updates keeps the invariant. *)
Lemma binv_commit s b d :
  BInv s -> Forall chunk_op b ->
  chunks_fit (apply_batch (bs_m s) b) (chunk_size (bs_g s)) BLOCK_INO ->
  chunks_trimmed (apply_batch (bs_m s) b) (chunk_size (bs_g s)) BLOCK_INO (g_size_bytes (bs_g s)) ->
  (forall idx, is_Some (apply_batch (bs_m s) b !! KChunk BLOCK_INO idx) -> idx * chunk_size (bs_g s) < g_size_bytes (bs_g s)) ->
  bill (bs_g s) (apply_batch (bs_m s) b) = bill (bs_g s) (bs_m s) + d ->
  BInv (committed s (charge b d) d) /\
  forall x, bytes_at (bs_g s) (bs_m (committed s (charge b d) d)) x = bytes_at (bs_g s) (apply_batch (bs_m s) b) x.
Proof.
  intros [C1 C2 C3 C4 C5 C6 C0 C7 C8 C9 C10 C11] Hb Hf Ht Hst Hd. destruct (charge_counter (bs_m s) b d C7 Hb) as [K1 K2].
  assert (forall k, k <> KQuotaBytes -> apply_batch (bs_m s) (charge b d) !! k = apply_batch (bs_m s) b !! k) as Hfr by (intros; by apply charge_frame).
  destruct (chunks_agree (bs_g s) (apply_batch (bs_m s) b) (apply_batch (bs_m s) (charge b d))) as (A1 & A2 & A3 & A4); [intros; by apply Hfr|].
  assert (counter (apply_batch (bs_m s) (charge b d)) KQuotaInodes = counter (bs_m s) KQuotaInodes) as Ei.
  { unfold counter. rewrite Hfr by done. by rewrite (chunk_ops_frame _ b). }
  split; [|exact A1]. unfold committed. split; simpl; try done.
  - intros k x. destruct (decide (k = KQuotaBytes)) as [->|]; [done|]. rewrite Hfr by done. by apply apply_chunk_ops_keys.
  - rewrite Hfr by done. by rewrite (chunk_ops_frame _ b).
  - by apply A3.
  - by apply A4.
  - intros idx. rewrite Hfr by done. apply Hst.
  - by rewrite K2, C8, A2, Hd, as_i64_add_l.
  - by rewrite Ei.
  - by rewrite K2, C10.
  - by rewrite Ei.
Qed.

(** * Staging *)

Section staging.
Context {DB : SlateDB} {CR : Crash} (H : Prop) (s : bstate) (zf zt : Z).
Implicit Types (v : BlockVolume).
#[local] Abbreviation g := (bs_g s).
#[local] Abbreviation m := (bs_m s).

(** A batch that zeroes the range within the chunks [I]. *)
Record zero_batch (I : Z -> bool) (b : WriteBatch) (d : Z) : Prop := {
  zb_ops : Forall chunk_op b;
  zb_zeroes : zeroes g I zf zt m (apply_batch m b) d
}.

Lemma zero_op_chunk idx e op d : is_u32 idx -> zero_chunk g idx zf zt e = Some (op, d) -> chunk_op op.
Proof.
  intros Hu. unfold zero_chunk. destruct (chunk_bounds g idx). repeat case_match; intros; simplify_eq; done.
Qed.

Lemma zero_batch_step I b d idx :
  0 < chunk_size g -> is_u32 idx -> I idx = false -> zero_batch I b d ->
  let o := m !! KChunk BLOCK_INO idx ≫= fun x => zero_chunk g idx zf zt (value_bytes x) in
  zero_batch (fun i => I i || (i =? idx)) (match o with Some (op, _) => b ++ [op] | None => b end) (d + staged_delta o).
Proof.
  intros Hcs Hu HI [Hops Hz]. pose proof (z_fit _ _ _ _ _ _ _ Hz) as Hf. pose proof (z_trim _ _ _ _ _ _ _ Hz) as Ht.
  assert (apply_batch m b !! KChunk BLOCK_INO idx = m !! KChunk BLOCK_INO idx) as E.
  { apply (z_frame _ _ _ _ _ _ _ Hz). intros i Hi [= ->]. congruence. }
  destruct (m !! KChunk BLOCK_INO idx) as [x|] eqn:Hx; simpl.
  - pose proof (zero_chunk_zeroes g Hcs idx zf zt _ x Hf Ht E) as Hs. simpl in Hs.
    destruct (zero_chunk g idx zf zt (value_bytes x)) as [[op dd]|] eqn:Eo; simpl in *.
    + split; [apply Forall_app; split; [done|]; constructor; [by eapply zero_op_chunk|done]|].
      rewrite apply_batch_app. by eapply zeroes_trans.
    + split; [done|]. by eapply zeroes_trans.
  - split; [done|]. eapply zeroes_trans; [done|]. by apply zeroes_absent.
Qed.

Lemma wp_stage v idx b (Q : result (Halt FsError) (option i64 * WriteBatch) -> BlockVolume -> Prop) :
  at_b H s v ->
  (let o := m !! KChunk BLOCK_INO idx ≫= fun x => zero_chunk g idx zf zt (value_bytes x) in
   forall v', at_b H s v' -> Q (Ok (match o with Some (op, d) => (Some d, b ++ [op]) | None => (None, b) end)) v') ->
  (forall x v', at_b H s v' -> ~ H -> Q (Err (Raise x)) v') -> wp (stage_zeroes_for_existing_chunk b idx zf zt) Q v.
Proof.
  intros Hs Hok Herr. unfold stage_zeroes_for_existing_chunk. apply wp_bind. simpl. apply wp_bind.
  assert (b_geometry v = g) as Eg by (destruct Hs as [<- _ _]; done). rewrite Eg.
  eapply wp_b_get; [done| |done]. intros v' Hv'. specialize (Hok v' Hv'). destruct (m !! KChunk BLOCK_INO idx) as [x|]; simpl in *; [|by apply wp_ret].
  destruct (zero_chunk _ _ _ _ _) as [[op d]|]; by apply wp_ret.
Qed.

Lemma wp_stage_all idxs : forall I b d v (Q : result (Halt FsError) (WriteBatch * i64 * usize) -> BlockVolume -> Prop),
  0 < chunk_size g -> at_b H s v -> zero_batch I b d -> NoDup idxs -> (forall idx, idx ∈ idxs -> is_u32 idx /\ I idx = false) ->
  (forall b' d' v', at_b H s v' -> zero_batch (fun i => I i || bool_decide (i ∈ idxs)) b' d' -> Q (Ok (b', d', len b')) v') ->
  (forall x v', at_b H s v' -> ~ H -> Q (Err (Raise x)) v') -> wp (stage_all idxs zf zt (b, d, len b)) Q v.
Proof.
  induction idxs as [|idx idxs IH]; intros I b d v Q Hcs Hs Hb Hnd Hidx Hok Herr; cbn [stage_all].
  - apply wp_ret. apply Hok; [done|]. destruct Hb as [H1 H2]. split; [done|]. eapply zeroes_ext; [|exact H2].
    intros i. simpl. by rewrite orb_false_r.
  - apply NoDup_cons in Hnd as [Hni Hnd]. destruct (Hidx idx) as [Hu HI]; [set_solver|].
    pose proof (zero_batch_step I b d idx Hcs Hu HI Hb) as Hb'. cbv zeta in Hb'.
    apply wp_bind. eapply wp_stage; [done| |done]. intros o v1 Hv1. fold o in Hb'.
    assert (forall i, (I i || (i =? idx)) || bool_decide (i ∈ idxs) = I i || bool_decide (i ∈ idx :: idxs)) as Ei.
    { intros i. rewrite <- orb_assoc. f_equal. destruct (Z.eqb_spec i idx) as [->|]; simpl.
      - by rewrite bool_decide_eq_true_2 by set_solver.
      - apply bool_decide_ext. set_solver. }
    assert (forall b1 d1, zero_batch (fun i => I i || (i =? idx)) b1 d1 -> wp (stage_all idxs zf zt (b1, d1, len b1)) Q v1) as Hrest.
    { intros b1 d1 Hb1. eapply IH; try done.
      - intros j Hj. destruct (Hidx j) as [Hju HjI]; [set_solver|]. split; [done|]. rewrite HjI. simpl. apply Z.eqb_neq. intros ->. done.
      - intros b' d' v' Hv' [Hz1 Hz2]. apply Hok; [done|]. split; [done|]. eapply zeroes_ext; [exact Ei|exact Hz2]. }
    destruct o as [[op dd]|]; simpl in Hb'.
    + replace (len b + 1) with (len (b ++ [op])) by (rewrite len_app; done). by apply Hrest.
    + rewrite Z.add_0_r in Hb'. by apply Hrest.
Qed.
End staging.

(** * The operations *)

(** The bytes of the device in a state. *)
Definition dev (s : bstate) (x : Z) : u8 := bytes_at (bs_g s) (bs_m s) x.

Section ops.
Context {DB : SlateDB} (others : nat -> BlockVolume -> BlockVolume).
Implicit Types (v : BlockVolume) (H : Prop).

(** What the other tasks keep: the invariant, the geometry and the superblock,
    and a volume that is quiet stays so. *)
Definition brely : Prop := forall n v,
  BInv (bview v) -> BInv (bview (others n v)) /\ b_geometry (others n v) = b_geometry v /\ (bquiet v -> bquiet (others n v)) /\
    bs_m (bview (others n v)) !! KSuperblock = bs_m (bview v) !! KSuperblock.

(** The volume when the call holds its locks. *)
Definition locked v : BlockVolume :=
  others (b_waits v) (mkBlock (b_eng v) (b_geometry v) (b_quota v) (b_health v) (S (b_waits v))).

(** They keep what is claimed of a crash. *)
Definition crely {CR : Crash} : Prop := forall n v, BInv (bview v) -> safe v -> safe (others n v).

Hypothesis Hrely : brely.

Lemma locked_ok v : BInv (bview v) ->
  BInv (bview (locked v)) /\ bs_g (bview (locked v)) = b_geometry v /\ (bquiet v -> bquiet (locked v)) /\
  bs_m (bview (locked v)) !! KSuperblock = bs_m (bview v) !! KSuperblock.
Proof. intros Hi. apply (Hrely (b_waits v) (mkBlock (b_eng v) (b_geometry v) (b_quota v) (b_health v) (S (b_waits v))) Hi). Qed.

Lemma extent_end_spec s off n : BInv s -> is_u64 off -> is_u64 n ->
  extent_end (bs_g s) off n = if off + n <=? g_size_bytes (bs_g s) then Ok (off + n) else Err Invalid.
Proof.
  intros Hi Hoff Hn. destruct (bi_cs _ Hi), (bi_size _ Hi). unfold extent_end, checked_add_u64, max_size, is_u64, U64_MAX in *.
  destruct (Z.leb_spec (off + n) (g_size_bytes (bs_g s))).
  - rewrite (proj2 (Z.leb_le _ _)) by nia. rewrite (proj2 (Z.ltb_ge _ _)), (proj2 (Z.ltb_ge _ _)) by lia. done.
  - destruct (off + n <=? _); [|done]. rewrite (proj2 (Z.ltb_lt _ (off + n))), orb_true_r by lia. done.
Qed.

Lemma chunk_range_spec s off n : BInv s -> is_u64 off -> is_u64 n ->
  chunk_range (bs_g s) off n =
    if off + n <=? g_size_bytes (bs_g s) then
      if n =? 0 then Ok None else Ok (Some (off / chunk_size (bs_g s), (off + n - 1) / chunk_size (bs_g s)))
    else Err Invalid.
Proof.
  intros Hi Hoff Hn. unfold chunk_range. rewrite (extent_end_spec s) by done. destruct (Z.leb_spec (off + n) (g_size_bytes (bs_g s))); [|done].
  destruct (Z.eqb_spec n 0); [done|]. destruct (bi_cs _ Hi), (bi_size _ Hi). unfold is_u64 in *.
  by rewrite !chunk_of_small by lia.
Qed.

(** The chunks of a range are addressable. *)
Lemma range_u32 s off n idx : BInv s -> 0 <= off -> 0 < n -> off + n <= g_size_bytes (bs_g s) ->
  off / chunk_size (bs_g s) <= idx <= (off + n - 1) / chunk_size (bs_g s) -> is_u32 idx.
Proof.
  intros Hi Hoff Hn Hle Hidx. destruct (bi_cs _ Hi) as [Hc _], (bi_size _ Hi) as [_ Hs]. unfold max_size in Hs. unfold is_u32.
  pose proof (Z.div_pos off _ Hoff Hc). split; [lia|]. enough ((off + n - 1) / chunk_size (bs_g s) < 2 ^ 32) by lia.
  apply Z.div_lt_upper_bound; lia.
Qed.

(** The start of every call that takes locks. *)
Lemma wp_prologue {CR : Crash} H v off n {A} (body : BlockVolume -> option (u32 * u32) -> BM A) Q :
  at_b H (bview v) v -> BInv (bview v) -> is_u64 off -> is_u64 n ->
  (g_size_bytes (b_geometry v) < off + n -> Q (Err (Raise Invalid)) v) -> (forall x, ~ H -> Q (Err (Raise x)) v) ->
  (off + n <= g_size_bytes (b_geometry v) ->
     wp (body v (if n =? 0 then None else Some (off / chunk_size (b_geometry v), (off + n - 1) / chunk_size (b_geometry v)))) Q v) ->
  wp (b_ensure_live ;;; v <- st_get ;; r <- b_guard (chunk_range (b_geometry v) off n) ;; body v r) Q v.
Proof.
  intros Hs Hi Hoff Hn Hinv Herr Hbody. apply wp_bind. eapply wp_b_live; [done| |done]. apply wp_bind. simpl. apply wp_bind, wp_lift.
  change (b_geometry v) with (bs_g (bview v)). rewrite chunk_range_spec by done. simpl.
  destruct (Z.leb_spec (off + n) (g_size_bytes (b_geometry v))); simpl; [|by apply Hinv].
  destruct (n =? 0); by apply Hbody.
Qed.

Lemma wp_wait {CR : Crash} H v (Q : result (Halt FsError) unit -> BlockVolume -> Prop) :
  crely -> at_b H (bview v) v -> BInv (bview v) ->
  (BInv (bview (locked v)) -> bs_g (bview (locked v)) = b_geometry v -> at_b H (bview (locked v)) (locked v) -> Q (Ok tt) (locked v)) ->
  wp (b_lock_wait others) Q v.
Proof.
  intros Hcr [_ Hq Hsf] Hi HQ. destruct (locked_ok v Hi) as (H1 & H2 & H3 & _). unfold wp, b_lock_wait. apply HQ; [done|done|]. split; [done|auto|].
  by apply Hcr.
Qed.
End ops.
