(* ===== verification/BlockOps.v ===== *)
(** The operations of a block volume: what [read], [write], [trim] and
    [write_zeroes] do to the bytes of the device, through storage faults and
    whatever other tasks do while a call waits for its locks. *)

From S2P Require Import Prelude Keys Meta Store Data Quota Locks Volume Wf VfsLogic Reap Fsck Block BlockThm.

Section block_ops.
Context {DB : SlateDB} {CR : Crash} (others : nat -> BlockVolume -> BlockVolume).
Implicit Types (v : BlockVolume) (H : Prop) (s : bstate).

(** What no call changes: the limits and the superblock. *)
Definition same_volume s s' : Prop := bs_limits s' = bs_limits s /\ bs_m s' !! KSuperblock = bs_m s !! KSuperblock.

(** How a call ends: the invariant holds and the device, as it was at the
    start or when the locks were granted, changed as [F] says, or not at all if
    the call failed. *)
Definition effect v (r : result (Halt FsError) unit) v' (F : bstate -> Z -> u8) : Prop :=
  BInv (bview v') /\ b_geometry v' = b_geometry v /\ (bquiet v -> bquiet v') /\
  exists s, (s = bview v \/ s = bview (locked others v)) /\ same_volume s (bview v') /\
    ((forall x, dev (bview v') x = F s x) \/ (is_ok r = false /\ forall x, dev (bview v') x = dev s x)).

(** On a quiet volume a call within the device succeeds, one beyond it is
    refused. *)
Definition answers v (r : result (Halt FsError) unit) off n : Prop :=
  bquiet v -> r = if off + n <=? g_size_bytes (b_geometry v) then Ok tt else Err (Raise Invalid).

Definition zeroed off n s (x : Z) : u8 := if (off <=? x) && (x <? off + n) then 0 else dev s x.

Lemma at_b_geometry H s v : at_b H s v -> b_geometry v = bs_g s.
Proof. by intros [<- _ _]. Qed.

Lemma at_b_ok H s v : at_b H s v -> crash_ok (bs_m s).
Proof. intros [<- _ Hs]. apply Hs. by left. Qed.

(** What is claimed of a crash of a device [g] holds again after a commit that
    changes only the bytes of the range. *)
Definition stable g off n : Prop := forall s s', bs_g s = g -> BInv s -> BInv s' -> bs_g s' = g -> same_volume s s' ->
  (forall x, ~ off <= x < off + n -> dev s' x = dev s x) -> crash_ok (bs_m s) -> crash_ok (bs_m s').

Lemma zeroed_outside off n s x : ~ off <= x < off + n -> zeroed off n s x = dev s x.
Proof. intros Hx. unfold zeroed. destruct (Z.leb_spec off x), (Z.ltb_spec x (off + n)); try done; lia. Qed.

Lemma effect_none v r v' F : BInv (bview v) -> at_b (bquiet v) (bview v) v' -> is_ok r = false -> effect v r v' F.
Proof.
  intros Hi [E Hq _] Hr. split; [by rewrite E|]. split; [change (bs_g (bview v') = bs_g (bview v)); by rewrite E|]. split; [done|].
  exists (bview v). split; [by left|]. split; [by rewrite E|]. right. split; [done|]. by rewrite E.
Qed.

Lemma effect_same v r v' F : BInv (bview v) -> at_b (bquiet v) (bview v) v' -> (forall x, F (bview v) x = dev (bview v) x) -> effect v r v' F.
Proof.
  intros Hi [E Hq _] HF. split; [by rewrite E|]. split; [change (bs_g (bview v') = bs_g (bview v)); by rewrite E|]. split; [done|].
  exists (bview v). split; [by left|]. split; [by rewrite E|]. left. intros x. by rewrite E, HF.
Qed.

(** A finished batch. *)
Lemma effect_at v r v' s F :
  s = bview (locked others v) -> bs_g s = b_geometry v -> BInv s -> at_b (bquiet v) s v' ->
  (forall x, F s x = dev s x) \/ is_ok r = false -> effect v r v' F.
Proof.
  intros Es Eg Hi [Hv Hq _] HF. split; [by rewrite Hv|]. split.
  { change (bs_g (bview v') = b_geometry v). by rewrite Hv. }
  split; [done|]. exists s. split; [by right|]. split; [by rewrite Hv|].
  destruct HF as [HF|Hr]; [left|right]; [intros x; by rewrite Hv, HF|]. split; [done|]. by rewrite Hv.
Qed.

Lemma effect_commit v r v' s b d F :
  s = bview (locked others v) -> bs_g s = b_geometry v -> BInv (committed s b d) -> at_b (bquiet v) (committed s b d) v' ->
  same_volume s (committed s b d) -> (forall x, dev (committed s b d) x = F s x) -> effect v r v' F.
Proof.
  intros Es Eg Hi [Hv Hq _] Hsv HF. split; [by rewrite Hv|]. split.
  { change (bs_g (bview v') = b_geometry v). by rewrite Hv. }
  split; [done|]. exists s. split; [by right|]. split; [by rewrite Hv|]. left. intros x. by rewrite Hv, HF.
Qed.

Lemma commit_same s b d : Forall chunk_op b -> same_volume s (committed s (charge b d) d).
Proof. intros Hb. split; [done|]. simpl. rewrite charge_frame by done. by apply chunk_ops_frame. Qed.

(** ** Zeroing in one batch *)

Lemma zero_batch_commit s off n I b d :
  BInv s -> 0 <= off -> 0 < n -> zero_batch s off (off + n) I b d ->
  (forall i, off / chunk_size (bs_g s) <= i <= (off + n - 1) / chunk_size (bs_g s) -> I i = true) ->
  BInv (committed s (charge b d) d) /\ same_volume s (committed s (charge b d) d) /\ forall x, dev (committed s (charge b d) d) x = zeroed off n s x.
Proof.
  intros Hi Hoff Hn [Hops [Z1 Z2 Z3 Z4 Z5 Z6 Z7 Z8]] HI. destruct (binv_commit s b d Hi Hops Z1 Z2 (fun i Hx => bi_start _ Hi i (Z8 i Hx)) Z5) as [Hi' Hb].
  split; [done|]. split; [by apply commit_same|]. intros x. unfold dev at 1. change (bs_g (committed s (charge b d) d)) with (bs_g s). rewrite Hb. unfold zeroed.
  destruct (Z.leb_spec off x), (Z.ltb_spec x (off + n)); simpl; try (apply Z4; right; lia).
  apply Z3; [|lia]. apply HI. destruct (bi_cs _ Hi) as [Hc _]. split; apply Z.div_le_mono; lia.
Qed.

Lemma zero_batch_nil s zf zt : BInv s -> zero_batch s zf zt (fun _ => false) [] 0.
Proof. intros Hi. split; [done|]. apply zeroes_refl; apply Hi. Qed.

Lemma elem_of_range first last i : i ∈ range_incl first last <-> first <= i <= last.
Proof. unfold range_incl. rewrite elem_of_seqZ. lia. Qed.

Lemma range_nodup first last : NoDup (range_incl first last).
Proof. apply NoDup_seqZ. Qed.

Hypothesis Hrely : brely others.
Hypothesis Hcrely : crely others.

#[local] Hint Resolve ab_safe : core.

Lemma write_zeroes_runs v off n fua :
  BInv (bview v) -> is_u64 off -> is_u64 n -> safe v -> stable (b_geometry v) off n ->
  wp (block_write_zeroes others off n fua) (fun r v' => safe v' /\ effect v r v' (zeroed off n) /\ answers v r off n) v.
Proof.
  intros Hi Hoff Hn Hsf Hst. set (H := bquiet v). assert (at_b H (bview v) v) as Hs by (by split).
  unfold block_write_zeroes. apply (wp_prologue H); try done.
  { intros Hlt. split; [by eauto|]; split; [by apply effect_none|]. intros _. rewrite (proj2 (Z.leb_gt _ _)) by lia. done. }
  { intros x HnH. split; [by eauto|]; split; [by apply effect_none|]. by intros Hq. }
  intros Hle. assert (answers v (Ok tt) off n) as Hans by (intros _; rewrite (proj2 (Z.leb_le _ _)) by lia; done).
  destruct (Z.eqb_spec n 0) as [->|Hn0].
  - assert (forall x, zeroed off 0 (bview v) x = dev (bview v) x) as Hz.
    { intros x. unfold zeroed. destruct (Z.leb_spec off x), (Z.ltb_spec x (off + 0)); try done; lia. }
    destruct fua; simpl; [|apply wp_ret; split; [by eauto|]; split; [by apply effect_same|done]].
    eapply wp_b_flush; [done|intros v' Hv'; split; [by eauto|]; split; [by apply effect_same|done]|].
    intros x v' Hv' HnH. split; [by eauto|]; split; [by apply effect_none|by intros Hq].
  - unfold is_u64 in *. apply wp_bind. eapply (wp_wait others Hrely H); [done..|]. intros Hi1 Hg1 Hs1. set (s := bview (locked others v)) in *.
    rewrite <- Hg1. apply wp_bind. change 0 with (len (@nil BatchOp)) at 2.
    eapply (wp_stage_all H s off (off + n) _ (fun _ => false) [] 0); [apply Hi1|done|by apply zero_batch_nil|apply range_nodup|..].
    + intros idx Hidx%elem_of_range. split; [|done]. eapply (range_u32 s off n); try done; try lia. by rewrite Hg1.
    + intros b d v2 Hs2 Hb. simpl.
      pose proof (fun Ho Hn => zero_batch_commit s off n _ b d Hi1 Ho Hn Hb) as Hzb.
      destruct Hzb as (Hi2 & Hsv & Hz); [lia|lia|intros i Hr; rewrite orb_false_l; by apply bool_decide_eq_true_2, elem_of_range|].
      destruct (Z.eqb_spec (len b) 0) as [E|_].
      * apply len_0_nil in E. subst b.
        assert (forall x, zeroed off n s x = dev s x) as Hz'.
        { intros x. rewrite <- Hz. unfold dev at 1. destruct (chunks_agree (bs_g s) (bs_m s) (bs_m (committed s (charge [] d) d))) as (E1 & _); [|apply E1].
          intros idx. unfold committed. simpl. by rewrite charge_frame. }
        destruct fua; simpl; [|apply wp_ret; split; [by eauto|]; split; [by eapply effect_at; eauto|done]].
        eapply wp_b_flush; [done|intros v' Hv'; split; [by eauto|]; split; [by eapply effect_at; eauto|done]|].
        intros x v' Hv' HnH. split; [by eauto|]; split; [by eapply effect_at; eauto|by intros Hq].
      * eapply wp_b_commit; [done|by apply binv_usage|..].
        -- eapply (Hst s); try done; [|by eapply at_b_ok]. intros x Hx. by rewrite Hz, zeroed_outside.
        -- intros v' Hv'. split; [by eauto|]; split; [by eapply effect_commit|done].
        -- intros x v' Hv' Hx. split; [by eauto|]; split; [by eapply effect_at; eauto|]. intros Hq. destruct (Hx Hq) as (_ & Hd & _).
           pose proof (z_free _ _ _ _ _ _ _ (zb_zeroes _ _ _ _ _ _ Hb)). lia.
        -- intros x v' Hv' HnH. split; [by eauto|]; split; [by eapply effect_commit|by intros Hq].
    + intros x v2 Hs2 HnH. split; [by eauto|]; split; [by eapply effect_at; eauto|by intros Hq].
Qed.

(** ** Writing *)

Definition overwritten off (data : bytes) s (x : Z) : u8 :=
  if (off <=? x) && (x <? off + len data) then byte_at data (x - off) else dev s x.

Lemma write_batch m puts : apply_batch m (map (fun p => Put (KChunk BLOCK_INO p.1) (VBytes p.2)) puts) = put_chunks BLOCK_INO puts m.
Proof. unfold apply_batch, put_chunks. revert m. induction puts as [|p puts IH]; intros m; [done|]. simpl. by rewrite IH. Qed.

Lemma write_plan_commit s off data plan :
  BInv s -> 0 <= off -> off + len data <= g_size_bytes (bs_g s) ->
  write_planned (bs_m s) (chunk_size (bs_g s)) BLOCK_INO (g_size_bytes (bs_g s)) off data plan ->
  let b := map (fun p => Put (KChunk BLOCK_INO p.1) (VBytes p.2)) (wp_puts plan) in
  let s' := committed s (charge b (wp_billed_delta plan)) (wp_billed_delta plan) in
  BInv s' /\ same_volume s s' /\ forall x, dev s' x = overwritten off data s x.
Proof.
  intros Hi Hoff Hle [W1 W2 W3 W4 W5 W6 W7 W8] b s'. rewrite W1, Z.max_l in * by lia.
  assert (Forall chunk_op b) as Hops.
  { apply Forall_forall. intros op (p & <- & Hp)%list_elem_of_In%in_map_iff. split; [done|]. by apply W7, list_elem_of_In. }
  destruct (binv_commit s b (wp_billed_delta plan) Hi Hops) as [Hi' Hb]; unfold b; rewrite ?write_batch; try done.
  { intros i Hx. destruct (decide (i ∈ (wp_puts plan).*1)) as [(p & -> & Hp)%list_elem_of_fmap|Hni]; [specialize (W8 _ Hp); lia|].
    rewrite put_chunks_lookup_ne in Hx; [by apply Hi|]. intros j [= <-]. done. }
  split; [done|]. split; [by apply commit_same|]. intros x. change (dev s' x) with (bytes_at (bs_g s) (bs_m s') x). unfold s'. rewrite Hb. unfold b. rewrite write_batch. apply W4.
Qed.

Lemma overwritten_outside off data s x : ~ off <= x < off + len data -> overwritten off data s x = dev s x.
Proof. intros Hx. unfold overwritten. destruct (Z.leb_spec off x), (Z.ltb_spec x (off + len data)); try done; lia. Qed.

Lemma write_runs v off data fua :
  BInv (bview v) -> is_u64 off -> is_u64 (len data) -> safe v -> stable (b_geometry v) off (len data) ->
  wp (block_write others off data fua) (fun r v' => safe v' /\ effect v r v' (overwritten off data) /\
    (bquiet v -> if off + len data <=? g_size_bytes (b_geometry v)
                 then r = Ok tt \/ (r = Err (Raise QuotaExceeded) /\ exists d, over_limit (bview (locked others v)) d)
                 else r = Err (Raise Invalid))) v.
Proof.
  intros Hi Hoff Hn Hsf Hst. set (H := bquiet v). assert (at_b H (bview v) v) as Hs by (by split).
  unfold block_write. apply (wp_prologue H); try done.
  { intros Hlt. split; [by eauto|]; split; [by apply effect_none|]. intros _. by rewrite (proj2 (Z.leb_gt _ _)) by lia. }
  { intros x HnH. split; [by eauto|]; split; [by apply effect_none|]. by intros Hq. }
  intros Hle. rewrite (proj2 (Z.leb_le _ _)) by done. destruct (Z.eqb_spec (len data) 0) as [E0|Hn0].
  - assert (forall x, overwritten off data (bview v) x = dev (bview v) x) as Hz.
    { intros x. unfold overwritten. destruct (Z.leb_spec off x), (Z.ltb_spec x (off + len data)); try done; lia. }
    destruct fua; simpl; [|apply wp_ret; split; [by eauto|]; split; [by apply effect_same|by left]].
    eapply wp_b_flush; [done|intros v' Hv'; split; [by eauto|]; split; [by apply effect_same|by left]|].
    intros x v' Hv' HnH. split; [by eauto|]; split; [by apply effect_none|by intros Hq].
  - unfold is_u64 in *. apply wp_bind. eapply (wp_wait others Hrely H); [done..|]. intros Hi1 Hg1 Hs1. set (s := bview (locked others v)) in *.
    rewrite <- Hg1 in *. apply wp_bind. destruct (bi_cs _ Hi1) as [Hc _], (bi_size _ Hi1) as [_ Hsz].
    eapply (wp_b_core H s _ _ (write_planned (bs_m s) (chunk_size (bs_g s)) BLOCK_INO (g_size_bytes (bs_g s)) off data));
      [apply steady_plan_write| |done| |].
    + intros e He Hm. rewrite <- Hm. apply plan_write_quiet; rewrite ?Hm; try done; try lia; [by intros ->|apply Hi1..].
    + intros plan v2 Hs2 Hp. destruct (write_plan_commit s off data plan Hi1 ltac:(lia) Hle Hp) as (Hi2 & Hsv & Hz).
      eapply wp_b_commit; [done|by apply binv_usage|..].
      * eapply (Hst s); try done; [|by eapply at_b_ok]. intros x Hx. by rewrite Hz, overwritten_outside.
      * intros v' Hv'. split; [by eauto|]; split; [by eapply effect_commit|by left].
      * intros x v' Hv' Hx. split; [by eauto|]; split; [by eapply effect_at; eauto|]. intros Hq. destruct (Hx Hq) as [-> Ho]. right. split; [done|]. eauto.
      * intros x v' Hv' HnH. split; [by eauto|]; split; [by eapply effect_commit|by intros Hq].
    + intros x v2 Hs2 HnH. split; [by eauto|]; split; [by eapply effect_at; eauto|by intros Hq].
Qed.

(** ** Reading *)

Lemma read_runs v off n :
  BInv (bview v) -> is_u64 off -> is_u32 n -> safe v ->
  wp (block_read off n) (fun r v' => at_b (bquiet v) (bview v) v' /\
    match r with
    | Ok out => len out = n /\ forall i, 0 <= i < n -> byte_at out i = dev (bview v) (off + i)
    | Err h => bquiet v -> h = Raise Invalid
    end /\ (bquiet v -> is_ok r = (off + n <=? g_size_bytes (b_geometry v)))) v.
Proof.
  intros Hi Hoff Hn Hsf. set (H := bquiet v). assert (at_b H (bview v) v) as Hs by (by split). unfold block_read.
  assert (is_u64 n) as Hn' by (unfold is_u32, is_u64 in *; lia).
  apply wp_bind. eapply wp_b_live; [done| |intros x HnH; split_and!; done]. apply wp_bind. simpl. apply wp_bind, wp_lift.
  change (b_geometry v) with (bs_g (bview v)). rewrite extent_end_spec by done.
  destruct (Z.leb_spec (off + n) (g_size_bytes (bs_g (bview v)))) as [Hle|Hgt]; simpl; [|done].
  destruct (bi_cs _ Hi) as [Hc Hc'], (bi_size _ Hi) as [_ Hsz]. change (b_geometry v) with (bs_g (bview v)).
  eapply (wp_b_core H (bview v) v _ (fun out => len out = n /\ forall i, 0 <= i < n -> byte_at out i = dev (bview v) (off + i)));
    [apply steady_read_range| |done| |].
  - intros e He Hm. destruct (read_range_quiet (chunk_size (bs_g (bview v))) BLOCK_INO (g_size_bytes (bs_g (bview v))) off n e) as (out & Ho & Hlen & Hb);
      try done; unfold is_u32, is_u64 in *; try lia.
    { rewrite Hm. apply Hi. }
    { unfold max_size, U64_MAX in *. lia. }
    exists out. split; [done|]. replace (Z.max 0 _) with n in Hlen by lia. rewrite Hlen in Hb. rewrite Hm in Hb. by split.
  - intros out v' Hv' [H1 H2]. done.
  - intros x v' Hv' HnH. done.
Qed.
End block_ops.

(** ** With nothing claimed of a crash *)

Section effects.
Context {DB : SlateDB} (others : nat -> BlockVolume -> BlockVolume).
Implicit Types (v : BlockVolume).
Hypothesis Hrely : brely others.

Definition any_crash : Crash := fun _ => True.
#[local] Existing Instance any_crash.

Lemma safe_any v : safe v.
Proof. done. Qed.

Lemma write_zeroes_effect v off n fua :
  BInv (bview v) -> is_u64 off -> is_u64 n ->
  wp (block_write_zeroes others off n fua) (fun r v' => effect others v r v' (zeroed off n) /\ answers v r off n) v.
Proof. intros. eapply wp_mono; [by apply (write_zeroes_runs others)|]. by intros r v' [_ ?]. Qed.

Lemma write_effect v off data fua :
  BInv (bview v) -> is_u64 off -> is_u64 (len data) ->
  wp (block_write others off data fua) (fun r v' => effect others v r v' (overwritten off data) /\
    (bquiet v -> if off + len data <=? g_size_bytes (b_geometry v)
                 then r = Ok tt \/ (r = Err (Raise QuotaExceeded) /\ exists d, over_limit (bview (locked others v)) d)
                 else r = Err (Raise Invalid))) v.
Proof. intros. eapply wp_mono; [by apply (write_runs others)|]. by intros r v' [_ ?]. Qed.

Lemma read_effect v off n :
  BInv (bview v) -> is_u64 off -> is_u32 n ->
  wp (block_read off n) (fun r v' => at_b (bquiet v) (bview v) v' /\
    match r with
    | Ok out => len out = n /\ forall i, 0 <= i < n -> byte_at out i = dev (bview v) (off + i)
    | Err h => bquiet v -> h = Raise Invalid
    end /\ (bquiet v -> is_ok r = (off + n <=? g_size_bytes (b_geometry v)))) v.
Proof. intros. by apply read_runs. Qed.
End effects.
