(* ===== verification/BlockTrim.v ===== *)
(** [BlockVolume::trim]: the loop that deletes the chunks a trim covers whole,
    at most [BATCH] of them per commit, terminates and leaves zeroes. *)

From S2P Require Import Prelude Keys Meta Store Data Quota Locks Volume Wf VfsLogic Reap Fsck Block BlockThm BlockOps.

(** ** One scan *)

Lemma chunk_key_le a b : is_u32 a -> is_u32 b -> bytes_leb (keys.chunk BLOCK_INO a) (keys.chunk BLOCK_INO b) = true -> a <= b.
Proof.
  intros Ha Hb. assert (is_u64 BLOCK_INO) by (unfold is_u64, BLOCK_INO; lia).
  key_unfold. key_cmp. rewrite Z.compare_refl. destruct (Z.compare_spec a b); [lia|lia|done].
Qed.

Definition deletes (L : list u32) : WriteBatch := (fun i => Delete (KChunk BLOCK_INO i)) <$> L.

Section scanning.
Context {DB : SlateDB} (s : bstate) (zf zt sl : Z).
#[local] Abbreviation g := (bs_g s).
#[local] Abbreviation m := (bs_m s).
Hypothesis Hcs : 0 < chunk_size g.

(** A record of the scan: a chunk of the device, and one the batch left alone if it is to be deleted. *)
Definition scanned_chunk (I : Z -> bool) (kv : Key * Value) : Prop :=
  exists i, kv.1 = KChunk BLOCK_INO i /\ is_u32 i /\ m !! kv.1 = Some kv.2 /\
    (i <= sl -> I i = false /\ chunk_fully_covered g i zf zt = true).

Lemma deletes_cons (b : WriteBatch) i L : (b ++ [Delete (KChunk BLOCK_INO i)]) ++ deletes L = b ++ deletes (i :: L).
Proof. by rewrite <- app_assoc. Qed.

Lemma zero_batch_delete I b d i x :
  zero_batch s zf zt I b d -> is_u32 i -> I i = false -> m !! KChunk BLOCK_INO i = Some x -> chunk_fully_covered g i zf zt = true ->
  zero_batch s zf zt (fun j => I j || (j =? i)) (b ++ [Delete (KChunk BLOCK_INO i)])
    (d - billed_chunk_bytes (g_size_bytes g) (i * chunk_size g) (len (value_bytes x))).
Proof.
  intros [Hops Hz] Hu HI Hx Hcov. split; [apply Forall_app; split; [done|]; constructor; [done|constructor]|].
  rewrite apply_batch_app. eapply zeroes_trans; [done|]. apply zeroes_delete; [done|apply Hz..| |done].
  rewrite (z_frame _ _ _ _ _ _ _ Hz); [done|]. intros j Hj [= ->]. congruence.
Qed.

Lemma iter_val_cons {A} (f : A -> Key * Value -> A + A) acc kv it :
  iter_val f acc (kv :: it) = match f acc kv with inl a => a | inr a => iter_val f a it end.
Proof. done. Qed.

Lemma trim_step_chunk b d n k i x : is_u32 i ->
  trim_step g sl (b, d, n, k) (KChunk BLOCK_INO i, x) =
    if sl <? i then inl (b, d, n, k)
    else let acc := (b ++ [Delete (KChunk BLOCK_INO i)],
                     d - billed_chunk_bytes (g_size_bytes g) (i * chunk_size g) (len (value_bytes x)), n + 1, k + 1) in
         if k + 1 =? BATCH then inl acc else inr acc.
Proof.
  intros Hu. unfold trim_step. cbn [fst snd]. by rewrite parse_chunk_ok by (split; [unfold is_u64, BLOCK_INO; lia|done]).
Qed.

Lemma trim_scan_val it : forall I b d n,
  zero_batch s zf zt I b d -> Forall (scanned_chunk I) it -> NoDup it.*1 -> StronglySorted key_le it -> 0 <= n < BATCH ->
  exists L d', iter_val (trim_step g sl) (b, d, len b, n) it = (b ++ deletes L, d', len (b ++ deletes L), n + len L) /\
    zero_batch s zf zt (fun i => I i || bool_decide (i ∈ L)) (b ++ deletes L) d' /\
    (forall i, i ∈ L -> i <= sl /\ exists x, (KChunk BLOCK_INO i, x) ∈ it) /\
    (n + len L < BATCH -> forall i x, (KChunk BLOCK_INO i, x) ∈ it -> i <= sl -> i ∈ L).
Proof.
  induction it as [|[k x] it IH]; intros I b d n Hb Hit Hnd Hso Hn.
  - exists [], d. unfold deletes. simpl. rewrite app_nil_r, Z.add_0_r. split_and!; [done| |set_solver|set_solver].
    destruct Hb as [Hops Hz]. split; [done|]. eapply zeroes_ext; [|exact Hz]. intros i. by rewrite orb_false_r.
  - apply Forall_cons in Hit as [(i & Hk & Hu & Hx & Hcov) Hit]. simpl in Hk, Hx. subst k.
    apply NoDup_cons in Hnd as [Hni Hnd]. apply StronglySorted_inv in Hso as [Hso Hle].
    rewrite iter_val_cons, trim_step_chunk by done. destruct (Z.ltb_spec sl i) as [Hlt|Hge].
    + exists [], d. unfold deletes. simpl. rewrite app_nil_r, Z.add_0_r. split_and!; [done| |set_solver|].
      { destruct Hb as [Hops Hz]. split; [done|]. eapply zeroes_ext; [|exact Hz]. intros j. by rewrite orb_false_r. }
      intros _ j y Hj Hsl. exfalso. apply elem_of_cons in Hj as [[= -> ->]|Hj]; [lia|].
      destruct (proj1 (Forall_forall _ _) Hit _ Hj) as (j' & [= <-] & Hju & _).
      apply (proj1 (Forall_forall _ _) Hle), chunk_key_le in Hj; [lia|done..].
    + destruct (Hcov Hge) as [HI Hfc]. pose proof (zero_batch_delete I b d i x Hb Hu HI Hx Hfc) as Hb1.
      set (b1 := b ++ [Delete (KChunk BLOCK_INO i)]) in *. set (d1 := d - _) in *.
      replace (len b + 1) with (len b1) by (unfold b1; by rewrite len_app).
      destruct (Z.eqb_spec (n + 1) BATCH) as [E|E].
      * exists [i], d1. change (b ++ deletes [i]) with b1. split_and!; [done| |set_solver|change (len [i]) with 1; lia].
        destruct Hb1 as [Hops Hz]. split; [done|]. eapply zeroes_ext; [|exact Hz]. intros j. simpl. f_equal.
        destruct (Z.eqb_spec j i); symmetry; [apply bool_decide_eq_true_2|apply bool_decide_eq_false_2]; set_solver.
      * destruct (IH (fun j => I j || (j =? i)) b1 d1 (n + 1)) as (L & d' & E1 & Hz & HL & Hall); [done| |done|done|lia|].
        { apply Forall_forall. intros [k y] Hin. destruct (proj1 (Forall_forall _ _) Hit _ Hin) as (j & Hk & Hj1 & Hj2 & Hj3).
          exists j. split_and!; try done. intros Hjs. destruct (Hj3 Hjs) as [-> ?]. split; [|done]. simpl in *. subst k. apply Z.eqb_neq. intros ->. apply Hni.
          apply list_elem_of_fmap. by exists (KChunk BLOCK_INO i, y). }
        exists (i :: L), d'. rewrite <- deletes_cons. fold b1. rewrite len_cons. split_and!; [etrans; [exact E1|f_equal; lia]| |set_solver|].
        { destruct Hz as [Hops Hz]. split; [done|]. eapply zeroes_ext; [|exact Hz]. intros j. simpl.
          destruct (Z.eqb_spec j i) as [->|Hne]; [rewrite orb_true_r; simpl; symmetry; apply orb_true_iff; right; apply bool_decide_eq_true_2; set_solver|].
          rewrite orb_false_r. f_equal. apply bool_decide_ext. set_solver. }
        intros Hlt j y Hj Hsl. apply elem_of_cons in Hj as [[= -> ->]|Hj]; [set_solver|]. right. eapply Hall; [lia|done..].
Qed.
End scanning.

(** ** The loop *)

Definition full_in (full : option (u32 * u32)) (i : Z) : Prop :=
  match full with Some (a, b) => a <= i <= b | None => False end.

Section trimming.
Context {DB : SlateDB} {CR : Crash} (others : nat -> BlockVolume -> BlockVolume) (H : Prop) (off n : Z) (full : option (u32 * u32)).
Implicit Types (s : bstate) (v : BlockVolume).

Definition in_trim (x : Z) : Prop := off <= x < off + n.

(** The chunks to delete: all within the range, none touched by the batch. *)
Definition deletable s (I : Z -> bool) : Prop :=
  match full with Some (sf, _) => is_u32 sf | None => True end /\
  forall i, full_in full i -> I i = false /\ chunk_fully_covered (bs_g s) i off (off + n) = true.

Definition scan_pass v (acc : WriteBatch * i64 * usize) : BM (WriteBatch * i64 * usize * bool) :=
  match full with
  | Some (scan_first, scan_last) =>
      it <- b_storage (scan (Some (keys.chunk BLOCK_INO scan_first)) (Some (keys.chunk_prefix (BLOCK_INO + 1)))) ;;
      let* (batch, batch_delta, mutations, n) := b_storage (iter_loop (trim_step (b_geometry v) scan_last) (acc, 0) it) in
      st_ret (batch, batch_delta, mutations, n <? BATCH)
  | None => st_ret (acc, true)
  end.

(** What one pass adds to the batch. *)
Record passed s (I : Z -> bool) (b : WriteBatch) (L : list u32) (d : Z) (fin : bool) : Prop := {
  ps_batch : zero_batch s off (off + n) (fun i => I i || bool_decide (i ∈ L)) (b ++ deletes L) d;
  ps_in i : i ∈ L -> full_in full i;
  ps_some i : i ∈ L -> is_Some (bs_m s !! KChunk BLOCK_INO i);
  ps_fin : fin = true -> forall i, full_in full i -> is_Some (bs_m s !! KChunk BLOCK_INO i) -> i ∈ L;
  ps_more : fin = false -> L <> []
}.

Lemma wp_scan_pass s v I b d (Q : result (Halt FsError) (WriteBatch * i64 * usize * bool) -> BlockVolume -> Prop) :
  BInv s -> at_b H s v -> zero_batch s off (off + n) I b d -> deletable s I ->
  (forall L d' fin v', at_b H s v' -> passed s I b L d' fin -> Q (Ok (b ++ deletes L, d', len (b ++ deletes L), fin)) v') ->
  (forall x v', at_b H s v' -> ~ H -> Q (Err (Raise x)) v') -> wp (scan_pass v (b, d, len b)) Q v.
Proof.
  intros Hi Hs Hb [Hsf Hfull] Hok Herr. unfold scan_pass, deletable, full_in in *. destruct full as [[sf sl]|] eqn:Ef.
  - apply wp_bind. set (P := fun it => (forall k x, (k, x) ∈ it <-> bs_m s !! k = Some x /\ exists i, k = KChunk BLOCK_INO i /\ sf <= i) /\
                NoDup it.*1 /\ StronglySorted key_le it).
    assert (forall k x, bs_m s !! k = Some x -> key_ok k) as Hkeys by (intros k x Hk%Hi; destruct k; try done; destruct Hk as [-> ?]; by split).
    eapply (wp_b_storage H s v _ P); [apply steady_scan| |done| |done].
    + intros e He Hm. rewrite scan_quiet by done. eexists. split; [done|]. split; [|split; [apply db_scan_nodup|apply Sorted_StronglySorted; [exact key_le_trans|apply db_scan_sorted]]].
      intros k x. rewrite db_scan_elem, Hm. split; [intros (Hk & H1 & H2)|intros [Hk Hr]]; (split; [done|]).
      * apply (in_range_chunks_from BLOCK_INO sf); [by eapply Hkeys|done|done|]. unfold in_range. by rewrite (H1 _ eq_refl), (H2 _ eq_refl).
      * apply (in_range_chunks_from BLOCK_INO sf) in Hr; [|by eapply Hkeys|done|done]. apply andb_true_iff in Hr as [? ?]. by split; intros ? [= <-].
    + intros it v1 Hs1 (Hit & Hnd & Hso). apply wp_bind. rewrite (at_b_geometry _ _ _ Hs).
      destruct (trim_scan_val s off (off + n) sl (proj1 (bi_cs _ Hi)) it I b d 0) as (L & d' & E & HL1 & HL2 & HL3); try done.
      { apply Forall_forall. intros [k x] Hin. apply Hit in Hin as (Hk & i & -> & Hge). exists i. split_and!; try done.
        - by destruct (Hkeys _ _ Hk).
        - intros Hle. apply Hfull. lia. }
      eapply (wp_b_storage H s v1 _ (fun a => a = (b ++ deletes L, d', len (b ++ deletes L), 0 + len L)));
        [apply steady_iter_loop|intros e He _; rewrite iter_loop_val by done; eexists; split; [done|exact E]|done| |done].
      intros a v2 Hs2 ->. apply wp_ret, Hok; [done|]. split; unfold full_in; rewrite ?Ef; try done.
      * intros i [? [x Hx%Hit]]%HL2. destruct Hx as (_ & j & [= ->] & ?). simpl. lia.
      * intros i [? [x Hx%Hit]]%HL2. by destruct Hx as [? _].
      * intros Hlt%Z.ltb_lt i Hi' [x Hx]. eapply HL3; [done| |apply Hi']. apply Hit. split; [done|]. exists i. split; [done|]. apply Hi'.
      * intros Hge%Z.ltb_ge ->. rewrite Z.add_0_l in Hge. done.
  - apply wp_ret. specialize (Hok [] d true v). unfold deletes in Hok. simpl in Hok. rewrite app_nil_r in Hok. apply Hok; [done|].
    split; unfold full_in; rewrite ?Ef, ?app_nil_r; try done; [|set_solver..].
    destruct Hb as [Hops Hz]. split; rewrite ?app_nil_r; [done|]. eapply zeroes_ext; [|exact Hz]. intros i. by rewrite orb_false_r.
Qed.

(** Every byte is as in [s0], or zero within the range. *)
Definition trims s0 m : Prop := forall x, bytes_at (bs_g s0) m x = dev s0 x \/ (in_trim x /\ bytes_at (bs_g s0) m x = 0).

(** Only the chunks to delete can still hold bytes of the range. *)
Definition rest_full s0 m : Prop := forall x, in_trim x -> full_in full (x / chunk_size (bs_g s0)) \/ bytes_at (bs_g s0) m x = 0.

Lemma deletes_lookup m b L i : i ∈ L -> apply_batch m (b ++ deletes L) !! KChunk BLOCK_INO i = None.
Proof.
  intros Hi. rewrite apply_batch_app. unfold deletes. rewrite (list_fmap_compose (KChunk BLOCK_INO) Delete), delete_keys_lookup.
  rewrite decide_True; [done|]. by apply list_elem_of_fmap_2.
Qed.

Lemma passed_trims s I b L d d0 fin :
  passed s I b L d fin -> rest_full s (apply_batch (bs_m s) b) -> zero_batch s off (off + n) I b d0 ->
  let m' := apply_batch (bs_m s) (b ++ deletes L) in
  trims s m' /\ rest_full s m' /\ (fin = true -> forall x, in_trim x -> bytes_at (bs_g s) m' x = 0).
Proof.
  intros [[_ Hz] Hin _ Hfin _] Hrest [_ Hz0] m'.
  assert (rest_full s m') as Hrest'.
  { intros x Hx. destruct (Hrest x Hx) as [?|Hx0]; [by left|]. right. set (i := x / chunk_size (bs_g s)) in *.
    destruct (I i || bool_decide (i ∈ L)) eqn:EJ; [by apply Hz|]. pose proof EJ as [EI _]%orb_false_iff. unfold m'.
    rewrite (z_keep _ _ _ _ _ _ _ Hz) by (by left). by rewrite <- Hx0, (z_keep _ _ _ _ _ _ _ Hz0) by (by left). }
  split_and!; [|done|].
  - intros x. set (i := x / chunk_size (bs_g s)). destruct (I i || bool_decide (i ∈ L)) eqn:EJ; [|left; apply Hz; by left].
    destruct (decide (off <= x < off + n)) as [Hx|Hx]; [right; split; [done|by apply Hz]|left; apply Hz; by right].
  - intros Hf x Hx. destruct (Hrest' x Hx) as [Hfull|?]; [|done]. set (i := x / chunk_size (bs_g s)) in *.
    destruct (bs_m s !! KChunk BLOCK_INO i) as [y|] eqn:Ey.
    + apply Hz; [|done]. rewrite bool_decide_eq_true_2, orb_true_r; [done|]. by apply Hfin.
    + apply (zeroes_widen _ _ (fun j => j =? i)) in Hz; [|]. { apply Hz; [|done]. fold i. by rewrite Z.eqb_refl, orb_true_r. }
      intros j ->%Z.eqb_eq. destruct (I i || bool_decide (i ∈ L)) eqn:EJ; [by left|]. right.
      rewrite (z_frame _ _ _ _ _ _ _ Hz); [done|]. intros j Hj [= <-]. congruence.
Qed.

(** How the loop ends. *)
Definition loop_end s0 (r : result (Halt FsError) unit) v' : Prop :=
  safe v' /\ BInv (bview v') /\ b_geometry v' = bs_g s0 /\ (H -> bquiet v') /\ same_volume s0 (bview v') /\ trims s0 (bs_m (bview v')) /\
  (r = Ok tt -> forall x, in_trim x -> dev (bview v') x = 0) /\ r <> Err OutOfFuel /\ (H -> r = Ok tt).

Lemma loop_end_at s0 s r v' :
  at_b H s v' -> BInv s -> bs_g s = bs_g s0 -> same_volume s0 s -> trims s0 (bs_m s) -> (r = Ok tt -> forall x, in_trim x -> dev s x = 0) ->
  r <> Err OutOfFuel -> (H -> r = Ok tt) -> loop_end s0 r v'.
Proof. intros [Hv Hq Hsf] Hi Hg Hl Ht Hz Hr HH. split_and!; try done; rewrite ?Hv; try done. change (bs_g (bview v') = bs_g s0). by rewrite Hv. Qed.

Lemma trims_trans s0 s m : bs_g s = bs_g s0 -> trims s0 (bs_m s) -> trims s m -> trims s0 m.
Proof.
  intros Hg H1 H2 x. unfold trims, dev in *. rewrite Hg in *. destruct (H2 x) as [->|?]; [|by right]. apply H1.
Qed.

Lemma pass_shrinks s I b L d ks :
  passed s I b L d false -> (forall i, full_in full i -> is_Some (bs_m s !! KChunk BLOCK_INO i) -> i ∈ ks) ->
  (forall i, full_in full i -> I i = false) ->
  exists ks', (length ks' < length ks)%nat /\
    forall i, full_in full i -> is_Some (apply_batch (bs_m s) (b ++ deletes L) !! KChunk BLOCK_INO i) -> i ∈ ks'.
Proof.
  intros [[_ Hz] Hin Hsome _ Hmore] Hks HI. destruct L as [|i0 L]; [by specialize (Hmore eq_refl)|].
  exists (filter (fun i => i <> i0) ks). split.
  - apply (length_filter_lt _ ks i0); [|by intros []]. apply Hks; [apply Hin|apply Hsome]; set_solver.
  - intros i Hi Hs. apply list_elem_of_filter. split.
    + intros ->. rewrite deletes_lookup in Hs by set_solver. by destruct Hs.
    + apply Hks; [done|]. destruct (decide (i ∈ i0 :: L)) as [?|Hni]; [by apply Hsome|].
      rewrite (z_frame _ _ _ _ _ _ _ Hz) in Hs; [done|]. intros j Hj [= <-]. apply orb_true_iff in Hj as [Hj|Hj%bool_decide_eq_true]; [|done].
      rewrite HI in Hj; done.
Qed.

Lemma wp_trim_loop s0 fuel : forall s v I b d ks,
  stable (bs_g s0) off n -> BInv s -> bs_g s = bs_g s0 -> same_volume s0 s -> at_b H s v -> zero_batch s off (off + n) I b d -> deletable s I ->
  rest_full s (apply_batch (bs_m s) b) -> trims s0 (bs_m s) ->
  (forall i, full_in full i -> is_Some (bs_m s !! KChunk BLOCK_INO i) -> i ∈ ks) -> (length ks < fuel)%nat ->
  wp (trim_loop fuel full (b, d, len b)) (loop_end s0) v.
Proof.
  induction fuel as [|fuel IH]; intros s v I b d ks Hst Hi Hg Hl Hs Hb Hdel Hrest Ht Hks Hf; [lia|]. cbn [trim_loop].
  apply wp_bind. simpl. apply wp_bind. change (match full with Some _ => _ | None => _ end) with (scan_pass v (b, d, len b)).
  eapply wp_scan_pass; [done|done|done|done| |].
  2: { intros x v' Hs' HnH. by eapply loop_end_at. }
  intros L d' fin v' Hs' Hp. destruct (passed_trims s I b L d' d fin Hp Hrest Hb) as (P1 & P2 & P3).
  destruct (ps_batch _ _ _ _ _ _ Hp) as [Hops [Z1 Z2 Z3 Z4 Z5 Z6 Z7 Z8]].
  destruct (Z.eqb_spec (len (b ++ deletes L)) 0) as [E%len_0_nil|Hne].
  { apply wp_ret. eapply loop_end_at; try done. intros _ x Hx. rewrite E in P3. apply P3; [|done].
    destruct fin; [done|]. by apply app_nil in E as [_ ->%fmap_nil_inv]; destruct (ps_more _ _ _ _ _ _ Hp eq_refl). }
  destruct (binv_commit s (b ++ deletes L) d' Hi Hops Z1 Z2 (fun i Hx => bi_start _ Hi i (Z8 i Hx)) Z5) as [Hi' Hb']. set (s' := committed _ _ _) in *.
  assert (forall x, in_trim x -> fin = true -> dev s' x = 0) as Hdone by (intros x Hx Hfin; etrans; [apply Hb'|by apply P3]).
  assert (same_volume s0 s') as Hl' by (destruct (commit_same s _ d' Hops) as [L1 L2], Hl as [L3 L4]; split; [exact L3|by etrans]).
  assert (trims s0 (bs_m s')) as Ht'.
  { eapply (trims_trans s0 s); [done|done|]. intros x. rewrite Hb'. apply P1. }
  apply wp_bind. eapply wp_b_commit; [done|by apply binv_usage|..].
  - eapply (Hst s); [done..|by apply commit_same| |by eapply at_b_ok]. intros x Hx. unfold dev at 1. change (bs_g s') with (bs_g s).
    rewrite Hb'. by destruct (P1 x) as [->|[]].
  - intros v2 Hs2. destruct fin; [apply wp_ret; by eapply loop_end_at; eauto|]. change 0 with (len (@nil BatchOp)) at 2.
    destruct (pass_shrinks s I b L d' ks Hp Hks) as (ks' & Hlt & Hks'); [apply Hdel|].
    eapply (IH s' v2 (fun _ => false) [] 0 ks'); try done; [by apply zero_batch_nil|split; [apply Hdel|]|..|lia].
    + intros i Hfi. split; [done|]. by apply Hdel.
    + intros x Hx. destruct (P2 x Hx) as [?|E]; [by left|]. right. etrans; [apply Hb'|done].
    + intros i Hfi Hsm. apply Hks'; [done|]. unfold s' in Hsm. simpl in Hsm. by rewrite charge_frame in Hsm.
  - intros x v2 Hs2 Hx. eapply loop_end_at; try done. intros HH. destruct (Hx HH) as (_ & ? & _). lia.
  - intros x v2 Hs2 HnH. by eapply (loop_end_at s0 s').
Qed.
End trimming.

(** ** The call *)

Lemma covered_inside g off n i :
  0 < chunk_size g -> off + n <= g_size_bytes g -> off / chunk_size g < i < (off + n - 1) / chunk_size g ->
  chunk_fully_covered g i off (off + n) = true.
Proof.
  intros Hc Hle Hi. unfold chunk_fully_covered, chunk_bounds. set (c := chunk_size g) in *.
  pose proof (Z.div_mod off c). pose proof (Z.mod_pos_bound off c). pose proof (Z.div_mod (off + n - 1) c). pose proof (Z.mod_pos_bound (off + n - 1) c).
  assert (c * (off / c) + c <= i * c) by nia. assert (i * c + c <= c * ((off + n - 1) / c)) by nia.
  rewrite (proj2 (Z.leb_le _ _)), (proj2 (Z.leb_le _ _)); [done|lia|lia].
Qed.

Lemma trim_full_spec g off n i :
  0 < chunk_size g -> off + n <= g_size_bytes g -> is_u32 (off / chunk_size g) -> is_u32 ((off + n - 1) / chunk_size g) ->
  off / chunk_size g <= (off + n - 1) / chunk_size g ->
  full_in (trim_full g (off / chunk_size g) ((off + n - 1) / chunk_size g) off (off + n)) i <->
  off / chunk_size g <= i <= (off + n - 1) / chunk_size g /\ chunk_fully_covered g i off (off + n) = true.
Proof.
  intros Hc Hle Hu1 Hu2 Hfl. pose proof (covered_inside g off n i Hc Hle) as Hin. unfold trim_full, saturating_add_u32, is_u32, U32_MAX in *.
  set (f := off / chunk_size g) in *. set (l := (off + n - 1) / chunk_size g) in *. set (C := fun j => chunk_fully_covered g j off (off + n)) in *.
  change (chunk_fully_covered g i off (off + n)) with (C i) in *. change (chunk_fully_covered g f off (off + n)) with (C f).
  change (chunk_fully_covered g l off (off + n)) with (C l).
  assert (C f = false -> C i = true -> i <> f) as Nf by (intros ? ? ->; congruence).
  assert (C l = false -> C i = true -> i <> l) as Nl by (intros ? ? ->; congruence).
  assert (f <= i <= l -> (i = f -> C f = true) -> (i = l -> C l = true) -> C i = true) as Hall.
  { intros Hr H1 H2. destruct (decide (i = f)) as [->|]; [auto|]. destruct (decide (i = l)) as [->|]; [auto|]. apply Hin. lia. }
  assert (C f = false -> C l = true -> f < l) as Hs by (intros ? ?; destruct (decide (f = l)); [congruence|lia]).
  clearbody C. clear Hin. destruct (C f) eqn:Cf, (C l) eqn:Cl; try destruct (Z.eqb_spec l 0); cbv beta iota zeta; try (case_match eqn:Eb); unfold full_in; try specialize (Hs eq_refl eq_refl);
    rewrite ?Z.leb_le, ?Z.leb_gt in *; (split; [intros Hr; first [done|split; [lia|apply Hall; try done; lia]]|intros [Hr HC]; try specialize (Nf eq_refl HC); try specialize (Nl eq_refl HC); first [done|lia]]).
Qed.

Lemma trim_full_first g f l zf zt a c : is_u32 f -> trim_full g f l zf zt = Some (a, c) -> is_u32 a.
Proof.
  intros Hf. unfold trim_full, saturating_add_u32, is_u32, U32_MAX in *.
  destruct (chunk_fully_covered g f zf zt), (if chunk_fully_covered g l zf zt then _ else _); repeat case_match; intros; simplify_eq; lia.
Qed.

Lemma chunks_spanned off n c : 0 < c -> (off + n - 1) / c - off / c <= n / c + 1.
Proof.
  intros Hc. pose proof (Z.div_mod off c). pose proof (Z.mod_pos_bound off c). pose proof (Z.div_mod n c). pose proof (Z.mod_pos_bound n c).
  pose proof (Z.div_mod (off + n - 1) c). pose proof (Z.mod_pos_bound (off + n - 1) c). nia.
Qed.

Section trim_call.
Context {DB : SlateDB} {CR : Crash} (others : nat -> BlockVolume -> BlockVolume).
Implicit Types (v : BlockVolume).
Hypothesis Hrely : brely others.
Hypothesis Hcrely : crely others.

(** What a trim leaves: each byte of the device is as it was at the start or
    when the locks were granted, or is a zero of the range; after a success the
    whole range is zero. *)
Definition trimmed v (r : result (Halt FsError) unit) v' off n : Prop :=
  BInv (bview v') /\ b_geometry v' = b_geometry v /\ (bquiet v -> bquiet v') /\
  exists s, (s = bview v \/ s = bview (locked others v)) /\ same_volume s (bview v') /\
    (forall x, dev (bview v') x = dev s x \/ (off <= x < off + n /\ dev (bview v') x = 0)) /\
    (r = Ok tt -> forall x, dev (bview v') x = zeroed off n s x).

Lemma trimmed_none v r off n : BInv (bview v) -> (r = Ok tt -> n = 0) -> trimmed v r v off n.
Proof.
  intros Hi Hr. split; [done|]. split; [done|]. split; [done|]. exists (bview v). split; [by left|]. split; [done|]. split; [by left|].
  intros E x. rewrite (Hr E). unfold zeroed. destruct (Z.leb_spec off x), (Z.ltb_spec x (off + 0)); try done; lia.
Qed.

Lemma trimmed_end v r v' off n :
  b_geometry v = bs_g (bview (locked others v)) -> loop_end (bquiet v) off n (bview (locked others v)) r v' -> trimmed v r v' off n.
Proof.
  intros Hg (_ & E1 & E2 & Eq & El & E3 & E4 & _). split; [done|]. split; [by rewrite Hg|]. split; [done|]. eexists. split; [by right|]. split; [done|].
  assert (forall x, dev (bview v') x = bytes_at (bs_g (bview (locked others v))) (bs_m (bview v')) x) as Hd.
  { intros x. unfold dev. change (bs_g (bview v')) with (b_geometry v'). by rewrite E2. }
  split; [intros x; rewrite Hd; apply E3|]. intros Hr x. unfold zeroed.
  destruct (Z.leb_spec off x), (Z.ltb_spec x (off + n)); simpl; try (destruct (E3 x) as [E|[[] _]]; [by rewrite Hd|lia]).
  by apply E4.
Qed.

Lemma trim_runs fuel v off n :
  BInv (bview v) -> is_u64 off -> is_u64 n -> safe v -> stable (b_geometry v) off n ->
  (off + n <= g_size_bytes (b_geometry v) -> n / chunk_size (b_geometry v) + 2 < Z.of_nat fuel) ->
  wp (block_trim others fuel off n) (fun r v' => safe v' /\ trimmed v r v' off n /\ r <> Err OutOfFuel /\ answers v r off n) v.
Proof.
  intros Hi Hoff Hn Hsf Hst Hfuel. set (H := bquiet v). assert (at_b H (bview v) v) as Hs by (by split).
  unfold block_trim. apply (wp_prologue H); try done.
  { intros Hlt. split; [done|]. split; [by apply trimmed_none|]. split; [done|]. intros _. by rewrite (proj2 (Z.leb_gt _ _)) by lia. }
  { intros x HnH. split; [done|]. split; [by apply trimmed_none|]. split; [done|]. by intros Hq. }
  intros Hle. specialize (Hfuel Hle). assert (answers v (Ok tt) off n) as Hans by (intros _; rewrite (proj2 (Z.leb_le _ _)) by lia; done).
  destruct (Z.eqb_spec n 0) as [->|Hn0]; [apply wp_ret; split; [done|]; split; [by apply trimmed_none|done]|].
  unfold is_u64 in *. apply wp_bind. eapply (wp_wait others Hrely H); [done..|]. intros Hi1 Hg1 Hs1. set (s := bview (locked others v)) in *.
  rewrite <- Hg1 in *. pose proof (fun i => range_u32 s off n i Hi1 ltac:(lia) ltac:(lia) Hle) as Hu. destruct (bi_cs _ Hi1) as [Hc _].
  set (f := off / chunk_size (bs_g s)) in *. set (l := (off + n - 1) / chunk_size (bs_g s)) in *.
  assert (f <= l) as Hfl by (apply Z.div_le_mono; lia).
  pose proof (fun i => trim_full_spec (bs_g s) off n i Hc Hle (Hu f ltac:(lia)) (Hu l ltac:(lia)) Hfl) as Hspec.
  apply wp_bind. change 0 with (len (@nil BatchOp)) at 2. set (edges := trim_edges (bs_g s) f l off (off + n)).
  assert (forall i, i ∈ edges <-> (i = f \/ i = l) /\ chunk_fully_covered (bs_g s) i off (off + n) = false) as Hed.
  { intros i. unfold edges, trim_edges. rewrite list_elem_of_filter. destruct (Z.eqb_spec f l) as [->|]; set_solver. }
  assert (NoDup edges) as Hnd.
  { apply NoDup_filter. destruct (Z.eqb_spec f l); repeat constructor; set_solver. }
  eapply (wp_stage_all H s off (off + n) edges (fun _ => false) [] 0); [done|done|by apply zero_batch_nil|done|..].
  - intros i [[-> | ->] _]%Hed; (split; [apply Hu; lia|done]).
  - intros b d v2 Hs2 Hb. eapply wp_mono; [eapply (wp_trim_loop H off n); try done|].
    + split.
      * destruct (trim_full _ _ _ _ _) as [[a c]|] eqn:E; [|done]. eapply trim_full_first; [|exact E]. apply Hu. lia.
      * intros i [Hr Hcov]%Hspec. split; [|done]. apply bool_decide_eq_false_2. intros [_ ?]%Hed. congruence.
    + intros x Hx. set (i := x / chunk_size (bs_g s)). assert (f <= i <= l) as Hr by (split; apply Z.div_le_mono; unfold in_trim in *; lia).
      destruct (chunk_fully_covered (bs_g s) i off (off + n)) eqn:Ec; [left; by apply Hspec|]. right. apply (zb_zeroes _ _ _ _ _ _ Hb); [|done].
      apply bool_decide_eq_true_2, Hed. split; [|done]. fold i. destruct (decide (i = f)), (decide (i = l)); auto.
      rewrite (covered_inside (bs_g s) off n i) in Ec; [done|done|done|]. unfold f, l in *. lia.
    + by left.
    + intros i [Hr _]%Hspec _. by apply (elem_of_range f l).
    + unfold range_incl. rewrite length_seqZ. pose proof (chunks_spanned off n _ Hc) as Hsp. fold f l in Hsp. lia.
    + intros r v' He. split; [apply He|]. split; [by eapply trimmed_end|]. destruct He as (_ & _ & _ & _ & _ & _ & _ & E1 & E2). split; [done|]. intros Hq. rewrite (E2 Hq). by apply Hans.
  - intros x v2 Hs2 HnH. split; [apply Hs2|]. split; [|split; [done|by intros Hq]]. eapply trimmed_end; [done|]. by eapply loop_end_at; [..|by left| | |].
Qed.
End trim_call.

Lemma trim_effect `{DB : SlateDB} others fuel v off n :
  brely others -> BInv (bview v) -> is_u64 off -> is_u64 n ->
  (off + n <= g_size_bytes (b_geometry v) -> n / chunk_size (b_geometry v) + 2 < Z.of_nat fuel) ->
  wp (block_trim others fuel off n) (fun r v' => trimmed others v r v' off n /\ r <> Err OutOfFuel /\ answers v r off n) v.
Proof. intros. eapply wp_mono; [by apply (trim_runs (CR := any_crash) others)|]. by intros r v' [_ ?]. Qed.
