(* ===== verification/BlockSpec.v ===== *)
(** Block volumes as disks: each operation does to the bytes of the device what
    the [BlockDev] contract says, under faults and interference, and a sequence
    of commands on a quiet volume answers as an array of bytes would. *)

From S2P Require Import Prelude Keys Meta Store Data Quota Locks Volume Wf VfsLogic Reap Mount Fsck Block BlockThm BlockOps BlockTrim.

(** * The operations *)

Section operations.
Context {DB : SlateDB}.
Implicit Types (v : BlockVolume).

(** C13: a block write, interleaved with other tasks at its lock wait and with
    storage faults anywhere, either puts exactly its data at its offset and
    changes no other byte, or fails and changes no byte; on a quiet volume it
    fails only beyond the end of the device or over the quota. *)
Theorem block_write_correct others v off data fua r v' :
  brely others -> BInv (bview v) -> is_u64 off -> is_u64 (len data) ->
  block_write others off data fua v = (r, v') ->
  effect others v r v' (overwritten off data) /\
  (bquiet v -> if off + len data <=? g_size_bytes (b_geometry v)
               then r = Ok tt \/ (r = Err (Raise QuotaExceeded) /\ exists d, over_limit (bview (locked others v)) d)
               else r = Err (Raise Invalid)).
Proof. intros Hr Hi Hoff Hn E. pose proof (write_effect others Hr v off data fua Hi Hoff Hn) as Hw. unfold wp in Hw. by rewrite E in Hw. Qed.

(** C14: trim terminates, with more rounds than the chunks its range spans, and
    leaves zeroes: whatever faults cut it short, each byte is what it was or a
    zero of the range, and after a success the range is all zeroes and every
    other byte is as before. *)
Theorem block_trim_correct others fuel v off n r v' :
  brely others -> BInv (bview v) -> is_u64 off -> is_u64 n ->
  (off + n <= g_size_bytes (b_geometry v) -> n / chunk_size (b_geometry v) + 2 < Z.of_nat fuel) ->
  block_trim others fuel off n v = (r, v') ->
  trimmed others v r v' off n /\ r <> Err OutOfFuel /\ answers v r off n.
Proof.
  intros Hr Hi Hoff Hn Hf E. pose proof (trim_effect others fuel v off n Hr Hi Hoff Hn Hf) as Hw. unfold wp in Hw. by rewrite E in Hw.
Qed.

(** Write_zeroes zeroes its range exactly, in one commit, and never needs
    quota: on a quiet volume it fails only beyond the end of the device. *)
Theorem block_write_zeroes_correct others v off n fua r v' :
  brely others -> BInv (bview v) -> is_u64 off -> is_u64 n ->
  block_write_zeroes others off n fua v = (r, v') ->
  effect others v r v' (zeroed off n) /\ answers v r off n.
Proof. intros Hr Hi Hoff Hn E. pose proof (write_zeroes_effect others Hr v off n fua Hi Hoff Hn) as Hw. unfold wp in Hw. by rewrite E in Hw. Qed.
End operations.

(** * Commands *)

Inductive bcmd : Type :=
| BRead (offset : u64) (length : u32)
| BWrite (offset : u64) (data : bytes) (fua : bool)
| BFlush
| BTrim (offset length : u64)
| BZeroes (offset length : u64) (fua : bool).

(** The arguments are within their widths. *)
Definition bcmd_ok (c : bcmd) : Prop :=
  match c with
  | BRead off n => is_u64 off /\ is_u32 n
  | BWrite off data _ => is_u64 off /\ is_u64 (len data)
  | BFlush => True
  | BTrim off n | BZeroes off n _ => is_u64 off /\ is_u64 n
  end.

(** One command on a device; only a read answers bytes. *)
Definition exec {S} (D : BlockDev S) (c : bcmd) : ST S (Halt FsError) bytes :=
  match c with
  | BRead off n => bd_read D off n
  | BWrite off data fua => bd_write D off data fua ;;; st_ret []
  | BFlush => bd_flush D ;;; st_ret []
  | BTrim off n => bd_trim D off n ;;; st_ret []
  | BZeroes off n fua => bd_write_zeroes D off n fua ;;; st_ret []
  end.

(** A sequence of commands, with all the answers. *)
Fixpoint exec_all {S} (D : BlockDev S) (cs : list bcmd) (s : S) : list (result (Halt FsError) bytes) * S :=
  match cs with
  | [] => ([], s)
  | c :: cs =>
      let '(r, s) := exec D c s in
      let '(rs, s) := exec_all D cs s in
      (r :: rs, s)
  end.

Lemma exec_all_app {S} (D : BlockDev S) cs cs' (s : S) :
  exec_all D (cs ++ cs') s =
    let '(rs, s1) := exec_all D cs s in let '(rs', s2) := exec_all D cs' s1 in (rs ++ rs', s2).
Proof.
  revert s. induction cs as [|c cs IH]; intros s; cbn [exec_all app]; [by destruct (exec_all D cs' s)|].
  destruct (exec D c s) as [r s0]. rewrite IH. destruct (exec_all D cs s0) as [rs s1]. by destruct (exec_all D cs' s1).
Qed.

(** ** The abstract disk: an array of [size] bytes. *)

Definition disk : Type := Z -> u8.

Definition disk_exec (size : Z) (c : bcmd) (d : disk) : result FsError bytes * disk :=
  match c with
  | BRead off n => (if off + n <=? size then Ok (d <$> seqZ off n) else Err Invalid, d)
  | BWrite off data _ =>
      if off + len data <=? size
      then (Ok [], fun x => if (off <=? x) && (x <? off + len data) then byte_at data (x - off) else d x)
      else (Err Invalid, d)
  | BFlush => (Ok [], d)
  | BTrim off n | BZeroes off n _ =>
      if off + n <=? size then (Ok [], fun x => if (off <=? x) && (x <? off + n) then 0 else d x) else (Err Invalid, d)
  end.

Fixpoint disk_all (size : Z) (cs : list bcmd) (d : disk) : list (result FsError bytes) * disk :=
  match cs with
  | [] => ([], d)
  | c :: cs =>
      let '(r, d) := disk_exec size c d in
      let '(rs, d) := disk_all size cs d in
      (r :: rs, d)
  end.

Section refinement.
Context {DB : SlateDB}.
Implicit Types (v : BlockVolume).
#[local] Existing Instance any_crash.

(** No other task. *)
Definition no_task (n : nat) v : BlockVolume := v.

Lemma no_task_rely : brely no_task.
Proof. by intros n v Hi. Qed.

Lemma no_task_locked v : bview (locked no_task v) = bview v.
Proof. done. Qed.

Definition unlimited : QuotaLimit := {| ql_soft := None; ql_hard := None; ql_grace_until := None |}.

(** The volume holds the disk and answers without faults or limits. *)
Record holds_disk v (d : disk) : Prop := {
  hk_inv : BInv (bview v);
  hk_quiet : bquiet v;
  hk_free : lim_bytes (bs_limits (bview v)) = unlimited;
  hk_bytes x : dev (bview v) x = d x
}.

Lemma unlimited_free s d : lim_bytes (bs_limits s) = unlimited -> ~ over_limit s d.
Proof. intros E (_ & now & Hx). by rewrite E in Hx. Qed.

(** A call beyond the end of the device changes nothing. *)
Lemma prologue_refuses v off n {A} (body : BlockVolume -> option (u32 * u32) -> BM A) :
  BInv (bview v) -> is_u64 off -> is_u64 n -> g_size_bytes (b_geometry v) < off + n ->
  wp (b_ensure_live ;;; v <- st_get ;; r <- b_guard (chunk_range (b_geometry v) off n) ;; body v r) (fun r v' => v' = v) v.
Proof. intros Hi Hoff Hn Hlt. apply (wp_prologue (bquiet v)); try done; lia. Qed.

Lemma holds_same v v' d : holds_disk v d -> at_b (bquiet v) (bview v) v' -> holds_disk v' d.
Proof. intros [Hi Hq Hf Hd] [E HQ _]. split; rewrite ?E; auto. Qed.

Lemma holds_changed v v' d F (Fd : disk) :
  holds_disk v d -> effect no_task v (Ok tt) v' F -> (forall x, F (bview v) x = Fd x) -> holds_disk v' Fd.
Proof.
  intros [Hi Hq Hf Hd] (E1 & E2 & E3 & s & Es & [El _] & Hx) HF.
  assert (s = bview v) as -> by (destruct Es as [->|Es]; [done|by rewrite no_task_locked in Es]).
  split; [done|auto|congruence|]. intros x. destruct Hx as [Hx|[? _]]; [by rewrite Hx|done].
Qed.

Lemma holds_trimmed v v' d off n :
  holds_disk v d -> trimmed no_task v (Ok tt) v' off n ->
  holds_disk v' (fun x => if (off <=? x) && (x <? off + n) then 0 else d x).
Proof.
  intros [Hi Hq Hf Hd] (E1 & E2 & E3 & s & Es & [El _] & _ & Hx).
  assert (s = bview v) as -> by (destruct Es as [->|Es]; [done|by rewrite no_task_locked in Es]).
  split; [done|auto|congruence|]. intros x. rewrite Hx by done. unfold zeroed. by rewrite Hd.
Qed.

Lemma byte_at_disk (d : disk) off n i : 0 <= i < n -> byte_at (d <$> seqZ off n) i = d (off + i).
Proof.
  intros Hi. unfold byte_at. rewrite (proj2 (Z.ltb_ge _ _)) by lia. rewrite list_lookup_fmap, lookup_seqZ_lt by lia. simpl. f_equal. lia.
Qed.

(** A read of a quiet volume. *)
Lemma read_answer v off n :
  BInv (bview v) -> bquiet v -> is_u64 off -> is_u32 n ->
  wp (block_read off n) (fun r v' => at_b (bquiet v) (bview v) v' /\
    r = if off + n <=? g_size_bytes (b_geometry v) then Ok (dev (bview v) <$> seqZ off n) else Err (Raise Invalid)) v.
Proof.
  intros Hi Hq Hoff Hn. eapply wp_mono; [by apply read_effect|]. intros r v' (Hv & Hr & Hok). split; [done|]. rewrite <- (Hok Hq).
  destruct r as [out|h]; simpl; [|by rewrite (Hr Hq)]. destruct Hr as [Hl Hb]. f_equal.
  apply byte_at_ext; [unfold len in *; rewrite length_fmap, length_seqZ; unfold is_u32 in *; lia|].
  intros i Hx. by rewrite Hb, byte_at_disk by lia.
Qed.

(** Rounds enough for every trim within the device. *)
Lemma trim_fuel v off n fuel :
  BInv (bview v) -> is_u64 off -> off + n <= g_size_bytes (b_geometry v) ->
  g_size_bytes (b_geometry v) / chunk_size (b_geometry v) + 2 < Z.of_nat fuel -> n / chunk_size (b_geometry v) + 2 < Z.of_nat fuel.
Proof.
  intros Hi Ho Hle Hf. destruct (bi_cs _ Hi) as [Hcs _]. unfold is_u64 in *.
  pose proof (Z.div_le_mono n (g_size_bytes (b_geometry v)) (chunk_size (b_geometry v)) Hcs ltac:(lia)). lia.
Qed.

(** One command of a device that answers as the disk does. *)
Definition follows (size : Z) c d v (r : result (Halt FsError) bytes) v' : Prop :=
  let '(r0, d') := disk_exec size c d in
  r = map_err Raise r0 /\ holds_disk v' d' /\ b_geometry v' = b_geometry v.

(** An operation that answers nothing: refused beyond the end, else it
    succeeds with the new bytes. *)
Lemma changes_follow (m : BM unit) c v d off n Fd :
  holds_disk v d -> disk_exec (g_size_bytes (b_geometry v)) c d =
    (if off + n <=? g_size_bytes (b_geometry v) then (Ok [], Fd) else (Err Invalid, d)) ->
  (g_size_bytes (b_geometry v) < off + n -> wp m (fun _ v' => v' = v) v) ->
  wp m (fun r v' => (r = if off + n <=? g_size_bytes (b_geometry v) then Ok tt else Err (Raise Invalid)) /\
    b_geometry v' = b_geometry v /\ (r = Ok tt -> holds_disk v' Fd)) v ->
  wp (m ;;; st_ret []) (follows (g_size_bytes (b_geometry v)) c d v) v.
Proof.
  intros Hk Hd Hno Hyes. apply wp_bind. unfold wp in *. unfold follows. rewrite Hd. destruct (m v) as [r v']. destruct Hyes as (-> & Hg & Hok).
  destruct (Z.leb_spec (off + n) (g_size_bytes (b_geometry v))); simpl; [by auto|]. specialize (Hno ltac:(lia)). by subst v'.
Qed.

Lemma exec_disk fuel c v d :
  holds_disk v d -> bcmd_ok c -> g_size_bytes (b_geometry v) / chunk_size (b_geometry v) + 2 < Z.of_nat fuel ->
  wp (exec (BlockVolume_dev no_task fuel) c) (follows (g_size_bytes (b_geometry v)) c d v) v.
Proof.
  intros Hk Hc Hfuel. pose proof Hk as [Hi Hq Hfree Hd]. pose proof no_task_rely as Hrely.
  destruct c as [off n|off data fua| |off n|off n fua]; cbn [exec BlockVolume_dev bd_read bd_write bd_flush bd_trim bd_write_zeroes bcmd_ok] in *.
  - destruct Hc as [Ho Hn]. eapply wp_mono; [by apply read_answer|]. intros r v' [Hv ->]. unfold follows. simpl.
    split; [|split; [by eapply holds_same|destruct Hv as [E _ _]; change (bs_g (bview v') = bs_g (bview v)); by rewrite E]].
    destruct (_ <=? _); [|done]. simpl. f_equal. by apply list_fmap_ext.
  - destruct Hc as [Ho Hn]. eapply (changes_follow _ _ v d off (len data)); [done|done| |].
    + intros Hlt. by apply prologue_refuses.
    + eapply wp_mono; [by apply write_effect|]. intros r v' [He Ha]. specialize (Ha Hq). split; [|split; [apply He|]].
      * destruct (Z.leb_spec (off + len data) (g_size_bytes (b_geometry v))); [|done].
        destruct Ha as [->|(_ & d0 & Hov)]; [done|]. by apply unlimited_free in Hov.
      * intros ->. eapply holds_changed; [done|done|]. intros x. unfold overwritten. by rewrite Hd.
  - apply wp_bind. eapply (wp_b_flush (bquiet v) (bview v)); [by split| |by intros].
    intros v' Hv. split; [done|]. split; [by eapply holds_same|]. destruct Hv as [E _ _]. change (bs_g (bview v') = bs_g (bview v)). by rewrite E.
  - destruct Hc as [Ho Hn]. eapply (changes_follow _ _ v d off n); [done|done|intros Hlt; by apply prologue_refuses|].
    eapply wp_mono; [apply trim_effect; try done|].
    + intros Hle. by apply (trim_fuel v off).
    + intros r v' (He & _ & Ha). split; [by apply Ha|]. split; [apply He|]. intros ->. by eapply holds_trimmed.
  - destruct Hc as [Ho Hn]. eapply (changes_follow _ _ v d off n); [done|done|intros Hlt; by apply prologue_refuses|].
    eapply wp_mono; [by apply write_zeroes_effect|]. intros r v' [He Ha]. split; [by apply Ha|]. split; [apply He|].
    intros ->. eapply holds_changed; [done|done|]. intros x. unfold zeroed. by rewrite Hd.
Qed.

(** C12: a block volume is a disk: on a volume free of faults and limits any
    sequence of reads, writes, flushes, trims and zeroings gets the answers an
    array of bytes gives, and leaves its bytes. *)
Theorem block_refines_disk fuel cs v d :
  holds_disk v d -> Forall bcmd_ok cs -> g_size_bytes (b_geometry v) / chunk_size (b_geometry v) + 2 < Z.of_nat fuel ->
  let '(rs, v') := exec_all (BlockVolume_dev no_task fuel) cs v in
  let '(rs0, d') := disk_all (g_size_bytes (b_geometry v)) cs d in
  rs = map_err Raise <$> rs0 /\ holds_disk v' d'.
Proof.
  intros Hk Hcs Hf. revert v d Hk Hf. induction Hcs as [|c cs Hc _ IH]; intros v d Hk Hf; [done|]. cbn [exec_all disk_all].
  pose proof (exec_disk fuel c v d Hk Hc Hf) as Hx. unfold wp, follows in Hx. destruct (exec _ c v) as [r v1], (disk_exec _ c d) as [r0 d1].
  destruct Hx as (-> & Hk1 & Hg). rewrite <- Hg in *. specialize (IH v1 d1 Hk1 Hf).
  destruct (exec_all _ cs v1) as [rs v2], (disk_all _ cs d1) as [rs0 d2]. destruct IH as [-> Hk2]. done.
Qed.
End refinement.
