(* ===== verification/BlockLife.v ===== *)
(** The life of a block volume: a device is made empty and opens; a byte that a
    flush or a forced write made durable is there when the device is reopened
    after a crash, whatever was lost of the commands since that spare it; fsck
    finds nothing wrong with the device, and a snapshot reads as it did. *)

From S2P Require Import Prelude Keys Meta Store Data Quota Locks Volume Wf VfsLogic Reap Mount Fsck FsckThm.
From S2P Require Import Block BlockThm BlockOps BlockTrim BlockSpec.

(** An active block volume of a legal size. *)
Record attachable (record : VolumeRecord) (size : Z) : Prop := {
  at_kind : vr_kind record = Block size;
  at_state : vr_state record = Active;
  at_cs : 0 < vr_chunk_size record <= 2 ^ 22;
  at_size : validate_block_size size (vr_chunk_size record) = Ok tt
}.

Section life.
Context {DB : SlateDB}.
Implicit Types (v : BlockVolume) (s : bstate) (e : Engine).

(** The state a volume opens in. *)
Definition open_state record size (m : gmap Key Value) : bstate :=
  {| bs_m := m; bs_g := {| g_size_bytes := size; g_min_block := MIN_BLOCK_SIZE; g_preferred_block := vr_chunk_size record;
       g_max_payload := MAX_PAYLOAD; g_read_only := false |};
     bs_bytes := counter m KQuotaBytes; bs_inodes := counter m KQuotaInodes; bs_limits := vr_quota record |}.

Lemma validate_size_bounds size cs : 0 < cs -> 0 <= size -> validate_block_size size cs = Ok tt -> 0 < size <= max_size cs.
Proof.
  intros Hc Hs. unfold validate_block_size, max_size, U32_MAX. destruct (Z.eqb_spec size 0); [done|]. destruct (negb _); [done|].
  destruct (cs =? 0); [done|]. destruct (Z.ltb_spec (cs * (2 ^ 32 - 1 + 1)) size); [done|]. intros _. lia.
Qed.

Lemma open_quiet record size sb e :
  attachable record size -> contents (e_db e) !! KSuperblock = Some (VSuperblock sb) -> verify_superblock_matches_record record sb = Ok tt ->
  e_faults e = [] -> exists v, BlockVolume_open record e = (Ok v, e) /\ bview v = open_state record size (contents (e_db e)) /\ bquiet v.
Proof.
  intros [Hk Hst Hcs Hsz] Hsb Hver He. unfold BlockVolume_open. rewrite bool_decide_eq_true_2 by done. cbn [negb].
  assert (sb_kind sb = Block size /\ sb_chunk_size sb = vr_chunk_size record) as [Ek Ec].
  { unfold verify_superblock_matches_record in Hver. destruct (negb (sb_fsid sb =? _)); [done|].
    destruct (negb (bool_decide (sb_cipher sb = vr_cipher record))); [done|].
    destruct (Z.eqb_spec (sb_chunk_size sb) (vr_chunk_size record)); [|done]. simpl in Hver. destruct (bool_decide _) eqn:E; [|done].
    apply bool_decide_eq_true in E. by rewrite E. }
  unfold block_load, st_bind, st_try, lift_db, st_map_err, st_lift. rewrite get_quiet by done. cbn [map_err].
  unfold block_superblock. rewrite Hsb. cbn [SuperblockV_decode]. rewrite Hver, Ek, Ec, Hsz. cbn [map_err].
  rewrite get_quiet by done. cbn [map_err]. rewrite get_quiet by done. cbn [map_err st_ret st_get].
  eexists. split; [done|]. split; [|by split]. unfold bview, open_state. simpl. unfold block_geometry. by rewrite Ec.
Qed.

Lemma open_fresh_inv record size ts :
  attachable record size -> 0 <= size -> BInv (open_state record size (mkfs_store record ts)).
Proof.
  intros [Hk Hst Hcs Hsz] Hs. pose proof (mkfs_block_lookup record size ts) as Hm.
  assert (forall idx, mkfs_store record ts !! KChunk BLOCK_INO idx = None) as Hc by (intros; by rewrite Hm).
  split; simpl; try done.
  - apply validate_size_bounds; [unfold chunk_size; simpl; lia|done|done].
  - intros k x Hx. rewrite Hm in Hx by done. by destruct k.
  - by rewrite Hm.
  - intros idx x Hx. by rewrite Hc in Hx.
  - intros idx x Hx. by rewrite Hc in Hx.
  - intros idx [x Hx]. by rewrite Hc in Hx.
  - intros x Hx. by rewrite Hm in Hx.
  - unfold counter, bill, billed. rewrite Hm by done. rewrite msum_zero; [done|].
    intros k x Hx. rewrite Hm in Hx by done. by destruct k.
  - unfold counter. by rewrite Hm.
Qed.

(** What a command keeps, whatever happens during it. *)
Definition keeps v v' : Prop :=
  BInv (bview v') /\ b_geometry v' = b_geometry v /\ bs_m (bview v') !! KSuperblock = bs_m (bview v) !! KSuperblock.

Lemma keeps_at {CR : Crash} v v' H : BInv (bview v) -> at_b H (bview v) v' -> keeps v v'.
Proof. intros Hi [E _ _]. split; [by rewrite E|]. split; [change (bs_g (bview v') = bs_g (bview v))|]; by rewrite E. Qed.

Lemma keeps_effect others v r v' F : brely others -> BInv (bview v) -> effect others v r v' F -> keeps v v'.
Proof.
  intros Hr Hi (E1 & E2 & _ & s & Es & [_ El] & _). split; [done|]. split; [done|]. rewrite El. destruct Es as [->| ->]; [done|].
  by apply locked_ok.
Qed.

Lemma keeps_trimmed others v r v' off n : brely others -> BInv (bview v) -> trimmed others v r v' off n -> keeps v v'.
Proof.
  intros Hr Hi (E1 & E2 & _ & s & Es & [_ El] & _). split; [done|]. split; [done|]. rewrite El. destruct Es as [->| ->]; [done|].
  by apply locked_ok.
Qed.

(** The command keeps what is claimed of a crash of the device [g]. *)
Definition stable_cmd {CR : Crash} g (c : bcmd) : Prop :=
  match c with
  | BWrite off data _ => stable g off (len data)
  | BTrim off n | BZeroes off n _ => stable g off n
  | BRead _ _ | BFlush => True
  end.

Lemma exec_keeps {CR : Crash} others fuel c v :
  brely others -> crely others -> BInv (bview v) -> safe v -> bcmd_ok c -> stable_cmd (b_geometry v) c ->
  g_size_bytes (b_geometry v) / chunk_size (b_geometry v) + 2 < Z.of_nat fuel ->
  wp (exec (BlockVolume_dev others fuel) c) (fun _ v' => keeps v v' /\ safe v') v.
Proof.
  intros Hr Hcr Hi Hsf Hc Hst Hf.
  assert (forall m : BM unit, wp m (fun _ v' => keeps v v' /\ safe v') v -> wp (m ;;; st_ret ([] : bytes)) (fun _ v' => keeps v v' /\ safe v') v) as Hun.
  { intros m Hm. apply wp_bind. eapply wp_mono; [exact Hm|]. by intros [] v' Hv'. }
  destruct c as [off n|off data fua| |off n|off n fua]; cbn [exec BlockVolume_dev bd_read bd_write bd_flush bd_trim bd_write_zeroes bcmd_ok stable_cmd] in *;
    try apply Hun.
  - destruct Hc. eapply wp_mono; [by apply read_runs|]. intros r v' [Hv _]. split; [by eapply keeps_at|apply Hv].
  - destruct Hc. eapply wp_mono; [by apply (write_runs others Hr)|]. intros r v' (Hs & He & _). split; [by eapply keeps_effect|done].
  - eapply (wp_b_flush (bquiet v) (bview v) v); [by split|intros v' Hv'; split; [by eapply keeps_at|apply Hv']|].
    intros x v' Hv' _. split; [by eapply keeps_at|apply Hv'].
  - destruct Hc. eapply wp_mono; [apply (trim_runs others Hr Hcr); try done|].
    + intros Hle. by apply (trim_fuel v off).
    + intros r v' (Hs & He & _). split; [by eapply keeps_trimmed|done].
  - destruct Hc. eapply wp_mono; [by apply (write_zeroes_runs others Hr)|]. intros r v' (Hs & He & _). split; [by eapply keeps_effect|done].
Qed.

Lemma exec_all_keeps {CR : Crash} others fuel cs v :
  brely others -> crely others -> BInv (bview v) -> safe v -> Forall bcmd_ok cs -> Forall (stable_cmd (b_geometry v)) cs ->
  g_size_bytes (b_geometry v) / chunk_size (b_geometry v) + 2 < Z.of_nat fuel ->
  let v' := (exec_all (BlockVolume_dev others fuel) cs v).2 in keeps v v' /\ safe v'.
Proof.
  intros Hr Hcr Hi Hsf Hcs. revert v Hi Hsf. induction Hcs as [|c cs Hc _ IH]; intros v Hi Hsf Hst Hf; [by split|]. cbn [exec_all].
  apply Forall_cons in Hst as [Hst Hsts]. pose proof (exec_keeps others fuel c v Hr Hcr Hi Hsf Hc Hst Hf) as Hk. unfold wp in Hk.
  destruct (exec _ c v) as [r v1]. destruct Hk as [(K1 & K2 & K3) Hs1].
  rewrite <- K2 in Hf, Hsts. destruct (IH v1 K1 Hs1 Hsts Hf) as [(L1 & L2 & L3) Hs2]. destruct (exec_all _ cs v1) as [rs v2]. simpl in *.
  split; [|done]. split; [done|]. split; [by rewrite L2|etrans; [exact L3|exact K3]].
Qed.

(** A block volume just made opens as a device of its size that reads as
    zeroes everywhere. *)
Theorem block_opens_empty record size ts e :
  attachable record size -> 0 <= size -> contents (e_db e) = mkfs_store record ts -> e_faults e = [] ->
  exists v, (BlockVolume_open record e).1 = Ok v /\ BInv (bview v) /\ bquiet v /\
    g_size_bytes (b_geometry v) = size /\ forall x, dev (bview v) x = 0.
Proof.
  intros Ha Hs Hm He. destruct (mkfs_superblock record ts) as (sb & Hsb & _ & _ & Hver).
  { unfold makeable. rewrite (at_kind _ _ Ha). apply Ha. }
  rewrite <- Hm in Hsb. destruct (open_quiet record size sb e Ha Hsb Hver He) as (v & Hv & Hb & Hq).
  exists v. rewrite Hv, Hb, Hm. split_and!; [done|by apply open_fresh_inv|done|by change (b_geometry v) with (bs_g (bview v)); rewrite Hb|].
  intros x. unfold dev, bytes_at, content, chunk_at. simpl. rewrite (mkfs_block_lookup record size) by apply Ha. rewrite byte_at_nil. by destruct (_ && _).
Qed.

(** ** Crashes *)

(** Once the computation succeeds, a crash loses nothing. *)
Definition synced v : Prop := forall m, db_survives (e_db (b_eng v)) m -> m = contents (e_db (b_eng v)).
Definition syncs {A} (m : BM A) : Prop := forall v a v', m v = (Ok a, v') -> synced v'.

Lemma syncs_bind {A B} (m : BM A) (f : A -> BM B) : (forall a, syncs (f a)) -> syncs (st_bind m f).
Proof. intros Hf v b v'. unfold st_bind. destruct (m v) as [[a|x] v1]; [apply Hf|done]. Qed.

Lemma syncs_done (m : BM unit) : syncs m -> syncs (m ;;; st_ret ([] : bytes)).
Proof. intros Hm v b v'. unfold st_bind. destruct (m v) as [[a|x] v1] eqn:E; [|done]. intros [= _ <-]. by eapply Hm. Qed.

Lemma syncs_flush : syncs (b_storage flush).
Proof.
  intros v a v'. unfold b_storage, flush, st_bind, st_modify. destruct (poll (b_eng v)) as [[[]|x] e]; simpl;
    unfold VolumeHealth.map_storage, VolumeHealth.ensure_live; destruct (h_dead (b_health v)) eqn:E; simpl; rewrite ?E; try done.
  intros [= _ <-] m Hm. simpl in *. rewrite db_flush_spec. by apply db_flush_survives.
Qed.

(** The commands after which the caller may rely on storage. *)
Definition barrier (c : bcmd) : bool :=
  match c with BFlush => true | BWrite _ _ fua | BZeroes _ _ fua => fua | _ => false end.

Lemma barrier_syncs others fuel c : barrier c = true -> syncs (exec (BlockVolume_dev others fuel) c).
Proof.
  destruct c as [off n|off data fua| |off n|off n fua]; intros Hb; simplify_eq/=; apply syncs_done; try apply syncs_flush;
    repeat first [apply syncs_flush | apply syncs_bind; intros | case_match | progress unfold b_commit].
Qed.

(** The command leaves byte [x] alone. *)
Definition spares (x : Z) (c : bcmd) : Prop :=
  match c with
  | BWrite off data _ => ~ off <= x < off + len data
  | BTrim off n | BZeroes off n _ => ~ off <= x < off + n
  | BRead _ _ | BFlush => True
  end.

(** The records of a device of the record, with the byte [b] at [x]. *)
Definition durable record size sb (x : Z) (b : u8) : Crash := fun m =>
  BInv (open_state record size m) /\ m !! KSuperblock = Some (VSuperblock sb) /\ dev (open_state record size m) x = b.

Lemma open_state_inv record size s : BInv s -> bs_g s = bs_g (open_state record size ∅) -> BInv (open_state record size (bs_m s)).
Proof. intros [C1 C2 C3 C4 C5 C6 C0 C7 C8 C9 C10 C11] Hg. rewrite Hg in *. by split. Qed.

Lemma durable_stable record size sb x b c :
  spares x c -> stable_cmd (CR := durable record size sb x b) (bs_g (open_state record size ∅)) c.
Proof.
  intros Hc. destruct c as [off n|off data fua| |off n|off n fua]; try done; simpl in *;
    intros s s' Hg Hi Hi' Hg' [_ Hsb] Hx (_ & D2 & D3);
    (split; [by apply open_state_inv|split; [by rewrite Hsb|]]);
    specialize (Hx x Hc); unfold dev in *; rewrite Hg, Hg' in Hx; rewrite <- D3; exact Hx.
Qed.

Lemma durable_opens record size sb x b e :
  attachable record size -> verify_superblock_matches_record record sb = Ok tt ->
  durable record size sb x b (contents (e_db e)) -> e_faults e = [] ->
  exists v, (BlockVolume_open record e).1 = Ok v /\ BInv (bview v) /\ bquiet v /\
    bs_g (bview v) = bs_g (open_state record size ∅) /\ dev (bview v) x = b.
Proof.
  intros Ha Hver (D1 & D2 & D3) He. destruct (open_quiet record size sb e Ha D2 Hver He) as (v & Hv & Hb & Hq).
  exists v. by rewrite Hv, Hb.
Qed.

(** C15: what a barrier acknowledged survives a crash.  Writes reach storage
    only when they are flushed, and a crash may lose the later ones.  Take any
    commands, with storage failing at any point and other tasks running at
    every lock wait, of which a flush, a FUA write or a FUA zeroing succeeded;
    then any further commands, cut off by a crash.  Whatever of the store the
    crash leaves, the volume opens again as a sound device, and every byte that
    was not written after the barrier (by a later command or by another task)
    is the byte the device held at the barrier. *)
Theorem block_survives others fuel pre c post record size sb v x r v1 m e :
  brely others -> crely (CR := durable record size sb x (dev (bview v1) x)) others ->
  attachable record size -> verify_superblock_matches_record record sb = Ok tt ->
  BInv (bview v) -> bs_m (bview v) !! KSuperblock = Some (VSuperblock sb) ->
  bs_g (bview v) = bs_g (open_state record size ∅) ->
  Forall bcmd_ok (pre ++ c :: post) -> size / vr_chunk_size record + 2 < Z.of_nat fuel ->
  let D := BlockVolume_dev others fuel in
  barrier c = true -> exec D c (exec_all D pre v).2 = (Ok r, v1) -> Forall (spares x) post ->
  db_survives (e_db (b_eng (exec_all D post v1).2)) m -> contents (e_db e) = m -> e_faults e = [] ->
  exists v2, (BlockVolume_open record e).1 = Ok v2 /\ BInv (bview v2) /\ bquiet v2 /\
    bs_g (bview v2) = bs_g (bview v) /\ dev (bview v2) x = dev (bview v1) x.
Proof.
  intros Hr Hcr Ha Hver Hi Hsb Hg [Hpre [Hc Hpost]%Forall_cons]%Forall_app Hf D Hb Hx Hsp Hm <- He. rewrite Hg.
  assert (g_size_bytes (b_geometry v) / chunk_size (b_geometry v) + 2 < Z.of_nat fuel) as Hf0.
  { change (b_geometry v) with (bs_g (bview v)). by rewrite Hg. }
  pose proof (exec_all_keeps (CR := any_crash) others fuel (pre ++ [c]) v Hr ltac:(done) Hi ltac:(done)) as Hk.
  rewrite exec_all_app in Hk. fold D in Hk. destruct (exec_all D pre v) as [rs0 v0]. cbn [exec_all snd] in *. rewrite Hx in Hk.
  destruct Hk as [(K1 & K2 & K3) _]; [apply Forall_app; split; [done|by apply Forall_singleton]|apply Forall_forall; intros [] _; by simpl|done|].
  change (bs_g (bview v1) = bs_g (bview v)) in K2. cbn [snd] in *. rewrite Hsb in K3.
  assert (safe (CR := durable record size sb x (dev (bview v1) x)) v1) as Hsf.
  { intros m' Hm'. assert (m' = bs_m (bview v1)) as -> by (destruct Hm' as [->|Hm']; [done|by eapply (barrier_syncs others fuel c Hb)]).
    split; [apply open_state_inv; [done|by rewrite K2]|]. split; [done|]. unfold dev. by rewrite K2, Hg. }
  destruct (exec_all_keeps (CR := durable record size sb x (dev (bview v1) x)) others fuel post v1 Hr Hcr K1 Hsf Hpost) as [_ Hsf2].
  { apply Forall_forall. intros c' Hc'. change (b_geometry v1) with (bs_g (bview v1)). rewrite K2, Hg. apply durable_stable.
    by apply (proj1 (Forall_forall _ _) Hsp). }
  { change (b_geometry v1) with (bs_g (bview v1)). by rewrite K2. }
  eapply durable_opens; [done..| |done]. apply Hsf2. by right.
Qed.

(** ** Fsck *)

Lemma scan_block_quiet size cs it b e : e_faults e = [] -> scan_block size cs it b e = (Ok (fold_left (block_step size cs) it b), e).
Proof.
  intros He. revert b. induction it as [|kv it IH]; intros b; cbn [scan_block fold_left]; unfold st_bind, lift_db, st_map_err, iter_next;
    unfold st_bind; rewrite poll_quiet by done; [done|]. apply IH.
Qed.

(** A record of a sound device raises no complaint. *)
Lemma block_step_sound s b k x :
  BInv s -> bs_m s !! k = Some x -> is_i64 (b_bytes b) ->
  block_step (g_size_bytes (bs_g s)) (chunk_size (bs_g s)) b (k, x) =
    {| b_problems := b_problems b; b_superblock := b_superblock b || bool_decide (k = KSuperblock);
       b_bytes := as_i64 (b_bytes b + billed_chunk (chunk_size (bs_g s)) BLOCK_INO (g_size_bytes (bs_g s)) k x) |}.
Proof.
  intros Hi Hk Hb. pose proof (bi_keys _ Hi _ _ Hk) as Hbk. destruct (bi_cs _ Hi) as [Hc Hc'].
  destruct k; try done; unfold block_step; cbn [fst snd].
  - rewrite bool_decide_eq_true_2 by done. simpl. rewrite orb_true_r, Z.add_0_r, as_i64_small by done. done.
  - destruct Hbk as [-> Hu]. destruct (bi_fit _ Hi _ _ Hk) as [_ Hlen]. pose proof (bi_start _ Hi idx ltac:(by eexists)) as Hst.
    rewrite !bool_decide_eq_false_2 by done. cbn [orb]. rewrite parse_chunk_ok by done. cbn [negb Z.eqb BLOCK_INO].
    rewrite as_u64_small by (unfold is_u64, is_u32 in *; nia). rewrite (proj2 (Z.leb_gt _ _)), (proj2 (Z.ltb_ge _ _)) by done.
    rewrite !app_nil_r, orb_false_r. unfold billed_chunk. rewrite Z.eqb_refl. f_equal. by rewrite as_i64_add_r.
  - simpl. rewrite orb_false_r, Z.add_0_r, as_i64_small by done. by destruct b.
  - simpl. rewrite orb_false_r, Z.add_0_r, as_i64_small by done. by destruct b.
Qed.

Lemma block_steps_sound s it b :
  BInv s -> (forall k x, (k, x) ∈ it -> bs_m s !! k = Some x) -> is_i64 (b_bytes b) ->
  fold_left (block_step (g_size_bytes (bs_g s)) (chunk_size (bs_g s))) it b =
    {| b_problems := b_problems b; b_superblock := b_superblock b || bool_decide (KSuperblock ∈ it.*1);
       b_bytes := as_i64 (b_bytes b + sumZ (fun kv => billed_chunk (chunk_size (bs_g s)) BLOCK_INO (g_size_bytes (bs_g s)) kv.1 kv.2) it) |}.
Proof.
  intros Hi. revert b. induction it as [|[k x] it IH]; intros b Hit Hb.
  - simpl. rewrite orb_false_r, Z.add_0_r, as_i64_small by done. by destruct b.
  - cbn [fold_left]. rewrite (block_step_sound s b k x) by (try done; apply Hit; set_solver).
    rewrite IH; [|set_solver|apply as_i64_range]. cbn [b_problems b_superblock b_bytes]. f_equal.
    + rewrite <- orb_assoc. f_equal. cbn [fmap list_fmap fst]. rewrite <- bool_decide_or. apply bool_decide_ext. rewrite elem_of_cons. naive_solver.
    + unfold sumZ at 2. cbn [foldr fst snd]. fold (sumZ (fun kv => billed_chunk (chunk_size (bs_g s)) BLOCK_INO (g_size_bytes (bs_g s)) kv.1 kv.2) it).
      rewrite as_i64_add_l. f_equal. lia.
Qed.

(** Fsck of a sound block volume reports no problem and finds both usage
    counters equal to what it counts. *)
Theorem block_check_clean s e :
  BInv s -> contents (e_db e) = bs_m s -> e_faults e = [] ->
  exists r, check_block (g_size_bytes (bs_g s)) (chunk_size (bs_g s)) e = (Ok r, e) /\
    is_clean r = true /\ reapable r = [].
Proof.
  intros Hi Hm He. set (it := Store.db_scan (e_db e) None None).
  assert (forall k x, (k, x) ∈ it <-> bs_m s !! k = Some x) as Hit.
  { intros k x. unfold it. rewrite Store.db_scan_elem, Hm. naive_solver. }
  assert (it ≡ₚ map_to_list (bs_m s)) as Hp.
  { apply NoDup_Permutation; [eapply NoDup_fmap_1, Store.db_scan_nodup|apply NoDup_map_to_list|]. intros [k x]. by rewrite Hit, elem_of_map_to_list. }
  unfold check_block, read_counter, st_bind, lift_db, st_map_err. rewrite get_quiet by done. cbn [map_err st_ret].
  rewrite get_quiet by done. cbn [map_err st_ret]. rewrite scan_quiet by done. cbn [map_err]. fold it.
  rewrite scan_block_quiet by done. rewrite (block_steps_sound s) by (try done; apply Hit). cbn [b_problems b_superblock b_bytes st_ret].
  eexists. split; [done|]. destruct (bi_super _ Hi) as [sbv Hsb]. rewrite bool_decide_eq_true_2.
  2: { apply list_elem_of_fmap. exists (KSuperblock, sbv). split; [done|]. by apply Hit. }
  split; [|done]. unfold is_clean, counters_match. simpl. rewrite Hm.
  change (decode_counter (value_bytes <$> bs_m s !! KQuotaBytes)) with (counter (bs_m s) KQuotaBytes).
  change (decode_counter (value_bytes <$> bs_m s !! KQuotaInodes)) with (counter (bs_m s) KQuotaInodes).
  rewrite (bi_qi _ Hi), (bi_qb _ Hi), (sumZ_perm _ _ _ Hp), (sumZ_map (billed_chunk _ _ _)). unfold bill, billed. by rewrite Z.eqb_refl.
Qed.

(** ** Snapshots *)

Lemma snapshot_chunks_read sv cs off idxs out :
  e_faults (sv_reader sv) = [] ->
  snapshot_chunks cs off idxs out sv =
    (map_err (fun x => Raise (fs_error_from_error x)) (read_chunks (e_db (sv_reader sv)) cs BLOCK_INO off idxs out (sv_reader sv)).1, sv).
Proof.
  intros He. revert out. induction idxs as [|i idxs IH]; intros out; [done|]. cbn [snapshot_chunks read_chunks].
  unfold st_bind, snapshot_reader, lift_db, st_map_err. rewrite get_quiet, snapshot_get_quiet by done. cbn [map_err]. 
  destruct sv as [e g]. simpl in *. apply IH.
Qed.

(** A read of a fault-free snapshot. *)
Lemma snapshot_read_quiet s sv off n :
  BInv s -> contents (e_db (sv_reader sv)) = bs_m s -> e_faults (sv_reader sv) = [] -> is_u64 off -> is_u32 n ->
  g_size_bytes (sv_geometry sv) = g_size_bytes (bs_g s) -> chunk_size (sv_geometry sv) = chunk_size (bs_g s) ->
  exists r, snapshot_read off n sv = (r, sv) /\
    r = if off + n <=? g_size_bytes (bs_g s) then Ok (dev s <$> seqZ off n) else Err (Raise Invalid).
Proof.
  intros Hi Hm He Hoff Hn Hsz Hcs. destruct (bi_cs _ Hi) as [Hc Hc'], (bi_size _ Hi) as [_ Hmax].
  assert (is_u64 n) as Hn' by (unfold is_u32, is_u64 in *; lia).
  unfold snapshot_read, st_bind. cbn [st_get st_lift].
  assert (extent_end (sv_geometry sv) off n = extent_end (bs_g s) off n) as -> by (unfold extent_end; by rewrite Hsz).
  rewrite extent_end_spec by done. destruct (Z.leb_spec (off + n) (g_size_bytes (bs_g s))) as [Hle|Hgt]; cbn [map_err]; [|by eexists].
  destruct (Z.eqb_spec n 0) as [->|Hn0]; [by eexists|]. unfold is_u64, is_u32 in *. rewrite Hcs, !chunk_of_small by lia.
  rewrite snapshot_chunks_read by done. set (cs := chunk_size (bs_g s)) in *.
  assert (off / cs <= (off + n - 1) / cs) by (apply Z.div_le_mono; lia).
  assert (0 <= off / cs) by (apply Z.div_pos; lia).
  destruct (read_chunks_quiet (e_db (sv_reader sv)) cs BLOCK_INO off (off / cs) (Z.to_nat ((off + n - 1) / cs - off / cs + 1))
              n (zeros (off + n - off)) (sv_reader sv)) as (out & Hr & Hl & Hb); try done; try lia.
  { rewrite Hm. apply Hi. }
  { rewrite len_zeros. lia. }
  { intros i Hx. rewrite byte_at_zeros. destruct (Z.ltb_spec ((off + i) / cs) (off / cs)); [|done].
    pose proof (Z.div_le_mono off (off + i) cs). lia. }
  rewrite Z2Nat.id in Hr, Hb by lia. unfold range_incl. rewrite Hr. eexists. split; [done|]. simpl. f_equal.
  apply byte_at_ext; [unfold len in *; rewrite length_fmap, length_seqZ; lia|]. intros i Hx. rewrite Hl in Hx. rewrite Hb, byte_at_disk by done.
  pose proof (Z.div_le_mono (off + i) (off + n - 1) cs). rewrite (proj2 (Z.ltb_lt _ _)) by lia.
  unfold window, dev, bytes_at, content. rewrite Hm, (proj2 (Z.leb_le _ _)), (proj2 (Z.ltb_lt _ _)) by lia. done.
Qed.

(** What a read-only device that holds the bytes of [s] answers. *)
Definition read_only_answer s (c : bcmd) : result (Halt FsError) bytes :=
  match c with
  | BRead off n => if off + n <=? g_size_bytes (bs_g s) then Ok (dev s <$> seqZ off n) else Err (Raise Invalid)
  | BFlush => Ok []
  | _ => Err (Raise ReadOnly)
  end.

#[local] Existing Instance any_crash.

Lemma read_only_exec others fuel c s v :
  BInv s -> at_b True s v -> bcmd_ok c ->
  wp (exec (ReadOnlyBlockDev (BlockVolume_dev others fuel)) c) (fun r v' => at_b True s v' /\ r = read_only_answer s c) v.
Proof.
  intros Hi [<- Hq _] Hc. specialize (Hq I).
  destruct c as [off n|off data fua| |off n|off n fua]; cbn [exec ReadOnlyBlockDev BlockVolume_dev bd_read bd_write bd_flush bd_trim bd_write_zeroes bcmd_ok] in *.
  - destruct Hc. eapply wp_mono; [by apply read_answer|]. intros r v' [[E HQ _] ->]. split; [split; auto; done|done].
  - split; [by split|done].
  - apply wp_bind. eapply (wp_b_flush True (bview v)); [by split|intros v' Hv'; by split|by intros].
  - split; [by split|done].
  - split; [by split|done].
Qed.

Lemma snapshot_exec c s sv :
  BInv s -> contents (e_db (sv_reader sv)) = bs_m s -> e_faults (sv_reader sv) = [] -> bcmd_ok c ->
  g_size_bytes (sv_geometry sv) = g_size_bytes (bs_g s) -> chunk_size (sv_geometry sv) = chunk_size (bs_g s) ->
  exec SnapshotBlockVolume_dev c sv = (read_only_answer s c, sv).
Proof.
  intros Hi Hm He Hc Hsz Hcs. destruct c as [off n|off data fua| |off n|off n fua]; try done.
  destruct Hc. destruct (snapshot_read_quiet s sv off n) as (r & Hr & ->); done.
Qed.

(** C16: a snapshot is the device at its checkpoint, read only: any sequence of
    commands gets from it the answers the read-only view of the volume gives
    (bytes for reads, an error for every mutation), and neither changes. *)
Theorem snapshot_equals_read_only others fuel cs sv v :
  BInv (bview v) -> bquiet v -> contents (e_db (sv_reader sv)) = bs_m (bview v) -> e_faults (sv_reader sv) = [] ->
  sv_geometry sv = bd_geometry (ReadOnlyBlockDev (BlockVolume_dev others fuel)) v -> Forall bcmd_ok cs ->
  let '(rs, sv') := exec_all SnapshotBlockVolume_dev cs sv in
  let '(rs0, v') := exec_all (ReadOnlyBlockDev (BlockVolume_dev others fuel)) cs v in
  rs = rs0 /\ rs = read_only_answer (bview v) <$> cs /\ sv' = sv /\ bview v' = bview v.
Proof.
  intros Hi Hq Hm He Hg Hcs. set (s := bview v) in *. assert (at_b True s v) as Hv by (by split).
  assert (g_size_bytes (sv_geometry sv) = g_size_bytes (bs_g s)) as Hsz by (by rewrite Hg).
  assert (chunk_size (sv_geometry sv) = chunk_size (bs_g s)) as Hc by (by rewrite Hg). clearbody s. clear Hg Hq.
  revert v Hv. induction Hcs as [|c cs Hok _ IH]; intros v Hv; [destruct Hv; done|]. cbn [exec_all].
  rewrite (snapshot_exec c s sv) by done. pose proof (read_only_exec others fuel c s v Hi Hv Hok) as Hx. unfold wp in Hx.
  destruct (exec (ReadOnlyBlockDev _) c v) as [r v1]. destruct Hx as [Hv1 ->]. specialize (IH v1 Hv1).
  destruct (exec_all _ cs sv) as [rs sv2], (exec_all _ cs v1) as [rs0 v2]. by destruct IH as (-> & -> & -> & ->).
Qed.
End life.
