(* ===== verification/BlockWitness.v ===== *)
(** A block volume of eight chunks, made and opened, on which the theorems on
    block volumes are applied. *)

From S2P Require Import Prelude Keys Meta Store Data Quota Locks Volume Wf VfsLogic Reap Mount Concrete Fsck FsckThm.
From S2P Require Import Block BlockThm BlockOps BlockTrim BlockSpec BlockLife.

(** A literal is within its width. *)
Ltac literal := vm_compute; split; congruence.

(** So are the arguments of the commands. *)
Ltac commands := repeat first [exact I | apply Forall_nil | apply Forall_cons; split; [split; literal|]].

Definition disk_size : u64 := 4096.

Definition disk_record : VolumeRecord :=
  {| vr_tenant := [116]; vr_name := [98]; vr_state := Active; vr_clone_parent := None;
     vr_clone_parent_checkpoint_ids := None; vr_fsid := 8; vr_wrapped_dek := []; vr_cipher := Aes256Gcm;
     vr_chunk_size := 512; vr_compression := CNone;
     vr_quota := {| lim_bytes := unlimited; lim_inodes := unlimited |};
     vr_kind := Block disk_size; vr_note := None; vr_created_at := 0 |}.

Definition disk_made : Engine := (mkfs disk_record demo_engine).2.

Definition disk_open : result Error BlockVolume * Engine := BlockVolume_open disk_record disk_made.

(** The opened volume. *)
Definition disk0 : BlockVolume :=
  match disk_open.1 with
  | Ok v => v
  | Err _ => mkBlock disk_made {| g_size_bytes := 0; g_min_block := 0; g_preferred_block := 0; g_max_payload := 0; g_read_only := true |}
               (QuotaTracker.new 0 0 (vr_quota disk_record)) (VolumeHealth.new None) 0
  end.

Lemma disk_attachable : attachable disk_record disk_size.
Proof. split; [done|done|simpl; lia|vm_compute; reflexivity]. Qed.

Lemma disk_made_store : contents (e_db disk_made) = mkfs_store disk_record ZERO.
Proof. reflexivity. Qed.

Lemma disk0_opened : bview disk0 = open_state disk_record disk_size (mkfs_store disk_record ZERO) /\ bquiet disk0.
Proof.
  destruct (mkfs_superblock disk_record ZERO) as (sb & Hsb & _ & _ & Hver); [vm_compute; reflexivity|]. rewrite <- disk_made_store in Hsb.
  destruct (open_quiet disk_record disk_size sb disk_made disk_attachable Hsb Hver eq_refl) as (v & Hv & Hb & Hq).
  unfold disk0, disk_open. rewrite Hv. cbn [fst]. rewrite Hb, disk_made_store. exact (conj eq_refl Hq).
Qed.

Lemma disk0_geometry : b_geometry disk0 = bs_g (open_state disk_record disk_size (mkfs_store disk_record ZERO)).
Proof. change (b_geometry disk0) with (bs_g (bview disk0)). by rewrite (proj1 disk0_opened). Qed.

Lemma disk0_inv : BInv (bview disk0).
Proof. rewrite (proj1 disk0_opened). apply open_fresh_inv; [apply disk_attachable|done]. Qed.

Lemma disk0_holds : holds_disk disk0 (fun _ => 0).
Proof.
  split; [apply disk0_inv|apply disk0_opened|by rewrite (proj1 disk0_opened)|].
  intros x. rewrite (proj1 disk0_opened). unfold dev, bytes_at, content, chunk_at. simpl.
  rewrite (mkfs_block_lookup disk_record disk_size) by done. rewrite byte_at_nil. by destruct (_ && _).
Qed.

(** The volume after a write that spans two chunks. *)
Definition disk_data : bytes := replicate 24 7.
Definition disk1 : BlockVolume := (block_write no_task 500 disk_data true disk0).2.

Lemma disk1_holds : holds_disk disk1 (fun x => if (500 <=? x) && (x <? 524) then byte_at disk_data (x - 500) else 0).
Proof.
  pose proof (exec_disk 20 (BWrite 500 disk_data true) disk0 (fun _ => 0) disk0_holds) as H.
  rewrite disk0_geometry in H. unfold wp, follows in H. cbn [exec BlockVolume_dev bd_write] in H. unfold st_bind in H. unfold disk1.
  destruct (block_write no_task 500 disk_data true disk0) as [r v] eqn:E.
  assert (r = Ok tt) as -> by (change r with (r, v).1; rewrite <- E; vm_compute; reflexivity).
  destruct (H ltac:(split; literal) ltac:(vm_compute; reflexivity)) as (_ & Hk & _). exact Hk.
Qed.

Lemma disk1_geometry : b_geometry disk1 = b_geometry disk0.
Proof. vm_compute. reflexivity. Qed.

Lemma disk1_fuel : 0 + 1024 <= g_size_bytes (b_geometry disk1) -> 1024 / chunk_size (b_geometry disk1) + 2 < Z.of_nat 20.
Proof. rewrite disk1_geometry, disk0_geometry. intros _. vm_compute. reflexivity. Qed.

Lemma disk0_fuel : g_size_bytes (b_geometry disk0) / chunk_size (b_geometry disk0) + 2 < Z.of_nat 20.
Proof. rewrite disk0_geometry. vm_compute. reflexivity. Qed.

Lemma block_write_correct_witness : exists v',
  block_write no_task 500 disk_data true disk0 = (Ok tt, v') /\ dev (bview v') 499 = 0 /\ dev (bview v') 510 = 7.
Proof.
  destruct (block_write no_task 500 disk_data true disk0) as [r v] eqn:E. exists v.
  destruct (block_write_correct no_task disk0 500 disk_data true r v no_task_rely disk0_inv ltac:(literal) ltac:(literal) E) as [He Ha].
  specialize (Ha (proj2 disk0_opened)). rewrite disk0_geometry in Ha. destruct Ha as [->|(_ & d & Hd)].
  - split; [done|]. pose proof (hk_bytes _ _ (holds_changed disk0 v _ _ _ disk0_holds He (fun x => eq_refl))) as Hb.
    rewrite !Hb. unfold overwritten. rewrite !(hk_bytes _ _ disk0_holds). vm_compute. split; reflexivity.
  - rewrite no_task_locked in Hd. destruct (unlimited_free _ _ (hk_free _ _ disk0_holds) Hd).
Defined.

Lemma block_trim_correct_witness : exists v',
  block_trim no_task 20 0 1024 disk1 = (Ok tt, v') /\ dev (bview v') 510 = 0.
Proof.
  destruct (block_trim no_task 20 0 1024 disk1) as [r v] eqn:E. exists v. pose proof disk1_holds as Hd.
  destruct (block_trim_correct no_task 20 disk1 0 1024 r v no_task_rely (hk_inv _ _ Hd) ltac:(literal) ltac:(literal) disk1_fuel E)
    as ((_ & _ & _ & s & _ & _ & _ & Hz) & _ & Ha).
  specialize (Ha (hk_quiet _ _ Hd)). rewrite disk1_geometry, disk0_geometry in Ha. subst r. split; [reflexivity|]. rewrite (Hz eq_refl). reflexivity.
Defined.

Lemma block_write_zeroes_correct_witness : exists v',
  block_write_zeroes no_task 505 10 false disk1 = (Ok tt, v') /\ dev (bview v') 504 = 7 /\ dev (bview v') 510 = 0.
Proof.
  destruct (block_write_zeroes no_task 505 10 false disk1) as [r v] eqn:E. exists v. pose proof disk1_holds as Hd.
  destruct (block_write_zeroes_correct no_task disk1 505 10 false r v no_task_rely (hk_inv _ _ Hd) ltac:(literal) ltac:(literal) E) as [He Ha].
  specialize (Ha (hk_quiet _ _ Hd)). rewrite disk1_geometry, disk0_geometry in Ha. subst r. split; [reflexivity|]. pose proof (hk_bytes _ _ (holds_changed disk1 v _ _ _ Hd He (fun x => eq_refl))) as Hb.
  rewrite !Hb. unfold zeroed. rewrite !(hk_bytes _ _ Hd). vm_compute. split; reflexivity.
Defined.

Definition disk_commands : list bcmd := [BWrite 510 [1; 2; 3] true; BZeroes 511 1 false; BRead 509 4; BRead 4095 2].

Lemma disk_commands_ok : Forall bcmd_ok disk_commands.
Proof. unfold disk_commands. commands.
Qed.

Lemma block_refines_disk_witness : exists v',
  exec_all (BlockVolume_dev no_task 20) disk_commands disk0 = ([Ok []; Ok []; Ok [0; 1; 0; 3]; Err (Raise Invalid)], v').
Proof.
  pose proof (block_refines_disk 20 disk_commands disk0 _ disk0_holds disk_commands_ok disk0_fuel) as H. rewrite disk0_geometry in H.
  destruct (exec_all _ _ disk0) as [rs v']. exists v'. destruct (disk_all _ _ _) as [rs0 d'] eqn:Ed. destruct H as [-> _].
  vm_compute in Ed. injection Ed as <- _. reflexivity.
Defined.

Lemma block_opens_empty_witness : exists v,
  (BlockVolume_open disk_record disk_made).1 = Ok v /\ g_size_bytes (b_geometry v) = 4096 /\ forall x, dev (bview v) x = 0.
Proof.
  destruct (block_opens_empty disk_record disk_size ZERO disk_made disk_attachable ltac:(vm_compute; congruence) disk_made_store eq_refl) as (v & H1 & _ & _ & H2 & H3).
  exact (ex_intro _ v (conj H1 (conj H2 H3))).
Defined.

Definition disk_superblock : Superblock :=
  {| sb_fsid := 8; sb_cipher := Aes256Gcm; sb_chunk_size := 512; sb_name_enc := false; sb_created_at := 0; sb_kind := Block disk_size |}.

(** The same volume on an engine whose writes wait for a flush. *)
Definition lazy_made : @Engine lazy_slatedb :=
  (mkfs disk_record (mkEngine (DB := lazy_slatedb) {| lz_now := ∅; lz_before := [] |} [] [] [])).2.

Lemma lazy_made_store : contents (e_db lazy_made) = mkfs_store disk_record ZERO.
Proof. reflexivity. Qed.

Lemma lazy_opens : exists v, BlockVolume_open disk_record lazy_made = (Ok v, lazy_made) /\
  bview v = open_state disk_record disk_size (mkfs_store disk_record ZERO).
Proof.
  destruct (open_quiet (DB := lazy_slatedb) disk_record disk_size disk_superblock lazy_made disk_attachable) as (v & Hv & Hb & _); [|reflexivity..|].
  - rewrite lazy_made_store, (mkfs_block_lookup disk_record disk_size) by reflexivity. reflexivity.
  - exists v. split; [exact Hv|]. by rewrite Hb, lazy_made_store.
Qed.

Definition lazy0 : @BlockVolume lazy_slatedb :=
  match (BlockVolume_open disk_record lazy_made).1 with
  | Ok v => v
  | Err _ => mkBlock lazy_made {| g_size_bytes := 0; g_min_block := 0; g_preferred_block := 0; g_max_payload := 0; g_read_only := true |}
               (QuotaTracker.new 0 0 (vr_quota disk_record)) (VolumeHealth.new None) 0
  end.

Lemma lazy0_view : bview lazy0 = open_state disk_record disk_size (mkfs_store disk_record ZERO).
Proof. unfold lazy0. destruct lazy_opens as (v & -> & Hv). exact Hv. Qed.

(** A FUA write of 5 at 0, then a write of 6 at 600 that storage never sees. *)
Definition lazy1 : @BlockVolume lazy_slatedb := (exec (BlockVolume_dev no_task 20) (BWrite 0 [5] true) lazy0).2.
Definition lazy2 : @BlockVolume lazy_slatedb := (exec_all (BlockVolume_dev no_task 20) [BWrite 600 [6] false] lazy1).2.

Lemma lazy1_answer : exec (BlockVolume_dev no_task 20) (BWrite 0 [5] true) lazy0 = (Ok [], lazy1).
Proof. unfold lazy1. apply injective_projections; [vm_compute; reflexivity|reflexivity]. Qed.

Lemma lazy1_byte : dev (bview lazy1) 0 = 5.
Proof. vm_compute. reflexivity. Qed.

Definition lazy_lost : gmap Key Value := default ∅ (lz_before (e_db (b_eng lazy2)) !! 0%nat).

Lemma lazy_lost_survives : db_survives (e_db (b_eng lazy2)) lazy_lost /\ lazy_lost !! KChunk BLOCK_INO 1 = None /\
  is_Some (contents (e_db (b_eng lazy2)) !! KChunk BLOCK_INO 1).
Proof.
  split.
  - unfold lazy_lost. destruct (lz_before (e_db (b_eng lazy2)) !! 0%nat) as [m|] eqn:E; [|vm_compute in E; discriminate].
    apply list_elem_of_further. by apply (list_elem_of_lookup_2 _ 0).
  - split; [vm_compute; reflexivity|]. eexists. vm_compute. reflexivity.
Qed.

Lemma block_survives_witness :
  db_survives (e_db (b_eng lazy2)) lazy_lost /\
  exists v2, (BlockVolume_open disk_record (mkEngine (DB := lazy_slatedb) {| lz_now := lazy_lost; lz_before := [] |} [] [] [])).1 = Ok v2 /\
    dev (bview v2) 0 = 5.
Proof.
  split; [apply lazy_lost_survives|].
  destruct (block_survives (DB := lazy_slatedb) no_task 20 [] (BWrite 0 [5] true) [BWrite 600 [6] false] disk_record disk_size disk_superblock lazy0 0 [] lazy1
    lazy_lost (mkEngine (DB := lazy_slatedb) {| lz_now := lazy_lost; lz_before := [] |} [] [] [])) as (v2 & H1 & _ & _ & _ & H2).
  - apply no_task_rely.
  - intros n v _ Hv. exact Hv.
  - apply disk_attachable.
  - reflexivity.
  - rewrite lazy0_view. apply open_fresh_inv; [apply disk_attachable|vm_compute; congruence].
  - rewrite lazy0_view. cbn [bs_m open_state]. rewrite (mkfs_block_lookup disk_record disk_size) by reflexivity. reflexivity.
  - rewrite lazy0_view. reflexivity.
  - commands.
  - vm_compute. reflexivity.
  - reflexivity.
  - exact lazy1_answer.
  - apply Forall_singleton. simpl. lia.
  - apply lazy_lost_survives.
  - reflexivity.
  - reflexivity.
  - exists v2. split; [exact H1|]. rewrite H2. exact lazy1_byte.
Defined.

Lemma block_check_clean_witness : exists r,
  check_block (g_size_bytes (bs_g (bview disk1))) (chunk_size (bs_g (bview disk1))) (b_eng disk1) = (Ok r, b_eng disk1) /\ is_clean r = true.
Proof.
  destruct (block_check_clean (bview disk1) (b_eng disk1) (hk_inv _ _ disk1_holds) eq_refl (proj1 (hk_quiet _ _ disk1_holds))) as (r & Hr & Hc & _).
  exact (ex_intro _ r (conj Hr Hc)).
Defined.

(** A reader of a checkpoint of [disk1]. *)
Definition disk_snapshot : SnapshotBlockVolume :=
  mkSnapshot (mkEngine (e_db (b_eng disk1)) [] [] []) (bd_geometry (ReadOnlyBlockDev (BlockVolume_dev no_task 20)) disk1).

Lemma snapshot_equals_read_only_witness : exists sv,
  exec_all SnapshotBlockVolume_dev [BRead 498 4; BTrim 0 512] disk_snapshot = ([Ok [0; 0; 7; 7]; Err (Raise ReadOnly)], sv).
Proof.
  pose proof (snapshot_equals_read_only no_task 20 [BRead 498 4; BTrim 0 512] disk_snapshot disk1
    (hk_inv _ _ disk1_holds) (hk_quiet _ _ disk1_holds) eq_refl eq_refl eq_refl ltac:(commands)) as H.
  destruct (exec_all SnapshotBlockVolume_dev _ disk_snapshot) as [rs sv]. exists sv. destruct (exec_all _ _ disk1) as [rs0 v'].
  destruct H as (_ & -> & _ & _). apply (f_equal (fun rs => (rs, sv))). cbn [fmap list_fmap read_only_answer].
  change (bs_g (bview disk1)) with (b_geometry disk1). rewrite disk1_geometry, disk0_geometry.
  erewrite (list_fmap_ext (dev (bview disk1)) _ (seqZ 498 4)); [|intros; apply (hk_bytes _ _ disk1_holds)]. vm_compute. reflexivity.
Defined.
