(* ===== verification/P9.v ===== *)
(** The 9P2000.L wire format ([rs9p/src/fcall.rs], [rs9p/src/serialize.rs]):
    the messages, their encoder into a byte vector and their decoder from a
    byte stream. *)

From S2P Require Import Prelude.

Abbreviation u16 := Z (only parsing).
(** A Rust [String] is its bytes; that they are UTF-8 is stated where needed. *)
Abbreviation string := (list Z) (only parsing).

Definition is_u16 (x : Z) : Prop := 0 <= x < 2 ^ 16.
Definition as_u16 (x : Z) : u16 := x mod 2 ^ 16.

(** * UTF-8, as the standard library checks it *)

Definition utf8_cont (b : u8) : bool := (128 <=? b) && (b <=? 191).

(** The second bytes that may follow the first byte of a three- or four-byte
    sequence. *)
Definition utf8_second3 (b c : u8) : bool :=
  ((b =? 224) && (160 <=? c) && (c <=? 191)) || ((225 <=? b) && (b <=? 236) && utf8_cont c) ||
  ((b =? 237) && (128 <=? c) && (c <=? 159)) || ((238 <=? b) && (b <=? 239) && utf8_cont c).
Definition utf8_second4 (b c : u8) : bool :=
  ((b =? 240) && (144 <=? c) && (c <=? 191)) || ((241 <=? b) && (b <=? 243) && utf8_cont c) ||
  ((b =? 244) && (128 <=? c) && (c <=? 143)).

(** The chunks of a byte string: a whole character ([true]), or the longest
    prefix of one that goes no further ([false]). *)
Fixpoint utf8_chunks (l : bytes) : list (bool * bytes) :=
  match l with
  | [] => []
  | b :: r =>
      if (0 <=? b) && (b <=? 127) then (true, [b]) :: utf8_chunks r
      else
        match r with
        | [] => [(false, [b])]
        | c :: r1 =>
            if (194 <=? b) && (b <=? 223) then
              if utf8_cont c then (true, [b; c]) :: utf8_chunks r1 else (false, [b]) :: utf8_chunks r
            else if utf8_second3 b c then
              match r1 with
              | [] => [(false, [b; c])]
              | d :: r2 => if utf8_cont d then (true, [b; c; d]) :: utf8_chunks r2 else (false, [b; c]) :: utf8_chunks r1
              end
            else if utf8_second4 b c then
              match r1 with
              | [] => [(false, [b; c])]
              | d :: r2 =>
                  if utf8_cont d then
                    match r2 with
                    | [] => [(false, [b; c; d])]
                    | e :: r3 =>
                        if utf8_cont e then (true, [b; c; d; e]) :: utf8_chunks r3 else (false, [b; c; d]) :: utf8_chunks r2
                    end
                  else (false, [b; c]) :: utf8_chunks r1
              end
            else (false, [b]) :: utf8_chunks r
        end
  end.

(** [String::from_utf8] succeeds. *)
Definition utf8_valid (l : bytes) : bool := forallb fst (utf8_chunks l).

(** [String::from_utf8_lossy]: each chunk that is no character becomes U+FFFD. *)
Definition from_utf8_lossy (l : bytes) : string :=
  concat (map (fun c : bool * bytes => if c.1 then c.2 else [239; 191; 189]) (utf8_chunks l)).

(** * Data types *)

Definition NOTAG : u16 := 2 ^ 16 - 1.
Definition NOFID : u32 := 2 ^ 32 - 1.
Definition NONUNAME : u32 := 2 ^ 32 - 1.
Definition P92000L : string := [57; 80; 50; 48; 48; 48; 46; 76].
Definition VERSION_UNKNOWN : string := [117; 110; 107; 110; 111; 119; 110].

(** The flag sets are their bits; [_ALL] is the union of the flags. *)
Definition LockType_RDLOCK : u8 := 0.
Definition LockType_WRLOCK : u8 := 1.
Definition LockType_UNLOCK : u8 := 2.
Definition LockType_ALL : u8 := 3.
Definition LockFlag_ALL : u32 := 3.
Definition LockStatus_SUCCESS : u8 := 0.
Definition LockStatus_BLOCKED : u8 := 1.
Definition LockStatus_ALL : u8 := 3.
Definition QIdType_DIR : u8 := 128.
Definition QIdType_SYMLINK : u8 := 2.
Definition QIdType_FILE : u8 := 0.
Definition QIdType_ALL : u8 := 255.
Definition GetAttrMask_ALL : u64 := 16383.
Definition SetAttrMask_MODE : u32 := 1.
Definition SetAttrMask_UID : u32 := 2.
Definition SetAttrMask_GID : u32 := 4.
Definition SetAttrMask_SIZE : u32 := 8.
Definition SetAttrMask_ATIME : u32 := 16.
Definition SetAttrMask_MTIME : u32 := 32.
Definition SetAttrMask_ATIME_SET : u32 := 128.
Definition SetAttrMask_MTIME_SET : u32 := 256.
Definition SetAttrMask_ALL : u32 := 511.

Record QId : Type := { q_typ : u8; q_version : u32; q_path : u64 }.

Record StatFs : Type := {
  sf_typ : u32; sf_bsize : u32; sf_blocks : u64; sf_bfree : u64; sf_bavail : u64;
  sf_files : u64; sf_ffree : u64; sf_fsid : u64; sf_namelen : u32
}.

Record Time : Type := { t_sec : u64; t_nsec : u64 }.

Record Stat : Type := {
  st_mode : u32; st_uid : u32; st_gid : u32; st_nlink : u64; st_rdev : u64; st_size : u64;
  st_blksize : u64; st_blocks : u64; st_atime : Time; st_mtime : Time; st_ctime : Time
}.

Record SetAttr : Type := {
  sa_mode : u32; sa_uid : u32; sa_gid : u32; sa_size : u64; sa_atime : Time; sa_mtime : Time
}.

Record DirEntry : Type := { dn_qid : QId; dn_offset : u64; dn_typ : u8; dn_name : string }.

Record Flock : Type := {
  fl_typ : u8; fl_flags : u32; fl_start : u64; fl_length : u64; fl_proc_id : u32; fl_client_id : string
}.

Record Getlock : Type := {
  gl_typ : u8; gl_start : u64; gl_length : u64; gl_proc_id : u32; gl_client_id : string
}.

Definition QId_size : u32 := 1 + 4 + 8.

(** [DirEntry::size] *)
Definition DirEntry_size (e : DirEntry) : u32 := as_u32 (QId_size + 8 + 1 + 2 + len (dn_name e)).

(** [DirEntryData::size] *)
Definition DirEntryData_size (data : list DirEntry) : u32 := fold_left (fun a e => as_u32 (a + DirEntry_size e)) data 0.

Module MsgType.
Inductive MsgType : Type :=
| TlError | RlError | TStatFs | RStatFs | TlOpen | RlOpen | TlCreate | RlCreate | TSymlink | RSymlink | TMkNod | RMkNod | TRename | RRename
| TReadLink | RReadLink | TGetAttr | RGetAttr | TSetAttr | RSetAttr | TxAttrWalk | RxAttrWalk | TxAttrCreate | RxAttrCreate | TReadDir | RReadDir
| TFSync | RFSync | TLock | RLock | TGetLock | RGetLock | TLink | RLink | TMkDir | RMkDir | TRenameAt | RRenameAt | TUnlinkAt | RUnlinkAt | TVersion
| RVersion | TAuth | RAuth | TAttach | RAttach | TFlush | RFlush | TWalk | RWalk | TRead | RRead | TWrite | RWrite | TClunk | RClunk | TRemove
| RRemove.

#[global] Instance msg_type_eq_dec : EqDecision MsgType.
Proof. solve_decision. Defined.

(** [typ as u8] *)
Definition MsgType_code (t : MsgType) : u8 :=
  match t with
  | TlError => 6 | RlError => 7 | TStatFs => 8 | RStatFs => 9 | TlOpen => 12 | RlOpen => 13 | TlCreate => 14 | RlCreate => 15 | TSymlink => 16
  | RSymlink => 17 | TMkNod => 18 | RMkNod => 19 | TRename => 20 | RRename => 21 | TReadLink => 22 | RReadLink => 23 | TGetAttr => 24
  | RGetAttr => 25 | TSetAttr => 26 | RSetAttr => 27 | TxAttrWalk => 30 | RxAttrWalk => 31 | TxAttrCreate => 32 | RxAttrCreate => 33 | TReadDir => 40
  | RReadDir => 41 | TFSync => 50 | RFSync => 51 | TLock => 52 | RLock => 53 | TGetLock => 54 | RGetLock => 55 | TLink => 70 | RLink => 71
  | TMkDir => 72 | RMkDir => 73 | TRenameAt => 74 | RRenameAt => 75 | TUnlinkAt => 76 | RUnlinkAt => 77 | TVersion => 100 | RVersion => 101
  | TAuth => 102 | RAuth => 103 | TAttach => 104 | RAttach => 105 | TFlush => 108 | RFlush => 109 | TWalk => 110 | RWalk => 111 | TRead => 116
  | RRead => 117 | TWrite => 118 | RWrite => 119 | TClunk => 120 | RClunk => 121 | TRemove => 122 | RRemove => 123
  end.

(** [MsgType::from_u8] *)
Definition MsgType_from_u8 (x : u8) : option MsgType :=
  find (fun t => MsgType_code t =? x)
    [TlError; RlError; TStatFs; RStatFs; TlOpen; RlOpen; TlCreate; RlCreate; TSymlink; RSymlink; TMkNod; RMkNod; TRename; RRename; TReadLink;
     RReadLink; TGetAttr; RGetAttr; TSetAttr; RSetAttr; TxAttrWalk; RxAttrWalk; TxAttrCreate; RxAttrCreate; TReadDir; RReadDir; TFSync; RFSync;
     TLock; RLock; TGetLock; RGetLock; TLink; RLink; TMkDir; RMkDir; TRenameAt; RRenameAt; TUnlinkAt; RUnlinkAt; TVersion; RVersion; TAuth; RAuth;
     TAttach; RAttach; TFlush; RFlush; TWalk; RWalk; TRead; RRead; TWrite; RWrite; TClunk; RClunk; TRemove; RRemove].

(** [MsgType::is_r] *)
Definition is_r (t : MsgType) : bool :=
  match t with
  | RlError | RStatFs | RlOpen | RlCreate | RSymlink | RMkNod | RRename | RReadLink | RGetAttr | RSetAttr | RxAttrWalk | RxAttrCreate
  | RReadDir | RFSync | RLock | RGetLock | RLink | RMkDir | RRenameAt | RUnlinkAt | RVersion | RAuth | RAttach | RFlush | RWalk | RRead
  | RWrite | RClunk | RRemove => true
  | _ => false
  end.
End MsgType.

Inductive FCall : Type :=
| RlError (ecode : u32)
| TStatFs (fid : u32)
| RStatFs (statfs : StatFs)
| TlOpen (fid : u32) (flags : u32)
| RlOpen (qid : QId) (iounit : u32)
| TlCreate (fid : u32) (name : string) (flags : u32) (mode : u32) (gid : u32)
| RlCreate (qid : QId) (iounit : u32)
| TSymlink (fid : u32) (name : string) (symtgt : string) (gid : u32)
| RSymlink (qid : QId)
| TMkNod (dfid : u32) (name : string) (mode : u32) (major : u32) (minor : u32) (gid : u32)
| RMkNod (qid : QId)
| TRename (fid : u32) (dfid : u32) (name : string)
| RRename
| TReadLink (fid : u32)
| RReadLink (target : string)
| TGetAttr (fid : u32) (req_mask : u64)
| RGetAttr (valid : u64) (qid : QId) (stat : Stat)
| TSetAttr (fid : u32) (valid : u32) (stat : SetAttr)
| RSetAttr
| TxAttrWalk (fid : u32) (newfid : u32) (name : string)
| RxAttrWalk (size : u64)
| TxAttrCreate (fid : u32) (name : string) (attr_size : u64) (flags : u32)
| RxAttrCreate
| TReadDir (fid : u32) (offset : u64) (count : u32)
| RReadDir (data : (list DirEntry))
| TFSync (fid : u32)
| RFSync
| TLock (fid : u32) (flock : Flock)
| RLock (status : u8)
| TGetLock (fid : u32) (flock : Getlock)
| RGetLock (flock : Getlock)
| TLink (dfid : u32) (fid : u32) (name : string)
| RLink
| TMkDir (dfid : u32) (name : string) (mode : u32) (gid : u32)
| RMkDir (qid : QId)
| TRenameAt (olddirfid : u32) (oldname : string) (newdirfid : u32) (newname : string)
| RRenameAt
| TUnlinkAt (dirfd : u32) (name : string) (flags : u32)
| RUnlinkAt
| TAuth (afid : u32) (uname : string) (aname : string) (n_uname : u32)
| RAuth (aqid : QId)
| TAttach (fid : u32) (afid : u32) (uname : string) (aname : string) (n_uname : u32)
| RAttach (qid : QId)
| TVersion (msize : u32) (version : string)
| RVersion (msize : u32) (version : string)
| TFlush (oldtag : u16)
| RFlush
| TWalk (fid : u32) (newfid : u32) (wnames : (list string))
| RWalk (wqids : (list QId))
| TRead (fid : u32) (offset : u64) (count : u32)
| RRead (data : bytes)
| TWrite (fid : u32) (offset : u64) (data : bytes)
| RWrite (count : u32)
| TClunk (fid : u32)
| RClunk
| TRemove (fid : u32)
| RRemove.

(** [impl From<&FCall> for MsgType] *)
Definition MsgType_from (fcall : FCall) : MsgType.MsgType :=
  match fcall with
  | RlError _ => MsgType.RlError
  | TStatFs _ => MsgType.TStatFs
  | RStatFs _ => MsgType.RStatFs
  | TlOpen _ _ => MsgType.TlOpen
  | RlOpen _ _ => MsgType.RlOpen
  | TlCreate _ _ _ _ _ => MsgType.TlCreate
  | RlCreate _ _ => MsgType.RlCreate
  | TSymlink _ _ _ _ => MsgType.TSymlink
  | RSymlink _ => MsgType.RSymlink
  | TMkNod _ _ _ _ _ _ => MsgType.TMkNod
  | RMkNod _ => MsgType.RMkNod
  | TRename _ _ _ => MsgType.TRename
  | RRename => MsgType.RRename
  | TReadLink _ => MsgType.TReadLink
  | RReadLink _ => MsgType.RReadLink
  | TGetAttr _ _ => MsgType.TGetAttr
  | RGetAttr _ _ _ => MsgType.RGetAttr
  | TSetAttr _ _ _ => MsgType.TSetAttr
  | RSetAttr => MsgType.RSetAttr
  | TxAttrWalk _ _ _ => MsgType.TxAttrWalk
  | RxAttrWalk _ => MsgType.RxAttrWalk
  | TxAttrCreate _ _ _ _ => MsgType.TxAttrCreate
  | RxAttrCreate => MsgType.RxAttrCreate
  | TReadDir _ _ _ => MsgType.TReadDir
  | RReadDir _ => MsgType.RReadDir
  | TFSync _ => MsgType.TFSync
  | RFSync => MsgType.RFSync
  | TLock _ _ => MsgType.TLock
  | RLock _ => MsgType.RLock
  | TGetLock _ _ => MsgType.TGetLock
  | RGetLock _ => MsgType.RGetLock
  | TLink _ _ _ => MsgType.TLink
  | RLink => MsgType.RLink
  | TMkDir _ _ _ _ => MsgType.TMkDir
  | RMkDir _ => MsgType.RMkDir
  | TRenameAt _ _ _ _ => MsgType.TRenameAt
  | RRenameAt => MsgType.RRenameAt
  | TUnlinkAt _ _ _ => MsgType.TUnlinkAt
  | RUnlinkAt => MsgType.RUnlinkAt
  | TAuth _ _ _ _ => MsgType.TAuth
  | RAuth _ => MsgType.RAuth
  | TAttach _ _ _ _ _ => MsgType.TAttach
  | RAttach _ => MsgType.RAttach
  | TVersion _ _ => MsgType.TVersion
  | RVersion _ _ => MsgType.RVersion
  | TFlush _ => MsgType.TFlush
  | RFlush => MsgType.RFlush
  | TWalk _ _ _ => MsgType.TWalk
  | RWalk _ => MsgType.RWalk
  | TRead _ _ _ => MsgType.TRead
  | RRead _ => MsgType.RRead
  | TWrite _ _ _ => MsgType.TWrite
  | RWrite _ => MsgType.RWrite
  | TClunk _ => MsgType.TClunk
  | RClunk => MsgType.RClunk
  | TRemove _ => MsgType.TRemove
  | RRemove => MsgType.RRemove
  end.

(** [FCall::newfid] *)
Definition FCall_newfid (c : FCall) : option u32 :=
  match c with
  | TxAttrWalk _ newfid _ => Some newfid
  | TAuth afid _ _ _ => Some afid
  | TAttach fid _ _ _ _ => Some fid
  | TWalk _ newfid _ => Some newfid
  | _ => None
  end.

Record Msg : Type := { msg_tag : u16; msg_body : FCall }.

(** * Encoding *)

(** What [encode(&self, w)] does on a [Vec<u8>] or [BytesMut], which never
    fail: the bytes it counts and the vector after it. *)
Definition Writer : Type := bytes -> usize * bytes.

Record Encoder : Type := { enc_writer : bytes; enc_bytes : usize }.

Definition Encoder_new (w : bytes) : Encoder := {| enc_writer := w; enc_bytes := 0 |}.

(** [encoder << &data] *)
Definition shl (e : Encoder) (x : Writer) : Encoder :=
  let '(n, w) := x (enc_writer e) in {| enc_writer := w; enc_bytes := enc_bytes e + n |}.
Notation "e << x" := (shl e x) (at level 36, left associativity) : slatefs_scope.

(** [SResult(Ok(enc)) => Ok(enc.bytes_written())] *)
Definition written (e : Encoder) : usize * bytes := (enc_bytes e, enc_writer e).

Definition encode_u8 (x : u8) : Writer := fun w => (1, w ++ to_le 1 x).
Definition encode_u16 (x : u16) : Writer := fun w => (2, w ++ to_le 2 x).
Definition encode_u32 (x : u32) : Writer := fun w => (4, w ++ to_le 4 x).
Definition encode_u64 (x : u64) : Writer := fun w => (8, w ++ to_le 8 x).

Definition encode_string (s : string) : Writer := fun w =>
  let '(n, w) := encode_u16 (as_u16 (len s)) w in (n + len s, w ++ s).

Definition Data_encode (data : bytes) : Writer := fun w =>
  let '(n, w) := encode_u32 (as_u32 (len data)) w in (n + len data, w ++ data).

Definition encode_vec {A} (enc : A -> Writer) (v : list A) : Writer := fun w =>
  written (fold_left (fun acc x => acc << enc x) v (Encoder_new w << encode_u16 (as_u16 (len v)))).

Definition QId_encode (q : QId) : Writer := fun w =>
  written (Encoder_new w << encode_u8 (q_typ q) << encode_u32 (q_version q) << encode_u64 (q_path q)).

Definition StatFs_encode (s : StatFs) : Writer := fun w =>
  written (Encoder_new w << encode_u32 (sf_typ s) << encode_u32 (sf_bsize s) << encode_u64 (sf_blocks s) << encode_u64 (sf_bfree s)
    << encode_u64 (sf_bavail s) << encode_u64 (sf_files s) << encode_u64 (sf_ffree s) << encode_u64 (sf_fsid s) << encode_u32 (sf_namelen s)).

Definition Time_encode (t : Time) : Writer := fun w =>
  written (Encoder_new w << encode_u64 (t_sec t) << encode_u64 (t_nsec t)).

Definition Stat_encode (s : Stat) : Writer := fun w =>
  written (Encoder_new w << encode_u32 (st_mode s) << encode_u32 (st_uid s) << encode_u32 (st_gid s) << encode_u64 (st_nlink s)
    << encode_u64 (st_rdev s) << encode_u64 (st_size s) << encode_u64 (st_blksize s) << encode_u64 (st_blocks s)
    << Time_encode (st_atime s) << Time_encode (st_mtime s) << Time_encode (st_ctime s)).

Definition SetAttr_encode (s : SetAttr) : Writer := fun w =>
  written (Encoder_new w << encode_u32 (sa_mode s) << encode_u32 (sa_uid s) << encode_u32 (sa_gid s) << encode_u64 (sa_size s)
    << Time_encode (sa_atime s) << Time_encode (sa_mtime s)).

Definition DirEntry_encode (e : DirEntry) : Writer := fun w =>
  written (Encoder_new w << QId_encode (dn_qid e) << encode_u64 (dn_offset e) << encode_u8 (dn_typ e) << encode_string (dn_name e)).

Definition DirEntryData_encode (data : list DirEntry) : Writer := fun w =>
  written (fold_left (fun acc e => acc << DirEntry_encode e) data (Encoder_new w << encode_u32 (DirEntryData_size data))).

Definition Flock_encode (l : Flock) : Writer := fun w =>
  written (Encoder_new w << encode_u8 (fl_typ l) << encode_u32 (fl_flags l) << encode_u64 (fl_start l) << encode_u64 (fl_length l)
    << encode_u32 (fl_proc_id l) << encode_string (fl_client_id l)).

Definition Getlock_encode (l : Getlock) : Writer := fun w =>
  written (Encoder_new w << encode_u8 (gl_typ l) << encode_u64 (gl_start l) << encode_u64 (gl_length l)
    << encode_u32 (gl_proc_id l) << encode_string (gl_client_id l)).

(** The fields of a message, after its type and tag. *)
Definition FCall_encode (body : FCall) (buf : Encoder) : Encoder :=
  match body with
  | RlError ecode => buf << encode_u32 ecode
  | TStatFs fid => buf << encode_u32 fid
  | RStatFs statfs => buf << StatFs_encode statfs
  | TlOpen fid flags => buf << encode_u32 fid << encode_u32 flags
  | RlOpen qid iounit => buf << QId_encode qid << encode_u32 iounit
  | TlCreate fid name flags mode gid => buf << encode_u32 fid << encode_string name << encode_u32 flags << encode_u32 mode << encode_u32 gid
  | RlCreate qid iounit => buf << QId_encode qid << encode_u32 iounit
  | TSymlink fid name symtgt gid => buf << encode_u32 fid << encode_string name << encode_string symtgt << encode_u32 gid
  | RSymlink qid => buf << QId_encode qid
  | TMkNod dfid name mode major minor gid => buf << encode_u32 dfid << encode_string name << encode_u32 mode << encode_u32 major << encode_u32 minor << encode_u32 gid
  | RMkNod qid => buf << QId_encode qid
  | TRename fid dfid name => buf << encode_u32 fid << encode_u32 dfid << encode_string name
  | RRename => buf
  | TReadLink fid => buf << encode_u32 fid
  | RReadLink target => buf << encode_string target
  | TGetAttr fid req_mask => buf << encode_u32 fid << encode_u64 req_mask
  | RGetAttr valid qid stat => buf << encode_u64 valid << QId_encode qid << Stat_encode stat << encode_u64 0 << encode_u64 0 << encode_u64 0 << encode_u64 0
  | TSetAttr fid valid stat => buf << encode_u32 fid << encode_u32 valid << SetAttr_encode stat
  | RSetAttr => buf
  | TxAttrWalk fid newfid name => buf << encode_u32 fid << encode_u32 newfid << encode_string name
  | RxAttrWalk size => buf << encode_u64 size
  | TxAttrCreate fid name attr_size flags => buf << encode_u32 fid << encode_string name << encode_u64 attr_size << encode_u32 flags
  | RxAttrCreate => buf
  | TReadDir fid offset count => buf << encode_u32 fid << encode_u64 offset << encode_u32 count
  | RReadDir data => buf << DirEntryData_encode data
  | TFSync fid => buf << encode_u32 fid
  | RFSync => buf
  | TLock fid flock => buf << encode_u32 fid << Flock_encode flock
  | RLock status => buf << encode_u8 status
  | TGetLock fid flock => buf << encode_u32 fid << Getlock_encode flock
  | RGetLock flock => buf << Getlock_encode flock
  | TLink dfid fid name => buf << encode_u32 dfid << encode_u32 fid << encode_string name
  | RLink => buf
  | TMkDir dfid name mode gid => buf << encode_u32 dfid << encode_string name << encode_u32 mode << encode_u32 gid
  | RMkDir qid => buf << QId_encode qid
  | TRenameAt olddirfid oldname newdirfid newname => buf << encode_u32 olddirfid << encode_string oldname << encode_u32 newdirfid << encode_string newname
  | RRenameAt => buf
  | TUnlinkAt dirfd name flags => buf << encode_u32 dirfd << encode_string name << encode_u32 flags
  | RUnlinkAt => buf
  | TAuth afid uname aname n_uname => buf << encode_u32 afid << encode_string uname << encode_string aname << encode_u32 n_uname
  | RAuth aqid => buf << QId_encode aqid
  | TAttach fid afid uname aname n_uname => buf << encode_u32 fid << encode_u32 afid << encode_string uname << encode_string aname << encode_u32 n_uname
  | RAttach qid => buf << QId_encode qid
  | TVersion msize version => buf << encode_u32 msize << encode_string version
  | RVersion msize version => buf << encode_u32 msize << encode_string version
  | TFlush oldtag => buf << encode_u16 oldtag
  | RFlush => buf
  | TWalk fid newfid wnames => buf << encode_u32 fid << encode_u32 newfid << encode_vec encode_string wnames
  | RWalk wqids => buf << encode_vec QId_encode wqids
  | TRead fid offset count => buf << encode_u32 fid << encode_u64 offset << encode_u32 count
  | RRead data => buf << Data_encode data
  | TWrite fid offset data => buf << encode_u32 fid << encode_u64 offset << Data_encode data
  | RWrite count => buf << encode_u32 count
  | TClunk fid => buf << encode_u32 fid
  | RClunk => buf
  | TRemove fid => buf << encode_u32 fid
  | RRemove => buf
  end.

Definition Msg_encode (m : Msg) : Writer := fun w =>
  let buf := Encoder_new w << encode_u8 (MsgType.MsgType_code (MsgType_from (msg_body m))) << encode_u16 (msg_tag m) in
  written (FCall_encode (msg_body m) buf).

(** [write_msg] *)
Definition write_msg (w : bytes) (m : Msg) : usize * bytes := Msg_encode m w.

(** * Decoding *)

Inductive IoError : Type := UnexpectedEof | InvalidUtf8 | InvalidMessageType.

(** A read from a byte stream. *)
Definition Reader (A : Type) : Type := ST bytes IoError A.

Definition read_exact (size : usize) : Reader bytes := fun r =>
  if len r <? size then (Err UnexpectedEof, r) else (Ok (take (Z.to_nat size) r), drop (Z.to_nat size) r).

Definition decode_u8 : Reader u8 := b <- read_exact 1 ;; st_ret (from_le b).
Definition decode_u16 : Reader u16 := b <- read_exact 2 ;; st_ret (from_le b).
Definition decode_u32 : Reader u32 := b <- read_exact 4 ;; st_ret (from_le b).
Definition decode_u64 : Reader u64 := b <- read_exact 8 ;; st_ret (from_le b).

(** [T::from_bits_truncate(decode!(buf))] *)
Definition decode_bits (all : Z) (d : Reader Z) : Reader Z := x <- d ;; st_ret (Z.land x all).

Definition decode_string : Reader string :=
  n <- decode_u16 ;;
  b <- read_exact n ;;
  if utf8_valid b then st_ret b else st_fail InvalidUtf8.

Definition Data_decode : Reader bytes := n <- decode_u32 ;; read_exact n.

Fixpoint decode_n {A} (d : Reader A) (n : nat) : Reader (list A) :=
  match n with
  | O => st_ret []
  | S n => x <- d ;; v <- decode_n d n ;; st_ret (x :: v)
  end.

Definition decode_vec {A} (d : Reader A) : Reader (list A) := n <- decode_u16 ;; decode_n d (Z.to_nat n).

Definition QId_decode : Reader QId :=
  typ <- decode_bits QIdType_ALL decode_u8 ;; version <- decode_u32 ;; path <- decode_u64 ;;
  st_ret {| q_typ := typ; q_version := version; q_path := path |}.

Definition StatFs_decode : Reader StatFs :=
  typ <- decode_u32 ;; bsize <- decode_u32 ;; blocks <- decode_u64 ;; bfree <- decode_u64 ;; bavail <- decode_u64 ;;
  files <- decode_u64 ;; ffree <- decode_u64 ;; fsid <- decode_u64 ;; namelen <- decode_u32 ;;
  st_ret {| sf_typ := typ; sf_bsize := bsize; sf_blocks := blocks; sf_bfree := bfree; sf_bavail := bavail;
            sf_files := files; sf_ffree := ffree; sf_fsid := fsid; sf_namelen := namelen |}.

Definition Time_decode : Reader Time :=
  sec <- decode_u64 ;; nsec <- decode_u64 ;; st_ret {| t_sec := sec; t_nsec := nsec |}.

Definition Stat_decode : Reader Stat :=
  mode <- decode_u32 ;; uid <- decode_u32 ;; gid <- decode_u32 ;; nlink <- decode_u64 ;; rdev <- decode_u64 ;; size <- decode_u64 ;;
  blksize <- decode_u64 ;; blocks <- decode_u64 ;; atime <- Time_decode ;; mtime <- Time_decode ;; ctime <- Time_decode ;;
  st_ret {| st_mode := mode; st_uid := uid; st_gid := gid; st_nlink := nlink; st_rdev := rdev; st_size := size; st_blksize := blksize;
            st_blocks := blocks; st_atime := atime; st_mtime := mtime; st_ctime := ctime |}.

Definition SetAttr_decode : Reader SetAttr :=
  mode <- decode_u32 ;; uid <- decode_u32 ;; gid <- decode_u32 ;; size <- decode_u64 ;; atime <- Time_decode ;; mtime <- Time_decode ;;
  st_ret {| sa_mode := mode; sa_uid := uid; sa_gid := gid; sa_size := size; sa_atime := atime; sa_mtime := mtime |}.

Definition DirEntry_decode : Reader DirEntry :=
  qid <- QId_decode ;; offset <- decode_u64 ;; typ <- decode_u8 ;; name <- decode_string ;;
  st_ret {| dn_qid := qid; dn_offset := offset; dn_typ := typ; dn_name := name |}.

(** [while cursor.position() < blob.len() { data.push(decode(&mut cursor)?) }];
    an entry takes at least one byte, so the blob's length bounds the rounds. *)
Fixpoint decode_entries (fuel : nat) (data : list DirEntry) : Reader (list DirEntry) := fun cursor =>
  match fuel, cursor with
  | _, [] => (Ok data, [])
  | O, _ => (Err UnexpectedEof, cursor)
  | S fuel, _ => (e <- DirEntry_decode ;; decode_entries fuel (data ++ [e])) cursor
  end.

Definition DirEntryData_decode : Reader (list DirEntry) :=
  count <- decode_u32 ;;
  blob <- read_exact count ;;
  st_lift (decode_entries (length blob) [] blob).1.

Definition Flock_decode : Reader Flock :=
  typ <- decode_bits LockType_ALL decode_u8 ;; flags <- decode_bits LockFlag_ALL decode_u32 ;; start <- decode_u64 ;;
  length <- decode_u64 ;; proc_id <- decode_u32 ;; client_id <- decode_string ;;
  st_ret {| fl_typ := typ; fl_flags := flags; fl_start := start; fl_length := length; fl_proc_id := proc_id; fl_client_id := client_id |}.

Definition Getlock_decode : Reader Getlock :=
  typ <- decode_bits LockType_ALL decode_u8 ;; start <- decode_u64 ;; length <- decode_u64 ;; proc_id <- decode_u32 ;;
  client_id <- decode_string ;;
  st_ret {| gl_typ := typ; gl_start := start; gl_length := length; gl_proc_id := proc_id; gl_client_id := client_id |}.

(** The fields of a message of the given type. *)
Definition FCall_decode (msg_type : option MsgType.MsgType) : Reader FCall :=
  match msg_type with
  | Some MsgType.RlError => ecode <- decode_u32 ;; st_ret (RlError ecode)
  | Some MsgType.TStatFs => fid <- decode_u32 ;; st_ret (TStatFs fid)
  | Some MsgType.RStatFs => statfs <- StatFs_decode ;; st_ret (RStatFs statfs)
  | Some MsgType.TlOpen => fid <- decode_u32 ;; flags <- decode_u32 ;; st_ret (TlOpen fid flags)
  | Some MsgType.RlOpen => qid <- QId_decode ;; iounit <- decode_u32 ;; st_ret (RlOpen qid iounit)
  | Some MsgType.TlCreate => fid <- decode_u32 ;; name <- decode_string ;; flags <- decode_u32 ;; mode <- decode_u32 ;; gid <- decode_u32 ;; st_ret (TlCreate fid name flags mode gid)
  | Some MsgType.RlCreate => qid <- QId_decode ;; iounit <- decode_u32 ;; st_ret (RlCreate qid iounit)
  | Some MsgType.TSymlink => fid <- decode_u32 ;; name <- decode_string ;; symtgt <- decode_string ;; gid <- decode_u32 ;; st_ret (TSymlink fid name symtgt gid)
  | Some MsgType.RSymlink => qid <- QId_decode ;; st_ret (RSymlink qid)
  | Some MsgType.TMkNod => dfid <- decode_u32 ;; name <- decode_string ;; mode <- decode_u32 ;; major <- decode_u32 ;; minor <- decode_u32 ;; gid <- decode_u32 ;; st_ret (TMkNod dfid name mode major minor gid)
  | Some MsgType.RMkNod => qid <- QId_decode ;; st_ret (RMkNod qid)
  | Some MsgType.TRename => fid <- decode_u32 ;; dfid <- decode_u32 ;; name <- decode_string ;; st_ret (TRename fid dfid name)
  | Some MsgType.RRename => st_ret RRename
  | Some MsgType.TReadLink => fid <- decode_u32 ;; st_ret (TReadLink fid)
  | Some MsgType.RReadLink => target <- decode_string ;; st_ret (RReadLink target)
  | Some MsgType.TGetAttr => fid <- decode_u32 ;; req_mask <- decode_bits GetAttrMask_ALL decode_u64 ;; st_ret (TGetAttr fid req_mask)
  | Some MsgType.RGetAttr => valid <- decode_bits GetAttrMask_ALL decode_u64 ;; qid <- QId_decode ;; stat <- Stat_decode ;; _btime <- Time_decode ;; _gen <- decode_u64 ;; _ver <- decode_u64 ;; st_ret (RGetAttr valid qid stat)
  | Some MsgType.TSetAttr => fid <- decode_u32 ;; valid <- decode_bits SetAttrMask_ALL decode_u32 ;; stat <- SetAttr_decode ;; st_ret (TSetAttr fid valid stat)
  | Some MsgType.RSetAttr => st_ret RSetAttr
  | Some MsgType.TxAttrWalk => fid <- decode_u32 ;; newfid <- decode_u32 ;; name <- decode_string ;; st_ret (TxAttrWalk fid newfid name)
  | Some MsgType.RxAttrWalk => size <- decode_u64 ;; st_ret (RxAttrWalk size)
  | Some MsgType.TxAttrCreate => fid <- decode_u32 ;; name <- decode_string ;; attr_size <- decode_u64 ;; flags <- decode_u32 ;; st_ret (TxAttrCreate fid name attr_size flags)
  | Some MsgType.RxAttrCreate => st_ret RxAttrCreate
  | Some MsgType.TReadDir => fid <- decode_u32 ;; offset <- decode_u64 ;; count <- decode_u32 ;; st_ret (TReadDir fid offset count)
  | Some MsgType.RReadDir => data <- DirEntryData_decode ;; st_ret (RReadDir data)
  | Some MsgType.TFSync => fid <- decode_u32 ;; st_ret (TFSync fid)
  | Some MsgType.RFSync => st_ret RFSync
  | Some MsgType.TLock => fid <- decode_u32 ;; flock <- Flock_decode ;; st_ret (TLock fid flock)
  | Some MsgType.RLock => status <- decode_bits LockStatus_ALL decode_u8 ;; st_ret (RLock status)
  | Some MsgType.TGetLock => fid <- decode_u32 ;; flock <- Getlock_decode ;; st_ret (TGetLock fid flock)
  | Some MsgType.RGetLock => flock <- Getlock_decode ;; st_ret (RGetLock flock)
  | Some MsgType.TLink => dfid <- decode_u32 ;; fid <- decode_u32 ;; name <- decode_string ;; st_ret (TLink dfid fid name)
  | Some MsgType.RLink => st_ret RLink
  | Some MsgType.TMkDir => dfid <- decode_u32 ;; name <- decode_string ;; mode <- decode_u32 ;; gid <- decode_u32 ;; st_ret (TMkDir dfid name mode gid)
  | Some MsgType.RMkDir => qid <- QId_decode ;; st_ret (RMkDir qid)
  | Some MsgType.TRenameAt => olddirfid <- decode_u32 ;; oldname <- decode_string ;; newdirfid <- decode_u32 ;; newname <- decode_string ;; st_ret (TRenameAt olddirfid oldname newdirfid newname)
  | Some MsgType.RRenameAt => st_ret RRenameAt
  | Some MsgType.TUnlinkAt => dirfd <- decode_u32 ;; name <- decode_string ;; flags <- decode_u32 ;; st_ret (TUnlinkAt dirfd name flags)
  | Some MsgType.RUnlinkAt => st_ret RUnlinkAt
  | Some MsgType.TAuth => afid <- decode_u32 ;; uname <- decode_string ;; aname <- decode_string ;; n_uname <- decode_u32 ;; st_ret (TAuth afid uname aname n_uname)
  | Some MsgType.RAuth => aqid <- QId_decode ;; st_ret (RAuth aqid)
  | Some MsgType.TAttach => fid <- decode_u32 ;; afid <- decode_u32 ;; uname <- decode_string ;; aname <- decode_string ;; n_uname <- decode_u32 ;; st_ret (TAttach fid afid uname aname n_uname)
  | Some MsgType.RAttach => qid <- QId_decode ;; st_ret (RAttach qid)
  | Some MsgType.TVersion => msize <- decode_u32 ;; version <- decode_string ;; st_ret (TVersion msize version)
  | Some MsgType.RVersion => msize <- decode_u32 ;; version <- decode_string ;; st_ret (RVersion msize version)
  | Some MsgType.TFlush => oldtag <- decode_u16 ;; st_ret (TFlush oldtag)
  | Some MsgType.RFlush => st_ret RFlush
  | Some MsgType.TWalk => fid <- decode_u32 ;; newfid <- decode_u32 ;; wnames <- decode_vec decode_string ;; st_ret (TWalk fid newfid wnames)
  | Some MsgType.RWalk => wqids <- decode_vec QId_decode ;; st_ret (RWalk wqids)
  | Some MsgType.TRead => fid <- decode_u32 ;; offset <- decode_u64 ;; count <- decode_u32 ;; st_ret (TRead fid offset count)
  | Some MsgType.RRead => data <- Data_decode ;; st_ret (RRead data)
  | Some MsgType.TWrite => fid <- decode_u32 ;; offset <- decode_u64 ;; data <- Data_decode ;; st_ret (TWrite fid offset data)
  | Some MsgType.RWrite => count <- decode_u32 ;; st_ret (RWrite count)
  | Some MsgType.TClunk => fid <- decode_u32 ;; st_ret (TClunk fid)
  | Some MsgType.RClunk => st_ret RClunk
  | Some MsgType.TRemove => fid <- decode_u32 ;; st_ret (TRemove fid)
  | Some MsgType.RRemove => st_ret RRemove
  | Some MsgType.TlError | None => st_fail InvalidMessageType
  end.

Definition Msg_decode : Reader Msg :=
  t <- decode_u8 ;;
  tag <- decode_u16 ;;
  body <- FCall_decode (MsgType.MsgType_from_u8 t) ;;
  st_ret {| msg_tag := tag; msg_body := body |}.

(** [read_msg] *)
Definition read_msg : Reader Msg := Msg_decode.
