(* ===== verification/P9Thm.v ===== *)
(** The 9P wire format round-trips: decoding the bytes a message encodes to
    gives the message back and reads exactly those bytes. *)

From S2P Require Import Prelude Quota P9.

(** * Codecs *)

(** Every value [wf] allows is encoded by appending some bytes, counted
    exactly, and decoding them gives the value back. *)
Class Codec {A} (wf : A -> Prop) (enc : A -> Writer) (dec : Reader A) : Prop :=
  codec_law x : wf x -> exists b, (forall w, enc x w = (len b, w ++ b)) /\ forall s, dec (b ++ s) = (Ok x, s).

(** One field of a value: its bytes, what encoding appends and what decoding
    reads. *)
Ltac field H :=
  let b := fresh "b" in let E := fresh "E" in let D := fresh "D" in
  match type of H with ?wf ?x => destruct (codec_law (wf := wf) x H) as (b & E & D) end; clear H.

(** All the fields whose values are allowed by hypothesis. *)
Ltac fields :=
  repeat match goal with H : _ /\ _ |- _ => destruct H end;
  repeat match goal with H : _ |- _ => field H end.

Lemma shl_codec e (x : Writer) b :
  (forall w, x w = (len b, w ++ b)) -> e << x = {| enc_writer := enc_writer e ++ b; enc_bytes := enc_bytes e + len b |}.
Proof. intros E. unfold shl. by rewrite E. Qed.

(** Run the encoder over the fields. *)
Ltac encode_fields :=
  repeat match goal with E : (forall w, ?e w = (len ?b, w ++ ?b)) |- _ => rewrite (shl_codec _ e b E) end;
  cbn [enc_writer enc_bytes].

(** Run the decoder over the fields. *)
Ltac decode_fields :=
  repeat match goal with
         | D : (forall s, ?d (?b ++ s) = (Ok ?x, s)) |- context [st_bind ?d ?f (?b ++ ?s')] =>
             rewrite (st_bind_ok d f _ _ _ (D s'))
         | D : (forall s, ?d (?b ++ ?b ++ s) = (Ok ?x, s)) |- context [st_bind ?d ?f (?b ++ ?b ++ ?s')] =>
             rewrite (st_bind_ok d f _ _ _ (D s'))
         end.

(** The bytes of the fields one after the other. *)
Ltac join_fields := rewrite <- ?app_assoc, <- ?Z.add_assoc, <- ?len_app.

Ltac record_codec ok enc dec :=
  let x := fresh "x" in let Hx := fresh "Hx" in
  intros x Hx; unfold ok in Hx; fields; unfold enc, dec; eexists; split;
  [ intros ?w; encode_fields; unfold written, Encoder_new; cbn [enc_writer enc_bytes]; rewrite Z.add_0_l; join_fields; reflexivity
  | intros ?s; rewrite <- ?app_assoc; decode_fields; by destruct x ].

Lemma read_exact_app b s n : len b = n -> read_exact n (b ++ s) = (Ok b, s).
Proof.
  intros <-. unfold read_exact. pose proof (len_nonneg s). rewrite len_app, (proj2 (Z.ltb_ge _ _)) by lia.
  unfold len. by rewrite Nat2Z.id, take_app_length, drop_app_length.
Qed.

Lemma int_codec (n : nat) x s :
  0 <= x < 256 ^ Z.of_nat n -> (b <- read_exact (Z.of_nat n) ;; st_ret (from_le b)) (to_le n x ++ s) = (Ok x, s).
Proof.
  intros Hx. rewrite (st_bind_ok _ _ _ (to_le n x) s); [unfold st_ret; by rewrite from_le_to_le|].
  apply read_exact_app, len_to_le.
Qed.

#[global] Instance u8_codec : Codec is_u8 encode_u8 decode_u8.
Proof. intros x Hx. exists (to_le 1 x). split; [done|]. intros s. by apply (int_codec 1). Qed.
#[global] Instance u16_codec : Codec is_u16 encode_u16 decode_u16.
Proof. intros x Hx. exists (to_le 2 x). split; [done|]. intros s. by apply (int_codec 2). Qed.
#[global] Instance u32_codec : Codec is_u32 encode_u32 decode_u32.
Proof. intros x Hx. exists (to_le 4 x). split; [done|]. intros s. by apply (int_codec 4). Qed.
#[global] Instance u64_codec : Codec is_u64 encode_u64 decode_u64.
Proof. intros x Hx. exists (to_le 8 x). split; [done|]. intros s. by apply (int_codec 8). Qed.

(** ** Flags *)

(** No bit but the named ones. *)
Definition bits_ok (all x : Z) : Prop := Z.land x all = x.

Lemma bits_bound k x : 0 <= k -> bits_ok (Z.ones k) x -> 0 <= x < 2 ^ k.
Proof. unfold bits_ok. intros Hk <-. rewrite Z.land_ones by done. apply Z.mod_pos_bound. lia. Qed.

Lemma bits_codec {wf enc dec} all :
  Codec wf enc dec -> (forall x, bits_ok all x -> wf x) -> Codec (bits_ok all) enc (decode_bits all dec).
Proof.
  intros HC Hw x Hx. destruct (HC x (Hw x Hx)) as (b & E & D). exists b. split; [done|]. intros s. unfold decode_bits.
  rewrite (st_bind_ok _ _ _ _ _ (D s)). unfold st_ret. by rewrite Hx.
Qed.

#[global] Instance qid_type_codec : Codec (bits_ok QIdType_ALL) encode_u8 (decode_bits QIdType_ALL decode_u8).
Proof. apply (bits_codec _ u8_codec). intros x. by apply (bits_bound 8). Qed.
#[global] Instance lock_type_codec : Codec (bits_ok LockType_ALL) encode_u8 (decode_bits LockType_ALL decode_u8).
Proof. apply (bits_codec _ u8_codec). intros x Hx%(bits_bound 2); [|done]. unfold is_u8. lia. Qed.
#[global] Instance lock_flag_codec : Codec (bits_ok LockFlag_ALL) encode_u32 (decode_bits LockFlag_ALL decode_u32).
Proof. apply (bits_codec _ u32_codec). intros x Hx%(bits_bound 2); [|done]. unfold is_u32. lia. Qed.
#[global] Instance lock_status_codec : Codec (bits_ok LockStatus_ALL) encode_u8 (decode_bits LockStatus_ALL decode_u8).
Proof. apply (bits_codec _ u8_codec). intros x Hx%(bits_bound 2); [|done]. unfold is_u8. lia. Qed.
#[global] Instance getattr_mask_codec : Codec (bits_ok GetAttrMask_ALL) encode_u64 (decode_bits GetAttrMask_ALL decode_u64).
Proof. apply (bits_codec _ u64_codec). intros x Hx%(bits_bound 14); [|done]. unfold is_u64. lia. Qed.
#[global] Instance setattr_mask_codec : Codec (bits_ok SetAttrMask_ALL) encode_u32 (decode_bits SetAttrMask_ALL decode_u32).
Proof. apply (bits_codec _ u32_codec). intros x Hx%(bits_bound 9); [|done]. unfold is_u32. lia. Qed.

(** ** Strings, data and vectors *)

Definition string_ok (s : string) : Prop := utf8_valid s = true /\ len s < 2 ^ 16.
Definition Data_ok (data : bytes) : Prop := len data < 2 ^ 32.
Definition vec_ok {A} (wf : A -> Prop) (v : list A) : Prop := Forall wf v /\ len v < 2 ^ 16.

#[global] Instance string_codec : Codec string_ok encode_string decode_string.
Proof.
  intros x [Hu Hl]. pose proof (len_nonneg x). destruct (u16_codec (len x)) as (b & E & D); [unfold is_u16; lia|].
  exists (b ++ x). split.
  - intros w. unfold encode_string, as_u16. rewrite Z.mod_small, E by lia. by rewrite len_app, app_assoc.
  - intros s. unfold decode_string. rewrite <- app_assoc. rewrite (st_bind_ok _ _ _ _ _ (D _)).
    rewrite (st_bind_ok _ _ _ _ _ (read_exact_app x s _ eq_refl)). by rewrite Hu.
Qed.

#[global] Instance data_codec : Codec Data_ok Data_encode Data_decode.
Proof.
  intros x Hl. unfold Data_ok in Hl. pose proof (len_nonneg x). destruct (u32_codec (len x)) as (b & E & D); [unfold is_u32; lia|].
  exists (b ++ x). split.
  - intros w. unfold Data_encode, as_u32. rewrite Z.mod_small, E by lia. by rewrite len_app, app_assoc.
  - intros s. unfold Data_decode. rewrite <- app_assoc. rewrite (st_bind_ok _ _ _ _ _ (D _)). by apply read_exact_app.
Qed.

(** The elements of a vector one after the other. *)
Lemma list_codec {A} {wf : A -> Prop} {enc dec} v :
  Codec wf enc dec -> Forall wf v ->
  exists b, (forall e, fold_left (fun acc x => acc << enc x) v e = {| enc_writer := enc_writer e ++ b; enc_bytes := enc_bytes e + len b |}) /\
    forall s, decode_n dec (length v) (b ++ s) = (Ok v, s).
Proof.
  intros HC Hv. induction Hv as [|x v Hx _ (bv & Ev & Dv)].
  - exists []. split; [|done]. intros [w n]. simpl. by rewrite app_nil_r, Z.add_0_r.
  - destruct (HC x Hx) as (bx & Ex & Dx). exists (bx ++ bv). split.
    + intros [w n]. cbn [fold_left]. rewrite Ev. encode_fields. by join_fields.
    + intros s. cbn [length decode_n]. rewrite <- app_assoc. rewrite (st_bind_ok _ _ _ _ _ (Dx _)). by rewrite (st_bind_ok _ _ _ _ _ (Dv s)).
Qed.

#[global] Instance vec_codec {A} {wf : A -> Prop} {enc dec} `{!Codec wf enc dec} : Codec (vec_ok wf) (encode_vec enc) (decode_vec dec).
Proof.
  intros v [Hv Hl]. pose proof (len_nonneg v). destruct (u16_codec (len v)) as (b & E & D); [unfold is_u16; lia|].
  destruct (list_codec v _ Hv) as (bv & Ev & Dv). exists (b ++ bv). split.
  - intros w. unfold encode_vec, as_u16. rewrite Z.mod_small, Ev by lia. encode_fields. unfold written, Encoder_new. cbn [enc_writer enc_bytes]. rewrite Z.add_0_l. by join_fields.
  - intros s. unfold decode_vec. rewrite <- app_assoc. rewrite (st_bind_ok _ _ _ _ _ (D _)). unfold len. rewrite Nat2Z.id. apply Dv.
Qed.

(** ** Records *)

#[global] Typeclasses Opaque is_u8 is_u16 is_u32 is_u64 bits_ok string_ok Data_ok LockType_ALL LockFlag_ALL LockStatus_ALL.
#[global] Typeclasses Opaque QIdType_ALL GetAttrMask_ALL SetAttrMask_ALL.

Definition QId_ok (q : QId) : Prop := bits_ok QIdType_ALL (q_typ q) /\ is_u32 (q_version q) /\ is_u64 (q_path q).

#[global] Instance qid_codec : Codec QId_ok QId_encode QId_decode.
Proof. record_codec QId_ok QId_encode QId_decode. Qed.

Definition StatFs_ok (s : StatFs) : Prop :=
  is_u32 (sf_typ s) /\ is_u32 (sf_bsize s) /\ is_u64 (sf_blocks s) /\ is_u64 (sf_bfree s) /\ is_u64 (sf_bavail s) /\
  is_u64 (sf_files s) /\ is_u64 (sf_ffree s) /\ is_u64 (sf_fsid s) /\ is_u32 (sf_namelen s).

#[global] Instance statfs_codec : Codec StatFs_ok StatFs_encode StatFs_decode.
Proof. record_codec StatFs_ok StatFs_encode StatFs_decode. Qed.

Definition Time_ok (t : Time) : Prop := is_u64 (t_sec t) /\ is_u64 (t_nsec t).

#[global] Instance time_codec : Codec Time_ok Time_encode Time_decode.
Proof. record_codec Time_ok Time_encode Time_decode. Qed.

Definition Stat_ok (s : Stat) : Prop :=
  is_u32 (st_mode s) /\ is_u32 (st_uid s) /\ is_u32 (st_gid s) /\ is_u64 (st_nlink s) /\ is_u64 (st_rdev s) /\ is_u64 (st_size s) /\
  is_u64 (st_blksize s) /\ is_u64 (st_blocks s) /\ Time_ok (st_atime s) /\ Time_ok (st_mtime s) /\ Time_ok (st_ctime s).

#[global] Typeclasses Opaque QId_ok Time_ok StatFs_ok Stat_ok.

#[global] Instance stat_codec : Codec Stat_ok Stat_encode Stat_decode.
Proof. record_codec Stat_ok Stat_encode Stat_decode. Qed.

Definition SetAttr_ok (s : SetAttr) : Prop :=
  is_u32 (sa_mode s) /\ is_u32 (sa_uid s) /\ is_u32 (sa_gid s) /\ is_u64 (sa_size s) /\ Time_ok (sa_atime s) /\ Time_ok (sa_mtime s).

#[global] Instance setattr_codec : Codec SetAttr_ok SetAttr_encode SetAttr_decode.
Proof. record_codec SetAttr_ok SetAttr_encode SetAttr_decode. Qed.

Definition Flock_ok (l : Flock) : Prop :=
  bits_ok LockType_ALL (fl_typ l) /\ bits_ok LockFlag_ALL (fl_flags l) /\ is_u64 (fl_start l) /\ is_u64 (fl_length l) /\
  is_u32 (fl_proc_id l) /\ string_ok (fl_client_id l).

#[global] Instance flock_codec : Codec Flock_ok Flock_encode Flock_decode.
Proof. record_codec Flock_ok Flock_encode Flock_decode. Qed.

Definition Getlock_ok (l : Getlock) : Prop :=
  bits_ok LockType_ALL (gl_typ l) /\ is_u64 (gl_start l) /\ is_u64 (gl_length l) /\ is_u32 (gl_proc_id l) /\ string_ok (gl_client_id l).

#[global] Instance getlock_codec : Codec Getlock_ok Getlock_encode Getlock_decode.
Proof. record_codec Getlock_ok Getlock_encode Getlock_decode. Qed.

Definition DirEntry_ok (e : DirEntry) : Prop :=
  QId_ok (dn_qid e) /\ is_u64 (dn_offset e) /\ is_u8 (dn_typ e) /\ string_ok (dn_name e).

#[global] Instance dir_entry_codec : Codec DirEntry_ok DirEntry_encode DirEntry_decode.
Proof. record_codec DirEntry_ok DirEntry_encode DirEntry_decode. Qed.

(** ** Directory listings *)

(** Entries that fit a reply. *)
Definition DirEntryData_ok (data : list DirEntry) : Prop :=
  Forall DirEntry_ok data /\ foldr (fun e a => 24 + len (dn_name e) + a) 0 data < 2 ^ 32.

Lemma entry_length e b : (forall w, DirEntry_encode e w = (len b, w ++ b)) -> len b = 24 + len (dn_name e).
Proof.
  intros E. specialize (E []). apply (f_equal fst) in E. cbn [fst] in E. rewrite <- E.
  unfold DirEntry_encode, QId_encode, encode_string, written, shl, encode_u8, encode_u16, encode_u32, encode_u64, Encoder_new. simpl. lia.
Qed.

Lemma entry_size e : DirEntry_ok e -> DirEntry_size e = 24 + len (dn_name e).
Proof.
  intros (_ & _ & _ & [_ Hl]). pose proof (len_nonneg (dn_name e)). unfold DirEntry_size, QId_size, as_u32. rewrite Z.mod_small by lia. lia.
Qed.

Lemma entries_size data : DirEntryData_ok data -> DirEntryData_size data = foldr (fun e a => 24 + len (dn_name e) + a) 0 data.
Proof.
  intros [Hd Hs]. unfold DirEntryData_size. assert (forall a, 0 <= a -> a + foldr (fun e a => 24 + len (dn_name e) + a) 0 data < 2 ^ 32 ->
    fold_left (fun a e => as_u32 (a + DirEntry_size e)) data a = a + foldr (fun e a => 24 + len (dn_name e) + a) 0 data) as H; [|by rewrite H by lia].
  clear Hs. induction Hd as [|e data He _ IH]; intros a Ha Hs; simpl in *; [lia|].
  pose proof (len_nonneg (dn_name e)). assert (0 <= foldr (fun e a => 24 + len (dn_name e) + a) 0 data) as Hp.
  { clear. induction data as [|e data IH]; simpl; [lia|]. pose proof (len_nonneg (dn_name e)). lia. }
  rewrite entry_size by done. unfold as_u32 at 2. rewrite Z.mod_small by lia. rewrite IH by lia. lia.
Qed.

Lemma entries_codec data :
  Forall DirEntry_ok data ->
  exists b, len b = foldr (fun e a => 24 + len (dn_name e) + a) 0 data /\
    (forall e, fold_left (fun acc x => acc << DirEntry_encode x) data e = {| enc_writer := enc_writer e ++ b; enc_bytes := enc_bytes e + len b |}) /\
    forall fuel acc, (length data <= fuel)%nat -> decode_entries fuel acc b = (Ok (acc ++ data), []).
Proof.
  intros Hd. induction Hd as [|x data Hx _ (bv & Lv & Ev & Dv)].
  - exists []. split; [done|]. split; [intros [w n]; simpl; by rewrite app_nil_r, Z.add_0_r|]. intros [|fuel] acc _; simpl; by rewrite app_nil_r.
  - destruct (dir_entry_codec x Hx) as (bx & Ex & Dx). pose proof (entry_length x bx Ex) as Lx. pose proof (len_nonneg (dn_name x)).
    exists (bx ++ bv). split_and!.
    + rewrite len_app, Lx, Lv. simpl. lia.
    + intros [w n]. cbn [fold_left]. rewrite Ev. encode_fields. by join_fields.
    + intros [|fuel] acc Hf; simpl in Hf; [lia|]. cbn [decode_entries].
      destruct (bx ++ bv) eqn:Eb; [exfalso; apply app_nil in Eb as [-> _]; rewrite len_nil in Lx; lia|]. rewrite <- Eb.
      rewrite (st_bind_ok _ _ _ _ _ (Dx bv)), Dv by lia. by rewrite <- app_assoc.
Qed.

#[global] Typeclasses Opaque SetAttr_ok Flock_ok Getlock_ok DirEntry_ok DirEntryData_ok.

#[global] Instance dir_entries_codec : Codec DirEntryData_ok DirEntryData_encode DirEntryData_decode.
Proof.
  intros data Hd. pose proof (entries_size data Hd) as Hsz. destruct Hd as [Hd Hs]. destruct (entries_codec data Hd) as (bv & Lv & Ev & Dv).
  pose proof (len_nonneg bv). destruct (u32_codec (len bv)) as (b & E & D); [unfold is_u32; lia|]. exists (b ++ bv). split.
  - intros w. unfold DirEntryData_encode. rewrite Ev, Hsz, <- Lv. encode_fields. unfold written, Encoder_new. cbn [enc_writer enc_bytes].
    rewrite Z.add_0_l. by join_fields.
  - intros s. unfold DirEntryData_decode. rewrite <- app_assoc. rewrite (st_bind_ok _ _ _ _ _ (D _)).
    rewrite (st_bind_ok _ _ _ _ _ (read_exact_app bv s _ eq_refl)). rewrite Dv; [done|].
    enough (Z.of_nat (length data) <= len bv) by (unfold len in *; lia). rewrite Lv. clear. induction data as [|e data IH]; simpl; [lia|].
    pose proof (len_nonneg (dn_name e)). lia.
Qed.

(** * Messages *)

(** The fields are within their widths, the strings are UTF-8 and fit their
    length prefix. *)
Definition FCall_ok (body : FCall) : Prop :=
  match body with
  | RlError ecode => is_u32 ecode
  | TStatFs fid => is_u32 fid
  | RStatFs statfs => StatFs_ok statfs
  | TlOpen fid flags => is_u32 fid /\ is_u32 flags
  | RlOpen qid iounit => QId_ok qid /\ is_u32 iounit
  | TlCreate fid name flags mode gid => is_u32 fid /\ string_ok name /\ is_u32 flags /\ is_u32 mode /\ is_u32 gid
  | RlCreate qid iounit => QId_ok qid /\ is_u32 iounit
  | TSymlink fid name symtgt gid => is_u32 fid /\ string_ok name /\ string_ok symtgt /\ is_u32 gid
  | RSymlink qid => QId_ok qid
  | TMkNod dfid name mode major minor gid => is_u32 dfid /\ string_ok name /\ is_u32 mode /\ is_u32 major /\ is_u32 minor /\ is_u32 gid
  | RMkNod qid => QId_ok qid
  | TRename fid dfid name => is_u32 fid /\ is_u32 dfid /\ string_ok name
  | RRename => True
  | TReadLink fid => is_u32 fid
  | RReadLink target => string_ok target
  | TGetAttr fid req_mask => is_u32 fid /\ bits_ok GetAttrMask_ALL req_mask
  | RGetAttr valid qid stat => bits_ok GetAttrMask_ALL valid /\ QId_ok qid /\ Stat_ok stat
  | TSetAttr fid valid stat => is_u32 fid /\ bits_ok SetAttrMask_ALL valid /\ SetAttr_ok stat
  | RSetAttr => True
  | TxAttrWalk fid newfid name => is_u32 fid /\ is_u32 newfid /\ string_ok name
  | RxAttrWalk size => is_u64 size
  | TxAttrCreate fid name attr_size flags => is_u32 fid /\ string_ok name /\ is_u64 attr_size /\ is_u32 flags
  | RxAttrCreate => True
  | TReadDir fid offset count => is_u32 fid /\ is_u64 offset /\ is_u32 count
  | RReadDir data => DirEntryData_ok data
  | TFSync fid => is_u32 fid
  | RFSync => True
  | TLock fid flock => is_u32 fid /\ Flock_ok flock
  | RLock status => bits_ok LockStatus_ALL status
  | TGetLock fid flock => is_u32 fid /\ Getlock_ok flock
  | RGetLock flock => Getlock_ok flock
  | TLink dfid fid name => is_u32 dfid /\ is_u32 fid /\ string_ok name
  | RLink => True
  | TMkDir dfid name mode gid => is_u32 dfid /\ string_ok name /\ is_u32 mode /\ is_u32 gid
  | RMkDir qid => QId_ok qid
  | TRenameAt olddirfid oldname newdirfid newname => is_u32 olddirfid /\ string_ok oldname /\ is_u32 newdirfid /\ string_ok newname
  | RRenameAt => True
  | TUnlinkAt dirfd name flags => is_u32 dirfd /\ string_ok name /\ is_u32 flags
  | RUnlinkAt => True
  | TAuth afid uname aname n_uname => is_u32 afid /\ string_ok uname /\ string_ok aname /\ is_u32 n_uname
  | RAuth aqid => QId_ok aqid
  | TAttach fid afid uname aname n_uname => is_u32 fid /\ is_u32 afid /\ string_ok uname /\ string_ok aname /\ is_u32 n_uname
  | RAttach qid => QId_ok qid
  | TVersion msize version => is_u32 msize /\ string_ok version
  | RVersion msize version => is_u32 msize /\ string_ok version
  | TFlush oldtag => is_u16 oldtag
  | RFlush => True
  | TWalk fid newfid wnames => is_u32 fid /\ is_u32 newfid /\ vec_ok string_ok wnames
  | RWalk wqids => vec_ok QId_ok wqids
  | TRead fid offset count => is_u32 fid /\ is_u64 offset /\ is_u32 count
  | RRead data => Data_ok data
  | TWrite fid offset data => is_u32 fid /\ is_u64 offset /\ Data_ok data
  | RWrite count => is_u32 count
  | TClunk fid => is_u32 fid
  | RClunk => True
  | TRemove fid => is_u32 fid
  | RRemove => True
  end.

Lemma msg_type_code t : MsgType.MsgType_from_u8 (MsgType.MsgType_code t) = Some t.
Proof. by destruct t. Qed.

Lemma msg_type_u8 t : is_u8 (MsgType.MsgType_code t).
Proof. destruct t; split; done. Qed.

(** The reserved fields at the end of an attribute reply. *)
Lemma zero_codec : exists b, (forall w, encode_u64 0 w = (len b, w ++ b)) /\ (forall s, decode_u64 (b ++ s) = (Ok 0, s)) /\
  forall s, Time_decode (b ++ b ++ s) = (Ok {| t_sec := 0; t_nsec := 0 |}, s).
Proof.
  destruct (u64_codec 0) as (b & E & D); [done|]. exists b. split_and!; [done|done|]. intros s. unfold Time_decode. by decode_fields.
Qed.

Ltac fcall_codec :=
  fields; eexists; split;
  [ intros ?e; encode_fields; join_fields; reflexivity | intros ?s; rewrite <- ?app_assoc; decode_fields; reflexivity ].

Lemma fcall_codec body :
  FCall_ok body ->
  exists b, (forall e, FCall_encode body e = {| enc_writer := enc_writer e ++ b; enc_bytes := enc_bytes e + len b |}) /\
    forall s, FCall_decode (Some (MsgType_from body)) (b ++ s) = (Ok body, s).
Proof.
  destruct body; cbn [FCall_ok FCall_encode FCall_decode MsgType_from]; intros Hok;
    lazymatch type of Hok with
    | True => exists []; split; [intros [w n]; simpl; by rewrite app_nil_r, Z.add_0_r|done]
    | bits_ok GetAttrMask_ALL _ /\ QId_ok _ /\ Stat_ok _ => destruct zero_codec as (z & Ez & Dz & Dt); fcall_codec
    | _ => fcall_codec
    end.
Qed.

Definition Msg_ok (m : Msg) : Prop := is_u16 (msg_tag m) /\ FCall_ok (msg_body m).

Lemma msg_codec m : Msg_ok m -> exists b, (forall w, Msg_encode m w = (len b, w ++ b)) /\ forall s, Msg_decode (b ++ s) = (Ok m, s).
Proof.
  intros [Ht Hb]. destruct (fcall_codec _ Hb) as (bb & Eb & Db). pose proof (msg_type_u8 (MsgType_from (msg_body m))) as Hc. fields.
  exists (b ++ b0 ++ bb). split.
  - intros w. unfold Msg_encode. rewrite Eb. encode_fields. unfold written, Encoder_new. cbn [enc_writer enc_bytes]. rewrite Z.add_0_l. by join_fields.
  - intros s. unfold Msg_decode. rewrite <- ?app_assoc. decode_fields. rewrite msg_type_code, (st_bind_ok _ _ _ _ _ (Db s)). by destruct m.
Qed.

(** C20: the 9P codec is lossless: for every message whose fields fit the wire,
    [write_msg] appends to the buffer, counts the bytes it appended, and
    [read_msg] on them followed by anything gives the message back and stops
    exactly at their end. *)
Theorem p9_roundtrip m w s :
  Msg_ok m ->
  exists b, write_msg w m = (len b, w ++ b) /\ read_msg (b ++ s) = (Ok m, s).
Proof. intros Hm. destruct (msg_codec m Hm) as (b & E & D). exists b. split; [apply E|apply D]. Qed.

Definition demo_walk : Msg := {| msg_tag := 7; msg_body := TWalk 1 2 [[100; 195; 169]; [46; 46]] |}.

Lemma p9_roundtrip_witness : exists b, write_msg [] demo_walk = (len b, [] ++ b) /\ read_msg (b ++ [9]) = (Ok demo_walk, [9]).
Proof.
  refine (p9_roundtrip demo_walk [] [9] _). split; [vm_compute; split; congruence|].
  repeat split; try (vm_compute; congruence). repeat constructor; vm_compute; congruence.
Defined.
