(* ===== verification/P9Type.v ===== *)
(** The 9P decoder is well typed: whatever bytes it is given, a message it
    accepts has every field within its width, its strings in UTF-8 and its
    flags among the known ones, so that encoding it again loses nothing. *)

From S2P Require Import Prelude Quota P9 P9Thm.

(** Whatever [dec] accepts of some bytes satisfies [wf], and what it left is
    their end. *)
Class Typed {A} (wf : A -> Prop) (dec : Reader A) : Prop :=
  typed_law b x rest : Forall is_u8 b -> dec b = (Ok x, rest) -> wf x /\ exists c, b = c ++ rest.

Lemma read_exact_ok n b x rest : read_exact n b = (Ok x, rest) -> b = x ++ rest /\ len x = Z.max 0 n.
Proof.
  unfold read_exact. destruct (Z.ltb_spec (len b) n) as [|Hn]; [done|]. intros [= <- <-]. rewrite take_drop. split; [done|].
  unfold len in *. rewrite length_take. lia.
Qed.

(** Run a sequence of decoders backwards from its success. *)
Lemma bind_read {A B} (m : Reader A) (k : A -> Reader B) b y rest :
  (x <- m ;; k x) b = (Ok y, rest) -> exists x b1, m b = (Ok x, b1) /\ k x b1 = (Ok y, rest).
Proof. unfold st_bind. destruct (m b) as [[x|e] b1]; [eauto|done]. Qed.

Ltac unread H :=
  repeat (apply bind_read in H as (?x & ?b1 & ?H1 & H)); injection H as <- <-.

(** Each step is typed, on what the one before left. *)
Ltac typed_step :=
  match goal with
  | Hb : Forall is_u8 ?b, H : ?d ?b = (Ok ?x, ?r) |- _ =>
      let W := fresh "W" in let c := fresh "c" in let E := fresh "E" in
      destruct (typed_law b x r Hb H) as (W & c & E); clear H; subst b; apply Forall_app in Hb as [_ Hb]
  end.

Ltac typed :=
  let b := fresh "b" in let y := fresh "y" in let rest := fresh "rest" in let Hb := fresh "Hb" in let H := fresh "H" in
  intros b y rest Hb H; unread H; repeat typed_step; split; [first [done | red; split_and?; done]|first [by exists [] | rewrite ?app_assoc; by eexists]].

Lemma int_typed (n : nat) b x rest :
  Forall is_u8 b -> (c <- read_exact (Z.of_nat n) ;; st_ret (from_le c)) b = (Ok x, rest) ->
  0 <= x < 256 ^ Z.of_nat n /\ exists c, b = c ++ rest.
Proof.
  intros Hb H. unread H. apply read_exact_ok in H1 as [-> Hl]. apply Forall_app in Hb as [Hx _]. split; [|eauto].
  apply from_le_bound; [done|]. unfold len in Hl. lia.
Qed.

#[global] Instance u8_typed : Typed is_u8 decode_u8.
Proof. intros b x rest Hb H. by apply (int_typed 1 b x rest Hb). Qed.
#[global] Instance u16_typed : Typed is_u16 decode_u16.
Proof. intros b x rest Hb H. by apply (int_typed 2 b x rest Hb). Qed.
#[global] Instance u32_typed : Typed is_u32 decode_u32.
Proof. intros b x rest Hb H. by apply (int_typed 4 b x rest Hb). Qed.
#[global] Instance u64_typed : Typed is_u64 decode_u64.
Proof. intros b x rest Hb H. by apply (int_typed 8 b x rest Hb). Qed.

#[global] Instance bits_typed {wf dec} all : Typed wf dec -> Typed (bits_ok all) (decode_bits all dec).
Proof.
  intros Hd b x rest Hb H. unread H. destruct (Hd _ _ _ Hb H1) as [_ He]. split; [|done]. unfold bits_ok.
  by rewrite <- Z.land_assoc, Z.land_diag.
Qed.

#[global] Instance string_typed : Typed string_ok decode_string.
Proof.
  intros b x rest Hb H. apply bind_read in H as (n & b1 & H1 & H). destruct (typed_law _ _ _ Hb H1) as (Hn & c & ->).
  apply bind_read in H as (y & b2 & H2 & H). apply read_exact_ok in H2 as [-> Hl].
  destruct (utf8_valid y) eqn:Hu; [|done]. injection H as <- <-. split; [split; [done|unfold is_u16 in Hn; lia]|]. exists (c ++ y). by rewrite app_assoc.
Qed.

#[global] Instance data_typed : Typed Data_ok Data_decode.
Proof.
  intros b x rest Hb H. apply bind_read in H as (n & b1 & H1 & H). destruct (typed_law _ _ _ Hb H1) as (Hn & c & ->).
  apply read_exact_ok in H as [-> Hl]. split; [unfold Data_ok, is_u32 in *; lia|]. exists (c ++ x). by rewrite app_assoc.
Qed.

Lemma list_typed {A} {wf : A -> Prop} {dec} n b x rest : Typed wf dec -> Forall is_u8 b -> decode_n dec n b = (Ok x, rest) ->
  Forall wf x /\ length x = n /\ exists c, b = c ++ rest.
Proof.
  intros Hd. revert b x. induction n as [|n IH]; intros b x Hb H; cbn [decode_n] in H.
  - injection H as <- <-. split_and!; [constructor|done|by exists []].
  - apply bind_read in H as (y & b1 & H1 & H). destruct (Hd _ _ _ Hb H1) as (Hy & c & ->). apply Forall_app in Hb as [_ Hb].
    apply bind_read in H as (v & b2 & H2 & H). injection H as <- <-. destruct (IH _ _ Hb H2) as (Hv & <- & c2 & ->).
    split_and!; [by constructor|done|]. exists (c ++ c2). by rewrite app_assoc.
Qed.

#[global] Instance vec_typed {A} {wf : A -> Prop} {dec} : Typed wf dec -> Typed (vec_ok wf) (decode_vec dec).
Proof.
  intros Hd b x rest Hb H. apply bind_read in H as (n & b1 & H1 & H). destruct (typed_law _ _ _ Hb H1) as (Hn & c & ->).
  apply Forall_app in Hb as [_ Hb]. destruct (list_typed _ _ _ _ Hd Hb H) as (Hx & Hl & c2 & ->).
  split; [|exists (c ++ c2); by rewrite app_assoc]. split; [done|]. unfold is_u16 in Hn. unfold len. lia.
Qed.

(** ** Records *)

#[global] Instance qid_typed : Typed QId_ok QId_decode.
Proof. typed. Qed.
#[global] Instance statfs_typed : Typed StatFs_ok StatFs_decode.
Proof. typed. Qed.
#[global] Instance time_typed : Typed Time_ok Time_decode.
Proof. typed. Qed.
#[global] Instance stat_typed : Typed Stat_ok Stat_decode.
Proof. typed. Qed.
#[global] Instance setattr_typed : Typed SetAttr_ok SetAttr_decode.
Proof. typed. Qed.
#[global] Instance flock_typed : Typed Flock_ok Flock_decode.
Proof. typed. Qed.
#[global] Instance getlock_typed : Typed Getlock_ok Getlock_decode.
Proof. typed. Qed.
#[global] Instance dir_entry_typed : Typed DirEntry_ok DirEntry_decode.
Proof. typed. Qed.

(** ** Directory listings *)

(** An entry takes as many bytes as encoding it would. *)
Lemma entry_taken b e rest : DirEntry_decode b = (Ok e, rest) -> len b = 24 + len (dn_name e) + len rest.
Proof.
  intros H. unfold DirEntry_decode, QId_decode, decode_bits, decode_u8, decode_u32, decode_u64, decode_string, decode_u16 in H.
  repeat match goal with H : st_bind _ _ _ = (Ok _, _) |- _ => apply bind_read in H as (? & ? & ? & ?) end.
  repeat match goal with H : read_exact _ _ = (Ok _, _) |- _ => apply read_exact_ok in H as [-> ?] end.
  destruct (utf8_valid _); [|done]. unfold st_ret in *. simplify_eq/=. rewrite !len_app. lia.
Qed.

Definition entries_len (data : list DirEntry) : Z := foldr (fun e a => 24 + len (dn_name e) + a) 0 data.

Lemma entries_len_snoc data e : entries_len (data ++ [e]) = entries_len data + (24 + len (dn_name e)).
Proof. unfold entries_len. induction data as [|d data IH]; cbn; lia. Qed.

Lemma entries_typed fuel data b l rest : Forall is_u8 b -> Forall DirEntry_ok data -> decode_entries fuel data b = (Ok l, rest) ->
  Forall DirEntry_ok l /\ entries_len l = entries_len data + len b.
Proof.
  revert data b. induction fuel as [|fuel IH]; intros data [|x b] Hb Hd H; cbn [decode_entries] in H; try done;
    [by injection H as <- <-; split; [|change (len (@nil Z)) with 0; lia]..|].
  apply bind_read in H as (e & b1 & H1 & H). pose proof (entry_taken _ _ _ H1) as Hl. destruct (typed_law _ _ _ Hb H1) as (He & c & Ec).
  rewrite Ec in Hb. apply Forall_app in Hb as [_ Hb]. destruct (IH (data ++ [e]) b1 Hb) as [H2 H3]; [apply Forall_app; by split; [|constructor]|done|].
  split; [done|]. rewrite H3, entries_len_snoc. lia.
Qed.

#[global] Instance entries_data_typed : Typed DirEntryData_ok DirEntryData_decode.
Proof.
  intros b x rest Hb H. apply bind_read in H as (n & b1 & H1 & H). destruct (typed_law _ _ _ Hb H1) as (Hn & c & ->).
  apply Forall_app in Hb as [_ Hb]. apply bind_read in H as (blob & b2 & H2 & H). apply read_exact_ok in H2 as [-> Hl].
  apply Forall_app in Hb as [Hblob _]. destruct (decode_entries (length blob) [] blob) as [[l|e] r] eqn:E; [|done]. injection H as <- <-.
  destruct (entries_typed _ _ _ _ _ Hblob (Forall_nil_2 _) E) as [H2 H3]. split; [|exists (c ++ blob); by rewrite app_assoc].
  split; [done|]. fold (entries_len l). rewrite H3. unfold is_u32 in Hn. cbn. lia.
Qed.

(** * Messages *)

Lemma fcall_typed t : Typed FCall_ok (FCall_decode t).
Proof. destruct t as [t|]; [|done]. destruct t; cbn [FCall_decode]; try done; typed. Qed.
#[global] Existing Instance fcall_typed.

Lemma msg_typed : Typed Msg_ok Msg_decode.
Proof. typed. Qed.

(** C22: the 9P decoder is well typed: whatever bytes arrive, a message it
    accepts has every field within its width, so encoding it and reading that back
    gives the same message; and it takes the message from the front of the
    bytes, leaving the rest. *)
Theorem p9_typed b m rest : Forall is_u8 b -> read_msg b = (Ok m, rest) ->
  Msg_ok m /\ (exists c, b = c ++ rest) /\ exists e, write_msg [] m = (len e, e) /\ forall s, read_msg (e ++ s) = (Ok m, s).
Proof.
  intros Hb H. destruct (msg_typed b m rest Hb H) as [Hm Hc]. split_and!; [done|done|].
  destruct (msg_codec m Hm) as (e & E & D). exists e. split; [apply (E [])|apply D].
Qed.

(** A walk with a flag byte of its own after it. *)
Lemma p9_typed_witness : Msg_ok demo_walk /\ (exists c, (write_msg [] demo_walk).2 ++ [9] = c ++ [9]) /\
  exists e, write_msg [] demo_walk = (len e, e) /\ forall s, read_msg (e ++ s) = (Ok demo_walk, s).
Proof.
  apply (p9_typed ((write_msg [] demo_walk).2 ++ [9]) demo_walk [9]); [|vm_compute; reflexivity].
  vm_compute. repeat (constructor; [split; [intros H; discriminate H|reflexivity]|]). constructor.
Defined.
