(* ===== verification/P9Srv.v ===== *)
(** The 9P server: [rs9p/src/srv.rs] dispatching the messages of one session to
    the adapter [slatefs-9p/src/filesystem.rs], whose handlers call the volume.

    A session is run one request at a time; what other sessions do to the
    volume happens at its lock waits. The rate limiter is an arbitrary sequence
    of admissions, and the allocator an arbitrary sequence of answers to the one
    request whose size the client chooses, an extended attribute's buffer. *)

From S2P Require Import Prelude Keys Meta Store Data Quota Locks Volume Vfs P9.

(** * Errors *)

(** The numbers of [nix::errno::Errno] on Linux. *)
Module errno.
Definition EPERM : u32 := 1.
Definition ENOENT : u32 := 2.
Definition EIO : u32 := 5.
Definition EBADF : u32 := 9.
Definition EAGAIN : u32 := 11.
Definition EACCES : u32 := 13.
Definition EEXIST : u32 := 17.
Definition EXDEV : u32 := 18.
Definition ENOTDIR : u32 := 20.
Definition EISDIR : u32 := 21.
Definition EINVAL : u32 := 22.
Definition EFBIG : u32 := 27.
Definition ENOSPC : u32 := 28.
Definition EROFS : u32 := 30.
Definition EMLINK : u32 := 31.
Definition ENAMETOOLONG : u32 := 36.
Definition ENOTEMPTY : u32 := 39.
Definition ENODATA : u32 := 61.
Definition EPROTO : u32 := 71.
Definition EOPNOTSUPP : u32 := 95.
Definition ESTALE : u32 := 116.
Definition EDQUOT : u32 := 122.
End errno.

(** How a request fails: with an error number, because its task panics, or
    because an allocation fails, which aborts the process. *)
Inductive P9Error : Type := No (e : u32) | Panicked | Aborted.

(** [filesystem::errno] *)
Definition p9_errno (e : FsError) : u32 :=
  match e with
  | NotPermitted => errno.EPERM
  | NotFound => errno.ENOENT
  | Io => errno.EIO
  | BadHandle => errno.EBADF
  | WouldBlock => errno.EAGAIN
  | AccessDenied => errno.EACCES
  | Exists => errno.EEXIST
  | CrossDevice => errno.EXDEV
  | NotDir => errno.ENOTDIR
  | IsDir => errno.EISDIR
  | Invalid => errno.EINVAL
  | FileTooBig => errno.EFBIG
  | NoSpace => errno.ENOSPC
  | TooManyLinks => errno.EMLINK
  | NameTooLong => errno.ENAMETOOLONG
  | NotEmpty => errno.ENOTEMPTY
  | NoData => errno.ENODATA
  | NotSupported => errno.EOPNOTSUPP
  | Stale => errno.ESTALE
  | QuotaExceeded => errno.EDQUOT
  | ReadOnly => errno.EROFS
  end.

(** * Attributes on the wire *)

Definition qid_type (k : FileKind) : u8 :=
  match k with Dir => QIdType_DIR | Symlink => QIdType_SYMLINK | _ => QIdType_FILE end.

Definition qid_for (attr : FileAttr) : QId :=
  {| q_typ := qid_type (a_kind attr); q_version := a_generation attr; q_path := a_ino attr |}.

Definition mode_with_type (attr : FileAttr) : u32 :=
  Z.lor (match a_kind attr with
         | File => 32768 | Dir => 16384 | Symlink => 40960 | Fifo => 4096 | Socket => 49152 | CharDev => 8192 | BlockDev => 24576
         end) (a_mode attr).

Definition d_type (k : FileKind) : u8 :=
  match k with Fifo => 1 | CharDev => 2 | Dir => 4 | BlockDev => 6 | File => 8 | Symlink => 10 | Socket => 12 end.

Definition to_time (ts : Timespec) : Time := {| t_sec := Z.max (secs ts) 0; t_nsec := nanos ts |}.

Definition encode_rdev (rdev : u64) : u64 :=
  let major := Z.shiftr rdev 32 in
  let minor := Z.land rdev 4294967295 in
  Z.lor (Z.lor (Z.land minor 255) (Z.shiftl major 8)) (Z.shiftl (Z.ldiff minor 255) 12).

Definition stat_for (attr : FileAttr) : Stat :=
  {| st_mode := mode_with_type attr; st_uid := a_uid attr; st_gid := a_gid attr; st_nlink := a_nlink attr;
     st_rdev := encode_rdev (a_rdev attr); st_size := a_size attr; st_blksize := 4096; st_blocks := a_blocks attr;
     st_atime := to_time (a_atime attr); st_mtime := to_time (a_mtime attr); st_ctime := to_time (a_ctime attr) |}.

(** * Sessions *)

Inductive XattrFid : Type :=
| XRead (buf : bytes)
| XWrite (name buf : bytes).

(** [FidState] *)
Record FidState : Type := {
  fd_ino : u64;
  fd_uid : u32;
  fd_gid : u32;
  fd_handle : option u64;
  fd_provenance : option (u64 * bytes);
  fd_xattr : option XattrFid
}.

Definition fid_creds (s : FidState) : Credentials := creds_trusted (fd_uid s) (fd_gid s).

Definition set_fd_gid (gid : u32) (s : FidState) : FidState :=
  {| fd_ino := fd_ino s; fd_uid := fd_uid s; fd_gid := gid; fd_handle := fd_handle s;
     fd_provenance := fd_provenance s; fd_xattr := fd_xattr s |}.
Definition set_fd_handle (h : option u64) (s : FidState) : FidState :=
  {| fd_ino := fd_ino s; fd_uid := fd_uid s; fd_gid := fd_gid s; fd_handle := h;
     fd_provenance := fd_provenance s; fd_xattr := fd_xattr s |}.
Definition set_fd_provenance (p : option (u64 * bytes)) (s : FidState) : FidState :=
  {| fd_ino := fd_ino s; fd_uid := fd_uid s; fd_gid := fd_gid s; fd_handle := fd_handle s;
     fd_provenance := p; fd_xattr := fd_xattr s |}.
Definition set_fd_xattr (x : option XattrFid) (s : FidState) : FidState :=
  {| fd_ino := fd_ino s; fd_uid := fd_uid s; fd_gid := fd_gid s; fd_handle := fd_handle s;
     fd_provenance := fd_provenance s; fd_xattr := x |}.

(** [P9Fid]: the state behind its mutex, which a panic poisons. *)
Inductive P9Fid : Type := Live (s : FidState) | Poisoned.

Definition DOT_OFFSET : u64 := 1.
Definition DOTDOT_OFFSET : u64 := 2.
Definition IOUNIT : u32 := 1024 * 1024.
Definition O_ACCMODE : u32 := 3.
Definition O_WRONLY : u32 := 1.
Definition O_RDWR : u32 := 2.
Definition O_TRUNC : u32 := 512.
Definition AT_REMOVEDIR : u32 := 512.

(** The configuration of an export ([struct SlateFs9p]). *)
Record Export : Type := {
  x_atime_policy : AtimeMode;
  x_token : option string;
  x_export_name : string;
  x_rate_limited : bool
}.

(** [s.trim_end_matches('/')] *)
Fixpoint drop_slashes (r : bytes) : bytes :=
  match r with b :: r' => if b =? 47 then drop_slashes r' else r | [] => [] end.
Definition trim_end_slashes (s : string) : string := rev (drop_slashes (rev s)).

#[global] Instance open_mode_eq_dec : EqDecision OpenMode.
Proof. solve_decision. Defined.

Definition open_mode (flags : u32) : OpenMode :=
  let acc := Z.land flags O_ACCMODE in
  if acc =? O_WRONLY then OWrite else if acc =? O_RDWR then OReadWrite else ORead.

(** [valid.contains(flag)] *)
Definition contains (valid flag : u32) : bool := Z.land valid flag =? flag.

(** [flag.then_some(x)] *)
Definition then_some {A} (b : bool) (a : A) : option A := if b then Some a else None.

Definition wire_time (set : bool) (t : Time) : TimeSet :=
  if set then TTime {| secs := as_i64 (t_sec t); nanos := as_u32 (t_nsec t) |} else TNow.

Definition set_attrs (valid : u32) (stat : SetAttr) : SetAttrs :=
  {| s_mode := then_some (contains valid SetAttrMask_MODE) (sa_mode stat);
     s_uid := then_some (contains valid SetAttrMask_UID) (sa_uid stat);
     s_gid := then_some (contains valid SetAttrMask_GID) (sa_gid stat);
     s_size := then_some (contains valid SetAttrMask_SIZE) (sa_size stat);
     s_atime := then_some (contains valid SetAttrMask_ATIME) (wire_time (contains valid SetAttrMask_ATIME_SET) (sa_atime stat));
     s_mtime := then_some (contains valid SetAttrMask_MTIME) (wire_time (contains valid SetAttrMask_MTIME_SET) (sa_mtime stat)) |}.

(** The end of a lock range; length 0 is "to the end". *)
Definition lock_end (start length : u64) : u64 := if length =? 0 then U64_MAX else saturating_add_u64 start length.

(** The buffer of an xattr write with [data] put at [offset], given the memory;
    [None] when its capacity would exceed [isize::MAX], which panics. *)
Definition xattr_put (buf : bytes) (offset : u64) (data : bytes) : option bytes :=
  if I64_MAX <? offset + len data then None
  else Some (splice (buf ++ zeros (offset + len data - len buf)) offset data).

(** The closure [push] of [rreaddir]. *)
Definition push (count : u32) (entry : DirEntry) (acc : list DirEntry * u32) : bool * (list DirEntry * u32) :=
  let '(entries, used) := acc in
  let size := DirEntry_size entry in
  if saturating_sub count 16 <? as_u32 (used + size) then (false, acc) else (true, (entries ++ [entry], as_u32 (used + size))).

Definition wire_entry (e : Meta.DirEntry) : DirEntry :=
  {| dn_qid := {| q_typ := qid_type (de_kind e); q_version := 0; q_path := de_ino e |}; dn_offset := de_cookie e;
     dn_typ := d_type (de_kind e); dn_name := from_utf8_lossy (de_name e) |}.

(** The entries of one page, until one does not fit ([inl]). *)
Fixpoint push_page (count : u32) (es : list Meta.DirEntry) (next : u64) (acc : list DirEntry * u32) :
    list DirEntry + (u64 * (list DirEntry * u32)) :=
  match es with
  | [] => inr (next, acc)
  | e :: es =>
      let '(fits, acc) := push count (wire_entry e) acc in
      if fits then push_page count es (de_cookie e) acc else inl acc.1
  end.

Section session.
Context {DB : SlateDB} {AC : MokaCache u64 Inode} {NC : MokaCache (u64 * bytes) unit} {NCR : NameCrypto}.

(** A session: the volume, the fids, whether the token was presented, and the
    answers of the rate limiter and of the allocator to come (when there is
    none, they admit and succeed). *)
Record P9 : Type := mkP9 {
  p_vol : Volume;
  p_fids : gmap u32 P9Fid;
  p_authed : bool;
  p_admits : list bool;
  p_allocs : list bool
}.

Definition set_p_vol (v : Volume) (s : P9) : P9 := mkP9 v (p_fids s) (p_authed s) (p_admits s) (p_allocs s).
Definition set_p_fids (f : gmap u32 P9Fid) (s : P9) : P9 := mkP9 (p_vol s) f (p_authed s) (p_admits s) (p_allocs s).
Definition set_p_authed (b : bool) (s : P9) : P9 := mkP9 (p_vol s) (p_fids s) b (p_admits s) (p_allocs s).
Definition set_p_admits (l : list bool) (s : P9) : P9 := mkP9 (p_vol s) (p_fids s) (p_authed s) l (p_allocs s).
Definition set_p_allocs (l : list bool) (s : P9) : P9 := mkP9 (p_vol s) (p_fids s) (p_authed s) (p_admits s) l.

Definition PM (A : Type) : Type := ST P9 (Halt P9Error) A.

Definition no {A} (e : u32) : PM A := st_fail (Raise (No e)).

(** [self.volume.op(..).await.map_err(errno)?] *)
Definition vcall {A} (m : FsM A) : PM A := fun s =>
  let '(r, v) := m (p_vol s) in (map_err (halt_map (fun e => No (p9_errno e))) r, set_p_vol v s).

(** [match self.volume.op(..).await { .. }] *)
Definition vtry {A} (m : FsM A) : PM (result FsError A) := fun s =>
  let '(r, v) := m (p_vol s) in
  (match r with Ok a => Ok (Ok a) | Err (Raise e) => Ok (Err e) | Err OutOfFuel => Err OutOfFuel end, set_p_vol v s).

(** [fids.get(fid).ok_or(EBADF)] *)
Definition get_fid (fid : u32) : PM unit :=
  s <- st_get ;; match p_fids s !! fid with Some _ => st_ret tt | None => no errno.EBADF end.

(** [SlateFs9p::state], of a fid the dispatcher has looked up: a missing fid
    has been answered by [get_fid]. *)
Definition state (fid : u32) : PM FidState :=
  s <- st_get ;;
  match p_fids s !! fid with
  | Some (Live st) => st_ret st
  | Some Poisoned => st_fail (Raise Panicked)
  | None => no errno.EBADF
  end.

(** [SlateFs9p::set_state] *)
Definition set_state (fid : u32) (st : FidState) : PM unit := st_modify (fun s => set_p_fids (<[fid := Live st]> (p_fids s)) s).

Context (others : nat -> Volume -> Volume) (fuel : nat) (x : Export).

Definition attr_of (ino : u64) : PM FileAttr := vcall (getattr ino).

Definition check_rate (bytes : u64) : PM unit :=
  if x_rate_limited x then
    s <- st_get ;;
    match p_admits s with
    | [] => st_ret tt
    | b :: l => st_modify (set_p_admits l) ;;; if (b : bool) then st_ret tt else no (p9_errno WouldBlock)
    end
  else st_ret tt.

(** Growing a [Vec]. *)
Definition allocate : PM unit :=
  s <- st_get ;;
  match p_allocs s with
  | [] => st_ret tt
  | b :: l => st_modify (set_p_allocs l) ;;; if (b : bool) then st_ret tt else st_fail (Raise Aborted)
  end.

(** A panic while the fid's lock is held. *)
Definition poison {A} (fid : u32) : PM A :=
  st_modify (fun s => set_p_fids (<[fid := Poisoned]> (p_fids s)) s) ;;; st_fail (Raise Panicked).

(** * The handlers *)

Definition check_token (uname : string) : PM unit :=
  match x_token x with
  | None => st_ret tt
  | Some expected =>
      if bool_decide (uname = expected) then st_modify (set_p_authed true)
      else s <- st_get ;; if p_authed s then st_ret tt else no errno.EACCES
  end.

(** The handlers of requests with a new fid return its state too. *)
Definition rattach (uname aname : string) (n_uname : u32) : PM (FCall * FidState) :=
  check_rate 0 ;;;
  check_token uname ;;;
  let normalized := trim_end_slashes aname in
  if negb (bool_decide (normalized = []) || bool_decide (normalized = x_export_name x)) then no errno.ENOENT
  else
    let uid := if n_uname =? NONUNAME then 0 else n_uname in
    let st := {| fd_ino := ROOT_INO; fd_uid := uid; fd_gid := uid; fd_handle := None; fd_provenance := None; fd_xattr := None |} in
    attr <- attr_of ROOT_INO ;;
    st_ret (RAttach (qid_for attr), st).

Fixpoint walk (creds : Credentials) (cur : u64) (provenance : option (u64 * bytes)) (wqids : list QId) (wnames : list string) :
    PM (u64 * option (u64 * bytes) * list QId) :=
  match wnames with
  | [] => st_ret (cur, provenance, wqids)
  | name :: wnames =>
      attr <- vcall (lookup creds cur name) ;;
      walk creds (a_ino attr) (Some (cur, name)) (wqids ++ [qid_for attr]) wnames
  end.

Definition rwalk (fid : u32) (wnames : list string) : PM (FCall * FidState) :=
  check_rate 0 ;;;
  start <- state fid ;;
  let* (cur, provenance, wqids) := walk (fid_creds start) (fd_ino start) (fd_provenance start) [] wnames in
  st_ret (RWalk wqids, {| fd_ino := cur; fd_uid := fd_uid start; fd_gid := fd_gid start; fd_handle := None;
                          fd_provenance := provenance; fd_xattr := None |}).

Definition rlopen (fid flags : u32) : PM FCall :=
  check_rate 0 ;;;
  st <- state fid ;;
  let creds := fid_creds st in
  let mode := open_mode flags in
  handle <- vcall (open_ creds (fd_ino st) mode) ;;
  (if negb (Z.land flags O_TRUNC =? 0) && negb (bool_decide (mode = ORead)) then
     vcall (setattr others creds (fd_ino st)
              {| s_mode := None; s_uid := None; s_gid := None; s_size := Some 0; s_atime := None; s_mtime := None |}) ;;;
     st_ret tt
   else st_ret tt) ;;;
  attr <- attr_of (fd_ino st) ;;
  set_state fid (set_fd_handle (Some handle) st) ;;;
  st_ret (RlOpen (qid_for attr) IOUNIT).

Definition rlcreate (fid : u32) (name : string) (flags mode gid : u32) : PM FCall :=
  check_rate 0 ;;;
  st <- state fid ;;
  let st := set_fd_gid gid st in
  let creds := fid_creds st in
  let dir := fd_ino st in
  attr <- vcall (create others creds dir name (Z.land mode o7777) false) ;;
  handle <- vcall (open_ creds (a_ino attr) (open_mode flags)) ;;
  set_state fid {| fd_ino := a_ino attr; fd_uid := fd_uid st; fd_gid := fd_gid st; fd_handle := Some handle;
                   fd_provenance := Some (dir, name); fd_xattr := None |} ;;;
  st_ret (RlCreate (qid_for attr) IOUNIT).

Definition rread (fid : u32) (offset : u64) (count : u32) : PM FCall :=
  check_rate count ;;;
  st <- state fid ;;
  match fd_xattr st with
  | Some (XRead buf) =>
      let from := Z.min offset (len buf) in
      let to := Z.min (from + count) (len buf) in
      st_ret (RRead (slice buf from to))
  | _ =>
      bytes <- vcall (read_with_atime_policy others (fid_creds st) (fd_ino st) offset count (x_atime_policy x)) ;;
      st_ret (RRead bytes)
  end.

Definition rwrite (fid : u32) (offset : u64) (data : bytes) : PM FCall :=
  check_rate (len data) ;;;
  st <- state fid ;;
  match fd_xattr st with
  | Some (XWrite name buf) =>
      match xattr_put buf offset data with
      | None => poison fid
      | Some buf' =>
          (if len buf <? len buf' then allocate else st_ret tt) ;;;
          set_state fid (set_fd_xattr (Some (XWrite name buf')) st) ;;;
          st_ret (RWrite (as_u32 (len data)))
      end
  | _ =>
      count <- vcall (write others (fid_creds st) (fd_ino st) offset data) ;;
      st_ret (RWrite count)
  end.

Definition rgetattr (fid : u32) : PM FCall :=
  check_rate 0 ;;;
  st <- state fid ;;
  attr <- attr_of (fd_ino st) ;;
  st_ret (RGetAttr GetAttrMask_ALL (qid_for attr) (stat_for attr)).

Definition rsetattr (fid valid : u32) (stat : SetAttr) : PM FCall :=
  check_rate 0 ;;;
  st <- state fid ;;
  let attrs := set_attrs valid stat in
  (if negb (SetAttrs_is_empty attrs) then vcall (setattr others (fid_creds st) (fd_ino st) attrs) ;;; st_ret tt else st_ret tt) ;;;
  st_ret RSetAttr.

Fixpoint readdir_pages (rounds : nat) (creds : Credentials) (ino next : u64) (count : u32) (acc : list DirEntry * u32) : PM (list DirEntry) :=
  match rounds with
  | O => st_fail OutOfFuel
  | S rounds =>
      page <- vcall (readdir creds ino next 128) ;;
      match push_page count (rd_entries page) next acc with
      | inl entries => st_ret entries
      | inr (next, acc) => if rd_eof page then st_ret acc.1 else readdir_pages rounds creds ino next count acc
      end
  end.

Definition rreaddir (fid : u32) (offset : u64) (count : u32) : PM FCall :=
  check_rate count ;;;
  st <- state fid ;;
  let creds := fid_creds st in
  dir_attr <- attr_of (fd_ino st) ;;
  let '(fits, acc) :=
    if offset <? DOT_OFFSET then
      push count {| dn_qid := qid_for dir_attr; dn_offset := DOT_OFFSET; dn_typ := d_type Dir; dn_name := [46] |} ([], 0)
    else (true, ([], 0)) in
  if negb fits then st_ret (RReadDir acc.1)
  else
    let* (fits, acc) :=
      if offset <? DOTDOT_OFFSET then
        parent <- vcall (lookup creds (fd_ino st) [46; 46]) ;;
        st_ret (push count {| dn_qid := qid_for parent; dn_offset := DOTDOT_OFFSET; dn_typ := d_type Dir; dn_name := [46; 46] |} acc)
      else st_ret (true, acc) in
    if negb fits then st_ret (RReadDir acc.1)
    else
      entries <- readdir_pages fuel creds (fd_ino st) (if offset <=? DOTDOT_OFFSET then 0 else offset) count acc ;;
      st_ret (RReadDir entries).

Definition rfsync (fid : u32) : PM FCall :=
  check_rate 0 ;;;
  state fid ;;;
  vcall fsync ;;;
  st_ret RFSync.

Definition rlock (fid : u32) (l : Flock) : PM FCall :=
  check_rate 0 ;;;
  st <- state fid ;;
  match fd_handle st with
  | None => no errno.EBADF
  | Some handle =>
      let endo := lock_end (fl_start l) (fl_length l) in
      if fl_typ l =? LockType_UNLOCK then
        vcall (unlock handle (fl_start l) endo) ;;; st_ret (RLock LockStatus_SUCCESS)
      else
        let exclusive := fl_typ l =? LockType_WRLOCK in
        r <- vtry (lock handle (fl_start l) endo exclusive) ;;
        match r with
        | Ok _ => st_ret (RLock LockStatus_SUCCESS)
        | Err WouldBlock => st_ret (RLock LockStatus_BLOCKED)
        | Err e => no (p9_errno e)
        end
  end.

Definition rgetlock (fid : u32) (l : Getlock) : PM FCall :=
  check_rate 0 ;;;
  st <- state fid ;;
  match fd_handle st with
  | None => no errno.EBADF
  | Some handle =>
      let endo := lock_end (gl_start l) (gl_length l) in
      conflict <- vcall (testlock handle (gl_start l) endo (gl_typ l =? LockType_WRLOCK)) ;;
      st_ret (RGetLock
        match conflict with
        | Some (start, endo, excl) =>
            {| gl_typ := if (excl : bool) then LockType_WRLOCK else LockType_RDLOCK; gl_start := start;
               gl_length := if endo =? U64_MAX then 0 else as_u64 (endo - start); gl_proc_id := 0; gl_client_id := [] |}
        | None =>
            {| gl_typ := LockType_UNLOCK; gl_start := gl_start l; gl_length := gl_length l;
               gl_proc_id := gl_proc_id l; gl_client_id := gl_client_id l |}
        end)
  end.

Definition rlink (dfid fid : u32) (name : string) : PM FCall :=
  check_rate 0 ;;;
  dir <- state dfid ;;
  file <- state fid ;;
  vcall (link others (fid_creds dir) (fd_ino file) (fd_ino dir) name) ;;;
  st_ret RLink.

Definition rmkdir (dfid : u32) (name : string) (mode gid : u32) : PM FCall :=
  check_rate 0 ;;;
  st <- state dfid ;;
  let st := set_fd_gid gid st in
  attr <- vcall (mkdir others (fid_creds st) (fd_ino st) name (Z.land mode o7777)) ;;
  st_ret (RMkDir (qid_for attr)).

Definition rrenameat (olddir : u32) (oldname : string) (newdir : u32) (newname : string) : PM FCall :=
  check_rate 0 ;;;
  old <- state olddir ;;
  new <- state newdir ;;
  vcall (rename others fuel (fid_creds old) (fd_ino old) oldname (fd_ino new) newname) ;;;
  st_ret RRenameAt.

Definition runlinkat (dfid : u32) (name : string) (flags : u32) : PM FCall :=
  check_rate 0 ;;;
  st <- state dfid ;;
  let creds := fid_creds st in
  (if negb (Z.land flags AT_REMOVEDIR =? 0) then vcall (rmdir others fuel creds (fd_ino st) name)
   else vcall (unlink others fuel creds (fd_ino st) name)) ;;;
  st_ret RUnlinkAt.

Definition rrename (fid dfid : u32) (name : string) : PM FCall :=
  check_rate 0 ;;;
  st <- state fid ;;
  dst <- state dfid ;;
  match fd_provenance st with
  | None => no errno.EOPNOTSUPP
  | Some (parent, old_name) =>
      vcall (rename others fuel (fid_creds st) parent old_name (fd_ino dst) name) ;;;
      st <- state fid ;;
      set_state fid (set_fd_provenance (Some (fd_ino dst, name)) st) ;;;
      st_ret RRename
  end.

Definition rremove (fid : u32) : PM FCall :=
  check_rate 0 ;;;
  st <- state fid ;;
  let creds := fid_creds st in
  match fd_provenance st with
  | None => no errno.EOPNOTSUPP
  | Some (parent, name) =>
      attr <- attr_of (fd_ino st) ;;
      (match fd_handle st with Some handle => vtry (close others fuel handle) ;;; st_ret tt | None => st_ret tt end) ;;;
      (if bool_decide (a_kind attr = Dir) then vcall (rmdir others fuel creds parent name)
       else vcall (unlink others fuel creds parent name)) ;;;
      st_ret RRemove
  end.

Definition rreadlink (fid : u32) : PM FCall :=
  check_rate 0 ;;;
  st <- state fid ;;
  target <- vcall (readlink (fd_ino st)) ;;
  st_ret (RReadLink (from_utf8_lossy target)).

Definition rsymlink (fid : u32) (name symtgt : string) (gid : u32) : PM FCall :=
  check_rate (len symtgt) ;;;
  st <- state fid ;;
  let st := set_fd_gid gid st in
  attr <- vcall (symlink others (fid_creds st) (fd_ino st) name symtgt) ;;
  st_ret (RSymlink (qid_for attr)).

Definition mknod_kind (mode : u32) : option FileKind :=
  let fmt := Z.land mode 61440 in
  if fmt =? 4096 then Some Fifo
  else if fmt =? 49152 then Some Socket
  else if fmt =? 8192 then Some CharDev
  else if fmt =? 24576 then Some BlockDev
  else None.

Definition rmknod (dfid : u32) (name : string) (mode major minor gid : u32) : PM FCall :=
  check_rate 0 ;;;
  st <- state dfid ;;
  let st := set_fd_gid gid st in
  match mknod_kind mode with
  | None => no errno.EINVAL
  | Some kind =>
      attr <- vcall (mknod others (fid_creds st) (fd_ino st) name (Z.land mode o7777) kind (Z.lor (Z.shiftl major 32) minor)) ;;
      st_ret (RMkNod (qid_for attr))
  end.

Definition rstatfs (fid : u32) : PM FCall :=
  check_rate 0 ;;;
  state fid ;;;
  s <- vcall statfs ;;
  p <- st_get ;;
  st_ret (RStatFs {| sf_typ := 16914839; sf_bsize := sf_block_size s; sf_blocks := sf_total_bytes s / sf_block_size s;
                     sf_bfree := sf_free_bytes s / sf_block_size s; sf_bavail := sf_avail_bytes s / sf_block_size s;
                     sf_files := sf_total_inodes s; sf_ffree := sf_free_inodes s; sf_fsid := sb_fsid (v_superblock (p_vol p));
                     sf_namelen := 255 |}).

Definition rxattrwalk (fid : u32) (name : string) : PM (FCall * FidState) :=
  check_rate 0 ;;;
  st <- state fid ;;
  let creds := fid_creds st in
  buf <- (if bool_decide (name = []) then
            names <- vcall (listxattr creds (fd_ino st)) ;;
            st_ret (concat (map (fun n => n ++ [0]) names))
          else vcall (getxattr creds (fd_ino st) name)) ;;
  st_ret (RxAttrWalk (len buf), {| fd_ino := fd_ino st; fd_uid := fd_uid st; fd_gid := fd_gid st; fd_handle := None;
                                   fd_provenance := None; fd_xattr := Some (XRead buf) |}).

Definition rxattrcreate (fid : u32) (name : string) : PM FCall :=
  check_rate 0 ;;;
  st <- state fid ;;
  set_state fid (set_fd_xattr (Some (XWrite name [])) st) ;;;
  st_ret RxAttrCreate.

Definition rclunk (fid : u32) : PM FCall :=
  check_rate 0 ;;;
  st <- state fid ;;
  (match fd_xattr st with
   | Some (XWrite name buf) => vcall (setxattr others (fid_creds st) (fd_ino st) name buf)
   | _ => st_ret tt
   end) ;;;
  (match fd_handle st with Some handle => vtry (close others fuel handle) ;;; st_ret tt | None => st_ret tt end) ;;;
  st_ret RClunk.

Definition rversion (msize : u32) (ver : string) : PM FCall :=
  check_rate 0 ;;;
  st_ret (if bool_decide (ver = P92000L) then RVersion (Z.min msize (IOUNIT + 32)) ver else RVersion msize VERSION_UNKNOWN).

Definition rflush : PM FCall := check_rate 0 ;;; st_ret RFlush.

(** * Dispatch *)

(** [fids.insert(newfid.fid, newfid)], after the handler succeeded. *)
Definition with_newfid (newfid : u32) (m : PM (FCall * FidState)) : PM FCall :=
  let* (response, st) := m in
  set_state newfid st ;;; st_ret response.

(** [dispatch_once] *)
Definition dispatch_once (body : FCall) : PM FCall :=
  match body with
  | TStatFs fid => get_fid fid ;;; rstatfs fid
  | TlOpen fid flags => get_fid fid ;;; rlopen fid flags
  | TlCreate fid name flags mode gid => get_fid fid ;;; rlcreate fid name flags mode gid
  | TSymlink fid name symtgt gid => get_fid fid ;;; rsymlink fid name symtgt gid
  | TMkNod dfid name mode major minor gid => get_fid dfid ;;; rmknod dfid name mode major minor gid
  | TRename fid dfid name => get_fid fid ;;; get_fid dfid ;;; rrename fid dfid name
  | TReadLink fid => get_fid fid ;;; rreadlink fid
  | TGetAttr fid _ => get_fid fid ;;; rgetattr fid
  | TSetAttr fid valid stat => get_fid fid ;;; rsetattr fid valid stat
  | TxAttrWalk fid newfid name => get_fid fid ;;; with_newfid newfid (rxattrwalk fid name)
  | TxAttrCreate fid name _ _ => get_fid fid ;;; rxattrcreate fid name
  | TReadDir fid offset count => get_fid fid ;;; rreaddir fid offset count
  | TFSync fid => get_fid fid ;;; rfsync fid
  | TLock fid flock => get_fid fid ;;; rlock fid flock
  | TGetLock fid flock => get_fid fid ;;; rgetlock fid flock
  | TLink dfid fid name => get_fid dfid ;;; get_fid fid ;;; rlink dfid fid name
  | TMkDir dfid name mode gid => get_fid dfid ;;; rmkdir dfid name mode gid
  | TRenameAt olddirfid oldname newdirfid newname => get_fid olddirfid ;;; get_fid newdirfid ;;; rrenameat olddirfid oldname newdirfid newname
  | TUnlinkAt dirfd name flags => get_fid dirfd ;;; runlinkat dirfd name flags
  | TAuth _ _ _ _ => no errno.EOPNOTSUPP
  | TAttach fid _ uname aname n_uname => with_newfid fid (rattach uname aname n_uname)
  | TVersion msize version => rversion msize version
  | TFlush _ => rflush
  | TWalk fid newfid wnames => get_fid fid ;;; with_newfid newfid (rwalk fid wnames)
  | TRead fid offset count => get_fid fid ;;; rread fid offset count
  | TWrite fid offset data => get_fid fid ;;; rwrite fid offset data
  | TClunk fid => get_fid fid ;;; r <- rclunk fid ;; st_modify (fun s => set_p_fids (delete fid (p_fids s)) s) ;;; st_ret r
  | TRemove fid => get_fid fid ;;; rremove fid
  | _ => no errno.EOPNOTSUPP
  end.

(** How the task of a request ends: with a reply, without one, or with the
    process. *)
Inductive Served : Type := Replied (m : Msg) | Silent | Died.

(** The task [dispatch] spawns for a request: the reply, unless the task
    panicked or the handler answered no R-message. *)
Definition serve (msg : Msg) (s : P9) : Served * P9 :=
  let '(r, s) := dispatch_once (msg_body msg) s in
  let reply body := if MsgType.is_r (MsgType_from body) then Replied {| msg_tag := msg_tag msg; msg_body := body |} else Silent in
  (match r with
   | Ok body => reply body
   | Err (Raise (No e)) => reply (RlError e)
   | Err (Raise Aborted) => Died
   | Err _ => Silent
   end, s).

(** What the codec's writer takes: it refuses a frame above its limit, and the
    task then drops the reply. *)
Context (accepts : bytes -> bool).

Definition send (m : Msg) : list bytes :=
  let frame := (write_msg [] m).2 in if accepts frame then [frame] else [].

(** [dispatch] on the frames of a connection: the frames sent back, and the
    error of a frame that is not a message, which ends the session; there is no
    result when the process died. *)
Fixpoint dispatch (frames : list bytes) (s : P9) : list bytes * option (result IoError unit) * P9 :=
  match frames with
  | [] => ([], Some (Ok tt), s)
  | frame :: frames =>
      match read_msg frame with
      | (Err e, _) => ([], Some (Err e), s)
      | (Ok msg, _) =>
          match serve msg s with
          | (Died, s) => ([], None, s)
          | (Replied m, s) => let '(replies, r, s) := dispatch frames s in (send m ++ replies, r, s)
          | (Silent, s) => dispatch frames s
          end
      end
  end.

(** An accepted connection: no fids, and a fresh authentication flag. *)
Definition accept (v : Volume) (admits allocs : list bool) : P9 := mkP9 v ∅ false admits allocs.
End session.
