(* ===== verification/P9Dir.v ===== *)
(** Listing a directory over 9P: a reply to [Treaddir] is the longest run of
    entries after the offset that fits the count, and a client that pages
    through a directory gets every entry once. *)

From S2P Require Import Prelude Keys Meta Store Data Quota Locks Volume Vfs Tree Wf WfOps VfsLogic VfsInv Reap.
From S2P Require Import OpsAttr OpsRead OpsCreate OpsRemove OpsRename OpsData OpsHandle System Spec Files Still P9 P9Srv.

(** ** Names on the wire *)

Lemma len_concat_le (cs : list (bool * bytes)) :
  Forall (fun c => c.2 <> []) cs ->
  len (concat (map (fun c : bool * bytes => if c.1 then c.2 else [239; 191; 189]) cs)) <= 3 * len (concat (map snd cs)).
Proof.
  induction 1 as [|[b l] cs Hl _ IH]; cbn [map concat fst snd] in *; [done|]. rewrite !len_app.
  assert (1 <= len l) by (destruct l; [done|rewrite len_cons; pose proof (len_nonneg l); lia]).
  destruct b; cbn; [lia|]. change (len [239; 191; 189]) with 3. lia.
Qed.

Lemma utf8_chunks_spec l : Forall (fun c : bool * bytes => c.2 <> []) (utf8_chunks l) /\ concat (map snd (utf8_chunks l)) = l.
Proof.
  remember (length l) as n eqn:Hn. revert l Hn. induction n as [n IH] using lt_wf_ind. intros [|b r] ->; [by split|].
  assert (forall c r', (length r' < S (length r))%nat -> c.2 <> [] -> c.2 ++ r' = b :: r ->
    Forall (fun c : bool * bytes => c.2 <> []) (c :: utf8_chunks r') /\ concat (map snd (c :: utf8_chunks r')) = b :: r) as Hstep.
  { intros c r' Hlt Hc E. destruct (IH (length r') Hlt r' eq_refl) as [H1 H2]. split; [by constructor|]. cbn [map concat]. by rewrite H2. }
  cbn [utf8_chunks]. repeat (case_match; subst); try (apply Hstep; [simpl; lia|done|done]); by split; [repeat constructor|].
Qed.

Lemma lossy_len l : len (from_utf8_lossy l) <= 3 * len l.
Proof.
  destruct (utf8_chunks_spec l) as [H1 H2]. unfold from_utf8_lossy. etrans; [by apply len_concat_le|]. by rewrite H2.
Qed.

(** ** What fits *)

(** The longest prefix whose sizes add up to at most [room]. *)
Fixpoint fitting (room : Z) (es : list DirEntry) : list DirEntry :=
  match es with
  | [] => []
  | e :: es => if room <? DirEntry_size e then [] else e :: fitting (room - DirEntry_size e) es
  end.

Definition total (es : list DirEntry) : Z := foldr (fun e n => DirEntry_size e + n) 0 es.

(** The size of an entry with the longest name. *)
Definition ENTRY_MAX : Z := 24 + 3 * MAX_NAME_LEN.
Definition small (e : DirEntry) : Prop := 0 <= DirEntry_size e <= ENTRY_MAX.

Lemma fitting_room es room : 0 <= room -> total (fitting room es) <= room.
Proof.
  revert room. induction es as [|e es IH]; intros room Hr; cbn [fitting]; [done|]. case_match; [done|].
  cbn [total foldr]. fold (total (fitting (room - DirEntry_size e) es)). specialize (IH (room - DirEntry_size e)). lia.
Qed.

Lemma total_nonneg es : Forall small es -> 0 <= total es.
Proof. induction 1 as [|e es [] _ IH]; [done|]. cbn [total foldr]. fold (total es). lia. Qed.

Lemma fitting_app room A B : 0 <= room -> Forall small A ->
  fitting room (A ++ B) = if total A <=? room then A ++ fitting (room - total A) B else fitting room A.
Proof.
  intros Hr HA. revert room Hr. induction HA as [|e A [He1 He2] HA IH]; intros room Hr; cbn [app fitting total foldr].
  - by rewrite Z.sub_0_r, (proj2 (Z.leb_le 0 room) Hr).
  - fold (total A). pose proof (total_nonneg A HA). destruct (Z.ltb_spec room (DirEntry_size e)) as [Hlt|Hge].
    + destruct (Z.leb_spec (DirEntry_size e + total A) room); [lia|done].
    + rewrite IH by lia. replace (room - DirEntry_size e - total A) with (room - (DirEntry_size e + total A)) by lia.
      destruct (Z.leb_spec (total A) (room - DirEntry_size e)), (Z.leb_spec (DirEntry_size e + total A) room); by (done || lia).
Qed.

Lemma fitting_all room es : total es <= room -> Forall small es -> fitting room es = es.
Proof.
  intros Ht Hs. pose proof (total_nonneg es Hs). rewrite <- (app_nil_r es) at 1. rewrite fitting_app by (done || lia).
  rewrite (proj2 (Z.leb_le _ _) Ht). apply app_nil_r.
Qed.

(** A prefix, and not an empty one when the first entry fits. *)
Lemma fitting_prefix room es : exists rest, es = fitting room es ++ rest.
Proof.
  revert room. induction es as [|e es IH]; intros room; cbn [fitting]; [by exists []|]. case_match; [by exists (e :: es)|].
  destruct (IH (room - DirEntry_size e)) as [rest E]. exists rest. cbn [app]. by rewrite <- E.
Qed.
Lemma fitting_nonempty room e es : small e -> ENTRY_MAX <= room -> exists es', fitting room (e :: es) = e :: es'.
Proof. intros [] Hr. cbn [fitting]. destruct (Z.ltb_spec room (DirEntry_size e)); [lia|eauto]. Qed.

Section pushing.
Context (count : u32).
Context (Hcount : 0 <= count /\ count + ENTRY_MAX <= U32_MAX).
Abbreviation room := (saturating_sub count 16).

Lemma push_spec e es used : small e -> 0 <= used <= room ->
  push count e (es, used) =
    if room - used <? DirEntry_size e then (false, (es, used)) else (true, (es ++ [e], used + DirEntry_size e)).
Proof using Hcount.
  intros [] Hu. unfold push, as_u32. rewrite Z.mod_small by (unfold saturating_sub, U32_MAX in *; lia).
  destruct (Z.ltb_spec room (used + DirEntry_size e)), (Z.ltb_spec (room - used) (DirEntry_size e)); by (done || lia).
Qed.

Lemma push_page_spec es next acc used : Forall small (wire_entry <$> es) -> 0 <= used <= room ->
  push_page count es next (acc, used) =
    let W := wire_entry <$> es in
    if total W <=? room - used then inr (default next (de_cookie <$> last es), (acc ++ W, used + total W))
    else inl (acc ++ fitting (room - used) W).
Proof using Hcount.
  revert next acc used. induction es as [|e es IH]; intros next acc used Hs Hu.
  - cbn. rewrite app_nil_r, Z.add_0_r. destruct (Z.leb_spec 0 (room - used)); [done|lia].
  - rewrite fmap_cons in *. apply Forall_cons in Hs as [[He1 He2] Hs]. pose proof (total_nonneg _ Hs). cbn [push_page].
    rewrite push_spec by done. cbv zeta. cbn [total foldr fitting]. fold (total (wire_entry <$> es)).
    destruct (Z.ltb_spec (room - used) (DirEntry_size (wire_entry e))) as [Hlt|Hge].
    + rewrite app_nil_r. destruct (Z.leb_spec (DirEntry_size (wire_entry e) + total (wire_entry <$> es)) (room - used)); [lia|done].
    + rewrite IH by (done || lia). cbv zeta. rewrite <- !app_assoc.
      replace (room - (used + DirEntry_size (wire_entry e))) with (room - used - DirEntry_size (wire_entry e)) by lia.
      replace (default next (de_cookie <$> last (e :: es))) with (default (de_cookie e) (de_cookie <$> last es)) by (rewrite last_cons; by destruct (last es)).
      rewrite Z.add_assoc.
      destruct (Z.leb_spec (total (wire_entry <$> es)) (room - used - DirEntry_size (wire_entry e))),
        (Z.leb_spec (DirEntry_size (wire_entry e) + total (wire_entry <$> es)) (room - used)); by (done || lia).
Qed.
End pushing.

(** ** The listing of a directory *)

Definition dot_entry (offset : u64) (name : string) (a : FileAttr) : DirEntry :=
  {| dn_qid := qid_for a; dn_offset := offset; dn_typ := d_type Dir; dn_name := name |}.

(** A directory [i] and its entries [L], as a client sees them. *)
Definition wire_listing (i : u64) (n : Inode) (up : u64) (un : Inode) (L : list Meta.DirEntry) : list DirEntry :=
  dot_entry DOT_OFFSET [46] (make_attr i n) :: dot_entry DOTDOT_OFFSET [46; 46] (make_attr up un) :: (wire_entry <$> L).

Definition after (offset : u64) (es : list DirEntry) : list DirEntry := filter (fun e => offset < dn_offset e) es.

Section listing.
Context {DB : SlateDB} {AC : MokaCache u64 Inode} {NC : MokaCache (u64 * bytes) unit} {NCR : NameCrypto}.
Implicit Types (v : Volume) (s : P9).

(** Nothing happened but in the caches. *)
Record unmoved s s' : Prop := { um_vol : still (p_vol s) (p_vol s'); um_fids : p_fids s' = p_fids s }.

Lemma unmoved_trans s s' s'' : unmoved s s' -> unmoved s' s'' -> unmoved s s''.
Proof. intros [H1 H2] [H3 H4]. split; [by eapply still_trans|congruence]. Qed.

Lemma still_dotdot v i n un c : Inv v -> quiet v -> node (store v) i n -> i_kind n = Dir -> c_trusted c = true ->
  node (store v) (i_parent_dir n) un ->
  exists v', lookup c i DOTDOT v = (Ok (make_attr (i_parent_dir n) un), v') /\ still v v'.
Proof.
  intros Hi Hq Hn Hk Hc Hu. pose proof (fun pn w => trusted_access c pn w Hc) as Hacc.
  assert (outcome (lookup c i DOTDOT) v (fun a v' => a = make_attr (i_parent_dir n) un /\ still v v') (fun _ => False)) as Ho.
  { eapply settles_outcome; [eapply (lookup_settles True); [by apply inv_calmed|by split]|done|..].
    - intros cc v' a _ Hi' _ [E1 E2 _ _ _ _] Hq' _ _ [(pn & Hpn & _ & _ & Hcase) H2]. change (store (calmed v')) with (store v') in H2.
      rewrite E1 in *. assert (pn = n) as -> by congruence.
      destruct Hcase as [[? _]|[(_ & un' & Hun & ->)|[Hval _]]]; [done| |done]. assert (un' = un) as -> by congruence. by split.
    - intros cc e _ [E1 _ _ _ _ _] [[[_ Hd]|(_ & pn & Hd & ?)]|[[_ (pn & _ & Ha)]|[(_ & ? & _)|(_ & ? & _)]]];
        [rewrite E1 in Hd; congruence..|by rewrite Hacc in Ha|done|done]. }
  unfold outcome in Ho. destruct (lookup c i DOTDOT v) as [[a|[e|]] v']; [|by destruct Ho as (_ & _ & [])|done]. destruct Ho as (_ & -> & ?). eauto.
Qed.
(** Entries are small and their offsets follow those of the dots. *)
Lemma listed_entry v p cookie L e : Inv v -> listed v p cookie L -> e ∈ L ->
  DOTDOT_OFFSET < de_cookie e /\ is_u64 (de_cookie e) /\ len (de_name e) <= MAX_NAME_LEN.
Proof.
  intros Hi HL He. destruct (proj1 (ls_elem _ _ _ _ HL e) He) as (enc & d & Hd & _ & ->). cbn [de_of de_cookie de_name].
  destruct (tr_dirent _ _ _ _ _ (wf_tree _ _ _ _ (inv_wf _ Hi)) _ _ _ Hd) as (? & [= <-] & [_ Hv Hx (pn & _ & _ & Hid) _]).
  split_and!; [unfold DOTDOT_OFFSET, FIRST_DIRENT_ID in *; lia|by destruct (wf_keys _ _ _ _ (inv_wf _ Hi) _ _ Hx) as [[_ Hok] _]|].
  by apply validate_len.
Qed.

Lemma small_name e : len (dn_name e) <= 3 * MAX_NAME_LEN -> small e.
Proof.
  intros H. unfold small, DirEntry_size, as_u32, ENTRY_MAX, QId_size, MAX_NAME_LEN in *. pose proof (len_nonneg (dn_name e)).
  rewrite Z.mod_small by lia. lia.
Qed.

Lemma listed_small v p cookie L : Inv v -> listed v p cookie L -> Forall small (wire_entry <$> L).
Proof.
  intros Hi HL. apply Forall_fmap, Forall_forall. intros e He. apply small_name. cbn.
  destruct (listed_entry v p cookie L e Hi HL He) as (_ & _ & Hlen). pose proof (lossy_len (de_name e)). lia.
Qed.

Lemma sorted_filter L (o : Z) : StronglySorted cookie_lt L -> StronglySorted cookie_lt (filter (fun e => o < de_cookie e) L).
Proof.
  induction 1 as [|e L _ IH Hall]; [constructor|]. rewrite filter_cons. case_decide; [|done]. constructor; [done|].
  apply Forall_forall. intros e' [_ He']%list_elem_of_filter. by apply (proj1 (Forall_forall _ _) Hall).
Qed.

(** The entries a reply to [offset] draws from. *)
Lemma listed_from v p L offset : Inv v -> listed v p 0 L ->
  listed v p (if offset <=? DOTDOT_OFFSET then 0 else offset) (filter (fun e => offset < de_cookie e) L).
Proof.
  intros Hi HL. pose proof (listed_entry v p 0 L) as Hlow. destruct HL as [HA HB]. split.
  - intros e. rewrite list_elem_of_filter, HA. destruct (Z.leb_spec offset DOTDOT_OFFSET) as [Ho|Ho].
    + split; [by intros [_ ?]|]. intros He. split; [|done]. destruct (Hlow e Hi) as [? _]; [by split|by apply HA|lia].
    + split.
      * intros (Hlt & enc & d & Hd & _ & ->). by exists enc, d.
      * intros (enc & d & Hd & Hlt & ->). split; [done|]. exists enc, d. unfold DOTDOT_OFFSET in *. split_and!; [done|lia|done].
  - apply sorted_cookies, sorted_filter, sorted_cookies, HB.
Qed.

Lemma after_wire offset L : wire_entry <$> filter (fun e => offset < de_cookie e) L = after offset (wire_entry <$> L).
Proof.
  unfold after. induction L as [|e L IH]; [done|]. rewrite fmap_cons, !filter_cons. cbn [wire_entry dn_offset].
  case_decide; [rewrite fmap_cons|]; by rewrite IH.
Qed.
(** ** One reply *)

Lemma bind_ok {A B} (m : PM A) (k : A -> PM B) s a s' : m s = (Ok a, s') -> (x <- m ;; k x) s = k a s'.
Proof. intros E. unfold st_bind. by rewrite E. Qed.

Lemma vcall_ok {A} (m : FsM A) s a v : m (p_vol s) = (Ok a, v) -> vcall m s = (Ok a, set_p_vol v s).
Proof. intros E. unfold vcall. by rewrite E. Qed.
Lemma unmoved_vol s v : still (p_vol s) v -> unmoved s (set_p_vol v s).
Proof. intros H. by split. Qed.

Context (count : u32) (Hcount : 0 <= count /\ count + ENTRY_MAX <= U32_MAX).
Abbreviation room := (saturating_sub count 16).

Lemma pages_spec rounds c i n next acc used L s :
  Inv (p_vol s) -> quiet (p_vol s) -> node (store (p_vol s)) i n -> i_kind n = Dir -> c_trusted c = true ->
  is_u64 next -> listed (p_vol s) i next L -> (length L < rounds)%nat -> 0 <= used <= room ->
  exists s', readdir_pages rounds c i next count (acc, used) s = (Ok (acc ++ fitting (room - used) (wire_entry <$> L)), s') /\ unmoved s s'.
Proof using Hcount.
  revert next acc used L s. induction rounds as [|rounds IH]; intros next acc used L s Hi Hq Hn Hk Hc Hnx HL Hlen Hu; [lia|].
  destruct (still_readdir (p_vol s) i n c next 128 L) as (rd & v1 & E & Hst & Hent & Heof); try done; [by apply trusted_access|]. change (Z.to_nat 128) with 128%nat in Hent.
  cbn [readdir_pages]. unfold st_bind at 1. rewrite (vcall_ok _ _ _ _ E), Hent.
  pose proof (listed_small _ _ _ _ Hi HL) as Hsm. rewrite <- (take_drop 128 L), fmap_app in Hsm. apply Forall_app in Hsm as [Hs1 Hs2].
  rewrite push_page_spec by done. cbv zeta. replace (wire_entry <$> L) with ((wire_entry <$> take 128 L) ++ (wire_entry <$> drop 128 L)) by (by rewrite <- fmap_app, take_drop).
  rewrite fitting_app by (done || lia).
  destruct (Z.leb_spec (total (wire_entry <$> take 128 L)) (room - used)) as [Hfit|Hno]; [|by eexists; split; [done|by apply unmoved_vol]].
  rewrite Heof. destruct (Z.leb_spec (len L) 128) as [Hle|Hgt].
  { rewrite drop_ge by (unfold len in Hle; lia). cbn. rewrite app_nil_r. eexists. split; [done|by apply unmoved_vol]. }
  destruct (lookup_lt_is_Some_2 L 127) as [e He]; [unfold len in Hgt; lia|].
  assert (last (take 128 L) = Some e) as -> by (pose proof (take_S_r _ _ _ He) as ->; apply last_snoc).
  change (default next (de_cookie <$> Some e)) with (de_cookie e).
  assert (listed (p_vol s) i (de_cookie e) (drop 128 L)) as HL2.
  { apply (listed_rest _ _ next (take 127 L)). by rewrite take_drop_middle. }
  destruct Hst as [Hi1 Hq1 Hs1']. pose proof (total_nonneg _ Hs1).
  destruct (IH (de_cookie e) (acc ++ (wire_entry <$> take 128 L)) (used + total (wire_entry <$> take 128 L)) (drop 128 L) (set_p_vol v1 s))
    as (s2 & E2 & Hs2'); cbn [p_vol set_p_vol]; try done.
  - by rewrite Hs1'.
  - by apply (listed_entry _ _ _ _ e Hi HL), (list_elem_of_lookup_2 _ _ _ He).
  - by eapply listed_store.
  - rewrite length_drop. unfold len in Hgt. lia.
  - lia.
  - exists s2. rewrite E2, <- app_assoc. rewrite Z.sub_add_distr. split; [done|]. eapply unmoved_trans; [by apply unmoved_vol|done].
Qed.
Context (fuel : nat) (x : Export) (Hrate : x_rate_limited x = false).

(** A live fid [f] on a directory [i] with the entries [L] of the volume. *)
Record at_dir s f (st : FidState) n un L : Prop := {
  ad_inv : Inv (p_vol s);
  ad_quiet : quiet (p_vol s);
  ad_fid : p_fids s !! f = Some (Live st);
  ad_node : node (store (p_vol s)) (fd_ino st) n;
  ad_kind : i_kind n = Dir;
  ad_up : node (store (p_vol s)) (i_parent_dir n) un;
  ad_listed : listed (p_vol s) (fd_ino st) 0 L
}.

Lemma at_dir_unmoved s s' f st n un L : unmoved s s' -> at_dir s f st n un L -> at_dir s' f st n un L.
Proof.
  intros [[Hi Hq Hs] Hf] []. split; [done|done|by rewrite Hf|by rewrite Hs|done|by rewrite Hs|by eapply listed_store].
Qed.

Lemma small_dot o a : small (dot_entry o [46] a).
Proof. by apply small_name. Qed.
Lemma small_dotdot o a : small (dot_entry o [46; 46] a).
Proof. by apply small_name. Qed.

(** The real entries, after what the dots used. *)
Lemma entries_spec s f st n un L offset acc used :
  at_dir s f st n un L -> is_u64 offset -> (length L < fuel)%nat -> 0 <= used <= room ->
  exists s', readdir_pages fuel (fid_creds st) (fd_ino st) (if offset <=? DOTDOT_OFFSET then 0 else offset) count (acc, used) s =
    (Ok (acc ++ fitting (room - used) (after offset (wire_entry <$> L))), s') /\ unmoved s s'.
Proof using Hcount.
  intros [] Ho Hlen Hu. rewrite <- after_wire. eapply pages_spec; try done.
  - by case_match.
  - by apply listed_from.
  - eapply Nat.le_lt_trans; [apply length_filter|done].
Qed.

Lemma after_cons offset e es : after offset (e :: es) = if offset <? dn_offset e then e :: after offset es else after offset es.
Proof. unfold after. rewrite filter_cons. case_decide; destruct (Z.ltb_spec offset (dn_offset e)); by (done || lia). Qed.

(** The reply from the parent entry on. *)
Lemma dotdot_spec s f st n un L offset acc used :
  at_dir s f st n un L -> is_u64 offset -> (length L < fuel)%nat -> 0 <= used <= room ->
  exists s',
    (let* (fits, acc) :=
       (if offset <? DOTDOT_OFFSET then
          parent <- vcall (lookup (fid_creds st) (fd_ino st) [46; 46]) ;;
          st_ret (push count (dot_entry DOTDOT_OFFSET [46; 46] parent) (acc, used))
        else st_ret (true, (acc, used))) in
     if negb fits then st_ret (RReadDir acc.1)
     else
       entries <- readdir_pages fuel (fid_creds st) (fd_ino st) (if offset <=? DOTDOT_OFFSET then 0 else offset) count acc ;;
       st_ret (RReadDir entries)) s =
    (Ok (RReadDir (acc ++ fitting (room - used) (after offset
       (dot_entry DOTDOT_OFFSET [46; 46] (make_attr (i_parent_dir n) un) :: (wire_entry <$> L))))), s') /\ unmoved s s'.
Proof using Hcount.
  intros Hd Ho Hlen Hu. pose proof (small_dotdot DOTDOT_OFFSET (make_attr (i_parent_dir n) un)) as Hdd. rewrite after_cons.
  change (dn_offset (dot_entry DOTDOT_OFFSET _ _)) with DOTDOT_OFFSET. destruct (offset <? DOTDOT_OFFSET) eqn:Hlt.
  - destruct Hd as [Hi Hq Hf Hn Hk Hup HL] eqn:EHd; clear EHd.
    destruct (still_dotdot (p_vol s) (fd_ino st) n un (fid_creds st) Hi Hq Hn Hk eq_refl Hup) as (v1 & E1 & Hv1).
    pose proof (unmoved_vol s v1 Hv1) as Hm. pose proof (at_dir_unmoved _ _ _ _ _ _ _ Hm Hd) as Hd1.
    erewrite bind_ok; [|by rewrite (bind_ok _ _ _ _ _ (vcall_ok _ _ _ _ E1))]. rewrite push_spec by done. cbn [fitting].
    destruct (Z.ltb_spec (room - used) (DirEntry_size (dot_entry DOTDOT_OFFSET [46; 46] (make_attr (i_parent_dir n) un)))) as [|Hge]; cbn [negb].
    + rewrite app_nil_r. by eexists.
    + destruct Hdd. edestruct entries_spec as (s2 & E2 & Hm2); [exact Hd1|done|done| |rewrite (bind_ok _ _ _ _ _ E2)].
      * lia.
      * eexists. rewrite <- app_assoc, Z.sub_add_distr. split; [done|]. by eapply unmoved_trans.
  - rewrite (bind_ok _ _ s (true, (acc, used)) s) by done. cbn [negb].
    destruct (entries_spec s f st n un L offset acc used Hd Ho Hlen Hu) as (s2 & E2 & Hm2). rewrite (bind_ok _ _ _ _ _ E2). by eexists.
Qed.

Lemma rreaddir_spec s f st n un L offset :
  at_dir s f st n un L -> is_u64 offset -> (length L < fuel)%nat ->
  exists s', rreaddir fuel x f offset count s =
    (Ok (RReadDir (fitting room (after offset (wire_listing (fd_ino st) n (i_parent_dir n) un L)))), s') /\ unmoved s s'.
Proof using Hcount Hrate.
  intros Hd Ho Hlen. pose proof (small_dot DOT_OFFSET (make_attr (fd_ino st) n)) as Hdot.
  pose proof (small_dotdot DOTDOT_OFFSET (make_attr (i_parent_dir n) un)) as Hdd.
  assert (0 <= 0 <= room) as H0 by (unfold saturating_sub; lia).
  unfold rreaddir. rewrite (bind_ok _ _ s tt s) by (unfold check_rate; by rewrite Hrate).
  rewrite (bind_ok _ _ s st s) by (unfold state, st_bind, st_get; by rewrite (ad_fid _ _ _ _ _ _ Hd)).
  destruct Hd as [Hi Hq Hf Hn Hk Hu HL] eqn:EHd; clear EHd.
  destruct (still_getattr (p_vol s) (fd_ino st) n Hi Hq Hn) as (v1 & E1 & Hv1).
  rewrite (bind_ok _ _ _ _ _ (vcall_ok _ _ _ _ E1)). pose proof (unmoved_vol s v1 Hv1) as Hm1.
  pose proof (at_dir_unmoved _ _ _ _ _ _ _ Hm1 Hd) as Hd1. set (s1 := set_p_vol v1 s) in *. clearbody s1.
  unfold wire_listing. rewrite after_cons. change (dn_offset (dot_entry DOT_OFFSET _ _)) with DOT_OFFSET.
  fold (dot_entry DOT_OFFSET [46] (make_attr (fd_ino st) n)). destruct (offset <? DOT_OFFSET) eqn:Hlt.
  - rewrite push_spec by done. cbn [fitting]. rewrite Z.sub_0_r.
    destruct (Z.ltb_spec room (DirEntry_size (dot_entry DOT_OFFSET [46] (make_attr (fd_ino st) n)))) as [|Hge]; cbn [negb]; [by eexists|].
    destruct Hdot. edestruct dotdot_spec as (s2 & E2 & Hm2); [exact Hd1|done|done| |].
    2: { eexists. split; [etrans; [exact E2|]|by eapply unmoved_trans]. done. }
    lia.
  - destruct (dotdot_spec s1 f st n un L offset [] 0 Hd1 Ho Hlen H0) as (s2 & E2 & Hm2). rewrite Z.sub_0_r in E2.
    eexists. split; [exact E2|]. by eapply unmoved_trans.
Qed.
(** ** A client's listing *)

Definition offset_lt (a b : DirEntry) : Prop := dn_offset a < dn_offset b.

Lemma after_none o es : Forall (fun e => dn_offset e <= o) es -> after o es = [].
Proof. induction 1 as [|e es He _ IH]; [done|]. rewrite after_cons, IH. destruct (Z.ltb_spec o (dn_offset e)); [lia|done]. Qed.
Lemma after_every o es : Forall (fun e => o < dn_offset e) es -> after o es = es.
Proof. induction 1 as [|e es He _ IH]; [done|]. rewrite after_cons, IH. destruct (Z.ltb_spec o (dn_offset e)); [done|lia]. Qed.

(** What is left after a reply that ended with [e]. *)
Lemma after_last o W P e rest : StronglySorted offset_lt W -> after o W = P ++ e :: rest -> after (dn_offset e) W = rest.
Proof.
  intros Hs. revert P. induction Hs as [|a W Hs IH Hall]; intros P E; [by destruct P|]. rewrite after_cons in E |- *.
  destruct (Z.ltb_spec o (dn_offset a)) as [Ho|Ho].
  - assert (after o W = W) as Ew. { apply after_every. eapply Forall_impl; [exact Hall|]. intros b Hb. unfold offset_lt in Hb. lia. }
    destruct P as [|a' P]; injection E as -> E.
    + rewrite Z.ltb_irrefl, <- E, Ew. by apply after_every.
    + assert (dn_offset a' < dn_offset e).
      { apply (proj1 (Forall_forall _ _) Hall). rewrite <- Ew, E. set_solver. }
      destruct (Z.ltb_spec (dn_offset e) (dn_offset a')); [lia|]. by apply (IH P).
  - assert (o < dn_offset e). { assert (e ∈ after o W) as He by (rewrite E; set_solver). by apply list_elem_of_filter in He as [? _]. }
    destruct (Z.ltb_spec (dn_offset e) (dn_offset a)); [lia|]. by apply (IH P).
Qed.

Lemma wire_sorted v i n up un L : Inv v -> listed v i 0 L -> StronglySorted offset_lt (wire_listing i n up un L).
Proof.
  intros Hi HL. assert (Forall (fun e => DOTDOT_OFFSET < dn_offset e) (wire_entry <$> L)) as Hlow.
  { apply Forall_fmap, Forall_forall. intros e He. by apply (listed_entry v i 0 L e). }
  constructor; [constructor; [|exact Hlow]|constructor; [done|]].
  - destruct HL as [_ HS%sorted_cookies]. induction HS as [|e L _ IH Hall]; [constructor|]. rewrite fmap_cons in *. constructor; [|apply Forall_fmap; exact Hall].
    apply IH. by apply Forall_cons in Hlow as [_ ?].
  - eapply Forall_impl; [exact Hlow|]. intros e He. unfold offset_lt. change (dn_offset (dot_entry DOT_OFFSET _ _)) with 1.
    unfold DOTDOT_OFFSET in He. lia.
Qed.
Lemma wire_small v i n up un L : Inv v -> listed v i 0 L -> Forall small (wire_listing i n up un L).
Proof. intros Hi HL. constructor; [apply small_dot|]. constructor; [apply small_dotdot|by eapply listed_small]. Qed.

Lemma wire_offset v i n up un L e : Inv v -> listed v i 0 L -> e ∈ wire_listing i n up un L -> is_u64 (dn_offset e).
Proof.
  intros Hi HL [->|[->|(d & -> & Hd)%list_elem_of_fmap]%elem_of_cons]%elem_of_cons; [done..|]. by apply (listed_entry v i 0 L d).
Qed.

Context (others : nat -> Volume -> Volume).

(** A client reads on from the offset of the last entry until a reply is empty. *)
Fixpoint client_list (rounds : nat) (fid : u32) (offset : u64) : PM (list DirEntry) :=
  match rounds with
  | O => st_fail OutOfFuel
  | S rounds =>
      reply <- dispatch_once others fuel x (TReadDir fid offset count) ;;
      match reply with
      | RReadDir [] => st_ret []
      | RReadDir data => rest <- client_list rounds fid (default offset (dn_offset <$> last data)) ;; st_ret (data ++ rest)
      | _ => no errno.EPROTO
      end
  end.

Lemma client_lists rounds s f st n un L offset :
  ENTRY_MAX <= room -> at_dir s f st n un L -> is_u64 offset -> (length L < fuel)%nat ->
  let W := wire_listing (fd_ino st) n (i_parent_dir n) un L in
  (length (after offset W) < rounds)%nat -> (client_list rounds f offset s).1 = Ok (after offset W).
Proof using Hcount Hrate.
  intros Hroom Hd Ho Hlen W. revert s offset Hd Ho. induction rounds as [|rounds IH]; intros s offset Hd Ho Hr; [lia|].
  destruct (rreaddir_spec s f st n un L offset Hd Ho Hlen) as (s1 & E1 & Hm). fold W in E1.
  assert (dispatch_once others fuel x (TReadDir f offset count) s = (Ok (RReadDir (fitting room (after offset W))), s1)) as E.
  { cbn [dispatch_once]. rewrite (bind_ok _ _ s tt s); [done|]. unfold get_fid, st_bind, st_get. by rewrite (ad_fid _ _ _ _ _ _ Hd). }
  cbn [client_list]. rewrite (bind_ok _ _ _ _ _ E). clear E E1. destruct (after offset W) as [|e A] eqn:EA; [done|].
  pose proof (wire_sorted _ _ n (i_parent_dir n) un _ (ad_inv _ _ _ _ _ _ Hd) (ad_listed _ _ _ _ _ _ Hd)) as Hsort. fold W in Hsort.
  assert (forall a, a ∈ e :: A -> a ∈ W) as Hin by (intros a Ha; rewrite <- EA in Ha; by apply list_elem_of_filter in Ha as [_ ?]).
  pose proof (wire_small _ _ n (i_parent_dir n) un _ (ad_inv _ _ _ _ _ _ Hd) (ad_listed _ _ _ _ _ _ Hd)) as Hsmall. fold W in Hsmall.
  destruct (fitting_nonempty room e A) as [D ED]; [apply (proj1 (Forall_forall _ _) Hsmall), Hin; set_solver|done|].
  destruct (fitting_prefix room (e :: A)) as [rest Erest]. rewrite ED in Erest |- *.
  destruct (@exists_last _ (e :: D)) as (P & b & EP); [done|]. rewrite EP in Erest |- *.
  assert (last (P ++ [b]) = Some b) as -> by apply last_snoc.
  change (default offset (dn_offset <$> Some b)) with (dn_offset b).
  rewrite <- app_assoc in Erest. cbn [app] in Erest. rewrite Erest in EA.
  pose proof (after_last _ _ _ _ _ Hsort EA) as Enext.
  assert (is_u64 (dn_offset b)) as Hb.
  { eapply wire_offset; [apply Hd|apply Hd|]. apply Hin. rewrite Erest. set_solver. }
  specialize (IH s1 (dn_offset b) (at_dir_unmoved _ _ _ _ _ _ _ Hm Hd) Hb). rewrite Enext in IH.
  rewrite Erest in Hr |- *. rewrite length_app in Hr. cbn [length] in Hr. specialize (IH ltac:(lia)).
  destruct P as [|p P]; cbn [app]; unfold st_bind; destruct (client_list rounds f (dn_offset b) s1) as [r s2]; cbn in IH; by subst r; cbn; rewrite <- ?app_assoc.
Qed.
End listing.

