(* ===== verification/P9Ends.v ===== *)
(** How the handlers of a 9P request end: which requests panic, which may abort
    the process, and that on a volume at ease every other one comes to an end. *)

From S2P Require Import Prelude Keys Meta Store Data Quota Locks Volume Vfs Tree Wf WfOps VfsLogic VfsInv Reap.
From S2P Require Import OpsAttr OpsRead OpsCreate OpsRemove OpsRename OpsData OpsHandle System Spec Files Still Finite P9 P9Srv P9Dir.

(** ** The calls that loop *)

Section loops.
Context {DB : SlateDB} {AC : MokaCache u64 Inode} {NC : MokaCache (u64 * bytes) unit} {NCR : NameCrypto}.
Context (others : nat -> Volume -> Volume) (Halone : alone others) (fuel : nat).
Implicit Types (v c : Volume).

Lemma rely_alone : rely others.
Proof using Halone. split; intros; rewrite Halone; auto. Qed.

(** [m] does not run out of fuel on a volume ready for [f]. *)
Definition lasts {A} (f : nat) (m : FsM A) : Prop := forall v, ready f v -> (m v).1 <> Err OutOfFuel.

Lemma ready_at_rest f v : (f <= fuel)%nat -> ready f v ->
  Inv (calmed v) /\ roomy (calmed v) /\ calm True (calmed v) v /\ undisturbed others fuel True (calmed v).
Proof using Halone.
  intros Hf [H1 H2 H3 H4]. split_and!; [by apply inv_calmed|done|by split|]. split; intros _; [done|].
  change (store (calmed v)) with (store v). lia.
Qed.

Lemma settles_lasts {A} (m : FsM A) c P E v : wp m (settles True c P E) v -> (m v).1 <> Err OutOfFuel.
Proof. unfold wp. destruct (m v) as [r v']. intros (c1 & _ & _ & _ & _ & _ & _ & _ & _ & Hr) Er. cbn in Er. subst r. by apply Hr. Qed.

Lemma unlink_lasts f creds p name : (f <= fuel)%nat -> lasts f (unlink others fuel creds p name).
Proof using Halone.
  intros Hf v (Hi & Hr & Hc & Hu)%ready_at_rest; [|done]. eapply settles_lasts. by apply (unlink_settles others rely_alone).
Qed.
Lemma rmdir_lasts f creds p name : (f <= fuel)%nat -> lasts f (rmdir others fuel creds p name).
Proof using Halone.
  intros Hf v (Hi & Hr & Hc & Hu)%ready_at_rest; [|done]. eapply settles_lasts. by apply (rmdir_settles others rely_alone).
Qed.
Lemma rename_lasts f creds op oname np nname : (f <= fuel)%nat -> lasts f (rename others fuel creds op oname np nname).
Proof using Halone.
  intros Hf v (Hi & Hr & Hc & Hu)%ready_at_rest; [|done]. eapply settles_lasts. by apply (rename_settles others rely_alone).
Qed.

(** ** What precedes them *)

(** [m] allocates no inode number. *)
Definition keeps_alloc {A} (m : FsM A) : Prop := forall v, v_alloc (m v).2 = v_alloc v.

Lemma keeps_alloc_bind {A B} (m : FsM A) (k : A -> FsM B) : keeps_alloc m -> (forall a, keeps_alloc (k a)) -> keeps_alloc (st_bind m k).
Proof.
  intros Hm Hk v. unfold st_bind. specialize (Hm v). destruct (m v) as [[a|e] v']; [|done]. cbn [snd] in *. rewrite <- Hm. apply Hk.
Qed.
Lemma keeps_alloc_storage {A} (m : EM A) : keeps_alloc (storage m).
Proof. intros v. unfold storage. destruct (m (v_eng v)) as [r e]. by destruct (VolumeHealth.map_storage r (v_health v)). Qed.
Lemma keeps_alloc_await {A} (m : ST Engine (Halt Error) A) : keeps_alloc (core_await m).
Proof. intros v. unfold core_await. by destruct (m (v_eng v)). Qed.
Lemma keeps_alloc_wait : keeps_alloc (lock_wait others).
Proof using Halone. intros v. unfold lock_wait. cbn. by rewrite Halone. Qed.
Lemma keeps_alloc_now : keeps_alloc now.
Proof. intros v. unfold now. by destruct (clock_now (v_eng v)). Qed.
End loops.

Ltac alloc_step :=
  lazymatch goal with
  | |- keeps_alloc (st_bind _ _) => apply keeps_alloc_bind; [|intros ?]
  | |- keeps_alloc (storage _) => apply keeps_alloc_storage
  | |- keeps_alloc (core_await _) => apply keeps_alloc_await
  | |- keeps_alloc (lock_wait _) => by apply keeps_alloc_wait
  | |- keeps_alloc now => apply keeps_alloc_now
  | |- keeps_alloc (if ?b then _ else _) => destruct b
  | |- keeps_alloc (match ?o with _ => _ end) => destruct o
  | |- keeps_alloc _ => first [by intros ? | let v := fresh in intros v; cbv beta; case_match; done]
  end.
Ltac keep_alloc := cbv beta zeta; repeat (alloc_step; cbv beta zeta).

Section before.
Context {DB : SlateDB} {AC : MokaCache u64 Inode} {NC : MokaCache (u64 * bytes) unit} {NCR : NameCrypto}.
Context (others : nat -> Volume -> Volume) (Halone : alone others) (fuel : nat).
Implicit Types (v c : Volume).

Lemma getattr_alloc i : keeps_alloc (getattr i).
Proof. unfold getattr, load_inode_cached, load_inode, db_get, cache. keep_alloc. Qed.
Lemma setxattr_alloc creds i name value : keeps_alloc (setxattr others creds i name value).
Proof using Halone. unfold setxattr, load_inode, db_get, cache, commit, now_unix. keep_alloc. Qed.
Lemma close_alloc h : keeps_alloc (close others fuel h).
Proof using Halone.
  unfold close, finish_orphan, reserve, db_get, cache, commit, now_unix, reap_orphan. keep_alloc.
Qed.

(** A volume stays ready for [k] fuel more when at most [k] records were added
    and no count moved. *)
Lemma ready_grown f k v v' :
  ready f v -> Inv v' -> quiet v' -> v_alloc v' = v_alloc v -> (base.size (store v') <= base.size (store v) + k)%nat ->
  (forall i n', node (store v') i n' -> exists n, node (store v) i n /\ i_nlink n' = i_nlink n /\ i_next_dirent_id n' = i_next_dirent_id n) ->
  ready (f + k) v'.
Proof.
  intros [_ [Ha Hro] _ Hf] Hi Hq Halloc Hs Hn. split; [done| |done|lia]. split; [by rewrite Halloc|].
  intros i n' (n & Hnode & E1 & E2)%Hn. rewrite E1, E2. by eapply Hro.
Qed.

Lemma getattr_ready f i v : ready f v -> wp (getattr i) (fun r v' => match r with Ok _ => ready f v' | Err _ => True end) v.
Proof using Halone.
  intros Hr. pose proof (getattr_alloc i v) as Ha. pose proof (ready_at_rest others Halone f f v (le_n f) Hr) as (Hi & _ & Hc & _).
  pose proof (getattr_settles True i _ _ Hi Hc) as Hs. unfold wp in *. destruct (getattr i v) as [[a|e] v']; [|done].
  destruct Hs as (c1 & _ & Hrest & _ & _ & Hi' & Hq' & _ & _ & [_ Es]). destruct (at_rest_store _ _ (Hrest I)) as [E1 _].
  change (store v' = store c1) in Es. change (store (calmed v)) with (store v) in E1. rewrite E1 in Es.
  rewrite <- (Nat.add_0_r f). eapply ready_grown; [done|done|by apply Hq'|done|rewrite Es; lia|]. rewrite Es. eauto.
Qed.

Lemma setxattr_ready f creds i name value v : ready f v ->
  wp (setxattr others creds i name value) (fun r v' => match r with Ok _ => ready (f + 2) v' | Err _ => True end) v.
Proof using Halone.
  intros Hr. pose proof (setxattr_alloc creds i name value v) as Ha.
  pose proof (ready_at_rest others Halone f f v (le_n f) Hr) as (Hi & Hro & Hc & [Hal _]).
  pose proof (setxattr_settles others (rely_alone others Halone) True creds i name value _ _ Hal Hi Hro Hc) as Hs. unfold wp in *.
  destruct (setxattr others creds i name value v) as [[a|e] v']; [|done].
  destruct Hs as (c1 & _ & Hrest & _ & _ & Hi' & Hq' & _ & _ & (n & t & Hn & _ & Es)). destruct (at_rest_store _ _ (Hrest I)) as [E1 _].
  change (store (calmed v')) with (store v') in Es. change (store (calmed v)) with (store v) in E1. rewrite E1 in *.
  eapply ready_grown; [done|done|by apply Hq'|done|rewrite Es; apply apply_batch_size|].
  rewrite Es. intros j n' Hj. unfold apply_batch in Hj. cbn in Hj.
  destruct (decide (j = i)) as [->|Hne]; [|rewrite !lookup_insert_ne in Hj by congruence; eauto].
  rewrite lookup_insert_eq in Hj. injection Hj as <-. eauto.
Qed.

Lemma finished_grown i m m' : finished i m m' ->
  (base.size m' <= base.size m + 3)%nat /\ forall j n, node m' j n -> node m j n.
Proof.
  intros (m1 & Hset & Hp & _).
  assert (m' ⊆ m1) as Hsub. { apply map_subseteq_spec. intros k x Hk. destruct (Hp k) as [<-|[? _]]; [done|congruence]. }
  pose proof (map_subseteq_size _ _ Hsub) as Hsz.
  assert ((base.size m1 <= base.size m + 3)%nat /\ forall j n, node m1 j n -> node m j n) as [H1 H2].
  { destruct Hset as [_|n Hn _]; [split; [lia|done]|]. split; [apply (apply_batch_size m (settle_batch i n))|].
    intros j n' Hj. rewrite (apply_ops_on is_inode_key) in Hj by done. unfold apply_batch in Hj. cbn in Hj.
    by apply lookup_delete_Some in Hj as [_ ?]. }
  split; [lia|]. intros j n Hj. apply H2. by eapply (lookup_weaken _ _ _ _ Hj).
Qed.

Lemma close_ready f h v : (f <= fuel)%nat -> ready f v ->
  wp (close others fuel h) (fun r v' => r <> Err OutOfFuel /\ ready (f + 3) v') v.
Proof using Halone.
  intros Hf Hr. pose proof (close_alloc h v) as Ha.
  pose proof (ready_at_rest others Halone fuel f v Hf Hr) as (Hi & Hro & Hc & Hu).
  destruct (HandleTable.close h (v_handles v)) as [[[[ino mode] last]|] t] eqn:Ht.
  - pose proof (close_settles others (rely_alone others Halone) fuel True h ino mode last t _ _ Hu Hi Hro Hc Ht) as Hs. unfold wp in *.
    destruct (close others fuel h v) as [r v']. destruct Hs as (c1 & _ & Hrest & _ & _ & Hi' & Hq' & _ & _ & Hend).
    destruct (at_rest_store _ _ (Hrest I)) as [E1 _]. change (store c1 = store v) in E1.
    destruct r as [a|[e|]]; [|by destruct (Hend I) as [[] _]|by destruct Hend]. split; [done|].
    unfold closed in Hend. change (store (calmed v')) with (store v') in Hend. rewrite E1 in Hend.
    destruct Hend as [[Es _]|[_ [H1 H2]%finished_grown]].
    + eapply ready_grown; [done|done|by apply Hq'|done|rewrite Es; lia|]. rewrite Es. eauto.
    + eapply ready_grown; [done|done|by apply Hq'|done|lia|]. intros j n Hj%H2. eauto.
  - unfold wp, close, st_bind. rewrite Ht. cbn. split; [done|]. destruct Hr as [H1 H2 H3 H4]. split; [|done|done|change (base.size (store v) + 16 < f + 3)%nat; lia].
    destruct H1 as [? ? ? ? ? ?]. by split.
Qed.
End before.

(** ** Listings *)

Section listings.
Context {DB : SlateDB} {AC : MokaCache u64 Inode} {NC : MokaCache (u64 * bytes) unit} {NCR : NameCrypto}.
Implicit Types (v : Volume) (s : P9).

(** A directory has no more entries than the volume has records. *)
Lemma listed_size v p cookie L : Inv v -> listed v p cookie L -> (length L <= base.size (store v))%nat.
Proof.
  intros Hi [HA HB]. set (ks := KDirentIdx p <$> (de_cookie <$> L)).
  assert (NoDup ks) as Hnd. { apply NoDup_fmap; [by intros ? ? [= ->]|]. clear HA. induction HB as [|k l _ IH Hall]; constructor; [|done].
    intros Hk. pose proof (proj1 (Forall_forall _ _) Hall k Hk). lia. }
  assert ((list_to_set ks : gset Key) ⊆ dom (store v)) as Hsub.
  { intros k (c & -> & (e & -> & He)%list_elem_of_fmap)%elem_of_list_to_set%list_elem_of_fmap.
    apply HA in He as (enc & d & Hd & _ & ->). apply elem_of_dom.
    destruct (tr_dirent _ _ _ _ _ (wf_tree _ _ _ _ (inv_wf _ Hi)) _ _ _ Hd) as (? & [= <-] & [_ _ Hx _ _]). by eexists. }
  apply subseteq_size in Hsub. rewrite size_list_to_set, size_dom in Hsub by done. unfold ks in Hsub. by rewrite !length_fmap in Hsub.
Qed.

(** A page that was taken whole is left at its last cookie. *)
Lemma push_page_next count es next acc next' acc' :
  push_page count es next acc = inr (next', acc') -> next' = default next (de_cookie <$> last es).
Proof.
  revert next acc. induction es as [|e es IH]; intros next acc; cbn [push_page]; [by intros [= <- _]|].
  destruct (push count (wire_entry e) acc) as [[] acc1]; [|done]. intros ->%IH. rewrite last_cons. by destruct (last es).
Qed.

Lemma pages_end rounds c i next count acc s :
  Inv (p_vol s) -> quiet (p_vol s) -> is_u64 next -> (0 < rounds)%nat -> (forall L, listed (p_vol s) i next L -> (length L < rounds)%nat) ->
  (readdir_pages rounds c i next count acc s).1 <> Err OutOfFuel.
Proof.
  revert next acc s. induction rounds as [|rounds IH]; intros next acc s Hi Hq Hn H0 Hl; [lia|]. cbn [readdir_pages].
  pose proof (readdir_outcome (p_vol s) c i next 128 Hi Hq Hn ltac:(lia)) as Ho. unfold outcome in Ho. unfold st_bind at 1, vcall.
  destruct (readdir c i next 128 (p_vol s)) as [[rd|[e|]] v1]; [|done|done].
  destruct Ho as ([Hi1 Hq1 _] & (pn & L & _ & _ & _ & HL & Hent & Heof) & Hs & _). change (Z.to_nat 128) with 128%nat in Hent. cbn [map_err].
  destruct (push_page count (rd_entries rd) next acc) as [es|[next' acc']] eqn:Hp; [done|]. rewrite Heof.
  destruct (Z.leb_spec (len L) 128) as [|Hgt]; [done|]. destruct (lookup_lt_is_Some_2 L 127) as [e He]; [unfold len in Hgt; lia|].
  apply push_page_next in Hp. rewrite Hent, (take_S_r _ _ _ He), last_snoc in Hp. cbn in Hp. subst next'.
  assert (listed (p_vol s) i (de_cookie e) (drop 128 L)) as HL2.
  { apply (listed_rest _ _ next (take 127 L)). by rewrite take_drop_middle. }
  specialize (Hl L HL). unfold len in Hgt. apply IH; try done; [|lia|].
  - by apply (listed_entry _ _ _ _ e Hi HL), (list_elem_of_lookup_2 _ _ _ He).
  - intros L' HL'. assert (L' = drop 128 L) as ->.
    { eapply listed_unique; [exact HL'|]. by apply (listed_store (p_vol s)). }
    rewrite length_drop. lia.
Qed.
End listings.

(** ** Handlers *)

(** The fids whose state a request locks. *)
Definition named (body : FCall) : list u32 :=
  match body with
  | TStatFs fid | TlOpen fid _ | TlCreate fid _ _ _ _ | TSymlink fid _ _ _ | TMkNod fid _ _ _ _ _ | TReadLink fid | TGetAttr fid _
  | TSetAttr fid _ _ | TxAttrWalk fid _ _ | TxAttrCreate fid _ _ _ | TReadDir fid _ _ | TFSync fid | TLock fid _ | TGetLock fid _
  | TMkDir fid _ _ _ | TUnlinkAt fid _ _ | TWalk fid _ _ | TRead fid _ _ | TWrite fid _ _ | TClunk fid | TRemove fid => [fid]
  | TRename fid dfid _ => [fid; dfid]
  | TLink dfid fid _ => [dfid; fid]
  | TRenameAt olddirfid _ newdirfid _ => [olddirfid; newdirfid]
  | _ => []
  end.

Section tame.
Context {DB : SlateDB} {AC : MokaCache u64 Inode} {NC : MokaCache (u64 * bytes) unit} {NCR : NameCrypto}.
Implicit Types (v : Volume) (s : P9) (F : list u32) (P R : Volume -> Prop).

Definition anything : Volume -> Prop := fun _ => True.

(** [m] poisons no fid, panics only on a fid of [F] that is poisoned, and on a
    volume that satisfies [P] it ends, and leaves one that satisfies [R]. *)
Definition tame {A} F P R (m : PM A) : Prop := forall s, wp m (fun r s' =>
  (forall f, p_fids s' !! f = Some Poisoned -> p_fids s !! f = Some Poisoned) /\
  match r with
  | Ok _ => P (p_vol s) -> R (p_vol s')
  | Err (Raise (No _)) => True
  | Err (Raise Panicked) => exists f, f ∈ F /\ p_fids s !! f = Some Poisoned
  | Err (Raise Aborted) => False
  | Err OutOfFuel => ~ P (p_vol s)
  end) s.

Lemma tame_bind {A B} F P Q R (m : PM A) (k : A -> PM B) :
  tame F P Q m -> (forall a, tame F Q R (k a)) -> tame F P R (st_bind m k).
Proof.
  intros Hm Hk s. apply wp_bind. eapply wp_mono; [apply Hm|]. intros [a|h] s1 [H1 H2]; [|done].
  eapply wp_mono; [apply (Hk a)|]. intros r s2 [H3 H4]. split; [auto|].
  destruct r as [b|[[e| |]|]]; [auto|done| |done|auto]. destruct H4 as (f & Hf & Hp). eauto.
Qed.
Lemma tame_weaken {A} F P P' R (m : PM A) : (forall v, P' v -> P v) -> tame F P R m -> tame F P' R m.
Proof. intros H Hm s. eapply wp_mono; [apply Hm|]. intros r s' [H1 H2]. split; [done|]. destruct r as [?|[[]|]]; auto. Qed.
Lemma tame_ret {A} F P R (a : A) : (forall v, P v -> R v) -> tame F P R (st_ret a).
Proof. intros H s. split; [done|]. apply H. Qed.
Lemma tame_any {A} F P (a : A) : tame F P anything (st_ret a).
Proof. by apply tame_ret. Qed.
Lemma tame_no {A} F P R e : tame F P R (no e : PM A).
Proof. by intros s. Qed.
Lemma tame_get F P : tame F P P st_get.
Proof. by intros s. Qed.
Lemma tame_get_fid F P fid : tame F P P (get_fid fid).
Proof. intros s. unfold wp, get_fid, st_bind, st_get. by destruct (p_fids s !! fid). Qed.
Lemma tame_state F P fid : fid ∈ F -> tame F P P (state fid).
Proof. intros Hf s. unfold wp, state, st_bind, st_get. destruct (p_fids s !! fid) as [[st|]|] eqn:E; [done| |done]. split; [done|]. eauto. Qed.
Lemma tame_check_rate F P x n : tame F P P (check_rate x n).
Proof. intros s. unfold wp, check_rate. destruct (x_rate_limited x); [|done]. unfold st_bind, st_get. by destruct (p_admits s) as [|[] l]. Qed.
Lemma tame_check_token F P x uname : tame F P P (check_token x uname).
Proof. intros s. unfold wp, check_token. destruct (x_token x); [|done]. case_bool_decide; [done|]. unfold st_bind, st_get. by destruct (p_authed s). Qed.
Lemma tame_set_state F P fid st : tame F P P (set_state fid st).
Proof. intros s. split; [|done]. intros f. cbn. by intros [[_ ?]|[_ ?]]%lookup_insert_Some. Qed.
Lemma tame_clunk F P fid : tame F P P (st_modify (fun s => set_p_fids (delete fid (p_fids s)) s)).
Proof. intros s. split; [|done]. intros f. cbn. by intros [_ ?]%lookup_delete_Some. Qed.

(** A call of the volume: what it keeps, and that it ends. *)
Lemma tame_call {A} F P R (m : FsM A) :
  (forall v, P v -> wp m (fun r v' => match r with Ok _ => R v' | Err h => h <> OutOfFuel end) v) -> tame F P R (vcall m).
Proof.
  intros Hm s. unfold wp, vcall. specialize (Hm (p_vol s)). unfold wp in Hm. destruct (m (p_vol s)) as [[a|[e|]] v]; cbn; [done|done|].
  split; [done|]. intros HP. by apply Hm in HP.
Qed.
Lemma tame_try {A} F P R (m : FsM A) :
  (forall v, P v -> wp m (fun r v' => r <> Err OutOfFuel /\ R v') v) -> tame F P R (vtry m).
Proof.
  intros Hm s. unfold wp, vtry. specialize (Hm (p_vol s)). unfold wp in Hm.
  destruct (m (p_vol s)) as [[a|[e|]] v]; cbn; (split; [done|]); intros HP; by apply Hm in HP as [? ?].
Qed.
Lemma tame_ends {A} F P (m : FsM A) : (forall v, P v -> (m v).1 <> Err OutOfFuel) -> tame F P anything (vcall m).
Proof.
  intros Hm. apply tame_call. intros v HP. specialize (Hm v HP). unfold wp. destruct (m v) as [[a|h] v']; [done|]. cbn in Hm. congruence.
Qed.
Lemma tame_vcall {A} F P (m : FsM A) : finite m -> tame F P anything (vcall m).
Proof. intros Hm. apply tame_ends. auto. Qed.
Lemma tame_vtry {A} F P (m : FsM A) : finite m -> tame F P anything (vtry m).
Proof. intros Hm. apply tame_try. intros v _. specialize (Hm v). unfold wp. by destruct (m v). Qed.
End tame.

(** One step through a handler. *)
Ltac tame_prim :=
  lazymatch goal with
  | |- tame _ _ _ (vcall _) => apply tame_vcall; solve [auto with finite nocore]
  | |- tame _ _ _ (vtry _) => apply tame_vtry; solve [auto with finite nocore]
  | |- tame _ _ _ (attr_of _) => unfold attr_of; tame_prim
  | |- tame _ _ _ (get_fid _) => apply tame_get_fid
  | |- tame _ _ _ (state _) => apply tame_state; set_solver
  | |- tame _ _ _ (check_rate _ _) => apply tame_check_rate
  | |- tame _ _ _ (check_token _ _) => apply tame_check_token
  | |- tame _ _ _ st_get => apply tame_get
  | |- tame _ _ _ (set_state _ _) => apply tame_set_state
  | |- tame _ _ _ (st_modify (fun s => set_p_fids (delete _ _) _)) => apply tame_clunk
  end.
Ltac tame_step :=
  lazymatch goal with
  | |- tame _ _ anything (st_ret _) => apply tame_any
  | |- tame _ _ _ (no _) => apply tame_no
  | |- tame _ _ _ (st_bind (if ?b then _ else _) _) => eapply (tame_bind _ _ anything); [|intros ?]
  | |- tame _ _ _ (st_bind (match ?o with _ => _ end) _) => eapply (tame_bind _ _ anything); [|intros ?]
  | |- tame _ _ _ (st_bind _ _) => eapply tame_bind; [tame_prim|intros ?]
  | |- tame _ _ _ (if ?b then _ else _) => destruct b
  | |- tame _ _ _ (match ?o with _ => _ end) => destruct o
  | |- tame _ _ anything _ => tame_prim
  end.
Ltac tame_steps := cbv beta zeta; repeat (tame_step; cbv beta zeta).

Section handlers.
Context {DB : SlateDB} {AC : MokaCache u64 Inode} {NC : MokaCache (u64 * bytes) unit} {NCR : NameCrypto}.
Context (others : nat -> Volume -> Volume) (fuel : nat) (x : Export).
Implicit Types (v : Volume) (s : P9).

(** Nobody else is at work, nothing is failing, and the fuel exceeds the number
    of records. *)
Definition at_ease v : Prop := alone others /\ ready (fuel - 3) v.

(** What a request needs to end: nothing, but for those that loop until the
    volume lets them. *)
Definition eased (body : FCall) v : Prop :=
  match body with
  | TRename _ _ _ | TRenameAt _ _ _ _ | TUnlinkAt _ _ _ | TClunk _ | TRemove _ => at_ease v
  | TReadDir _ offset _ => at_ease v /\ is_u64 offset
  | _ => True
  end.

Lemma tame_newfid F P newfid (m : PM (FCall * FidState)) : tame F P anything m -> tame F P anything (with_newfid newfid m).
Proof.
  intros Hm. unfold with_newfid. eapply tame_bind; [exact Hm|]. intros [r st]. tame_steps.
Qed.
Lemma tame_walk F P c cur prov qs names : tame F P anything (walk c cur prov qs names).
Proof. revert P cur prov qs. induction names as [|name names IH]; intros; cbn [walk]; tame_steps. apply IH. Qed.
Lemma tame_rwalk P fid names : tame [fid] P anything (rwalk x fid names).
Proof.
  unfold rwalk. tame_steps. eapply tame_bind; [apply tame_walk|]. intros [[? ?] ?]. tame_steps.
Qed.

Lemma tame_rrename fid dfid name : tame [fid; dfid] at_ease anything (rrename others fuel x fid dfid name).
Proof.
  unfold rrename. tame_steps. eapply tame_bind; [apply tame_ends|intros ?; tame_steps].
  intros v [Ha Hr]. eapply rename_lasts; [done| |exact Hr]. lia.
Qed.
Lemma tame_rrenameat a b name name' : tame [a; b] at_ease anything (rrenameat others fuel x a name b name').
Proof.
  unfold rrenameat. tame_steps. eapply tame_bind; [apply tame_ends|intros ?; tame_steps].
  intros v [Ha Hr]. eapply rename_lasts; [done| |exact Hr]. lia.
Qed.
Lemma tame_removal F f c p name (b : bool) : (f <= fuel)%nat ->
  tame F (fun v => alone others /\ ready f v) anything
    (if b then vcall (rmdir others fuel c p name) else vcall (unlink others fuel c p name)).
Proof.
  intros Hf. destruct b; apply tame_ends; intros v [Ha Hr]; [by eapply rmdir_lasts|by eapply unlink_lasts].
Qed.
Lemma tame_runlinkat fid name flags : tame [fid] at_ease anything (runlinkat others fuel x fid name flags).
Proof.
  unfold runlinkat. eapply tame_bind; [tame_prim|intros _]. eapply tame_bind; [tame_prim|intros st]. cbv zeta.
  eapply tame_bind; [apply (tame_removal _ (fuel - 3)); lia|]. intros ?. tame_steps.
Qed.

Lemma tame_getattr F f i : tame F (fun v => alone others /\ ready f v) (fun v => alone others /\ ready f v) (attr_of i).
Proof.
  apply tame_call. intros v [Ha Hr]. pose proof (finite_getattr i v) as Hf. pose proof (getattr_ready others Ha f i v Hr) as Hg.
  unfold wp in *. destruct (getattr i v) as [[a|h] v']; [done|]. cbn in Hf. congruence.
Qed.

Lemma refuel (f f' : nat) : (16 < f -> f <= f')%nat -> forall v, alone others /\ ready f v -> alone others /\ ready f' v.
Proof. intros Hf v [Ha [H1 H2 H3 H4]]. split; [done|]. split; [done..|lia]. Qed.

Lemma tame_close F f (o : option u64) : (f <= fuel)%nat ->
  tame F (fun v => alone others /\ ready f v) (fun v => alone others /\ ready (f + 3) v)
    (match o with Some handle => vtry (close others fuel handle) ;;; st_ret tt | None => st_ret tt end).
Proof.
  intros Hf. destruct o as [h|].
  - eapply (tame_bind _ _ (fun v => alone others /\ ready (f + 3) v)); [apply tame_try|intros ?; by apply tame_ret]. intros v [Ha Hr].
    eapply wp_mono; [by apply (close_ready others Ha fuel f)|]. by intros r v' [? ?].
  - apply tame_ret. eapply refuel. lia.
Qed.

Lemma tame_rremove fid : tame [fid] at_ease anything (rremove others fuel x fid).
Proof.
  unfold rremove. eapply tame_bind; [tame_prim|intros _]. eapply tame_bind; [tame_prim|intros st]. cbv zeta.
  destruct (fd_provenance st) as [[p name]|]; [|apply tame_no]. eapply tame_bind; [apply tame_getattr|intros a].
  eapply tame_bind; [apply tame_close; lia|intros _]. eapply tame_bind; [|intros ?; apply tame_any].
  eapply tame_weaken; [apply (refuel _ fuel); lia|]. by apply tame_removal.
Qed.

Lemma tame_rclunk fid : tame [fid] at_ease anything (rclunk others fuel x fid).
Proof.
  unfold rclunk. eapply tame_bind; [tame_prim|intros _]. eapply tame_bind; [tame_prim|intros st].
  eapply (tame_bind _ _ (fun v => alone others /\ ready (fuel - 3 + 2) v)); [|intros _].
  - assert (forall a, tame [fid] at_ease (fun v => alone others /\ ready (fuel - 3 + 2) v) (st_ret a : PM unit)) as Hret.
    { intros a. apply tame_ret, refuel. lia. }
    destruct (fd_xattr st) as [[buf|name buf]|]; [apply Hret| |apply Hret]. apply tame_call. intros v [Ha Hr].
    pose proof (finite_setxattr others (fid_creds st) (fd_ino st) name buf v) as Hf.
    pose proof (setxattr_ready others Ha _ (fid_creds st) (fd_ino st) name buf v Hr) as Hs. unfold wp in *.
    destruct (setxattr others (fid_creds st) (fd_ino st) name buf v) as [[a|h] v']; [done|]. cbn in Hf. congruence.
  - eapply tame_bind; [|intros ?; apply tame_any]. eapply tame_weaken; [apply (refuel _ fuel); lia|]. by apply tame_close.
Qed.

Lemma tame_outlasts {A} F P (m : PM A) : tame F (fun _ => False) anything m ->
  (forall s, P (p_vol s) -> (m s).1 <> Err OutOfFuel) -> tame F P anything m.
Proof.
  intros Hm HP s. specialize (Hm s). specialize (HP s). unfold wp in *. destruct (m s) as [r s']. destruct Hm as [H1 H2].
  split; [done|]. destruct r as [?|[[]|]]; try done. cbn in HP. naive_solver.
Qed.

(** A volume that can be listed. *)
Definition listable (offset : u64) v : Prop := (Inv v /\ quiet v /\ (base.size (store v) < fuel)%nat) /\ is_u64 offset.

Lemma tame_pages F c i offset count acc :
  tame F (listable offset) anything (readdir_pages fuel c i (if offset <=? DOTDOT_OFFSET then 0 else offset) count acc).
Proof.
  apply tame_outlasts.
  - generalize (if offset <=? DOTDOT_OFFSET then 0 else offset). generalize fuel at 1. intros rounds next. revert next acc.
    induction rounds as [|rounds IH]; intros next acc; cbn [readdir_pages]; [intros s; split; [done|by intros []]|].
    eapply (tame_bind _ _ (fun _ => False)); [by apply tame_call|]. intros page.
    destruct (push_page count (rd_entries page) next acc) as [es|[next' acc']]; [apply tame_any|]. destruct (rd_eof page); [apply tame_any|apply IH].
  - intros s [(Hi & Hq & Hs) Ho]. apply pages_end; [done|done|case_match; [unfold is_u64; lia|done]|lia|]. intros L HL%listed_size; [lia|done].
Qed.

Lemma tame_reader {A} F offset (m : FsM A) P E :
  finite m ->
  (forall c v, Inv c -> calm True c v -> wp m (settles True c (fun c1 c' a => P c1 a /\ store c' = store c1) E) v) ->
  tame F (listable offset) (listable offset) (vcall m).
Proof.
  intros Hf Hm. apply tame_call. intros v [(Hi & Hq & Hs) Ho]. specialize (Hf v).
  specialize (Hm (calmed v) v (proj2 (inv_calmed v) Hi) ltac:(by split)).
  unfold wp in *. destruct (m v) as [[a|h] v']; [|cbn in Hf; congruence].
  destruct Hm as (c1 & _ & Hrest & _ & _ & Hi' & Hq' & _ & _ & [_ Es]). destruct (at_rest_store _ _ (Hrest I)) as [E1 _].
  change (store v' = store c1) in Es. change (store (calmed v)) with (store v) in E1. split_and!; try done; [by apply Hq'|].
  by rewrite Es, E1.
Qed.

Lemma tame_rreaddir fid offset count :
  tame [fid] (eased (TReadDir fid offset count)) anything (rreaddir fuel x fid offset count).
Proof.
  apply (tame_weaken _ (listable offset)).
  { intros v [[_ [H1 H2 H3 H4]] Ho]. split_and!; try done. lia. }
  unfold rreaddir. eapply tame_bind; [tame_prim|intros _]. eapply tame_bind; [tame_prim|intros st]. cbv zeta.
  eapply (tame_bind _ _ (listable offset)); [|intros dir_attr].
  { eapply tame_reader; [apply finite_getattr|intros; by apply getattr_settles]. }
  destruct (if offset <? DOT_OFFSET then _ else _) as [fits acc]. destruct fits; cbn [negb]; [|apply tame_any].
  eapply (tame_bind _ _ (listable offset)); [|intros [fits acc']].
  - destruct (offset <? DOTDOT_OFFSET); [|by apply tame_ret]. eapply tame_bind; [eapply tame_reader; [apply finite_lookup|intros; by apply lookup_settles]|intros a]. by apply tame_ret.
  - destruct fits; cbn [negb]; [|apply tame_any]. eapply tame_bind; [apply tame_pages|intros es; apply tame_any].
Qed.

(** Every request but a write to a buffered attribute. *)
Lemma tame_dispatch body : (forall f off data, body <> TWrite f off data) ->
  tame (named body) (eased body) anything (dispatch_once others fuel x body).
Proof.
  intros Hw. destruct body; try apply tame_no; cbn [dispatch_once named].
  all: repeat lazymatch goal with |- tame _ _ _ (st_bind (get_fid _) _) => eapply tame_bind; [apply tame_get_fid|intros _] end.
  all: try (by auto using tame_rrename, tame_rrenameat, tame_runlinkat, tame_rremove, tame_rreaddir, tame_newfid, tame_rwalk).
  all: unfold rstatfs, rlopen, rlcreate, rsymlink, rmknod, rreadlink, rgetattr, rsetattr, rxattrcreate, rfsync, rlock, rgetlock, rlink,
    rmkdir, rversion, rflush, rread, rxattrwalk, rattach.
  all: try (apply tame_newfid); try solve [tame_steps].
  - by edestruct Hw.
  - eapply tame_bind; [apply tame_rclunk|intros ?]. tame_steps.
Qed.

(** The fid holds the attribute value [buf] being written. *)
Definition buffered s (fid : u32) (buf : bytes) : Prop :=
  exists st name, p_fids s !! fid = Some (Live st) /\ fd_xattr st = Some (XWrite name buf).

(** The data of a write ends beyond what a [Vec] can hold. *)
Definition overflows s (body : FCall) : Prop :=
  match body with TWrite fid off data => (exists buf, buffered s fid buf) /\ I64_MAX < off + len data | _ => False end.

(** A write grows a buffer for which there is no memory. *)
Definition exhausts s (body : FCall) : Prop :=
  match body with
  | TWrite fid off data =>
      exists buf buf' l, buffered s fid buf /\ xattr_put buf off data = Some buf' /\ len buf < len buf' /\ p_allocs s = false :: l
  | _ => False
  end.

Definition write_end s body {A} (r : result (Halt P9Error) A) : Prop :=
  match r with
  | Ok _ | Err (Raise (No _)) => True
  | Err (Raise Panicked) => (exists f, f ∈ named body /\ p_fids s !! f = Some Poisoned) \/ overflows s body
  | Err (Raise Aborted) => exhausts s body
  | Err OutOfFuel => False
  end.

Lemma wp_check_rate n s :
  wp (check_rate x n) (fun r s' => p_fids s' = p_fids s /\ p_allocs s' = p_allocs s /\
    match r with Ok _ | Err (Raise (No _)) => True | _ => False end) s.
Proof. unfold wp, check_rate. destruct (x_rate_limited x); [|done]. unfold st_bind, st_get. by destruct (p_admits s) as [|[] l]. Qed.

Lemma write_ends fid off data s :
  wp (dispatch_once others fuel x (TWrite fid off data)) (fun r _ => write_end s (TWrite fid off data) r) s.
Proof.
  cbn [dispatch_once]. apply wp_bind. unfold wp at 1, get_fid, st_bind, st_get. destruct (p_fids s !! fid) as [st|] eqn:Ef; [|done].
  cbn [st_ret]. unfold rwrite. apply wp_bind. eapply wp_mono; [apply wp_check_rate|]. intros [[]|[[]|]] s1 (E1 & E2 & H1); try done.
  apply wp_bind. unfold wp at 1, state, st_bind, st_get. rewrite E1, Ef. destruct st as [st|]; [|left; exists fid; set_solver].
  cbn [st_ret]. assert (forall s2, wp (count <- vcall (write others (fid_creds st) (fd_ino st) off data) ;; st_ret (RWrite count))
    (fun r _ => write_end s (TWrite fid off data) r) s2) as Hwr.
  { intros s2. apply wp_bind. unfold wp at 1, vcall. pose proof (finite_write others (fid_creds st) (fd_ino st) off data (p_vol s2)) as Hf.
    by destruct (write others (fid_creds st) (fd_ino st) off data (p_vol s2)) as [[a|[e|]] v']. }
  destruct (fd_xattr st) as [[buf|name buf]|] eqn:Ex; [apply Hwr| |apply Hwr].
  assert (buffered s fid buf) as Hb by (by exists st, name).
  destruct (xattr_put buf off data) as [buf'|] eqn:Ep.
  - apply wp_bind. destruct (Z.ltb_spec (len buf) (len buf')) as [Hlt|]; [|done]. unfold wp at 1, allocate, st_bind, st_get. rewrite E2.
    destruct (p_allocs s) as [|[] l] eqn:Ea; [done|done|]. by exists buf, buf', l.
  - right. split; [by exists buf|]. unfold xattr_put in Ep. by destruct (Z.ltb_spec I64_MAX (off + len data)).
Qed.

(** How a request that gets no answer ends. *)
Lemma dispatch_ends body s :
  wp (dispatch_once others fuel x body) (fun r _ =>
    match r with
    | Ok _ | Err (Raise (No _)) => True
    | Err (Raise Panicked) => (exists f, f ∈ named body /\ p_fids s !! f = Some Poisoned) \/ overflows s body
    | Err (Raise Aborted) => exhausts s body
    | Err OutOfFuel => ~ eased body (p_vol s)
    end) s.
Proof.
  assert ((forall f off data, body <> TWrite f off data) \/ exists f off data, body = TWrite f off data) as [Hw|(f & off & data & ->)]
    by (destruct body; first [left; discriminate|right; by eauto]).
  - eapply wp_mono; [by apply (tame_dispatch body Hw)|]. intros [a|[[e| |]|]] s' [_ H]; try done. by left.
  - eapply wp_mono; [apply write_ends|]. intros [a|[[e| |]|]] s' H; try done.
Qed.
End handlers.
