(* ===== verification/P9SrvThm.v ===== *)
(** What a 9P session may do: whoever has not presented the export's token
    cannot touch the volume; every call on the volume is made as a user that
    attached; every request is answered by its own kind of reply. *)

From S2P Require Import Prelude Keys Meta Store Data Quota Locks Volume Vfs Tree Wf WfOps VfsLogic VfsInv Reap.
From S2P Require Import OpsAttr OpsRead OpsCreate OpsRemove OpsRename OpsData OpsHandle System P9 P9Thm P9Srv P9Ends.

Section session.
Context {DB : SlateDB} {AC : MokaCache u64 Inode} {NC : MokaCache (u64 * bytes) unit} {NCR : NameCrypto}.
Context (others : nat -> Volume -> Volume) (fuel : nat) (x : Export).
Implicit Types (s : P9) (v : Volume).

Abbreviation run_all := (run_all others fuel).

(** The users and groups a session may act as. *)
Context (U G : u32 -> Prop).

Definition made_as (k : call) : Prop :=
  match call_creds k with Some c => exists u g, U u /\ G g /\ c = creds_trusted u g | None => True end.

Definition owned (st : FidState) : Prop := U (fd_uid st) /\ G (fd_gid st).
Definition all_owned s : Prop := forall f st, p_fids s !! f = Some (Live st) -> owned st.

Definition acts s s' : Prop := exists ks, Forall made_as ks /\ p_vol s' = run_all ks (p_vol s).

(** A result, if there is one, is a [Q]. *)
Definition yields {A} (Q : A -> Prop) (r : result (Halt P9Error) A) : Prop :=
  match r with Ok a => Q a | Err _ => True end.

(** [m] keeps the fids owned, acts only as their owners, and yields a [Q]. *)
Definition confined {A} (m : PM A) (Q : A -> Prop) : Prop := forall s, all_owned s ->
  wp m (fun r s' => all_owned s' /\ acts s s' /\ yields Q r) s.

Lemma acts_same s s' : p_vol s' = p_vol s -> acts s s'.
Proof. intros E. exists []. split; [constructor|done]. Qed.
Lemma acts_trans s s' s'' : acts s s' -> acts s' s'' -> acts s s''.
Proof.
  intros (ks & Hk & E) (ks' & Hk' & E'). exists (ks ++ ks'). split; [by apply Forall_app|]. by rewrite run_all_app, <- E.
Qed.

Lemma confined_bind {A B} (m : PM A) (f : A -> PM B) P Q :
  confined m P -> (forall a, P a -> confined (f a) Q) -> confined (st_bind m f) Q.
Proof.
  intros Hm Hf s Hs. apply wp_bind. eapply wp_mono; [by apply Hm|]. intros [a|e] s1 (Ho & Ha & HP); [|done].
  eapply wp_mono; [by apply (Hf a HP)|]. intros r s2 (Ho2 & Ha2 & HQ). split_and!; [done| |done]. by eapply acts_trans.
Qed.

Lemma confined_ret {A} (a : A) (Q : A -> Prop) : Q a -> confined (st_ret a) Q.
Proof. intros HQ s Hs. split_and!; [done|by apply acts_same|done]. Qed.
Lemma confined_no {A} e (Q : A -> Prop) : confined (no e : PM A) Q.
Proof. intros s Hs. split_and!; [done|by apply acts_same|done]. Qed.
Lemma confined_out {A} (Q : A -> Prop) : confined (st_fail OutOfFuel : PM A) Q.
Proof. intros s Hs. split_and!; [done|by apply acts_same|done]. Qed.

(** A call of the interface. *)
Lemma acts_call k s v : made_as k -> v = (run others fuel k (p_vol s)).2 -> acts s (set_p_vol v s).
Proof. intros Hk ->. exists [k]. split; [by repeat constructor|done]. Qed.

Lemma confined_vcall {A} k (m : FsM A) : made_as k -> (forall v, (m v).2 = (run others fuel k v).2) -> confined (vcall m) (fun _ => True).
Proof.
  intros Hk Hm s Hs. unfold wp, vcall. specialize (Hm (p_vol s)). destruct (m (p_vol s)) as [r v]. split_and!; [done| |by destruct r as [|[]]].
  by apply (acts_call k).
Qed.
Lemma confined_vtry {A} k (m : FsM A) : made_as k -> (forall v, (m v).2 = (run others fuel k v).2) -> confined (vtry m) (fun _ => True).
Proof.
  intros Hk Hm s Hs. unfold wp, vtry. specialize (Hm (p_vol s)). destruct (m (p_vol s)) as [r v].
  split_and!; [done| |by destruct r as [|[]]]. by apply (acts_call k).
Qed.

(** What the handlers do besides. *)
Lemma confined_same {A} (m : PM A) (Q : A -> Prop) :
  (forall s, all_owned s -> wp m (fun r s' => p_fids s' = p_fids s /\ p_vol s' = p_vol s /\ yields Q r) s) ->
  confined m Q.
Proof.
  intros Hm s Hs. eapply wp_mono; [by apply Hm|]. intros r s' (E1 & E2 & HQ). split_and!; [|by apply acts_same|done].
  unfold all_owned. by rewrite E1.
Qed.

Lemma confined_get_fid fid : confined (get_fid fid) (fun _ => True).
Proof. apply confined_same. intros s _. unfold wp, get_fid, st_bind, st_get. by destruct (p_fids s !! fid). Qed.
Lemma confined_state fid : confined (state fid) owned.
Proof.
  apply confined_same. intros s Hs. unfold wp, state, st_bind, st_get. destruct (p_fids s !! fid) as [[st|]|] eqn:E; [|done|done].
  split_and!; [done..|]. by apply (Hs fid).
Qed.
Lemma confined_get : confined st_get (fun _ => True).
Proof. by apply confined_same. Qed.
Lemma confined_check_rate n : confined (check_rate x n) (fun _ => True).
Proof.
  apply confined_same. intros s _. unfold wp, check_rate. destruct (x_rate_limited x); [|done]. unfold st_bind, st_get.
  by destruct (p_admits s) as [|[] l].
Qed.
Lemma confined_check_token uname : confined (check_token x uname) (fun _ => True).
Proof.
  apply confined_same. intros s _. unfold wp, check_token. destruct (x_token x); [|done]. case_bool_decide; [done|].
  unfold st_bind, st_get. by destruct (p_authed s).
Qed.

Lemma confined_fids f : (forall s, all_owned s -> all_owned (set_p_fids (f s) s)) ->
  confined (st_modify (fun s => set_p_fids (f s) s)) (fun _ => True).
Proof. intros Hf s Hs. split_and!; [by apply Hf|by apply acts_same|done]. Qed.
Lemma confined_set_state fid st : owned st -> confined (set_state fid st) (fun _ => True).
Proof.
  intros Hst. apply confined_fids. intros s Hs f st' Hf. cbn [p_fids set_p_fids] in Hf.
  apply lookup_insert_Some in Hf as [[_ [= <-]]|[_ ?]]; [done|by apply (Hs f)].
Qed.
Lemma confined_allocate : confined allocate (fun _ => True).
Proof. apply confined_same. intros s _. unfold wp, allocate, st_bind, st_get. by destruct (p_allocs s) as [|[] l]. Qed.
Lemma confined_poison {A} fid (Q : A -> Prop) : confined (poison fid) Q.
Proof.
  intros s Hs. split_and!; [|by apply acts_same|done].
  intros f st' Hf. cbn [p_fids set_p_fids] in Hf. apply lookup_insert_Some in Hf as [[_ ?]|[_ ?]]; [done|by apply (Hs f)].
Qed.
Lemma confined_clunk fid : confined (st_modify (fun s => set_p_fids (delete fid (p_fids s)) s)) (fun _ => True).
Proof.
  apply confined_fids. intros s Hs f st' Hf. cbn [p_fids set_p_fids] in Hf. apply lookup_delete_Some in Hf as [_ ?]. by apply (Hs f).
Qed.
End session.

Ltac as_owner := cbn [made_as call_creds]; first [exact I | unfold made_as; cbn [call_creds]; unfold fid_creds, owned, set_fd_gid in *; cbn; try exact I; repeat eexists; naive_solver].
Ltac same_volume_call := let v := fresh in intros v; cbn [run]; first [reflexivity | symmetry; apply call_state].

(** One step through a handler. *)
Ltac confine_prim :=
  lazymatch goal with
  | |- confined _ _ _ _ (vcall ?m) _ => let k := call_of m in apply (confined_vcall _ _ _ _ k); [as_owner|same_volume_call]
  | |- confined _ _ _ _ (vtry ?m) _ => let k := call_of m in apply (confined_vtry _ _ _ _ k); [as_owner|same_volume_call]
  | |- confined _ _ _ _ (attr_of _) _ => unfold attr_of; confine_prim
  | |- confined _ _ _ _ (get_fid _) _ => apply confined_get_fid
  | |- confined _ _ _ _ (state _) _ => apply confined_state
  | |- confined _ _ _ _ (check_rate _ _) _ => apply confined_check_rate
  | |- confined _ _ _ _ (check_token _ _) _ => apply confined_check_token
  | |- confined _ _ _ _ st_get _ => apply confined_get
  | |- confined _ _ _ _ allocate _ => apply confined_allocate
  | |- confined _ _ _ _ (set_state _ _) _ => apply confined_set_state; unfold owned in *; naive_solver
  | |- confined _ _ _ _ (st_modify (fun s => set_p_fids (delete _ _) _)) _ => apply confined_clunk
  end.

Ltac confine_step :=
  lazymatch goal with
  | |- confined _ _ _ _ (st_ret _) _ => apply confined_ret
  | |- confined _ _ _ _ (st_fail OutOfFuel) _ => apply confined_out
  | |- confined _ _ _ _ (no _) _ => apply confined_no
  | |- confined _ _ _ _ (poison _) _ => apply confined_poison
  | |- confined _ _ _ _ (st_bind (if ?b then _ else _) _) _ => eapply (confined_bind _ _ _ _ _ _ (fun _ => True)); [|intros]
  | |- confined _ _ _ _ (st_bind (match ?o with _ => _ end) _) _ => eapply (confined_bind _ _ _ _ _ _ (fun _ => True)); [|intros]
  | |- confined _ _ _ _ (st_bind _ _) _ => eapply confined_bind; [confine_prim|intros]
  | |- confined _ _ _ _ (if ?b then _ else _) _ => destruct b
  | |- confined _ _ _ _ (match ?o with _ => _ end) _ => destruct o
  | |- confined _ _ _ _ _ (fun _ => True) => confine_prim
  end.
Ltac confine := cbv beta zeta; repeat (confine_step; cbv beta zeta); try exact I.

Section handlers.
Context {DB : SlateDB} {AC : MokaCache u64 Inode} {NC : MokaCache (u64 * bytes) unit} {NCR : NameCrypto}.
Context (others : nat -> Volume -> Volume) (fuel : nat) (x : Export) (U G : u32 -> Prop).
Implicit Types (s : P9) (v : Volume).
Abbreviation confined := (confined others fuel U G).

(** A reply is an R-message, whose type is that of its request plus one. *)
Definition reply_to (body b : FCall) : Prop :=
  MsgType.is_r (MsgType_from b) = true /\
  MsgType.MsgType_code (MsgType_from b) = MsgType.MsgType_code (MsgType_from body) + 1.

(** The user of an attach, and the groups requests carry. *)
Definition attach_uid (n_uname : u32) : u32 := if n_uname =? NONUNAME then 0 else n_uname.
Definition permits (body : FCall) : Prop :=
  match body with
  | TAttach _ _ _ _ n => U (attach_uid n) /\ G (attach_uid n)
  | TlCreate _ _ _ _ gid | TSymlink _ _ _ gid | TMkNod _ _ _ _ _ gid | TMkDir _ _ _ gid => G gid
  | _ => True
  end.

Definition opened body (p : FCall * FidState) : Prop := reply_to body p.1 /\ owned U G p.2.

Lemma confined_walk st cur prov qs names :
  owned U G st -> confined (walk (fid_creds st) cur prov qs names) (fun _ => True).
Proof. intros Hst. revert cur prov qs. induction names as [|name names IH]; intros; cbn [walk]; confine. apply IH. Qed.

Lemma confined_pages st rounds ino next count acc :
  owned U G st -> confined (readdir_pages rounds (fid_creds st) ino next count acc) (fun _ => True).
Proof.
  intros Hst. revert next acc. induction rounds as [|rounds IH]; intros; cbn [readdir_pages]; confine. apply IH.
Qed.

Lemma confined_with_newfid newfid body m : confined m (opened body) -> confined (with_newfid newfid m) (reply_to body).
Proof.
  intros Hm. eapply confined_bind; [exact Hm|]. intros [r st] [Hr Hst].
  eapply confined_bind; [by apply confined_set_state|]. intros _ _. by apply confined_ret.
Qed.

Lemma confined_rclunk fid : confined (rclunk others fuel x fid) (reply_to (TClunk fid)).
Proof. unfold rclunk. confine. done. Qed.
Lemma confined_rattach fid afid uname aname n :
  permits (TAttach fid afid uname aname n) -> confined (rattach x uname aname n) (opened (TAttach fid afid uname aname n)).
Proof. intros Hp. unfold rattach. confine. by split. Qed.
Lemma confined_rxattrwalk fid newfid name : confined (rxattrwalk x fid name) (opened (TxAttrWalk fid newfid name)).
Proof. unfold rxattrwalk. confine. by split. Qed.
Lemma confined_rwalk fid newfid names : confined (rwalk x fid names) (opened (TWalk fid newfid names)).
Proof.
  unfold rwalk. confine. eapply confined_bind; [by apply confined_walk|]. intros [[cur prov] qs] _. apply confined_ret. by split.
Qed.
Lemma confined_rreaddir fid offset count : confined (rreaddir fuel x fid offset count) (reply_to (TReadDir fid offset count)).
Proof.
  unfold rreaddir. confine; try done. eapply confined_bind; [by apply confined_pages|]. intros. by apply confined_ret.
Qed.

Lemma confined_dispatch body : permits body -> confined (dispatch_once others fuel x body) (reply_to body).
Proof.
  intros Hp. destruct body; cbn [dispatch_once permits] in *; confine.
  all: try (apply confined_with_newfid; by auto using confined_rattach, confined_rwalk, confined_rxattrwalk).
  all: unfold rstatfs, rlopen, rlcreate, rsymlink, rmknod, rrename, rreadlink, rgetattr, rsetattr, rxattrcreate, rfsync,
    rlock, rgetlock, rlink, rmkdir, rrenameat, runlinkat, rversion, rflush, rread, rwrite, rremove.
  all: confine; try done.
  - apply confined_rreaddir.
  - by case_bool_decide.
  - eapply confined_bind; [apply confined_rclunk|]. intros. confine. done.
Qed.
End handlers.

(** ** Sessions *)

(** The requests of a session: its frames up to the first that is no message. *)
Fixpoint requests (frames : list bytes) : list Msg :=
  match frames with
  | [] => []
  | frame :: frames => match (read_msg frame).1 with Ok msg => msg :: requests frames | Err _ => [] end
  end.

(** The users a session attached as, and the groups its requests carry. *)
Definition attached_as (msgs : list Msg) (u : u32) : Prop :=
  exists tag fid afid uname aname n, {| msg_tag := tag; msg_body := TAttach fid afid uname aname n |} ∈ msgs /\ u = attach_uid n.

Definition carries (gid : u32) (body : FCall) : bool :=
  match body with
  | TAttach _ _ _ _ n => gid =? attach_uid n
  | TlCreate _ _ _ _ g | TSymlink _ _ _ g | TMkNod _ _ _ _ _ g | TMkDir _ _ _ g => gid =? g
  | _ => false
  end.
Definition grouped_as (msgs : list Msg) (g : u32) : Prop := exists m, m ∈ msgs /\ carries g (msg_body m) = true.

(** A request presents the token. *)
Definition presents (t : string) (m : Msg) : Prop :=
  match msg_body m with TAttach _ _ uname _ _ => uname = t | _ => False end.

(** Replies that say nothing of the volume. *)
Definition blank (b : FCall) : bool := match b with RlError _ | RVersion _ _ | RFlush => true | _ => false end.

Section sessions.
Context {DB : SlateDB} {AC : MokaCache u64 Inode} {NC : MokaCache (u64 * bytes) unit} {NCR : NameCrypto}.
Context (others : nat -> Volume -> Volume) (fuel : nat) (x : Export) (accepts : bytes -> bool).
Implicit Types (s : P9) (v : Volume).

Lemma permits_member msgs m : m ∈ msgs -> permits (attached_as msgs) (grouped_as msgs) (msg_body m).
Proof.
  intros Hm. assert (forall g, carries g (msg_body m) = true -> grouped_as msgs g) as Hg by (intros; by exists m).
  destruct m as [tag b]; destruct b; cbn [permits msg_body carries] in *; try done; try (apply Hg, Z.eqb_refl).
  split; [|by apply Hg, Z.eqb_refl]. by repeat eexists.
Qed.

(** Every request of a session acts as its users. *)
Lemma dispatch_acts U G frames s :
  (forall m, m ∈ requests frames -> permits U G (msg_body m)) -> all_owned U G s ->
  acts others fuel U G s (dispatch others fuel x accepts frames s).2.
Proof.
  revert s. induction frames as [|frame frames IH]; intros s Hp Hs; cbn [dispatch requests] in *; [by apply acts_same|].
  destruct (read_msg frame) as [[msg|e] rest]; cbn [fst] in *; [|by apply acts_same].
  pose proof (confined_dispatch others fuel x U G (msg_body msg) (Hp msg ltac:(left)) s Hs) as Hd. unfold wp in Hd.
  unfold serve. destruct (dispatch_once others fuel x (msg_body msg) s) as [r s1]. destruct Hd as (Hs1 & Ha & _).
  specialize (IH s1 (fun m Hm => Hp m ltac:(by right)) Hs1). destruct (match r with Ok _ => _ | Err _ => _ end) as [m| |]; [..|done].
  - destruct (dispatch others fuel x accepts frames s1) as [[replies r'] s2]. by eapply acts_trans.
  - by eapply acts_trans.
Qed.

(** C18: whatever bytes a client sends, all its session does to the volume is a
    sequence of calls of the volume's interface, each made with the numeric user
    of one of the session's attaches and a group that an attach or a create
    request carried, never with the groups or the rights of anyone else. *)
Theorem p9_identity frames v admits allocs :
  exists ks, p_vol (dispatch others fuel x accepts frames (accept v admits allocs)).2 = run_all others fuel ks v /\
    Forall (made_as (attached_as (requests frames)) (grouped_as (requests frames))) ks.
Proof.
  destruct (dispatch_acts (attached_as (requests frames)) (grouped_as (requests frames)) frames (accept v admits allocs)) as (ks & Hk & E).
  - apply permits_member.
  - intros f st Hf. cbn [accept p_fids] in Hf. by rewrite lookup_empty in Hf.
  - by exists ks.
Qed.


(** Nothing attached and no token seen. *)
Definition outside v s : Prop := p_vol s = v /\ p_fids s = ∅ /\ p_authed s = false.

Definition refused v (r : result (Halt P9Error) FCall) s : Prop :=
  outside v s /\ match r with Ok b => blank b = true | Err (Raise (No _)) => True | Err _ => False end.

Lemma outside_no_fid {A} fid (m : PM A) v s : outside v s -> (get_fid fid ;;; m) s = (Err (Raise (No errno.EBADF)), s).
Proof. intros (_ & Hf & _). unfold get_fid, st_bind, st_get. by rewrite Hf, lookup_empty. Qed.

Lemma outside_check_rate v n s : outside v s ->
  wp (check_rate x n) (fun r s' => outside v s' /\ match r with Ok _ | Err (Raise (No _)) => True | Err _ => False end) s.
Proof.
  intros Hs. unfold wp, check_rate. destruct (x_rate_limited x); [|done]. unfold st_bind, st_get. by destruct (p_admits s) as [|[] l].
Qed.

Lemma outside_dispatch t v msg s : x_token x = Some t -> ~ presents t msg -> outside v s ->
  wp (dispatch_once others fuel x (msg_body msg)) (refused v) s.
Proof.
  intros Ht Hp Hs. destruct msg as [tag b]; destruct b; cbn [dispatch_once msg_body]; unfold wp;
    rewrite ?(outside_no_fid _ _ v) by done; try done.
  - apply wp_bind, wp_bind. eapply wp_mono; [by apply (outside_check_rate v)|]. intros [[]|[[]|]] s1 [Hs1 H1]; try done.
    apply wp_bind. unfold wp, check_token, presents in *. rewrite Ht, bool_decide_eq_false_2 by done. unfold st_bind, st_get.
    destruct Hs1 as (? & ? & Ha). by rewrite Ha.
  - apply wp_bind. eapply wp_mono; [by apply (outside_check_rate v)|]. intros [[]|[[]|]] s1 [Hs1 H1]; try done. cbn.
    split; [done|]. by case_bool_decide.
  - apply wp_bind. eapply wp_mono; [by apply (outside_check_rate v)|]. by intros [[]|[[]|]] s1 [Hs1 H1].
Qed.

(** The frames of replies that say nothing of the volume. *)
Definition blank_frame (frame : bytes) : Prop :=
  exists tag b, frame = (write_msg [] {| msg_tag := tag; msg_body := b |}).2 /\ blank b = true.

Lemma outside_serve t v msg s : x_token x = Some t -> ~ presents t msg -> outside v s ->
  exists tag b s', serve others fuel x msg s = (Replied {| msg_tag := tag; msg_body := b |}, s') /\ blank b = true /\ outside v s'.
Proof.
  intros Ht Hp Hs. pose proof (outside_dispatch t v msg s Ht Hp Hs) as Hd. unfold wp in Hd. unfold serve.
  destruct (dispatch_once others fuel x (msg_body msg) s) as [[b|[[e| |]|]] s1]; destruct Hd as [Hs1 Hb]; try done.
  - assert (MsgType.is_r (MsgType_from b) = true) as -> by (destruct b; first [discriminate Hb|reflexivity]). by exists (msg_tag msg), b, s1.
  - by exists (msg_tag msg), (RlError e), s1.
Qed.

Lemma outside_session t v frames s : x_token x = Some t -> Forall (fun m => ~ presents t m) (requests frames) -> outside v s ->
  outside v (dispatch others fuel x accepts frames s).2 /\ Forall blank_frame (dispatch others fuel x accepts frames s).1.1.
Proof.
  intros Ht. revert s. induction frames as [|frame frames IH]; intros s Hall Hs; cbn [dispatch requests] in *; [by split|].
  destruct (read_msg frame) as [[msg|e] rest]; cbn [fst] in *; [|by split]. apply Forall_cons in Hall as [Hm Hall].
  destruct (outside_serve t v msg s Ht Hm Hs) as (tag & b & s1 & -> & Hb & Hs1).
  specialize (IH s1 Hall Hs1). destruct (dispatch others fuel x accepts frames s1) as [[replies r] s2]. cbn [fst snd] in *.
  split; [apply IH|]. apply Forall_app. split; [|apply IH]. unfold send. destruct (accepts _); [|constructor].
  repeat constructor. by exists tag, b.
Qed.

(** C19: on an export with a token, a client that never presents it, whatever
    bytes it sends, leaves the volume exactly as it was, obtains no fid, and
    gets back only errors and answers to version and flush requests. *)
Theorem p9_auth t frames v admits allocs :
  x_token x = Some t -> Forall (fun m => ~ presents t m) (requests frames) ->
  let '(replies, _, s) := dispatch others fuel x accepts frames (accept v admits allocs) in
  p_vol s = v /\ p_fids s = ∅ /\ Forall blank_frame replies.
Proof.
  intros Ht Hall. pose proof (outside_session t v frames (accept v admits allocs) Ht Hall ltac:(done)) as [(H1 & H2 & _) H3].
  by destruct (dispatch others fuel x accepts frames (accept v admits allocs)) as [[replies r] s].
Qed.
End sessions.
