(* ===== verification/P9Witness.v ===== *)
(** The theorems on 9P sessions applied to concrete sessions. *)

From S2P Require Import Prelude Keys Meta Store Data Quota Locks Volume Vfs Tree Wf WfOps VfsLogic VfsInv Reap.
From S2P Require Import OpsAttr OpsRead OpsCreate OpsRemove OpsRename OpsData OpsHandle System Mount Concrete Spec Namespace Files Fence.
From S2P Require Import Safety Demo P9 P9Thm P9Srv P9Dir P9Ends P9SrvThm.

(** An export with the token [s3], and one open to all. *)
Definition demo_export : Export :=
  {| x_atime_policy := Noatime; x_token := Some [115; 51]; x_export_name := [47; 118]; x_rate_limited := false |}.
Definition open_export : Export :=
  {| x_atime_policy := Noatime; x_token := None; x_export_name := [47; 118]; x_rate_limited := false |}.

Definition frame_of (tag : u16) (body : FCall) : bytes := (write_msg [] {| msg_tag := tag; msg_body := body |}).2.

(** A client that offers its version, attaches with a wrong token, and walks. *)
Definition intruder : list bytes :=
  [frame_of NOTAG (TVersion 8192 P92000L); frame_of 1 (TAttach 0 NOFID [115; 52] [47] 0); frame_of 2 (TWalk 0 1 [nm 100]);
   frame_of 3 (TUnlinkAt 0 (nm 102) 0); [1; 2]].

Lemma p9_auth_witness :
  let '(replies, r, s) := dispatch nobody demo_fuel demo_export (fun _ => true) intruder (accept demo3 [] []) in
  p_vol s = demo3 /\ p_fids s = ∅ /\ Forall blank_frame replies.
Proof.
  apply (p9_auth nobody demo_fuel demo_export (fun _ => true) [115; 51] intruder demo3 [] []); [reflexivity|].
  vm_compute. repeat constructor; intros H; try discriminate H; exact H.
Defined.

(** A session attached at the root of the volume. *)
Definition root_fid : FidState :=
  {| fd_ino := ROOT_INO; fd_uid := 0; fd_gid := 0; fd_handle := None; fd_provenance := None; fd_xattr := None |}.
Definition attached : P9 := mkP9 demo3 {[ 0 := Live root_fid ]} false [] [].

