(* ===== verification/Nbd.v ===== *)
(** The NBD server ([slatefs-nbd/src/lib.rs]): option negotiation with TLS and
    the writable-session lease, and the transmission phase over a [BlockDev].

    A connection is its input bytes and what is sent on it. TLS is a parameter:
    what the acceptor makes of the bytes after its acknowledgement. The answers
    of the rate limiter, after its bounded wait, are an arbitrary sequence. *)

From Stdlib Require Import Strings.String Strings.Ascii.
From S2P Require Import Prelude Meta Block.

Abbreviation u16 := Z (only parsing).

Abbreviation INIT_PASSWD := 0x4e42444d41474943 (only parsing).
Abbreviation IHAVEOPT := 0x49484156454f5054 (only parsing).
Abbreviation OPTION_REPLY_MAGIC := 0x0003e889045565a9 (only parsing).
Abbreviation REQUEST_MAGIC := 0x25609513 (only parsing).
Abbreviation SIMPLE_REPLY_MAGIC := 0x67446698 (only parsing).

Abbreviation NBD_FLAG_FIXED_NEWSTYLE := 1 (only parsing).
Abbreviation NBD_FLAG_NO_ZEROES := 2 (only parsing).
Abbreviation NBD_FLAG_C_FIXED_NEWSTYLE := 1 (only parsing).
Abbreviation NBD_FLAG_C_NO_ZEROES := 2 (only parsing).
Abbreviation SUPPORTED_CLIENT_FLAGS := (Z.lor NBD_FLAG_C_FIXED_NEWSTYLE NBD_FLAG_C_NO_ZEROES) (only parsing).

Abbreviation NBD_FLAG_HAS_FLAGS := 1 (only parsing).
Abbreviation NBD_FLAG_READ_ONLY := 2 (only parsing).
Abbreviation NBD_FLAG_SEND_FLUSH := 4 (only parsing).
Abbreviation NBD_FLAG_SEND_FUA := 8 (only parsing).
Abbreviation NBD_FLAG_SEND_TRIM := 32 (only parsing).
Abbreviation NBD_FLAG_SEND_WRITE_ZEROES := 64 (only parsing).
Abbreviation NBD_FLAG_CAN_MULTI_CONN := 256 (only parsing).

Abbreviation NBD_OPT_EXPORT_NAME := 1 (only parsing).
Abbreviation NBD_OPT_ABORT := 2 (only parsing).
Abbreviation NBD_OPT_LIST := 3 (only parsing).
Abbreviation NBD_OPT_STARTTLS := 5 (only parsing).
Abbreviation NBD_OPT_INFO := 6 (only parsing).
Abbreviation NBD_OPT_GO := 7 (only parsing).

Abbreviation NBD_REP_ACK := 1 (only parsing).
Abbreviation NBD_REP_SERVER := 2 (only parsing).
Abbreviation NBD_REP_INFO := 3 (only parsing).
Abbreviation NBD_REP_ERR_UNSUP := (2 ^ 31 + 1) (only parsing).
Abbreviation NBD_REP_ERR_POLICY := (2 ^ 31 + 2) (only parsing).
Abbreviation NBD_REP_ERR_INVALID := (2 ^ 31 + 3) (only parsing).
Abbreviation NBD_REP_ERR_TLS_REQD := (2 ^ 31 + 5) (only parsing).
Abbreviation NBD_REP_ERR_UNKNOWN := (2 ^ 31 + 6) (only parsing).
Abbreviation NBD_REP_ERR_TOO_BIG := (2 ^ 31 + 9) (only parsing).

Abbreviation NBD_INFO_EXPORT := 0 (only parsing).
Abbreviation NBD_INFO_BLOCK_SIZE := 3 (only parsing).

Abbreviation NBD_CMD_READ := 0 (only parsing).
Abbreviation NBD_CMD_WRITE := 1 (only parsing).
Abbreviation NBD_CMD_DISC := 2 (only parsing).
Abbreviation NBD_CMD_FLUSH := 3 (only parsing).
Abbreviation NBD_CMD_TRIM := 4 (only parsing).
Abbreviation NBD_CMD_CACHE := 5 (only parsing).
Abbreviation NBD_CMD_WRITE_ZEROES := 6 (only parsing).

Abbreviation NBD_CMD_FLAG_FUA := 1 (only parsing).
Abbreviation NBD_CMD_FLAG_NO_HOLE := 2 (only parsing).
Abbreviation NBD_CMD_FLAG_FAST_ZERO := 16 (only parsing).

Abbreviation NBD_EPERM := 1 (only parsing).
Abbreviation NBD_EIO := 5 (only parsing).
Abbreviation NBD_EINVAL := 22 (only parsing).
Abbreviation NBD_ENOSPC := 28 (only parsing).
Abbreviation NBD_EOVERFLOW := 75 (only parsing).

Abbreviation MAX_OPTION_DATA := (64 * 1024) (only parsing).

(** A byte-string literal. *)
Fixpoint text (s : string) : bytes :=
  match s with
  | EmptyString => []
  | String c s => Z.of_N (N_of_ascii c) :: text s
  end.

(** * Frames *)

Record OptionHeader : Type := { oh_magic : u64; oh_option : u32; oh_length : u32 }.

Record RequestHeader : Type := {
  rq_magic : u32; rq_flags : u16; rq_command : u16; rq_handle : u64; rq_offset : u64; rq_length : u32
}.

(** [read_exact] on the rest of a stream; [None] is an unexpected end. *)
Definition read_exact (n : Z) (input : bytes) : option (bytes * bytes) :=
  if n <=? len input then Some (take (Z.to_nat n) input, drop (Z.to_nat n) input) else None.

Definition decode_option_header (b : bytes) : OptionHeader :=
  {| oh_magic := from_be (slice b 0 8); oh_option := from_be (slice b 8 12); oh_length := from_be (slice b 12 16) |}.

Definition read_option_header (input : bytes) : option (OptionHeader * bytes) :=
  match read_exact 16 input with Some (b, rest) => Some (decode_option_header b, rest) | None => None end.

Definition read_request_header (input : bytes) : option (RequestHeader * bytes) :=
  match read_exact 28 input with
  | Some (b, rest) =>
      Some ({| rq_magic := from_be (slice b 0 4); rq_flags := from_be (slice b 4 6); rq_command := from_be (slice b 6 8);
               rq_handle := from_be (slice b 8 16); rq_offset := from_be (slice b 16 24); rq_length := from_be (slice b 24 28) |}, rest)
  | None => None
  end.

(** The name and the information requests of [NBD_OPT_INFO] and [NBD_OPT_GO]. *)
Record InfoRequest : Type := { ir_name : bytes; ir_requests : list u16 }.

Fixpoint parse_requests (count : nat) (data : bytes) (seen : list u16) : option (list u16) :=
  match count with
  | O => Some seen
  | S count =>
      let request := from_be (take 2 data) in
      if existsb (Z.eqb request) seen then None else parse_requests count (drop 2 data) (seen ++ [request])
  end.

Definition parse_info_request (data : bytes) : option InfoRequest :=
  if len data <? 6 then None
  else
    let name_len := from_be (slice data 0 4) in
    if saturating_sub (len data) 6 <? name_len then None
    else
      let name_end := 4 + name_len in
      if len data <? name_end + 2 then None
      else
        let count := from_be (slice data name_end (name_end + 2)) in
        if negb (len data =? name_end + 2 + count * 2) then None
        else
          match parse_requests (Z.to_nat count) (drop (Z.to_nat (name_end + 2)) data) [] with
          | Some requests => Some {| ir_name := slice data 4 name_end; ir_requests := requests |}
          | None => None
          end.

Definition server_handshake : bytes :=
  to_be 8 INIT_PASSWD ++ to_be 8 IHAVEOPT ++ to_be 2 (Z.lor NBD_FLAG_FIXED_NEWSTYLE NBD_FLAG_NO_ZEROES).

Definition transmission_flags (g : BlockGeometry) : u16 :=
  let flags := Z.lor (Z.lor (Z.lor (Z.lor (Z.lor NBD_FLAG_HAS_FLAGS NBD_FLAG_SEND_FLUSH) NBD_FLAG_SEND_FUA) NBD_FLAG_SEND_TRIM)
                 NBD_FLAG_SEND_WRITE_ZEROES) NBD_FLAG_CAN_MULTI_CONN in
  if g_read_only g then Z.lor flags NBD_FLAG_READ_ONLY else flags.

Definition option_reply (option reply_type : u32) (payload : bytes) : bytes :=
  to_be 8 OPTION_REPLY_MAGIC ++ to_be 4 option ++ to_be 4 reply_type ++ to_be 4 (as_u32 (len payload)) ++ payload.

Definition export_info (g : BlockGeometry) : bytes :=
  to_be 2 NBD_INFO_EXPORT ++ to_be 8 (g_size_bytes g) ++ to_be 2 (transmission_flags g).
Definition block_size_info (g : BlockGeometry) : bytes :=
  to_be 2 NBD_INFO_BLOCK_SIZE ++ to_be 4 (g_min_block g) ++ to_be 4 (g_preferred_block g) ++ to_be 4 (g_max_payload g).

(** * Sessions *)

(** An address is its canonical text. *)
Inductive SessionIdentity : Type := Ip (addr : bytes) | ClientCert (cert : bytes).
#[global] Instance identity_eq_dec : EqDecision SessionIdentity.
Proof. solve_decision. Defined.

Definition identity_text (i : SessionIdentity) : bytes :=
  match i with Ip addr => addr | ClientCert _ => text "client certificate" end.

Record WritableSession : Type := { ws_identity : SessionIdentity; ws_connections : usize }.

(** [SessionLeases] without its lock. *)
Record SessionLeases : Type := { sl_export_name : bytes; sl_read_only : bool; sl_writable : option WritableSession }.
Definition set_writable (w : option WritableSession) (l : SessionLeases) : SessionLeases :=
  {| sl_export_name := sl_export_name l; sl_read_only := sl_read_only l; sl_writable := w |}.

(** [SessionLease]: the identity of a writable session. *)
Abbreviation SessionLease := (option SessionIdentity) (only parsing).

Definition SessionLeases_new (export_name : bytes) (read_only : bool) : SessionLeases :=
  {| sl_export_name := export_name; sl_read_only := read_only; sl_writable := None |}.

Definition acquire (identity : SessionIdentity) (l : SessionLeases) : result bytes SessionLease * SessionLeases :=
  if sl_read_only l then (Ok None, l)
  else
    match sl_writable l with
    | Some session =>
        if bool_decide (ws_identity session = identity) then
          (Ok (Some identity), set_writable (Some {| ws_identity := identity; ws_connections := ws_connections session + 1 |}) l)
        else
          (Err (text "export " ++ sl_export_name l ++ text " already has a writable session from " ++ identity_text (ws_identity session)), l)
    | None => (Ok (Some identity), set_writable (Some {| ws_identity := identity; ws_connections := 1 |}) l)
    end.

(** [Drop for SessionLease] *)
Definition release (lease : SessionLease) (l : SessionLeases) : SessionLeases :=
  match lease, sl_writable l with
  | Some holder, Some session =>
      if bool_decide (ws_identity session = holder) then
        let connections := saturating_sub (ws_connections session) 1 in
        set_writable (if connections =? 0 then None else Some {| ws_identity := ws_identity session; ws_connections := connections |}) l
      else l
  | _, _ => l
  end.

(** * Negotiation *)

(** [NbdTlsConfig]: whether clients must present a certificate, and what the
    acceptor makes of the stream: the plaintext and the client's certificate. *)
Record NbdTlsConfig : Type := {
  tls_requires_client_auth : bool;
  tls_accept : bytes -> option (bytes * option bytes)
}.

Record ServerState : Type := { ss_export_name : bytes; ss_geometry : BlockGeometry; ss_tls : option NbdTlsConfig }.

(** A connection being negotiated; what is sent is marked when inside TLS. *)
Record Neg : Type := mkNeg {
  n_in : bytes;
  n_out : list (bool * bytes);
  n_tls : bool;
  n_identity : SessionIdentity;
  n_leases : SessionLeases
}.
Definition set_n_in (b : bytes) (n : Neg) : Neg := mkNeg b (n_out n) (n_tls n) (n_identity n) (n_leases n).
Definition set_n_leases (l : SessionLeases) (n : Neg) : Neg := mkNeg (n_in n) (n_out n) (n_tls n) (n_identity n) l.

(** How it ends without a session: closed quietly, or with an I/O error. *)
Inductive NegStop : Type := Closed | IoFailed.
Definition NM (A : Type) : Type := ST Neg (Halt NegStop) A.
Definition close {A} : NM A := st_fail (Raise Closed).
Definition io_fail {A} : NM A := st_fail (Raise IoFailed).

Definition send (b : bytes) : NM unit :=
  st_modify (fun n => mkNeg (n_in n) (n_out n ++ [(n_tls n, b)]) (n_tls n) (n_identity n) (n_leases n)).
Definition write_option_reply (option reply_type : u32) (payload : bytes) : NM unit := send (option_reply option reply_type payload).

Definition receive {A} (read : bytes -> option (A * bytes)) (eof : NegStop) : NM A := fun n =>
  match read (n_in n) with Some (a, rest) => (Ok a, set_n_in rest n) | None => (Err (Raise eof), n) end.

(** The buffer's loop reads the same bytes. *)
Definition discard_exact (n : Z) : NM unit := receive (read_exact n) IoFailed ;;; st_ret tt.

(** [None] when the data is over the limit; it is skipped then. *)
Definition read_bounded_data (n : u32) : NM (option bytes) :=
  if MAX_OPTION_DATA <? n then discard_exact n ;;; st_ret None
  else data <- receive (read_exact n) IoFailed ;; st_ret (Some data).

Definition take_lease : NM (result bytes SessionLease) := fun n =>
  let '(r, l) := acquire (n_identity n) (n_leases n) in (Ok r, set_n_leases l n).

Section negotiation.
Context (state : ServerState).

(** [tls.acceptor.accept(stream)] and the client's identity. *)
Definition start_tls (tls : NbdTlsConfig) : NM unit := fun n =>
  match tls_accept tls (n_in n) with
  | None => (Err (Raise IoFailed), n)
  | Some (plain, cert) =>
      if tls_requires_client_auth tls then
        match cert with
        | None => (Err (Raise IoFailed), n)
        | Some c => (Ok tt, mkNeg plain (n_out n) true (ClientCert c) (n_leases n))
        end
      else (Ok tt, mkNeg plain (n_out n) true (n_identity n) (n_leases n))
  end.

Definition tls_required : bytes := text "NBD STARTTLS is required for this export".

(** An option before the TLS an export requires. *)
Definition option_before_tls (tls : NbdTlsConfig) (h : OptionHeader) : NM unit :=
  let option := oh_option h in
  if option =? NBD_OPT_ABORT then
    discard_exact (oh_length h) ;;; write_option_reply option NBD_REP_ACK [] ;;; close
  else if option =? NBD_OPT_STARTTLS then
    discard_exact (oh_length h) ;;; write_option_reply option NBD_REP_ACK [] ;;; start_tls tls
  else if option =? NBD_OPT_EXPORT_NAME then close
  else
    discard_exact (oh_length h) ;;;
    write_option_reply option NBD_REP_ERR_TLS_REQD tls_required.

(** [NBD_OPT_INFO] and [NBD_OPT_GO]. *)
Definition option_info (h : OptionHeader) : NM (option SessionLease) :=
  let option := oh_option h in
  o <- read_bounded_data (oh_length h) ;;
  match o with
  | None => write_option_reply option NBD_REP_ERR_TOO_BIG (text "option payload too large") ;;; st_ret None
  | Some data =>
      match parse_info_request data with
      | None => write_option_reply option NBD_REP_ERR_INVALID (text "invalid NBD_OPT_INFO/GO payload") ;;; st_ret None
      | Some request =>
          if negb (bool_decide (ir_name request = ss_export_name state)) then
            write_option_reply option NBD_REP_ERR_UNKNOWN (text "unknown export") ;;; st_ret None
          else
            lease <- (if option =? NBD_OPT_GO then r <- take_lease ;; st_ret (Some r) else st_ret None) ;;
            match lease with
            | Some (Err message) => write_option_reply option NBD_REP_ERR_POLICY message ;;; st_ret None
            | _ =>
                write_option_reply option NBD_REP_INFO (export_info (ss_geometry state)) ;;;
                write_option_reply option NBD_REP_INFO (block_size_info (ss_geometry state)) ;;;
                write_option_reply option NBD_REP_ACK [] ;;;
                st_ret (match lease with Some (Ok l) => Some l | _ => None end)
            end
      end
  end.

(** [NBD_OPT_EXPORT_NAME] *)
Definition option_export_name (no_zeroes : bool) (h : OptionHeader) : NM SessionLease :=
  o <- read_bounded_data (oh_length h) ;;
  match o with
  | None => close
  | Some data =>
      if negb (bool_decide (data = ss_export_name state)) then close
      else
        r <- take_lease ;;
        match r with
        | Err _ => close
        | Ok lease =>
            send (to_be 8 (g_size_bytes (ss_geometry state)) ++ to_be 2 (transmission_flags (ss_geometry state)) ++
                  (if no_zeroes then [] else zeros 124)) ;;;
            st_ret lease
        end
  end.

(** An option in the open, or inside TLS. *)
Definition option_plain (no_zeroes : bool) (h : OptionHeader) : NM (option SessionLease) :=
  let option := oh_option h in
  if option =? NBD_OPT_ABORT then
    discard_exact (oh_length h) ;;; write_option_reply option NBD_REP_ACK [] ;;; close
  else if option =? NBD_OPT_LIST then
    if negb (oh_length h =? 0) then
      discard_exact (oh_length h) ;;;
      write_option_reply option NBD_REP_ERR_INVALID (text "NBD_OPT_LIST payload must be empty") ;;; st_ret None
    else
      write_option_reply option NBD_REP_SERVER (to_be 4 (as_u32 (len (ss_export_name state))) ++ ss_export_name state) ;;;
      write_option_reply option NBD_REP_ACK [] ;;; st_ret None
  else if option =? NBD_OPT_STARTTLS then
    discard_exact (oh_length h) ;;;
    n <- st_get ;;
    (if n_tls n then write_option_reply option NBD_REP_ERR_INVALID (text "NBD STARTTLS was already negotiated")
     else write_option_reply option NBD_REP_ERR_UNSUP (text "NBD STARTTLS is not enabled for this export")) ;;;
    st_ret None
  else if (option =? NBD_OPT_INFO) || (option =? NBD_OPT_GO) then option_info h
  else if option =? NBD_OPT_EXPORT_NAME then lease <- option_export_name no_zeroes h ;; st_ret (Some lease)
  else
    discard_exact (oh_length h) ;;;
    write_option_reply option NBD_REP_ERR_UNSUP (text "unsupported NBD option") ;;; st_ret None.

Definition option_round (no_zeroes : bool) : NM (option SessionLease) :=
  h <- receive read_option_header Closed ;;
  if negb (oh_magic h =? IHAVEOPT) then close
  else
    n <- st_get ;;
    match ss_tls state with
    | Some tls => if n_tls n then option_plain no_zeroes h else option_before_tls tls h ;;; st_ret None
    | None => option_plain no_zeroes h
    end.

Fixpoint options (fuel : nat) (no_zeroes : bool) : NM SessionLease :=
  match fuel with
  | O => st_fail OutOfFuel
  | S fuel =>
      o <- option_round no_zeroes ;;
      match o with Some lease => st_ret lease | None => options fuel no_zeroes end
  end.

(** [negotiate]: a session with its lease, or how the connection ended. *)
Definition negotiate (fuel : nat) : NM SessionLease :=
  send server_handshake ;;;
  flags <- receive (fun b => match read_exact 4 b with Some (w, rest) => Some (from_be w, rest) | None => None end) Closed ;;
  if negb (Z.ldiff flags SUPPORTED_CLIENT_FLAGS =? 0) then close
  else options fuel (negb (Z.land flags NBD_FLAG_C_NO_ZEROES =? 0)).
End negotiation.

(** * Transmission *)

Definition validate_extent (offset length size : u64) : option u32 :=
  match checked_add_u64 offset length with
  | Some endo => if (offset <=? size) && (endo <=? size) then None else Some NBD_EINVAL
  | None => Some NBD_EINVAL
  end.

(** [flags & !allowed != 0] *)
Definition other_flags (flags allowed : u16) : bool := negb (Z.ldiff flags allowed =? 0).

Definition validate_request (h : RequestHeader) (g : BlockGeometry) : option u32 :=
  let cmd := rq_command h in
  let extent := validate_extent (rq_offset h) (rq_length h) (g_size_bytes g) in
  if ((cmd =? NBD_CMD_READ) || (cmd =? NBD_CMD_WRITE) || (cmd =? NBD_CMD_WRITE_ZEROES)) && (g_max_payload g <? rq_length h) then
    Some NBD_EOVERFLOW
  else if cmd =? NBD_CMD_READ then
    if other_flags (rq_flags h) NBD_CMD_FLAG_FUA then Some NBD_EINVAL else extent
  else if cmd =? NBD_CMD_WRITE then
    if other_flags (rq_flags h) NBD_CMD_FLAG_FUA then Some NBD_EINVAL
    else if g_read_only g then Some NBD_EPERM else extent
  else if cmd =? NBD_CMD_FLUSH then
    if negb (rq_offset h =? 0) || negb (rq_length h =? 0) || other_flags (rq_flags h) NBD_CMD_FLAG_FUA then Some NBD_EINVAL else None
  else if cmd =? NBD_CMD_TRIM then
    if other_flags (rq_flags h) NBD_CMD_FLAG_FUA then Some NBD_EINVAL
    else if g_read_only g then Some NBD_EPERM else extent
  else if cmd =? NBD_CMD_CACHE then
    if other_flags (rq_flags h) NBD_CMD_FLAG_FUA then Some NBD_EINVAL else extent
  else if cmd =? NBD_CMD_WRITE_ZEROES then
    if negb (Z.land (rq_flags h) NBD_CMD_FLAG_FAST_ZERO =? 0) then Some NBD_EINVAL
    else if other_flags (rq_flags h) (Z.lor NBD_CMD_FLAG_FUA NBD_CMD_FLAG_NO_HOLE) then Some NBD_EINVAL
    else if g_read_only g then Some NBD_EPERM else extent
  else Some NBD_EINVAL.

(** What the reader makes of a request: an error to answer, or a task. *)
Inductive Job : Type :=
| Refuse (handle : u64) (error : u32)
| Execute (header : RequestHeader) (payload : option bytes).

(** How the reader stops: at a disconnect or the end of the stream, or with an
    I/O error. *)
Inductive ReadEnd : Type := ReadDone | ReadFailed | ReadFuel.

(** One request and the rest of the stream, or the end. *)
Definition read_request (g : BlockGeometry) (input : bytes) : (Job * bytes) + ReadEnd :=
  match read_request_header input with
  | None => inr ReadDone
  | Some (h, rest) =>
      if negb (rq_magic h =? REQUEST_MAGIC) then inr ReadFailed
      else if rq_command h =? NBD_CMD_DISC then inr ReadDone
      else
        let validation_error := validate_request h g in
        if rq_command h =? NBD_CMD_WRITE then
          match read_exact (rq_length h) rest with
          | None => inr ReadFailed
          | Some (data, rest) =>
              inl (if g_max_payload g <? rq_length h then Refuse (rq_handle h) NBD_EOVERFLOW
                   else match validation_error with Some error => Refuse (rq_handle h) error | None => Execute h (Some data) end, rest)
          end
        else inl (match validation_error with Some error => Refuse (rq_handle h) error | None => Execute h None end, rest)
  end.

Fixpoint read_requests (fuel : nat) (g : BlockGeometry) (input : bytes) : list Job * ReadEnd :=
  match fuel with
  | O => ([], ReadFuel)
  | S fuel =>
      match read_request g input with
      | inr e => ([], e)
      | inl (job, rest) => let '(jobs, e) := read_requests fuel g rest in (job :: jobs, e)
      end
  end.

Record RequestFailure : Type := { rf_error : u32; rf_fatal : bool }.

Definition backend_failure (e : FsError) : RequestFailure :=
  match e with
  | Invalid => {| rf_error := NBD_EINVAL; rf_fatal := false |}
  | QuotaExceeded | NoSpace | FileTooBig => {| rf_error := NBD_ENOSPC; rf_fatal := false |}
  | ReadOnly | NotPermitted | AccessDenied => {| rf_error := NBD_EPERM; rf_fatal := false |}
  | _ => {| rf_error := NBD_EIO; rf_fatal := true |}
  end.

Record Response : Type := { rs_handle : u64; rs_error : u32; rs_data : option bytes; rs_fatal : bool }.

Definition Response_error (handle : u64) (error : u32) (fatal : bool) : Response :=
  {| rs_handle := handle; rs_error := error; rs_data := None; rs_fatal := fatal |}.

(** [write_simple_reply] *)
Definition simple_reply (r : Response) : bytes :=
  to_be 4 SIMPLE_REPLY_MAGIC ++ to_be 4 (rs_error r) ++ to_be 8 (rs_handle r) ++
  (if rs_error r =? 0 then default [] (rs_data r) else []).

Section transmission.
Context {S : Type} (D : BlockDev S) (rate_limited : bool).

(** The device, and the answers of the rate limiter to come (empty admits). *)
Record Tx : Type := mkTx { tx_dev : S; tx_admits : list bool }.
Definition TM (A : Type) : Type := ST Tx (Halt RequestFailure) A.

Definition wait_for_rate_limit : TM unit :=
  if rate_limited then
    t <- st_get ;;
    match tx_admits t with
    | [] => st_ret tt
    | b :: l =>
        st_modify (fun t => mkTx (tx_dev t) l) ;;;
        if (b : bool) then st_ret tt else st_fail (Raise {| rf_error := NBD_EIO; rf_fatal := false |})
    end
  else st_ret tt.

(** [device.op(..).await.map_err(backend_failure)] *)
Definition device {A} (m : ST S (Halt FsError) A) : TM A := fun t =>
  let '(r, s) := m (tx_dev t) in (map_err (halt_map backend_failure) r, mkTx s (tx_admits t)).

Definition fua (h : RequestHeader) : bool := negb (Z.land (rq_flags h) NBD_CMD_FLAG_FUA =? 0).

(** The body of [execute_request]. *)
Definition run_request (h : RequestHeader) (payload : option bytes) : TM (option bytes) :=
  let cmd := rq_command h in
  if cmd =? NBD_CMD_READ then
    wait_for_rate_limit ;;; data <- device (bd_read D (rq_offset h) (rq_length h)) ;; st_ret (Some data)
  else if cmd =? NBD_CMD_WRITE then
    wait_for_rate_limit ;;; device (bd_write D (rq_offset h) (default [] payload) (fua h)) ;;; st_ret None
  else if cmd =? NBD_CMD_FLUSH then device (bd_flush D) ;;; st_ret None
  else if cmd =? NBD_CMD_TRIM then
    device (bd_trim D (rq_offset h) (rq_length h)) ;;;
    (if fua h then device (bd_flush D) else st_ret tt) ;;;
    st_ret None
  else if cmd =? NBD_CMD_CACHE then st_ret None
  else if cmd =? NBD_CMD_WRITE_ZEROES then
    wait_for_rate_limit ;;; device (bd_write_zeroes D (rq_offset h) (rq_length h) (fua h)) ;;; st_ret None
  else st_fail (Raise {| rf_error := NBD_EINVAL; rf_fatal := false |}).

(** [execute_request]; [None] when the device does not return. *)
Definition execute_request (h : RequestHeader) (payload : option bytes) (t : Tx) : option Response * Tx :=
  let '(r, t) := run_request h payload t in
  (match r with
   | Ok data => Some {| rs_handle := rq_handle h; rs_error := 0; rs_data := data; rs_fatal := false |}
   | Err (Raise f) => Some {| rs_handle := rq_handle h; rs_error := rf_error f; rs_data := None; rs_fatal := rf_fatal f |}
   | Err OutOfFuel => None
   end, t).

Definition run_job (job : Job) (t : Tx) : option Response * Tx :=
  match job with
  | Refuse handle error => (Some (Response_error handle error false), t)
  | Execute h payload => execute_request h payload t
  end.

(** [transmit]: the jobs in the order their tasks run, and the responses in the
    order they are written; a fatal one is the last. *)
Fixpoint transmit (jobs : list Job) (t : Tx) : list Response * Tx :=
  match jobs with
  | [] => ([], t)
  | job :: jobs =>
      match run_job job t with
      | (None, t) => ([], t)
      | (Some r, t) =>
          if rs_fatal r then ([r], t)
          else let '(rs, t) := transmit jobs t in (r :: rs, t)
      end
  end.
End transmission.
