(* ===== verification/NbdThm.v ===== *)
(** What the NBD server guarantees of its sessions: an export with TLS is only
    served inside it, and the writers of an export are all the same client. *)

From S2P Require Import Prelude Keys Meta Store Data Quota Locks Volume Block Nbd.

(** * TLS *)

Section tls.
Context (state : ServerState) (tls : NbdTlsConfig) (Htls : ss_tls state = Some tls).
Implicit Types (n : Neg).

(** What may be said in the open: the greeting, and to each option that it is
    acknowledged or needs TLS. *)
Definition public (b : bytes) : Prop :=
  b = server_handshake \/
  exists option, b = option_reply option NBD_REP_ACK [] \/
    b = option_reply option NBD_REP_ERR_TLS_REQD tls_required.

Definition discreet n : Prop := Forall (fun m => m.1 = true \/ public m.2) (n_out n).

(** The client's certificate, when one is required, is the one it presented. *)
Definition certified n : Prop :=
  tls_requires_client_auth tls = true ->
  exists raw plain c, tls_accept tls raw = Some (plain, Some c) /\ n_identity n = ClientCert c.

Definition inside n : Prop := n_tls n = true /\ discreet n /\ certified n.

(** [m] stays inside TLS. *)
Definition stays {A} (m : NM A) : Prop := forall n, inside n -> wp m (fun _ n' => inside n') n.

Lemma stays_bind {A B} (m : NM A) (f : A -> NM B) : stays m -> (forall a, stays (f a)) -> stays (st_bind m f).
Proof.
  intros Hm Hf n Hn. apply wp_bind. eapply wp_mono; [by apply Hm|]. intros [a|e] n' Hn'; [by apply Hf|done].
Qed.
Lemma stays_ret {A} (a : A) : stays (st_ret a).
Proof. by intros n Hn. Qed.
Lemma stays_fail {A} e : stays (st_fail e : NM A).
Proof. by intros n Hn. Qed.
Lemma stays_get : stays st_get.
Proof. by intros n Hn. Qed.
Lemma stays_send b : stays (send b).
Proof.
  intros n (Ht & Hd & Hc). split_and!; [done| |done]. apply Forall_app. split; [done|]. constructor; [by left|done].
Qed.
Lemma stays_receive {A} (read : bytes -> option (A * bytes)) e : stays (receive read e).
Proof. intros n Hn. unfold wp, receive. by destruct (read (n_in n)) as [[a rest]|]. Qed.
Lemma stays_take_lease : stays take_lease.
Proof. intros n Hn. unfold wp, take_lease. by destruct (acquire (n_identity n) (n_leases n)) as [r l]. Qed.
End tls.

Ltac stay :=
  repeat match goal with
  | |- stays _ (st_bind _ _) => apply stays_bind; [|intros]
  | |- stays _ (st_ret _) => apply stays_ret
  | |- stays _ (st_fail _) => apply stays_fail
  | |- stays _ close => apply stays_fail
  | |- stays _ st_get => apply stays_get
  | |- stays _ (send _) => apply stays_send
  | |- stays _ (write_option_reply _ _ _) => apply stays_send
  | |- stays _ (receive _ _) => apply stays_receive
  | |- stays _ (discard_exact _) => unfold discard_exact
  | |- stays _ (read_bounded_data _) => unfold read_bounded_data
  | |- stays _ take_lease => apply stays_take_lease
  | |- stays _ (if ?b then _ else _) => destruct b
  | |- stays _ (match ?o with _ => _ end) => destruct o
  end.

Section tls_negotiation.
Context (state : ServerState) (tls : NbdTlsConfig) (Htls : ss_tls state = Some tls) (l0 : SessionLeases).
Implicit Types (n : Neg).

Lemma stays_plain no_zeroes h : stays tls (option_plain state no_zeroes h).
Proof. unfold option_plain, option_info, option_export_name. cbv zeta. stay. Qed.

(** Before TLS nothing has been granted. *)
Definition outside n : Prop := n_tls n = false /\ discreet n /\ n_leases n = l0.

Definition either n : Prop := outside n \/ inside tls n.

Lemma outside_send b : public b -> forall n, outside n -> wp (send b) (fun r n' => r = Ok tt /\ outside n') n.
Proof.
  intros Hb n (Ht & Hd & Hl). split; [done|]. split_and!; [done| |done]. apply Forall_app. split; [done|]. constructor; [by right|done].
Qed.
Lemma outside_receive {A} (read : bytes -> option (A * bytes)) e n : outside n -> wp (receive read e) (fun _ n' => outside n') n.
Proof. intros Hn. unfold wp, receive. by destruct (read (n_in n)) as [[a rest]|]. Qed.
Lemma outside_discard k n : outside n -> wp (discard_exact k) (fun _ n' => outside n') n.
Proof. intros Hn. apply wp_bind. eapply wp_mono; [by apply outside_receive|]. by intros [a|e] n' Hn'. Qed.

Lemma outside_start_tls n : outside n -> wp (start_tls tls) (fun r n' => match r with Ok _ => inside tls n' | Err _ => outside n' end) n.
Proof.
  intros (Ht & Hd & Hl). unfold wp, start_tls. destruct (tls_accept tls (n_in n)) as [[plain cert]|] eqn:E; [|done].
  destruct (tls_requires_client_auth tls) eqn:Ea; [destruct cert as [c|]; [|done]|]; split_and!; try done.
  - intros _. by exists (n_in n), plain, c.
  - intros H. by rewrite Ea in H.
Qed.

Lemma outside_reply k option rt payload {A} (m : NM A) Q n :
  public (option_reply option rt payload) -> outside n -> (forall n', outside n' -> wp m Q n') ->
  (forall e n', outside n' -> Q (Err e) n') -> wp (discard_exact k ;;; write_option_reply option rt payload ;;; m) Q n.
Proof.
  intros Hp Hn Hm He. apply wp_bind. eapply wp_mono; [by apply outside_discard|]. intros [[]|e] n1 Hn1; [|by apply He].
  apply wp_bind. eapply wp_mono; [by apply outside_send|]. intros r n2 [-> Hn2]. by apply Hm.
Qed.

Lemma outside_option h n : outside n -> wp (option_before_tls tls h) (fun _ n' => either n') n.
Proof.
  intros Hn. assert (forall o, public (option_reply o NBD_REP_ACK [])) as Hack by (intros o; right; eauto).
  unfold option_before_tls. cbv zeta. repeat case_match.
  - apply outside_reply; [done|done|..]; intros; by left.
  - apply outside_reply; [done|done| |by left]. intros n' Hn'. eapply wp_mono; [by apply outside_start_tls|].
    intros [[]|e] n2 H2; [by right|by left].
  - by left.
  - apply wp_bind. eapply wp_mono; [by apply outside_discard|]. intros [[]|e] n1 Hn1; [|by left].
    eapply wp_mono; [apply outside_send; [right; eauto|done]|]. intros r n2 [_ H2]. by left.
Qed.

(** One option: nothing is granted outside. *)
Lemma round_guarded no_zeroes n : either n ->
  wp (option_round state no_zeroes) (fun r n' => either n' /\ match r with Ok (Some _) => inside tls n' | _ => True end) n.
Proof using Htls.
  intros Hn. apply wp_bind.
  assert (wp (receive read_option_header Closed) (fun _ n' => either n') n) as Hrec.
  { destruct Hn as [Hn|Hn]; [eapply wp_mono; [by apply outside_receive|]|eapply wp_mono; [by apply (stays_receive tls)|]]; intros; [by left|by right]. }
  eapply wp_mono; [exact Hrec|]. intros [h|e] n1 Hn1; [|done]. destruct (negb _); [done|]. apply wp_bind. unfold wp at 1, st_get.
  rewrite Htls. destruct Hn1 as [Hn1|Hn1].
  - rewrite (proj1 Hn1). apply wp_bind. eapply wp_mono; [by apply outside_option|]. by intros [[]|e] n2 H2.
  - rewrite (proj1 Hn1). eapply wp_mono; [by apply stays_plain|]. intros r n2 H2. split; [by right|]. by destruct r as [[]|].
Qed.

Lemma options_guarded fuel no_zeroes n : either n ->
  wp (options state fuel no_zeroes) (fun r n' => either n' /\ match r with Ok _ => inside tls n' | _ => True end) n.
Proof using Htls.
  revert n. induction fuel as [|fuel IH]; intros n Hn; cbn [options]; [done|]. apply wp_bind.
  eapply wp_mono; [by apply round_guarded|]. intros [[lease|]|e] n1 [Hn1 H1]; [done|by apply IH|done].
Qed.

Lemma negotiate_guarded fuel n : outside n ->
  wp (negotiate state fuel) (fun r n' => either n' /\ match r with Ok _ => inside tls n' | _ => True end) n.
Proof using Htls.
  intros Hn. unfold negotiate. apply wp_bind. eapply wp_mono; [apply outside_send; [by left|done]|]. intros r n1 [-> H1].
  apply wp_bind. eapply wp_mono; [by apply outside_receive|]. intros [flags|e] n2 H2; [|split; [by left|done]].
  destruct (negb _); [split; [by left|done]|]. apply options_guarded. by left.
Qed.
End tls_negotiation.

(** A connection just accepted. *)
Definition connected (input : bytes) (peer : SessionIdentity) (l : SessionLeases) : Neg := mkNeg input [] false peer l.

(** C31: on an export with TLS, whatever bytes a client sends, all that leaves
    the server in the open is the greeting, acknowledgements and the demand for
    TLS; a session is granted only inside TLS, and to the certificate the client
    presented when one is required; outside TLS no writable lease is taken. *)
Theorem nbd_tls_required state tls fuel input peer l :
  ss_tls state = Some tls ->
  let '(r, n) := negotiate state fuel (connected input peer l) in
  Forall (fun m => m.1 = true \/ public m.2) (n_out n) /\
  (n_tls n = false -> n_leases n = l) /\
  match r with
  | Ok _ => n_tls n = true /\
      (tls_requires_client_auth tls = true ->
       exists raw plain c, tls_accept tls raw = Some (plain, Some c) /\ n_identity n = ClientCert c)
  | Err _ => True
  end.
Proof.
  intros Htls. pose proof (negotiate_guarded state tls Htls l fuel (connected input peer l)) as Hg.
  specialize (Hg ltac:(split_and!; [done|constructor|done])). unfold wp in Hg.
  destruct (negotiate state fuel (connected input peer l)) as [r n]. destruct Hg as [He Hr]. split_and!.
  - by destruct He as [(_ & ? & _)|(_ & ? & _)].
  - destruct He as [(_ & _ & ?)|(? & _)]; congruence.
  - destruct r; [|done]. by destruct Hr as (? & _ & ?).
Qed.

(** * The writable session *)

(** The leases of an export and the connections that hold one. *)
Inductive lease_event : Type :=
| Connect (who : SessionIdentity)
| Disconnect (i : nat).

Definition lease_step (s : SessionLeases * list SessionLease) (e : lease_event) : SessionLeases * list SessionLease :=
  let '(l, live) := s in
  match e with
  | Connect who =>
      let '(r, l) := acquire who l in (l, match r with Ok lease => live ++ [lease] | Err _ => live end)
  | Disconnect i =>
      match live !! i with Some lease => (release lease l, delete i live) | None => (l, live) end
  end.

Definition run_leases (name : bytes) (events : list lease_event) : SessionLeases * list SessionLease :=
  fold_left lease_step events (SessionLeases_new name false, []).

Record leased (s : SessionLeases * list SessionLease) : Prop := {
  le_rw : sl_read_only s.1 = false;
  le_live : match sl_writable s.1 with
            | None => s.2 = []
            | Some w => s.2 = replicate (Z.to_nat (ws_connections w)) (Some (ws_identity w)) /\ 0 < ws_connections w
            end
}.

Lemma leased_step s e : leased s -> leased (lease_step s e).
Proof.
  intros [Hrw Hl]. destruct s as [l live]; cbn [fst snd] in *. destruct e as [who|i]; cbn [lease_step].
  - unfold acquire. rewrite Hrw. destruct (sl_writable l) as [[w k]|] eqn:Ew; [|by subst live; split]. cbn [ws_identity ws_connections] in *.
    destruct Hl as [-> Hk]. case_bool_decide as Hid; [subst w|split; cbn [fst snd]; [done|by rewrite Ew]].
    split; [done|]. cbn. split; [|lia]. replace (Z.to_nat (k + 1)) with (Z.to_nat k + 1)%nat by lia. by rewrite replicate_add.
  - destruct (live !! i) as [lease|] eqn:Ei; [|by split]. destruct (sl_writable l) as [[w k]|] eqn:Ew; [|by subst live].
    cbn [ws_identity ws_connections] in *. destruct Hl as [-> Hk]. apply lookup_replicate in Ei as [-> Hi]. unfold release. rewrite Ew.
    cbn [ws_identity ws_connections]. rewrite bool_decide_eq_true_2 by done.
    assert (delete i (replicate (Z.to_nat k) (Some w)) = replicate (Z.to_nat (k - 1)) (Some w)) as Ed.
    { rewrite delete_take_drop, take_replicate, drop_replicate, <- replicate_add. f_equal. lia. }
    rewrite Ed. unfold saturating_sub. rewrite Z.max_r by lia. destruct (Z.eqb_spec (k - 1) 0) as [E0|E0]; split; cbn; try done.
    + by rewrite E0.
    + split; [done|lia].
Qed.

Lemma run_leased name events : leased (run_leases name events).
Proof.
  unfold run_leases. assert (leased (SessionLeases_new name false, [])) as H0 by by split.
  revert H0. generalize (SessionLeases_new name false, @nil SessionLease). induction events as [|e events IH]; intros s Hs; [done|].
  by apply IH, leased_step.
Qed.

(** Whatever clients connect to and leave a writable export, the sessions
    open at any time all belong to one client; a client is turned away exactly
    when a session of another is open. *)
Theorem nbd_single_writer name events :
  let '(l, live) := run_leases name events in
  (forall a b, a ∈ live -> b ∈ live -> a = b) /\
  (forall who, (exists message, (acquire who l).1 = Err message) <-> exists other, other <> who /\ Some other ∈ live).
Proof.
  pose proof (run_leased name events) as [Hrw Hl]. destruct (run_leases name events) as [l live]. cbn [fst snd] in *.
  destruct (sl_writable l) as [[w k]|] eqn:Ew; cbn [ws_identity ws_connections] in *.
  - destruct Hl as [-> Hk]. assert (forall a, a ∈ replicate (Z.to_nat k) (Some w) <-> a = Some w) as Hin.
    { intros a. rewrite elem_of_replicate. split; [by intros [? _]|intros ->; split; [done|lia]]. }
    split; [intros a b Ha%Hin Hb%Hin; congruence|]. intros who. unfold acquire. rewrite Hrw, Ew. cbn [ws_identity].
    case_bool_decide as Hid; split.
    + by intros [].
    + intros (other & Hne & [= ->]%Hin). done.
    + intros _. exists w. split; [done|by apply Hin].
    + intros _. by eexists.
  - subst live. split; [by intros a b Ha%elem_of_nil|]. intros who. unfold acquire. rewrite Hrw, Ew.
    split; [by intros []|by intros (? & _ & H%elem_of_nil)].
Qed.
