(* ===== verification/NbdSpec.v ===== *)
(** A session of the NBD server on a block volume answers as an array of bytes
    would. *)

From S2P Require Import Prelude Keys Meta Store Data Quota Locks Volume Fsck Block BlockThm BlockOps BlockTrim BlockSpec Nbd.

(** ** Requests off the wire *)

(** The fields of a request are within their widths. *)
Definition header_ok (h : RequestHeader) : Prop := is_u64 (rq_offset h) /\ is_u32 (rq_length h).
Definition job_ok (g : BlockGeometry) (j : Job) : Prop :=
  match j with
  | Refuse _ _ => True
  | Execute h payload => header_ok h /\ validate_request h g = None /\ len (default [] payload) = if rq_command h =? NBD_CMD_WRITE then rq_length h else 0
  end.

Lemma read_exact_spec n input b rest : 0 <= n -> read_exact n input = Some (b, rest) -> input = b ++ rest /\ len b = n.
Proof.
  intros Hn. unfold read_exact. destruct (Z.leb_spec n (len input)) as [Hle|]; [|done]. intros [= <- <-]. rewrite take_drop. split; [done|].
  unfold len in *. rewrite length_take. lia.
Qed.

Lemma read_header_spec input h rest : Forall is_u8 input -> read_request_header input = Some (h, rest) ->
  header_ok h /\ Forall is_u8 rest /\ (length rest < length input)%nat.
Proof.
  intros Hu. unfold read_request_header. destruct (read_exact 28 input) as [[b r]|] eqn:E; [|done].
  apply read_exact_spec in E as [-> Hl]; [|lia]. apply Forall_app in Hu as [Hb Hr]. intros [= <- <-]. split_and!; [|done|].
  - pose proof (from_be_bound _ 8 (slice_bytes b 16 24 Hb) (slice_short _ _ _)) as H1.
    pose proof (from_be_bound _ 4 (slice_bytes b 24 28 Hb) (slice_short _ _ _)) as H2. by split.
  - rewrite length_app. unfold len in Hl. lia.
Qed.

Lemma read_request_spec g input job rest : Forall is_u8 input -> read_request g input = inl (job, rest) ->
  job_ok g job /\ Forall is_u8 rest /\ (length rest < length input)%nat.
Proof.
  intros Hu. unfold read_request. destruct (read_request_header input) as [[h r]|] eqn:E; [|done].
  apply read_header_spec in E as (Hh & Hr & Hlt); [|done]. destruct (negb _); [done|]. destruct (rq_command h =? NBD_CMD_DISC); [done|].
  destruct (Z.eqb_spec (rq_command h) NBD_CMD_WRITE) as [Hw|Hw].
  - destruct (read_exact (rq_length h) r) as [[data r']|] eqn:E; [|done].
    apply read_exact_spec in E as [-> Hl]; [|apply Hh]. apply Forall_app in Hr as [_ Hr]. rewrite length_app in Hlt.
    intros [= <- <-]. split_and!; [|done|lia]. destruct (_ <? _); [done|]. destruct (validate_request h g) eqn:Ev; [done|].
    split_and!; [done..|]. by rewrite (proj2 (Z.eqb_eq _ _) Hw).
  - intros [= <- <-]. split_and!; [|done|done]. destruct (validate_request h g) eqn:Ev; [done|].
    split_and!; [done..|]. by rewrite (proj2 (Z.eqb_neq _ _) Hw).
Qed.

(** The reader ends, with fuel for a request per byte. *)
Lemma read_requests_spec fuel g input : Forall is_u8 input -> (length input < fuel)%nat ->
  Forall (job_ok g) (read_requests fuel g input).1 /\ (read_requests fuel g input).2 <> ReadFuel.
Proof.
  revert input. induction fuel as [|fuel IH]; intros input Hu Hf; [lia|]. cbn [read_requests].
  destruct (read_request g input) as [[job rest]|e] eqn:E.
  - apply read_request_spec in E as (Hj & Hr & Hlt); [|done]. destruct (IH rest Hr ltac:(lia)) as [H1 H2].
    destruct (read_requests fuel g rest) as [jobs e]. split; [by constructor|done].
  - split; [constructor|]. unfold read_request in E. repeat case_match; simplify_eq; done.
Qed.

(** ** The disk as a device *)

Definition disk_dev (g : BlockGeometry) : BlockDev disk :=
  let op c : ST disk (Halt FsError) bytes := fun d => let '(r, d) := disk_exec (g_size_bytes g) c d in (map_err Raise r, d) in
  {| bd_geometry := fun _ => g;
     bd_read off n := op (BRead off n);
     bd_write off data fua := op (BWrite off data fua) ;;; st_ret tt;
     bd_flush := op BFlush ;;; st_ret tt;
     bd_trim off n := op (BTrim off n) ;;; st_ret tt;
     bd_write_zeroes off n fua := op (BZeroes off n fua) ;;; st_ret tt |}.

Lemma disk_dev_exec g c d :
  exec (disk_dev g) c d = (map_err Raise (disk_exec (g_size_bytes g) c d).1, (disk_exec (g_size_bytes g) c d).2).
Proof. destruct c; cbn; repeat case_match; done. Qed.

Section simulation.
Context {DB : SlateDB} (fuel : nat) (g : BlockGeometry) (rate_limited : bool).
Context (Hfuel : g_size_bytes g / chunk_size g + 2 < Z.of_nat fuel).

Definition twins (t : Tx (S := BlockVolume)) (t0 : Tx (S := disk)) : Prop :=
  holds_disk (tx_dev t) (tx_dev t0) /\ b_geometry (tx_dev t) = g /\ tx_admits t = tx_admits t0.

(** The same answer on the volume as on the disk, and both stay alike. *)
Definition agree {A} (m : TM (S := BlockVolume) A) (m0 : TM (S := disk) A) : Prop :=
  forall t t0, twins t t0 -> (m t).1 = (m0 t0).1 /\ twins (m t).2 (m0 t0).2.

Lemma agree_bind {A B} (m : TM A) m0 (f f0 : A -> TM B) :
  agree m m0 -> (forall a, agree (f a) (f0 a)) -> agree (st_bind m f) (st_bind m0 f0).
Proof.
  intros Hm Hf t t0 Ht. destruct (Hm t t0 Ht) as [E Ht1]. unfold st_bind.
  destruct (m t) as [r t1], (m0 t0) as [r0 t01]. cbn [fst snd] in *. subst r0. destruct r; [by apply Hf|done].
Qed.
Lemma agree_ret {A} (a : A) : agree (st_ret a) (st_ret a).
Proof. by intros t t0 Ht. Qed.
Lemma agree_fail {A} e : agree (st_fail e : TM A) (st_fail e).
Proof. by intros t t0 Ht. Qed.
Lemma agree_wait : agree (wait_for_rate_limit rate_limited) (wait_for_rate_limit rate_limited).
Proof.
  intros t t0 Ht. unfold wait_for_rate_limit. destruct rate_limited; [|done]. unfold st_bind, st_get.
  pose proof Ht as (Hk & Hg & ->). destruct (tx_admits t0) as [|[] l]; (split; [done|]); [done|by split_and!..].
Qed.

(** An operation of the device. *)
Lemma agree_exec c : bcmd_ok c ->
  agree (device (exec (BlockVolume_dev no_task fuel) c)) (device (exec (disk_dev g) c)).
Proof using Hfuel.
  intros Hc t t0 (Hk & Hg & Ha). pose proof (exec_disk fuel c _ _ Hk Hc ltac:(by rewrite Hg)) as Hx. rewrite Hg in Hx.
  unfold device. unfold wp, follows in Hx. destruct (exec _ c (tx_dev t)) as [r v'].
  rewrite disk_dev_exec.
  destruct (disk_exec _ c _) as [r0 d']. destruct Hx as (-> & Hk' & Hg'). cbn. split; [done|]. split_and!; [done|cbn; congruence|done].
Qed.

(** An operation that answers nothing. *)
Lemma exec_unit {S} (m : ST S (Halt FsError) unit) (t : Tx (S := S)) :
  (device (m ;;; st_ret (@nil Z)) ;;; st_ret tt) t = device m t.
Proof. unfold device, st_bind. by destruct (m (tx_dev t)) as [[[]|e] s]. Qed.

Lemma agree_unit c (m : ST BlockVolume (Halt FsError) unit) (m0 : ST disk (Halt FsError) unit) : bcmd_ok c ->
  exec (BlockVolume_dev no_task fuel) c = (m ;;; st_ret []) -> exec (disk_dev g) c = (m0 ;;; st_ret []) -> agree (device m) (device m0).
Proof using Hfuel.
  intros Hc E E0 t t0 Ht. rewrite <- (exec_unit m), <- (exec_unit m0), <- E, <- E0.
  apply agree_bind; [by apply agree_exec|intros; apply agree_ret|done].
Qed.

Lemma agree_run h payload : header_ok h -> is_u64 (len (default [] payload)) ->
  agree (run_request (BlockVolume_dev no_task fuel) rate_limited h payload) (run_request (disk_dev g) rate_limited h payload).
Proof using Hfuel.
  intros [Ho Hn]. assert (is_u64 (rq_length h)) as Hn' by (unfold is_u64, is_u32 in *; lia).
  unfold run_request. cbv zeta. generalize (default [] payload) as data. intros data Hd. repeat case_match; repeat (apply agree_bind; [|intros]);
    try apply agree_ret; try apply agree_fail; try apply agree_wait.
  - by apply (agree_exec (BRead (rq_offset h) (rq_length h))).
  - by apply (agree_unit (BWrite (rq_offset h) data (fua h))).
  - by apply (agree_unit BFlush).
  - by apply (agree_unit (BTrim (rq_offset h) (rq_length h))).
  - by apply (agree_unit BFlush).
  - by apply (agree_unit (BTrim (rq_offset h) (rq_length h))).
  - by apply (agree_unit (BZeroes (rq_offset h) (rq_length h) (fua h))).
Qed.

End simulation.

(** ** The reference *)

Definition job_handle (j : Job) : u64 := match j with Refuse handle _ => handle | Execute h _ => rq_handle h end.

(** What a request that was let through does to an array of bytes, and what it
    answers. *)
Definition reference (j : Job) (d : disk) : Response * disk :=
  match j with
  | Refuse handle error => (Response_error handle error false, d)
  | Execute h payload =>
      let data := default [] payload in
      let within x := (rq_offset h <=? x) && (x <? rq_offset h + rq_length h) in
      let done answer d := ({| rs_handle := rq_handle h; rs_error := 0; rs_data := answer; rs_fatal := false |}, d) in
      if rq_command h =? NBD_CMD_READ then done (Some (d <$> seqZ (rq_offset h) (rq_length h))) d
      else if rq_command h =? NBD_CMD_WRITE then done None (fun x => if within x then byte_at data (x - rq_offset h) else d x)
      else if (rq_command h =? NBD_CMD_TRIM) || (rq_command h =? NBD_CMD_WRITE_ZEROES) then done None (fun x => if within x then 0 else d x)
      else done None d
  end.

Fixpoint reference_all (js : list Job) (d : disk) : list Response * disk :=
  match js with
  | [] => ([], d)
  | j :: js => let '(r, d) := reference j d in let '(rs, d) := reference_all js d in (r :: rs, d)
  end.

Lemma reference_handles js d : rs_handle <$> (reference_all js d).1 = job_handle <$> js.
Proof.
  revert d. induction js as [|j js IH]; intros d; [done|]. cbn [reference_all].
  assert (rs_handle (reference j d).1 = job_handle j) as Hh by (destruct j; cbn; repeat case_match; done).
  destruct (reference j d) as [r d']. specialize (IH d'). destruct (reference_all js d') as [rs d'']. cbn in *. by rewrite Hh, IH.
Qed.

(** A request that is let through is one of the commands, and within the device. *)
Lemma validated h g : header_ok h -> validate_request h g = None ->
  rq_command h = NBD_CMD_FLUSH \/
  (rq_command h ∈ [NBD_CMD_READ; NBD_CMD_WRITE; NBD_CMD_TRIM; NBD_CMD_CACHE; NBD_CMD_WRITE_ZEROES] /\
   rq_offset h + rq_length h <= g_size_bytes g).
Proof.
  intros [Ho Hn]. unfold validate_request, validate_extent, checked_add_u64. cbv zeta.
  repeat case_match; try done; intros; rewrite ?Z.eqb_eq in *; simplify_eq; try (by left); right;
    (split; [set_solver|]); repeat match goal with H : _ && _ = true |- _ => apply andb_true_iff in H as [? ?] end; lia.
Qed.

Lemma disk_run g h payload d a : job_ok g (Execute h payload) ->
  execute_request (disk_dev g) false h payload (mkTx d a) =
    (Some (reference (Execute h payload) d).1, mkTx (reference (Execute h payload) d).2 a).
Proof.
  intros (Hh & Hv & Hl). pose proof (validated h g Hh Hv) as Hc. unfold execute_request, run_request, reference. cbv zeta.
  destruct Hc as [Hc|[Hc Hle]].
  { rewrite Hc. cbn. done. }
  apply Z.leb_le in Hle. rewrite !elem_of_cons, elem_of_nil in Hc.
  destruct Hc as [Hc|[Hc|[Hc|[Hc|[Hc|[]]]]]]; rewrite Hc in Hl |- *; cbn in Hl |- *; unfold device, st_bind; cbn; rewrite ?Hl, ?Hle; try done.
  by destruct (fua h).
Qed.

Section session.
Context {DB : SlateDB} (fuel : nat) (g : BlockGeometry).
Context (Hfuel : g_size_bytes g / chunk_size g + 2 < Z.of_nat fuel).

Lemma job_refines j v d a : job_ok g j -> holds_disk v d -> b_geometry v = g ->
  exists v', run_job (BlockVolume_dev no_task fuel) false j (mkTx v a) = (Some (reference j d).1, mkTx v' a) /\
    holds_disk v' (reference j d).2 /\ b_geometry v' = g.
Proof using Hfuel.
  intros Hj Hk Hg. destruct j as [handle error|h payload]; [by exists v|]. pose proof (disk_run g h payload d a Hj) as Hd.
  destruct Hj as (Hh & Hv & Hl). assert (is_u64 (len (default [] payload))) as Hp.
  { rewrite Hl. destruct Hh as [_ Hn]. unfold is_u64, is_u32 in *. case_match; lia. }
  destruct (agree_run fuel g false Hfuel h payload Hh Hp (mkTx v a) (mkTx d a) ltac:(by split_and!)) as [E Ht].
  cbn [run_job]. unfold execute_request in *. destruct (run_request (BlockVolume_dev _ _) _ _ _ _) as [r [v' a']].
  destruct (run_request (disk_dev g) _ _ _ _) as [r0 t0]. cbn [fst snd] in *. subst r0. injection Hd as Hr Et. subst t0.
  destruct Ht as (Hk' & Hg' & Ha'). cbn [tx_dev tx_admits] in *. subst a'. exists v'. by rewrite Hr.
Qed.

Lemma transmit_refines js v d a : Forall (job_ok g) js -> holds_disk v d -> b_geometry v = g ->
  let '(rs, t) := transmit (BlockVolume_dev no_task fuel) false js (mkTx v a) in
  rs = (reference_all js d).1 /\ holds_disk (tx_dev t) (reference_all js d).2.
Proof using Hfuel.
  intros Hjs. revert v d. induction Hjs as [|j js Hj _ IH]; intros v d Hk Hg; [done|]. cbn [transmit reference_all].
  destruct (job_refines j v d a Hj Hk Hg) as (v' & -> & Hk' & Hg').
  assert (rs_fatal (reference j d).1 = false) as -> by (destruct j; cbn; repeat case_match; done).
  destruct (reference j d) as [r d']. cbn [fst snd] in *. specialize (IH v' d' Hk' Hg').
  destruct (transmit (BlockVolume_dev no_task fuel) false js (mkTx v' a)) as [rs t], (reference_all js d') as [rs0 d''].
  destruct IH as [-> ?]. done.
Qed.
End session.

(** C17: a session on a block volume free of faults and limits: whatever the
    client sends, in whatever order the tasks of its requests run, each request
    is answered once under its handle; one that is let through gets the answer
    an array of bytes gives, and the volume ends with the bytes of the array. *)
Theorem nbd_refines_disk `{DB : SlateDB} fuel v d admits input js :
  holds_disk v d -> Forall is_u8 input -> g_size_bytes (b_geometry v) / chunk_size (b_geometry v) + 2 < Z.of_nat fuel ->
  js ≡ₚ (read_requests (S (length input)) (b_geometry v) input).1 ->
  let '(rs, t) := transmit (BlockVolume_dev no_task fuel) false js (mkTx v admits) in
  let '(rs0, d') := reference_all js d in
  simple_reply <$> rs = simple_reply <$> rs0 /\ rs_handle <$> rs = job_handle <$> js /\ holds_disk (tx_dev t) d'.
Proof.
  intros Hk Hu Hf Hjs. destruct (read_requests_spec (S (length input)) (b_geometry v) input Hu ltac:(lia)) as [Hok _].
  rewrite <- Hjs in Hok. pose proof (transmit_refines fuel (b_geometry v) Hf js v d admits Hok Hk eq_refl) as H.
  pose proof (reference_handles js d) as Hh.
  destruct (transmit (BlockVolume_dev no_task fuel) false js _) as [rs t], (reference_all js d) as [rs0 d']. by destruct H as [-> ?].
Qed.
