(* ===== verification/NbdWitness.v ===== *)
(** The theorems on the NBD server applied to concrete connections. *)

From S2P Require Import Prelude Keys Meta Store Data Quota Locks Volume Fsck Block BlockThm BlockOps BlockTrim BlockSpec BlockLife BlockWitness.
From S2P Require Import Mount Concrete Nbd NbdThm NbdSpec.

(** ** A session behind TLS *)

Definition option_bytes (option : u32) (payload : bytes) : bytes := to_be 8 IHAVEOPT ++ to_be 4 option ++ to_be 4 (len payload) ++ payload.
Definition go_bytes (name : bytes) : bytes := option_bytes NBD_OPT_GO (to_be 4 (len name) ++ name ++ to_be 2 0).

(** An acceptor that lets every client in with the certificate 9, over the
    bytes as they are. *)
Definition demo_tls : NbdTlsConfig := {| tls_requires_client_auth := true; tls_accept := fun raw => Some (raw, Some [9]) |}.
Definition demo_geometry : BlockGeometry :=
  {| g_size_bytes := 4096; g_min_block := 512; g_preferred_block := 512; g_max_payload := MAX_PAYLOAD; g_read_only := false |}.
Definition demo_state : ServerState := {| ss_export_name := [118]; ss_geometry := demo_geometry; ss_tls := Some demo_tls |}.

(** The client tries to go, is told to start TLS, does, and goes. *)
Definition demo_client : bytes := to_be 4 3 ++ go_bytes [118] ++ option_bytes NBD_OPT_STARTTLS [] ++ go_bytes [118].

Lemma nbd_tls_required_witness : exists n,
  negotiate demo_state 9 (connected demo_client (Ip [49]) (SessionLeases_new [118] false)) = (Ok (Some (ClientCert [9])), n) /\
  n_tls n = true /\ Forall (fun m => m.1 = true \/ public m.2) (n_out n).
Proof.
  pose proof (nbd_tls_required demo_state demo_tls 9 demo_client (Ip [49]) (SessionLeases_new [118] false) eq_refl) as H.
  destruct (negotiate demo_state 9 _) as [r n] eqn:E. assert (r = Ok (Some (ClientCert [9]))) as Hr by (vm_compute in E; congruence).
  subst r. exists n. destruct H as (H1 & _ & H2 & _). split; [reflexivity|]. split; assumption.
Defined.

(** ** A session on a block volume *)

Definition request_bytes (command : u16) (handle offset : u64) (length : u32) (payload : bytes) : bytes :=
  to_be 4 REQUEST_MAGIC ++ to_be 2 0 ++ to_be 2 command ++ to_be 8 handle ++ to_be 8 offset ++ to_be 4 length ++ payload.

(** Write over a chunk boundary, read it back, read beyond the end. *)
Definition disk_client : bytes :=
  request_bytes NBD_CMD_WRITE 1 510 3 [1; 2; 3] ++ request_bytes NBD_CMD_READ 2 509 5 [] ++ request_bytes NBD_CMD_READ 3 4095 2 [].

Lemma disk_client_bytes : Forall is_u8 disk_client.
Proof.
  apply Forall_forall. intros b Hb. assert (forallb (fun b => (0 <=? b) && (b <? 256)) disk_client = true) as H by (vm_compute; reflexivity).
  rewrite forallb_forall in H. specialize (H b (proj1 (list_elem_of_In _ _) Hb)). unfold is_u8. lia.
Qed.

(** Its requests, in another order than they came. *)
Definition disk_geometry : BlockGeometry := bs_g (open_state disk_record disk_size (mkfs_store disk_record ZERO)).
Definition disk_jobs : list Job := match (read_requests (S (length disk_client)) disk_geometry disk_client).1 with a :: b :: c => a :: c ++ [b] | l => l end.

Lemma disk_jobs_read : disk_jobs ≡ₚ (read_requests (S (length disk_client)) (b_geometry disk0) disk_client).1.
Proof.
  rewrite disk0_geometry. fold disk_geometry. unfold disk_jobs. destruct (read_requests _ disk_geometry disk_client).1 as [|a [|b c]]; [done..|].
  apply perm_skip. symmetry. apply Permutation_cons_append.
Qed.

Definition disk_replies : list bytes :=
  [to_be 4 SIMPLE_REPLY_MAGIC ++ to_be 4 0 ++ to_be 8 1;
   to_be 4 SIMPLE_REPLY_MAGIC ++ to_be 4 NBD_EINVAL ++ to_be 8 3;
   to_be 4 SIMPLE_REPLY_MAGIC ++ to_be 4 0 ++ to_be 8 2 ++ [0; 1; 2; 3; 0]].

Lemma nbd_refines_disk_witness : exists rs t,
  transmit (BlockVolume_dev no_task 20) false disk_jobs (mkTx disk0 []) = (rs, t) /\ map simple_reply rs = disk_replies.
Proof.
  pose proof (nbd_refines_disk 20 disk0 _ [] disk_client disk_jobs disk0_holds disk_client_bytes disk0_fuel disk_jobs_read) as H.
  destruct (transmit (BlockVolume_dev no_task 20) false disk_jobs (mkTx disk0 [])) as [rs t].
  exists rs, t. split; [reflexivity|]. destruct (reference_all disk_jobs _) as [rs0 d'] eqn:E0. destruct H as (H & _ & _).
  etrans; [exact H|]. assert (rs0 = (reference_all disk_jobs (fun _ => 0)).1) as -> by exact (eq_sym (f_equal fst E0)). vm_compute. reflexivity.
Defined.
