(* ===== verification/NfsFh.v ===== *)
(** NFS file handles: [slatefs-nfs/src/fh.rs], whose handles carry a truncated
    HMAC of the volume, the inode and its generation, and the wrapper of
    [nfs3-server/src/vfs/handle.rs] that prefixes them with the listener's
    generation number.

    HMAC-SHA256 is a parameter. A handle is accepted exactly when the server
    would mint it: what a client must do to forge one is to guess a MAC. *)

From S2P Require Import Prelude.

(** [hmac::Hmac<sha2::Sha256>]: a function of the key and the message whose
    value is 32 bytes. *)
Class HmacSha256 := {
  hmac_sha256 : bytes -> bytes -> bytes;
  hmac_length : forall key msg, length (hmac_sha256 key msg) = 32%nat;
  hmac_bytes : forall key msg, Forall is_u8 (hmac_sha256 key msg)
}.

(** * Handles of a volume *)

Definition VERSION : u8 := 1.
Definition MAC_LEN : usize := 16.
Definition FH_LEN : usize := 1 + 8 + 8 + 4 + MAC_LEN.

(** [SlateFsHandle]: an array of [FH_LEN] bytes. *)
Record SlateFsHandle : Type := { raw : bytes }.

#[global] Instance handle_eq_dec : EqDecision SlateFsHandle.
Proof. solve_decision. Defined.

Definition fh_ino (h : SlateFsHandle) : u64 := from_be (slice (raw h) 9 17).
Definition fh_fsid (h : SlateFsHandle) : u64 := from_be (slice (raw h) 1 9).
Definition fh_generation (h : SlateFsHandle) : u32 := from_be (slice (raw h) 17 21).

Definition fh_from_bytes (b : bytes) : option SlateFsHandle :=
  if len b =? FH_LEN then if byte_at b 0 =? VERSION then Some {| raw := b |} else None else None.

(** [subtle_eq::ct_eq] *)
Definition ct_eq (a b : bytes) : bool :=
  if negb (len a =? len b) then false
  else foldl (fun acc p => Z.lor acc (Z.lxor p.1 p.2)) 0 (zip a b) =? 0.

Record FhCodec : Type := { fc_fsid : u64; fc_key : bytes }.

Section codec.
Context `{HM : HmacSha256}.

Definition fh_mac (c : FhCodec) (payload : bytes) : bytes := slice (hmac_sha256 (fc_key c) payload) 0 MAC_LEN.

Definition fh_make (c : FhCodec) (ino : u64) (generation : u32) : SlateFsHandle :=
  let r := zeros FH_LEN in
  let r := splice r 0 [VERSION] in
  let r := splice r 1 (to_be 8 (fc_fsid c)) in
  let r := splice r 9 (to_be 8 ino) in
  let r := splice r 17 (to_be 4 generation) in
  let mac := fh_mac c (slice r 0 21) in
  {| raw := splice r 21 mac |}.

Definition fh_verify (c : FhCodec) (h : SlateFsHandle) : option u64 :=
  let expected := fh_mac c (slice (raw h) 0 21) in
  let ok := ct_eq expected (slice (raw h) 21 (len (raw h))) in
  if ok && (fh_fsid h =? fc_fsid c) then Some (fh_ino h) else None.
End codec.

(** * Handles on the wire *)

Inductive HandleError : Type := HBadHandle | HStale.

(** [FileHandleConverter], with the verifier of the server instance. *)
Record FileHandleConverter : Type := { generation_number : u64; instance_verf : bytes }.

Definition fh_to_nfs (cv : FileHandleConverter) (id : SlateFsHandle) : bytes := to_le 8 (generation_number cv) ++ raw id.

Definition check_handle (cv : FileHandleConverter) (data : bytes) : result HandleError unit :=
  if len data <? 8 then Err HBadHandle
  else if bool_decide (slice data 0 8 = to_le 8 (generation_number cv)) then Ok tt
  else if from_le (slice data 0 8) <? generation_number cv then Err HStale else Err HBadHandle.

Definition fh_from_nfs (cv : FileHandleConverter) (data : bytes) : result HandleError SlateFsHandle :=
  match check_handle cv data with
  | Err e => Err e
  | Ok _ => ok_or (fh_from_bytes (slice data 8 (len data))) HBadHandle
  end.

(** * The layout *)

Lemma slice_app_l (a b : bytes) n : len a = n -> slice (a ++ b) 0 n = a.
Proof. intros <-. unfold slice, len. rewrite Z.sub_0_r, Nat2Z.id, drop_0. by rewrite take_app_length. Qed.
Lemma slice_after (a b : bytes) n m : len a = n -> n <= m -> slice (a ++ b) n m = slice b 0 (m - n).
Proof. intros <- Hm. unfold slice, len. rewrite Nat2Z.id, drop_app_length, Z.sub_0_r. by rewrite drop_0. Qed.
Lemma slice_app_mid (a b c : bytes) n m : len a = n -> n + len b = m -> slice (a ++ b ++ c) n m = b.
Proof. intros Ha Hb. pose proof (len_nonneg b). rewrite (slice_after a) by lia. apply slice_app_l. lia. Qed.
Lemma slice_all (a : bytes) : slice a 0 (len a) = a.
Proof. rewrite <- (app_nil_r a) at 1. by apply slice_app_l. Qed.
Lemma slice_cat (a : bytes) x y z : 0 <= x <= y -> y <= z -> slice a x z = slice a x y ++ slice a y z.
Proof.
  intros Hx Hy. unfold slice. replace (drop (Z.to_nat y) a) with (drop (Z.to_nat (y - x)) (drop (Z.to_nat x) a)) by (rewrite drop_drop; f_equal; lia).
  rewrite take_take_drop. f_equal. lia.
Qed.

Lemma splice_at (a b c d : bytes) n : len a = n -> len b = len d -> splice (a ++ b ++ c) n d = a ++ d ++ c.
Proof.
  intros <- Hb. unfold splice, len in *. rewrite Nat2Z.id, take_app_length. f_equal. f_equal.
  replace (length a + length d)%nat with (length (a ++ b)) by (rewrite length_app; lia). rewrite app_assoc. apply drop_app_length.
Qed.

Section layout.
Context `{HM : HmacSha256}.
Implicit Types (c : FhCodec) (h : SlateFsHandle).

(** What the MAC covers. *)
Definition payload c (ino : u64) (generation : u32) : bytes := VERSION :: to_be 8 (fc_fsid c) ++ to_be 8 ino ++ to_be 4 generation.

Lemma len_payload c ino generation : len (payload c ino generation) = 21.
Proof. unfold payload. rewrite len_cons, !len_app, !len_to_be. done. Qed.
Lemma len_mac c p : len (fh_mac c p) = MAC_LEN.
Proof. apply len_slice; [done|]. unfold len. rewrite hmac_length. done. Qed.

Lemma raw_make c ino generation :
  raw (fh_make c ino generation) = payload c ino generation ++ fh_mac c (payload c ino generation).
Proof.
  unfold fh_make, payload. cbv zeta. set (F := to_be 8 (fc_fsid c)). set (I := to_be 8 ino). set (G := to_be 4 generation).
  assert (splice (splice (zeros FH_LEN) 0 [VERSION]) 1 F = ([VERSION] ++ F) ++ zeros 8 ++ zeros 20) as ->.
  { rewrite <- app_assoc. by apply (splice_at [VERSION] (zeros 8) (zeros 28)). }
  rewrite (splice_at ([VERSION] ++ F) (zeros 8) (zeros 20) I) by (subst F I; rewrite ?len_app, ?len_to_be; done).
  change (zeros 20) with (zeros 4 ++ zeros 16). rewrite (app_assoc _ I), (splice_at _ (zeros 4) (zeros 16) G) by (subst F I G; rewrite ?len_app, ?len_to_be; done).
  rewrite (app_assoc _ G), <- (app_nil_r (zeros 16)).
  assert (len ((([VERSION] ++ F) ++ I) ++ G) = 21) as Hl by (subst F I G; rewrite ?len_app, ?len_to_be; done).
  rewrite (slice_app_l _ (zeros 16 ++ []) 21 Hl).
  rewrite (splice_at ((([VERSION] ++ F) ++ I) ++ G) (zeros 16) [] _ 21 Hl) by (by rewrite len_mac). cbn [raw]. by rewrite app_nil_r, <- !app_assoc.
Qed.

Lemma ct_eq_acc a b acc : 0 <= acc -> Forall is_u8 a -> Forall is_u8 b -> length a = length b ->
  foldl (fun acc p => Z.lor acc (Z.lxor p.1 p.2)) acc (zip a b) = 0 <-> acc = 0 /\ a = b.
Proof.
  revert b acc. induction a as [|x a IH]; intros [|y b] acc Hacc Ha Hb Hl; try done; [cbn; naive_solver|].
  apply Forall_cons in Ha as [Hx Ha], Hb as [Hy Hb]. cbn [zip zip_with foldl fst snd]. unfold is_u8 in *.
  assert (0 <= Z.lxor x y) by (apply Z.lxor_nonneg; lia).
  rewrite IH; [|by apply Z.lor_nonneg|done..|by injection Hl]. rewrite Z.lor_eq_0_iff, Z.lxor_eq_0_iff. naive_solver.
Qed.
Lemma ct_eq_spec a b : Forall is_u8 a -> Forall is_u8 b -> ct_eq a b = true <-> a = b.
Proof.
  intros Ha Hb. unfold ct_eq. destruct (Z.eqb_spec (len a) (len b)) as [Hl|Hl]; cbn [negb].
  - rewrite Z.eqb_eq, ct_eq_acc by (done || (unfold len in Hl; lia)). naive_solver.
  - split; [done|]. by intros ->.
Qed.

Lemma mac_bytes c p : Forall is_u8 (fh_mac c p).
Proof. apply slice_bytes, hmac_bytes. Qed.

(** A handle of the right shape is its fields and its MAC. *)
Lemma raw_fields (b : bytes) h : fh_from_bytes b = Some h -> Forall is_u8 b ->
  raw h = b /\ b = VERSION :: to_be 8 (fh_fsid h) ++ to_be 8 (fh_ino h) ++ to_be 4 (fh_generation h) ++ slice b 21 (len b) /\
  slice b 0 21 = VERSION :: to_be 8 (fh_fsid h) ++ to_be 8 (fh_ino h) ++ to_be 4 (fh_generation h).
Proof.
  unfold fh_from_bytes. destruct (Z.eqb_spec (len b) FH_LEN) as [Hl|]; [|done]. destruct (Z.eqb_spec (byte_at b 0) VERSION) as [Hv|]; [|done].
  intros [= <-] Hb. unfold FH_LEN, MAC_LEN in Hl. split; [done|].
  assert (forall x y n, 0 <= x <= y -> y <= len b -> y - x = Z.of_nat n -> to_be n (from_be (slice b x y)) = slice b x y) as Hf.
  { intros x y n ???. apply to_be_from_be; [by apply slice_bytes|]. apply Nat2Z.inj. fold (len (slice b x y)). rewrite len_slice; lia. }
  unfold fh_fsid, fh_ino, fh_generation. cbn [raw]. rewrite !Hf by lia.
  assert (slice b 0 21 = VERSION :: slice b 1 9 ++ slice b 9 17 ++ slice b 17 21) as E.
  { rewrite (slice_cat b 0 1), (slice_cat b 1 9), (slice_cat b 9 17) by lia. destruct b as [|x b]; [done|]. cbn in Hv. by rewrite <- Hv. }
  split; [|done]. rewrite <- (slice_all b) at 1. rewrite (slice_cat b 0 21), E by lia. by rewrite !app_comm_cons, <- !app_assoc.
Qed.

Lemma make_fields c ino generation : is_u64 (fc_fsid c) -> is_u64 ino -> is_u32 generation ->
  let h := fh_make c ino generation in
  fh_from_bytes (raw h) = Some h /\ fh_fsid h = fc_fsid c /\ fh_ino h = ino /\ fh_generation h = generation.
Proof.
  intros Hf Hi Hg h. subst h. unfold fh_from_bytes, fh_fsid, fh_ino, fh_generation. rewrite raw_make, len_app, len_payload, len_mac.
  change (21 + MAC_LEN =? FH_LEN) with true. cbn [payload app byte_at]. unfold payload.
  assert (forall m, VERSION :: (to_be 8 (fc_fsid c) ++ to_be 8 ino ++ to_be 4 generation) ++ m = [VERSION] ++ to_be 8 (fc_fsid c) ++ to_be 8 ino ++ to_be 4 generation ++ m) as E
    by (intros; cbn [app]; by rewrite <- !app_assoc).
  cbn [app]. rewrite E. split_and!.
  - f_equal. destruct (fh_make c ino generation) as [r] eqn:Er. rewrite <- E. f_equal. change r with (raw {| raw := r |}). by rewrite <- Er, raw_make.
  - rewrite (slice_app_mid [VERSION]) by (rewrite ?len_to_be; done). by apply from_be_to_be.
  - rewrite (app_assoc [VERSION]), slice_app_mid by (rewrite ?len_app, ?len_to_be; done). by apply from_be_to_be.
  - rewrite (app_assoc [VERSION]), (app_assoc _ (to_be 8 ino)), slice_app_mid by (rewrite ?len_app, ?len_to_be; done). by apply from_be_to_be.
Qed.

Lemma verify_spec c b h : fh_from_bytes b = Some h -> Forall is_u8 b -> is_u64 (fc_fsid c) ->
  fh_verify c h = if bool_decide (b = raw (fh_make c (fh_ino h) (fh_generation h))) then Some (fh_ino h) else None.
Proof.
  intros Hh Hb Hc. destruct (raw_fields b h Hh Hb) as (Er & E & E21). unfold fh_verify. rewrite Er, E21.
  destruct (Z.eqb_spec (fh_fsid h) (fc_fsid c)) as [Hf|Hf].
  - rewrite Hf, andb_true_r in *. fold (payload c (fh_ino h) (fh_generation h)). rewrite raw_make.
    assert (b = payload c (fh_ino h) (fh_generation h) ++ slice b 21 (len b)) as Eb by (rewrite E at 1; unfold payload; by rewrite !app_comm_cons, <- !app_assoc).
    pose proof (ct_eq_spec (fh_mac c (payload c (fh_ino h) (fh_generation h))) _ (mac_bytes _ _) (slice_bytes b 21 (len b) Hb)) as Hs.
    set (s := slice b 21 (len b)) in *. clearbody s. rewrite Eb. destruct (ct_eq _ s).
    + by rewrite (proj1 Hs eq_refl), bool_decide_eq_true_2.
    + rewrite bool_decide_eq_false_2; [done|]. intros Heq%app_inv_head. by discriminate (proj2 Hs (eq_sym Heq)).
  - rewrite andb_false_r, bool_decide_eq_false_2; [done|]. intros Eb. apply Hf.
    rewrite raw_make in Eb. unfold payload in Eb. rewrite E in Eb. cbn [app] in Eb. rewrite <- !app_assoc in Eb.
    apply (f_equal (@tl Z)) in Eb. cbn [tl] in Eb.
    apply app_inj_1 in Eb as [Eb _]; [|by rewrite !length_to_be]. apply (to_be_inj 8) in Eb; [done| |done].
    unfold fh_fsid. rewrite Er. apply (from_be_bound _ 8); [by apply slice_bytes|]. apply slice_short.
Qed.

(** The fields are within their widths. *)
Lemma fields_ok h : Forall is_u8 (raw h) -> is_u64 (fh_ino h) /\ is_u32 (fh_generation h).
Proof. intros Hb. split; [apply (from_be_bound _ 8)|apply (from_be_bound _ 4)]; (by apply slice_bytes) || apply slice_short. Qed.

Lemma verify_exact c b ino : Forall is_u8 b -> is_u64 (fc_fsid c) ->
  (exists h, fh_from_bytes b = Some h /\ fh_verify c h = Some ino) <->
  exists g, is_u64 ino /\ is_u32 g /\ b = raw (fh_make c ino g).
Proof.
  intros Hb Hc. split.
  - intros (h & Hh & Hv). rewrite (verify_spec c b h) in Hv by done. case_bool_decide as Eb; [|done]. injection Hv as <-.
    exists (fh_generation h). destruct (raw_fields b h Hh Hb) as [Er _]. destruct (fields_ok h) as [? ?]; [by rewrite Er|done].
  - intros (g & Hi & Hg & ->). destruct (make_fields c ino g Hc Hi Hg) as (Hh & _ & Ei & Eg). exists (fh_make c ino g). split; [done|].
    rewrite (verify_spec c _ _ Hh) by done. by rewrite Ei, Eg, bool_decide_eq_true_2.
Qed.

Lemma from_nfs_spec cv data h : is_u64 (generation_number cv) ->
  fh_from_nfs cv data = Ok h <-> exists b, data = to_le 8 (generation_number cv) ++ b /\ fh_from_bytes b = Some h.
Proof.
  intros Hg. unfold fh_from_nfs, check_handle. assert (len (to_le 8 (generation_number cv)) = 8) as L8 by (unfold len; by rewrite length_to_le).
  split.
  - destruct (Z.ltb_spec (len data) 8) as [?|Hl]; [done|]. case_bool_decide as E; [|by destruct (_ <? _)].
    intros Hh. exists (slice data 8 (len data)). split; [|by destruct (fh_from_bytes _); [injection Hh as ->|]].
    rewrite <- E, <- slice_cat by lia. by rewrite slice_all.
  - intros (b & -> & Hh). rewrite len_app, L8. pose proof (len_nonneg b). destruct (Z.ltb_spec (8 + len b) 8); [lia|].
    rewrite slice_app_l, bool_decide_eq_true_2 by done. rewrite slice_after by lia. replace (8 + len b - 8) with (len b) by lia. by rewrite slice_all, Hh.
Qed.

(** C25: on the wire, the handles an export accepts for an inode are exactly the
    handles it mints: the listener's generation, the volume, the inode, a
    generation, and the MAC of these under the server's key. In particular the
    handles of another volume are refused, whatever the key. *)
Theorem nfs_handles_exact cv c data ino : Forall is_u8 data -> is_u64 (fc_fsid c) -> is_u64 (generation_number cv) ->
  ((exists h, fh_from_nfs cv data = Ok h /\ fh_verify c h = Some ino) <->
   exists g, is_u64 ino /\ is_u32 g /\ data = fh_to_nfs cv (fh_make c ino g)) /\
  forall c' i g, is_u64 (fc_fsid c') -> is_u64 i -> is_u32 g -> fc_fsid c' <> fc_fsid c -> fh_verify c (fh_make c' i g) = None.
Proof.
  intros Hd Hc Hcv. split; [split|].
  - intros (h & Hh & Hv). apply from_nfs_spec in Hh as (b & -> & Hh); [|done]. apply Forall_app in Hd as [_ Hb].
    destruct (proj1 (verify_exact c b ino Hb Hc)) as (g & Hi & Hg & ->); [by eauto|]. by exists g.
  - intros (g & Hi & Hg & ->). unfold fh_to_nfs in *. apply Forall_app in Hd as [_ Hb].
    destruct (proj2 (verify_exact c _ ino Hb Hc)) as (h & Hh & Hv); [by eauto|]. exists h. split; [|done]. apply from_nfs_spec; eauto.
  - intros c' i g Hc' Hi Hg Hne. destruct (make_fields c' i g Hc' Hi Hg) as (_ & Ef & _). unfold fh_verify.
    rewrite Ef, (proj2 (Z.eqb_neq _ _) Hne). by rewrite andb_false_r.
Qed.
End layout.
