(* ===== verification/NfsTx.v ===== *)
(** The transaction tracker of the NFS server
    ([nfs3-server/src/transaction_tracker.rs]), which recognises retransmitted
    requests by the client's address and the transaction id.

    The table of a client is shared by the tracker's map and by the locks of
    the requests being served, so clients live in a heap and are named by their
    address in it. Instants and durations are integers; subtracting instants
    saturates at zero. *)

From S2P Require Import Prelude.

Abbreviation u16 := Z (only parsing).
Abbreviation Instant := Z (only parsing).
Abbreviation Duration := Z (only parsing).

Definition as_u16 (x : Z) : u16 := x mod 2 ^ 16.

Inductive TransactionState : Type := InProgress | Completed (at_ : Instant).
Record Transaction : Type := { tx_xid : u32; tx_state : TransactionState }.

Inductive TransactionError : Type := AlreadyExists | TooManyRequests.

(** How an operation fails: with an error, or by a panic. *)
Inductive TxFail : Type := TxError (e : TransactionError) | TxPanic.

Definition in_progress (xid : u32) : Transaction := {| tx_xid := xid; tx_state := InProgress |}.

(** [Transaction::complete]: [None] when the assertion fails. *)
Definition complete (now : Instant) (tx : Transaction) : option Transaction :=
  match tx_state tx with
  | InProgress => Some {| tx_xid := tx_xid tx; tx_state := Completed now |}
  | Completed _ => None
  end.

Definition is_stale (now : Instant) (max_age : Duration) (tx : Transaction) : bool :=
  match tx_state tx with
  | InProgress => false
  | Completed tx_time => max_age <? saturating_sub now tx_time
  end.

Record ClientTransactions : Type := {
  transactions : list Transaction;
  last_active : Instant;
  active_transactions : u16;
  max_active_transactions : u16;
  trim_limit : usize
}.

Definition set_transactions (l : list Transaction) (c : ClientTransactions) : ClientTransactions :=
  {| transactions := l; last_active := last_active c; active_transactions := active_transactions c;
     max_active_transactions := max_active_transactions c; trim_limit := trim_limit c |}.
Definition set_last_active (now : Instant) (c : ClientTransactions) : ClientTransactions :=
  {| transactions := transactions c; last_active := now; active_transactions := active_transactions c;
     max_active_transactions := max_active_transactions c; trim_limit := trim_limit c |}.
Definition set_active (n : u16) (c : ClientTransactions) : ClientTransactions :=
  {| transactions := transactions c; last_active := last_active c; active_transactions := n;
     max_active_transactions := max_active_transactions c; trim_limit := trim_limit c |}.

(** [ClientTransactions::new], whose assertion may fail. *)
Definition new_client (now : Instant) (max_active : u16) (trim : usize) : option ClientTransactions :=
  if max_active <? trim then
    Some {| transactions := []; last_active := now; active_transactions := 0; max_active_transactions := max_active; trim_limit := trim |}
  else None.

(** [VecDeque::binary_search_by_key] on keys in increasing order: the index of
    [xid] ([inl]), or where it would go ([inr]). *)
Fixpoint binary_search (xid : u32) (l : list Transaction) (i : nat) : nat + nat :=
  match l with
  | [] => inr i
  | t :: l => if tx_xid t <? xid then binary_search xid l (S i) else if tx_xid t =? xid then inl i else inr i
  end.

Definition find_transaction (xid : u32) (c : ClientTransactions) : nat + nat :=
  match last (transactions c) with
  | Some last_tx =>
      match tx_xid last_tx ?= xid with
      | Eq => inl (length (transactions c) - 1)%nat
      | Lt => inr (length (transactions c))
      | Gt => binary_search xid (transactions c) 0
      end
  | None => inr O
  end.

(** The loop of [trim_if_needed]. *)
Fixpoint trim (limit : usize) (l : list Transaction) : list Transaction :=
  match l with
  | tx :: l' => if limit <? len l then match tx_state tx with InProgress => l | Completed _ => trim limit l' end else l
  | [] => []
  end.
Definition trim_if_needed (c : ClientTransactions) : ClientTransactions := set_transactions (trim (trim_limit c) (transactions c)) c.

(** The loop of [remove_old_transactions]. *)
Fixpoint drop_stale (now : Instant) (max_age : Duration) (l : list Transaction) : list Transaction :=
  match l with
  | tx :: l' => if is_stale now max_age tx then drop_stale now max_age l' else l
  | [] => []
  end.
Definition remove_old_transactions (now : Instant) (max_age : Duration) (c : ClientTransactions) : ClientTransactions :=
  set_transactions (drop_stale now max_age (transactions c)) c.

Definition add_transaction (xid : u32) (now : Instant) (c : ClientTransactions) : result TransactionError unit * ClientTransactions :=
  let c := set_last_active now c in
  match find_transaction xid c with
  | inl _ => (Err AlreadyExists, c)
  | inr p =>
      if max_active_transactions c <=? active_transactions c then (Err TooManyRequests, c)
      else
        let c := set_active (as_u16 (active_transactions c + 1)) c in
        let c := set_transactions (take p (transactions c) ++ in_progress xid :: drop p (transactions c)) c in
        (Ok tt, trim_if_needed c)
  end.

(** [complete_transaction]: [None] when it panics. *)
Definition complete_transaction (xid : u32) (now : Instant) (c : ClientTransactions) : option ClientTransactions :=
  let c := set_last_active now c in
  match find_transaction xid c with
  | inl p =>
      match transactions c !! p with
      | None => None
      | Some tx =>
          match complete now tx with
          | None => None
          | Some tx => Some (set_active (as_u16 (active_transactions c - 1)) (set_transactions (<[p := tx]> (transactions c)) c))
          end
      end
  | inr _ => Some c
  end.

Definition has_active_transactions (now : Instant) (max_age : Duration) (c : ClientTransactions) : bool :=
  existsb (fun tx => negb (is_stale now max_age tx)) (transactions c).
Definition is_active (now : Instant) (max_age : Duration) (c : ClientTransactions) : bool :=
  if saturating_sub now (last_active c) <? max_age then true else has_active_transactions now max_age c.

(** * The tracker *)

Record Tracker : Type := {
  retention_period : Duration;
  tk_max_active : u16;
  tk_trim_limit : usize;
  tk_map : gmap bytes nat;
  tk_heap : gmap nat ClientTransactions
}.

Definition set_tk (m : gmap bytes nat) (h : gmap nat ClientTransactions) (t : Tracker) : Tracker :=
  {| retention_period := retention_period t; tk_max_active := tk_max_active t; tk_trim_limit := tk_trim_limit t; tk_map := m; tk_heap := h |}.

Definition TransactionTracker_new (retention : Duration) (max_active : u16) (trim : usize) : Tracker :=
  {| retention_period := retention; tk_max_active := max_active; tk_trim_limit := trim; tk_map := ∅; tk_heap := ∅ |}.

(** [TransactionLock]: the client it points to, and the transaction. *)
Record TransactionLock : Type := { lk_client : nat; lk_xid : u32 }.

(** The client behind a pointer adds a transaction. *)
Definition start_in (p : nat) (c : ClientTransactions) (xid : u32) (now : Instant) (t : Tracker) :
    result TxFail TransactionLock * Tracker :=
  let '(r, c) := add_transaction xid now c in
  let t := set_tk (tk_map t) (<[p := c]> (tk_heap t)) t in
  match r with Ok _ => (Ok {| lk_client := p; lk_xid := xid |}, t) | Err e => (Err (TxError e), t) end.

Definition start_transaction (client_addr : bytes) (xid : u32) (now : Instant) (t : Tracker) :
    result TxFail TransactionLock * Tracker :=
  match tk_map t !! client_addr ≫= fun p => pair p <$> tk_heap t !! p with
  | Some (p, c) => start_in p c xid now t
  | None =>
      match new_client now (tk_max_active t) (tk_trim_limit t) with
      | None => (Err TxPanic, t)
      | Some c =>
          let p := fresh (dom (tk_heap t)) in
          start_in p c xid now (set_tk (<[client_addr := p]> (tk_map t)) (tk_heap t) t)
      end
  end.

(** [<TransactionLock as Drop>::drop]; [None] when it panics. *)
Definition drop_lock (l : TransactionLock) (now : Instant) (t : Tracker) : option Tracker :=
  c ← tk_heap t !! lk_client l;
  c ← complete_transaction (lk_xid l) now c;
  Some (set_tk (tk_map t) (<[lk_client l := remove_old_transactions now (retention_period t) c]> (tk_heap t)) t).

(** [cleanup]: an inactive client leaves the map; a lock that points to it still does. *)
Definition cleanup (now : Instant) (t : Tracker) : Tracker :=
  let active (p : nat) : bool := match tk_heap t !! p with Some c => is_active now (retention_period t) c | None => false end in
  let kept := filter (fun e : bytes * nat => active e.2) (tk_map t) in
  let tidy (p : nat) (c : ClientTransactions) :=
    if bool_decide (p ∈ (map_to_list kept).*2) then remove_old_transactions now (retention_period t) c else c in
  set_tk kept (map_imap (fun p c => Some (tidy p c)) (tk_heap t)) t.

(** * The table of a client *)

#[global] Instance tx_state_eq_dec : EqDecision TransactionState.
Proof. solve_decision. Defined.
#[global] Instance tx_eq_dec : EqDecision Transaction.
Proof. solve_decision. Defined.
#[global] Instance tx_lock_eq_dec : EqDecision TransactionLock.
Proof. solve_decision. Defined.

Implicit Types (c : ClientTransactions) (l : list Transaction) (t : Tracker).

Definition xid_lt (a b : Transaction) : Prop := tx_xid a < tx_xid b.

(** The transactions being served. *)
Definition running l : list u32 := tx_xid <$> filter (fun tx => tx_state tx = InProgress) l.

Record client_ok c : Prop := {
  co_sorted : StronglySorted xid_lt (transactions c);
  co_active : active_transactions c = len (running (transactions c));
  co_max : active_transactions c <= max_active_transactions c;
  co_width : 0 <= max_active_transactions c < 2 ^ 16;
  co_trim : max_active_transactions c < trim_limit c
}.

Lemma running_app l1 l2 : running (l1 ++ l2) = running l1 ++ running l2.
Proof. unfold running. by rewrite filter_app, fmap_app. Qed.
Lemma running_cons tx l : running (tx :: l) = (if decide (tx_state tx = InProgress) then [tx_xid tx] else []) ++ running l.
Proof. unfold running. rewrite filter_cons. by case_decide. Qed.
Lemma elem_running x l : x ∈ running l <-> in_progress x ∈ l.
Proof.
  unfold running. rewrite list_elem_of_fmap. split.
  - intros ([y s] & -> & [Hs Hin]%list_elem_of_filter). cbn in Hs. by subst s.
  - intros Hin. exists (in_progress x). split; [done|]. by apply list_elem_of_filter.
Qed.
Lemma finished_running l : Forall (fun tx => tx_state tx <> InProgress) l -> running l = [].
Proof. induction 1 as [|tx l Htx _ IH]; [done|]. rewrite running_cons, decide_False by done. exact IH. Qed.

Lemma sorted_suffix l1 l2 : StronglySorted xid_lt (l1 ++ l2) -> StronglySorted xid_lt l2.
Proof. induction l1 as [|tx l1 IH]; [done|]. cbn. intros [? _]%StronglySorted_inv. by apply IH. Qed.
Lemma sorted_insert l1 tx l2 :
  StronglySorted xid_lt (l1 ++ l2) -> Forall (fun a => xid_lt a tx) l1 -> Forall (xid_lt tx) l2 -> StronglySorted xid_lt (l1 ++ tx :: l2).
Proof.
  induction l1 as [|a l1 IH]; cbn; [by constructor|]. intros [Hs Ha]%StronglySorted_inv [Hlt H1]%Forall_cons H2.
  constructor; [by apply IH|]. apply Forall_app in Ha as [??]. by apply Forall_app; split; [|constructor].
Qed.
Lemma sorted_unique l a b : StronglySorted xid_lt l -> a ∈ l -> b ∈ l -> tx_xid a = tx_xid b -> a = b.
Proof.
  induction 1 as [|tx l _ IH Hall]; [by intros ?%not_elem_of_nil|]. rewrite Forall_forall in Hall. unfold xid_lt in Hall.
  intros [->|Ha]%elem_of_cons [->|Hb]%elem_of_cons E; [done|specialize (Hall _ Hb); lia|specialize (Hall _ Ha); lia|by apply IH].
Qed.
Lemma sorted_running l : StronglySorted xid_lt l -> NoDup (running l).
Proof.
  induction 1 as [|tx l Hs IH Hall]; [constructor|]. rewrite running_cons. case_decide; [|done]. cbn. constructor; [|done].
  intros Hin. apply elem_running in Hin. rewrite Forall_forall in Hall. specialize (Hall _ Hin). unfold xid_lt, in_progress in Hall. cbn in Hall. lia.
Qed.

(** Where a transaction is, or goes. *)
Definition found (xid : u32) l (r : nat + nat) : Prop :=
  match r with
  | inl p => exists tx, l !! p = Some tx /\ tx_xid tx = xid
  | inr p => (p <= length l)%nat /\ Forall (fun tx => tx_xid tx < xid) (take p l) /\ Forall (fun tx => xid < tx_xid tx) (drop p l)
  end.

Lemma binary_search_found xid l i : StronglySorted xid_lt l ->
  exists r, found xid l r /\ binary_search xid l i = match r with inl p => inl (i + p)%nat | inr p => inr (i + p)%nat end.
Proof.
  intros Hs. revert i. induction Hs as [|tx l Hs IH Hall]; intros i; cbn [binary_search].
  { exists (inr O). split; [by split_and!|]. by rewrite Nat.add_0_r. }
  destruct (Z.ltb_spec (tx_xid tx) xid) as [Hlt|Hge].
  - destruct (IH (S i)) as ([p|p] & Hf & ->); cbn [found] in Hf.
    + exists (inl (S p)). split; [done|]. f_equal. lia.
    + exists (inr (S p)). destruct Hf as (? & ? & ?). split; [|f_equal; lia]. cbn. split_and!; [lia|by constructor|done].
  - destruct (Z.eqb_spec (tx_xid tx) xid) as [<-|Hne].
    + exists (inl O). split; [by exists tx|]. f_equal. lia.
    + exists (inr O). split; [|f_equal; lia]. cbn. split_and!; [lia|by constructor|]. constructor; [lia|].
      eapply Forall_impl; [exact Hall|]. unfold xid_lt. intros; lia.
Qed.

Lemma find_found xid c : StronglySorted xid_lt (transactions c) -> found xid (transactions c) (find_transaction xid c).
Proof.
  intros Hs. unfold find_transaction. destruct (last (transactions c)) as [tx|] eqn:El.
  - apply last_Some in El as [l' El]. destruct (Z.compare_spec (tx_xid tx) xid) as [E|E|E].
    + exists tx. split; [|done]. rewrite El, length_app, lookup_app_r by (cbn; lia). by replace (_ - _)%nat with O by (cbn; lia).
    + cbn. split_and!; [done| |by rewrite drop_all]. rewrite take_ge by done. rewrite El in *. apply Forall_app. split; [|by repeat constructor].
      apply Forall_forall. intros x Hx. apply list_elem_of_split in Hx as (a & b & ->).
      rewrite <- app_assoc in Hs. apply sorted_suffix, StronglySorted_inv in Hs as [_ Hs]. rewrite Forall_forall in Hs.
      specialize (Hs tx ltac:(set_solver)). unfold xid_lt in Hs. lia.
    + destruct (binary_search_found xid (transactions c) 0 Hs) as ([p|p] & Hf & ->); exact Hf.
  - apply last_None in El. rewrite El. cbn. by split_and!.
Qed.

Ltac tx_simpl := cbn [transactions last_active active_transactions max_active_transactions trim_limit set_transactions set_active set_last_active].

(** ** Forgetting *)

Lemma trim_spec limit l :
  exists gone, l = gone ++ trim limit l /\ Forall (fun tx => tx_state tx <> InProgress) gone /\ (gone <> [] -> limit < len l).
Proof.
  induction l as [|tx l IH]; [by exists []|]. cbn [trim]. destruct (Z.ltb_spec limit (len (tx :: l))) as [Hlt|]; [|by exists []].
  destruct (tx_state tx) eqn:Es; [by exists []|]. destruct IH as (gone & E & Hg & _). exists (tx :: gone).
  split_and!; [by cbn; f_equal|by constructor; [rewrite Es|]|done].
Qed.
Lemma stale_finished now age tx : is_stale now age tx = true -> tx_state tx <> InProgress.
Proof. unfold is_stale. by destruct (tx_state tx). Qed.
Lemma drop_stale_spec now age l :
  exists gone, l = gone ++ drop_stale now age l /\ Forall (fun tx => is_stale now age tx = true) gone.
Proof.
  induction l as [|tx l IH]; [by exists []|]. cbn [drop_stale]. destruct (is_stale now age tx) eqn:Es; [|by exists []].
  destruct IH as (gone & E & Hg). exists (tx :: gone). split; [by cbn; f_equal|by constructor].
Qed.

(** Forgetting finished transactions of the front is harmless. *)
Lemma forget_ok c gone l : client_ok c -> transactions c = gone ++ l -> Forall (fun tx => tx_state tx <> InProgress) gone ->
  client_ok (set_transactions l c) /\ running l = running (transactions c).
Proof.
  intros [Hs Ha Hm Hw Ht] E Hg. assert (running l = running (transactions c)) as Er by (by rewrite E, running_app, (finished_running gone)).
  split; [|done]. split; tx_simpl; try done; [|congruence]. rewrite E in Hs. by eapply sorted_suffix.
Qed.
Lemma remove_old_ok now age c : client_ok c ->
  client_ok (remove_old_transactions now age c) /\ running (transactions (remove_old_transactions now age c)) = running (transactions c).
Proof.
  intros Hc. destruct (drop_stale_spec now age (transactions c)) as (gone & E & Hg). eapply forget_ok; [done|exact E|].
  eapply Forall_impl; [exact Hg|]. intros tx. by apply stale_finished.
Qed.

(** ** Adding and completing *)

Lemma add_spec xid now c : client_ok c ->
  let '(r, c') := add_transaction xid now c in
  client_ok c' /\
  match r with
  | Ok _ => (forall tx, tx ∈ transactions c -> tx_xid tx <> xid) /\ active_transactions c < max_active_transactions c /\
      (forall x, x ∈ running (transactions c') <-> x = xid \/ x ∈ running (transactions c))
  | Err AlreadyExists => (exists tx, tx ∈ transactions c /\ tx_xid tx = xid) /\ transactions c' = transactions c
  | Err TooManyRequests => (forall tx, tx ∈ transactions c -> tx_xid tx <> xid) /\
      active_transactions c = max_active_transactions c /\ transactions c' = transactions c
  end.
Proof.
  intros Hc. unfold add_transaction. assert (client_ok (set_last_active now c)) as Hc' by (by destruct Hc).
  pose proof (find_found xid (set_last_active now c) (co_sorted _ Hc')) as Hf. destruct (find_transaction _ _) as [p|p]; cbn [found transactions set_last_active] in Hf.
  { destruct Hf as (tx & Hp & Hx). split_and!; [done| |done]. exists tx. split; [by eapply list_elem_of_lookup_2|done]. }
  destruct Hf as (Hp & Hlo & Hhi). assert (forall tx, tx ∈ transactions c -> tx_xid tx <> xid) as Hno.
  { intros tx Hin. rewrite <- (take_drop p (transactions c)) in Hin. rewrite Forall_forall in Hlo, Hhi.
    apply elem_of_app in Hin as [Hin|Hin]; [specialize (Hlo _ Hin)|specialize (Hhi _ Hin)]; lia. }
  destruct Hc as [Hs Ha Hm Hw Ht]. cbn [max_active_transactions active_transactions set_last_active].
  destruct (Z.leb_spec (max_active_transactions c) (active_transactions c)); [split_and!; [done|done|lia|done]|].
  set (c1 := set_transactions _ _). assert (transactions c1 = take p (transactions c) ++ in_progress xid :: drop p (transactions c)) as Et by done.
  assert (running (transactions c1) ≡ₚ xid :: running (transactions c)) as Hperm.
  { rewrite Et, running_app, running_cons, decide_True by done. cbn. rewrite <- Permutation_middle. by rewrite <- running_app, take_drop. }
  assert (client_ok c1) as Hc1.
  { split; cbn -[transactions]; try done.
    - rewrite Et. apply sorted_insert; [by rewrite take_drop|exact Hlo|exact Hhi].
    - unfold as_u16, len in *. pose proof (len_nonneg (running (transactions c))). rewrite Hperm. cbn [length]. rewrite Z.mod_small; unfold len in *; lia.
    - unfold as_u16. pose proof (len_nonneg (running (transactions c))). rewrite Z.mod_small; lia. }
  destruct (trim_spec (trim_limit c1) (transactions c1)) as (gone & E & Hg & _). destruct (forget_ok c1 gone _ Hc1 E Hg) as [H1 H2].
  split; [exact H1|]. split_and!; [done|done|]. intros x. unfold trim_if_needed. cbn [transactions set_transactions]. rewrite H2, Hperm. apply elem_of_cons.
Qed.

Lemma complete_spec xid now c : client_ok c -> xid ∈ running (transactions c) ->
  exists c', complete_transaction xid now c = Some c' /\ client_ok c' /\
    (forall x, x ∈ running (transactions c') <-> x <> xid /\ x ∈ running (transactions c)).
Proof.
  intros Hc Hr. unfold complete_transaction. assert (client_ok (set_last_active now c)) as Hc' by (by destruct Hc).
  pose proof (find_found xid (set_last_active now c) (co_sorted _ Hc')) as Hf. apply elem_running in Hr as Hin.
  destruct Hc as [Hs Ha Hm Hw Ht]. cbn [transactions set_last_active].
  destruct (find_transaction _ _) as [p|p]; cbn [found transactions set_last_active] in Hf.
  2:{ destruct Hf as (_ & Hlo & Hhi). rewrite <- (take_drop p (transactions c)) in Hin. rewrite Forall_forall in Hlo, Hhi.
      apply elem_of_app in Hin as [Hin|Hin]; [specialize (Hlo _ Hin)|specialize (Hhi _ Hin)]; cbn in *; lia. }
  destruct Hf as (tx & Hp & Hx). rewrite Hp.
  assert (tx = in_progress xid) as -> by (eapply sorted_unique; [exact Hs|by eapply list_elem_of_lookup_2|done|done]).
  cbn [complete in_progress tx_state]. eexists. split; [done|]. apply list_elem_of_split_length in Hp as (a & b & E & Hl).
  cbn [transactions set_active set_transactions]. rewrite E in *. subst p. rewrite insert_app_r_alt, Nat.sub_diag by done. cbn [list_insert insert].
  rewrite running_app, running_cons, decide_True in * by done. cbn [in_progress tx_xid app] in *.
  pose proof (sorted_running _ Hs) as Hnd. rewrite running_app, running_cons, decide_True in Hnd by done. cbn [in_progress tx_xid app] in Hnd.
  split.
  - split; tx_simpl; try done.
    + clear -Hs. induction a as [|x a IH]; cbn in *; apply StronglySorted_inv in Hs as [H1 H2]; [by constructor|]. constructor; [by apply IH|].
      apply Forall_app in H2 as [? [? ?]%Forall_cons]. apply Forall_app. split; [done|by constructor].
    + rewrite running_app, running_cons, decide_False by done. cbn [app]. rewrite Ha. unfold as_u16. rewrite !len_app, len_cons in *.
      pose proof (len_nonneg (running a)). pose proof (len_nonneg (running b)). rewrite Z.mod_small; lia.
    + rewrite Ha. unfold as_u16. rewrite !len_app, len_cons in *. pose proof (len_nonneg (running a)). pose proof (len_nonneg (running b)). rewrite Z.mod_small; lia.
  - intros x. cbn [transactions]. rewrite running_app, running_cons, decide_False by done. cbn [app].
    apply NoDup_app in Hnd as (? & Hd & [Hn ?]%NoDup_cons). rewrite decide_True by done. rewrite !elem_of_app, list_elem_of_singleton. split; [|naive_solver].
    intros Hx'. split; [|naive_solver]. intros ->. destruct Hx' as [Hx'|Hx']; [|done]. apply (Hd _ Hx'). left.
Qed.

(** * The tracker and the requests being served *)

(** The locks held, each with the address its request came from. *)
Record TxSys : Type := { ts_tracker : Tracker; ts_locks : list (bytes * TransactionLock) }.
Implicit Types (s : TxSys).

Inductive tx_step : TxSys -> TxSys -> Prop :=
| step_start addr xid now lk t' s :
    start_transaction addr xid now (ts_tracker s) = (Ok lk, t') ->
    tx_step s {| ts_tracker := t'; ts_locks := (addr, lk) :: ts_locks s |}
| step_refuse addr xid now e t' s :
    start_transaction addr xid now (ts_tracker s) = (Err (TxError e), t') ->
    tx_step s {| ts_tracker := t'; ts_locks := ts_locks s |}
| step_drop addr lk now t t' L1 L2 :
    drop_lock lk now t = Some t' ->
    tx_step {| ts_tracker := t; ts_locks := L1 ++ (addr, lk) :: L2 |} {| ts_tracker := t'; ts_locks := L1 ++ L2 |}
| step_cleanup now s :
    tx_step s {| ts_tracker := cleanup now (ts_tracker s); ts_locks := ts_locks s |}.

Section tracker.
Context (retention : Duration) (m : u16) (limit : usize).
Context (Hm : 0 <= m < 2 ^ 16) (Hlimit : m < limit).

Definition tx_init : TxSys := {| ts_tracker := TransactionTracker_new retention m limit; ts_locks := [] |}.

Definition sized c : Prop := max_active_transactions c = m /\ trim_limit c = limit.

Record tx_inv t (L : list (bytes * TransactionLock)) : Prop := {
  ti_ret : retention_period t = retention;
  ti_max : tk_max_active t = m;
  ti_limit : tk_trim_limit t = limit;
  ti_client p c : tk_heap t !! p = Some c -> client_ok c /\ sized c;
  ti_map a p : tk_map t !! a = Some p -> is_Some (tk_heap t !! p);
  ti_inj a b p : tk_map t !! a = Some p -> tk_map t !! b = Some p -> a = b;
  ti_lock a lk : (a, lk) ∈ L -> tk_map t !! a = Some (lk_client lk);
  ti_running p c x : tk_heap t !! p = Some c ->
    x ∈ running (transactions c) <-> exists a, (a, {| lk_client := p; lk_xid := x |}) ∈ L;
  ti_nodup : NoDup L
}.

(** What a client knows of a transaction, and how it answers to it. *)
Definition answers (xid : u32) c (r : result TxFail TransactionLock) : Prop :=
  match r with
  | Ok _ => (forall tx, tx ∈ transactions c -> tx_xid tx <> xid) /\ active_transactions c < m
  | Err (TxError AlreadyExists) => exists tx, tx ∈ transactions c /\ tx_xid tx = xid
  | Err (TxError TooManyRequests) => (forall tx, tx ∈ transactions c -> tx_xid tx <> xid) /\ active_transactions c = m
  | Err TxPanic => False
  end.

Definition locks_after (addr : bytes) (r : result TxFail TransactionLock) (L : list (bytes * TransactionLock)) :=
  match r with Ok lk => (addr, lk) :: L | Err _ => L end.

Lemma start_in_inv a p c xid now t L : tx_inv t L -> tk_map t !! a = Some p -> tk_heap t !! p = Some c ->
  let '(r, t') := start_in p c xid now t in
  answers xid c r /\ tx_inv t' (locks_after a r L) /\ (forall lk, r = Ok lk -> lk_client lk = p /\ lk_xid lk = xid).
Proof.
  intros [H0 H1 H2 H3 H4 H5 H6 H7 H8] Ha Hp. destruct (H3 p c Hp) as [Hc Hcm]. pose proof (proj1 Hcm) as Hcm1. pose proof (add_spec xid now c Hc) as Hadd.
  unfold start_in. destruct (add_transaction xid now c) as [r c'] eqn:Er. destruct Hadd as [Hc' Hadd].
  assert (sized c') as Hm' by (destruct Hcm; unfold add_transaction in Er; repeat case_match; by simplify_eq).
  assert (forall q d, <[p := c']> (tk_heap t) !! q = Some d -> client_ok d /\ sized d) as Hheap.
  { intros q d [[_ <-]|[_ Hd]]%lookup_insert_Some; [done|by apply (H3 q)]. }
  assert (forall b q, tk_map t !! b = Some q -> is_Some (<[p := c']> (tk_heap t) !! q)) as Hmap.
  { intros b q Hq. destruct (decide (q = p)) as [->|]; [by rewrite lookup_insert_eq|rewrite lookup_insert_ne by done; by eapply H4]. }
  destruct r as [[]|[]]; cbn [locks_after answers].
  - destruct Hadd as (Hno & Hlt & Hrun). assert (in_progress xid ∉ transactions c) as Hfree by (intros Hin; by apply (Hno _ Hin)).
    split_and!; [done|lia| |by intros lk [= <-]]. split; cbn; try done.
    + intros b lk [[= -> ->]|Hin]%elem_of_cons; [done|by apply H6].
    + intros q d x [[<- <-]|[Hne Hd]]%lookup_insert_Some.
      * rewrite Hrun, (H7 p c x Hp). setoid_rewrite elem_of_cons. naive_solver.
      * rewrite (H7 q d x Hd). setoid_rewrite elem_of_cons. naive_solver.
    + constructor; [|done]. intros Hin. apply Hfree, elem_running, (H7 p c xid Hp). by exists a.
  - destruct Hadd as (Hex & Et). split_and!; [done| |done]. split; cbn; try done.
    intros q d x [[<- <-]|[Hne Hd]]%lookup_insert_Some; [rewrite Et; by apply H7|by apply H7].
  - destruct Hadd as (Hno & Hfull & Et). split_and!; [done|lia| |done]. split; cbn; try done.
    intros q d x [[<- <-]|[Hne Hd]]%lookup_insert_Some; [rewrite Et; by apply H7|by apply H7].
Qed.

(** The table of a client that is not there yet is empty. *)
Definition table a t : list Transaction :=
  match tk_map t !! a ≫= fun p => tk_heap t !! p with Some c => transactions c | None => [] end.
Definition busy a t : u16 :=
  match tk_map t !! a ≫= fun p => tk_heap t !! p with Some c => active_transactions c | None => 0 end.

Lemma start_inv a xid now t L : tx_inv t L ->
  let '(r, t') := start_transaction a xid now t in
  (match r with
   | Ok _ => (forall tx, tx ∈ table a t -> tx_xid tx <> xid) /\ busy a t < m
   | Err (TxError AlreadyExists) => exists tx, tx ∈ table a t /\ tx_xid tx = xid
   | Err (TxError TooManyRequests) => (forall tx, tx ∈ table a t -> tx_xid tx <> xid) /\ busy a t = m
   | Err TxPanic => False
   end) /\ tx_inv t' (locks_after a r L) /\ (forall lk, r = Ok lk -> lk_xid lk = xid).
Proof using Hm Hlimit.
  intros Hi. pose proof Hi as [H0 H1 H2 H3 H4 H5 H6 H7 H8]. unfold start_transaction, table, busy.
  destruct (tk_map t !! a) as [p|] eqn:Ea; cbn [mbind option_bind].
  - destruct (H4 a p Ea) as [c Hp]. rewrite Hp. cbn [fmap option_fmap option_map].
    pose proof (start_in_inv a p c xid now t L Hi Ea Hp) as Hs. destruct (start_in p c xid now t) as [r t']. naive_solver.
  - unfold new_client. rewrite H1, H2, (proj2 (Z.ltb_lt _ _) Hlimit). set (c := {| transactions := [] |}). set (p := fresh (dom (tk_heap t))).
    assert (tk_heap t !! p = None) as Hp by (apply not_elem_of_dom, is_fresh).
    assert (forall b, tk_map t !! b <> Some p) as Hnp by (intros b Hb; destruct (H4 b p Hb) as [? ?]; congruence).
    set (t0 := set_tk (<[a := p]> (tk_map t)) (<[p := c]> (tk_heap t)) t).
    assert (tx_inv t0 L) as Hi0.
    { split; cbn; try done.
      - intros q d [[_ <-]|[_ Hd]]%lookup_insert_Some; [by split; [split; try done; [constructor|cbn; lia]|]|by apply (H3 q)].
      - intros b q [[_ <-]|[_ Hb]]%lookup_insert_Some; [by rewrite lookup_insert_eq|]. rewrite lookup_insert_ne; [by eapply H4|]. by intros <-; eapply Hnp.
      - intros b b' q. rewrite !lookup_insert_Some. intros [[<- <-]|[? Hb]] [[<- ?]|[? Hb']]; try done; [by apply Hnp in Hb'|subst; by apply Hnp in Hb|by eapply H5].
      - intros b lk Hin. rewrite lookup_insert_ne; [by apply H6|]. intros <-. apply H6 in Hin. congruence.
      - intros q d x [[<- <-]|[_ Hd]]%lookup_insert_Some; [|by apply H7]. split; [by intros ?%not_elem_of_nil|].
        intros [b Hin]. apply H6 in Hin. by apply Hnp in Hin. }
    pose proof (start_in_inv a p c xid now t0 L Hi0) as Hs. cbn [t0 tk_map tk_heap set_tk] in Hs. rewrite !lookup_insert_eq in Hs. specialize (Hs eq_refl eq_refl).
    assert (start_in p c xid now t0 = start_in p c xid now (set_tk (<[a := p]> (tk_map t)) (tk_heap t) t)) as E.
    { unfold start_in, t0. destruct (add_transaction xid now c) as [r c']. cbn. by rewrite insert_insert_eq. }
    rewrite <- E. destruct (start_in p c xid now t0) as [r t']. naive_solver.
Qed.

Lemma drop_inv a lk now t L1 L2 : tx_inv t (L1 ++ (a, lk) :: L2) -> exists t', drop_lock lk now t = Some t' /\ tx_inv t' (L1 ++ L2).
Proof using Hm Hlimit.
  intros [H0 H1 H2 H3 H4 H5 H6 H7 H8]. assert ((a, lk) ∈ L1 ++ (a, lk) :: L2) as Hin by set_solver.
  destruct (H4 a _ (H6 _ _ Hin)) as [c Hp]. destruct lk as [p x]. cbn [lk_client] in *. destruct (H3 p c Hp) as [Hc Hcm].
  destruct (complete_spec x now c Hc) as (c1 & E1 & Hc1 & Hrun); [apply (H7 p c x Hp); eauto|].
  destruct (remove_old_ok now (retention_period t) c1 Hc1) as [Hc2 Er]. unfold drop_lock. cbn [lk_client lk_xid]. rewrite Hp. cbn. rewrite E1. cbn.
  eexists. split; [done|]. apply NoDup_app in H8 as (Hn1 & Hd & [Hn Hn2]%NoDup_cons).
  assert (forall b q y, (b, {| lk_client := q; lk_xid := y |}) ∈ L1 ++ L2 <->
    (b, {| lk_client := q; lk_xid := y |}) ∈ L1 ++ (a, {| lk_client := p; lk_xid := x |}) :: L2 /\ ~ (q = p /\ y = x)) as HL.
  { intros b q y. rewrite !elem_of_app, elem_of_cons. split.
    - intros Hb. split; [naive_solver|]. intros [-> ->]. assert (b = a) as ->.
      { apply (H5 b a p); [|exact (H6 a _ Hin)]. apply (H6 b {| lk_client := p; lk_xid := x |}). set_solver. }
      destruct Hb as [Hb|Hb]; [|done]. apply (Hd _ Hb). left.
    - intros [[Hb|[[= -> -> ->]|Hb]] Hne]; naive_solver. }
  split; cbn; try done.
  - intros q d [[_ <-]|[_ Hd']]%lookup_insert_Some; [|by apply (H3 q)]. split; [done|].
    destruct Hcm. unfold complete_transaction in E1. repeat case_match; by simplify_eq.
  - intros b q Hb. destruct (decide (q = p)) as [->|]; [by rewrite lookup_insert_eq|rewrite lookup_insert_ne by done; by eapply H4].
  - intros b lk' Hb. apply H6. set_solver.
  - intros q d y. setoid_rewrite HL. intros [[<- <-]|[Hne Hd']]%lookup_insert_Some.
    + rewrite Er, Hrun, (H7 p c y Hp). naive_solver.
    + rewrite (H7 q d y Hd'). naive_solver.
  - apply NoDup_app. split_and!; [done| |done]. intros e He He2. apply (Hd e He). by right.
Qed.

Lemma running_active now age c x : x ∈ running (transactions c) -> is_active now age c = true.
Proof using Hm Hlimit.
  intros Hx%elem_running. unfold is_active. case_match; [done|]. apply existsb_exists. exists (in_progress x). split; [by apply list_elem_of_In|done].
Qed.

Lemma cleanup_inv now t L : tx_inv t L -> tx_inv (cleanup now t) L.
Proof using Hm Hlimit.
  intros [H0 H1 H2 H3 H4 H5 H6 H7 H8].
  assert (forall p d, tk_heap (cleanup now t) !! p = Some d -> exists c, tk_heap t !! p = Some c /\ client_ok d /\ sized d /\
    running (transactions d) = running (transactions c)) as Hh.
  { intros p d Hd. cbn in Hd. rewrite map_lookup_imap in Hd. destruct (tk_heap t !! p) as [c|] eqn:Hp; [|done]. cbn in Hd.
    exists c. destruct (H3 p c Hp) as [Hc Hcm]. injection Hd as <-. case_bool_decide; [|done].
    destruct (remove_old_ok now (retention_period t) c Hc) as [? ?]. done. }
  split; try done.
  - intros p d Hd. destruct (Hh p d Hd) as (c & _ & ? & ? & _). done.
  - intros a p Ha. cbn in *. apply map_lookup_filter_Some in Ha as [Ha _]. destruct (H4 a p Ha) as [c Hp]. rewrite map_lookup_imap, Hp. by cbn.
  - intros a b p Ha Hb. cbn in *. apply map_lookup_filter_Some in Ha as [Ha _], Hb as [Hb _]. by eapply H5.
  - intros a lk Hin. cbn. apply map_lookup_filter_Some. split; [by apply H6|]. cbn. destruct (H4 a _ (H6 a lk Hin)) as [c Hp]. rewrite Hp.
    apply Is_true_true_2, (running_active _ _ _ (lk_xid lk)), (H7 _ c _ Hp). exists a. by destruct lk.
  - intros p d x Hd. destruct (Hh p d Hd) as (c & Hp & _ & _ & ->). by apply H7.
Qed.

Lemma step_inv s s' : tx_step s s' -> tx_inv (ts_tracker s) (ts_locks s) -> tx_inv (ts_tracker s') (ts_locks s').
Proof using Hm Hlimit.
  intros [a x now lk t' s0 E|a x now e t' s0 E|a lk now t t' L1 L2 E|now s0] Hi; cbn [ts_tracker ts_locks] in *.
  - pose proof (start_inv a x now _ _ Hi) as Hs. rewrite E in Hs. apply Hs.
  - pose proof (start_inv a x now _ _ Hi) as Hs. rewrite E in Hs. apply Hs.
  - destruct (drop_inv a lk now t L1 L2 Hi) as (t'' & E' & Hi'). congruence.
  - by apply cleanup_inv.
Qed.

Lemma steps_inv s s' : rtc tx_step s s' -> tx_inv (ts_tracker s) (ts_locks s) -> tx_inv (ts_tracker s') (ts_locks s').
Proof using Hm Hlimit. induction 1 as [|s s1 s' Hst _ IH]; [done|]. intros Hi. apply IH. by eapply step_inv. Qed.

Lemma reach_inv s : rtc tx_step tx_init s -> tx_inv (ts_tracker s) (ts_locks s).
Proof using Hm Hlimit.
  intros Hr. eapply steps_inv; [exact Hr|]. split; cbn; try done; [by intros a lk ?%not_elem_of_nil|constructor].
Qed.

(** The requests of a client that hold locks. *)
Definition held (a : bytes) (L : list (bytes * TransactionLock)) : list u32 := (fun e => lk_xid e.2) <$> filter (fun e => e.1 = a) L.

Lemma elem_held a x t L p : tx_inv t L -> tk_map t !! a = Some p ->
  x ∈ held a L <-> (a, {| lk_client := p; lk_xid := x |}) ∈ L.
Proof using.
  intros Hi Ha. unfold held. rewrite list_elem_of_fmap. setoid_rewrite list_elem_of_filter. split.
  - intros ([b [q y]] & -> & Eb & Hin). cbn in Eb. subst b. pose proof (ti_lock _ _ Hi _ _ Hin) as Hq. cbn in *. by simplify_eq.
  - intros Hin. by exists (a, {| lk_client := p; lk_xid := x |}).
Qed.
Lemma nodup_held a t L : tx_inv t L -> NoDup (held a L).
Proof using.
  intros Hi. unfold held. apply NoDup_fmap_2_strong; [|by apply NoDup_filter, (ti_nodup _ _ Hi)].
  intros [b [p x]] [b' [q y]] [<- H1]%list_elem_of_filter [E H2]%list_elem_of_filter. cbn in E. subst b'. intros Ex. cbn in Ex. subst y.
  apply (ti_lock _ _ Hi) in H1, H2. cbn in *. by simplify_eq.
Qed.

Lemma running_held a p c t L : tx_inv t L -> tk_map t !! a = Some p -> tk_heap t !! p = Some c -> running (transactions c) ≡ₚ held a L.
Proof using.
  intros Hi Ha Hp. apply NoDup_Permutation; [apply sorted_running, co_sorted, (ti_client _ _ Hi _ _ Hp)|by eapply nodup_held|].
  intros x. rewrite (elem_held a x t L p Hi Ha), (ti_running _ _ Hi p c x Hp). split; [|eauto].
  intros [b Hb]. pose proof (ti_lock _ _ Hi _ _ Hb) as Hq. cbn in Hq. by rewrite (ti_inj _ _ Hi a b p Ha Hq).
Qed.

Lemma busy_held a t L : tx_inv t L -> busy a t = len (held a L).
Proof using.
  intros Hi. unfold busy. destruct (tk_map t !! a) as [p|] eqn:Ea; cbn.
  - destruct (ti_map _ _ Hi a p Ea) as [c Hp]. rewrite Hp. destruct (ti_client _ _ Hi p c Hp) as [[_ Hac _ _ _] _].
    unfold len in *. by rewrite Hac, (running_held a p c _ _ Hi Ea Hp).
  - unfold held. destruct (filter _ _) as [|[b lk] rest] eqn:Ef; [done|].
    assert ((b, lk) ∈ filter (fun e : bytes * TransactionLock => e.1 = a) L) as [E Hin]%list_elem_of_filter by (rewrite Ef; left).
    cbn in E. subst b. apply (ti_lock _ _ Hi) in Hin. congruence.
Qed.

(** C29: however requests of any clients start, are refused and finish, and
    whenever the cleaner runs, a client's counter is the number of its requests
    being served; it stays within the limit and within its 16 bits, and the
    client's table stays sorted by transaction id. *)
Theorem tx_bounds s a : rtc tx_step tx_init s ->
  busy a (ts_tracker s) = len (held a (ts_locks s)) /\ 0 <= busy a (ts_tracker s) <= m /\ m < 2 ^ 16 /\
  StronglySorted xid_lt (table a (ts_tracker s)).
Proof using Hm Hlimit.
  intros Hr. pose proof (reach_inv s Hr) as Hi. rewrite (busy_held a _ _ Hi). split; [done|].
  enough (len (held a (ts_locks s)) <= m /\ StronglySorted xid_lt (table a (ts_tracker s))) as [? ?] by (pose proof (len_nonneg (held a (ts_locks s))); split_and!; (done || lia)).
  rewrite <- (busy_held a _ _ Hi). unfold busy, table. destruct (tk_map (ts_tracker s) !! a) as [p|] eqn:Ea; cbn; [|by split; [lia|constructor]].
  destruct (ti_map _ _ Hi a p Ea) as [c Hp]. rewrite Hp. destruct (ti_client _ _ Hi p c Hp) as [[Hs _ Hle _ _] [<- _]]. done.
Qed.

(** C30: no request runs twice at once: a transaction is started only when the
    client's table does not have its id, it is answered as a retransmission
    exactly when the table has it, and the requests being served have distinct
    addresses and ids. Neither starting a transaction nor finishing one ever
    fails an assertion. *)
Theorem tx_once s a xid now : rtc tx_step tx_init s ->
  (match (start_transaction a xid now (ts_tracker s)).1 with
   | Ok _ => (forall tx, tx ∈ table a (ts_tracker s) -> tx_xid tx <> xid) /\ xid ∉ held a (ts_locks s)
   | Err (TxError AlreadyExists) => exists tx, tx ∈ table a (ts_tracker s) /\ tx_xid tx = xid
   | Err (TxError TooManyRequests) => (forall tx, tx ∈ table a (ts_tracker s) -> tx_xid tx <> xid) /\ len (held a (ts_locks s)) = m
   | Err TxPanic => False
   end) /\
  NoDup ((fun e => (e.1, lk_xid e.2)) <$> ts_locks s) /\
  (forall lk, (a, lk) ∈ ts_locks s -> is_Some (drop_lock lk now (ts_tracker s))).
Proof using Hm Hlimit.
  intros Hr. pose proof (reach_inv s Hr) as Hi. split_and!.
  - pose proof (start_inv a xid now _ _ Hi) as Hs. destruct (start_transaction a xid now (ts_tracker s)) as [r t']. cbn [fst].
    destruct Hs as (Hs & _). destruct r as [lk|[[]|]]; try done.
    + destruct Hs as [Hno _]. split; [done|]. intros Hin. unfold held in Hin.
      apply list_elem_of_fmap in Hin as ([b [p x]] & E & [Eb Hin]%list_elem_of_filter). cbn in *. subst b x.
      pose proof (ti_lock _ _ Hi _ _ Hin) as Ha. cbn in Ha. destruct (ti_map _ _ Hi _ _ Ha) as [c Hp].
      apply (Hno (in_progress xid)); [|done]. unfold table. rewrite Ha. cbn. rewrite Hp. apply elem_running, (ti_running _ _ Hi p c xid Hp). eauto.
    + by rewrite <- (busy_held a _ _ Hi).
  - apply NoDup_fmap_2_strong; [|apply (ti_nodup _ _ Hi)]. intros [b [p x]] [b' [q y]] H1 H2 [= <- <-].
    apply (ti_lock _ _ Hi) in H1, H2. cbn in *. by simplify_eq.
  - intros lk (L1 & L2 & E)%list_elem_of_split. rewrite E in Hi. destruct (drop_inv a lk now _ L1 L2 Hi) as (t' & Hd & _). by rewrite Hd.
Qed.

(** ** How long a transaction is remembered *)

Definition forgotten a (tx : Transaction) t t' : Prop :=
  tx ∈ table a t /\ forall tx', tx' ∈ table a t' -> tx_xid tx' <> tx_xid tx.

(** A table that loses the front [gone]. *)
Lemma lost_front (l gone l' : list Transaction) tx : l = gone ++ l' -> tx ∈ l -> (forall tx', tx' ∈ l' -> tx_xid tx' <> tx_xid tx) -> tx ∈ gone.
Proof using. intros -> [?|Hin]%elem_of_app Hno; [done|]. by destruct (Hno _ Hin). Qed.

Lemma table_at a t p c : tk_map t !! a = Some p -> tk_heap t !! p = Some c -> table a t = transactions c.
Proof using. intros Ha Hp. unfold table. rewrite Ha. cbn. by rewrite Hp. Qed.

Lemma add_remembers xid now c tx : client_ok c -> tx ∈ transactions c ->
  (forall tx', tx' ∈ transactions (add_transaction xid now c).2 -> tx_xid tx' <> tx_xid tx) ->
  tx_state tx <> InProgress /\ trim_limit c <= len (transactions c).
Proof using.
  clear Hm Hlimit. intros Hc Hin Hno. unfold add_transaction in Hno. destruct (find_transaction xid _) as [p|p]; [by destruct (Hno tx Hin)|].
  case_match; [by destruct (Hno tx Hin)|]. cbn [snd trim_if_needed set_transactions transactions set_active set_last_active trim_limit] in Hno.
  destruct (trim_spec (trim_limit c) (take p (transactions c) ++ in_progress xid :: drop p (transactions c))) as (gone & E & Hg & Hlt).
  assert (tx ∈ gone) as Hgone.
  { eapply lost_front; [exact E| |exact Hno]. rewrite <- (take_drop p (transactions c)) in Hin. set_solver. }
  split; [by apply (proj1 (Forall_forall _ _) Hg)|]. assert (gone <> []) as Hne by (intros ->; by apply not_elem_of_nil in Hgone).
  specialize (Hlt Hne). rewrite len_app, len_cons in Hlt. rewrite <- (take_drop p (transactions c)), len_app. lia.
Qed.

Lemma remove_old_remembers now age c tx : tx ∈ transactions c ->
  (forall tx', tx' ∈ transactions (remove_old_transactions now age c) -> tx_xid tx' <> tx_xid tx) -> is_stale now age tx = true.
Proof using.
  intros Hin Hno. destruct (drop_stale_spec now age (transactions c)) as (gone & E & Hg). cbn in Hno.
  apply (proj1 (Forall_forall _ _) Hg). by eapply lost_front.
Qed.

Lemma complete_keeps xid now c c' tx : complete_transaction xid now c = Some c' -> tx ∈ transactions c ->
  exists tx1, tx1 ∈ transactions c' /\ tx_xid tx1 = tx_xid tx /\ (tx1 = tx \/ tx_state tx1 = Completed now).
Proof using.
  unfold complete_transaction. intros E Hin. destruct (find_transaction xid _) as [p|p]; [|injection E as <-; by exists tx; auto].
  cbn [transactions set_last_active] in E. destruct (transactions c !! p) as [tx0|] eqn:Hp; [|done]. unfold complete in E.
  destruct (tx_state tx0); [|done]. injection E as <-. cbn [transactions set_active set_transactions].
  apply list_elem_of_lookup in Hin as [j Hj]. destruct (decide (j = p)) as [->|Hne].
  - assert (tx0 = tx) as -> by congruence. exists {| tx_xid := tx_xid tx; tx_state := Completed now |}. split_and!; [|done|by right].
    apply list_elem_of_lookup. exists p. apply list_lookup_insert_eq. by eapply lookup_lt_Some.
  - exists tx. split_and!; [|done|by left]. apply list_elem_of_lookup. exists j. by rewrite list_lookup_insert_ne.
Qed.

(** The client of a transaction that is known. *)
Lemma table_client a t tx : tx ∈ table a t -> exists p c, tk_map t !! a = Some p /\ tk_heap t !! p = Some c /\ tx ∈ transactions c.
Proof using.
  unfold table. destruct (tk_map t !! a) as [p|] eqn:Ea; cbn; [|by intros ?%not_elem_of_nil]. destruct (tk_heap t !! p) as [c|] eqn:Ec; [|by intros ?%not_elem_of_nil]. intros Hin. by exists p, c.
Qed.

(** The transaction just finished is remembered. *)
Lemma drop_keeps a lk now t t' L : 0 <= retention -> tx_inv t L -> (a, lk) ∈ L -> drop_lock lk now t = Some t' ->
  exists tx, tx ∈ table a t' /\ tx_xid tx = lk_xid lk.
Proof using.
  intros Hret Hi Hin Hd. pose proof (ti_lock _ _ Hi _ _ Hin) as Ha. unfold drop_lock in Hd.
  destruct (tk_heap t !! lk_client lk) as [c|] eqn:Hc; [|done]. cbn in Hd.
  destruct (complete_transaction (lk_xid lk) now c) as [c1|] eqn:E1; [|done]. cbn in Hd. injection Hd as <-.
  assert (in_progress (lk_xid lk) ∈ transactions c) as Hrun by (apply elem_running, (ti_running _ _ Hi _ c _ Hc); exists a; by destruct lk).
  assert (client_ok c) as Hok by apply (ti_client _ _ Hi _ _ Hc).
  destruct (complete_keeps _ _ _ _ _ E1 Hrun) as (tx & Htx & Ex & Hst).
  exists tx. split; [|done]. rewrite (table_at a _ (lk_client lk) (remove_old_transactions now (retention_period t) c1)); [|done|apply lookup_insert_eq].
  destruct (drop_stale_spec now (retention_period t) (transactions c1)) as (gone & E & Hg). cbn. rewrite E in Htx.
  apply elem_of_app in Htx as [Hin'|?]; [|done]. exfalso. apply (proj1 (Forall_forall _ _) Hg) in Hin'.
  destruct Hst as [->|Hst]; [done|]. unfold is_stale in Hin'. rewrite Hst, (ti_ret _ _ Hi) in Hin'. unfold saturating_sub in Hin'. lia.
Qed.

Lemma start_in_remembers a p c xid now t0 t tx q d : (tk_map t !! a = Some q -> tk_map t0 !! a = Some q) -> tk_heap t0 = tk_heap t ->
  tk_map t !! a = Some q -> tk_heap t !! q = Some d -> tx ∈ transactions d -> client_ok d -> (q = p -> c = d) ->
  (forall tx', tx' ∈ table a (start_in p c xid now t0).2 -> tx_xid tx' <> tx_xid tx) ->
  q = p /\ tx_state tx <> InProgress /\ trim_limit d <= len (transactions d).
Proof using.
  intros Hmap Hheap Ha Hq Hin Hd Hc Hno. unfold start_in in Hno. pose proof (add_remembers xid now c tx) as Hadd.
  destruct (add_transaction xid now c) as [r c']. cbn [snd] in *. destruct (decide (q = p)) as [->|Hne].
  - rewrite (Hc eq_refl) in *. split; [done|]. apply Hadd; [done|done|]. intros tx' Htx'. apply Hno.
    destruct r; cbn [snd]; (rewrite (table_at a _ p c'); [done|by apply Hmap|apply lookup_insert_eq]).
  - exfalso. apply (Hno tx); [|done]. destruct r; cbn [snd]; (rewrite (table_at a _ q d); [done|by apply Hmap|cbn; by rewrite lookup_insert_ne, Hheap by done]).
Qed.

(** A transaction that a client finished is forgotten, so that its
    retransmission would run again, only once the retention period has passed
    since, or when a request starts while the client's table is full. *)
Theorem tx_remembers s a tx now : 0 <= retention -> rtc tx_step tx_init s ->
  (forall b xid, forgotten a tx (ts_tracker s) (start_transaction b xid now (ts_tracker s)).2 ->
     tx_state tx <> InProgress /\ limit <= len (table a (ts_tracker s))) /\
  (forall b lk t', (b, lk) ∈ ts_locks s -> drop_lock lk now (ts_tracker s) = Some t' -> forgotten a tx (ts_tracker s) t' ->
     is_stale now (retention_period (ts_tracker s)) tx = true) /\
  (forgotten a tx (ts_tracker s) (cleanup now (ts_tracker s)) -> is_stale now (retention_period (ts_tracker s)) tx = true).
Proof using Hm Hlimit.
  intros Hret Hr. pose proof (reach_inv s Hr) as Hi. destruct s as [t L]. cbn [ts_tracker ts_locks] in *. split_and!.
  - intros b xid [Hin Hno]. destruct (table_client a t tx Hin) as (q & d & Ha & Hq & Hind).
    destruct (ti_client _ _ Hi q d Hq) as [Hd [_ Hlim]]. rewrite (table_at a t q d Ha Hq), <- Hlim. unfold start_transaction in Hno.
    destruct (tk_map t !! b) as [p|] eqn:Eb; cbn [mbind option_bind] in Hno.
    + destruct (ti_map _ _ Hi b p Eb) as [c Hp]. rewrite Hp in Hno. cbn [fmap option_fmap option_map] in Hno.
      eapply (start_in_remembers a p c xid now t t tx q d); try done. congruence.
    + unfold new_client in Hno. rewrite (ti_max _ _ Hi), (ti_limit _ _ Hi), (proj2 (Z.ltb_lt _ _) Hlimit) in Hno.
      assert (q <> fresh (dom (tk_heap t))) as Hne by (intros ->; by apply (is_fresh (dom (tk_heap t))), elem_of_dom).
      apply (start_in_remembers a _ _ xid now _ t tx q d) in Hno; try done; [by destruct Hno|]. intros _. cbn. rewrite lookup_insert_ne; [done|]. by intros ->; congruence.
  - intros b lk t' Hlk Hdrop [Hin Hno]. destruct (table_client a t tx Hin) as (q & d & Ha & Hq & Hind).
    unfold drop_lock in Hdrop. destruct (tk_heap t !! lk_client lk) as [c|] eqn:Hc; [|done]. cbn in Hdrop.
    destruct (complete_transaction (lk_xid lk) now c) as [c1|] eqn:E1; [|done]. cbn in Hdrop. injection Hdrop as <-.
    destruct (decide (q = lk_client lk)) as [->|Hne].
    + assert (d = c) as -> by congruence. destruct (complete_keeps _ _ _ _ _ E1 Hind) as (tx1 & Hin1 & Ex & Hst).
      assert (is_stale now (retention_period t) tx1 = true) as Hs1.
      { eapply remove_old_remembers; [exact Hin1|]. rewrite Ex. intros tx' Htx'. apply Hno. rewrite (table_at a _ (lk_client lk) (remove_old_transactions now (retention_period t) c1)); [done|done|apply lookup_insert_eq]. }
      destruct Hst as [->|Hst]; [done|]. unfold is_stale in Hs1. rewrite Hst, (ti_ret _ _ Hi) in Hs1. unfold saturating_sub in Hs1. lia.
    + destruct (Hno tx); [|done]. rewrite (table_at a _ q d); [done|done|]. cbn. by rewrite lookup_insert_ne by done.
  - intros [Hin Hno]. destruct (table_client a t tx Hin) as (q & d & Ha & Hq & Hind).
    destruct (is_active now (retention_period t) d) eqn:Eact.
    + apply (remove_old_remembers now (retention_period t) d tx Hind). intros tx' Htx'. apply Hno.
      assert (tk_map (cleanup now t) !! a = Some q) as Ha' by (cbn; apply map_lookup_filter_Some; split; [done|]; cbn; rewrite Hq; by rewrite Eact).
      rewrite (table_at a _ q (remove_old_transactions now (retention_period t) d)); [done|done|]. cbn. rewrite map_lookup_imap, Hq. cbn.
      rewrite bool_decide_eq_true_2; [done|]. apply list_elem_of_fmap. exists (a, q). split; [done|]. by apply elem_of_map_to_list.
    + unfold is_active in Eact. case_match; [done|]. destruct (is_stale now (retention_period t) tx) eqn:Es; [done|]. exfalso.
      unfold has_active_transactions in Eact. apply not_true_iff_false in Eact. apply Eact, existsb_exists. exists tx. split; [by apply list_elem_of_In|by rewrite Es].
Qed.
End tracker.
