(* ===== verification/Nfs.v ===== *)
(** The NFS adapter ([slatefs-nfs/src/adapter.rs]): the operations of
    [nfs3_server]'s filesystem traits on a volume, under the identity the
    export's squash policy gives the caller.

    The rate limiter is an arbitrary sequence of admissions. The quota audit
    hook is external: the operations it is told of are recorded. *)

From S2P Require Import Prelude Keys Meta Store Data Quota Locks Volume Vfs NfsFh.

(** * Types of the protocol *)

(** The statuses the server uses. *)
Inductive nfsstat3 : Type :=
| NFS3ERR_PERM | NFS3ERR_NOENT | NFS3ERR_IO | NFS3ERR_ACCES | NFS3ERR_EXIST | NFS3ERR_XDEV | NFS3ERR_NOTDIR | NFS3ERR_ISDIR
| NFS3ERR_INVAL | NFS3ERR_FBIG | NFS3ERR_NOSPC | NFS3ERR_ROFS | NFS3ERR_MLINK | NFS3ERR_NAMETOOLONG | NFS3ERR_NOTEMPTY
| NFS3ERR_DQUOT | NFS3ERR_STALE | NFS3ERR_BADHANDLE | NFS3ERR_NOT_SYNC | NFS3ERR_BAD_COOKIE | NFS3ERR_NOTSUPP
| NFS3ERR_TOOSMALL | NFS3ERR_BADTYPE | NFS3ERR_JUKEBOX.

Inductive ftype3 : Type := NF3REG | NF3DIR | NF3BLK | NF3CHR | NF3LNK | NF3SOCK | NF3FIFO.

Record nfstime3 : Type := { nt_seconds : u32; nt_nseconds : u32 }.
Record specdata3 : Type := { specdata1 : u32; specdata2 : u32 }.
Record fattr3 : Type := {
  f_type : ftype3;
  f_mode : u32;
  f_nlink : u32;
  f_uid : u32;
  f_gid : u32;
  f_size : u64;
  f_used : u64;
  f_rdev : specdata3;
  f_fsid : u64;
  f_fileid : u64;
  f_atime : nfstime3;
  f_mtime : nfstime3;
  f_ctime : nfstime3
}.

(** [set_atime] and [set_mtime] *)
Inductive set_time3 : Type := DONT_CHANGE | SET_TO_SERVER_TIME | SET_TO_CLIENT_TIME (t : nfstime3).
Record sattr3 : Type := {
  sa3_mode : option u32;
  sa3_uid : option u32;
  sa3_gid : option u32;
  sa3_size : option u64;
  sa3_atime : set_time3;
  sa3_mtime : set_time3
}.

Inductive stable_how : Type := UNSTABLE | DATA_SYNC | FILE_SYNC.
Inductive mknoddata3 : Type :=
| MK_CHR (spec : specdata3) (attributes : sattr3)
| MK_BLK (spec : specdata3) (attributes : sattr3)
| MK_SOCK (attributes : sattr3)
| MK_FIFO (attributes : sattr3)
| MK_default.

Record FSINFO3resok : Type := {
  fi_obj_attributes : option fattr3;
  fi_rtmax : u32; fi_rtpref : u32; fi_rtmult : u32;
  fi_wtmax : u32; fi_wtpref : u32; fi_wtmult : u32;
  fi_dtpref : u32;
  fi_maxfilesize : u64;
  fi_time_delta : nfstime3;
  fi_properties : u32
}.
Record FSSTAT3resok : Type := {
  fs_obj_attributes : option fattr3;
  fs_tbytes : u64; fs_fbytes : u64; fs_abytes : u64;
  fs_tfiles : u64; fs_ffiles : u64; fs_afiles : u64;
  fs_invarsec : u32
}.

Definition ACCESS3_READ : u32 := 1.
Definition ACCESS3_LOOKUP : u32 := 2.
Definition ACCESS3_MODIFY : u32 := 4.
Definition ACCESS3_EXTEND : u32 := 8.
Definition ACCESS3_DELETE : u32 := 16.
Definition ACCESS3_EXECUTE : u32 := 32.
Definition FSF3_SYMLINK : u32 := 2.
Definition FSF3_HOMOGENEOUS : u32 := 8.
Definition FSF3_CANSETTIME : u32 := 16.

#[global] Instance nfsstat3_eq_dec : EqDecision nfsstat3.
Proof. solve_decision. Defined.
#[global] Instance ftype3_eq_dec : EqDecision ftype3.
Proof. solve_decision. Defined.
#[global] Instance specdata3_eq_dec : EqDecision specdata3.
Proof. solve_decision. Defined.
#[global] Instance nfstime3_eq_dec : EqDecision nfstime3.
Proof. solve_decision. Defined.
#[global] Instance fattr3_eq_dec : EqDecision fattr3.
Proof. solve_decision. Defined.

(** * Identities *)

(** The fields of [auth_unix] that are used. *)
Record auth_unix : Type := { au_uid : u32; au_gid : u32; au_gids : list u32 }.

Inductive SquashMode : Type := AllSquash | NoSquash | RootSquash | TrustAsRoot.
Record SquashPolicy : Type := { sq_mode : SquashMode; sq_anon_uid : u32; sq_anon_gid : u32 }.

Definition anon (p : SquashPolicy) : Credentials := creds_user (sq_anon_uid p) (sq_anon_gid p).

Definition auth_creds (a : auth_unix) : Credentials :=
  {| c_uid := au_uid a; c_gid := au_gid a; c_groups := au_gids a; c_trusted := false |}.

(** [SquashPolicy::credentials], given [current_rpc_auth()]. *)
Definition credentials (p : SquashPolicy) (auth : option auth_unix) : Credentials :=
  match sq_mode p with
  | AllSquash => anon p
  | TrustAsRoot => creds_root
  | NoSquash => match auth with Some a => auth_creds a | None => anon p end
  | RootSquash => match auth with Some a => if negb (au_uid a =? 0) then auth_creds a else anon p | None => anon p end
  end.

(** * Attributes on the wire *)

Definition wire_size (attr : FileAttr) : u64 := if bool_decide (a_kind attr = Dir) then 4096 else a_size attr.
Definition wire_used (attr : FileAttr) : u64 := if bool_decide (a_kind attr = Dir) then 4096 else as_u64 (a_blocks attr * 512).

Definition kind_to_ftype (k : FileKind) : ftype3 :=
  match k with
  | File => NF3REG | Dir => NF3DIR | Symlink => NF3LNK | Fifo => NF3FIFO | Socket => NF3SOCK | CharDev => NF3CHR | BlockDev => NF3BLK
  end.

Definition clamp (x lo hi : Z) : Z := Z.max lo (Z.min x hi).
Definition to_nfstime (ts : Timespec) : nfstime3 := {| nt_seconds := as_u32 (clamp (secs ts) 0 U32_MAX); nt_nseconds := nanos ts |}.
Definition from_nfstime (t : nfstime3) : Timespec := {| secs := nt_seconds t; nanos := nt_nseconds t |}.

Definition nfs_map_err (e : FsError) : nfsstat3 :=
  match e with
  | NotPermitted => NFS3ERR_PERM
  | NotFound => NFS3ERR_NOENT
  | Io => NFS3ERR_IO
  | BadHandle => NFS3ERR_BADHANDLE
  | WouldBlock => NFS3ERR_JUKEBOX
  | AccessDenied => NFS3ERR_ACCES
  | Exists => NFS3ERR_EXIST
  | CrossDevice => NFS3ERR_XDEV
  | NotDir => NFS3ERR_NOTDIR
  | IsDir => NFS3ERR_ISDIR
  | Invalid => NFS3ERR_INVAL
  | FileTooBig => NFS3ERR_FBIG
  | NoSpace => NFS3ERR_NOSPC
  | TooManyLinks => NFS3ERR_MLINK
  | NameTooLong => NFS3ERR_NAMETOOLONG
  | NotEmpty => NFS3ERR_NOTEMPTY
  | NoData => NFS3ERR_NOENT
  | NotSupported => NFS3ERR_NOTSUPP
  | Stale => NFS3ERR_STALE
  | QuotaExceeded => NFS3ERR_DQUOT
  | ReadOnly => NFS3ERR_ROFS
  end.

Definition to_timeset (t : set_time3) : option TimeSet :=
  match t with DONT_CHANGE => None | SET_TO_SERVER_TIME => Some TNow | SET_TO_CLIENT_TIME t => Some (TTime (from_nfstime t)) end.
Definition to_setattrs (a : sattr3) : SetAttrs :=
  {| s_mode := sa3_mode a; s_uid := sa3_uid a; s_gid := sa3_gid a; s_size := sa3_size a;
     s_atime := to_timeset (sa3_atime a); s_mtime := to_timeset (sa3_mtime a) |}.

(** What is left of the requested attributes once a node has its mode. *)
Definition without_mode (a : SetAttrs) : SetAttrs :=
  {| s_mode := None; s_uid := s_uid a; s_gid := s_gid a; s_size := s_size a; s_atime := s_atime a; s_mtime := s_mtime a |}.
Definition without_mode_size (a : SetAttrs) : SetAttrs :=
  {| s_mode := None; s_uid := s_uid a; s_gid := s_gid a; s_size := None; s_atime := s_atime a; s_mtime := s_mtime a |}.

Definition rdev_of (spec : specdata3) : u64 := Z.lor (Z.shiftl (specdata1 spec) 32) (specdata2 spec).

Definition fattr_for (fsid : u64) (attr : FileAttr) : fattr3 :=
  {| f_type := kind_to_ftype (a_kind attr); f_mode := a_mode attr; f_nlink := a_nlink attr; f_uid := a_uid attr; f_gid := a_gid attr;
     f_size := wire_size attr; f_used := wire_used attr;
     f_rdev := {| specdata1 := as_u32 (Z.shiftr (a_rdev attr) 32); specdata2 := as_u32 (a_rdev attr) |};
     f_fsid := fsid; f_fileid := a_ino attr;
     f_atime := to_nfstime (a_atime attr); f_mtime := to_nfstime (a_mtime attr); f_ctime := to_nfstime (a_ctime attr) |}.

(** The bits [access] grants to a caller with the rights [rwx]. *)
Definition granted (rwx : u32) : u32 :=
  let allowed := 0 in
  let allowed := if negb (Z.land rwx 4 =? 0) then Z.lor allowed ACCESS3_READ else allowed in
  let allowed := if negb (Z.land rwx 2 =? 0) then Z.lor allowed (Z.lor (Z.lor ACCESS3_MODIFY ACCESS3_EXTEND) ACCESS3_DELETE) else allowed in
  if negb (Z.land rwx 1 =? 0) then Z.lor allowed (Z.lor ACCESS3_LOOKUP ACCESS3_EXECUTE) else allowed.

(** "system.slatefs.createverf" *)
Definition EXCL_VERF_XATTR : bytes :=
  [115; 121; 115; 116; 101; 109; 46; 115; 108; 97; 116; 101; 102; 115; 46; 99; 114; 101; 97; 116; 101; 118; 101; 114; 102].
Definition READDIR_PAGE : usize := 256.

(** * The adapter *)

(** The operations the quota audit hook is told of. *)
Inductive AuditOp : Type := A_setattr | A_write | A_create | A_setxattr | A_mkdir | A_symlink | A_link | A_mknod.

(** [SlateFsNfs] but for the volume. *)
Record NfsExport : Type := {
  ne_fh : FhCodec;
  ne_policy : SquashPolicy;
  ne_atime_policy : AtimeMode;
  ne_rate_limited : bool;
  ne_audited : bool
}.

(** How a request fails: with a status, or by a panic of its task. *)
Inductive NfsFail : Type := NStat (e : nfsstat3) | NPanic.

Inductive NextResult (T : Type) : Type := NextOk (a : T) | NextEof | NextErr (e : nfsstat3).
Arguments NextOk {T} a.
Arguments NextEof {T}.
Arguments NextErr {T} e.

Record DirEntryPlus : Type := {
  dp_fileid : u64;
  dp_name : bytes;
  dp_cookie : u64;
  dp_attributes : option fattr3;
  dp_handle : option SlateFsHandle
}.

(** [SlateDirIter] but for the volume. *)
Record SlateDirIter : Type := {
  it_fh : FhCodec;
  it_creds : Credentials;
  it_dir : u64;
  it_cookie : u64;
  it_buffer : list DirEntry;
  it_eof : bool
}.

Section adapter.
Context {DB : SlateDB} {AC : MokaCache u64 Inode} {NC : MokaCache (u64 * bytes) unit} {NCR : NameCrypto} {HM : HmacSha256}.

(** The volume, the answers of the rate limiter to come (empty admits), and
    the rejections the audit hook was told of. *)
Record Nfs : Type := mkNfs {
  n_vol : Volume;
  n_admits : list bool;
  n_audit : list AuditOp
}.

Definition set_n_vol (v : Volume) (s : Nfs) : Nfs := mkNfs v (n_admits s) (n_audit s).
Definition set_n_admits (l : list bool) (s : Nfs) : Nfs := mkNfs (n_vol s) l (n_audit s).
Definition set_n_audit (l : list AuditOp) (s : Nfs) : Nfs := mkNfs (n_vol s) (n_admits s) l.

Definition NfsM (A : Type) : Type := ST Nfs (Halt NfsFail) A.

Definition nfail {A} (e : nfsstat3) : NfsM A := st_fail (Raise (NStat e)).
Definition nfs_fsid (s : Nfs) : u64 := sb_fsid (v_superblock (n_vol s)).

(** [self.volume.op(..).await] *)
Definition ntry {A} (m : FsM A) : NfsM (result FsError A) := fun s =>
  let '(r, v) := m (n_vol s) in
  (match r with Ok a => Ok (Ok a) | Err (Raise e) => Ok (Err e) | Err OutOfFuel => Err OutOfFuel end, set_n_vol v s).

(** [.map_err(map_err)?] *)
Definition status {A} (r : result FsError A) : NfsM A := match r with Ok a => st_ret a | Err e => nfail (nfs_map_err e) end.
Definition ncall {A} (m : FsM A) : NfsM A := r <- ntry m ;; status r.

Context (others : nat -> Volume -> Volume) (fuel : nat) (x : NfsExport) (auth : option auth_unix).

Definition nfs_creds : Credentials := credentials (ne_policy x) auth.

Definition nfs_check_rate (bytes : u64) : NfsM unit :=
  if ne_rate_limited x then
    s <- st_get ;;
    match n_admits s with
    | [] => st_ret tt
    | b :: l => st_modify (set_n_admits l) ;;; if (b : bool) then st_ret tt else nfail (nfs_map_err WouldBlock)
    end
  else st_ret tt.

Definition ino_of (h : SlateFsHandle) : NfsM u64 :=
  match fh_verify (ne_fh x) h with Some i => st_ret i | None => nfail NFS3ERR_BADHANDLE end.

Definition handle_for (attr : FileAttr) : SlateFsHandle := fh_make (ne_fh x) (a_ino attr) (a_generation attr).

Definition nfs_fattr (attr : FileAttr) : NfsM fattr3 := s <- st_get ;; st_ret (fattr_for (nfs_fsid s) attr).

Definition map_vfs_result {A} (operation : AuditOp) (r : result FsError A) : NfsM A :=
  (match r with
   | Err QuotaExceeded => if ne_audited x then st_modify (fun s => set_n_audit (n_audit s ++ [operation]) s) else st_ret tt
   | _ => st_ret tt
   end) ;;;
  status r.

(** [self.map_vfs_result(operation, self.volume.op(..).await).await?] *)
Definition acall {A} (operation : AuditOp) (m : FsM A) : NfsM A := r <- ntry m ;; map_vfs_result operation r.

Definition getattr_checked (h : SlateFsHandle) : NfsM FileAttr :=
  ino <- ino_of h ;;
  attr <- ncall (getattr ino) ;;
  if negb (a_generation attr =? fh_generation h) then nfail NFS3ERR_STALE else st_ret attr.

(** ** [NfsReadFileSystem] *)

Definition nfs_root_dir : SlateFsHandle := fh_make (ne_fh x) ROOT_INO 0.

Definition nfs_lookup (dirid : SlateFsHandle) (filename : bytes) : NfsM SlateFsHandle :=
  dir <- ino_of dirid ;;
  nfs_check_rate 0 ;;;
  attr <- ncall (lookup nfs_creds dir filename) ;;
  st_ret (handle_for attr).

Definition nfs_getattr (id : SlateFsHandle) : NfsM fattr3 :=
  nfs_check_rate 0 ;;;
  attr <- getattr_checked id ;;
  nfs_fattr attr.

Definition nfs_read (id : SlateFsHandle) (offset : u64) (count : u32) : NfsM (bytes * bool) :=
  ino <- ino_of id ;;
  nfs_check_rate count ;;;
  attr <- ncall (getattr ino) ;;
  data <- ncall (read_with_atime_policy others nfs_creds ino offset count (ne_atime_policy x)) ;;
  let eof := a_size attr <=? as_u64 (offset + len data) in
  st_ret (data, eof).

Definition nfs_readdirplus (dirid : SlateFsHandle) (cookie : u64) : NfsM SlateDirIter :=
  dir <- ino_of dirid ;;
  nfs_check_rate 0 ;;;
  attr <- ncall (getattr dir) ;;
  if negb (bool_decide (a_kind attr = Dir)) then nfail NFS3ERR_NOTDIR
  else
    s <- st_get ;;
    st_ret {| it_fh := {| fc_fsid := nfs_fsid s; fc_key := fc_key (ne_fh x) |}; it_creds := nfs_creds; it_dir := dir;
              it_cookie := cookie; it_buffer := []; it_eof := false |}.

Definition nfs_readlink (id : SlateFsHandle) : NfsM bytes :=
  ino <- ino_of id ;;
  nfs_check_rate 0 ;;;
  ncall (readlink ino).

Definition MB : u32 := 1024 * 1024.

Definition nfs_fsinfo (root : SlateFsHandle) : NfsM FSINFO3resok :=
  nfs_check_rate 0 ;;;
  attr <- getattr_checked root ;;
  f <- nfs_fattr attr ;;
  s <- st_get ;;
  st_ret {| fi_obj_attributes := Some f; fi_rtmax := MB; fi_rtpref := MB; fi_rtmult := 4096; fi_wtmax := MB; fi_wtpref := MB;
            fi_wtmult := 4096; fi_dtpref := MB; fi_maxfilesize := as_u64 (v_chunk_size (n_vol s) * U32_MAX);
            fi_time_delta := {| nt_seconds := 0; nt_nseconds := 1 |};
            fi_properties := Z.lor (Z.lor FSF3_SYMLINK FSF3_HOMOGENEOUS) FSF3_CANSETTIME |}.

Definition nfs_access (id : SlateFsHandle) (requested : u32) : NfsM u32 :=
  nfs_check_rate 0 ;;;
  let creds := nfs_creds in
  if is_root creds then st_ret requested
  else
    ino <- ino_of id ;;
    attr <- ncall (getattr ino) ;;
    let rwx := if c_uid creds =? a_uid attr then Z.land (Z.shiftr (a_mode attr) 6) 7
               else if in_group creds (a_gid attr) then Z.land (Z.shiftr (a_mode attr) 3) 7
               else Z.land (a_mode attr) 7 in
    st_ret (Z.land requested (granted rwx)).

Definition nfs_fsstat (root : SlateFsHandle) : NfsM FSSTAT3resok :=
  nfs_check_rate 0 ;;;
  attr <- getattr_checked root ;;
  stat <- ncall statfs ;;
  f <- nfs_fattr attr ;;
  st_ret {| fs_obj_attributes := Some f; fs_tbytes := sf_total_bytes stat; fs_fbytes := sf_free_bytes stat; fs_abytes := sf_avail_bytes stat;
            fs_tfiles := sf_total_inodes stat; fs_ffiles := sf_free_inodes stat; fs_afiles := sf_free_inodes stat; fs_invarsec := 0 |}.

(** ** [NfsFileSystem] *)

(** [capabilities]: a mounted volume keeps the default [Vfs::read_only]. *)
Definition writable : bool := true.

Definition nfs_setattr (id : SlateFsHandle) (a : sattr3) : NfsM fattr3 :=
  ino <- ino_of id ;;
  nfs_check_rate 0 ;;;
  let attrs := to_setattrs a in
  if SetAttrs_is_empty attrs then
    attr <- ncall (getattr ino) ;;
    nfs_fattr attr
  else
    attr <- acall A_setattr (setattr others nfs_creds ino attrs) ;;
    nfs_fattr attr.

Definition nfs_write (id : SlateFsHandle) (offset : u64) (data : bytes) (stable : stable_how) : NfsM (fattr3 * stable_how) :=
  ino <- ino_of id ;;
  nfs_check_rate (len data) ;;;
  acall A_write (write others nfs_creds ino offset data) ;;;
  achieved <- (match stable with
               | UNSTABLE => st_ret UNSTABLE
               | DATA_SYNC | FILE_SYNC => ncall fsync ;;; st_ret FILE_SYNC
               end) ;;
  attr <- ncall (getattr ino) ;;
  f <- nfs_fattr attr ;;
  st_ret (f, achieved).

Definition nfs_create (dirid : SlateFsHandle) (filename : bytes) (a : sattr3) : NfsM (SlateFsHandle * fattr3) :=
  dir <- ino_of dirid ;;
  nfs_check_rate 0 ;;;
  let requested := to_setattrs a in
  let mode := default 420 (s_mode requested) in
  created <- acall A_create (create others nfs_creds dir filename mode false) ;;
  let followup := without_mode requested in
  post <- (if negb (SetAttrs_is_empty followup) then acall A_setattr (setattr others nfs_creds (a_ino created) followup)
           else st_ret created) ;;
  f <- nfs_fattr post ;;
  st_ret (handle_for post, f).

Definition nfs_create_exclusive (dirid : SlateFsHandle) (name : bytes) (verf : bytes) : NfsM SlateFsHandle :=
  dir <- ino_of dirid ;;
  nfs_check_rate 0 ;;;
  r <- ntry (create others nfs_creds dir name 420 true) ;;
  match r with
  | Ok attr =>
      acall A_setxattr (setxattr others nfs_creds (a_ino attr) EXCL_VERF_XATTR verf) ;;;
      st_ret (handle_for attr)
  | Err Exists =>
      existing <- ncall (lookup nfs_creds dir name) ;;
      r <- ntry (getxattr nfs_creds (a_ino existing) EXCL_VERF_XATTR) ;;
      match r with
      | Ok v => if bool_decide (v = verf) then st_ret (handle_for existing) else nfail NFS3ERR_EXIST
      | Err _ => nfail NFS3ERR_EXIST
      end
  | Err e => map_vfs_result A_create (Err e)
  end.

Definition nfs_mkdir (dirid : SlateFsHandle) (dirname : bytes) (a : sattr3) : NfsM (SlateFsHandle * fattr3) :=
  dir <- ino_of dirid ;;
  nfs_check_rate 0 ;;;
  let creds := nfs_creds in
  let requested := to_setattrs a in
  let mode := default o755 (s_mode requested) in
  made <- acall A_mkdir (mkdir others creds dir dirname mode) ;;
  let followup := without_mode_size requested in
  made <- (if negb (SetAttrs_is_empty followup) then acall A_setattr (setattr others creds (a_ino made) followup)
           else st_ret made) ;;
  f <- nfs_fattr made ;;
  st_ret (handle_for made, f).

Definition nfs_remove (dirid : SlateFsHandle) (name : bytes) : NfsM unit :=
  dir <- ino_of dirid ;;
  nfs_check_rate 0 ;;;
  child <- ncall (lookup nfs_creds dir name) ;;
  if bool_decide (a_kind child = Dir) then ncall (rmdir others fuel nfs_creds dir name)
  else ncall (unlink others fuel nfs_creds dir name).

Definition nfs_rename (from_dirid : SlateFsHandle) (from_name : bytes) (to_dirid : SlateFsHandle) (to_name : bytes) : NfsM unit :=
  from <- ino_of from_dirid ;;
  to <- ino_of to_dirid ;;
  nfs_check_rate 0 ;;;
  ncall (rename others fuel nfs_creds from from_name to to_name).

Definition nfs_symlink (dirid : SlateFsHandle) (linkname target : bytes) (_ : sattr3) : NfsM (SlateFsHandle * fattr3) :=
  dir <- ino_of dirid ;;
  nfs_check_rate (len target) ;;;
  attr <- acall A_symlink (symlink others nfs_creds dir linkname target) ;;
  f <- nfs_fattr attr ;;
  st_ret (handle_for attr, f).

Definition nfs_link (file link_dir : SlateFsHandle) (link_name : bytes) : NfsM fattr3 :=
  ino <- ino_of file ;;
  dir <- ino_of link_dir ;;
  nfs_check_rate 0 ;;;
  attr <- acall A_link (link others nfs_creds ino dir link_name) ;;
  nfs_fattr attr.

(** The kind, device and attributes [mknod] is asked for. *)
Definition mknod_args (what : mknoddata3) : option (FileKind * u64 * sattr3) :=
  match what with
  | MK_CHR spec a => Some (CharDev, rdev_of spec, a)
  | MK_BLK spec a => Some (BlockDev, rdev_of spec, a)
  | MK_SOCK a => Some (Socket, 0, a)
  | MK_FIFO a => Some (Fifo, 0, a)
  | MK_default => None
  end.

Definition nfs_mknod (dirid : SlateFsHandle) (name : bytes) (what : mknoddata3) : NfsM (SlateFsHandle * fattr3) :=
  dir <- ino_of dirid ;;
  nfs_check_rate 0 ;;;
  match mknod_args what with
  | None => nfail NFS3ERR_BADTYPE
  | Some (kind, rdev, a) =>
      let mode := default 420 (s_mode (to_setattrs a)) in
      attr <- acall A_mknod (mknod others nfs_creds dir name mode kind rdev) ;;
      f <- nfs_fattr attr ;;
      st_ret (handle_for attr, f)
  end.

Definition nfs_commit (id : SlateFsHandle) : NfsM unit :=
  ino <- ino_of id ;;
  nfs_check_rate 0 ;;;
  ncall fsync.

(** ** [SlateDirIter::next] *)

(** The entry handed out for [e], whose attributes are [attr]. *)
Definition entry_plus (fsid : u64) (fh : FhCodec) (e : DirEntry) (attr : FileAttr) : DirEntryPlus :=
  {| dp_fileid := de_ino e; dp_name := de_name e; dp_cookie := de_cookie e;
     dp_attributes := Some (fattr_for fsid attr); dp_handle := Some (fh_make fh (a_ino attr) (a_generation attr)) |}.

Definition set_it (cookie : u64) (buffer : list DirEntry) (eof : bool) (it : SlateDirIter) : SlateDirIter :=
  {| it_fh := it_fh it; it_creds := it_creds it; it_dir := it_dir it; it_cookie := cookie; it_buffer := buffer; it_eof := eof |}.

Fixpoint iter_next (rounds : nat) (it : SlateDirIter) : NfsM (NextResult DirEntryPlus * SlateDirIter) :=
  match rounds with
  | O => st_fail OutOfFuel
  | S rounds =>
      match it_buffer it with
      | entry :: buffer =>
          let it := set_it (de_cookie entry) buffer (it_eof it) it in
          r <- ntry (getattr (de_ino entry)) ;;
          match r with
          | Ok attr => s <- st_get ;; st_ret (NextOk (entry_plus (nfs_fsid s) (it_fh it) entry attr), it)
          | Err Stale => iter_next rounds it
          | Err e => st_ret (NextErr (nfs_map_err e), it)
          end
      | [] =>
          if it_eof it then st_ret (NextEof, it)
          else
            r <- ntry (readdir (it_creds it) (it_dir it) (it_cookie it) READDIR_PAGE) ;;
            match r with
            | Ok page =>
                let it := set_it (it_cookie it) (rd_entries page) (rd_eof page) it in
                match it_buffer it, it_eof it with
                | [], true => st_ret (NextEof, it)
                | _, _ => iter_next rounds it
                end
            | Err e => st_ret (NextErr (nfs_map_err e), it)
            end
      end
  end.
End adapter.
