(* ===== verification/NfsSrv.v ===== *)
(** The NFS server: the procedures of [nfs3-server/src/nfs_handlers.rs] and
    [mount_handlers.rs] on the adapter, and the dispatch of RPC messages
    ([rpcwire.rs], [portmap_handlers.rs]) behind the transaction tracker.

    Messages are values: the XDR encoding is that of the crate [nfs3_types],
    which is a parameter where its sizes matter. A request runs to completion;
    what other requests do to the volume happens at its lock waits. *)

From S2P Require Import Prelude P9.
From S2P Require Import Keys Meta Store Data Quota Locks Volume Vfs NfsFh NfsTx Nfs.

(** * Messages *)

Record wcc_attr : Type := { w_size : u64; w_mtime : nfstime3; w_ctime : nfstime3 }.
Record wcc_data : Type := { w_before : option wcc_attr; w_after : option fattr3 }.
Definition wcc_default : wcc_data := {| w_before := None; w_after := None |}.

Record entry3 : Type := { e3_fileid : u64; e3_name : bytes; e3_cookie : u64 }.
Record entryplus3 : Type := {
  ep_fileid : u64;
  ep_name : bytes;
  ep_cookie : u64;
  ep_attributes : option fattr3;
  ep_handle : option bytes
}.

Inductive createhow3 : Type := C_UNCHECKED (a : sattr3) | C_GUARDED (a : sattr3) | C_EXCLUSIVE (verf : bytes).

(** The arguments of the procedures; handles are as they came off the wire. *)
Inductive nfs_args : Type :=
| A_NULL
| A_GETATTR (object : bytes)
| A_SETATTR (object : bytes) (new_attributes : sattr3) (guard : option nfstime3)
| A_LOOKUP (dir name : bytes)
| A_ACCESS (object : bytes) (access : u32)
| A_READLINK (symlink : bytes)
| A_READ (file : bytes) (offset : u64) (count : u32)
| A_WRITE (file : bytes) (offset : u64) (count : u32) (stable : stable_how) (data : bytes)
| A_CREATE (dir name : bytes) (how : createhow3)
| A_MKDIR (dir name : bytes) (attributes : sattr3)
| A_SYMLINK (dir name : bytes) (attributes : sattr3) (target : bytes)
| A_MKNOD (dir name : bytes) (what : mknoddata3)
| A_REMOVE (dir name : bytes)
| A_RMDIR (dir name : bytes)
| A_RENAME (from_dir from_name to_dir to_name : bytes)
| A_LINK (file dir name : bytes)
| A_READDIR (dir : bytes) (cookie : u64) (cookieverf : bytes) (count : u32)
| A_READDIRPLUS (dir : bytes) (cookie : u64) (cookieverf : bytes) (dircount maxcount : u32)
| A_FSSTAT (fsroot : bytes)
| A_FSINFO (fsroot : bytes)
| A_PATHCONF (object : bytes)
| A_COMMIT (file : bytes) (offset : u64) (count : u32).

Record PATHCONF3resok : Type := {
  pc_obj_attributes : option fattr3; pc_linkmax : u32; pc_name_max : u32; pc_no_trunc : bool;
  pc_chown_restricted : bool; pc_case_insensitive : bool; pc_case_preserving : bool
}.

(** The replies, each a success or a status with what accompanies it. *)
Inductive nfs_res : Type :=
| NULL3res
| GETATTR3res (r : result nfsstat3 fattr3)
| SETATTR3res (r : result (nfsstat3 * wcc_data) wcc_data)
| LOOKUP3res (r : result (nfsstat3 * option fattr3) (bytes * option fattr3 * option fattr3))
| ACCESS3res (r : result (nfsstat3 * option fattr3) (option fattr3 * u32))
| READLINK3res (r : result (nfsstat3 * option fattr3) (option fattr3 * bytes))
| READ3res (r : result (nfsstat3 * option fattr3) (option fattr3 * u32 * bool * bytes))
| WRITE3res (r : result (nfsstat3 * wcc_data) (wcc_data * u32 * stable_how * bytes))
| CREATE3res (r : result (nfsstat3 * wcc_data) (option bytes * option fattr3 * wcc_data))
| MKDIR3res (r : result (nfsstat3 * wcc_data) (option bytes * option fattr3 * wcc_data))
| SYMLINK3res (r : result (nfsstat3 * wcc_data) (option bytes * option fattr3 * wcc_data))
| MKNOD3res (r : result (nfsstat3 * wcc_data) (option bytes * option fattr3 * wcc_data))
| REMOVE3res (r : result (nfsstat3 * wcc_data) wcc_data)
| RENAME3res (r : result (nfsstat3 * (wcc_data * wcc_data)) (wcc_data * wcc_data))
| LINK3res (r : result (nfsstat3 * (option fattr3 * wcc_data)) (option fattr3 * wcc_data))
| READDIR3res (r : result (nfsstat3 * option fattr3) (option fattr3 * bytes * list entry3 * bool))
| READDIRPLUS3res (r : result (nfsstat3 * option fattr3) (option fattr3 * bytes * list entryplus3 * bool))
| FSSTAT3res (r : result (nfsstat3 * option fattr3) FSSTAT3resok)
| FSINFO3res (r : result (nfsstat3 * option fattr3) FSINFO3resok)
| PATHCONF3res (r : result (nfsstat3 * option fattr3) PATHCONF3resok)
| COMMIT3res (r : result (nfsstat3 * wcc_data) (wcc_data * bytes)).

(** ** Cookie verifiers ([nfs_ext.rs]) *)

Definition NONE_COOKIE_VERF : bytes := to_be 8 0.
Definition SOME_COOKIE_VERF : bytes := to_be 8 18432388630850633676.
Definition cookieverf_from_attr (dir_attr : option fattr3) : bytes :=
  match dir_attr with
  | Some attr => to_be 8 (Z.lor (Z.shiftl (nt_seconds (f_mtime attr)) 32) (nt_nseconds (f_mtime attr)))
  | None => SOME_COOKIE_VERF
  end.
Definition cookieverf_is_none (v : bytes) : bool := bool_decide (v = NONE_COOKIE_VERF).

(** What the server uses of [nfs3_types::xdr_codec]: whether [BoundedList] has
    room for one more element, and the packed sizes of the parts of a reply. *)
Class XdrCodec := {
  entry_fits : usize -> list entry3 -> entry3 -> bool;
  entryplus_fits : usize -> list entryplus3 -> entryplus3 -> bool;
  xid_size : usize;
  u64_size : usize;
  filename3_size : bytes -> usize;
  readdir3resok_size : option fattr3 -> bytes -> usize
}.

Definition handle_status (e : HandleError) : nfsstat3 := match e with HBadHandle => NFS3ERR_BADHANDLE | HStale => NFS3ERR_STALE end.

(** [DirEntryPlus::into_entry] *)
Definition into_entry (cv : FileHandleConverter) (e : DirEntryPlus) : entryplus3 :=
  {| ep_fileid := dp_fileid e; ep_name := dp_name e; ep_cookie := dp_cookie e; ep_attributes := dp_attributes e;
     ep_handle := fh_to_nfs cv <$> dp_handle e |}.

(** [ReadDirPlusToReadDir::next], of an entry. *)
Definition plain_entry (e : DirEntryPlus) : entry3 := {| e3_fileid := dp_fileid e; e3_name := dp_name e; e3_cookie := dp_cookie e |}.

(** [BoundedEntryPlusList::try_push]: the list and the directory bytes used. *)
Definition try_push_plus `{XdrCodec} (dircount maxcount : usize) (entry : entryplus3) (acc : list entryplus3 * usize) :
    option (list entryplus3 * usize) :=
  let '(entries, used) := acc in
  let added := u64_size + 4 + filename3_size (ep_name entry) + u64_size in
  if dircount <? used + added then None
  else if entryplus_fits maxcount entries entry then Some (entries ++ [entry], used + added) else None.

Definition wcc_of (f : fattr3) : wcc_attr := {| w_size := f_size f; w_mtime := f_mtime f; w_ctime := f_ctime f |}.

Section server.
Context {DB : SlateDB} {AC : MokaCache u64 Inode} {NC : MokaCache (u64 * bytes) unit} {NCR : NameCrypto} {HM : HmacSha256} {XC : XdrCodec}.

(** [match m.await { Ok(..) => .., Err(stat) => .. }] *)
Definition attempt {A} (m : NfsM A) : NfsM (result nfsstat3 A) := fun s =>
  match m s with
  | (Ok a, s) => (Ok (Ok a), s)
  | (Err (Raise (NStat e)), s) => (Ok (Err e), s)
  | (Err h, s) => (Err h, s)
  end.

Definition to_option {E A} (r : result E A) : option A := match r with Ok a => Some a | Err _ => None end.

(** [nfs_option_from_result(m.await)] *)
Definition nfs_option_from_result {A} (m : NfsM A) : NfsM (option A) := r <- attempt m ;; st_ret (to_option r).

Context (others : nat -> Volume -> Volume) (fuel : nat) (x : NfsExport) (cv : FileHandleConverter) (auth : option auth_unix).

Abbreviation nfs_getattr := (nfs_getattr x).

Definition get_wcc_attr (id : SlateFsHandle) : NfsM wcc_attr := f <- nfs_getattr id ;; st_ret (wcc_of f).

(** [fh_to_id!] *)
Definition fh_to_id (fh : bytes) (bad : nfsstat3 -> nfs_res) (k : SlateFsHandle -> NfsM nfs_res) : NfsM nfs_res :=
  match fh_from_nfs cv fh with Ok id => k id | Err e => st_ret (bad (handle_status e)) end.

(** The guard of the procedures that write. *)
Definition if_writable (bad : nfsstat3 -> nfs_res) (k : NfsM nfs_res) : NfsM nfs_res :=
  if negb writable then st_ret (bad NFS3ERR_ROFS) else k.

(** A directory must be there before something is done in it. *)
Definition with_wcc (id : SlateFsHandle) (bad : nfsstat3 -> nfs_res) (k : wcc_attr -> NfsM nfs_res) : NfsM nfs_res :=
  r <- attempt (get_wcc_attr id) ;;
  match r with Ok w => k w | Err stat => st_ret (bad stat) end.

Definition nfsproc3_getattr (object : bytes) : NfsM nfs_res :=
  fh_to_id object (fun e => GETATTR3res (Err e)) (fun id =>
  r <- attempt (nfs_getattr id) ;;
  st_ret (GETATTR3res r)).

Definition nfsproc3_lookup (dir name : bytes) : NfsM nfs_res :=
  fh_to_id dir (fun e => LOOKUP3res (Err (e, None))) (fun dirid =>
  dir_attributes <- nfs_option_from_result (nfs_getattr dirid) ;;
  r <- attempt (nfs_lookup x auth dirid name) ;;
  match r with
  | Ok fid =>
      obj_attributes <- nfs_option_from_result (nfs_getattr fid) ;;
      st_ret (LOOKUP3res (Ok (fh_to_nfs cv fid, obj_attributes, dir_attributes)))
  | Err stat => st_ret (LOOKUP3res (Err (stat, dir_attributes)))
  end).

Definition nfsproc3_read (file : bytes) (offset : u64) (count : u32) : NfsM nfs_res :=
  fh_to_id file (fun e => READ3res (Err (e, None))) (fun id =>
  file_attributes <- nfs_option_from_result (nfs_getattr id) ;;
  r <- attempt (nfs_read others x auth id offset count) ;;
  match r with
  | Ok (data, eof) =>
      if U32_MAX <? len data then st_fail (Raise NPanic) else st_ret (READ3res (Ok (file_attributes, len data, eof, data)))
  | Err stat => st_ret (READ3res (Err (stat, file_attributes)))
  end).

Definition nfsproc3_fsinfo (fsroot : bytes) : NfsM nfs_res :=
  fh_to_id fsroot (fun e => FSINFO3res (Err (e, None))) (fun id =>
  r <- attempt (nfs_fsinfo x id) ;;
  st_ret (FSINFO3res (map_err (fun e => (e, None)) r))).

Definition nfsproc3_access (object : bytes) (requested : u32) : NfsM nfs_res :=
  fh_to_id object (fun e => ACCESS3res (Err (e, None))) (fun id =>
  obj_attributes <- nfs_option_from_result (nfs_getattr id) ;;
  let requested := if negb writable then Z.land requested (Z.lor (Z.lor ACCESS3_READ ACCESS3_LOOKUP) ACCESS3_EXECUTE) else requested in
  r <- attempt (nfs_access x auth id requested) ;;
  match r with
  | Ok allowed => st_ret (ACCESS3res (Ok (obj_attributes, allowed)))
  | Err stat => st_ret (ACCESS3res (Err (stat, obj_attributes)))
  end).

Definition nfsproc3_pathconf (object : bytes) : NfsM nfs_res :=
  fh_to_id object (fun e => PATHCONF3res (Err (e, None))) (fun id =>
  obj_attr <- nfs_option_from_result (nfs_getattr id) ;;
  st_ret (PATHCONF3res (Ok {| pc_obj_attributes := obj_attr; pc_linkmax := 0; pc_name_max := 32768; pc_no_trunc := true;
                              pc_chown_restricted := true; pc_case_insensitive := false; pc_case_preserving := true |}))).

Definition nfsproc3_fsstat (fsroot : bytes) : NfsM nfs_res :=
  fh_to_id fsroot (fun e => FSSTAT3res (Err (e, None))) (fun id =>
  r <- attempt (nfs_fsstat x id) ;;
  st_ret (FSSTAT3res (map_err (fun e => (e, None)) r))).

Definition nfsproc3_readlink (symlink : bytes) : NfsM nfs_res :=
  fh_to_id symlink (fun e => READLINK3res (Err (e, None))) (fun id =>
  symlink_attributes <- nfs_option_from_result (nfs_getattr id) ;;
  r <- attempt (nfs_readlink x id) ;;
  match r with
  | Ok data => st_ret (READLINK3res (Ok (symlink_attributes, data)))
  | Err stat => st_ret (READLINK3res (Err (stat, symlink_attributes)))
  end).

(** ** Directories *)

(** The loop of [nfsproc3_readdirplus]: the entries pushed and whether the
    directory ended. *)
Fixpoint fill_plus (rounds : nat) (dircount maxcount : usize) (it : SlateDirIter) (acc : list entryplus3 * usize) :
    NfsM (result nfsstat3 (list entryplus3 * bool)) :=
  match rounds with
  | O => st_fail OutOfFuel
  | S rounds =>
      let* (r, it) := iter_next fuel it in
      match r with
      | NextOk e =>
          match try_push_plus dircount maxcount (into_entry cv e) acc with
          | Some acc => fill_plus rounds dircount maxcount it acc
          | None => st_ret (Ok (acc.1, false))
          end
      | NextEof => st_ret (Ok (acc.1, true))
      | NextErr stat => st_ret (Err stat)
      end
  end.

Definition nfsproc3_readdirplus (dir : bytes) (cookie : u64) (cookieverf : bytes) (dircount maxcount : u32) : NfsM nfs_res :=
  fh_to_id dir (fun e => READDIRPLUS3res (Err (e, None))) (fun dirid =>
  dir_attributes <- nfs_option_from_result (nfs_getattr dirid) ;;
  let dirversion := cookieverf_from_attr dir_attributes in
  if maxcount <? 128 then st_ret (READDIRPLUS3res (Err (NFS3ERR_TOOSMALL, dir_attributes)))
  else
    let max_bytes_allowed := maxcount - 128 in
    r <- attempt (nfs_readdirplus x auth dirid cookie) ;;
    match r with
    | Err stat => st_ret (READDIRPLUS3res (Err (stat, dir_attributes)))
    | Ok it =>
        r <- fill_plus fuel dircount max_bytes_allowed it ([], 0) ;;
        match r with
        | Err stat => st_ret (READDIRPLUS3res (Err (stat, dir_attributes)))
        | Ok (entries, eof) =>
            if bool_decide (entries = []) && negb eof then st_ret (READDIRPLUS3res (Err (NFS3ERR_TOOSMALL, dir_attributes)))
            else st_ret (READDIRPLUS3res (Ok (dir_attributes, dirversion, entries, eof)))
        end
    end).

(** The loop of [nfsproc3_readdir]. *)
Fixpoint fill_plain (rounds : nat) (maxcount : usize) (it : SlateDirIter) (entries : list entry3) :
    NfsM (result nfsstat3 (list entry3 * bool)) :=
  match rounds with
  | O => st_fail OutOfFuel
  | S rounds =>
      let* (r, it) := iter_next fuel it in
      match r with
      | NextOk e =>
          if entry_fits maxcount entries (plain_entry e) then fill_plain rounds maxcount it (entries ++ [plain_entry e])
          else st_ret (Ok (entries, false))
      | NextEof => st_ret (Ok (entries, true))
      | NextErr stat => st_ret (Err stat)
      end
  end.

Definition nfsproc3_readdir (dir : bytes) (cookie : u64) (cookieverf : bytes) (count : u32) : NfsM nfs_res :=
  fh_to_id dir (fun e => READDIR3res (Err (e, None))) (fun dirid =>
  dir_attributes <- nfs_option_from_result (nfs_getattr dirid) ;;
  let verf := cookieverf_from_attr dir_attributes in
  if (if cookieverf_is_none cookieverf then negb (cookie =? 0) else negb (bool_decide (cookieverf = verf)))
  then st_ret (READDIR3res (Err (NFS3ERR_BAD_COOKIE, None)))
  else
    let empty_len := xid_size + readdir3resok_size dir_attributes verf in
    if count <? empty_len then st_ret (READDIR3res (Err (NFS3ERR_TOOSMALL, dir_attributes)))
    else
      let max_bytes_allowed := count - empty_len in
      r <- attempt (nfs_readdirplus x auth dirid cookie) ;;
      match r with
      | Err stat => st_ret (READDIR3res (Err (stat, dir_attributes)))
      | Ok it =>
          r <- fill_plain fuel max_bytes_allowed it [] ;;
          match r with
          | Err stat => st_ret (READDIR3res (Err (stat, dir_attributes)))
          | Ok (entries, eof) =>
              if bool_decide (entries = []) && negb eof then st_ret (READDIR3res (Err (NFS3ERR_TOOSMALL, dir_attributes)))
              else st_ret (READDIR3res (Ok (dir_attributes, verf, entries, eof)))
          end
      end).

(** ** Procedures that write *)

Definition nfsproc3_write (file : bytes) (offset : u64) (count : u32) (stable : stable_how) (data : bytes) : NfsM nfs_res :=
  let bad e := WRITE3res (Err (e, wcc_default)) in
  if_writable bad (
  if negb (len data =? count) then st_ret (bad NFS3ERR_INVAL)
  else
    fh_to_id file bad (fun id =>
    before <- nfs_option_from_result (get_wcc_attr id) ;;
    r <- attempt (nfs_write others x auth id offset data stable) ;;
    match r with
    | Ok (fattr, committed) =>
        st_ret (WRITE3res (Ok ({| w_before := before; w_after := Some fattr |}, count, committed, instance_verf cv)))
    | Err stat => st_ret (WRITE3res (Err (stat, {| w_before := before; w_after := None |})))
    end)).

Definition nfsproc3_commit (file : bytes) (offset : u64) (count : u32) : NfsM nfs_res :=
  fh_to_id file (fun e => COMMIT3res (Err (e, wcc_default))) (fun id =>
  before <- nfs_option_from_result (get_wcc_attr id) ;;
  r <- attempt (nfs_commit x id) ;;
  after <- nfs_option_from_result (nfs_getattr id) ;;
  match r with
  | Ok _ => st_ret (COMMIT3res (Ok ({| w_before := before; w_after := after |}, instance_verf cv)))
  | Err stat => st_ret (COMMIT3res (Err (stat, {| w_before := before; w_after := after |})))
  end).

Definition nfsproc3_create (dir name : bytes) (how : createhow3) : NfsM nfs_res :=
  let bad e := CREATE3res (Err (e, wcc_default)) in
  if_writable bad (fh_to_id dir bad (fun dirid => with_wcc dirid bad (fun w =>
  let before := Some w in
  exists_ <- (match how with
              | C_GUARDED _ => r <- attempt (nfs_lookup x auth dirid name) ;; st_ret (is_ok r)
              | _ => st_ret false
              end) ;;
  if (exists_ : bool) then
    after <- nfs_option_from_result (nfs_getattr dirid) ;;
    st_ret (CREATE3res (Err (NFS3ERR_EXIST, {| w_before := before; w_after := after |})))
  else
    p <- (match how with
          | C_EXCLUSIVE verf =>
              fid <- attempt (nfs_create_exclusive others x auth dirid name verf) ;; st_ret (fid, None)
          | C_UNCHECKED a | C_GUARDED a =>
              r <- attempt (nfs_create others x auth dirid name a) ;;
              match r with Ok (fid, fattr) => st_ret (Ok fid, Some fattr) | Err e => st_ret (Err e, None) end
          end) ;;
    after <- nfs_option_from_result (nfs_getattr dirid) ;;
    let dir_wcc := {| w_before := before; w_after := after |} in
    match p with
    | (Ok fid, postopattr) => st_ret (CREATE3res (Ok (Some (fh_to_nfs cv fid), postopattr, dir_wcc)))
    | (Err stat, _) => st_ret (CREATE3res (Err (stat, dir_wcc)))
    end))).

Definition nfsproc3_setattr (object : bytes) (new_attributes : sattr3) (guard : option nfstime3) : NfsM nfs_res :=
  let bad e := SETATTR3res (Err (e, wcc_default)) in
  if_writable bad (fh_to_id object bad (fun id => with_wcc id bad (fun w =>
  let before := Some w in
  if (match guard with Some g => negb (bool_decide (g = w_ctime w)) | None => false end)
  then st_ret (SETATTR3res (Err (NFS3ERR_NOT_SYNC, {| w_before := before; w_after := None |})))
  else
    r <- attempt (nfs_setattr others x auth id new_attributes) ;;
    match r with
    | Ok f => st_ret (SETATTR3res (Ok {| w_before := before; w_after := Some f |}))
    | Err stat => st_ret (SETATTR3res (Err (stat, {| w_before := before; w_after := None |})))
    end))).

Definition nfsproc3_remove (dir name : bytes) : NfsM nfs_res :=
  let bad e := REMOVE3res (Err (e, wcc_default)) in
  if_writable bad (fh_to_id dir bad (fun dirid => with_wcc dirid bad (fun w =>
  r <- attempt (nfs_remove others fuel x auth dirid name) ;;
  after <- nfs_option_from_result (nfs_getattr dirid) ;;
  let dir_wcc := {| w_before := Some w; w_after := after |} in
  match r with
  | Ok _ => st_ret (REMOVE3res (Ok dir_wcc))
  | Err stat => st_ret (REMOVE3res (Err (stat, dir_wcc)))
  end))).

Definition nfsproc3_rename (from_dir from_name to_dir to_name : bytes) : NfsM nfs_res :=
  let bad e := RENAME3res (Err (e, (wcc_default, wcc_default))) in
  if_writable bad (fh_to_id from_dir bad (fun from_dirid => fh_to_id to_dir bad (fun to_dirid =>
  with_wcc from_dirid bad (fun pre_from => with_wcc to_dirid bad (fun pre_to =>
  r <- attempt (nfs_rename others fuel x auth from_dirid from_name to_dirid to_name) ;;
  post_from <- nfs_option_from_result (nfs_getattr from_dirid) ;;
  post_to <- nfs_option_from_result (nfs_getattr to_dirid) ;;
  let wccs := ({| w_before := Some pre_from; w_after := post_from |}, {| w_before := Some pre_to; w_after := post_to |}) in
  match r with
  | Ok _ => st_ret (RENAME3res (Ok wccs))
  | Err stat => st_ret (RENAME3res (Err (stat, wccs)))
  end))))).

(** The end of the procedures that make a node. *)
Definition made_reply (res : result (nfsstat3 * wcc_data) (option bytes * option fattr3 * wcc_data) -> nfs_res) (dirid : SlateFsHandle)
    (w : wcc_attr) (r : result nfsstat3 (SlateFsHandle * fattr3)) : NfsM nfs_res :=
  after <- nfs_option_from_result (nfs_getattr dirid) ;;
  let dir_wcc := {| w_before := Some w; w_after := after |} in
  match r with
  | Ok (fid, fattr) => st_ret (res (Ok (Some (fh_to_nfs cv fid), Some fattr, dir_wcc)))
  | Err stat => st_ret (res (Err (stat, dir_wcc)))
  end.

Definition nfsproc3_mkdir (dir name : bytes) (attributes : sattr3) : NfsM nfs_res :=
  let bad e := MKDIR3res (Err (e, wcc_default)) in
  if_writable bad (fh_to_id dir bad (fun dirid => with_wcc dirid bad (fun w =>
  r <- attempt (nfs_mkdir others x auth dirid name attributes) ;;
  made_reply MKDIR3res dirid w r))).

Definition nfsproc3_symlink (dir name : bytes) (attributes : sattr3) (target : bytes) : NfsM nfs_res :=
  let bad e := SYMLINK3res (Err (e, wcc_default)) in
  if_writable bad (fh_to_id dir bad (fun dirid => with_wcc dirid bad (fun w =>
  r <- attempt (nfs_symlink others x auth dirid name target attributes) ;;
  made_reply SYMLINK3res dirid w r))).

Definition nfsproc3_mknod (dir name : bytes) (what : mknoddata3) : NfsM nfs_res :=
  let bad e := MKNOD3res (Err (e, wcc_default)) in
  if_writable bad (fh_to_id dir bad (fun dirid => with_wcc dirid bad (fun w =>
  r <- attempt (nfs_mknod others x auth dirid name what) ;;
  made_reply MKNOD3res dirid w r))).

Definition nfsproc3_link (file dir name : bytes) : NfsM nfs_res :=
  let bad e := LINK3res (Err (e, (None, wcc_default))) in
  if_writable bad (fh_to_id file bad (fun fileid => fh_to_id dir bad (fun dirid => with_wcc dirid bad (fun w =>
  r <- attempt (nfs_link others x auth fileid dirid name) ;;
  after <- nfs_option_from_result (nfs_getattr dirid) ;;
  let linkdir_wcc := {| w_before := Some w; w_after := after |} in
  match r with
  | Ok fattr => st_ret (LINK3res (Ok (Some fattr, linkdir_wcc)))
  | Err stat =>
      file_attributes <- nfs_option_from_result (nfs_getattr fileid) ;;
      st_ret (LINK3res (Err (stat, (file_attributes, linkdir_wcc))))
  end)))).

(** The procedures, by the arguments of the call ([handle_nfs]). *)
Definition nfs_proc (args : nfs_args) : NfsM nfs_res :=
  match args with
  | A_NULL => st_ret NULL3res
  | A_GETATTR h => nfsproc3_getattr h
  | A_SETATTR h a guard => nfsproc3_setattr h a guard
  | A_LOOKUP dir name => nfsproc3_lookup dir name
  | A_ACCESS h a => nfsproc3_access h a
  | A_READLINK h => nfsproc3_readlink h
  | A_READ h offset count => nfsproc3_read h offset count
  | A_WRITE h offset count stable data => nfsproc3_write h offset count stable data
  | A_CREATE dir name how => nfsproc3_create dir name how
  | A_MKDIR dir name a => nfsproc3_mkdir dir name a
  | A_SYMLINK dir name a target => nfsproc3_symlink dir name a target
  | A_MKNOD dir name what => nfsproc3_mknod dir name what
  | A_REMOVE dir name | A_RMDIR dir name => nfsproc3_remove dir name
  | A_RENAME fd fn td tn => nfsproc3_rename fd fn td tn
  | A_LINK file dir name => nfsproc3_link file dir name
  | A_READDIR dir cookie verf count => nfsproc3_readdir dir cookie verf count
  | A_READDIRPLUS dir cookie verf dircount maxcount => nfsproc3_readdirplus dir cookie verf dircount maxcount
  | A_FSSTAT h => nfsproc3_fsstat h
  | A_FSINFO h => nfsproc3_fsinfo h
  | A_PATHCONF h => nfsproc3_pathconf h
  | A_COMMIT h offset count => nfsproc3_commit h offset count
  end.
End server.

(** * Mounting *)

Inductive mountstat3 : Type := MNT3ERR_NOENT | MNT3ERR_INVAL.

(** [s.strip_prefix(p)] *)
Fixpoint strip_prefix (p s : bytes) : option bytes :=
  match p, s with
  | [], _ => Some s
  | a :: p, b :: s => if a =? b then strip_prefix p s else None
  | _ :: _, [] => None
  end.

(** [s.split('/')] *)
Fixpoint split_slash (s cur : bytes) : list bytes :=
  match s with
  | [] => [cur]
  | b :: s => if b =? 47 then cur :: split_slash s [] else split_slash s (cur ++ [b])
  end.

Fixpoint trim_start_slashes (s : bytes) : bytes := match s with b :: r => if b =? 47 then trim_start_slashes r else s | [] => [] end.
Definition trim_slashes (s : bytes) : bytes := rev (trim_start_slashes (rev (trim_start_slashes s))).

(** [char::is_whitespace], of a character in UTF-8. *)
Definition is_whitespace (c : bytes) : bool :=
  match c with
  | [b] => ((9 <=? b) && (b <=? 13)) || (b =? 32)
  | [194; b] => (b =? 133) || (b =? 160)
  | [225; 154; b] => b =? 128
  | [226; 128; b] => ((128 <=? b) && (b <=? 138)) || (b =? 168) || (b =? 169) || (b =? 175)
  | [226; 129; b] => b =? 159
  | [227; 128; b] => b =? 128
  | _ => false
  end.
Fixpoint drop_white (cs : list bytes) : list bytes := match cs with c :: r => if is_whitespace c then drop_white r else cs | [] => [] end.
(** [s.trim()] *)
Definition str_trim (s : bytes) : bytes := concat (rev (drop_white (rev (drop_white (snd <$> utf8_chunks s))))).

Section mount.
Context {DB : SlateDB} {AC : MokaCache u64 Inode} {NC : MokaCache (u64 * bytes) unit} {NCR : NameCrypto} {HM : HmacSha256} {XC : XdrCodec}.
Context (x : NfsExport) (cv : FileHandleConverter) (auth : option auth_unix) (export_name : bytes).

Fixpoint lookup_components (fid : SlateFsHandle) (components : list bytes) : NfsM SlateFsHandle :=
  match components with
  | [] => st_ret fid
  | c :: cs => if bool_decide (c = []) then lookup_components fid cs else fid <- nfs_lookup x auth fid c ;; lookup_components fid cs
  end.
Definition lookup_by_path (path : bytes) : NfsM SlateFsHandle := lookup_components (nfs_root_dir x) (split_slash path []).

Definition mountproc3_mnt (path : bytes) : NfsM (result mountstat3 bytes) :=
  if negb (utf8_valid path) then st_ret (Err MNT3ERR_INVAL)
  else
    match strip_prefix export_name path with
    | None => st_ret (Err MNT3ERR_NOENT)
    | Some path =>
        r <- attempt (lookup_by_path (str_trim (trim_slashes path))) ;;
        match r with
        | Ok fileid => st_ret (Ok (fh_to_nfs cv fileid))
        | Err _ => st_ret (Err MNT3ERR_NOENT)
        end
    end.
End mount.

(** * RPC messages *)

Inductive opaque_auth : Type := AUTH_UNIX (body : bytes) | AUTH_OTHER.
Record rpc_call : Type := {
  rc_xid : u32; rc_rpcvers : u32; rc_prog : u32; rc_vers : u32; rc_proc : u32; rc_cred : opaque_auth; rc_args : bytes
}.

Inductive mount_args : Type := M_NULL | M_MNT (path : bytes) | M_UMNT (path : bytes) | M_UMNTALL | M_EXPORT.
Inductive mount_res : Type := M_void | M_mountres3 (r : result mountstat3 bytes) | M_exports (dirs : list bytes).

Inductive accept_stat : Type :=
| S_NFS (r : nfs_res) | S_MOUNT (r : mount_res) | S_NULL | S_PORT (port : u32)
| PROG_UNAVAIL | PROG_MISMATCH (low high : u32) | PROC_UNAVAIL | GARBAGE_ARGS | SYSTEM_ERR.
Inductive rpc_reply : Type := MSG_ACCEPTED (xid : u32) (s : accept_stat) | RPC_MISMATCH (xid : u32).

(** What becomes of a message: a reply, silence, the end of the connection, a
    panic of the task, or more steps than the fuel. *)
Inductive HandleResult : Type := Reply (r : rpc_reply) | NoReply | Closed | TaskPanic | Unfinished.

(** What the server uses of [nfs3_types::rpc] and of the codecs of the
    arguments: a procedure that does not exist, or its arguments and how many
    bytes of the message they took.  The default of [auth_unix] has user 0. *)
Class RpcCodec := {
  rpc_unpack : bytes -> option rpc_call;
  auth_unix_unpack : bytes -> option auth_unix;
  auth_unix_default : auth_unix;
  nfs_unpack : u32 -> option (bytes -> option (nfs_args * usize));
  mount_unpack : u32 -> option (bytes -> option (mount_args * usize));
  getport_unpack : bytes -> option usize;
  auth_unix_default_uid : au_uid auth_unix_default = 0
}.

Definition RPC_VERSION_2 : u32 := 2.
Definition PMAP_PROGRAM : u32 := 100000.
Definition PMAP_VERSION : u32 := 2.
Definition MOUNT_PROGRAM : u32 := 100005.
Definition MOUNT_VERSION : u32 := 3.
Definition MOUNTPROC3_DUMP : u32 := 2.
Definition NFS_PROGRAM : u32 := 100003.
Definition NFS_VERSION : u32 := 3.

(** The part of [RPCContext] and [NFSTcpListener] that requests see. *)
Record RPCContext : Type := {
  cx_export : NfsExport;
  cx_converter : FileHandleConverter;
  cx_export_name : bytes;
  cx_local_port : u32;
  cx_client_addr : bytes
}.

Section rpc.
Context {DB : SlateDB} {AC : MokaCache u64 Inode} {NC : MokaCache (u64 * bytes) unit} {NCR : NameCrypto} {HM : HmacSha256} {XC : XdrCodec}
  {RC : RpcCodec}.
Context (others : nat -> Volume -> Volume) (fuel : nat) (cx : RPCContext).

(** [handle]: unpack the arguments, all of them and nothing else, and run. *)
Definition handle {A} (args : bytes) (unpack : bytes -> option (A * usize)) (k : A -> NfsM accept_stat) : NfsM accept_stat :=
  match unpack args with
  | None => st_ret GARBAGE_ARGS
  | Some (a, pos) => if negb (pos =? len args) then st_ret GARBAGE_ARGS else k a
  end.

Definition handle_nfs (auth : auth_unix) (m : rpc_call) : NfsM accept_stat :=
  if negb (rc_vers m =? NFS_VERSION) then st_ret (PROG_MISMATCH NFS_VERSION NFS_VERSION)
  else
    match nfs_unpack (rc_proc m) with
    | None => st_ret PROC_UNAVAIL
    | Some unpack =>
        handle (rc_args m) unpack (fun args =>
        r <- nfs_proc others fuel (cx_export cx) (cx_converter cx) (Some auth) args ;;
        st_ret (S_NFS r))
    end.

(** The mount program is not run under the caller's identity. *)
Definition handle_mount (m : rpc_call) : NfsM accept_stat :=
  if negb (rc_vers m =? MOUNT_VERSION) then st_ret (PROG_MISMATCH MOUNT_VERSION MOUNT_VERSION)
  else
    match mount_unpack (rc_proc m) with
    | None => st_ret PROC_UNAVAIL
    | Some unpack =>
        if rc_proc m =? MOUNTPROC3_DUMP then st_ret PROC_UNAVAIL
        else
          handle (rc_args m) unpack (fun args =>
          match args with
          | M_MNT path =>
              r <- mountproc3_mnt (cx_export cx) (cx_converter cx) None (cx_export_name cx) path ;;
              st_ret (S_MOUNT (M_mountres3 r))
          | M_EXPORT => st_ret (S_MOUNT (M_exports [cx_export_name cx]))
          | M_NULL | M_UMNT _ | M_UMNTALL => st_ret (S_MOUNT M_void)
          end)
    end.

Definition handle_portmap (m : rpc_call) : NfsM accept_stat :=
  if negb (rc_vers m =? PMAP_VERSION) then st_ret (PROG_MISMATCH PMAP_VERSION PMAP_VERSION)
  else if rc_proc m =? 0 then handle (rc_args m) (fun _ => Some (tt, 0)) (fun _ => st_ret S_NULL)
  else if rc_proc m =? 3 then
    handle (rc_args m) (fun b => pair tt <$> getport_unpack b) (fun _ => st_ret (S_PORT (cx_local_port cx)))
  else st_ret PROC_UNAVAIL.

Definition dispatch_prog (auth : auth_unix) (m : rpc_call) : NfsM accept_stat :=
  if rc_prog m =? PMAP_PROGRAM then handle_portmap m
  else if rc_prog m =? MOUNT_PROGRAM then handle_mount m
  else if rc_prog m =? NFS_PROGRAM then handle_nfs auth m
  else st_ret PROG_UNAVAIL.

(** The server: the export and the tracker of its listener. *)
Record Server : Type := { sv_nfs : Nfs; sv_tracker : Tracker }.

(** [handle_rpc_message], of a message taken up at [start] whose request ends at [stop]. *)
Definition handle_rpc_message (msg : bytes) (start stop : Instant) (sv : Server) : HandleResult * Server :=
  match rpc_unpack msg with
  | None => (Closed, sv)
  | Some m =>
      if negb (rc_rpcvers m =? RPC_VERSION_2) then (Reply (RPC_MISMATCH (rc_xid m)), sv)
      else
        match (match rc_cred m with AUTH_UNIX body => auth_unix_unpack body | AUTH_OTHER => Some auth_unix_default end) with
        | None => (Closed, sv)
        | Some auth =>
            let '(r, t) := start_transaction (cx_client_addr cx) (rc_xid m) start (sv_tracker sv) in
            match r with
            | Err (TxError AlreadyExists) => (NoReply, {| sv_nfs := sv_nfs sv; sv_tracker := t |})
            | Err (TxError TooManyRequests) =>
                (Reply (MSG_ACCEPTED (rc_xid m) SYSTEM_ERR), {| sv_nfs := sv_nfs sv; sv_tracker := t |})
            | Err TxPanic => (TaskPanic, {| sv_nfs := sv_nfs sv; sv_tracker := t |})
            | Ok lock =>
                let '(r, s) := dispatch_prog auth m (sv_nfs sv) in
                match drop_lock lock stop t with
                | None => (TaskPanic, {| sv_nfs := s; sv_tracker := t |})
                | Some t =>
                    (match r with
                     | Ok a => Reply (MSG_ACCEPTED (rc_xid m) a)
                     | Err (Raise _) => TaskPanic
                     | Err OutOfFuel => Unfinished
                     end, {| sv_nfs := s; sv_tracker := t |})
                end
            end
        end
  end.
End rpc.
