(* ===== verification/NfsThm.v ===== *)
(** What an NFS request may do: every call on the volume is made under the
    identity the squash policy gives its caller; a request without an authentic
    handle does nothing; a retransmitted request does nothing. *)

From S2P Require Import Prelude Keys Meta Store Data Quota Locks Volume Vfs Tree Wf WfOps VfsLogic VfsInv Reap.
From S2P Require Import OpsAttr OpsRead OpsCreate OpsRemove OpsRename OpsData OpsHandle System NfsFh NfsTx Nfs NfsSrv.

Section calls.
Context {DB : SlateDB} {AC : MokaCache u64 Inode} {NC : MokaCache (u64 * bytes) unit} {NCR : NameCrypto} {HM : HmacSha256} {XC : XdrCodec}.
Context (others : nat -> Volume -> Volume) (fuel : nat) (creds : Credentials).
Implicit Types (s : Nfs) (v : Volume).

(** A call made under [creds]; calls that need no identity are anyone's. *)
Definition made_by (k : call) : Prop := match call_creds k with Some c => c = creds | None => True end.

Definition nfs_acts s s' : Prop := exists ks, Forall made_by ks /\ n_vol s' = run_all others fuel ks (n_vol s).

(** All [m] does to the volume is calls made under [creds]. *)
Definition squashed {A} (m : NfsM A) (Q : A -> Prop) : Prop := forall s,
  wp m (fun r s' => nfs_acts s s' /\ match r with Ok a => Q a | Err _ => True end) s.

Lemma nfs_acts_same s s' : n_vol s' = n_vol s -> nfs_acts s s'.
Proof. intros E. exists []. by split; [constructor|]. Qed.
Lemma nfs_acts_trans s s' s'' : nfs_acts s s' -> nfs_acts s' s'' -> nfs_acts s s''.
Proof.
  intros (ks & Hk & E) (ks' & Hk' & E'). exists (ks ++ ks'). split; [by apply Forall_app|]. by rewrite run_all_app, <- E.
Qed.

Lemma squashed_bind {A B} (m : NfsM A) (f : A -> NfsM B) P Q :
  squashed m P -> (forall a, P a -> squashed (f a) Q) -> squashed (st_bind m f) Q.
Proof.
  intros Hm Hf s. apply wp_bind. eapply wp_mono; [apply Hm|]. intros [a|e] s1 (Ha & HP); [|done].
  eapply wp_mono; [by apply (Hf a HP)|]. intros r s2 (Ha2 & HQ). split; [by eapply nfs_acts_trans|done].
Qed.
Lemma squashed_mono {A} (m : NfsM A) (P Q : A -> Prop) : squashed m P -> (forall a, P a -> Q a) -> squashed m Q.
Proof. intros Hm HPQ s. eapply wp_mono; [apply Hm|]. intros [a|e] s' []; auto. Qed.
Lemma squashed_ret {A} (a : A) (Q : A -> Prop) : Q a -> squashed (st_ret a) Q.
Proof. intros HQ s. by split; [apply nfs_acts_same|]. Qed.
Lemma squashed_fail {A} e (Q : A -> Prop) : squashed (st_fail e : NfsM A) Q.
Proof. intros s. by split; [apply nfs_acts_same|]. Qed.
Lemma squashed_get : squashed st_get (fun _ => True).
Proof. intros s. by split; [apply nfs_acts_same|]. Qed.
Lemma squashed_modify f : (forall s, n_vol (f s) = n_vol s) -> squashed (st_modify f) (fun _ => True).
Proof. intros Hf s. by split; [apply nfs_acts_same|]. Qed.

Lemma squashed_ntry {A} k (m : FsM A) : made_by k -> (forall v, (m v).2 = (run others fuel k v).2) -> squashed (ntry m) (fun _ => True).
Proof.
  intros Hk Hm s. unfold wp, ntry. specialize (Hm (n_vol s)). destruct (m (n_vol s)) as [r v]. cbn [snd] in Hm. subst v.
  split; [|by destruct r as [|[]]]. exists [k]. by split; [repeat constructor|].
Qed.
Lemma squashed_status {A} (r : result FsError A) : squashed (status r) (fun _ => True).
Proof. destruct r; [by apply squashed_ret|apply squashed_fail]. Qed.
Lemma squashed_attempt {A} (m : NfsM A) Q : squashed m Q -> squashed (attempt m) (fun r => match r with Ok a => Q a | Err _ => True end).
Proof.
  intros Hm s. specialize (Hm s). unfold wp, attempt in *. by destruct (m s) as [[a|[[]|]] s'].
Qed.
End calls.

Ltac by_caller := unfold made_by; cbn [call_creds]; first [exact I | reflexivity].
Ltac same_nfs_call := let v := fresh in intros v; cbn [run]; first [reflexivity | symmetry; apply call_state].

Ltac squash_prim :=
  lazymatch goal with
  | |- squashed _ _ _ (ntry ?m) _ => let k := call_of m in apply (squashed_ntry _ _ _ k); [by_caller|same_nfs_call]
  | |- squashed _ _ _ (status _) _ => apply squashed_status
  | |- squashed _ _ _ st_get _ => apply squashed_get
  | |- squashed _ _ _ (st_modify _) _ => by apply squashed_modify
  end.
Ltac squash_step :=
  lazymatch goal with
  | |- squashed _ _ _ (st_ret _) _ => apply squashed_ret
  | |- squashed _ _ _ (st_fail _) _ => apply squashed_fail
  | |- squashed _ _ _ (nfail _) _ => apply squashed_fail
  | |- squashed _ _ _ (ncall _) _ => unfold ncall
  | |- squashed _ _ _ (acall _ _ _) _ => unfold acall
  | |- squashed _ _ _ (map_vfs_result _ _ _) _ => unfold map_vfs_result
  | |- squashed _ _ _ (ino_of _ _) _ => unfold ino_of
  | |- squashed _ _ _ (nfs_check_rate _ _) _ => unfold nfs_check_rate
  | |- squashed _ _ _ (getattr_checked _ _) _ => unfold getattr_checked
  | |- squashed _ _ _ (nfs_fattr _) _ => unfold nfs_fattr
  | |- squashed _ _ _ (st_bind _ _) _ => eapply (squashed_bind _ _ _ _ _ (fun _ => True)); [|intros]
  | |- squashed _ _ _ (if ?b then _ else _) _ => destruct b
  | |- squashed _ _ _ (match ?o with _ => _ end) _ => destruct o
  | |- squashed _ _ _ _ (fun _ => True) => squash_prim
  end.
Ltac squash := cbv beta zeta; repeat (squash_step; cbv beta zeta); try exact I.

Section adapter.
Context {DB : SlateDB} {AC : MokaCache u64 Inode} {NC : MokaCache (u64 * bytes) unit} {NCR : NameCrypto} {HM : HmacSha256} {XC : XdrCodec}.
Context (others : nat -> Volume -> Volume) (fuel : nat) (x : NfsExport) (cv : FileHandleConverter) (auth : option auth_unix).
Abbreviation squashed := (squashed others fuel (nfs_creds x auth)).

Lemma squashed_getattr id : squashed (nfs_getattr x id) (fun _ => True).
Proof. unfold nfs_getattr. squash. Qed.
Lemma squashed_lookup h name : squashed (nfs_lookup x auth h name) (fun _ => True).
Proof. unfold nfs_lookup. squash. Qed.
Lemma squashed_read h o n : squashed (nfs_read others x auth h o n) (fun _ => True).
Proof. unfold nfs_read. squash. Qed.
Lemma squashed_readdirplus h c : squashed (nfs_readdirplus x auth h c) (fun it => it_creds it = nfs_creds x auth).
Proof. unfold nfs_readdirplus. squash. done. Qed.
Lemma squashed_readlink h : squashed (nfs_readlink x h) (fun _ => True).
Proof. unfold nfs_readlink. squash. Qed.
Lemma squashed_fsinfo h : squashed (nfs_fsinfo x h) (fun _ => True).
Proof. unfold nfs_fsinfo. squash. Qed.
Lemma squashed_fsstat h : squashed (nfs_fsstat x h) (fun _ => True).
Proof. unfold nfs_fsstat. squash. Qed.
Lemma squashed_access h r : squashed (nfs_access x auth h r) (fun _ => True).
Proof. unfold nfs_access. squash. Qed.
Lemma squashed_setattr h a : squashed (nfs_setattr others x auth h a) (fun _ => True).
Proof. unfold nfs_setattr. squash. Qed.
Lemma squashed_write h o d st : squashed (nfs_write others x auth h o d st) (fun _ => True).
Proof. unfold nfs_write. squash. Qed.
Lemma squashed_create h n a : squashed (nfs_create others x auth h n a) (fun _ => True).
Proof. unfold nfs_create. squash. Qed.
Lemma squashed_create_exclusive h n v : squashed (nfs_create_exclusive others x auth h n v) (fun _ => True).
Proof. unfold nfs_create_exclusive. squash. Qed.
Lemma squashed_mkdir h n a : squashed (nfs_mkdir others x auth h n a) (fun _ => True).
Proof. unfold nfs_mkdir. squash. Qed.
Lemma squashed_remove h n : squashed (nfs_remove others fuel x auth h n) (fun _ => True).
Proof. unfold nfs_remove. squash. Qed.
Lemma squashed_rename h n h' n' : squashed (nfs_rename others fuel x auth h n h' n') (fun _ => True).
Proof. unfold nfs_rename. squash. Qed.
Lemma squashed_symlink h n t a : squashed (nfs_symlink others x auth h n t a) (fun _ => True).
Proof. unfold nfs_symlink. squash. Qed.
Lemma squashed_link h h' n : squashed (nfs_link others x auth h h' n) (fun _ => True).
Proof. unfold nfs_link. squash. Qed.
Lemma squashed_mknod h n w : squashed (nfs_mknod others x auth h n w) (fun _ => True).
Proof. unfold nfs_mknod. squash. Qed.
Lemma squashed_commit h : squashed (nfs_commit x h) (fun _ => True).
Proof. unfold nfs_commit. squash. Qed.

Lemma squashed_iter_next rounds it : it_creds it = nfs_creds x auth ->
  squashed (iter_next rounds it) (fun p => it_creds p.2 = nfs_creds x auth).
Proof.
  revert it. induction rounds as [|rounds IH]; intros it Hc; cbn [iter_next]; squash; try done; try (by apply IH).
  rewrite Hc. apply (squashed_ntry _ _ _ (CReaddir (nfs_creds x auth) (it_dir it) (it_cookie it) READDIR_PAGE)); [by_caller|same_nfs_call].
Qed.
Lemma squashed_fill_plus rounds dircount maxcount it acc : it_creds it = nfs_creds x auth ->
  squashed (fill_plus fuel cv rounds dircount maxcount it acc) (fun _ => True).
Proof.
  revert it acc. induction rounds as [|rounds IH]; intros it acc Hc; cbn [fill_plus]; [apply squashed_fail|].
  eapply squashed_bind; [by apply squashed_iter_next|]. intros [[e| |e] it'] Hc'; squash. by apply IH.
Qed.
Lemma squashed_fill_plain rounds maxcount it acc : it_creds it = nfs_creds x auth ->
  squashed (fill_plain fuel rounds maxcount it acc) (fun _ => True).
Proof.
  revert it acc. induction rounds as [|rounds IH]; intros it acc Hc; cbn [fill_plain]; [apply squashed_fail|].
  eapply squashed_bind; [by apply squashed_iter_next|]. intros [[e| |e] it'] Hc'; squash. by apply IH.
Qed.
End adapter.

Create HintDb nfs_squash.
#[export] Hint Resolve squashed_getattr squashed_lookup squashed_read squashed_readlink squashed_fsinfo squashed_fsstat squashed_access
  squashed_setattr squashed_write squashed_create squashed_create_exclusive squashed_mkdir squashed_remove squashed_rename
  squashed_symlink squashed_link squashed_mknod squashed_commit : nfs_squash.

(** Steps through a procedure. *)
Ltac proc_prim :=
  lazymatch goal with
  | |- squashed _ _ _ (attempt (get_wcc_attr _ _)) _ => eapply squashed_mono; [apply squashed_attempt; unfold get_wcc_attr; eapply squashed_bind; [solve [eauto with nfs_squash]|intros; apply (squashed_ret _ _ _ _ (fun _ => True)); exact I]|done]
  | |- squashed _ _ _ (attempt _) _ => eapply squashed_mono; [apply squashed_attempt; solve [eauto with nfs_squash]|done]
  end.
Ltac proc_step :=
  lazymatch goal with
  | |- squashed _ _ _ (fh_to_id _ _ _ _) _ => unfold fh_to_id
  | |- squashed _ _ _ (if_writable _ _) _ => unfold if_writable
  | |- squashed _ _ _ (with_wcc _ _ _ _) _ => unfold with_wcc
  | |- squashed _ _ _ (made_reply _ _ _ _ _ _) _ => unfold made_reply
  | |- squashed _ _ _ (nfs_option_from_result _) _ => unfold nfs_option_from_result
  | |- squashed _ _ _ (attempt _) _ => proc_prim
  | |- _ => squash_step
  end.
Ltac proc := cbv beta zeta; repeat (proc_step; cbv beta zeta); try exact I.

Section procedures.
Context {DB : SlateDB} {AC : MokaCache u64 Inode} {NC : MokaCache (u64 * bytes) unit} {NCR : NameCrypto} {HM : HmacSha256} {XC : XdrCodec}.
Context (others : nat -> Volume -> Volume) (fuel : nat) (x : NfsExport) (cv : FileHandleConverter) (auth : option auth_unix).
Abbreviation squashed := (squashed others fuel (nfs_creds x auth)).

Lemma squashed_listing dirid cookie (k : result nfsstat3 SlateDirIter -> NfsM nfs_res) :
  (forall it, it_creds it = nfs_creds x auth -> squashed (k (Ok it)) (fun _ => True)) -> (forall e, squashed (k (Err e)) (fun _ => True)) ->
  squashed (st_bind (attempt (nfs_readdirplus x auth dirid cookie)) k) (fun _ => True).
Proof. intros Hok Herr. eapply squashed_bind; [apply squashed_attempt, squashed_readdirplus|]. intros [it|e] Hit; auto. Qed.

Lemma squashed_proc args : squashed (nfs_proc others fuel x cv auth args) (fun _ => True).
Proof.
  destruct args; cbn [nfs_proc]; [by apply squashed_ret|..];
    unfold nfsproc3_getattr, nfsproc3_lookup, nfsproc3_read, nfsproc3_fsinfo, nfsproc3_access, nfsproc3_pathconf, nfsproc3_fsstat, nfsproc3_readlink,
      nfsproc3_write, nfsproc3_commit, nfsproc3_create, nfsproc3_setattr, nfsproc3_remove, nfsproc3_rename, nfsproc3_mkdir, nfsproc3_symlink,
      nfsproc3_mknod, nfsproc3_link; try solve [proc].
  - unfold nfsproc3_readdir, fh_to_id. destruct (fh_from_nfs cv dir); [|by apply squashed_ret].
    eapply (squashed_bind _ _ _ _ _ (fun _ => True)); [proc|intros attrs _]. cbv zeta. destruct (if cookieverf_is_none cookieverf then _ else _); [by apply squashed_ret|].
    destruct (count <? _); [by apply squashed_ret|]. apply squashed_listing; [|by intros; apply squashed_ret].
    intros it Hit. eapply squashed_bind; [by apply squashed_fill_plain|]. intros. proc.
  - unfold nfsproc3_readdirplus, fh_to_id. destruct (fh_from_nfs cv dir); [|by apply squashed_ret].
    eapply (squashed_bind _ _ _ _ _ (fun _ => True)); [proc|intros attrs _]. cbv zeta. destruct (maxcount <? 128); [by apply squashed_ret|].
    apply squashed_listing; [|by intros; apply squashed_ret].
    intros it Hit. eapply squashed_bind; [by apply squashed_fill_plus|]. intros. proc.
Qed.

Lemma squashed_components fid cs : squashed (lookup_components x auth fid cs) (fun _ => True).
Proof.
  revert fid. induction cs as [|c cs IH]; intros fid; cbn [lookup_components]; [by apply squashed_ret|]. case_bool_decide; [apply IH|].
  eapply squashed_bind; [apply squashed_lookup|]. intros; apply IH.
Qed.
Lemma squashed_mnt name path : squashed (mountproc3_mnt x cv auth name path) (fun _ => True).
Proof.
  unfold mountproc3_mnt. destruct (negb _); [by apply squashed_ret|]. destruct (strip_prefix name path); [|by apply squashed_ret].
  eapply squashed_bind; [apply squashed_attempt, squashed_components|]. intros. proc.
Qed.
End procedures.

(** ** Messages *)

(** The caller of a message: the identity its credential carries, and user 0
    when it carries none. *)
Definition caller_of {RC : RpcCodec} (m : rpc_call) : option auth_unix :=
  match rc_cred m with AUTH_UNIX body => auth_unix_unpack body | AUTH_OTHER => Some auth_unix_default end.

(** Whom the policy makes of the caller of a program. *)
Definition acts_for {RC : RpcCodec} (x : NfsExport) (m : rpc_call) : Credentials :=
  nfs_creds x (if rc_prog m =? NFS_PROGRAM then caller_of m else None).

Section messages.
Context {DB : SlateDB} {AC : MokaCache u64 Inode} {NC : MokaCache (u64 * bytes) unit} {NCR : NameCrypto} {HM : HmacSha256} {XC : XdrCodec}
  {RC : RpcCodec}.
Context (others : nat -> Volume -> Volume) (fuel : nat) (cx : RPCContext).
Implicit Types (sv : Server).

Lemma squashed_handle {A} creds args (unpack : bytes -> option (A * usize)) k : (forall a, squashed others fuel creds (k a) (fun _ => True)) ->
  squashed others fuel creds (handle args unpack k) (fun _ => True).
Proof. intros Hk. unfold handle. destruct (unpack args) as [[a pos]|]; [|by apply squashed_ret]. destruct (negb _); [by apply squashed_ret|apply Hk]. Qed.

Lemma squashed_dispatch auth m : caller_of m = Some auth ->
  squashed others fuel (acts_for (cx_export cx) m) (dispatch_prog others fuel cx auth m) (fun _ => True).
Proof.
  intros Ha. unfold dispatch_prog, acts_for. destruct (Z.eqb_spec (rc_prog m) PMAP_PROGRAM) as [E|E].
  { unfold handle_portmap. destruct (negb _); [by apply squashed_ret|]. destruct (_ =? 0); [apply squashed_handle; intros; by apply squashed_ret|].
    destruct (_ =? 3); [apply squashed_handle; intros|]; by apply squashed_ret. }
  destruct (Z.eqb_spec (rc_prog m) MOUNT_PROGRAM) as [E1|E1].
  { rewrite E1. change (MOUNT_PROGRAM =? NFS_PROGRAM) with false. unfold handle_mount. destruct (negb _); [by apply squashed_ret|].
    destruct (mount_unpack _); [|by apply squashed_ret]. destruct (_ =? _); [by apply squashed_ret|]. apply squashed_handle. intros a.
    destruct a; try by apply squashed_ret. eapply squashed_bind; [apply squashed_mnt|]. intros; by apply squashed_ret. }
  destruct (Z.eqb_spec (rc_prog m) NFS_PROGRAM) as [E2|E2]; [|by apply squashed_ret]. unfold handle_nfs. destruct (negb _); [by apply squashed_ret|].
  destruct (nfs_unpack _); [|by apply squashed_ret]. apply squashed_handle. intros a. rewrite Ha.
  eapply squashed_bind; [apply squashed_proc|]. intros; by apply squashed_ret.
Qed.

(** What a policy may make of a caller. *)
Definition squash_ok (p : SquashPolicy) (c : Credentials) : Prop :=
  match sq_mode p with
  | AllSquash => c = anon p
  | RootSquash => c = anon p \/ is_privileged c = false
  | NoSquash => c = anon p \/ c_trusted c = false
  | TrustAsRoot => c = creds_root
  end /\
  (is_privileged c = true -> sq_mode p = AllSquash \/ sq_mode p = RootSquash -> sq_anon_uid p = 0).

Lemma credentials_ok p auth : squash_ok p (credentials p auth).
Proof.
  assert (is_privileged (anon p) = true -> sq_anon_uid p = 0) as Ha.
  { unfold is_privileged. cbn. rewrite orb_false_r. by intros ?%Z.eqb_eq. }
  unfold squash_ok, credentials. destruct (sq_mode p); [by auto| | |split; [done|]; by intros _ [?|?]].
  - split; [destruct auth; auto|]. by intros _ [?|?].
  - destruct auth as [a|]; [|by auto]. destruct (Z.eqb_spec (au_uid a) 0) as [E|E]; cbn [negb]; [by auto|].
    assert (is_privileged (auth_creds a) = false) as Hp by (unfold is_privileged; cbn; by rewrite (proj2 (Z.eqb_neq _ _) E)).
    rewrite Hp. split; [by right|done].
Qed.

(** Whom the policy makes of a caller who gave no identity. *)
Definition unnamed_identity (p : SquashPolicy) (c : Credentials) : Prop :=
  match sq_mode p with
  | AllSquash | RootSquash => c = anon p
  | NoSquash => c_uid c = 0
  | TrustAsRoot => c = creds_root
  end.

End messages.

(** ** Requests without an authentic handle *)

(** The handles a request names. *)
Definition handles_of (args : nfs_args) : list bytes :=
  match args with
  | A_NULL => []
  | A_GETATTR h | A_SETATTR h _ _ | A_LOOKUP h _ | A_ACCESS h _ | A_READLINK h | A_READ h _ _ | A_WRITE h _ _ _ _ | A_CREATE h _ _
  | A_MKDIR h _ _ | A_SYMLINK h _ _ _ | A_MKNOD h _ _ | A_REMOVE h _ | A_RMDIR h _ | A_READDIR h _ _ _ | A_READDIRPLUS h _ _ _ _
  | A_FSSTAT h | A_FSINFO h | A_PATHCONF h | A_COMMIT h _ _ => [h]
  | A_RENAME h _ h' _ | A_LINK h h' _ => [h; h']
  end.

(** A reply that says nothing of the volume: a status alone, or the answers to
    ACCESS and PATHCONF without attributes. *)
Definition says_nothing (r : nfs_res) : Prop :=
  match r with
  | GETATTR3res (Err _) | LOOKUP3res (Err (_, None)) | ACCESS3res (Err (_, None)) | ACCESS3res (Ok (None, _))
  | READLINK3res (Err (_, None)) | READ3res (Err (_, None)) | READDIR3res (Err (_, None)) | READDIRPLUS3res (Err (_, None))
  | FSSTAT3res (Err (_, None)) | FSINFO3res (Err (_, None)) | PATHCONF3res (Err (_, None)) => True
  | PATHCONF3res (Ok p) => pc_obj_attributes p = None
  | SETATTR3res (Err (_, w)) | WRITE3res (Err (_, w)) | CREATE3res (Err (_, w)) | MKDIR3res (Err (_, w)) | SYMLINK3res (Err (_, w))
  | MKNOD3res (Err (_, w)) | REMOVE3res (Err (_, w)) | COMMIT3res (Err (_, w)) => w = wcc_default
  | RENAME3res (Err (_, ws)) => ws = (wcc_default, wcc_default)
  | LINK3res (Err (_, (None, w))) => w = wcc_default
  | _ => False
  end.

Section forged.
Context {DB : SlateDB} {AC : MokaCache u64 Inode} {NC : MokaCache (u64 * bytes) unit} {NCR : NameCrypto} {HM : HmacSha256} {XC : XdrCodec}.
Context (others : nat -> Volume -> Volume) (fuel : nat) (x : NfsExport) (cv : FileHandleConverter) (auth : option auth_unix).
Implicit Types (s : Nfs).

(** A handle of the wire that names an inode of the export. *)
Definition authentic (h : bytes) : Prop := exists id ino, fh_from_nfs cv h = Ok id /\ fh_verify (ne_fh x) id = Some ino.

(** [m] fails with a status and leaves the volume alone; [m] leaves it alone
    and yields a [Q]. *)
Definition refuses {A} (m : NfsM A) : Prop := forall s, exists e, (m s).1 = Err (Raise (NStat e)) /\ n_vol (m s).2 = n_vol s.
Definition idle {A} (m : NfsM A) (Q : A -> Prop) : Prop := forall s, exists a, (m s).1 = Ok a /\ Q a /\ n_vol (m s).2 = n_vol s.

Lemma refuses_bind {A B} (m : NfsM A) (k : A -> NfsM B) : refuses m -> refuses (st_bind m k).
Proof. intros Hm s. destruct (Hm s) as (e & E1 & E2). unfold st_bind. destruct (m s) as [r s']. cbn [fst snd] in *. subst r. eauto. Qed.
Lemma refuses_fail {A} e : refuses (nfail e : NfsM A).
Proof. intros s. by exists e. Qed.
Lemma refuses_rate {A} n (m : NfsM A) : refuses m -> refuses (nfs_check_rate x n ;;; m).
Proof.
  intros Hm s. unfold nfs_check_rate, st_bind, st_get. destruct (ne_rate_limited x); [|apply Hm].
  destruct (n_admits s) as [|[] l]; [apply Hm| |by eexists]. apply (Hm (set_n_admits l s)).
Qed.
Lemma idle_ret {A} (a : A) (Q : A -> Prop) : Q a -> idle (st_ret a) Q.
Proof. intros HQ s. by exists a. Qed.
Lemma idle_bind {A B} (m : NfsM A) (k : A -> NfsM B) P Q : idle m P -> (forall a, P a -> idle (k a) Q) -> idle (st_bind m k) Q.
Proof.
  intros Hm Hk s. destruct (Hm s) as (a & E1 & HP & E2). unfold st_bind. destruct (m s) as [r s']. cbn [fst snd] in *. subst r.
  destruct (Hk a HP s') as (b & E3 & HQ & E4). exists b. by rewrite E4.
Qed.
Lemma idle_attempt {A} (m : NfsM A) : refuses m -> idle (attempt m) (fun r => exists e, r = Err e).
Proof.
  intros Hm s. destruct (Hm s) as (e & E1 & E2). unfold attempt. destruct (m s) as [r s']. cbn [fst snd] in *. subst r. exists (Err e). eauto.
Qed.
Lemma idle_option {A} (m : NfsM A) : refuses m -> idle (nfs_option_from_result m) (fun o => o = None).
Proof. intros Hm. eapply idle_bind; [by apply idle_attempt|]. intros ? [e ->]. by apply idle_ret. Qed.

Section id.
Context (id : SlateFsHandle) (Hid : fh_verify (ne_fh x) id = None).

Lemma refuses_ino {A} (k : u64 -> NfsM A) : refuses (i <- ino_of x id ;; k i).
Proof using Hid. apply refuses_bind. unfold ino_of. rewrite Hid. apply refuses_fail. Qed.
Lemma refuses_checked {A} (k : FileAttr -> NfsM A) : refuses (a <- getattr_checked x id ;; k a).
Proof using Hid. apply refuses_bind, refuses_ino. Qed.
Lemma refuses_getattr : refuses (nfs_getattr x id).
Proof using Hid. apply refuses_rate, refuses_checked. Qed.
Lemma refuses_wcc : refuses (get_wcc_attr x id).
Proof using Hid. apply refuses_bind, refuses_getattr. Qed.
Lemma idle_with_wcc bad k (Q : nfs_res -> Prop) : (forall e, Q (bad e)) -> idle (with_wcc x id bad k) Q.
Proof using Hid. intros HQ. eapply idle_bind; [apply idle_attempt, refuses_wcc|]. intros ? [e ->]. by apply idle_ret. Qed.
Lemma idle_access r : idle (attempt (nfs_access x auth id r)) (fun _ => True).
Proof using Hid.
  unfold nfs_access. destruct (is_root (nfs_creds x auth)).
  - intros s. unfold attempt, nfs_check_rate, st_bind, st_get. destruct (ne_rate_limited x); [|by eexists].
    destruct (n_admits s) as [|[] l]; by eexists.
  - intros s. destruct (idle_attempt _ (refuses_rate 0 _ (refuses_ino (fun ino =>
      attr <- ncall (getattr ino) ;;
      let rwx := if c_uid (nfs_creds x auth) =? a_uid attr then Z.land (Z.shiftr (a_mode attr) 6) 7
                 else if in_group (nfs_creds x auth) (a_gid attr) then Z.land (Z.shiftr (a_mode attr) 3) 7 else Z.land (a_mode attr) 7 in
      st_ret (Z.land r (granted rwx))))) s) as (a & E & _ & E'). by exists a.
Qed.
End id.

Lemma idle_fh h bad k (Q : nfs_res -> Prop) : ~ authentic h -> (forall e, Q (bad e)) ->
  (forall id, fh_verify (ne_fh x) id = None -> idle (k id) Q) -> idle (fh_to_id cv h bad k) Q.
Proof.
  intros Hh Hbad Hk. unfold fh_to_id. destruct (fh_from_nfs cv h) as [id|e] eqn:E; [|by apply idle_ret].
  apply Hk. destruct (fh_verify (ne_fh x) id) as [i|] eqn:Ev; [|done]. destruct Hh. by exists id, i.
Qed.

Ltac idle_step :=
  first
    [ apply idle_ret; done
    | lazymatch goal with
      | |- idle (if_writable _ _) _ => unfold if_writable; cbn [writable negb]
      | |- idle (with_wcc _ _ _ _) _ => apply idle_with_wcc; done
      | |- idle (fh_to_id _ _ _ _) _ => apply idle_fh; [done|done|intros]
      | |- idle (st_bind (nfs_option_from_result _) _) _ =>
          eapply idle_bind; [apply idle_option; first [by apply refuses_getattr | by apply refuses_wcc]|intros ? ->]
      | |- idle (st_bind (attempt (nfs_access _ _ _ _)) _) _ => eapply idle_bind; [by apply idle_access|intros ? _]
      | |- idle (st_bind (attempt (nfs_getattr _ _)) _) _ => eapply idle_bind; [by apply idle_attempt, refuses_getattr|intros ? [? ->]]
      | |- idle (st_bind (attempt ?m) _) _ =>
          eapply idle_bind; [apply idle_attempt; first [by apply refuses_ino | by apply refuses_rate, refuses_checked]|intros ? [? ->]]
      | |- idle (if ?b then _ else _) _ => destruct b
      | |- idle (match ?r with _ => _ end) _ => destruct r
      end ].

(** C24: a request none of whose handles is authentic leaves the volume exactly
    as it was, and its answer says nothing of it. *)
Theorem nfs_forged args s :
  args <> A_NULL -> Forall (fun h => ~ authentic h) (handles_of args) ->
  exists r, (nfs_proc others fuel x cv auth args s).1 = Ok r /\ says_nothing r /\ n_vol (nfs_proc others fuel x cv auth args s).2 = n_vol s.
Proof.
  intros Hne Hall. revert s. change (idle (nfs_proc others fuel x cv auth args) says_nothing).
  destruct args; cbn [nfs_proc handles_of] in *; [done|..]; rewrite ?Forall_cons in Hall; destruct_and? Hall;
    unfold nfsproc3_getattr, nfsproc3_lookup, nfsproc3_read, nfsproc3_fsinfo, nfsproc3_access, nfsproc3_pathconf, nfsproc3_fsstat, nfsproc3_readlink,
      nfsproc3_write, nfsproc3_commit, nfsproc3_create, nfsproc3_setattr, nfsproc3_remove, nfsproc3_rename, nfsproc3_mkdir, nfsproc3_symlink,
      nfsproc3_mknod, nfsproc3_link, nfsproc3_readdir, nfsproc3_readdirplus; cbv zeta;
    repeat (idle_step; cbv beta zeta).
Qed.
End forged.

(** ** Retransmissions *)

Section replay.
Context {DB : SlateDB} {AC : MokaCache u64 Inode} {NC : MokaCache (u64 * bytes) unit} {NCR : NameCrypto} {HM : HmacSha256} {XC : XdrCodec}
  {RC : RpcCodec}.
Context (others : nat -> Volume -> Volume) (fuel : nat) (cx : RPCContext).
Context (retention : Duration) (m : u16) (limit : usize).
Implicit Types (sv : Server).

(** C28: a message that was served is not served again: retransmitted, at any
    time, it is dropped without a reply and without touching the volume. *)
Theorem nfs_replay msg start stop start' stop' sv sv1 L xid a :
  0 <= retention -> 0 <= m < 2 ^ 16 -> m < limit ->
  rtc tx_step (tx_init retention m limit) {| ts_tracker := sv_tracker sv; ts_locks := L |} ->
  handle_rpc_message others fuel cx msg start stop sv = (Reply (MSG_ACCEPTED xid a), sv1) -> a <> SYSTEM_ERR ->
  exists t, handle_rpc_message others fuel cx msg start' stop' sv1 = (NoReply, {| sv_nfs := sv_nfs sv1; sv_tracker := t |}).
Proof.
  intros Hret Hm Hlim Hr E Ha. pose proof (reach_inv retention m limit Hm Hlim _ Hr) as Hi. cbn [ts_tracker ts_locks] in Hi.
  unfold handle_rpc_message in *. destruct (rpc_unpack msg) as [c|]; [|done]. destruct (negb _); [done|].
  destruct (match rc_cred c with AUTH_UNIX _ => _ | AUTH_OTHER => _ end) as [auth|]; [|done].
  pose proof (start_inv retention m limit Hm Hlim (cx_client_addr cx) (rc_xid c) start _ _ Hi) as Hs.
  destruct (start_transaction (cx_client_addr cx) (rc_xid c) start (sv_tracker sv)) as [r t1]. destruct Hs as (_ & Hi1 & Hlk).
  destruct r as [lk|[[]|]]; [|done|by injection E as <- <- <-|done]. cbn [locks_after] in Hi1. destruct (dispatch_prog _ _ _ _ _ _) as [r s].
  destruct (drop_inv retention m limit Hm Hlim (cx_client_addr cx) lk stop t1 [] L Hi1) as (t2 & Ed & Hi2). rewrite Ed in E.
  destruct (drop_keeps retention m limit (cx_client_addr cx) lk stop t1 t2 _ Hret Hi1 ltac:(left) Ed) as (tx & Htx & Ex). rewrite (Hlk lk eq_refl) in Ex.
  assert (sv1 = {| sv_nfs := s; sv_tracker := t2 |}) as -> by congruence. cbn [sv_tracker sv_nfs].
  pose proof (start_inv retention m limit Hm Hlim (cx_client_addr cx) (rc_xid c) start' _ _ Hi2) as Hs.
  destruct (start_transaction (cx_client_addr cx) (rc_xid c) start' t2) as [r2 t3]. destruct Hs as (Hs & _).
  destruct r2 as [lk2|[[]|]]; [by destruct (proj1 Hs tx Htx)|by exists t3|by destruct (proj1 Hs tx Htx)|done].
Qed.
End replay.
