(* ===== verification/NfsDir.v ===== *)
(** Listing a directory over NFS: paging through READDIRPLUS, a client gets
    every entry once, with the attributes and a handle of its inode. *)

From S2P Require Import Prelude Keys Meta Store Data Quota Locks Volume Vfs Tree Wf WfOps VfsLogic VfsInv Reap.
From S2P Require Import OpsAttr OpsRead OpsCreate OpsRemove OpsRename OpsData OpsHandle System Spec Files Still NfsFh NfsTx Nfs NfsSrv.

Section listing.
Context {DB : SlateDB} {AC : MokaCache u64 Inode} {NC : MokaCache (u64 * bytes) unit} {NCR : NameCrypto} {HM : HmacSha256} {XC : XdrCodec}.
Context (fuel : nat) (x : NfsExport) (cv : FileHandleConverter) (auth : option auth_unix).
Context (Hrate : ne_rate_limited x = false).
Implicit Types (v : Volume) (s : Nfs) (L : list DirEntry) (W : list entryplus3).

(** Nothing happened to the export but in the volume's caches. *)
Record resting s s' : Prop := {
  rg_vol : still (n_vol s) (n_vol s');
  rg_sb : v_superblock (n_vol s') = v_superblock (n_vol s)
}.

Lemma resting_trans s s' s'' : resting s s' -> resting s' s'' -> resting s s''.
Proof. intros [H1 H2] [H3 H4]. split; [by eapply still_trans|congruence]. Qed.
Lemma resting_refl s : Inv (n_vol s) -> quiet (n_vol s) -> resting s s.
Proof. intros Hi Hq. by split. Qed.

Lemma try_getattr s i n : Inv (n_vol s) -> quiet (n_vol s) -> node (store (n_vol s)) i n ->
  exists s', ntry (getattr i) s = (Ok (Ok (make_attr i n)), s') /\ resting s s'.
Proof.
  intros Hi Hq Hn. destruct (still_getattr (n_vol s) i n Hi Hq Hn) as (v' & E & Hs). unfold ntry. rewrite E. eexists. split; [done|].
  split; [done|]. cbn. change v' with (Ok (make_attr i n) : result (Halt FsError) FileAttr, v').2. rewrite <- E. apply getattr_sb.
Qed.
Lemma try_readdir s i n c cookie max L : Inv (n_vol s) -> quiet (n_vol s) -> node (store (n_vol s)) i n -> i_kind n = Dir ->
  access c n ACCESS_R = Ok tt -> is_u64 cookie -> 0 <= max -> listed (n_vol s) i cookie L ->
  exists rd s', ntry (readdir c i cookie max) s = (Ok (Ok rd), s') /\ resting s s' /\
    rd_entries rd = take (Z.to_nat max) L /\ rd_eof rd = (len L <=? max).
Proof.
  intros Hi Hq Hn Hk Ha Hc Hm HL. destruct (still_readdir (n_vol s) i n c cookie max L Hi Hq Hn Hk Ha Hc Hm HL) as (rd & v' & E & Hs & H1 & H2).
  exists rd, (set_n_vol v' s). unfold ntry. rewrite E. split_and!; [done| |done|done]. split; [done|]. cbn.
  change v' with (Ok rd : result (Halt FsError) ReadDir, v').2. rewrite <- E. apply readdir_sb.
Qed.

(** ** The iterator *)

(** The wire entry of [e]. *)
Definition wire_of v (e : DirEntry) (w : entryplus3) : Prop := exists n, inode_of v (de_ino e) = Some n /\
  w = into_entry cv (entry_plus (sb_fsid (v_superblock v)) {| fc_fsid := sb_fsid (v_superblock v); fc_key := fc_key (ne_fh x) |} e (make_attr (de_ino e) n)).

(** A directory the caller may list. *)
Record can_list s (i : u64) (n : Inode) : Prop := {
  cl_inv : Inv (n_vol s);
  cl_quiet : quiet (n_vol s);
  cl_node : node (store (n_vol s)) i n;
  cl_dir : i_kind n = Dir;
  cl_access : access (nfs_creds x auth) n ACCESS_R = Ok tt
}.

Lemma can_list_rest s s' i n : resting s s' -> can_list s i n -> can_list s' i n.
Proof. intros [[Hi Hq Hs] _] []. split; try done. by rewrite Hs. Qed.
Lemma wire_of_rest s s' e w : resting s s' -> wire_of (n_vol s) e w -> wire_of (n_vol s') e w.
Proof. intros [[_ _ Hs] Hb] (n & Hn & ->). exists n. unfold inode_of in *. by rewrite Hs, Hb. Qed.

(** An iterator with the entries [R] to come. *)
Record iter_at s (i : u64) (it : SlateDirIter) (R : list DirEntry) : Prop := {
  ia_fh : it_fh it = {| fc_fsid := sb_fsid (v_superblock (n_vol s)); fc_key := fc_key (ne_fh x) |};
  ia_creds : it_creds it = nfs_creds x auth;
  ia_dir : it_dir it = i;
  ia_rest : exists rest, R = it_buffer it ++ rest /\ (it_eof it = true -> rest = []) /\
    (it_eof it = false -> is_u64 (default (it_cookie it) (de_cookie <$> last (it_buffer it))) /\
                          listed (n_vol s) i (default (it_cookie it) (de_cookie <$> last (it_buffer it))) rest)
}.

Lemma iter_at_rest s s' i it R : resting s s' -> iter_at s i it R -> iter_at s' i it R.
Proof.
  intros [[_ _ Hs] Hb] [H1 H2 H3 (rest & E & He & Hl)]. split; [by rewrite Hb|done|done|]. exists rest. split_and!; [done|done|].
  intros Hf. destruct (Hl Hf) as [? ?]. split; [done|]. by eapply listed_store.
Qed.

Lemma listed_child v p cookie L e : Inv v -> listed v p cookie L -> e ∈ L -> exists n, node (store v) (de_ino e) n.
Proof. intros Hi HL He. destruct (proj1 (ls_elem _ _ _ _ HL e) He) as (enc & d & Hd & _ & ->). by eapply inv_child. Qed.
Lemma listed_cookie v p cookie L e : Inv v -> listed v p cookie L -> e ∈ L -> is_u64 (de_cookie e).
Proof.
  intros Hi HL He. destruct (proj1 (ls_elem _ _ _ _ HL e) He) as (enc & d & Hd & _ & ->). cbn [de_of de_cookie].
  destruct (tr_dirent _ _ _ _ _ (wf_tree _ _ _ _ (inv_wf _ Hi)) _ _ _ Hd) as (? & [= <-] & [_ _ Hx _ _]).
  by destruct (wf_keys _ _ _ _ (inv_wf _ Hi) _ _ Hx) as [[_ Hok] _].
Qed.

Definition present s (R : list DirEntry) : Prop := Forall (fun e => (exists n, node (store (n_vol s)) (de_ino e) n) /\ is_u64 (de_cookie e)) R.

Lemma present_rest s s' R : resting s s' -> present s R -> present s' R.
Proof. intros [[_ _ Hs] _] HR. eapply Forall_impl; [exact HR|]. intros e. by rewrite Hs. Qed.
Lemma listed_present s p cookie L : Inv (n_vol s) -> listed (n_vol s) p cookie L -> present s L.
Proof. intros Hi HL. apply Forall_forall. intros e He. split; [by eapply listed_child|by eapply listed_cookie]. Qed.

(** An entry from the buffer. *)
Lemma iter_next_buffered rounds s i it e R B : Inv (n_vol s) -> quiet (n_vol s) -> present s (e :: R) ->
  iter_at s i it (e :: R) -> it_buffer it = e :: B ->
  exists d it' s', iter_next (S rounds) it s = (Ok (NextOk d, it'), s') /\ resting s s' /\ wire_of (n_vol s) e (into_entry cv d) /\ iter_at s' i it' R.
Proof using.
  intros Hi Hq [[[n Hn] Hc] _]%Forall_cons [H1 H2 H3 (rest & E & He & Hl)] HB. destruct (try_getattr s (de_ino e) n Hi Hq Hn) as (s' & Et & Hs).
  cbn [iter_next]. rewrite HB. unfold st_bind at 1. rewrite Et. eexists _, _, s'. split; [reflexivity|]. split; [done|].
  rewrite HB in E. injection E as E. split.
  - exists n. split; [by apply inode_of_node|]. f_equal. unfold nfs_fsid. rewrite (rg_sb _ _ Hs). cbn [it_fh set_it]. by rewrite H1.
  - apply (iter_at_rest s s' i); [done|]. split; cbn [it_fh it_creds it_dir it_buffer it_eof it_cookie set_it]; try done.
    exists rest. split_and!; [done|done|]. intros Hf. specialize (Hl Hf). rewrite HB, last_cons in Hl. by destruct (last B).
Qed.

(** The buffer refilled. *)
Lemma iter_next_refill rounds s i it n R : can_list s i n -> iter_at s i it R -> it_buffer it = [] -> it_eof it = false ->
  exists it' s', resting s s' /\ iter_at s' i it' R /\ it_buffer it' = take 256 R /\ (R = [] -> it_eof it' = true) /\
    iter_next (S rounds) it s = (match R with [] => (Ok (NextEof, it'), s') | _ => iter_next rounds it' s' end).
Proof using.
  intros [Hi Hq Hn Hk Ha] [H1 H2 H3 (rest & E & He & Hl)] HB Hf. destruct (Hl Hf) as [Hck HL]. rewrite HB in E, Hck, HL. cbn in E, Hck, HL. subst rest.
  destruct (try_readdir s i n (nfs_creds x auth) (it_cookie it) READDIR_PAGE R) as (rd & s' & Et & Hs & Hent & Heof); try done.
  exists (set_it (it_cookie it) (rd_entries rd) (rd_eof rd) it), s'. change (Z.to_nat READDIR_PAGE) with 256%nat in Hent. unfold READDIR_PAGE in Heof.
  split_and!; [done| |done|intros ->; by rewrite Heof|].
  - apply (iter_at_rest s s' i); [done|]. split; cbn [it_fh it_creds it_dir it_buffer it_eof it_cookie set_it]; try done.
    exists (drop 256 R). rewrite Hent, Heof. split_and!; [by rewrite take_drop|intros Hle%Z.leb_le; apply drop_ge; unfold len in Hle; lia|].
    intros Hgt%Z.leb_gt. destruct (lookup_lt_is_Some_2 R 255) as [e He']; [unfold len in Hgt; lia|].
    assert (last (take 256 R) = Some e) as -> by (pose proof (take_S_r _ _ _ He') as ->; apply last_snoc). cbn.
    split; [by eapply listed_cookie, list_elem_of_lookup_2|]. apply (listed_rest _ _ (it_cookie it) (take 255 R)). by rewrite take_drop_middle.
  - cbn [iter_next]. rewrite HB, Hf, H2, H3. unfold st_bind at 1. rewrite Et. cbn [it_buffer it_eof set_it].
    destruct R as [|e R]; rewrite Hent, Heof; done.
Qed.

Lemma iter_next_end rounds s i it n : can_list s i n -> iter_at s i it [] ->
  exists it' s', iter_next (S rounds) it s = (Ok (NextEof, it'), s') /\ resting s s'.
Proof using.
  intros Hc Hit. destruct (ia_rest _ _ _ _ Hit) as (rest & E & _). symmetry in E. apply app_eq_nil in E as [HB _].
  destruct (it_eof it) eqn:Hf.
  - exists it, s. cbn [iter_next]. rewrite HB, Hf. split; [done|]. apply resting_refl; apply Hc.
  - destruct (iter_next_refill rounds s i it n [] Hc Hit HB Hf) as (it' & s' & Hs & _ & _ & _ & ->). by exists it', s'.
Qed.

Lemma iter_next_entry rounds s i it n e R : can_list s i n -> present s (e :: R) -> iter_at s i it (e :: R) ->
  exists d it' s', iter_next (S (S rounds)) it s = (Ok (NextOk d, it'), s') /\ resting s s' /\ wire_of (n_vol s) e (into_entry cv d) /\ iter_at s' i it' R.
Proof using.
  intros Hc HR Hit. destruct (it_buffer it) as [|b B] eqn:HB.
  - assert (it_eof it = false) as Hf.
    { destruct (it_eof it) eqn:Hf; [|done]. destruct (ia_rest _ _ _ _ Hit) as (rest & E & He & _). by rewrite HB, (He Hf) in E. }
    destruct (iter_next_refill (S rounds) s i it n (e :: R) Hc Hit HB Hf) as (it1 & s1 & Hs1 & Hit1 & HB1 & _ & ->). pose proof (can_list_rest _ _ _ _ Hs1 Hc) as Hc1.
    destruct (iter_next_buffered rounds s1 i it1 e R (take 255 R)) as (d & it2 & s2 & E & Hs2 & Hw & Hit2); try apply Hc1; [by eapply present_rest|done|done|].
    exists d, it2, s2. split_and!; [done|by eapply resting_trans| |done]. destruct Hw as (m & Hm & Hw). exists m. destruct Hs1 as [[_ _ Hst] Hsb].
    unfold inode_of in *. by rewrite Hst in Hm; rewrite Hsb in Hw.
  - assert (b = e) as -> by (destruct (ia_rest _ _ _ _ Hit) as (rest & E & _); rewrite HB in E; by injection E).
    apply (iter_next_buffered (S rounds) s i it e R B); try done; apply Hc.
Qed.

(** ** One reply *)

Context (dircount maxcount : usize).

(** The entries a reply has room for, and whether they are all. *)
Fixpoint pushes (acc : list entryplus3 * usize) W : list entryplus3 * bool :=
  match W with
  | [] => (acc.1, true)
  | w :: W => match try_push_plus dircount maxcount w acc with Some acc => pushes acc W | None => (acc.1, false) end
  end.

Lemma try_push_app w acc acc' : try_push_plus dircount maxcount w acc = Some acc' -> acc'.1 = acc.1 ++ [w].
Proof using. unfold try_push_plus. destruct acc as [es used]. case_match; [done|]. case_match; [|done]. by intros [= <-]. Qed.

Lemma pushes_prefix acc W : exists P rest, W = P ++ rest /\ (pushes acc W).1 = acc.1 ++ P /\ ((pushes acc W).2 = true <-> rest = []).
Proof using.
  revert acc. induction W as [|w W IH]; intros acc; cbn [pushes fst snd].
  { exists [], []. by rewrite (app_nil_r acc.1). }
  destruct (try_push_plus dircount maxcount w acc) as [acc'|] eqn:E; [|exists [], (w :: W); cbn [fst snd]; rewrite (app_nil_r acc.1); split; [done|split; [done|by split]]].
  destruct (IH acc') as (P & rest & -> & E1 & E2). exists (w :: P), rest. split_and!; [done|by rewrite E1, (try_push_app _ _ _ E), <- app_assoc|done..].
Qed.

Lemma wire_of_unique v e w w' : wire_of v e w -> wire_of v e w' -> w = w'.
Proof using. intros (n & Hn & ->) (n' & Hn' & ->). congruence. Qed.

Lemma fill_plus_spec rounds s i n it R W acc : (2 <= fuel)%nat -> (length R < rounds)%nat ->
  can_list s i n -> present s R -> iter_at s i it R -> Forall2 (wire_of (n_vol s)) R W ->
  exists s', fill_plus fuel cv rounds dircount maxcount it acc s = (Ok (Ok (pushes acc W)), s') /\ resting s s'.
Proof using.
  intros Hf. destruct fuel as [|[|f]]; [lia..|]. clear Hf. revert s it R W acc. induction rounds as [|rounds IH]; intros s it R W acc Hr Hc HR Hit HW; [lia|].
  destruct R as [|e R].
  - apply Forall2_nil_inv_l in HW as ->. destruct (iter_next_end (S f) s i it n Hc Hit) as (it' & s' & E & Hs).
    exists s'. cbn [fill_plus pushes]. unfold st_bind. by rewrite E.
  - apply Forall2_cons_inv_l in HW as (w & W' & Hw & HW & ->).
    destruct (iter_next_entry f s i it n e R Hc HR Hit) as (d & it1 & s1 & E & Hs & Hw' & Hit1).
    cbn [fill_plus pushes]. unfold st_bind. rewrite E, (wire_of_unique _ _ _ _ Hw' Hw). destruct (try_push_plus dircount maxcount w acc) as [acc'|]; [|by exists s1].
    cbn in Hr. apply Forall_cons in HR as [_ HR].
    destruct (IH s1 it1 R W' acc') as (s2 & E2 & Hs2); [lia|by eapply can_list_rest|by eapply present_rest|done| |].
    { eapply Forall2_impl; [exact HW|]. intros. by eapply wire_of_rest. }
    exists s2. split; [exact E2|by eapply resting_trans].
Qed.

Lemma getattr_rests id s i n : fh_verify (ne_fh x) id = Some i -> Inv (n_vol s) -> quiet (n_vol s) -> node (store (n_vol s)) i n ->
  exists o s', nfs_option_from_result (nfs_getattr x id) s = (Ok o, s') /\ resting s s'.
Proof using Hrate.
  intros Hv Hi Hq Hn. destruct (try_getattr s i n Hi Hq Hn) as (s' & E & Hs).
  unfold nfs_option_from_result, attempt, nfs_getattr, nfs_check_rate, getattr_checked, ino_of, ncall, st_bind. rewrite Hrate, Hv. cbn. rewrite E. cbn.
  destruct (negb _); cbn; eauto.
Qed.

Lemma readdirplus_iter id s i n cookie L : fh_verify (ne_fh x) id = Some i -> can_list s i n -> is_u64 cookie -> listed (n_vol s) i cookie L ->
  exists it s', attempt (nfs_readdirplus x auth id cookie) s = (Ok (Ok it), s') /\ resting s s' /\ iter_at s' i it L.
Proof using Hrate.
  intros Hv Hc Hck HL. destruct (try_getattr s i n (cl_inv _ _ _ Hc) (cl_quiet _ _ _ Hc) (cl_node _ _ _ Hc)) as (s' & E & Hs).
  unfold attempt, nfs_readdirplus, nfs_check_rate, ino_of, ncall, st_bind. rewrite Hv. cbn. rewrite Hrate. cbn. rewrite E. cbn.
  rewrite (cl_dir _ _ _ Hc), bool_decide_eq_true_2 by done. cbn. eexists _, s'. split; [done|]. split; [done|].
  apply (iter_at_rest s s' i); [done|]. split; cbn; try done; [by rewrite <- (rg_sb _ _ Hs)|]. by exists L.
Qed.
End listing.

(** ** A client *)

Section client.
Context {DB : SlateDB} {AC : MokaCache u64 Inode} {NC : MokaCache (u64 * bytes) unit} {NCR : NameCrypto} {HM : HmacSha256} {XC : XdrCodec}.
Context (others : nat -> Volume -> Volume) (fuel : nat) (x : NfsExport) (cv : FileHandleConverter) (auth : option auth_unix).
Context (dircount maxcount : u32).
Implicit Types (s : Nfs).

(** A client that asks for the entries after [cookie] until the end. *)
Fixpoint nfs_client_list (rounds : nat) (dir : bytes) (cookie : u64) (verf : bytes) : NfsM (list entryplus3) :=
  match rounds with
  | O => st_fail OutOfFuel
  | S rounds =>
      r <- nfs_proc others fuel x cv auth (A_READDIRPLUS dir cookie verf dircount maxcount) ;;
      match r with
      | READDIRPLUS3res (Ok (_, verf, entries, eof)) =>
          if (eof : bool) then st_ret entries
          else
            rest <- nfs_client_list rounds dir (default cookie (ep_cookie <$> last entries)) verf ;;
            st_ret (entries ++ rest)
      | _ => nfail NFS3ERR_IO
      end
  end.

Lemma readdirplus_reply dir id i n s cookie verf L W : ne_rate_limited x = false -> 128 <= maxcount -> (2 <= fuel)%nat -> (length L < fuel)%nat ->
  fh_from_nfs cv dir = Ok id -> fh_verify (ne_fh x) id = Some i -> can_list x auth s i n -> is_u64 cookie ->
  listed (n_vol s) i cookie L -> Forall2 (wire_of x cv (n_vol s)) L W ->
  Forall (fun w => try_push_plus dircount (maxcount - 128) w ([], 0) <> None) W ->
  exists attrs verf' P rest s', W = P ++ rest /\ (P = [] -> W = []) /\ resting s s' /\
    nfs_proc others fuel x cv auth (A_READDIRPLUS dir cookie verf dircount maxcount) s =
    (Ok (READDIRPLUS3res (Ok (attrs, verf', P, bool_decide (rest = [])))), s').
Proof.
  intros Hrate Hmax Hf2 Hf Hh Hv Hc Hck HL HW Hfit. cbn [nfs_proc]. unfold nfsproc3_readdirplus, fh_to_id. rewrite Hh.
  destruct (getattr_rests x Hrate id s i n Hv (cl_inv _ _ _ _ _ Hc) (cl_quiet _ _ _ _ _ Hc) (cl_node _ _ _ _ _ Hc)) as (attrs & s1 & E1 & Hs1).
  unfold st_bind at 1. rewrite E1. cbv zeta. destruct (Z.ltb_spec maxcount 128) as [?|_]; [lia|].
  pose proof (can_list_rest _ _ _ _ _ _ Hs1 Hc) as Hc1. pose proof (listed_store _ _ _ _ _ (sl_store _ _ (rg_vol _ _ Hs1)) HL) as HL1.
  destruct (readdirplus_iter x auth Hrate id s1 i n cookie L Hv Hc1 Hck HL1) as (it & s2 & E2 & Hs2 & Hit).
  unfold st_bind at 1. rewrite E2. pose proof (resting_trans _ _ _ Hs1 Hs2) as Hs12.
  destruct (fill_plus_spec fuel x cv auth dircount (maxcount - 128) fuel s2 i n it L W ([], 0)) as (s3 & E3 & Hs3); try done.
  { by eapply can_list_rest. }
  { eapply present_rest; [exact Hs2|]. eapply listed_present; [apply Hc1|exact HL1]. }
  { eapply Forall2_impl; [exact HW|]. intros. by eapply wire_of_rest. }
  destruct (pushes_prefix dircount (maxcount - 128) ([], 0) W) as (P & rest & EW & EP & Eeof).
  unfold st_bind at 1. rewrite E3. destruct (pushes dircount (maxcount - 128) ([], 0) W) as [es eof] eqn:Ep. cbn [fst snd app] in EP, Eeof. subst es.
  assert (P = [] -> W = []) as HP.
  { intros ->. destruct W as [|w W]; [done|]. apply Forall_cons in Hfit as [Hw _]. cbn [pushes] in Ep.
    destruct (try_push_plus dircount (maxcount - 128) w ([], 0)) as [acc|] eqn:Ea; [|done].
    pose proof (try_push_app _ _ _ _ _ Ea) as Hacc. destruct (pushes_prefix dircount (maxcount - 128) acc W) as (P' & r' & _ & Epf & _).
    rewrite Ep, Hacc in Epf. done. }
  exists attrs, (cookieverf_from_attr attrs), P, rest, s3. split_and!; [done|done|by eapply resting_trans|].
  assert (eof = bool_decide (rest = [])) as ->.
  { destruct eof; [rewrite bool_decide_eq_true_2; [done|by apply Eeof]|]. rewrite bool_decide_eq_false_2; [done|]. intros Hrest. by apply Eeof in Hrest. }
  destruct (bool_decide (P = []) && negb (bool_decide (rest = []))) eqn:Eb; [|done].
  apply andb_true_iff in Eb as [H1%bool_decide_eq_true H2]. rewrite (HP H1) in EW. symmetry in EW. apply app_eq_nil in EW as [_ ->]. done.
Qed.

Lemma client_lists_all rounds dir id i n s cookie verf L W : ne_rate_limited x = false -> 128 <= maxcount -> (2 <= fuel)%nat -> (length L < fuel)%nat ->
  fh_from_nfs cv dir = Ok id -> fh_verify (ne_fh x) id = Some i -> can_list x auth s i n -> is_u64 cookie ->
  listed (n_vol s) i cookie L -> Forall2 (wire_of x cv (n_vol s)) L W ->
  Forall (fun w => try_push_plus dircount (maxcount - 128) w ([], 0) <> None) W -> (length L < rounds)%nat ->
  exists s', nfs_client_list rounds dir cookie verf s = (Ok W, s') /\ resting s s'.
Proof.
  intros Hrate Hmax Hf2 Hf Hh Hv. revert s cookie verf L W Hf. induction rounds as [|rounds IH]; intros s cookie verf L W Hf Hc Hck HL HW Hfit Hr; [lia|].
  destruct (readdirplus_reply dir id i n s cookie verf L W) as (attrs & verf' & P & rest & s1 & EW & HP & Hs1 & E); try done.
  cbn [nfs_client_list]. unfold st_bind at 1. rewrite E. case_bool_decide as Hrest.
  { exists s1. split; [|done]. subst rest. by rewrite EW, app_nil_r. }
  subst W. apply Forall2_app_inv_r in HW as (L1 & L2 & HW1 & HW2 & EL).
  destruct P as [|w P] using rev_ind; [destruct rest; [done|by specialize (HP eq_refl)]|]. clear IHP.
  apply Forall2_app_inv_r in HW1 as (L0 & Le & HW0 & He & EL1). apply Forall2_cons_inv_r in He as (e & Le' & He & Hnil & ->).
  apply Forall2_nil_inv_r in Hnil as ->. rewrite last_snoc. subst L1 L. rewrite <- app_assoc in HL. cbn [app] in HL.
  assert (ep_cookie w = de_cookie e) as Ew by (by destruct He as (m & _ & ->)). change (default cookie (ep_cookie <$> Some w)) with (ep_cookie w). rewrite Ew.
  pose proof (sl_store _ _ (rg_vol _ _ Hs1)) as Hst. rewrite !length_app in Hr, Hf. cbn in Hr, Hf. apply Forall_app in Hfit as [_ Hfit].
  destruct (IH s1 (de_cookie e) verf' L2 rest) as (s2 & E2 & Hs2); try done; [lia|by eapply can_list_rest| | | |lia|].
  - eapply listed_cookie; [apply Hc|exact HL|set_solver].
  - eapply listed_store; [exact Hst|]. by eapply listed_rest.
  - eapply Forall2_impl; [exact HW2|]. intros. by eapply wire_of_rest.
  - exists s2. unfold st_bind. rewrite E2. split; [done|by eapply resting_trans].
Qed.
End client.

(** C26: on a quiet consistent volume, a client that pages through a directory
    it may read with READDIRPLUS gets exactly its entries, each once and in
    cookie order, with the attributes of its inode and a handle to it, however
    the replies are cut, provided that it asks for replies of at least the 128
    bytes the server sets aside and in which every entry fits alone (a request
    below either size is answered TOOSMALL); nothing changes but caches. *)
Theorem nfs_readdirplus_complete `{DB : SlateDB} {AC : MokaCache u64 Inode} {NC : MokaCache (u64 * bytes) unit} {NCR : NameCrypto} {HM : HmacSha256}
    {XC : XdrCodec} others fuel x cv auth dircount maxcount rounds dir id i n s verf L :
  ne_rate_limited x = false -> 128 <= maxcount -> (2 <= fuel)%nat -> (length L < fuel)%nat -> (length L < rounds)%nat ->
  fh_from_nfs cv dir = Ok id -> fh_verify (ne_fh x) id = Some i ->
  Inv (n_vol s) -> quiet (n_vol s) -> inode_of (n_vol s) i = Some n -> i_kind n = Dir -> access (nfs_creds x auth) n ACCESS_R = Ok tt ->
  listed (n_vol s) i 0 L ->
  (forall e w, e ∈ L -> wire_of x cv (n_vol s) e w -> try_push_plus dircount (maxcount - 128) w ([], 0) <> None) ->
  exists W s', nfs_client_list others fuel x cv auth dircount maxcount rounds dir 0 verf s = (Ok W, s') /\
    Forall2 (wire_of x cv (n_vol s)) L W /\ store (n_vol s') = store (n_vol s).
Proof.
  intros Hrate Hmax Hf2 Hf Hr Hh Hv Hi Hq Hn Hk Ha HL Hfit.
  assert (exists W, Forall2 (wire_of x cv (n_vol s)) L W) as [W HW].
  { apply Forall_choose, Forall_forall. intros e He. destruct (listed_child _ _ _ _ e Hi HL He) as [m Hm].
    eexists. exists m. split; [by apply inode_of_node|reflexivity]. }
  destruct (client_lists_all others fuel x cv auth dircount maxcount rounds dir id i n s 0 verf L W) as (s' & E & Hs); try done.
  - split; try done. by apply inode_of_node.
  - apply Forall_forall. intros w Hw. apply list_elem_of_lookup in Hw as [j Hj]. destruct (Forall2_lookup_r _ _ _ _ _ HW Hj) as (e & He & Hwe).
    apply (Hfit e); [by eapply list_elem_of_lookup_2|done].
  - exists W, s'. split_and!; [done|done|apply Hs].
Qed.
