(* ===== verification/NfsExcl.v ===== *)
(** Exclusive creation over NFS: a creation that succeeded can be repeated,
    by the client that made it and by nobody else. *)

From S2P Require Import Prelude Keys Meta Store Data Quota Locks Volume Vfs Tree Wf WfOps VfsLogic VfsInv Reap.
From S2P Require Import OpsAttr OpsRead OpsCreate OpsRemove OpsRename OpsData OpsHandle System Spec Namespace Files NfsFh NfsTx Nfs.

Section exclusive.
Context {DB : SlateDB} {AC : MokaCache u64 Inode} {NC : MokaCache (u64 * bytes) unit} {NCR : NameCrypto} {HM : HmacSha256}.
Context (x : NfsExport) (auth : option auth_unix).
Implicit Types (v : Volume) (s : Nfs).
Abbreviation creds := (nfs_creds x auth).

(** [name] in [p] is the file [i] with the handle [h], which [creds] created
    with the verifier [verf] and may read; they may still write [p]. *)
Record claimed v (p : u64) (name : bytes) (verf : bytes) (h : SlateFsHandle) : Prop := mkClaimed {
  cm_name : validate_name name = Ok tt;
  cm_dir : exists pn, inode_of v p = Some pn /\ i_kind pn = Dir /\ access creds pn WX = Ok tt;
  cm_file : exists i n, names_of v p name = Some i /\ inode_of v i = Some n /\ access creds n ACCESS_R = Ok tt /\
    xattr_of v i EXCL_VERF_XATTR = Some verf /\ h = handle_for x (make_attr i n)
}.

Lemma claimed_same_files v v' p name verf h :
  same_files (store v) (store v') -> v_names v' = v_names v -> claimed v p name verf h -> claimed v' p name verf h.
Proof.
  intros Hs Hn [H1 (pn & H2) (i & n & H3 & H4)]. split; [done|exists pn|exists i, n].
  - unfold inode_of in *. by rewrite Hs.
  - unfold names_of, inode_of, xattr_of in *. rewrite !Hs by done. split; [|done].
    rewrite Hn. rewrite <- H3. apply entry_agree. intros. by apply Hs.
Qed.

(** ** Rights *)

Lemma access_part c n want w : Z.land want w = w -> access c n want = Ok tt -> access c n w = Ok tt.
Proof.
  intros Hw. unfold access. case_match; [done|].
  match goal with |- context [Z.land ?bits want =? want] => set (b := bits) end.
  destruct (Z.eqb_spec (Z.land b want) want) as [E|]; [|done]. intros _.
  replace (Z.land b w) with w; [by rewrite Z.eqb_refl|]. rewrite <- Hw at 2. by rewrite Z.land_assoc, E.
Qed.

Lemma access_rights c n n' want : rights n' = rights n -> access c n' want = access c n want.
Proof. intros [= E1 E2 E3 _]. unfold access. by rewrite E1, E2, E3. Qed.

(** The creator of a file with mode 0644 may read it. *)
Lemma access_new c dir ts : access c (new_inode c File 420 dir ts) ACCESS_R = Ok tt.
Proof. unfold access, new_inode, new_node_ids. destruct (is_privileged c); [done|]. cbn. by rewrite Z.eqb_refl. Qed.

(** ** The first call *)

Lemma create_claims v p name a v1 v2 pn ts i verf :
  inode_of v p = Some pn -> access creds pn WX = Ok tt -> validate_name name = Ok tt ->
  a = make_attr i (new_inode creds File 420 pn ts) ->
  gained p name i (new_inode creds File 420 pn ts) v v1 ->
  v_names v2 = v_names v1 -> v_chunk_size v2 = v_chunk_size v1 -> xattr_set creds i EXCL_VERF_XATTR verf v1 v2 ->
  claimed v2 p name verf (handle_for x a).
Proof.
  intros Hp Hacc Hval -> Hg Hn Hcs Hset. pose proof (gn_child _ _ _ _ _ _ Hg) as Hc.
  destruct (xattr_set_views _ _ _ _ _ _ Hn Hcs Hset) as (Hx & Hnm & _ & Ho & n1 & t & Hn1 & Hn2).
  assert (n1 = new_inode creds File 420 pn ts) as -> by congruence.
  assert (p <> i) as Hne by (intros ->; pose proof (gn_fresh _ _ _ _ _ _ Hg); congruence).
  destruct (gn_parent _ _ _ _ _ _ Hg) as (pn0 & pn' & Hp0 & Hp' & _ & Hk & _ & _ & _ & Hr & _).
  assert (pn0 = pn) as -> by congruence. split; [done| |].
  - exists pn'. rewrite Ho by done. split_and!; [done..|]. by rewrite (access_rights _ pn).
  - exists i, (set_i_ctime t (new_inode creds File 420 pn ts)). rewrite Hnm, (gn_names _ _ _ _ _ _ Hg).
    unfold renamed_to. rewrite decide_True by done. split_and!; [done|done| | |].
    + rewrite (access_rights _ (new_inode creds File 420 pn ts)) by done. apply access_new.
    + by rewrite Hx, decide_True.
    + done.
Qed.

Lemma rate_passed b s r s' : nfs_check_rate x b s = (r, s') ->
  n_vol s' = n_vol s /\ (head (n_admits s) <> Some false -> r = Ok tt).
Proof.
  unfold nfs_check_rate. case_match; [|by intros [= <- <-]]. unfold st_bind, st_get, st_modify, nfail, st_fail, st_ret.
  destruct (n_admits s) as [|[] l]; intros [= <- <-]; split; done.
Qed.

Lemma first_call fuel s d p name verf h s1 :
  ready fuel (n_vol s) -> fh_verify (ne_fh x) d = Some p -> names_of (n_vol s) p name = None ->
  (forall a v1, create nobody creds p name 420 true (n_vol s) = (Ok a, v1) -> ready fuel v1) ->
  nfs_create_exclusive nobody x auth d name verf s = (Ok h, s1) -> claimed (n_vol s1) p name verf h.
Proof.
  intros Hr Hd Hfree Hroom. unfold nfs_create_exclusive, ino_of. rewrite Hd.
  unfold st_bind at 1, st_ret at 1. unfold st_bind at 1.
  destruct (nfs_check_rate x 0 s) as [[[]|e] s0] eqn:E0; [|done]. destruct (rate_passed _ _ _ _ E0) as [Hv _].
  unfold st_bind at 1, ntry at 1. rewrite Hv.
  pose proof (create_outcome fuel (n_vol s) creds p name 420 true Hr) as Ho. unfold outcome in Ho.
  destruct (create _ _ _ _ _ _ (n_vol s)) as [[a|[e|]] v1] eqn:Ec; [| |done].
  - destruct Ho as [_ [(pn & ts & i & Hp & Hacc & Hval & Ha & Hg)|[? _]]]; [|done].
    unfold acall, st_bind, ntry. cbn [n_vol set_n_vol].
    pose proof (setxattr_outcome fuel v1 creds (a_ino a) EXCL_VERF_XATTR verf (Hroom _ _ eq_refl)) as Hx. unfold outcome in Hx.
    destruct (setxattr _ _ _ _ _ v1) as [[[]|[e|]] v2]; [| |done].
    + intros [= <- <-]. destruct Hx as (_ & _ & _ & Hn & Hcs & Hset). cbn [n_vol set_n_vol].
      replace (a_ino a) with i in Hset by by rewrite Ha. by eapply create_claims.
    + unfold map_vfs_result, st_bind, status. by destruct e, (ne_audited x).
  - destruct Ho as (_ & _ & [Hf|(? & ? & ? & _)]); [|done].
    assert (e <> Exists) as Hne.
    { intros ->. destruct Hf as [Hf|[[[? _]|[? _]]|[[? _]|[[_ [? Hf]]|[? _]]]]]; [|done..|unfold names_of in Hfree; congruence|done].
      unfold validate_name in Hf. by repeat case_match. }
    unfold map_vfs_result, st_bind, status. by destruct e, (ne_audited x).
Qed.

(** ** The second call *)

Lemma create_exists fuel v p name verf h :
  ready fuel v -> claimed v p name verf h ->
  exists v', create nobody creds p name 420 true v = (Err (Raise Exists), v') /\ Inv v' /\ quiet v' /\
    same_files (store v) (store v') /\ claimed v' p name verf h.
Proof.
  intros Hr Hc. pose proof (create_outcome fuel v creds p name 420 true Hr) as Ho. unfold outcome in Ho.
  pose proof Hc as [Hval (pn & Hp & Hk & Hacc) (i & n & Hi & Hn)]. apply inode_of_node in Hp as Hp'.
  destruct (create _ _ _ _ _ _ v) as [[a|[e|]] v1]; [exfalso| |done].
  - destruct Ho as [_ [(? & ? & ? & _ & _ & _ & _ & Hg)|[? _]]]; [|done]. pose proof (gn_absent _ _ _ _ _ _ Hg). congruence.
  - destruct Ho as ([H1 H2 H3] & Hs & [Hf|(? & ? & ? & _)]); [|done]. exists v1. split_and!; [|done..|].
    + destruct Hf as [Hf|[[[_ Hf]|(_ & ? & Hf & ?)]|[(_ & ? & Hf & Ha)|[[-> _]|(_ & _ & Hf)]]]]; try congruence.
      * unfold names_of in Hi. congruence.
    + by eapply claimed_same_files.
Qed.

Lemma lookup_claimed v p name verf h :
  Inv v -> quiet v -> claimed v p name verf h ->
  exists a v', lookup creds p name v = (Ok a, v') /\ Inv v' /\ quiet v' /\ store v' = store v /\ claimed v' p name verf h /\
    h = handle_for x a /\ names_of v' p name = Some (a_ino a).
Proof.
  intros Hi Hq [Hval (pn & Hp & Hk & Hacc) (i & n & Hi' & Hn & Hx)]. apply inode_of_node in Hp as Hp'.
  pose proof (lookup_outcome v creds p name Hi Hq) as Ho. unfold outcome in Ho.
  destruct (lookup creds p name v) as [[a|[e|]] v1]; [|exfalso|done].
  - destruct Ho as ([H1 H2 H3] & Hs & pn' & _ & _ & _ & [[-> _]|[[-> _]|(_ & i2 & n2 & Hi2 & Hn2 & ->)]]); [done..|].
    assert (i2 = i) as -> by congruence. assert (n2 = n) as -> by congruence.
    exists (make_attr i n), v1. split_and!; try done; [|by destruct Hx as (_ & _ & ->)|by unfold names_of; rewrite H3, Hs].
    apply (claimed_same_files v); [by intros k _; rewrite Hs|done|]. split; eauto.
  - destruct Ho as (_ & _ & [[[_ Hf]|(_ & ? & Hf & ?)]|[(_ & ? & Hf & Ha)|[(_ & _ & Hf)|(_ & _ & Hf)]]]); try congruence.
    + assert (x0 = pn) as -> by congruence. by rewrite (access_part _ _ WX ACCESS_X) in Ha.
    + unfold names_of in Hi'. congruence.
Qed.
Lemma getxattr_claimed v p name verf h i :
  Inv v -> quiet v -> claimed v p name verf h -> names_of v p name = Some i ->
  exists v', getxattr creds i EXCL_VERF_XATTR v = (Ok verf, v') /\ store v' = store v.
Proof.
  intros Hi Hq [_ _ (i' & n & Hi' & Hn & Ha & Hx & _)] Hi2. assert (i' = i) as -> by congruence. apply inode_of_node in Hn.
  pose proof (getxattr_outcome v creds i EXCL_VERF_XATTR Hi Hq) as Ho. unfold outcome in Ho.
  destruct (getxattr creds i EXCL_VERF_XATTR v) as [[b|[e|]] v1]; [|exfalso|done].
  - destruct Ho as (_ & Hs & Hb). exists v1. split; congruence.
  - destruct Ho as (_ & _ & [[_ ?]|[[_ ?]|[(_ & n2 & Hn2 & Ha2)|[_ ?]]]]); try congruence; done.
Qed.

Lemma claimed_again fuel s d p name verf verf' h :
  ready fuel (n_vol s) -> head (n_admits s) <> Some false -> fh_verify (ne_fh x) d = Some p ->
  claimed (n_vol s) p name verf h ->
  exists s', nfs_create_exclusive nobody x auth d name verf' s =
      (if bool_decide (verf' = verf) then Ok h else Err (Raise (NStat NFS3ERR_EXIST)), s') /\
    same_files (store (n_vol s)) (store (n_vol s')).
Proof.
  intros Hr Hadm Hd Hc. unfold nfs_create_exclusive, ino_of. rewrite Hd. unfold st_bind at 1, st_ret at 1. unfold st_bind at 1.
  destruct (nfs_check_rate x 0 s) as [r s0] eqn:E0. destruct (rate_passed _ _ _ _ E0) as [Hv ->]; [|done].
  destruct (create_exists fuel (n_vol s) p name verf h Hr Hc) as (v1 & Ec & Hi1 & Hq1 & Hs1 & Hc1).
  unfold st_bind at 1, ntry at 1. rewrite Hv, Ec.
  destruct (lookup_claimed v1 p name verf h Hi1 Hq1 Hc1) as (a & v2 & El & Hi2 & Hq2 & Hs2 & Hc2 & -> & Hn2).
  destruct (getxattr_claimed v2 p name verf _ (a_ino a) Hi2 Hq2 Hc2 Hn2) as (v3 & Ex & Hs3).
  unfold ncall, st_bind, ntry. cbn [n_vol set_n_vol]. rewrite El. unfold status, st_ret. cbn [n_vol set_n_vol]. rewrite Ex.
  exists (set_n_vol v3 (set_n_vol v2 (set_n_vol v1 s0))). rewrite (bool_decide_ext (verf = verf') (verf' = verf)) by (split; congruence).
  split; [by case_bool_decide|]. cbn. intros k Hk. by rewrite Hs3, Hs2, Hs1.
Qed.

(** C27: an exclusive creation can be repeated: once a client created a free
    name with its verifier, the same call answers the same handle and creates
    nothing, and a call with another verifier answers that the name exists. *)
Theorem nfs_exclusive_create fuel s d p name verf h s1 verf' :
  ready fuel (n_vol s) -> fh_verify (ne_fh x) d = Some p -> names_of (n_vol s) p name = None ->
  (forall a v1, create nobody creds p name 420 true (n_vol s) = (Ok a, v1) -> ready fuel v1) ->
  nfs_create_exclusive nobody x auth d name verf s = (Ok h, s1) ->
  ready fuel (n_vol s1) -> head (n_admits s1) <> Some false ->
  exists s2, nfs_create_exclusive nobody x auth d name verf' s1 =
      (if bool_decide (verf' = verf) then Ok h else Err (Raise (NStat NFS3ERR_EXIST)), s2) /\
    same_files (store (n_vol s1)) (store (n_vol s2)).
Proof. intros Hr Hd Hfree Hroom Hrun Hr1 Hadm. apply (claimed_again fuel s1 d p); [done..|]. by apply (first_call fuel s d). Qed.
End exclusive.
