(* ===== verification/NfsWitness.v ===== *)
(** The theorems on the NFS server applied to concrete messages. *)

From S2P Require Import Prelude Keys Meta Store Data Quota Locks Volume Vfs Tree Wf WfOps VfsLogic VfsInv Reap.
From S2P Require Import OpsAttr OpsRead OpsCreate OpsRemove OpsRename OpsData OpsHandle System Mount Concrete Spec Namespace Files Fence.
From S2P Require Import Safety Demo NfsFh NfsTx Nfs NfsSrv NfsThm NfsDir NfsExcl.

(** ** The libraries the server uses *)

(** A keyed checksum of 32 bytes. *)
Definition checksum (key msg : bytes) : bytes :=
  replicate 32 (foldl (fun acc b => (acc * 31 + b + 7) mod 65521) 17 (key ++ [255] ++ msg) mod 256).

Lemma checksum_length key msg : length (checksum key msg) = 32%nat.
Proof. apply length_replicate. Qed.
Lemma checksum_bytes key msg : Forall is_u8 (checksum key msg).
Proof. apply Forall_replicate. unfold is_u8. apply Z.mod_pos_bound. lia. Qed.

#[global] Instance demo_hmac : HmacSha256 :=
  {| hmac_sha256 := checksum; hmac_length := checksum_length; hmac_bytes := checksum_bytes |}.

(** The sizes of XDR: four-byte units, opaques with their length in front. *)
Definition pad4 (n : Z) : Z := (n + 3) / 4 * 4.
Definition opaque_size (b : bytes) : usize := 4 + pad4 (len b).
Definition entry_size (e : entry3) : usize := 8 + opaque_size (e3_name e) + 8.
Definition entryplus_size (e : entryplus3) : usize :=
  8 + opaque_size (ep_name e) + 8 + (if ep_attributes e is Some _ then 88 else 4) + match ep_handle e with Some h => 4 + opaque_size h | None => 4 end.

#[global] Instance demo_xdr : XdrCodec := {|
  entry_fits max l e := foldr (fun e n => 4 + entry_size e + n) 4 (e :: l) <=? max;
  entryplus_fits max l e := foldr (fun e n => 4 + entryplus_size e + n) 4 (e :: l) <=? max;
  xid_size := 4;
  u64_size := 8;
  filename3_size := opaque_size;
  readdir3resok_size attr verf := (if attr is Some _ then 88 else 4) + 8 + 4 + 4
|}.

(** Messages of one byte per field, handles of a fixed length. *)
#[global] Instance demo_rpc : RpcCodec := {|
  rpc_unpack msg :=
    match msg with
    | xid :: prog :: proc :: uid :: args =>
        Some {| rc_xid := xid; rc_rpcvers := 2; rc_prog := 100000 + prog; rc_vers := 3; rc_proc := proc; rc_cred := AUTH_UNIX [uid]; rc_args := args |}
    | _ => None
    end;
  auth_unix_unpack b := match b with [uid] => Some {| au_uid := uid; au_gid := uid; au_gids := [] |} | _ => None end;
  auth_unix_default := {| au_uid := 0; au_gid := 0; au_gids := [] |};
  nfs_unpack proc :=
    if proc =? 0 then Some (fun _ => Some (A_NULL, 0))
    else if proc =? 1 then Some (fun b => Some (A_GETATTR b, len b))
    else if proc =? 12 then Some (fun b => Some (A_REMOVE (slice b 0 45) (slice b 45 (len b)), len b))
    else None;
  mount_unpack proc := if proc =? 1 then Some (fun b => Some (M_MNT b, len b)) else None;
  getport_unpack b := Some (len b);
  auth_unix_default_uid := eq_refl
|}.

(** ** An export *)

Definition demo_codec : FhCodec := {| fc_fsid := 7; fc_key := [1; 2; 3] |}.
Definition demo_cv : FileHandleConverter := {| generation_number := 1000; instance_verf := to_be 8 5 |}.
Definition demo_nfs : NfsExport :=
  {| ne_fh := demo_codec; ne_policy := {| sq_mode := NoSquash; sq_anon_uid := 65534; sq_anon_gid := 65534 |};
     ne_atime_policy := Noatime; ne_rate_limited := false; ne_audited := true |}.
Definition demo_cx : RPCContext :=
  {| cx_export := demo_nfs; cx_converter := demo_cv; cx_export_name := [47]; cx_local_port := 2049; cx_client_addr := [49] |}.
Definition demo_root : SlateFsHandle := fh_make demo_codec ROOT_INO 0.
Definition demo_root_wire : bytes := fh_to_nfs demo_cv demo_root.
Definition demo_auth : option auth_unix := Some {| au_uid := 0; au_gid := 0; au_gids := [] |}.
Definition nfs_on (v : Volume) : Nfs := mkNfs v [] [].

Lemma demo_root_bytes : Forall is_u8 demo_root_wire.
Proof. vm_compute. repeat (constructor; [split; [intros H; discriminate H|reflexivity]|]). constructor. Qed.

Lemma nfs_handles_exact_witness :
  (exists h, fh_from_nfs demo_cv demo_root_wire = Ok h /\ fh_verify demo_codec h = Some ROOT_INO) <->
  (exists g, is_u64 ROOT_INO /\ is_u32 g /\ demo_root_wire = fh_to_nfs demo_cv (fh_make demo_codec ROOT_INO g)).
Proof. apply (nfs_handles_exact demo_cv demo_codec demo_root_wire ROOT_INO); [apply demo_root_bytes|done..]. Defined.

(** ** Transactions *)

(** One client with one request being served and one refused: the client may
    have one at a time. *)
Definition busy_tracker : Tracker := (start_transaction [49] 6 11 (start_transaction [49] 5 10 (TransactionTracker_new 60 1 4)).2).2.
Definition busy_locks : list (bytes * TransactionLock) :=
  match (start_transaction [49] 5 10 (TransactionTracker_new 60 1 4)).1 with Ok lk => [([49], lk)] | Err _ => [] end.
Definition busy_sys : TxSys := {| ts_tracker := busy_tracker; ts_locks := busy_locks |}.

Lemma busy_reached : rtc tx_step (tx_init 60 1 4) busy_sys.
Proof.
  eapply rtc_l; [eapply (step_start [49] 5 10); vm_compute; reflexivity|].
  eapply rtc_l; [eapply (step_refuse [49] 6 11); vm_compute; reflexivity|].
  vm_compute. apply rtc_refl.
Qed.

Lemma tx_bounds_witness :
  busy [49] busy_tracker = 1 /\
  busy [49] busy_tracker = len (held [49] busy_locks) /\ 0 <= busy [49] busy_tracker <= 1 /\ 1 < 2 ^ 16 /\
  StronglySorted xid_lt (table [49] busy_tracker).
Proof. split; [reflexivity|]. apply (tx_bounds 60 1 4 ltac:(lia) ltac:(lia) busy_sys [49] busy_reached). Defined.

Lemma tx_once_witness :
  (start_transaction [49] 5 12 busy_tracker).1 = Err (TxError AlreadyExists) /\
  (exists tx, tx ∈ table [49] busy_tracker /\ tx_xid tx = 5) /\
  NoDup ((fun e => (e.1, lk_xid e.2)) <$> busy_locks) /\
  (forall lk, ([49], lk) ∈ busy_locks -> is_Some (drop_lock lk 12 busy_tracker)).
Proof. split; [reflexivity|]. exact (tx_once 60 1 4 ltac:(lia) ltac:(lia) busy_sys [49] 5 12 busy_reached). Defined.

(** The request is served, and the cleaner comes after the retention. *)
Definition served_tracker : Tracker :=
  match busy_locks with (_, lk) :: _ => default busy_tracker (drop_lock lk 20 busy_tracker) | [] => busy_tracker end.
Definition served_sys : TxSys := {| ts_tracker := served_tracker; ts_locks := [] |}.

Lemma served_reached : rtc tx_step (tx_init 60 1 4) served_sys.
Proof.
  eapply rtc_r; [exact busy_reached|]. unfold busy_sys, served_sys. eapply (step_drop [49] _ 20 _ _ [] []). vm_compute. reflexivity.
Qed.

Lemma tx_remembers_witness :
  forgotten [49] {| tx_xid := 5; tx_state := Completed 20 |} served_tracker (cleanup 100 served_tracker) /\
  is_stale 100 60 {| tx_xid := 5; tx_state := Completed 20 |} = true.
Proof.
  assert (forgotten [49] {| tx_xid := 5; tx_state := Completed 20 |} served_tracker (cleanup 100 served_tracker)) as Hf.
  { split; [vm_compute; left|]. vm_compute. intros tx' H. inversion H. }
  destruct (tx_remembers 60 1 4 ltac:(lia) ltac:(lia) served_sys [49] {| tx_xid := 5; tx_state := Completed 20 |} 100 ltac:(lia) served_reached)
    as (_ & _ & H3).
  exact (conj Hf (H3 Hf)).
Defined.

(** ** Requests *)

(** A handle of the root under another server's key. *)
Definition forged_wire : bytes := fh_to_nfs demo_cv (fh_make {| fc_fsid := 7; fc_key := [9] |} ROOT_INO 0).

Lemma forged_not_authentic : ~ authentic demo_nfs demo_cv forged_wire.
Proof.
  intros (id & ino & E1 & E2). vm_compute in E1. injection E1 as <-. vm_compute in E2. discriminate E2.
Qed.

Lemma nfs_forged_witness :
  exists r, (nfs_proc nobody demo_fuel demo_nfs demo_cv demo_auth (A_REMOVE forged_wire (nm 102)) (nfs_on demo3)).1 = Ok r /\ says_nothing r /\
    n_vol (nfs_proc nobody demo_fuel demo_nfs demo_cv demo_auth (A_REMOVE forged_wire (nm 102)) (nfs_on demo3)).2 = demo3.
Proof.
  apply (nfs_forged nobody demo_fuel demo_nfs demo_cv demo_auth (A_REMOVE forged_wire (nm 102)) (nfs_on demo3)).
  - discriminate.
  - apply Forall_singleton. exact forged_not_authentic.
Defined.

(** Root removes a file, with a message that comes twice. *)
Definition remove_msg : bytes := [5; 3; 12; 0] ++ demo_root_wire ++ nm 102.
Definition demo_server : Server := {| sv_nfs := nfs_on demo3; sv_tracker := TransactionTracker_new 60 1 4 |}.
Definition accepted (r : HandleResult) : accept_stat := match r with Reply (MSG_ACCEPTED _ a) => a | _ => SYSTEM_ERR end.
Definition removed : Server := (handle_rpc_message nobody demo_fuel demo_cx remove_msg 10 11 demo_server).2.
Definition remove_reply : accept_stat := accepted (handle_rpc_message nobody demo_fuel demo_cx remove_msg 10 11 demo_server).1.

Definition answers (xid : u32) (r : HandleResult) : bool := match r with Reply (MSG_ACCEPTED i _) => i =? xid | _ => false end.
Lemma answers_run xid (x : HandleResult * Server) : answers xid x.1 = true -> x = (Reply (MSG_ACCEPTED xid (accepted x.1)), x.2).
Proof. destruct x as [r s]. unfold answers. cbn [fst snd]. repeat case_match; try done. by intros ->%Z.eqb_eq. Qed.
Lemma removed_run : handle_rpc_message nobody demo_fuel demo_cx remove_msg 10 11 demo_server = (Reply (MSG_ACCEPTED 5 remove_reply), removed).
Proof. apply answers_run. vm_compute. reflexivity. Qed.

Definition removes (a : accept_stat) : bool := match a with S_NFS (REMOVE3res (Ok _)) => true | _ => false end.
Lemma removes_ok a : removes a = true -> exists w, a = S_NFS (REMOVE3res (Ok w)).
Proof. unfold removes. intros H. repeat case_match; try done. by eexists. Qed.
Lemma removed_reply : exists w, remove_reply = S_NFS (REMOVE3res (Ok w)).
Proof. apply removes_ok. vm_compute. reflexivity. Qed.

Lemma nfs_replay_witness :
  (exists w, remove_reply = S_NFS (REMOVE3res (Ok w))) /\
  exists t, handle_rpc_message nobody demo_fuel demo_cx remove_msg 500 501 removed = (NoReply, {| sv_nfs := sv_nfs removed; sv_tracker := t |}).
Proof.
  split; [exact removed_reply|].
  apply (nfs_replay nobody demo_fuel demo_cx 60 1 4 remove_msg 10 11 500 501 demo_server removed [] 5 remove_reply);
    [lia|lia|lia|apply rtc_refl|exact removed_run|].
  destruct removed_reply as [w E]. rewrite E. discriminate.
Defined.

(** ** A listing *)

Definition demo_page : list DirEntry :=
  match (readdir root_user ROOT_INO 0 100 demo3).1 with Ok rd => rd_entries rd | Err _ => [] end.

Lemma demo_listed : listed demo3 ROOT_INO 0 demo_page.
Proof.
  pose proof (readdir_outcome demo3 root_user ROOT_INO 0 100 (rd_inv _ _ demo3_ready) (rd_quiet _ _ demo3_ready) ltac:(done) ltac:(lia)) as Ho.
  unfold outcome in Ho. assert (is_ok (readdir root_user ROOT_INO 0 100 demo3).1 = true) as Hok by reflexivity.
  assert (match (readdir root_user ROOT_INO 0 100 demo3).1 with Ok rd => rd_eof rd | Err _ => false end = true) as Heof by reflexivity.
  unfold demo_page. destruct (readdir root_user ROOT_INO 0 100 demo3) as [[rd|e] v]; cbn [fst] in *; [|discriminate Hok].
  destruct Ho as (_ & (pn & L & _ & _ & _ & HL & Hent & He) & _). rewrite He in Heof. apply Z.leb_le in Heof.
  rewrite Hent, take_ge; [exact HL|]. unfold len in Heof. lia.
Qed.

Definition demo_root_inode : Inode := default (Inode_new File 0 0 0 {| secs := 0; nanos := 0 |}) (inode_of demo3 ROOT_INO).

Lemma demo_root_is : inode_of demo3 ROOT_INO = Some demo_root_inode.
Proof. vm_compute. reflexivity. Qed.
Lemma demo_root_dir : i_kind demo_root_inode = Dir.
Proof. vm_compute. reflexivity. Qed.
Lemma demo_root_fh : fh_from_nfs demo_cv demo_root_wire = Ok demo_root.
Proof. vm_compute. reflexivity. Qed.
Lemma demo_root_verified : fh_verify demo_codec demo_root = Some ROOT_INO.
Proof. vm_compute. reflexivity. Qed.

Lemma fh_to_nfs_len c i g : len (fh_to_nfs demo_cv (fh_make c i g)) = 45.
Proof. unfold fh_to_nfs. rewrite len_app, raw_make, len_app, len_payload, len_mac. unfold len. by rewrite length_to_le. Qed.

(** A name of one byte leaves room in 272 bytes. *)
Lemma demo_fits e w : e ∈ demo_page -> wire_of demo_nfs demo_cv demo3 e w -> try_push_plus 1000 272 w ([], 0) <> None.
Proof.
  intros He (n & _ & ->). unfold try_push_plus, into_entry, entry_plus. cbn [ep_name dp_name ep_attributes ep_handle].
  assert (len (de_name e) = 1) as Hl.
  { revert e He. apply Forall_forall. vm_compute. repeat constructor. }
  match goal with |- context [fh_make ?c ?i ?g] => assert (len (fh_to_nfs demo_cv (fh_make c i g)) = 45) as Hh by apply fh_to_nfs_len; set (h := fh_make c i g) in * end.
  cbn. unfold entryplus_size, opaque_size. cbn. rewrite Hl, Hh. discriminate.
Qed.
Lemma nfs_readdirplus_witness :
  length demo_page = 2%nat /\
  exists W s', nfs_client_list nobody demo_fuel demo_nfs demo_cv demo_auth 1000 400 5 demo_root_wire 0 NONE_COOKIE_VERF (nfs_on demo3) = (Ok W, s') /\
    Forall2 (wire_of demo_nfs demo_cv demo3) demo_page W /\ store (n_vol s') = store demo3.
Proof.
  assert (length demo_page = 2%nat) as Hlen by reflexivity. split; [exact Hlen|].
  apply (nfs_readdirplus_complete nobody demo_fuel demo_nfs demo_cv demo_auth 1000 400 5 demo_root_wire demo_root ROOT_INO demo_root_inode
    (nfs_on demo3) NONE_COOKIE_VERF demo_page).
  - reflexivity.
  - lia.
  - vm_compute. lia.
  - rewrite Hlen. vm_compute. lia.
  - rewrite Hlen. lia.
  - exact demo_root_fh.
  - exact demo_root_verified.
  - exact (rd_inv _ _ demo3_ready).
  - exact (rd_quiet _ _ demo3_ready).
  - exact demo_root_is.
  - exact demo_root_dir.
  - reflexivity.
  - exact demo_listed.
  - exact demo_fits.
Defined.

(** ** An exclusive creation *)

Definition root_creds : Credentials := nfs_creds demo_nfs demo_auth.
Definition verf1 : bytes := to_be 8 77.
Definition verf2 : bytes := to_be 8 78.
Definition created4 : Volume := after demo3 (CCreate root_creds ROOT_INO (nm 120) 420 true).
Definition created5 : Volume := after created4 (CSetxattr root_creds 4 EXCL_VERF_XATTR verf1).
Definition created_fh : SlateFsHandle := fh_make demo_codec 4 0.

Lemma created4_ready : ready demo_fuel created4.
Proof. apply after_ready; [apply demo3_ready|done|]. vm_compute. reflexivity. Qed.
Lemma created5_ready : ready demo_fuel created5.
Proof. apply after_ready; [apply created4_ready|done|]. vm_compute. reflexivity. Qed.

Lemma create_room a v1 : create nobody root_creds ROOT_INO (nm 120) 420 true demo3 = (Ok a, v1) -> ready demo_fuel v1.
Proof.
  intros E. replace v1 with created4; [exact created4_ready|]. unfold created4, after. cbn [run]. unfold void, st_bind. by rewrite E.
Qed.
Definition identity (r : result (Halt FsError) FileAttr) : option (u64 * u64) :=
  match r with Ok a => Some (a_ino a, a_generation a) | Err _ => None end.
Lemma created_identity : identity (create nobody root_creds ROOT_INO (nm 120) 420 true demo3).1 = Some (4, 0).
Proof. vm_compute. reflexivity. Qed.
Lemma verifier_set : is_ok (setxattr nobody root_creds 4 EXCL_VERF_XATTR verf1 created4).1 = true.
Proof. vm_compute. reflexivity. Qed.

Lemma created4_is a v : create nobody root_creds ROOT_INO (nm 120) 420 true demo3 = (Ok a, v) -> created4 = v.
Proof. intros E. unfold created4, after. cbn [run]. unfold void, st_bind. by rewrite E. Qed.
Lemma created5_is v : setxattr nobody root_creds 4 EXCL_VERF_XATTR verf1 created4 = (Ok tt, v) -> created5 = v.
Proof. intros E. unfold created5, after. cbn [run]. by rewrite E. Qed.

Lemma create_run : nfs_create_exclusive nobody demo_nfs demo_auth demo_root (nm 120) verf1 (nfs_on demo3) = (Ok created_fh, nfs_on created5).
Proof.
  pose proof created_identity as Hi. pose proof verifier_set as Hs.
  destruct (create nobody root_creds ROOT_INO (nm 120) 420 true demo3) as [[a|] v1] eqn:E1; [|discriminate Hi]. injection Hi as Ha Hg.
  rewrite (created4_is _ _ E1) in Hs.
  destruct (setxattr nobody root_creds 4 EXCL_VERF_XATTR verf1 v1) as [[[]|] v2] eqn:E2; [|discriminate Hs].
  rewrite <- (created4_is _ _ E1) in E2. pose proof (created5_is _ E2) as E5. rewrite (created4_is _ _ E1) in E2. rewrite E5.
  unfold nfs_create_exclusive, ino_of, acall, ntry, st_bind. change (ne_fh demo_nfs) with demo_codec. rewrite demo_root_verified.
  change (nfs_creds demo_nfs demo_auth) with root_creds. change (nfs_check_rate demo_nfs 0) with (st_ret (S := Nfs) (E := Halt NfsFail) tt).
  unfold st_ret. cbv beta iota. change (n_vol (nfs_on demo3)) with demo3. rewrite E1. cbv beta iota. rewrite Ha.
  change (n_vol (set_n_vol v1 (nfs_on demo3))) with v1. rewrite E2. cbv beta iota. unfold handle_for, created_fh. by rewrite Ha, Hg.
Qed.
Lemma demo_name_free : names_of demo3 ROOT_INO (nm 120) = None.
Proof. vm_compute. reflexivity. Qed.

Lemma nfs_exclusive_create_witness :
  (exists s2, nfs_create_exclusive nobody demo_nfs demo_auth demo_root (nm 120) verf1 (nfs_on created5) = (Ok created_fh, s2) /\
     same_files (store created5) (store (n_vol s2))) /\
  (exists s2, nfs_create_exclusive nobody demo_nfs demo_auth demo_root (nm 120) verf2 (nfs_on created5) =
      (Err (Raise (NStat NFS3ERR_EXIST)), s2) /\ same_files (store created5) (store (n_vol s2))).
Proof.
  split.
  - apply (nfs_exclusive_create demo_nfs demo_auth demo_fuel (nfs_on demo3) demo_root ROOT_INO (nm 120) verf1 created_fh (nfs_on created5) verf1);
      [exact demo3_ready|exact demo_root_verified|exact demo_name_free|exact create_room|exact create_run|exact created5_ready|discriminate].
  - apply (nfs_exclusive_create demo_nfs demo_auth demo_fuel (nfs_on demo3) demo_root ROOT_INO (nm 120) verf1 created_fh (nfs_on created5) verf2);
      [exact demo3_ready|exact demo_root_verified|exact demo_name_free|exact create_room|exact create_run|exact created5_ready|discriminate].
Defined.
